(* ===== verification/_CoqProject ===== *)
-Q . S2P
Prelude.v
Types.v
Errors.v
Inode.v
Mount.v
Store.v
Namespace.v
Tree.v
NamespaceInv.v
WriteApply.v
Samples.v
WriteProps.v
Reclaim.v
ReclaimProps.v
Apply.v
NoPanic.v
Reach.v
NamespaceProps.v
ApplyProps.v
Determinism.v
Bytes.v
SnapshotCodec.v
SnapshotProps.v
Replica.v
Cluster.v
Session.v
SessionInv.v
SessionProps.v
SessionSystem.v
SessionFrame.v
Fencing.v
PathResolver.v
Placement.v
Workers.v
WorkersInv.v
WorkersProps.v
WorkersReports.v
WorkersScan.v
Cleanup.v
CleanupProps.v
Maintenance.v
Server.v
Service.v
ServiceRead.v
ServiceWrite.v
ServicePublish.v
ServiceNamespace.v
ServiceEffects.v
Writers.v
WritersEnv.v
Safety.v
ServiceSafe.v
ServiceSafeWrite.v
ServiceSafePublish.v
ServiceSystem.v
ServiceProps.v
WorkerTypes.v
FileSystem.v
BlockMeta.v
BlockStore.v
DiskLogic.v
SampleWire.v
BlockMetaProps.v
DiskInv.v
BlockStoreInv.v
BlockStoreSafe.v
BlockStoreOps.v
BlockStoreRecovery.v
BlockStoreProps.v
BlockStoreFencing.v
BlockStoreRestart.v
WorkerRuntime.v
WorkerCore.v
WorkerCoreInv.v
WorkerCoreSteps.v
WorkerCoreProps.v
WorkerStreams.v
