(* ===== verification/Prelude.v ===== *)
(** * Beryl: a verification development of the metadata authority and the block store

    Beryl stores the metadata of a distributed file system in a replicated state
    machine: clients propose commands, Raft (the openraft library) commits them to
    a log, and every metadata node applies the log to its RocksDB database. The
    leading node also serves file requests, keeps the sessions of writers and the
    reports of the workers; the workers keep the bytes of the files in blocks. This
    development is a shallow embedding of the metadata authority
    ([src/beryl-metadata], [src/beryl-types]) and of the workers' block store
    ([src/beryl-worker/src/store]) with proofs of what makes them correct.

    ** Parts and files

    - [Prelude]: machine integers, the result monad ([Ok], [Err], [Panic]),
      inversion tactics, the absence-of-panic tactic.
    - [Types], [Errors], [Inode], [Mount]: the value types of [beryl-types],
      [error.rs] and [raft/response.rs], [inode.rs] (files and publications), the
      mount table of [mount/mod.rs].
    - [Store]: the column families as typed maps, the reads of
      [raft/storage/query.rs], the write batches of [raft/storage/transaction.rs].
    - [Namespace], [WriteApply], [Reclaim], [Apply]: the handlers of
      [raft/state_machine/], one definition each with all guards and early
      returns, and [apply_committed], which classifies their outcomes.
    - [Tree], [NamespaceInv], [Reach], [NamespaceProps], [WriteProps],
      [ReclaimProps], [NoPanic], [ApplyProps]: the namespace invariant, its
      preservation by every command, the effect of every command, replays,
      fencing, progress and budgets of reclamation, absence of panics.
    - [Determinism]: the node-local Raft state does not influence a command,
      except the byte budget of reclamation.
    - [Bytes], [SnapshotCodec], [SnapshotProps]: the snapshot file format of
      [raft/storage/snapshot/codec.rs], byte by byte: the decoder accepts exactly
      the declared images, inverts the writer, and terminates.
    - [Replica], [Cluster]: one node ([raft/storage/log_store.rs],
      [state_machine_store.rs], [snapshot/io.rs], [read_view.rs]) as a record of
      database, memory and snapshot directory with every call openraft makes on
      it; the step relation of a cluster of such nodes; and the refinement theorem
      that each node holds the state the committed log has at its last applied
      position.
    - [Session], [SessionInv], [SessionProps], [SessionSystem]: the leader's write
      session registry of [session_registry.rs], every method as one step under
      its lock: the invariant that its indexes and counters are what the sessions
      determine, its preservation by every method without a failing assertion,
      and the theorems over all sequences of calls (exclusion, limits, exact
      activity queries, allocation retries).
    - [PathResolver], [Placement]: path resolution against the mount table and the
      namespace, and the choice of workers for reads and writes.
    - [Workers], [WorkersInv], [WorkersProps], [WorkersReports], [WorkersScan]: the
      worker manager of [worker/manager.rs]: registration, heartbeats, block
      reports and the replica index, as critical sections that interleave; the
      index is exact after any interleaving, an honest worker's report protocol
      converges to the worker's content, readiness evidence is exact, and the paged
      scan visits every replica present throughout.
    - [Cleanup], [CleanupProps]: the orphan-block cleanup of
      [maintenance/cleanup.rs]: every delete command it sends is for a block that
      was unreferenced and without a session at each of its observations.
    - [Maintenance]: the detached-root reclaimer and the lost-worker removal as
      loops over proposed commands: they drain their work when proposals commit.
    - [Server], [Service], [ServiceRead], [ServiceWrite], [ServicePublish],
      [ServiceNamespace]: the request handlers of [service/filesystem/] as programs
      over the shared state of the process (database, mounts, registry, worker
      manager, namespace lock, proposals in flight), with the awaits at which other
      requests run and at which a request can be abandoned.
    - [SessionFrame], [Fencing], [Writers], [WritersEnv], [Safety], [ServiceSafe],
      [ServiceSafeWrite], [ServiceSafePublish], [ServiceEffects]: what registry and
      state machine leave alone, the invariant of all writers with ghost tokens for
      what a running request relies on, a program logic over it, and the proofs that
      every handler keeps the invariant and changes metadata through the log alone.
    - [ServiceSystem], [ServiceProps]: the leading process as a transition system and
      its theorems: no request panics, a publication in the log belongs to the one
      session frozen for it, file content changes only to blocks issued under the
      lease, and a block that cleanup decided to reclaim is never visible again.
    - [WorkerTypes], [FileSystem], [BlockMeta], [BlockStore]: the worker's errors
      ([error.rs]), the part of [std::fs] the store uses, with calls that fail,
      machines that stop and names and bytes a crash may lose, the persisted
      metadata ([store/meta_codec.rs], the header, checks and paths of
      [store/block.rs], the conversions of [beryl-proto] it uses), and every
      operation of [FullBlockFileStore] including recovery.
    - [DiskLogic], [SampleWire], [BlockMetaProps], [DiskInv], [BlockStoreInv],
      [BlockStoreSafe], [BlockStoreOps], [BlockStoreRecovery], [BlockStoreProps],
      [BlockStoreFencing], [BlockStoreRestart]: a program logic for programs that may
      fail at every call, the round trip of metadata files, the invariant of a
      block's durable prefix and its preservation by every operation, by recovery and
      by crashes. The theorems: acknowledged bytes are read back exactly, fenced
      writers change nothing, and when no block is reclaimed a start that meets no
      error recovers. Two counterexamples show where recovery is weaker than that.

    ** Conventions

    Rust's [u64], [u32] and [usize] are [Z]; checked and saturating arithmetic is
    written out. A fallible function returns [result]; [?] is the bind. A handler
    takes the store and the Raft state to persist and returns the new store, so a
    rejected command has no store to return. Messages of errors keep their fixed
    text without interpolated values. Loops are structural on the list they
    consume; the decoder, whose loops are driven by the input, runs on fuel equal
    to the length of the input, and a theorem shows that this never runs out. The
    clock is an argument; the expiry sweep runs the source's bound of 64 rounds.

    ** Assumptions

    Parameters stand for code that is not in the repository: SHA-256, the length
    of values serialised by serde and bincode, and openraft, whose promise (entries
    are applied in log order, only sent snapshots are installed) is the predicate
    [Cluster.permitted]. RocksDB batches are atomic and durable when they return;
    failures of that database and values that do not decode are not modelled.

    Requests of the leading process interleave only where the source awaits; between
    awaits a handler is not interrupted, although threads may run in parallel. One
    process leads, and the commands that are applied are admissible
    ([ServiceSystem.allowed]).

    The generated protobuf code of block metadata is the interface [MetaWire] with
    its round trip; [SampleWire] is an instance. A sync that returns makes everything
    written before it last, also after a sync that failed; a crash keeps the bytes
    that were synced and not touched since, and finds every name that was not synced
    as it was at any time since the last sync of its directory, independently of
    other names. Operations on one block do not overlap: [checkpoint_access] and the
    callers' pins and stream ownership are taken to ensure that. A block is
    checkpointed only after it was opened since the worker started. The first call of
    a recovery does not fail ([BlockStoreProps.failed_look_skips_recovery] shows why
    this is needed), and a start is shown to succeed only where nothing was reclaimed
    ([BlockStoreProps.interrupted_deletion_blocks_start]).

    ** Not modelled

    gRPC servers and the conversion of request and response messages, the worker
    service in front of the worker manager, configuration, metrics, process start and
    shutdown; of the worker its block access pins and write streams, store
    directories, control loops and network; the client and the command line. These
    are asynchronous I/O around libraries or, for the worker's runtime and the
    client, further components whose promises are the premises named above.
*)

From stdpp Require Export prelude gmap strings sorting pretty.
From Stdlib Require Export Lia ZArith Ascii.

(** ** Machine integers

    The unsigned integers of the source are integers [Z] together with the
    largest value of their width.  Arithmetic that the source performs with
    [checked_add] or [saturating_add] is written out here; plain [+] and [-] of
    the source are plain [+] and [-] on [Z], and the theorems that matter show
    that the result stays inside the width. *)

Definition u8_max : Z := 255.
Definition u32_max : Z := 4294967295.
Definition u64_max : Z := 18446744073709551615.

(** [u64::checked_add]. *)
Definition checked_add64 (a b : Z) : option Z :=
  if bool_decide (a + b <= u64_max)%Z then Some (a + b)%Z else None.

(** [u64::saturating_add]. *)
Definition saturating_add64 (a b : Z) : Z := Z.min (a + b) u64_max.

(** [usize::checked_sub] (and [u64::checked_sub]). *)
Definition checked_sub (a b : Z) : option Z :=
  if bool_decide (b <= a)%Z then Some (a - b)%Z else None.

(** ** Results

    A Rust computation either returns [Ok], returns [Err], or panics: a failed
    [assert!], [expect], [unwrap] or a reached [unreachable!] is the third
    outcome, so that the absence of panics is a statement and not a convention
    of the model. *)

Inductive result (E A : Type) : Type :=
| Ok (a : A)
| Err (e : E)
| Panic.
Global Arguments Ok {_ _} _.
Global Arguments Err {_ _} _.
Global Arguments Panic {_ _}.

#[global] Instance result_ret {E} : MRet (result E) := fun A a => Ok a.
#[global] Instance result_bind {E} : MBind (result E) := fun A B f m =>
  match m with Ok a => f a | Err e => Err e | Panic => Panic end.
#[global] Instance result_fmap {E} : FMap (result E) := fun A B f m =>
  match m with Ok a => Ok (f a) | Err e => Err e | Panic => Panic end.

#[global] Instance result_eq_dec {E A} `{!EqDecision E, !EqDecision A} : EqDecision (result E A).
Proof. solve_decision. Defined.

(** [Option::ok_or_else]. *)
Definition ok_or {E A} (o : option A) (e : E) : result E A :=
  match o with Some a => Ok a | None => Err e end.

(** [if condition { return Err(e) }]. *)
Definition reject_if {E} (b : bool) (e : E) : result E unit :=
  if b then Err e else Ok tt.

(** [Result::map_err]. *)
Definition map_err {E E' A} (f : E -> E') (r : result E A) : result E' A :=
  match r with Ok a => Ok a | Err e => Err (f e) | Panic => Panic end.

(** [Option::expect]. *)
Definition expect {E A} (o : option A) : result E A :=
  match o with Some a => Ok a | None => Panic end.

(** [assert!]. *)
Definition assert_that {E} (b : bool) : result E unit :=
  if b then Ok tt else Panic.

Definition is_ok {E A} (r : result E A) : bool :=
  match r with Ok _ => true | _ => false end.

(** ** Inversion of successful computations *)

Section result_lemmas.
Context {E A B : Type}.
Implicit Types (e : E) (a : A) (b : B).

Lemma bind_Ok (m : result E A) (f : A -> result E B) b :
  mbind f m = Ok b <-> exists a, m = Ok a /\ f a = Ok b.
Proof. destruct m; naive_solver. Qed.

Lemma bind_Err (m : result E A) (f : A -> result E B) e :
  mbind f m = Err e <-> m = Err e \/ exists a, m = Ok a /\ f a = Err e.
Proof. destruct m; naive_solver. Qed.

Lemma bind_Panic (m : result E A) (f : A -> result E B) :
  mbind f m = Panic <-> m = Panic \/ exists a, m = Ok a /\ f a = Panic.
Proof. destruct m; naive_solver. Qed.

Lemma fmap_Ok (m : result E A) (f : A -> B) b :
  f <$> m = Ok b <-> exists a, m = Ok a /\ f a = b.
Proof. destruct m; naive_solver. Qed.

Lemma ok_or_Ok (o : option A) e a : ok_or o e = Ok a <-> o = Some a.
Proof. destruct o; naive_solver. Qed.

Lemma ok_or_Err (o : option A) e e' : ok_or o e = Err e' <-> o = None /\ e = e'.
Proof. destruct o; naive_solver. Qed.

Lemma reject_if_Ok c e u : reject_if c e = Ok u <-> c = false.
Proof. destruct c, u; naive_solver. Qed.

Lemma reject_if_Err c e e' : reject_if c e = Err e' <-> c = true /\ e = e'.
Proof. destruct c; naive_solver. Qed.

Lemma expect_Ok (o : option A) a : expect (E:=E) o = Ok a <-> o = Some a.
Proof. destruct o; naive_solver. Qed.

Lemma assert_that_Ok c u : assert_that (E:=E) c = Ok u <-> c = true.
Proof. destruct c, u; naive_solver. Qed.
End result_lemmas.

Lemma map_err_Ok {E E' A} (f : E -> E') (r : result E A) a :
  map_err f r = Ok a <-> r = Ok a.
Proof. destruct r; naive_solver. Qed.

Lemma checked_add64_Some a b c :
  checked_add64 a b = Some c <-> c = (a + b)%Z /\ (a + b <= u64_max)%Z.
Proof. unfold checked_add64. case_bool_decide; naive_solver. Qed.

Lemma checked_sub_Some a b c :
  checked_sub a b = Some c <-> c = (a - b)%Z /\ (b <= a)%Z.
Proof. unfold checked_sub. case_bool_decide; naive_solver. Qed.

(** ** Tactics

    [inv_ok] decomposes every hypothesis stating that a monadic computation
    returned [Ok]; [bool_prop] turns the boolean tests of the source into the
    propositions they decide. *)

Create HintDb boolp.
#[export] Hint Rewrite
  @bool_decide_eq_true @bool_decide_eq_false orb_false_iff orb_true_iff
  andb_true_iff andb_false_iff negb_true_iff negb_false_iff
  Z.ltb_lt Z.ltb_ge Z.leb_le Z.leb_gt Z.eqb_eq Z.eqb_neq : boolp.

Ltac bool_prop_step :=
  match goal with
  | H : bool_decide _ = true |- _ => apply bool_decide_eq_true in H
  | H : bool_decide _ = false |- _ => apply bool_decide_eq_false in H
  | H : (_ || _) = false |- _ => apply orb_false_iff in H as [? ?]
  | H : (_ || _) = true |- _ => apply orb_true_iff in H
  | H : (_ && _) = true |- _ => apply andb_true_iff in H as [? ?]
  | H : (_ && _) = false |- _ => apply andb_false_iff in H
  | H : negb _ = true |- _ => apply negb_true_iff in H
  | H : negb _ = false |- _ => apply negb_false_iff in H
  | H : (_ <? _)%Z = true |- _ => apply Z.ltb_lt in H
  | H : (_ <? _)%Z = false |- _ => apply Z.ltb_ge in H
  | H : (_ <=? _)%Z = true |- _ => apply Z.leb_le in H
  | H : (_ <=? _)%Z = false |- _ => apply Z.leb_gt in H
  | H : (_ =? _)%Z = true |- _ => apply Z.eqb_eq in H
  | H : (_ =? _)%Z = false |- _ => apply Z.eqb_neq in H
  | H : ¬ (_ ≠ _) |- _ => apply dec_stable in H
  end.
Ltac bool_prop := repeat bool_prop_step.

Ltac inv_ok_step :=
  match goal with
  | H : mbind _ _ = Ok _ |- _ => apply bind_Ok in H as (?&?&?)
  | H : fmap _ _ = Ok _ |- _ => apply fmap_Ok in H as (?&?&?)
  | H : reject_if _ _ = Ok _ |- _ => apply reject_if_Ok in H
  | H : ok_or _ _ = Ok _ |- _ => apply ok_or_Ok in H
  | H : map_err _ _ = Ok _ |- _ => apply map_err_Ok in H
  | H : expect _ = Ok _ |- _ => apply expect_Ok in H
  | H : assert_that _ = Ok _ |- _ => apply assert_that_Ok in H
  | H : Err _ = Ok _ |- _ => discriminate H
  | H : Panic = Ok _ |- _ => discriminate H
  | H : checked_add64 _ _ = Some _ |- _ => apply checked_add64_Some in H as [? ?]
  | H : checked_sub _ _ = Some _ |- _ => apply checked_sub_Some in H as [? ?]
  | H : Ok _ = Ok _ |- _ => injection H as H
  | u : unit |- _ => destruct u
  | H : context [match ?p with (_, _) => _ end] |- _ => destruct p eqn:?
  end.
Ltac inv_ok := repeat (inv_ok_step; simplify_eq/=).

(** One step of the inversion with chosen names. *)
Tactic Notation "unbind" hyp(H) "as" simple_intropattern(x) ident(Hx) :=
  apply bind_Ok in H as (x & Hx & H);
  lazymatch type of Hx with
  | ok_or _ _ = _ => apply ok_or_Ok in Hx
  | reject_if _ _ = _ => apply reject_if_Ok in Hx
  | map_err _ _ = _ => apply map_err_Ok in Hx
  | expect _ = _ => apply expect_Ok in Hx
  | assert_that _ = _ => apply assert_that_Ok in Hx
  | _ => idtac
  end;
  cbv beta iota in H.

(** Decompose a successful computation down to the store it returns. *)
Ltac inv_run :=
  repeat match goal with
  | H : mbind _ _ = Ok _ |- _ => apply bind_Ok in H as (?&?&?)
  | H : Ok _ = Ok _ |- _ => injection H as H
  | H : (_, _) = (_, _) |- _ => injection H as ? ?
  | H : Err _ = Ok _ |- _ => discriminate H
  | H : Panic = Ok _ |- _ => discriminate H
  | H : match ?x with _ => _ end = Ok _ |- _ => destruct x eqn:?
  | H : (if ?x then _ else _) = Ok _ |- _ => destruct x eqn:?
  end.

(** Close a goal stating that a disequality test of the source is false. *)
Ltac same := let H := fresh in intros H; apply H; congruence.

(** A field compared with itself. *)
Lemma neq_refl_false {A} (x : A) `{!Decision (x ≠ x)} : bool_decide (x ≠ x) = false.
Proof. apply bool_decide_eq_false_2. same. Qed.

(** ** Absence of panics

    [no_panic] walks through a computation; the hint database [np] holds what is
    known of the functions it calls. *)

Create HintDb np.

Lemma np_bind {E A B} (m : result E A) (f : A -> result E B) :
  m <> Panic -> (forall a, m = Ok a -> f a <> Panic) -> mbind f m <> Panic.
Proof. destruct m; naive_solver. Qed.
Lemma np_reject {E} b (e : E) : reject_if b e <> Panic.
Proof. by destruct b. Qed.
Lemma np_ok_or {E A} (o : option A) (e : E) : ok_or o e <> Panic.
Proof. by destruct o. Qed.
Lemma np_map_err {E E' A} (f : E -> E') (r : result E A) : r <> Panic -> map_err f r <> Panic.
Proof. by destruct r. Qed.

#[export] Hint Resolve np_reject np_ok_or np_map_err : np.

Ltac no_panic :=
  repeat match goal with
  | |- mbind _ _ <> Panic => apply np_bind; [|intros ? ?]
  | |- Ok _ <> Panic => discriminate
  | |- Err _ <> Panic => discriminate
  | |- match ?x with _ => _ end <> Panic => destruct x eqn:?
  | |- (if ?x then _ else _) <> Panic => destruct x eqn:?
  | |- _ <> Panic => solve [auto with np]
  end.
