(* ===== verification/Types.v ===== *)
(** * Shared value types (crate [beryl-types])

    Identities, counters, block layouts, fencing tokens, write locations and the
    Raft log position that orders state watermarks. Identities that the source
    wraps in one-field structs are plain integers here. *)

From S2P Require Import Prelude.
Local Open Scope Z_scope.

Notation InodeId := Z (only parsing).
Notation MountId := Z (only parsing).
Notation WorkerId := Z (only parsing).
Notation ClientId := Z (only parsing).
Notation CallId := Z (only parsing).
Notation WorkerRunId := Z (only parsing).
Notation LeaseEpoch := Z (only parsing).
Notation ContentGeneration := Z (only parsing).
Notation GroupName := string (only parsing).

(** ** Counters: [lease.rs] and [fs.rs] *)

Definition lease_checked_next (epoch : LeaseEpoch) : option LeaseEpoch :=
  checked_add64 epoch 1.

Definition generation_checked_next (generation : ContentGeneration) : option ContentGeneration :=
  checked_add64 generation 1.

(** ** Block identity: [ids.rs] *)

Record BlockId := mk_BlockId {
  block_inode_id : InodeId;
  block_index : Z
}.

#[global] Instance BlockId_eq_dec : EqDecision BlockId.
Proof. solve_decision. Defined.
#[global] Instance BlockId_countable : Countable BlockId.
Proof.
  refine (inj_countable' (fun b => (block_inode_id b, block_index b))
                         (fun p => mk_BlockId p.1 p.2) _).
  by intros [].
Defined.

(** ** Block layout: [layout.rs] *)

Definition MAX_BLOCK_SIZE : Z := 1024 * 1024 * 1024.
Definition DURABLE_PREFIX_STORAGE_CHUNK_SIZE : Z := 4 * 1024 * 1024.
Definition DURABLE_PREFIX : Z := 2.

(** [BlockFormatIdError { raw }]. *)
Inductive BlockFormatIdError := mk_BlockFormatIdError (raw : Z).

Definition block_format_from_raw (value : Z) : result BlockFormatIdError Z :=
  if bool_decide (value = 2) then Ok DURABLE_PREFIX else Err (mk_BlockFormatIdError value).

(** [BlockFormatId::spec]: the storage chunk size of a known format. *)
Definition block_format_spec (format : Z) : result BlockFormatIdError Z :=
  _ ← block_format_from_raw format;
  if bool_decide (format = DURABLE_PREFIX) then Ok DURABLE_PREFIX_STORAGE_CHUNK_SIZE else Panic.

Record FileLayout := mk_FileLayout {
  fl_block_size : Z;
  fl_block_format_id : Z
}.

#[global] Instance FileLayout_eq_dec : EqDecision FileLayout.
Proof. solve_decision. Defined.

Record BlockShape := mk_BlockShape {
  bs_block_format_id : Z;
  bs_block_size : Z;
  bs_chunk_size : Z;
  bs_effective_len : Z
}.

#[global] Instance BlockShape_eq_dec : EqDecision BlockShape.
Proof. solve_decision. Defined.

Inductive BlockShapeError :=
| BSE_ZeroBlockSize
| BSE_BlockTooLarge (actual maximum : Z)
| BSE_StorageChunkSizeMismatch (expected got : Z)
| BSE_UnknownBlockFormat (err : BlockFormatIdError)
| BSE_ZeroEffectiveLen
| BSE_EffectiveLenExceedsBlock.

Inductive FileLayoutError :=
| FLE_ZeroBlockSize
| FLE_BlockTooLarge (actual maximum : Z)
| FLE_UnknownBlockFormat (err : BlockFormatIdError).

Definition validate_block_layout_parts (format block_size chunk_size : Z)
  : result BlockShapeError unit :=
  reject_if (bool_decide (block_size = 0)) BSE_ZeroBlockSize;;
  reject_if (MAX_BLOCK_SIZE <? block_size) (BSE_BlockTooLarge block_size MAX_BLOCK_SIZE);;
  spec ← map_err BSE_UnknownBlockFormat (block_format_spec format);
  reject_if (bool_decide (chunk_size ≠ spec)) (BSE_StorageChunkSizeMismatch spec chunk_size).

Definition validate_effective_len (block_size effective_len : Z) : result BlockShapeError unit :=
  reject_if (bool_decide (effective_len = 0)) BSE_ZeroEffectiveLen;;
  reject_if (block_size <? effective_len) BSE_EffectiveLenExceedsBlock.

Definition block_shape_new (format block_size chunk_size effective_len : Z)
  : result BlockShapeError BlockShape :=
  validate_block_layout_parts format block_size chunk_size;;
  validate_effective_len block_size effective_len;;
  Ok (mk_BlockShape format block_size chunk_size effective_len).

Definition block_shape_for_effective_len (layout : FileLayout) (effective_len : Z)
  : result BlockShapeError BlockShape :=
  spec ← map_err BSE_UnknownBlockFormat (block_format_spec (fl_block_format_id layout));
  block_shape_new (fl_block_format_id layout) (fl_block_size layout) spec effective_len.

(** [FileLayoutError::from_block_shape_error]; the source's [unreachable!] arms
    are [None]. *)
Definition from_block_shape_error (err : BlockShapeError) : option FileLayoutError :=
  match err with
  | BSE_ZeroBlockSize => Some FLE_ZeroBlockSize
  | BSE_BlockTooLarge actual maximum => Some (FLE_BlockTooLarge actual maximum)
  | BSE_UnknownBlockFormat e => Some (FLE_UnknownBlockFormat e)
  | BSE_StorageChunkSizeMismatch _ _ | BSE_ZeroEffectiveLen | BSE_EffectiveLenExceedsBlock => None
  end.

Definition layout_validate (layout : FileLayout) : result FileLayoutError unit :=
  spec ← map_err FLE_UnknownBlockFormat (block_format_spec (fl_block_format_id layout));
  match block_shape_new (fl_block_format_id layout) (fl_block_size layout) spec
          (fl_block_size layout) with
  | Ok _ => Ok tt
  | Err e => match from_block_shape_error e with Some e' => Err e' | None => Panic end
  | Panic => Panic
  end.

(** The layouts the block format accepts. *)
Definition layout_ok (layout : FileLayout) : Prop :=
  fl_block_format_id layout = DURABLE_PREFIX /\ 0 < fl_block_size layout <= MAX_BLOCK_SIZE.

(** ** Fencing and write locations: [lease.rs], [location.rs], [tier.rs], [worker.rs] *)

Record FencingToken := mk_FencingToken {
  ft_block_id : BlockId;
  ft_owner : ClientId;
  ft_epoch : LeaseEpoch
}.

#[global] Instance FencingToken_eq_dec : EqDecision FencingToken.
Proof. solve_decision. Defined.

Inductive Tier := Mem | Nvme | Ssd | Hdd.

#[global] Instance Tier_eq_dec : EqDecision Tier.
Proof. solve_decision. Defined.

Inductive WriteMode := Overwrite | Append.

#[global] Instance WriteMode_eq_dec : EqDecision WriteMode.
Proof. solve_decision. Defined.

Record WorkerEndpointInfo := mk_WorkerEndpointInfo {
  we_worker_id : WorkerId;
  we_endpoint : string;
  we_worker_run_id : WorkerRunId
}.

#[global] Instance WorkerEndpointInfo_eq_dec : EqDecision WorkerEndpointInfo.
Proof. solve_decision. Defined.

Record LocatedBlock := mk_LocatedBlock {
  lb_block_id : BlockId;
  lb_file_offset : Z;
  lb_block_size : Z;
  lb_worker_endpoints : list WorkerEndpointInfo;
  lb_fencing_token : FencingToken;
  lb_write_offset : Z;
  lb_chunk_size : Z;
  lb_block_format_id : Z;
  lb_tier : Tier
}.

#[global] Instance LocatedBlock_eq_dec : EqDecision LocatedBlock.
Proof. solve_decision. Defined.

Record CommittedBlock := mk_CommittedBlock {
  cb_block_id : BlockId;
  cb_len : Z
}.

#[global] Instance CommittedBlock_eq_dec : EqDecision CommittedBlock.
Proof. solve_decision. Defined.

(** ** Raft log positions: [raft_log_id.rs], [group_watermark.rs] *)

Record RaftLogId := mk_RaftLogId {
  rl_term : Z;
  rl_leader_node_id : Z;
  rl_index : Z
}.

#[global] Instance RaftLogId_eq_dec : EqDecision RaftLogId.
Proof. solve_decision. Defined.

(** [Ordering::then_with]. *)
Definition then_with (c d : comparison) : comparison :=
  match c with Eq => d | _ => c end.

Definition raft_log_id_cmp (a b : RaftLogId) : comparison :=
  then_with (Z.compare (rl_index a) (rl_index b))
    (then_with (Z.compare (rl_term a) (rl_term b))
       (Z.compare (rl_leader_node_id a) (rl_leader_node_id b))).

Definition has_reached (applied required : RaftLogId) : bool :=
  match raft_log_id_cmp applied required with Lt => false | _ => true end.

(** ** Lemmas *)

Lemma block_format_spec_Ok format chunk :
  block_format_spec format = Ok chunk <->
  format = DURABLE_PREFIX /\ chunk = DURABLE_PREFIX_STORAGE_CHUNK_SIZE.
Proof.
  unfold block_format_spec, block_format_from_raw, DURABLE_PREFIX.
  case_bool_decide; naive_solver.
Qed.

Lemma layout_validate_cases layout :
  0 <= fl_block_size layout ->
  match layout_validate layout with
  | Ok _ => layout_ok layout
  | Err (FLE_UnknownBlockFormat (mk_BlockFormatIdError raw)) =>
      raw = fl_block_format_id layout /\ raw <> DURABLE_PREFIX
  | Err FLE_ZeroBlockSize => fl_block_format_id layout = DURABLE_PREFIX /\ fl_block_size layout = 0
  | Err (FLE_BlockTooLarge actual maximum) =>
      fl_block_format_id layout = DURABLE_PREFIX /\
      actual = fl_block_size layout /\ maximum = MAX_BLOCK_SIZE /\ maximum < actual
  | Panic => False
  end.
Proof.
  destruct layout as [bs fmt]. unfold layout_validate, layout_ok; simpl. intros Hnn.
  unfold block_format_spec, block_format_from_raw.
  destruct (decide (fmt = 2)) as [->|Hf]; simpl;
    [|rewrite !bool_decide_eq_false_2 by done; done].
  unfold block_shape_new, validate_block_layout_parts, validate_effective_len.
  destruct (decide (bs = 0)) as [->|Hz]; [by vm_compute|].
  rewrite !(bool_decide_eq_false_2 (bs = 0)) by done. simpl.
  destruct (Z.ltb_spec MAX_BLOCK_SIZE bs); simpl; [done|].
  rewrite (proj2 (Z.ltb_ge bs bs)) by lia. simpl. split; [done|lia].
Qed.

Lemma layout_validate_Ok layout :
  0 <= fl_block_size layout ->
  layout_validate layout = Ok tt <-> layout_ok layout.
Proof.
  intros Hnn. pose proof (layout_validate_cases layout Hnn) as H.
  unfold layout_ok in *. destruct (layout_validate layout) as [[]|[| |[]]|];
    naive_solver lia.
Qed.

Lemma layout_validate_no_panic layout :
  0 <= fl_block_size layout -> layout_validate layout <> Panic.
Proof. intros Hnn E. pose proof (layout_validate_cases layout Hnn) as H. by rewrite E in H. Qed.

(** [FileLayout::validate] never reaches an [unreachable!] arm; it
    accepts exactly the layouts of the known format with a block size in
    [1, MAX_BLOCK_SIZE], and names the first violated requirement otherwise. *)
Lemma layout_validate_spec layout :
  0 <= fl_block_size layout ->
  match layout_validate layout with
  | Ok _ => layout_ok layout
  | Err (FLE_UnknownBlockFormat (mk_BlockFormatIdError raw)) =>
      raw = fl_block_format_id layout /\ raw <> DURABLE_PREFIX
  | Err FLE_ZeroBlockSize => fl_block_format_id layout = DURABLE_PREFIX /\ fl_block_size layout = 0
  | Err (FLE_BlockTooLarge actual maximum) =>
      fl_block_format_id layout = DURABLE_PREFIX /\
      actual = fl_block_size layout /\ maximum = MAX_BLOCK_SIZE /\ maximum < actual
  | Panic => False
  end.
Proof. apply layout_validate_cases. Qed.
