(* ===== verification/Errors.v ===== *)
(** * Metadata errors and their two translations

    [MetadataError] ([beryl-metadata/src/error.rs]); the committed rejections of
    Raft apply ([raft/response.rs]); and the RPC failure model
    ([beryl-common/src/error/mod.rs]) that every metadata failure is mapped to.
    Error messages keep the literal text of the source; values that the source
    interpolates into a message for diagnosis are dropped, except where the
    message is itself built from the error's fields. *)

From S2P Require Import Prelude Types.
Local Open Scope Z_scope.
Local Open Scope string_scope.

Inductive MetadataError :=
| NotFound (msg : string)
| AlreadyExists (msg : string)
| InvalidArgument (msg : string)
| NotDir (msg : string)
| IsDir (msg : string)
| DirectoryNotEmpty (msg : string)
| CrossMountRename (msg : string)
| PermissionDenied (msg : string)
| NotSupported (msg : string)
| Busy (msg : string)
| ActiveWorkerConflict (msg : string)
| Again (msg : string)
| ResourceExhausted (msg : string)
| WriteSessionLimitExceeded (msg : string)
| GlobalWriteTargetLimitExceeded (msg : string)
| LeaseFenced (expected got : LeaseEpoch)
| LeaderChanged (msg : string)
| EpochMismatch (expected got : Z)
| MountEpochMismatch (expected got : Z) (mount_id : option MountId)
| RoutingStale (msg : string)
| StaleState (msg : string)
| FullReportRequired (msg : string)
| Internal (msg : string)
| ServiceUnavailable (msg : string).

#[global] Instance MetadataError_eq_dec : EqDecision MetadataError.
Proof. solve_decision. Defined.

Notation MetadataResult := (result MetadataError).

(** ** Committed rejections: [raft/response.rs] *)

Inductive ApplyRejectionKind :=
| ARK_NotFound
| ARK_AlreadyExists
| ARK_InvalidArgument
| ARK_NotDir
| ARK_IsDir
| ARK_DirectoryNotEmpty
| ARK_CrossMountRename
| ARK_PermissionDenied
| ARK_NotSupported
| ARK_Busy
| ARK_ActiveWorkerConflict
| ARK_Again
| ARK_ResourceExhausted
| ARK_LeaseFenced (expected got : LeaseEpoch).

Record ApplyRejection := mk_ApplyRejection {
  rejection_kind : ApplyRejectionKind;
  rejection_message : string
}.

(** [FatalApplyError(MetadataError)]. *)
Inductive FatalApplyError := mk_FatalApplyError (e : MetadataError).

Definition from_metadata_error (error : MetadataError) : result FatalApplyError ApplyRejection :=
  match error with
  | NotFound message => Ok (mk_ApplyRejection ARK_NotFound message)
  | AlreadyExists message => Ok (mk_ApplyRejection ARK_AlreadyExists message)
  | InvalidArgument message => Ok (mk_ApplyRejection ARK_InvalidArgument message)
  | NotDir message => Ok (mk_ApplyRejection ARK_NotDir message)
  | IsDir message => Ok (mk_ApplyRejection ARK_IsDir message)
  | DirectoryNotEmpty message => Ok (mk_ApplyRejection ARK_DirectoryNotEmpty message)
  | CrossMountRename message => Ok (mk_ApplyRejection ARK_CrossMountRename message)
  | PermissionDenied message => Ok (mk_ApplyRejection ARK_PermissionDenied message)
  | NotSupported message => Ok (mk_ApplyRejection ARK_NotSupported message)
  | Busy message => Ok (mk_ApplyRejection ARK_Busy message)
  | ActiveWorkerConflict message => Ok (mk_ApplyRejection ARK_ActiveWorkerConflict message)
  | Again message => Ok (mk_ApplyRejection ARK_Again message)
  | ResourceExhausted message => Ok (mk_ApplyRejection ARK_ResourceExhausted message)
  | LeaseFenced expected got =>
      Ok (mk_ApplyRejection (ARK_LeaseFenced expected got)
            ("lease fenced: expected epoch >= " +:+ pretty expected +:+ ", got " +:+ pretty got))
  | LeaderChanged _ | EpochMismatch _ _ | MountEpochMismatch _ _ _ | RoutingStale _
  | StaleState _ | FullReportRequired _ | WriteSessionLimitExceeded _
  | GlobalWriteTargetLimitExceeded _ | Internal _ | ServiceUnavailable _ =>
      Err (mk_FatalApplyError error)
  end.

Definition into_metadata_error (r : ApplyRejection) : MetadataError :=
  let message := rejection_message r in
  match rejection_kind r with
  | ARK_NotFound => NotFound message
  | ARK_AlreadyExists => AlreadyExists message
  | ARK_InvalidArgument => InvalidArgument message
  | ARK_NotDir => NotDir message
  | ARK_IsDir => IsDir message
  | ARK_DirectoryNotEmpty => DirectoryNotEmpty message
  | ARK_CrossMountRename => CrossMountRename message
  | ARK_PermissionDenied => PermissionDenied message
  | ARK_NotSupported => NotSupported message
  | ARK_Busy => Busy message
  | ARK_ActiveWorkerConflict => ActiveWorkerConflict message
  | ARK_Again => Again message
  | ARK_ResourceExhausted => ResourceExhausted message
  | ARK_LeaseFenced expected got => LeaseFenced expected got
  end.

(** ** RPC failures: [beryl-common/src/error/mod.rs] *)

Inductive MetadataErrorKind :=
| MEK_NotFound | MEK_AlreadyExists | MEK_NotDirectory | MEK_IsDirectory
| MEK_DirectoryNotEmpty | MEK_CrossMountRename | MEK_Busy | MEK_Conflict | MEK_NotLeader
| MEK_StaleState | MEK_MountEpochMismatch | MEK_RouteEpochMismatch | MEK_OwnerGroupMismatch
| MEK_GroupMismatch | MEK_Fencing | MEK_SessionInvalid | MEK_SessionExpired
| MEK_EpochMismatch | MEK_ResourceExhausted.

Inductive WorkerErrorKind :=
| WEK_NotRegistered | WEK_RunMismatch | WEK_DescriptorMismatch | WEK_FullReportRequired
| WEK_BlockLocationUnavailable | WEK_NodeUnavailable | WEK_Timeout | WEK_ResourceExhausted
| WEK_Conflict | WEK_Corrupt | WEK_Fencing | WEK_Cancelled | WEK_Io | WEK_NotFound.

Inductive ProtocolErrorKind :=
| PEK_InvalidHeader | PEK_InvalidArgument | PEK_PermissionDenied | PEK_Unsupported
| PEK_Cancelled | PEK_Corrupt.

Inductive InternalErrorKind :=
| IEK_NodeUnavailable | IEK_Timeout | IEK_ResourceExhausted | IEK_Cancelled | IEK_Corrupt
| IEK_Internal.

Inductive ErrorKind :=
| EK_Metadata (k : MetadataErrorKind)
| EK_Worker (k : WorkerErrorKind)
| EK_Protocol (k : ProtocolErrorKind)
| EK_Internal (k : InternalErrorKind).

Record RefreshHint := mk_RefreshHint {
  rh_leader_endpoint : option string;
  rh_group_name : option string;
  rh_mount_epoch : option Z;
  rh_mount_prefix : option string;
  rh_route_epoch : option Z;
  rh_worker_endpoints : list (Z * string);
  rh_worker_resolve_required : bool
}.

Definition refresh_hint_default : RefreshHint := mk_RefreshHint None None None None None [] false.

Inductive RecoveryAction :=
| RA_Fail
| RA_Retry (after_ms : option Z)
| RA_RefreshMetadata (hint : RefreshHint)
| RA_ReopenWriteSession (hint : RefreshHint)
| RA_RegisterWorker
| RA_SendFullBlockReport.

Record RpcErrorDetail := mk_RpcErrorDetail {
  rpc_kind : ErrorKind;
  rpc_recovery : RecoveryAction;
  rpc_message : string
}.

Definition rpc_fail k m := mk_RpcErrorDetail k RA_Fail m.
Definition rpc_retry k after_ms m := mk_RpcErrorDetail k (RA_Retry after_ms) m.
Definition rpc_refresh_metadata k hint m := mk_RpcErrorDetail k (RA_RefreshMetadata hint) m.
Definition rpc_reopen_write_session k hint m := mk_RpcErrorDetail k (RA_ReopenWriteSession hint) m.
Definition rpc_send_full_block_report k m := mk_RpcErrorDetail k RA_SendFullBlockReport m.

Definition map_shared_rpc_error (err : MetadataError) : result MetadataError RpcErrorDetail :=
  match err with
  | LeaderChanged msg =>
      Ok (rpc_refresh_metadata (EK_Metadata MEK_NotLeader) refresh_hint_default msg)
  | EpochMismatch expected got =>
      Ok (rpc_reopen_write_session (EK_Metadata MEK_EpochMismatch) refresh_hint_default
            ("epoch mismatch: expected " +:+ pretty expected +:+ ", got " +:+ pretty got))
  | MountEpochMismatch expected got mount_id =>
      Ok (rpc_refresh_metadata (EK_Metadata MEK_MountEpochMismatch) refresh_hint_default
            ("mount epoch mismatch: expected " +:+ pretty expected +:+ ", got " +:+ pretty got))
  | RoutingStale msg =>
      Ok (rpc_refresh_metadata (EK_Metadata MEK_RouteEpochMismatch) refresh_hint_default msg)
  | StaleState msg =>
      Ok (rpc_refresh_metadata (EK_Metadata MEK_StaleState) refresh_hint_default msg)
  | FullReportRequired msg =>
      Ok (rpc_send_full_block_report (EK_Worker WEK_FullReportRequired) msg)
  | LeaseFenced expected got =>
      Ok (rpc_reopen_write_session (EK_Metadata MEK_Fencing) refresh_hint_default
            ("lease fenced: expected >= " +:+ pretty expected +:+ ", got " +:+ pretty got))
  | ServiceUnavailable msg =>
      Ok (rpc_retry (EK_Internal IEK_NodeUnavailable) (Some 1000) ("service unavailable: " +:+ msg))
  | WriteSessionLimitExceeded msg =>
      Ok (rpc_retry (EK_Metadata MEK_ResourceExhausted) None ("write-session limit exceeded: " +:+ msg))
  | GlobalWriteTargetLimitExceeded msg =>
      Ok (rpc_retry (EK_Metadata MEK_ResourceExhausted) None
            ("global write-target limit exceeded: " +:+ msg))
  | ResourceExhausted msg =>
      Ok (rpc_fail (EK_Metadata MEK_ResourceExhausted) ("resource exhausted: " +:+ msg))
  | other => Err other
  end.

(** The last arm of the source is [unreachable!]. *)
Definition map_rpc_application_error (err : MetadataError) : result Empty_set RpcErrorDetail :=
  match err with
  | NotFound msg => Ok (rpc_fail (EK_Metadata MEK_NotFound) ("not found: " +:+ msg))
  | AlreadyExists msg => Ok (rpc_fail (EK_Metadata MEK_AlreadyExists) ("already exists: " +:+ msg))
  | InvalidArgument msg =>
      Ok (rpc_fail (EK_Protocol PEK_InvalidArgument) ("invalid argument: " +:+ msg))
  | NotDir msg => Ok (rpc_fail (EK_Metadata MEK_NotDirectory) ("not a directory: " +:+ msg))
  | IsDir msg => Ok (rpc_fail (EK_Metadata MEK_IsDirectory) ("is a directory: " +:+ msg))
  | DirectoryNotEmpty msg =>
      Ok (rpc_fail (EK_Metadata MEK_DirectoryNotEmpty) ("directory not empty: " +:+ msg))
  | CrossMountRename msg =>
      Ok (rpc_fail (EK_Metadata MEK_CrossMountRename) ("cross-mount rename not allowed: " +:+ msg))
  | PermissionDenied msg =>
      Ok (rpc_fail (EK_Protocol PEK_PermissionDenied) ("permission denied: " +:+ msg))
  | NotSupported msg =>
      Ok (rpc_fail (EK_Protocol PEK_Unsupported) ("operation not supported: " +:+ msg))
  | Busy msg => Ok (rpc_fail (EK_Metadata MEK_Busy) ("resource busy: " +:+ msg))
  | ActiveWorkerConflict msg =>
      Ok (rpc_fail (EK_Metadata MEK_Conflict) ("active worker conflict: " +:+ msg))
  | Again msg =>
      Ok (rpc_retry (EK_Metadata MEK_Conflict) None ("resource temporarily unavailable: " +:+ msg))
  | Internal msg => Ok (rpc_fail (EK_Internal IEK_Internal) ("internal error: " +:+ msg))
  | LeaderChanged _ | EpochMismatch _ _ | MountEpochMismatch _ _ _ | RoutingStale _ | StaleState _
  | FullReportRequired _ | LeaseFenced _ _ | ResourceExhausted _ | WriteSessionLimitExceeded _
  | GlobalWriteTargetLimitExceeded _ | ServiceUnavailable _ => Panic
  end.

Definition to_rpc_error (err : MetadataError) : result Empty_set RpcErrorDetail :=
  match map_shared_rpc_error err with
  | Ok rpc_error => Ok rpc_error
  | Err err => map_rpc_application_error err
  | Panic => Panic
  end.

(** ** Properties *)

(** The failures that must not be committed as a business rejection. *)
Definition is_fatal (e : MetadataError) : bool :=
  match e with
  | LeaderChanged _ | EpochMismatch _ _ | MountEpochMismatch _ _ _ | RoutingStale _
  | StaleState _ | FullReportRequired _ | WriteSessionLimitExceeded _
  | GlobalWriteTargetLimitExceeded _ | Internal _ | ServiceUnavailable _ => true
  | _ => false
  end.

Lemma from_metadata_error_cases e :
  (is_fatal e = true /\ from_metadata_error e = Err (mk_FatalApplyError e)) \/
  (is_fatal e = false /\ exists r, from_metadata_error e = Ok r /\ into_metadata_error r = e).
Proof. destruct e; simpl; eauto 6. Qed.

(** Whether a failed request may be repeated unchanged by the caller. *)
Definition retryable (e : MetadataError) : bool :=
  match e with
  | ServiceUnavailable _ | WriteSessionLimitExceeded _ | GlobalWriteTargetLimitExceeded _
  | Again _ => true
  | _ => false
  end.

Definition is_retry (a : RecoveryAction) : bool :=
  match a with RA_Retry _ => true | _ => false end.

(** A deterministic apply failure survives the trip through the Raft
    response: whatever [from_metadata_error] commits as a rejection,
    [into_metadata_error] restores exactly, and exactly the infrastructure,
    leadership, freshness and invariant failures are refused as fatal. *)
Lemma rejection_roundtrip e :
  match from_metadata_error e with
  | Ok r => is_fatal e = false /\ into_metadata_error r = e
  | Err (mk_FatalApplyError e') => is_fatal e = true /\ e' = e
  | Panic => False
  end.
Proof. by destruct e. Qed.

(** Every metadata failure has an RPC mapping (the [unreachable!] arm of
    [map_rpc_application_error] is never reached), and the mapped recovery is
    [Retry] for exactly the retryable failures. *)
Lemma to_rpc_error_total e :
  exists d, to_rpc_error e = Ok d /\ is_retry (rpc_recovery d) = retryable e.
Proof. destruct e; eexists; (split; [reflexivity|reflexivity]). Qed.
