(* ===== verification/Inode.v ===== *)
(** * Inodes and file publications ([beryl-metadata/src/inode.rs])

    The durable inode, the fixed-block file layout inside it, and the frozen
    publication payload with which [PublishFile] and [CommitFile] replace or
    extend the visible content. The theorems characterise the layout validator
    and show that a publication accepted by [merged_blocks] yields a valid layout
    that keeps every published byte in the block that already held it. *)

From S2P Require Import Prelude Types Errors.
Local Open Scope Z_scope.

Definition MAX_FILE_BLOCKS : Z := 10000.

Inductive PublishMode := ReplaceIfUnchanged | AppendIfUnchanged.

#[global] Instance PublishMode_eq_dec : EqDecision PublishMode.
Proof. solve_decision. Defined.

Record FilePublication := mk_FilePublication {
  fp_blocks : list CommittedBlock;
  fp_target_size : Z;
  fp_expected_generation : ContentGeneration;
  fp_expected_file_size : Z;
  fp_lease_epoch : LeaseEpoch;
  fp_mode : PublishMode
}.

Record FileCommit := mk_FileCommit {
  fc_client_id : ClientId;
  fc_call_id : CallId;
  fc_lease_epoch : LeaseEpoch;
  fc_expected_generation : ContentGeneration;
  fc_expected_file_size : Z;
  fc_mode : PublishMode;
  fc_committed_size : Z;
  fc_generation : ContentGeneration
}.

Record InodeAttrs := mk_InodeAttrs {
  create_time : Z;
  modify_time : Z
}.

Record FileData := mk_FileData {
  fd_layout : FileLayout;
  fd_len : Z;
  fd_generation : ContentGeneration;
  fd_blocks : list BlockId;
  fd_next_index : Z;
  fd_lease_epoch : LeaseEpoch;
  fd_last_commit : option FileCommit
}.

Inductive InodeKind := KFile (file : FileData) | KDir.

Record Inode := mk_Inode {
  inode_id : InodeId;
  inode_attrs : InodeAttrs;
  inode_kind : InodeKind;
  inode_mount_id : MountId
}.

#[global] Instance FileCommit_eq_dec : EqDecision FileCommit.
Proof. solve_decision. Defined.
#[global] Instance InodeAttrs_eq_dec : EqDecision InodeAttrs.
Proof. solve_decision. Defined.
#[global] Instance FileData_eq_dec : EqDecision FileData.
Proof. solve_decision. Defined.
#[global] Instance InodeKind_eq_dec : EqDecision InodeKind.
Proof. solve_decision. Defined.
#[global] Instance Inode_eq_dec : EqDecision Inode.
Proof. solve_decision. Defined.

(** ** Attributes *)

Definition attrs_new : InodeAttrs := mk_InodeAttrs 0 0.

Definition attrs_initialize (a : InodeAttrs) (now_ms : Z) : InodeAttrs :=
  mk_InodeAttrs now_ms now_ms.

Definition set_modify_time (a : InodeAttrs) (now_ms : Z) : InodeAttrs :=
  mk_InodeAttrs (create_time a) (Z.max (modify_time a) now_ms).

(** ** File data *)

Definition block_count (len capacity : Z) : MetadataResult Z :=
  reject_if (bool_decide (capacity = 0)) (InvalidArgument "zero block capacity");;
  let count := if bool_decide (len = 0) then 0 else (len - 1) / capacity + 1 in
  reject_if (MAX_FILE_BLOCKS <? count) (ResourceExhausted "file exceeds inline block limit");;
  Ok count.

(** The [any] over the block list with its [seen] set: whether some block is not
    owned by the inode, was never allocated, or repeats. *)
Fixpoint blocks_invalid (id : InodeId) (next_index : Z) (seen : gset BlockId)
    (blocks : list BlockId) : bool :=
  match blocks with
  | [] => false
  | b :: rest =>
      bool_decide (block_inode_id b ≠ id) || (next_index <=? block_index b)
      || bool_decide (b ∈ seen)
      || blocks_invalid id next_index ({[b]} ∪ seen) rest
  end.

Definition file_validate (f : FileData) (id : InodeId) : MetadataResult unit :=
  map_err (fun _ => Internal "invalid file layout") (layout_validate (fd_layout f));;
  count ← block_count (fd_len f) (fl_block_size (fd_layout f));
  reject_if (bool_decide (Z.of_nat (length (fd_blocks f)) ≠ count))
    (Internal "file length disagrees with its block count");;
  reject_if (blocks_invalid id (fd_next_index f) ∅ (fd_blocks f))
    (Internal "file contains invalid block identities").

(** ** Publications *)

Definition visible_block_len (len capacity ordinal : Z) : Z :=
  Z.min (len - ordinal * capacity) capacity.

(** [FileData::block_len]. *)
Definition block_len (f : FileData) (ordinal : Z) : Z :=
  visible_block_len (fd_len f) (fl_block_size (fd_layout f)) ordinal.

(** The loop of [start_index] over the payload's blocks. *)
Fixpoint check_block_lens (target capacity ordinal : Z) (blocks : list CommittedBlock)
  : MetadataResult unit :=
  match blocks with
  | [] => Ok tt
  | b :: rest =>
      reject_if (bool_decide (cb_len b ≠ visible_block_len target capacity ordinal))
        (InvalidArgument "only the final block may be partial");;
      check_block_lens target capacity (ordinal + 1) rest
  end.

Definition start_index (p : FilePublication) (f : FileData) : MetadataResult Z :=
  count ← block_count (fp_target_size p) (fl_block_size (fd_layout f));
  start ← match fp_mode p with
          | ReplaceIfUnchanged => Ok 0
          | AppendIfUnchanged =>
              reject_if (fp_target_size p <? fp_expected_file_size p)
                (InvalidArgument "append cannot shrink visible content");;
              if bool_decide (fp_blocks p = []) && bool_decide (fp_target_size p = fp_expected_file_size p)
              then Ok count
              else Ok (fp_expected_file_size p / fl_block_size (fd_layout f))
          end;
  reject_if ((count <? start) || bool_decide (Z.of_nat (length (fp_blocks p)) ≠ count - start))
    (InvalidArgument "publication does not cover its target length");;
  check_block_lens (fp_target_size p) (fl_block_size (fd_layout f)) start (fp_blocks p);;
  Ok start.

Definition matches_visible (p : FilePublication) (f : FileData) : MetadataResult bool :=
  start ← start_index p f;
  Ok (bool_decide (fd_len f = fp_target_size p)
      && (start <=? Z.of_nat (length (fd_blocks f)))
      && bool_decide (drop (Z.to_nat start) (fd_blocks f) = cb_block_id <$> fp_blocks p)).

(** The loop of [merged_blocks]: [seen] and the growing result. *)
Fixpoint merge_loop (id : InodeId) (mode : PublishMode) (f : FileData) (seen : gset BlockId)
    (acc : list BlockId) (blocks : list CommittedBlock) : MetadataResult (list BlockId) :=
  match blocks with
  | [] => Ok acc
  | b :: rest =>
      reject_if (bool_decide (block_inode_id (cb_block_id b) ≠ id)
                 || (fd_next_index f <=? block_index (cb_block_id b))
                 || bool_decide (cb_block_id b ∈ seen))
        (InvalidArgument "publication contains a duplicate or unallocated block");;
      reject_if (bool_decide (mode = ReplaceIfUnchanged) && bool_decide (cb_block_id b ∈ fd_blocks f))
        (InvalidArgument "replacement requires new block identities");;
      merge_loop id mode f ({[cb_block_id b]} ∪ seen) (acc ++ [cb_block_id b]) rest
  end.

Definition merged_blocks (p : FilePublication) (id : InodeId) (f : FileData)
  : MetadataResult (list BlockId) :=
  file_validate f id;;
  start ← start_index p f;
  blocks ← match fp_mode p with
           | ReplaceIfUnchanged => Ok []
           | AppendIfUnchanged =>
               reject_if (bool_decide (fd_len f ≠ fp_expected_file_size p)
                          || (Z.of_nat (length (fd_blocks f)) <? start))
                 (Again "append base no longer matches visible content");;
               reject_if ((start <? Z.of_nat (length (fd_blocks f)))
                          && bool_decide (cb_block_id <$> head (fp_blocks p)
                                          ≠ fd_blocks f !! Z.to_nat start))
                 (InvalidArgument "append must reuse the existing partial tail");;
               Ok (take (Z.to_nat start) (fd_blocks f))
           end;
  merge_loop id (fp_mode p) f (list_to_set blocks) blocks (fp_blocks p).

(** ** Inodes *)

Definition inode_len (i : Inode) : Z :=
  match inode_kind i with KFile f => fd_len f | KDir => 0 end.

(** [Inode::file] and [Inode::file_mut]. *)
Definition inode_file (i : Inode) : MetadataResult FileData :=
  match inode_kind i with
  | KFile f => Ok f
  | KDir => Err (IsDir "inode is not a file")
  end.

Definition is_dir (i : Inode) : bool :=
  match inode_kind i with KDir => true | KFile _ => false end.
Definition is_file (i : Inode) : bool :=
  match inode_kind i with KDir => false | KFile _ => true end.

Definition new_file (id : InodeId) (attrs : InodeAttrs) (mount : MountId) (layout : FileLayout) : Inode :=
  mk_Inode id attrs (KFile (mk_FileData layout 0 0 [] 0 0 None)) mount.

Definition new_dir (id : InodeId) (attrs : InodeAttrs) (mount : MountId) : Inode :=
  mk_Inode id attrs KDir mount.

(** Assignments to the fields the state machine mutates. *)
Definition with_attrs (i : Inode) (a : InodeAttrs) : Inode :=
  mk_Inode (inode_id i) a (inode_kind i) (inode_mount_id i).
Definition with_file (i : Inode) (f : FileData) : Inode :=
  mk_Inode (inode_id i) (inode_attrs i) (KFile f) (inode_mount_id i).

Definition resolve_commit (p : FilePublication) (i : Inode) (client : ClientId) (call : CallId)
  : MetadataResult (option ContentGeneration) :=
  f ← inode_file i;
  match fd_last_commit f with
  | None => Ok None
  | Some c =>
      if bool_decide (fc_client_id c ≠ client) || bool_decide (fc_call_id c ≠ call)
      then Ok None
      else
        reject_if (bool_decide (fc_generation c ≠ fd_generation f)
                   || bool_decide (fc_committed_size c ≠ fd_len f)
                   || match lease_checked_next (fc_lease_epoch c) with
                      | None => true
                      | Some ended => fd_lease_epoch f <? ended
                      end)
          (Internal "CommitFile evidence disagrees with its inode");;
        if bool_decide (fc_lease_epoch c ≠ fp_lease_epoch p)
           || bool_decide (fc_expected_generation c ≠ fp_expected_generation p)
           || bool_decide (fc_expected_file_size c ≠ fp_expected_file_size p)
           || bool_decide (fc_mode c ≠ fp_mode p)
           || bool_decide (fc_committed_size c ≠ fp_target_size p)
        then Err (InvalidArgument "CommitFile payload changed for a completed operation")
        else
          same ← matches_visible p f;
          reject_if (negb same) (InvalidArgument "CommitFile payload changed for a completed operation");;
          Ok (Some (fc_generation c))
  end.

(** ** Valid layouts *)

(** Number of blocks of capacity [cap] that [len] bytes occupy. *)
Definition ceil_div (len cap : Z) : Z := (len + cap - 1) / cap.

(** What [FileData::validate] promises about a file stored under inode [id]. *)
Record file_ok (id : InodeId) (f : FileData) : Prop := {
  fo_layout : layout_ok (fd_layout f);
  fo_count : Z.of_nat (length (fd_blocks f)) = ceil_div (fd_len f) (fl_block_size (fd_layout f));
  fo_bound : Z.of_nat (length (fd_blocks f)) <= MAX_FILE_BLOCKS;
  fo_nodup : NoDup (fd_blocks f);
  fo_owned : Forall (fun b => block_inode_id b = id /\ block_index b < fd_next_index f) (fd_blocks f)
}.

(** The unsigned fields of a file are not negative. *)
Definition file_typed (f : FileData) : Prop :=
  0 <= fd_len f /\ 0 <= fl_block_size (fd_layout f).

Section layout_lemmas.
Implicit Types (len cap : Z) (f : FileData) (p : FilePublication) (id : InodeId).

Lemma ceil_div_pos len cap : 0 < len -> 0 < cap -> ceil_div len cap = (len - 1) / cap + 1.
Proof.
  intros. unfold ceil_div.
  replace (len + cap - 1) with (len - 1 + 1 * cap) by lia. apply Z.div_add. lia.
Qed.

Lemma ceil_div_0 cap : 0 < cap -> ceil_div 0 cap = 0.
Proof. intros. apply Z.div_small. lia. Qed.

Lemma ceil_div_bounds len cap :
  0 <= len -> 0 < cap -> (ceil_div len cap - 1) * cap < len <= ceil_div len cap * cap.
Proof.
  intros Hl Hc. unfold ceil_div.
  pose proof (Z.div_mod (len + cap - 1) cap ltac:(lia)).
  pose proof (Z.mod_pos_bound (len + cap - 1) cap Hc). nia.
Qed.

Lemma ceil_div_nonneg len cap : 0 <= len -> 0 < cap -> 0 <= ceil_div len cap.
Proof. intros. apply Z.div_pos; lia. Qed.

Lemma block_count_Ok len cap n :
  0 <= len -> 0 <= cap ->
  block_count len cap = Ok n <-> 0 < cap /\ n = ceil_div len cap /\ n <= MAX_FILE_BLOCKS.
Proof.
  intros Hl Hc. unfold block_count.
  destruct (decide (cap = 0)) as [->|Hz]; [split; [done|lia]|].
  rewrite (bool_decide_eq_false_2 (cap = 0)) by done. simpl.
  assert (0 < cap) as Hp by lia.
  assert ((if bool_decide (len = 0) then 0 else (len - 1) / cap + 1) = ceil_div len cap) as ->.
  { case_bool_decide; [by subst; rewrite ceil_div_0|rewrite ceil_div_pos by lia; done]. }
  destruct (Z.ltb_spec MAX_FILE_BLOCKS (ceil_div len cap)); simpl; split.
  - done.
  - lia.
  - intros [= <-]. lia.
  - intros (_ & -> & _). done.
Qed.

Lemma blocks_invalid_false id next seen blocks :
  blocks_invalid id next seen blocks = false <->
  Forall (fun b => block_inode_id b = id /\ block_index b < next) blocks /\
  NoDup blocks /\ (forall b, b ∈ blocks -> b ∉ seen).
Proof.
  revert seen. induction blocks as [|b rest IH]; intros seen; simpl.
  { split; [|done]. intros _. split_and!; [constructor|constructor|set_solver]. }
  rewrite !orb_false_iff, IH, !bool_decide_eq_false, Z.leb_gt, Forall_cons, NoDup_cons.
  setoid_rewrite not_elem_of_union. setoid_rewrite not_elem_of_singleton.
  split.
  - intros [[[Hi Hx] Hs] (Hall & Hnd & Hseen)].
    apply dec_stable in Hi. split_and!; try done; [|set_solver].
    intros Hin. by apply Hseen in Hin as [? _].
  - intros [[[Hi Hx] Hall] [[Hb Hnd] Hseen]].
    split_and!; try done; [by intros []|set_solver..].
Qed.

Lemma file_validate_Ok id f :
  file_typed f -> file_validate f id = Ok tt <-> file_ok id f.
Proof.
  intros [Hlen Hbs]. unfold file_validate. split.
  - intros H. inv_ok. bool_prop.
    apply layout_validate_Ok in H; [|done].
    apply block_count_Ok in H0 as (Hc & -> & Hmax); [|done..].
    apply blocks_invalid_false in H2 as (Hown & Hnd & _).
    split; [done|done|lia|done|done].
  - intros [Hl Hc Hb Hn Ho].
    rewrite (proj2 (layout_validate_Ok _ Hbs) Hl). simpl.
    assert (block_count (fd_len f) (fl_block_size (fd_layout f))
            = Ok (Z.of_nat (length (fd_blocks f)))) as ->.
    { apply block_count_Ok; [done..|]. destruct Hl. split_and!; [lia|done|done]. }
    simpl. rewrite bool_decide_eq_false_2 by naive_solver. simpl.
    rewrite (proj2 (blocks_invalid_false _ _ _ _)); [done|].
    split_and!; [done|done|set_solver].
Qed.

(** Every payload block of a mergeable publication is owned, allocated, new
    among the blocks merged so far and, for a replacement, new to the file. *)
Lemma merge_loop_Ok id mode f seen acc blocks bl :
  merge_loop id mode f seen acc blocks = Ok bl ->
  let ids := cb_block_id <$> blocks in
  bl = acc ++ ids /\
  Forall (fun b => block_inode_id b = id /\ block_index b < fd_next_index f) ids /\
  NoDup ids /\ (forall b, b ∈ ids -> b ∉ seen) /\
  (mode = ReplaceIfUnchanged -> forall b, b ∈ ids -> b ∉ fd_blocks f).
Proof.
  revert seen acc. induction blocks as [|b rest IH]; intros seen acc H; simpl in H.
  { simplify_eq/=. rewrite app_nil_r.
    split_and!; [done|constructor|constructor|set_solver|set_solver]. }
  inv_ok. bool_prop. apply IH in H1 as (-> & Hown & Hnd & Hseen & Hrep). simpl.
  rewrite <-app_assoc. split_and!.
  - done.
  - constructor; [done|apply Hown].
  - apply NoDup_cons; split; [|done]. intros Hin. apply Hseen in Hin. set_solver.
  - intros x [->|Hx]%elem_of_cons; [done|]. apply Hseen in Hx. set_solver.
  - intros -> x [->|Hx]%elem_of_cons; [|by apply Hrep].
    destruct H0 as [H0|H0]; by bool_prop.
Qed.

Lemma start_index_Ok p f start :
  0 <= fp_target_size p -> 0 <= fl_block_size (fd_layout f) -> 0 <= fp_expected_file_size p ->
  start_index p f = Ok start ->
  let cap := fl_block_size (fd_layout f) in
  let count := ceil_div (fp_target_size p) cap in
  0 < cap /\ count <= MAX_FILE_BLOCKS /\ 0 <= start <= count /\
  Z.of_nat (length (fp_blocks p)) = count - start /\
  match fp_mode p with
  | ReplaceIfUnchanged => start = 0
  | AppendIfUnchanged =>
      fp_expected_file_size p <= fp_target_size p /\
      ((fp_blocks p = [] /\ fp_target_size p = fp_expected_file_size p /\ start = count) \/
       start = fp_expected_file_size p / cap)
  end.
Proof.
  intros Ht Hc He H. unfold start_index in H. inv_ok. bool_prop.
  apply block_count_Ok in H as (Hcap & -> & Hmax); [|done..].
  pose proof (ceil_div_nonneg _ _ Ht Hcap).
  destruct (fp_mode p); inv_ok.
  { split_and!; (done || lia). }
  bool_prop. destruct (_ && _) eqn:Hb; simplify_eq; bool_prop.
  - split_and!; [done|done|lia|lia|done|lia|by left].
  - split_and!; [done|done|by apply Z.div_pos|lia|done|lia|by right].
Qed.
End layout_lemmas.

(** The file that a publication leaves behind: new length, blocks and generation. *)
Definition published (f : FileData) (len : Z) (blocks : list BlockId) (gen : ContentGeneration)
  (epoch : LeaseEpoch) (commit : option FileCommit) : FileData :=
  mk_FileData (fd_layout f) len gen blocks (fd_next_index f) epoch commit.

(** The unsigned fields of a publication are not negative. *)
Definition publication_typed (p : FilePublication) : Prop :=
  0 <= fp_target_size p /\ 0 <= fp_expected_file_size p.

Section publication_lemmas.
Implicit Types (f : FileData) (p : FilePublication) (id : InodeId) (bl : list BlockId).

(** The blocks an append keeps untouched are those that its base length fills. *)
Lemma full_blocks_le_count len cap : 0 <= len -> 0 < cap -> len / cap <= ceil_div len cap.
Proof. intros. unfold ceil_div. apply Z.div_le_mono; lia. Qed.

Lemma take_app_lookup {A} (l k : list A) (start i : nat) :
  (i <= start)%nat -> (i < length l)%nat -> (i = start -> head k = l !! start) ->
  (take start l ++ k) !! i = l !! i.
Proof.
  intros Hle Hlt Hhead. destruct (decide (i = start)) as [->|].
  - rewrite lookup_app_r, length_take_le by (rewrite ?length_take; lia).
    rewrite Nat.sub_diag, <-Hhead by done. by destruct k.
  - rewrite lookup_app_l by (rewrite length_take; lia). apply lookup_take_lt. lia.
Qed.

Lemma merged_blocks_Ok id p f bl :
  file_typed f -> publication_typed p -> merged_blocks p id f = Ok bl ->
  let ids := cb_block_id <$> fp_blocks p in
  file_ok id f /\
  exists start,
    start_index p f = Ok start /\
    bl = take (Z.to_nat start) (fd_blocks f) ++ ids /\
    Z.of_nat (length bl) = ceil_div (fp_target_size p) (fl_block_size (fd_layout f)) /\
    Forall (fun b => block_inode_id b = id /\ block_index b < fd_next_index f) ids /\
    NoDup ids /\ (forall b, b ∈ ids -> b ∉ take (Z.to_nat start) (fd_blocks f)) /\
    match fp_mode p with
    | ReplaceIfUnchanged => start = 0 /\ (forall b, b ∈ ids -> b ∉ fd_blocks f)
    | AppendIfUnchanged =>
        fd_len f = fp_expected_file_size p /\
        (start < Z.of_nat (length (fd_blocks f)) -> head ids = fd_blocks f !! Z.to_nat start)
    end.
Proof.
  intros Hf [Ht He] H. unfold merged_blocks in H. inv_ok.
  apply (file_validate_Ok _ _ Hf) in H.
  pose proof H0 as Hs. apply start_index_Ok in Hs as (Hcap & Hmax & Hrange & Hlen & Hmode);
    [|by destruct Hf..].
  split; [done|]. exists x0. split; [done|].
  apply merge_loop_Ok in H2 as (-> & Hown & Hnd & Hseen & Hrep).
  rewrite length_app, length_fmap.
  destruct (fp_mode p).
  - simplify_eq/=. split_and!; [done|lia|done|done|set_solver|done|by apply Hrep].
  - inv_ok. bool_prop. rewrite length_take_le by lia.
    setoid_rewrite elem_of_list_to_set in Hseen.
    split_and!; [done|lia|done|done|done|done|].
    intros Hlt. destruct H2 as [H2|H2]; bool_prop; [lia|].
    rewrite <-H2. by destruct (fp_blocks p).
Qed.

Lemma merged_blocks_file_ok id p f bl gen epoch commit :
  file_typed f -> publication_typed p -> merged_blocks p id f = Ok bl ->
  file_ok id (published f (fp_target_size p) bl gen epoch commit).
Proof.
  intros Hf Hp H. destruct (merged_blocks_Ok id p f bl Hf Hp H)
    as ([Hlay Hcount Hbound Hnd Hown] & start & Hs & -> & Hlen & Hown' & Hnd' & Hdisj & _).
  destruct Hf, Hp. apply start_index_Ok in Hs as (_ & Hmax & _); [|done..].
  split; simpl; [done|done|lia| |].
  - apply NoDup_app. split_and!; [by eapply sublist_NoDup, sublist_take|set_solver|done].
  - apply Forall_app. split; [|done]. by apply Forall_take.
Qed.

(** The payload of an accepted publication is what a replay finds visible. *)
Lemma start_index_ext p f f' :
  fd_layout f = fd_layout f' -> start_index p f = start_index p f'.
Proof. unfold start_index. by intros ->. Qed.

Lemma matches_visible_merged id p f bl gen epoch commit :
  file_typed f -> publication_typed p -> merged_blocks p id f = Ok bl ->
  matches_visible p (published f (fp_target_size p) bl gen epoch commit) = Ok true.
Proof.
  intros Hf Hp H. destruct (merged_blocks_Ok id p f bl Hf Hp H)
    as (Hok & start & Hs & -> & Hlen & Hown' & Hnd' & Hdisj & Hm).
  unfold matches_visible. rewrite (start_index_ext _ _ f), Hs by done. simpl. f_equal.
  destruct Hf, Hp. apply start_index_Ok in Hs as (Hcap & Hmax & Hrange & Hl & Hmode); [|done..].
  assert (length (take (Z.to_nat start) (fd_blocks f)) = Z.to_nat start) as Htake.
  { rewrite length_app, length_fmap in Hlen. lia. }
  rewrite drop_app_length' by done.
  rewrite !bool_decide_eq_true_2, andb_true_r by done. simpl. apply Z.leb_le. lia.
Qed.
End publication_lemmas.

(** ** Properties *)

(** [FileData::validate] accepts exactly the valid layouts: a known
    format, one block per started capacity unit, at most [MAX_FILE_BLOCKS] of
    them, all distinct, owned by the inode and below its allocation cursor. It
    never panics. *)
Lemma file_validate_spec id f :
  file_typed f ->
  match file_validate f id with
  | Ok _ => file_ok id f
  | Err _ => ~ file_ok id f
  | Panic => False
  end.
Proof.
  intros Hf. destruct (file_validate f id) as [[]| |] eqn:H.
  - by apply file_validate_Ok.
  - intros Hok%file_validate_Ok; [by rewrite Hok in H|done].
  - revert H. unfold file_validate, block_count. destruct Hf as [_ Hbs].
    destruct (layout_validate _) eqn:Hl; simpl; [| done |by apply layout_validate_no_panic in Hl].
    repeat (case_bool_decide || case_match || destruct (blocks_invalid _ _ _ _) || destruct (_ <? _);
            simpl; try done).
Qed.

Definition sample_layout : FileLayout := mk_FileLayout 10 DURABLE_PREFIX.
Definition sample_file : FileData :=
  mk_FileData sample_layout 15 3 [mk_BlockId 7 0; mk_BlockId 7 2] 4 5 None.
Definition sample_append : FilePublication :=
  mk_FilePublication [mk_CommittedBlock (mk_BlockId 7 2) 10; mk_CommittedBlock (mk_BlockId 7 3) 5]
    25 3 15 5 AppendIfUnchanged.

(** A publication that [merged_blocks] accepts leaves a file that
    [validate] accepts: the published length, block list and the unchanged layout
    and allocation cursor form a valid layout of the same inode. *)
Theorem merged_blocks_valid id p f bl gen epoch commit :
  file_typed f -> publication_typed p -> merged_blocks p id f = Ok bl ->
  file_validate (published f (fp_target_size p) bl gen epoch commit) id = Ok tt.
Proof.
  intros Hf Hp H. apply file_validate_Ok; [|by eapply merged_blocks_file_ok].
  by destruct Hf, Hp.
Qed.

Lemma merged_blocks_valid_witness :
  file_validate (published sample_file 25 [mk_BlockId 7 0; mk_BlockId 7 2; mk_BlockId 7 3] 4 6 None) 7
  = Ok tt.
Proof.
  apply (merged_blocks_valid 7 sample_append sample_file); [split|split|]; vm_compute; congruence.
Defined.

(** C26. An append never moves a published byte: the block that holds a
    byte of the old content is the block at the same ordinal of the new one, and
    the new content is at least as long. A replacement shares no block with the
    content it replaces. *)
Theorem publication_keeps_bytes id p f bl :
  file_typed f -> publication_typed p -> merged_blocks p id f = Ok bl ->
  match fp_mode p with
  | AppendIfUnchanged =>
      fd_len f <= fp_target_size p /\
      forall offset, 0 <= offset < fd_len f ->
        let ordinal := Z.to_nat (offset / fl_block_size (fd_layout f)) in
        is_Some (fd_blocks f !! ordinal) /\ bl !! ordinal = fd_blocks f !! ordinal
  | ReplaceIfUnchanged => forall b, b ∈ bl -> b ∉ fd_blocks f
  end.
Proof.
  intros Hf Hp H. destruct (merged_blocks_Ok id p f bl Hf Hp H)
    as ([Hlay Hcount Hbound Hnd Hown] & start & Hs & -> & Hlen & _ & _ & _ & Hmode).
  destruct Hf, Hp. apply start_index_Ok in Hs as (Hcap & _ & Hr & Hl & Hm); [|done..].
  destruct (fp_mode p).
  { destruct Hmode as [-> Hnew]. simpl. done. }
  destruct Hmode as [Hbase Htail], Hm as [Hge Hm]. split; [lia|]. intros o Ho.
  assert (o / fl_block_size (fd_layout f) < Z.of_nat (length (fd_blocks f))) as Hord.
  { rewrite Hcount. apply Z.div_lt_upper_bound; [done|].
    pose proof (ceil_div_bounds (fd_len f) _ ltac:(done) Hcap). lia. }
  pose proof (Z.div_pos o _ ltac:(lia) Hcap).
  split; [apply lookup_lt_is_Some_2; lia|].
  apply take_app_lookup.
  - destruct Hm as [(_ & Heq & ->)| ->]; [rewrite Heq, <-Hbase, <-Hcount; lia|].
    apply Z2Nat.inj_le; [done|lia|]. rewrite <-Hbase. apply Z.div_le_mono; lia.
  - lia.
  - intros Heq. apply Htail. lia.
Qed.

Lemma publication_keeps_bytes_witness :
  [mk_BlockId 7 0; mk_BlockId 7 2; mk_BlockId 7 3] !! 1%nat = fd_blocks sample_file !! 1%nat.
Proof.
  assert (H : merged_blocks sample_append 7 sample_file
              = Ok [mk_BlockId 7 0; mk_BlockId 7 2; mk_BlockId 7 3]) by (by vm_compute).
  eapply (publication_keeps_bytes 7 sample_append sample_file) in H;
    [|split; vm_compute; congruence..].
  destruct H as [_ H]. apply (H 14). vm_compute. split; congruence.
Defined.

Lemma sum_block_len f (n : nat) :
  0 < fl_block_size (fd_layout f) ->
  Z.of_nat n <= ceil_div (fd_len f) (fl_block_size (fd_layout f)) -> 0 <= fd_len f ->
  foldr Z.add 0 (block_len f <$> (Z.of_nat <$> seq 0 n))
  = Z.min (fd_len f) (Z.of_nat n * fl_block_size (fd_layout f)).
Proof.
  intros Hcap Hn Hlen. pose proof (ceil_div_bounds (fd_len f) _ Hlen Hcap) as [Hlo Hhi].
  induction n as [|n IH]; [simpl; lia|].
  rewrite seq_S, !fmap_app, foldr_app. simpl.
  assert (forall l k, foldr Z.add k l = foldr Z.add 0 l + k) as Hsum.
  { induction l as [|x l IHl]; intros k; simpl; [done|rewrite IHl; lia]. }
  rewrite Hsum, IH by lia. unfold block_len, visible_block_len.
  replace (Z.of_nat (S n)) with (Z.of_nat n + 1) in * by lia.
  rewrite Z.min_r by nia. nia.
Qed.

(** In a valid file the visible prefix of every block is non-empty and
    fits its capacity (so the unsigned subtraction in [visible_block_len] does not
    underflow), only the last block is partial, and the prefixes add up to the
    visible length. *)
Lemma block_lens_partition id f :
  file_typed f -> file_validate f id = Ok tt ->
  let cap := fl_block_size (fd_layout f) in
  let count := length (fd_blocks f) in
  (forall ordinal, 0 <= ordinal < Z.of_nat count ->
     ordinal * cap < fd_len f /\ 0 < block_len f ordinal <= cap /\
     (ordinal + 1 < Z.of_nat count -> block_len f ordinal = cap)) /\
  foldr Z.add 0 (block_len f <$> (Z.of_nat <$> seq 0 count)) = fd_len f.
Proof.
  intros Hf H. apply file_validate_Ok in H as [[_ Hcap] Hcount _ _ _]; [|done].
  destruct Hf as [Hlen _]. simpl in *.
  pose proof (ceil_div_bounds (fd_len f) _ Hlen (proj1 Hcap)) as Hb.
  split.
  - intros o Ho. unfold block_len, visible_block_len. rewrite <-Hcount in Hb.
    assert (o * fl_block_size (fd_layout f) < fd_len f) by nia.
    split_and!; [done|lia|lia|intros; apply Z.min_r; nia].
  - rewrite sum_block_len by lia. rewrite Hcount. lia.
Qed.
