(* ===== verification/Mount.v ===== *)
(** * Mount table ([beryl-metadata/src/mount/mod.rs])

    Mount entries, the in-memory table with its prefix index, and the path
    prefix test. Paths are byte strings. The theorems show that the two maps of
    the table stay inverse to each other under the operations that succeed. *)

From S2P Require Import Prelude Types Errors.
Local Open Scope Z_scope.
Local Open Scope string_scope.

Definition ROOT_MOUNT_PREFIX : string := "/".
Definition ROOT_INODE_ID : InodeId := 1.

(** ** Byte strings as the source uses them *)

Definition slash : ascii := "/"%char.
Definition nul : ascii := "000"%char.

(** [str::starts_with('/')]. *)
Definition starts_with_slash (s : string) : bool :=
  match s with String c _ => bool_decide (c = slash) | EmptyString => false end.

(** [str::strip_prefix]. *)
Fixpoint strip_prefix (p s : string) : option string :=
  match p, s with
  | EmptyString, _ => Some s
  | String a p', String b s' => if bool_decide (a = b) then strip_prefix p' s' else None
  | String _ _, EmptyString => None
  end.

(** [str::contains(char)]. *)
Fixpoint contains_char (c : ascii) (s : string) : bool :=
  match s with
  | EmptyString => false
  | String a s' => bool_decide (a = c) || contains_char c s'
  end.

(** [str::split('/')]. *)
Fixpoint split_slash (s : string) : list string :=
  match s with
  | EmptyString => [EmptyString]
  | String c s' =>
      match split_slash s' with
      | [] => []
      | w :: ws => if bool_decide (c = slash) then EmptyString :: w :: ws else String c w :: ws
      end
  end.

(** [[str]::join("/")]. *)
Fixpoint join_slash (ws : list string) : string :=
  match ws with
  | [] => EmptyString
  | [w] => w
  | w :: rest => w +:+ String slash (join_slash rest)
  end.

Definition str_len (s : string) : Z := Z.of_nat (String.length s).

Definition mount_prefix_matches_path (prefix path : string) : bool :=
  if bool_decide (prefix = ROOT_MOUNT_PREFIX) then starts_with_slash path
  else bool_decide (path = prefix)
       || match strip_prefix prefix path with
          | Some suffix => starts_with_slash suffix
          | None => false
          end.

(** ** Mount entries *)

Inductive MountKind := MK_Internal | MK_External.
Inductive DataIoPolicy := Allow | Forbid.

#[global] Instance MountKind_eq_dec : EqDecision MountKind.
Proof. solve_decision. Defined.
#[global] Instance DataIoPolicy_eq_dec : EqDecision DataIoPolicy.
Proof. solve_decision. Defined.

Record MountEntry := mk_MountEntry {
  mount_id : MountId;
  mount_prefix : string;
  mount_kind : MountKind;
  ufs_uri : option string;
  data_io_policy : DataIoPolicy;
  mount_epoch : Z;
  namespace_owner_group_name : GroupName;
  root_inode_id : InodeId
}.

#[global] Instance MountEntry_eq_dec : EqDecision MountEntry.
Proof. solve_decision. Defined.

(** ** The mount table *)

Record MountTableState := mk_MountTableState {
  mt_entries : gmap MountId MountEntry;
  mt_prefix_index : gmap string MountId;
  mt_epoch : Z
}.

Definition mount_table_new : MountTableState := mk_MountTableState ∅ ∅ 1.

(** The loop of [build_replacement]. *)
Fixpoint build_loop (mounts : list MountEntry) (entries : gmap MountId MountEntry)
    (prefix_index : gmap string MountId) (max_epoch : Z)
  : MetadataResult (gmap MountId MountEntry * gmap string MountId * Z) :=
  match mounts with
  | [] => Ok (entries, prefix_index, max_epoch)
  | entry :: rest =>
      reject_if (bool_decide (is_Some (entries !! mount_id entry)))
        (Internal "Duplicate mount ID in storage");;
      reject_if (bool_decide (is_Some (prefix_index !! mount_prefix entry)))
        (Internal "Duplicate mount prefix in storage");;
      build_loop rest (<[mount_id entry := entry]> entries)
        (<[mount_prefix entry := mount_id entry]> prefix_index)
        (Z.max max_epoch (mount_epoch entry))
  end.

Definition build_replacement (mounts : list MountEntry) : MetadataResult MountTableState :=
  '(entries, prefix_index, max_epoch) ← build_loop mounts ∅ ∅ 0;
  epoch ← ok_or (checked_add64 max_epoch 1)
            (Internal "Mount epoch exhausted while loading storage");
  Ok (mk_MountTableState entries prefix_index epoch).

(** [MountTable::upsert] returns its result and the table it leaves behind: the
    stale prefix is removed before the conflict test. *)
Definition upsert (state : MountTableState) (entry : MountEntry)
  : MountTableState * MetadataResult unit :=
  let index :=
    match mt_entries state !! mount_id entry with
    | Some old =>
        if bool_decide (mount_prefix old ≠ mount_prefix entry)
        then delete (mount_prefix old) (mt_prefix_index state)
        else mt_prefix_index state
    | None => mt_prefix_index state
    end in
  let conflict :=
    match index !! mount_prefix entry with
    | Some existing => bool_decide (existing ≠ mount_id entry)
    | None => false
    end in
  if conflict
  then (mk_MountTableState (mt_entries state) index (mt_epoch state),
        Err (AlreadyExists "Mount prefix already exists"))
  else (mk_MountTableState (<[mount_id entry := entry]> (mt_entries state))
          (<[mount_prefix entry := mount_id entry]> index)
          (Z.max (mount_epoch entry) (mt_epoch state)),
        Ok tt).

Definition mount_table_get (state : MountTableState) (id : MountId) : option MountEntry :=
  mt_entries state !! id.

Definition mount_table_list (state : MountTableState) : list MountEntry :=
  (map_to_list (mt_entries state)).*2.

(** [&s[n..]]. *)
Fixpoint str_drop (n : nat) (s : string) : string :=
  match n, s with
  | O, _ => s
  | S n', String _ s' => str_drop n' s'
  | S _, EmptyString => EmptyString
  end.

(** The rest of a path after a matching prefix of [len] bytes. *)
Definition after_prefix (len : nat) (path : string) : string :=
  if bool_decide (len = String.length path) then EmptyString
  else if starts_with_slash (str_drop len path) then str_drop (S len) path
  else str_drop len path.

(** The loop of [MountTable::resolve_path] over the prefix index, in the order in
    which the hash map yields it. *)
Fixpoint mount_resolve_loop (state : MountTableState) (path : string)
    (prefixes : list (string * MountId)) (best : option (string * string)) (best_len : nat)
  : option (string * string) :=
  match prefixes with
  | [] => best
  | (prefix, id) :: rest =>
      if mount_prefix_matches_path prefix path && bool_decide (best_len < String.length prefix)%nat
      then match mt_entries state !! id ≫= ufs_uri with
           | Some uri =>
               mount_resolve_loop state path rest
                 (Some (uri, after_prefix (String.length prefix) path)) (String.length prefix)
           | None => mount_resolve_loop state path rest best best_len
           end
      else mount_resolve_loop state path rest best best_len
  end.

Definition mount_resolve_path (state : MountTableState) (path : string) : option (string * string) :=
  mount_resolve_loop state path (map_to_list (mt_prefix_index state)) None 0.

(** ** Consistency of the table *)

(** The prefix index is the inverse of the entries' prefixes. *)
Definition mount_table_ok (state : MountTableState) : Prop :=
  (forall id e, mt_entries state !! id = Some e ->
     mount_id e = id /\ mt_prefix_index state !! mount_prefix e = Some id) /\
  (forall p id, mt_prefix_index state !! p = Some id ->
     exists e, mt_entries state !! id = Some e /\ mount_prefix e = p).

Lemma build_loop_ok mounts entries index mx entries' index' mx' :
  build_loop mounts entries index mx = Ok (entries', index', mx') ->
  mount_table_ok (mk_MountTableState entries index 1) ->
  mount_table_ok (mk_MountTableState entries' index' 1) /\
  (mx <= mx' /\ forall e, e ∈ mounts -> mount_epoch e <= mx' /\ entries' !! mount_id e = Some e) /\
  (forall id e, entries !! id = Some e -> entries' !! id = Some e) /\
  (forall id e, entries' !! id = Some e -> entries !! id = Some e \/ e ∈ mounts).
Proof.
  revert entries index mx. induction mounts as [|m rest IH]; intros entries index mx H Hok; simpl in H.
  { simplify_eq/=. split_and!; [done..|set_solver|done|set_solver]. }
  inv_ok. bool_prop.
  assert (entries !! mount_id m = None /\ index !! mount_prefix m = None) as [He Hp].
  { rewrite !eq_None_not_Some. done. }
  apply IH in H1 as (Hok' & (Hmx & Hall) & Hmono & Hsub).
  - split; [done|]. split_and!; [lia| | |].
    + intros e [->|Hin]%elem_of_cons; [|by apply Hall].
      split; [lia|]. apply Hmono. by rewrite lookup_insert_eq.
    + intros id e Hl. apply Hmono. rewrite lookup_insert_ne; congruence.
    + intros id e [Hl|Hin]%Hsub; [|set_solver]. rewrite lookup_insert in Hl. case_decide; set_solver.
  - destruct Hok as [Hk1 Hk2]; simpl in *. split; simpl.
    + intros id e. rewrite !lookup_insert.
      case_decide; [intros; simplify_eq; by rewrite decide_True|].
      intros [Hid Hpx]%Hk1. split; [done|]. rewrite decide_False; congruence.
    + intros p id. rewrite lookup_insert. case_decide.
      * intros; simplify_eq. exists m. by rewrite lookup_insert_eq.
      * intros (e & Hl & Hpx)%Hk2. exists e. rewrite lookup_insert_ne; [done|congruence].
Qed.

Lemma upsert_ok state entry state' :
  mount_table_ok state -> upsert state entry = (state', Ok tt) -> mount_table_ok state'.
Proof.
  intros [H1 H2]. unfold upsert.
  set (index := match mt_entries state !! mount_id entry with Some _ => _ | None => _ end).
  assert (forall p id, index !! p = Some id <->
            mt_prefix_index state !! p = Some id /\
            (id = mount_id entry -> p = mount_prefix entry)) as Hindex.
  { intros p id. unfold index. destruct (mt_entries state !! mount_id entry) as [old|] eqn:Hold.
    - destruct (H1 _ _ Hold) as [_ Hp]. case_bool_decide as Hne.
      + rewrite lookup_delete. case_decide; [naive_solver|].
        split; [|naive_solver]. intros Hl. split; [done|]. intros ->.
        apply H2 in Hl as (e & ? & ?). naive_solver.
      + split; [|naive_solver]. intros Hl. split; [done|]. intros ->.
        apply H2 in Hl as (e & ? & ?). naive_solver.
    - split; [|naive_solver]. intros Hl. split; [done|]. intros ->.
      apply H2 in Hl as (e & ? & ?). naive_solver. }
  destruct (match index !! mount_prefix entry with Some _ => _ | None => _ end) eqn:Hconf;
    intros; simplify_eq/=.
  assert (forall id, index !! mount_prefix entry = Some id -> id = mount_id entry) as Hfree.
  { intros id Hl. rewrite Hl in Hconf. bool_prop. done. }
  split; simpl.
  - intros id e. rewrite !lookup_insert. case_decide.
    { intros; simplify_eq. by rewrite decide_True. }
    intros Hl. destruct (H1 _ _ Hl) as [Hid Hp]. split; [done|].
    destruct (decide (mount_prefix entry = mount_prefix e)) as [Heq|].
    + exfalso. assert (index !! mount_prefix entry = Some id) as Hx%Hfree; [|naive_solver].
      apply Hindex. rewrite Heq. naive_solver.
    + apply Hindex. naive_solver.
  - intros p id. rewrite lookup_insert. case_decide.
    { intros; simplify_eq. exists entry. by rewrite lookup_insert_eq. }
    intros [Hl Hid]%Hindex. apply H2 in Hl as (e & ? & ?). exists e.
    rewrite lookup_insert_ne by naive_solver. done.
Qed.

Lemma upsert_fst_ok state entry :
  mount_table_ok state -> (upsert state entry).2 = Ok tt -> mount_table_ok (upsert state entry).1.
Proof.
  intros Hok H. apply (upsert_ok state entry); [done|]. rewrite <-H. apply surjective_pairing.
Qed.

(** ** Properties *)

(** A mount table loaded from storage is consistent: its prefix
    index inverts its entries, it holds exactly the stored mounts, and its epoch
    is ahead of every one of them. *)
Lemma build_replacement_ok mounts state :
  build_replacement mounts = Ok state ->
  mount_table_ok state /\
  (forall id e, mt_entries state !! id = Some e <-> e ∈ mounts /\ mount_id e = id) /\
  (forall e, e ∈ mounts -> mount_epoch e < mt_epoch state).
Proof.
  unfold build_replacement. intros H. inv_ok.
  apply build_loop_ok in H as (Hok & (Hmx & Hall) & _ & Hsub); [|done].
  split; [done|]. split; simpl.
  - intros id e. split; [|intros [Hin <-]; by apply Hall].
    intros Hl. destruct Hok as [Hids _]. destruct (Hids _ _ Hl) as [Hid _].
    apply Hsub in Hl as [Hl|Hl]; [by rewrite lookup_empty in Hl|done].
  - intros e [? _]%Hall. lia.
Qed.

Definition sample_mount (id : MountId) (prefix : string) (root : InodeId) : MountEntry :=
  mk_MountEntry id prefix MK_Internal None Allow 1 "g" root.

(** A successful [upsert] keeps the table consistent, makes the entry
    current under its id and its prefix, and never moves the epoch back. *)
Lemma upsert_success state entry state' :
  mount_table_ok state -> upsert state entry = (state', Ok tt) ->
  mount_table_ok state' /\
  mount_table_get state' (mount_id entry) = Some entry /\
  mt_prefix_index state' !! mount_prefix entry = Some (mount_id entry) /\
  mt_epoch state <= mt_epoch state' /\ mount_epoch entry <= mt_epoch state'.
Proof.
  intros Hok H. split; [by eapply upsert_ok|]. revert H. unfold upsert, mount_table_get.
  destruct (match _ !! mount_prefix entry with Some _ => _ | None => _ end);
    intros; simplify_eq/=.
  rewrite !lookup_insert_eq. split_and!; [done|done|lia|lia].
Qed.

