(* ===== verification/Store.v ===== *)
(** * Authority storage ([beryl-metadata/src/raft/storage])

    The replicated RocksDB state as one typed map per column family, the write
    batches that mutate it, the queries the state machine reads it with, and the
    atomic updates it commits. Encoded keys are represented by the tuples they
    encode; values by what they decode to. Failures of RocksDB itself and of the
    serialisers, and the pinning of database generations, are outside the model:
    every atomic update below either rejects before its batch or commits it. *)

From S2P Require Import Prelude Types Errors Inode Mount.
Local Open Scope Z_scope.

(** ** Persisted records *)

Record CreateFileOperationId := mk_OperationId {
  op_client_id : ClientId;
  op_call_id : CallId
}.

#[global] Instance CreateFileOperationId_eq_dec : EqDecision CreateFileOperationId.
Proof. solve_decision. Defined.
#[global] Instance CreateFileOperationId_countable : Countable CreateFileOperationId.
Proof.
  refine (inj_countable' (fun o => (op_client_id o, op_call_id o))
                         (fun p => mk_OperationId p.1 p.2) _).
  by intros [].
Defined.

Record CreateFileReplayRecord := mk_ReplayRecord {
  rr_operation_id : CreateFileOperationId;
  rr_request_deadline_ms : Z;
  rr_normalized_path : string;
  rr_parent_inode_id : InodeId;
  rr_name : string;
  rr_inode_id : InodeId;
  rr_mount_id : MountId;
  rr_expected_mount_epoch : Z;
  rr_mount_root_inode_id : InodeId;
  rr_relative_components : list string;
  rr_lease_epoch : LeaseEpoch;
  rr_layout : FileLayout;
  rr_generation : ContentGeneration;
  rr_expires_at_ms : Z
}.

#[global] Instance CreateFileReplayRecord_eq_dec : EqDecision CreateFileReplayRecord.
Proof. solve_decision. Defined.

Record DetachedRoot := mk_DetachedRoot {
  dr_mount_id : MountId;
  dr_detached_at_ms : Z
}.

#[global] Instance DetachedRoot_eq_dec : EqDecision DetachedRoot.
Proof. solve_decision. Defined.

Record InodeAllocation := mk_InodeAllocation {
  al_inode_id : InodeId;
  al_next_inode_id : InodeId
}.

Record RecursiveMkdirEntry := mk_RecursiveMkdirEntry {
  me_parent_inode_id : InodeId;
  me_name : string;
  me_inode : Inode;
  me_updated_parent : Inode
}.

Inductive BootstrapNamespaceState := BNS_Empty | BNS_Matching | BNS_Conflicting.

#[global] Instance BootstrapNamespaceState_eq_dec : EqDecision BootstrapNamespaceState.
Proof. solve_decision. Defined.

Inductive HealthStatus := Healthy | Degraded | Unhealthy.

#[global] Instance HealthStatus_eq_dec : EqDecision HealthStatus.
Proof. solve_decision. Defined.

Record WorkerInfo := mk_WorkerInfo {
  wi_group_name : GroupName;
  wi_worker_id : WorkerId;
  wi_address : string;
  wi_worker_net_protocol : Z;
  wi_capacity_total : Z;
  wi_capacity_used : Z;
  wi_capacity_available : Z;
  wi_active_reads : Z;
  wi_active_writes : Z;
  wi_health : HealthStatus;
  wi_last_heartbeat : Z;
  wi_fault_domain : option string
}.

(** [AppMetadataRaftState]. [StoredMembership] pairs the log position of a
    membership with the membership, an openraft value that the code only copies;
    an opaque token stands for it. *)
Record RaftState := mk_RaftState {
  last_applied_log_id : option RaftLogId;
  last_purged_log_id : option RaftLogId;
  vote : option (Z * Z * bool);
  committed : option RaftLogId;
  membership : option RaftLogId * Z
}.

#[global] Instance RaftState_eq_dec : EqDecision RaftState.
Proof. solve_decision. Defined.

(** ** The column families *)

Record Store := mk_Store {
  s_inodes : gmap InodeId Inode;
  s_dentries : gmap (InodeId * string) InodeId;
  s_mounts : gmap MountId MountEntry;
  s_workers : gmap (GroupName * WorkerId) WorkerInfo;
  s_route_epoch : option Z;
  s_mount_epoch : option Z;
  s_next_inode_id : option InodeId;
  s_replays : gmap CreateFileOperationId CreateFileReplayRecord;
  s_replay_inode : gmap InodeId CreateFileOperationId;
  s_replay_expiry : gset (Z * CreateFileOperationId);
  s_replay_count : option Z;
  s_detached : gmap InodeId DetachedRoot;
  s_raft_state : option RaftState
}.

Definition empty_store : Store :=
  mk_Store ∅ ∅ ∅ ∅ None None None ∅ ∅ ∅ None ∅ None.

Definition MAX_CREATE_FILE_REPLAY_RECORDS : Z := 65536.

(** ** Write batches *)

Inductive WriteOp :=
| PutInode (inode : Inode)
| DeleteInode (id : InodeId)
| PutDentry (parent : InodeId) (name : string) (child : InodeId)
| DeleteDentry (parent : InodeId) (name : string)
| PutMount (entry : MountEntry)
| PutWorker (info : WorkerInfo)
| PutRouteEpoch (epoch : Z)
| PutMountEpoch (epoch : Z)
| PutNextInodeId (id : InodeId)
| PutReplay (record : CreateFileReplayRecord)
| DeleteReplay (op : CreateFileOperationId)
| PutReplayInode (id : InodeId) (op : CreateFileOperationId)
| DeleteReplayInode (id : InodeId)
| PutReplayExpiry (expires_at_ms : Z) (op : CreateFileOperationId)
| DeleteReplayExpiry (expires_at_ms : Z) (op : CreateFileOperationId)
| PutReplayCount (count : Z)
| PutDetached (id : InodeId) (root : DetachedRoot)
| DeleteDetached (id : InodeId)
| PutRaftState (state : RaftState).

Definition write_op (s : Store) (op : WriteOp) : Store :=
  let '(mk_Store i d m w re me nx r ri rx rc dt rs) := s in
  match op with
  | PutInode inode => mk_Store (<[inode_id inode := inode]> i) d m w re me nx r ri rx rc dt rs
  | DeleteInode id => mk_Store (delete id i) d m w re me nx r ri rx rc dt rs
  | PutDentry p n c => mk_Store i (<[(p, n) := c]> d) m w re me nx r ri rx rc dt rs
  | DeleteDentry p n => mk_Store i (delete (p, n) d) m w re me nx r ri rx rc dt rs
  | PutMount e => mk_Store i d (<[mount_id e := e]> m) w re me nx r ri rx rc dt rs
  | PutWorker x =>
      mk_Store i d m (<[(wi_group_name x, wi_worker_id x) := x]> w) re me nx r ri rx rc dt rs
  | PutRouteEpoch e => mk_Store i d m w (Some e) me nx r ri rx rc dt rs
  | PutMountEpoch e => mk_Store i d m w re (Some e) nx r ri rx rc dt rs
  | PutNextInodeId id => mk_Store i d m w re me (Some id) r ri rx rc dt rs
  | PutReplay x => mk_Store i d m w re me nx (<[rr_operation_id x := x]> r) ri rx rc dt rs
  | DeleteReplay o => mk_Store i d m w re me nx (delete o r) ri rx rc dt rs
  | PutReplayInode id o => mk_Store i d m w re me nx r (<[id := o]> ri) rx rc dt rs
  | DeleteReplayInode id => mk_Store i d m w re me nx r (delete id ri) rx rc dt rs
  | PutReplayExpiry t o => mk_Store i d m w re me nx r ri ({[(t, o)]} ∪ rx) rc dt rs
  | DeleteReplayExpiry t o => mk_Store i d m w re me nx r ri (rx ∖ {[(t, o)]}) rc dt rs
  | PutReplayCount c => mk_Store i d m w re me nx r ri rx (Some c) dt rs
  | PutDetached id x => mk_Store i d m w re me nx r ri rx rc (<[id := x]> dt) rs
  | DeleteDetached id => mk_Store i d m w re me nx r ri rx rc (delete id dt) rs
  | PutRaftState x => mk_Store i d m w re me nx r ri rx rc dt (Some x)
  end.

Definition write_batch (s : Store) (batch : list WriteOp) : Store := foldl write_op s batch.

Definition commit_authority_batch (s : Store) (batch : list WriteOp) (raft_state : RaftState) : Store :=
  write_batch s (batch ++ [PutRaftState raft_state]).

Definition commit_applied_state (s : Store) (raft_state : RaftState) : Store :=
  commit_authority_batch s [] raft_state.

(** ** Point queries *)

Definition get_inode (s : Store) (id : InodeId) : option Inode := s_inodes s !! id.
Definition get_dentry (s : Store) (parent : InodeId) (name : string) : option InodeId :=
  s_dentries s !! (parent, name).
Definition get_mount (s : Store) (id : MountId) : option MountEntry := s_mounts s !! id.

(** A marker whose mount id is zero does not decode. *)
Definition get_detached_root (s : Store) (id : InodeId) : MetadataResult (option DetachedRoot) :=
  match s_detached s !! id with
  | None => Ok None
  | Some root =>
      reject_if (bool_decide (dr_mount_id root = 0)) (Internal "DetachedRoot has zero mount ID");;
      Ok (Some root)
  end.

Definition get_create_file_replay (s : Store) (op : CreateFileOperationId)
  : MetadataResult (option CreateFileReplayRecord) :=
  match s_replays s !! op with
  | None => Ok None
  | Some record =>
      reject_if (bool_decide (rr_operation_id record ≠ op))
        (Internal "CreateFile replay record identity is corrupt");;
      Ok (Some record)
  end.

Definition get_create_file_replay_for_inode (s : Store) (id : InodeId)
  : MetadataResult (option CreateFileReplayRecord) :=
  match s_replay_inode s !! id with
  | None => Ok None
  | Some op =>
      found ← get_create_file_replay s op;
      record ← ok_or found (Internal "CreateFile inode replay index has no record");
      reject_if (bool_decide (rr_inode_id record ≠ id))
        (Internal "CreateFile inode replay index names another inode");;
      Ok (Some record)
  end.

Definition get_route_epoch (s : Store) : Z := default 1 (s_route_epoch s).

Definition get_layout_optional (s : Store) (id : InodeId) : MetadataResult (option FileLayout) :=
  match get_inode s id with
  | None => Ok None
  | Some inode =>
      match inode_kind inode with
      | KFile file =>
          map_err (fun _ => Internal "invalid file layout") (layout_validate (fd_layout file));;
          Ok (Some (fd_layout file))
      | KDir => Ok None
      end
  end.

Definition get_layout (s : Store) (id : InodeId) : MetadataResult FileLayout :=
  found ← get_layout_optional s id;
  ok_or found (NotFound "Layout not found for inode").

(** ** Ordered scans

    RocksDB iterates a column family in the byte order of its keys: dentries of
    one directory by name, mounts by the decimal text of their id, inodes and
    detached roots by id. *)

Definition name_le (a b : string * InodeId) : Prop := String.le a.1 b.1.
#[global] Instance name_le_dec : RelDecision name_le.
Proof. intros a b. unfold name_le. apply _. Defined.

Definition dir_entries (s : Store) (parent : InodeId) : list (string * InodeId) :=
  merge_sort name_le
    (omap (fun '((p, n), c) => if bool_decide (p = parent) then Some (n, c) else None)
       (map_to_list (s_dentries s))).

Definition mount_key_le (a b : MountId * MountEntry) : Prop := String.le (pretty a.1) (pretty b.1).
#[global] Instance mount_key_le_dec : RelDecision mount_key_le.
Proof. intros a b. unfold mount_key_le. apply _. Defined.

Definition list_mounts (s : Store) : list MountEntry :=
  (merge_sort mount_key_le (map_to_list (s_mounts s))).*2.

Definition detached_key_le (a b : InodeId * DetachedRoot) : Prop := a.1 <= b.1.
#[global] Instance detached_key_le_dec : RelDecision detached_key_le.
Proof. intros a b. unfold detached_key_le. apply _. Defined.

(** The scan of [list_detached_roots]: each marker is decoded as it is reached. *)
Fixpoint decode_markers (l : list (InodeId * DetachedRoot)) : MetadataResult (list (InodeId * DetachedRoot)) :=
  match l with
  | [] => Ok []
  | (id, root) :: rest =>
      reject_if (bool_decide (id = 0)) (Internal "Detached-root inode ID must be non-zero");;
      reject_if (bool_decide (dr_mount_id root = 0)) (Internal "DetachedRoot has zero mount ID");;
      tl ← decode_markers rest;
      Ok ((id, root) :: tl)
  end.

Definition list_detached_roots (s : Store) (max_entries : nat)
  : MetadataResult (list (InodeId * DetachedRoot) * bool) :=
  reject_if (bool_decide (max_entries = 0%nat))
    (InvalidArgument "detached-root listing requires a positive entry limit");;
  let all := merge_sort detached_key_le (map_to_list (s_detached s)) in
  roots ← decode_markers (take max_entries all);
  Ok (roots, bool_decide (max_entries < length all)%nat).

(** The first page of a directory, and whether it is the whole directory. *)
Definition list_dentries_for_reclaim (s : Store) (parent : InodeId) (max_entries : nat)
  : MetadataResult (list (string * InodeId) * bool) :=
  reject_if (bool_decide (max_entries = 0%nat))
    (InvalidArgument "detached-root dentry scan requires a positive entry limit");;
  let all := dir_entries s parent in
  Ok (take max_entries all, bool_decide (length all <= max_entries)%nat).

(** A cursor is the encoded key of a dentry; [None] stands for bytes that
    [decode_dentry_key] does not accept. *)
Notation Cursor := (option (InodeId * string)) (only parsing).
Notation DentryPage := (list (string * InodeId) * option (InodeId * string) * bool)%type (only parsing).

(** The scan of [list_dentries_with_cursor] from the seek position on; [skip] is
    the cursor name while it still has to be skipped. *)
Fixpoint page_loop (parent : InodeId) (max_entries : nat) (skip : option string)
    (acc : list (string * InodeId)) (l : list (string * InodeId)) : MetadataResult DentryPage :=
  match l with
  | [] => Ok (acc, None, true)
  | (name, child) :: rest =>
      if bool_decide (skip = Some name) then page_loop parent max_entries None acc rest
      else
        reject_if (bool_decide (name = EmptyString)) (Internal "Malformed dentry under parent inode");;
        let acc := acc ++ [(name, child)] in
        if bool_decide (length acc = max_entries)
        then let has_more := bool_decide (rest ≠ []) in
             Ok (acc, (if has_more then Some (parent, name) else None), negb has_more)
        else page_loop parent max_entries None acc rest
  end.

Definition list_dentries_with_cursor (s : Store) (parent : InodeId) (cursor : option Cursor)
    (max_entries : nat) : MetadataResult DentryPage :=
  reject_if (bool_decide (max_entries = 0%nat)) (InvalidArgument "ListStatus page size must be positive");;
  match cursor with
  | None => page_loop parent max_entries None [] (dir_entries s parent)
  | Some (Some (cursor_parent, name)) =>
      reject_if (bool_decide (cursor_parent ≠ parent) || bool_decide (name = EmptyString))
        (InvalidArgument "ListStatus cursor does not belong to the requested directory");;
      page_loop parent max_entries (Some name) []
        (filter (fun e => String.le name e.1) (dir_entries s parent))
  | Some None =>
      Err (InvalidArgument "ListStatus cursor does not belong to the requested directory")
  end.

Definition is_directory_empty (s : Store) (parent : InodeId) : MetadataResult bool :=
  '(entries, _, _) ← list_dentries_with_cursor s parent None 1;
  Ok (bool_decide (entries = [])).

(** The last key of the inode column family. *)
Definition max_inode_key (s : Store) : option InodeId :=
  map_fold (fun k _ acc => Some (match acc with None => k | Some m => Z.max k m end)) None (s_inodes s).

Definition max_inode_id (s : Store) : MetadataResult (option InodeId) :=
  match max_inode_key s with
  | None => Ok None
  | Some m =>
      reject_if (bool_decide (m = 0))
        (Internal "inode authority contains zero at the allocator high watermark");;
      Ok (Some m)
  end.

(** ** Bootstrap and allocation *)

Definition root_mount_entry (group : GroupName) : MountEntry :=
  mk_MountEntry 1 ROOT_MOUNT_PREFIX MK_Internal None Allow 1 group ROOT_INODE_ID.

Definition bootstrap_namespace_state (s : Store) (group : GroupName)
  : MetadataResult BootstrapNamespaceState :=
  let root_inode := get_inode s ROOT_INODE_ID in
  let mounts := list_mounts s in
  has_any_state ←
    (if bool_decide (is_Some root_inode) || bool_decide (mounts ≠ [])
        || bool_decide (is_Some (s_route_epoch s)) || bool_decide (is_Some (s_mount_epoch s))
        || bool_decide (is_Some (s_next_inode_id s))
     then Ok true
     else high ← max_inode_id s; Ok (bool_decide (is_Some high)));
  if negb has_any_state then Ok BNS_Empty
  else
    let matching_inode :=
      match root_inode with
      | Some inode =>
          bool_decide (inode_id inode = ROOT_INODE_ID) && is_dir inode
          && bool_decide (inode_mount_id inode = 1)
      | None => false
      end in
    let matching_mount := bool_decide (mounts = [root_mount_entry group]) in
    if matching_inode && matching_mount
    then
      high ← max_inode_id s;
      if bool_decide (high = Some ROOT_INODE_ID)
         && bool_decide (s_route_epoch s = Some 1) && bool_decide (s_mount_epoch s = Some 1)
         && bool_decide (s_next_inode_id s = Some 2)
      then Ok BNS_Matching
      else Ok BNS_Conflicting
    else Ok BNS_Conflicting.

Definition prepare_inode_allocation (s : Store) : MetadataResult InodeAllocation :=
  id ← ok_or (s_next_inode_id s) (Internal "next_inode_id allocator authority is missing");
  reject_if (id <? 2) (Internal "next_inode_id allocator authority is invalid");;
  high ← max_inode_id s;
  m ← ok_or high (Internal "next_inode_id allocator exists without inode authority");
  reject_if ((id <=? m) || bool_decide (is_Some (get_inode s id)))
    (Internal "next_inode_id allocator is not ahead of inode authority");;
  next ← ok_or (checked_add64 id 1) (Internal "inode ID allocator overflow");
  Ok (mk_InodeAllocation id next).

(** The loop of [validate_inode_allocation_targets]; returns the next expected id. *)
Fixpoint check_targets (s : Store) (expected : Z) (targets : list InodeId) : MetadataResult Z :=
  match targets with
  | [] => Ok expected
  | id :: rest =>
      reject_if (bool_decide (id ≠ expected)) (Internal "inode allocation target is not the expected inode");;
      reject_if (bool_decide (is_Some (get_inode s id))) (Internal "inode allocation target already exists");;
      next ← ok_or (checked_add64 expected 1) (Internal "inode ID allocator overflow");
      check_targets s next rest
  end.

Definition validate_inode_allocation_targets (s : Store) (allocation : InodeAllocation)
    (targets : list InodeId) : MetadataResult unit :=
  reject_if (bool_decide (targets = []) || (al_inode_id allocation <? 2))
    (Internal "inode allocation has no valid target");;
  persisted ← ok_or (s_next_inode_id s) (Internal "next_inode_id allocator authority is missing");
  reject_if (bool_decide (persisted ≠ al_inode_id allocation))
    (Internal "inode allocation does not match durable next_inode_id");;
  expected ← check_targets s (al_inode_id allocation) targets;
  reject_if (bool_decide (al_next_inode_id allocation ≠ expected))
    (Internal "inode allocation next value does not match expected").

(** ** CreateFile replay records *)

(** Byte order of expiry keys: expiry, then client, then call. *)
Definition expiry_lt (a b : Z * CreateFileOperationId) : bool :=
  (a.1 <? b.1)
  || ((a.1 =? b.1)
      && ((op_client_id a.2 <? op_client_id b.2)
          || ((op_client_id a.2 =? op_client_id b.2) && (op_call_id a.2 <? op_call_id b.2)))).

Definition expiry_min (a : Z * CreateFileOperationId) (acc : option (Z * CreateFileOperationId))
  : option (Z * CreateFileOperationId) :=
  match acc with
  | None => Some a
  | Some b => if expiry_lt a b then Some a else Some b
  end.

(** The first key under the expiry prefix. *)
Definition first_expiry (s : Store) : option (Z * CreateFileOperationId) :=
  foldr expiry_min None (elements (s_replay_expiry s)).

(** Evict the oldest record of a full table if it has expired. *)
Definition evict_expired (s : Store) (proposed_at_ms : Z) : MetadataResult (list WriteOp) :=
  '(expires, op) ← ok_or (first_expiry s) (Internal "CreateFile replay count has no expiry index");
  reject_if (proposed_at_ms <? expires) (ResourceExhausted "CreateFile replay capacity is exhausted");;
  record ← ok_or (s_replays s !! op) (Internal "CreateFile replay expiry index has no record");
  reject_if (bool_decide (rr_operation_id record ≠ op))
    (Internal "CreateFile replay expiry index has a corrupt record");;
  indexed ← ok_or (s_replay_inode s !! rr_inode_id record)
              (Internal "expired CreateFile replay has no inode index");
  reject_if (bool_decide (indexed ≠ op))
    (Internal "expired CreateFile inode replay index names another operation");;
  Ok [DeleteReplayExpiry expires op; DeleteReplay op; DeleteReplayInode (rr_inode_id record)].

Definition batch_put_create_file_replay (s : Store) (record : CreateFileReplayRecord)
    (proposed_at_ms : Z) : MetadataResult (list WriteOp) :=
  reject_if (bool_decide (is_Some (s_replays s !! rr_operation_id record)))
    (Internal "new CreateFile mutation attempted to overwrite a replay record");;
  reject_if (bool_decide (is_Some (s_replay_inode s !! rr_inode_id record)))
    (Internal "new CreateFile mutation attempted to overwrite an inode replay index");;
  let count := default 0 (s_replay_count s) in
  reject_if (MAX_CREATE_FILE_REPLAY_RECORDS <? count)
    (Internal "CreateFile replay count exceeds its compiled bound");;
  '(evictions, count) ←
    (if bool_decide (count = MAX_CREATE_FILE_REPLAY_RECORDS)
     then evictions ← evict_expired s proposed_at_ms; Ok (evictions, count - 1)
     else Ok ([], count));
  Ok (evictions ++
      [PutReplay record; PutReplayInode (rr_inode_id record) (rr_operation_id record);
       PutReplayExpiry (rr_expires_at_ms record) (rr_operation_id record);
       PutReplayCount (count + 1)]).

(** ** Atomic updates ([transaction.rs]) *)

Definition put_inode_atomic (s : Store) (inode : Inode) (rs : RaftState) : Store :=
  commit_authority_batch s [PutInode inode] rs.

Definition bootstrap_namespace_atomic (s : Store) (root_inode : Inode) (root_mount : MountEntry)
    (rs : RaftState) : Store :=
  commit_authority_batch s
    [PutInode root_inode; PutMount root_mount; PutRouteEpoch 1; PutMountEpoch 1; PutNextInodeId 2] rs.

(** [create_file_batch] and [create_dir_batch] write the same column families. *)
Definition create_batch (parent : InodeId) (name : string) (inode updated_parent : Inode) : list WriteOp :=
  [PutInode inode; PutInode updated_parent; PutDentry parent name (inode_id inode)].

Definition create_file_atomic (s : Store) (allocation : InodeAllocation) (parent : InodeId)
    (name : string) (inode updated_parent : Inode) (record : CreateFileReplayRecord)
    (proposed_at_ms : Z) (rs : RaftState) : MetadataResult Store :=
  validate_inode_allocation_targets s allocation [inode_id inode];;
  replay ← batch_put_create_file_replay s record proposed_at_ms;
  Ok (commit_authority_batch s
        (create_batch parent name inode updated_parent
         ++ [PutNextInodeId (al_next_inode_id allocation)] ++ replay) rs).

Definition create_dir_atomic (s : Store) (allocation : InodeAllocation) (parent : InodeId)
    (name : string) (inode updated_parent : Inode) (rs : RaftState) : MetadataResult Store :=
  validate_inode_allocation_targets s allocation [inode_id inode];;
  Ok (commit_authority_batch s
        (create_batch parent name inode updated_parent ++ [PutNextInodeId (al_next_inode_id allocation)]) rs).

Definition mkdir_entry_batch (e : RecursiveMkdirEntry) : list WriteOp :=
  create_batch (me_parent_inode_id e) (me_name e) (me_inode e) (me_updated_parent e).

Definition create_directories_atomic (s : Store) (allocation : InodeAllocation)
    (entries : list RecursiveMkdirEntry) (rs : RaftState) : MetadataResult Store :=
  validate_inode_allocation_targets s allocation ((fun e => inode_id (me_inode e)) <$> entries);;
  Ok (commit_authority_batch s
        (mjoin (mkdir_entry_batch <$> entries) ++ [PutNextInodeId (al_next_inode_id allocation)]) rs).

Definition unlink_inode_atomic (s : Store) (parent : InodeId) (name : string) (id : InodeId)
    (updated_parent : Inode) (rs : RaftState) : Store :=
  commit_authority_batch s [DeleteDentry parent name; DeleteInode id; PutInode updated_parent] rs.

Definition detach_directory_atomic (s : Store) (parent : InodeId) (name : string) (root : InodeId)
    (updated_parent : Inode) (marker : DetachedRoot) (rs : RaftState) : Store :=
  commit_authority_batch s [DeleteDentry parent name; PutInode updated_parent; PutDetached root marker] rs.

Record DetachedRootReclaimEntry := mk_ReclaimEntry {
  re_parent_inode_id : InodeId;
  re_name : string;
  re_inode_id : InodeId;
  re_child_detached_root : option DetachedRoot
}.

Record DetachedRootReclaimUpdate := mk_ReclaimUpdate {
  ru_entries : list DetachedRootReclaimEntry;
  ru_completed : list InodeId
}.

Definition reclaim_entry_batch (e : DetachedRootReclaimEntry) : list WriteOp :=
  DeleteDentry (re_parent_inode_id e) (re_name e)
  :: match re_child_detached_root e with
     | Some marker => [PutDetached (re_inode_id e) marker]
     | None => [DeleteInode (re_inode_id e)]
     end.

Definition reclaim_completed_batch (id : InodeId) : list WriteOp := [DeleteInode id; DeleteDetached id].

Definition reclaim_detached_roots_atomic (s : Store) (update : DetachedRootReclaimUpdate)
    (rs : RaftState) : Store :=
  commit_authority_batch s
    (mjoin (reclaim_entry_batch <$> ru_entries update)
     ++ mjoin (reclaim_completed_batch <$> ru_completed update)) rs.

Record RenameAtomicUpdate := mk_RenameUpdate {
  ra_src_parent_inode_id : InodeId;
  ra_src_name : string;
  ra_dst_parent_inode_id : InodeId;
  ra_dst_name : string;
  ra_src_inode_id : InodeId;
  ra_overwritten_target : option InodeId;
  ra_updated_src_parent : option Inode;
  ra_updated_dst_parent : option Inode
}.

Definition put_optional (inode : option Inode) : list WriteOp :=
  match inode with Some i => [PutInode i] | None => [] end.

Definition rename_batch (u : RenameAtomicUpdate) : list WriteOp :=
  match ra_overwritten_target u with
  | Some id => [DeleteInode id; DeleteDentry (ra_dst_parent_inode_id u) (ra_dst_name u)]
  | None => []
  end
  ++ [DeleteDentry (ra_src_parent_inode_id u) (ra_src_name u);
      PutDentry (ra_dst_parent_inode_id u) (ra_dst_name u) (ra_src_inode_id u)]
  ++ put_optional (ra_updated_src_parent u) ++ put_optional (ra_updated_dst_parent u).

Definition rename_atomic (s : Store) (u : RenameAtomicUpdate) (rs : RaftState) : Store :=
  commit_authority_batch s (rename_batch u) rs.

Definition prepare_worker_registration (group : GroupName) (id : WorkerId) (address : string)
    (protocol : Z) (fault_domain : option string) : MetadataResult WorkerInfo :=
  reject_if (bool_decide (id = 0)) (InvalidArgument "worker_id must be non-zero for registration");;
  Ok (mk_WorkerInfo group id address protocol 0 0 0 0 0 Healthy 0 fault_domain).

Definition register_worker_atomic (s : Store) (info : WorkerInfo) (rs : RaftState) : MetadataResult Store :=
  reject_if (bool_decide (wi_worker_id info = 0))
    (InvalidArgument "worker_id must be non-zero for registration");;
  Ok (commit_authority_batch s [PutWorker info] rs).

(** Evaluate the atomic updates with a fixed batch on an explicit store. *)
Ltac store_eval :=
  unfold put_inode_atomic, bootstrap_namespace_atomic, unlink_inode_atomic, detach_directory_atomic,
    rename_atomic, commit_applied_state, commit_authority_batch, write_batch in *; simpl in *.

(** ** Lemmas on scans and allocation *)

#[global] Instance name_le_total : Total name_le.
Proof. intros a b. apply (total String.le). Qed.
#[global] Instance name_le_trans : Transitive name_le.
Proof. intros a b c. unfold name_le. apply transitivity. Qed.

Section scan_lemmas.
Implicit Types (s : Store) (p c : InodeId) (nm : string).

Lemma elem_of_dir_entries s p nm c :
  (nm, c) ∈ dir_entries s p <-> s_dentries s !! (p, nm) = Some c.
Proof.
  unfold dir_entries. rewrite merge_sort_Permutation, list_elem_of_omap. split.
  - intros ([[q nm'] c'] & Hin%elem_of_map_to_list & H). case_bool_decide; by simplify_eq.
  - intros H. exists ((p, nm), c). split; [by apply elem_of_map_to_list|].
    by rewrite bool_decide_eq_true_2.
Qed.

Lemma dir_entries_sorted s p : StronglySorted name_le (dir_entries s p).
Proof. apply StronglySorted_merge_sort; apply _. Qed.

Lemma NoDup_omap_inj {A B} (f : A -> option B) (l : list A) :
  (forall x y b, f x = Some b -> f y = Some b -> x = y) -> NoDup l -> NoDup (omap f l).
Proof.
  intros Hinj. induction 1 as [|x l Hx Hnd IH]; csimpl; [constructor|].
  destruct (f x) as [b|] eqn:Hfx; [|done]. constructor; [|done].
  rewrite list_elem_of_omap. intros (y & Hy & Hfy). by rewrite (Hinj _ _ _ Hfx Hfy) in Hx.
Qed.

Lemma dir_entries_NoDup s p : NoDup (dir_entries s p).
Proof.
  unfold dir_entries. rewrite merge_sort_Permutation. apply NoDup_omap_inj; [|apply NoDup_map_to_list].
  intros [[q1 n1] c1] [[q2 n2] c2] b ??. repeat case_bool_decide; by simplify_eq.
Qed.

Lemma dir_entries_nil s p : dir_entries s p = [] <-> forall nm, s_dentries s !! (p, nm) = None.
Proof.
  split.
  - intros H nm. destruct (s_dentries s !! (p, nm)) as [c|] eqn:Hl; [|done].
    apply elem_of_dir_entries in Hl. rewrite H in Hl. by apply not_elem_of_nil in Hl.
  - intros H. destruct (dir_entries s p) as [|[nm c] l] eqn:Hd; [done|].
    assert ((nm, c) ∈ dir_entries s p) as Hl by (rewrite Hd; left).
    apply elem_of_dir_entries in Hl. by rewrite H in Hl.
Qed.

Lemma is_directory_empty_true s p :
  is_directory_empty s p = Ok true <-> forall nm, s_dentries s !! (p, nm) = None.
Proof.
  rewrite <-dir_entries_nil. unfold is_directory_empty, list_dentries_with_cursor. simpl.
  destruct (dir_entries s p) as [|[nm c] l]; simpl; [done|].
  split; [|done]. intros H. inv_ok.
Qed.

(** Listing a directory whose names are not empty never fails. *)
Lemma is_directory_empty_Ok s p :
  (forall c, s_dentries s !! (p, EmptyString) <> Some c) -> exists b, is_directory_empty s p = Ok b.
Proof.
  intros Hne. unfold is_directory_empty, list_dentries_with_cursor. simpl.
  destruct (dir_entries s p) as [|[nm c] l] eqn:Hd; simpl; [eauto|].
  assert ((nm, c) ∈ dir_entries s p) as Hl%elem_of_dir_entries by (rewrite Hd; left).
  rewrite (bool_decide_eq_false_2 (nm = EmptyString)); [simpl; eauto|].
  intros ->. by apply Hne in Hl.
Qed.

Lemma max_inode_key_spec s :
  match max_inode_key s with
  | None => s_inodes s = ∅
  | Some m => is_Some (s_inodes s !! m) /\ forall k i, s_inodes s !! k = Some i -> k <= m
  end.
Proof.
  unfold max_inode_key. apply (map_fold_weak_ind (fun acc m =>
    match acc with
    | None => m = ∅
    | Some x => is_Some (m !! x) /\ forall k i, m !! k = Some i -> k <= x
    end)); [done|].
  intros k i m acc Hk IH. destruct acc as [x|].
  - destruct IH as [Hx Hmax]. split.
    + destruct (Z.max_spec k x) as [[_ ->]|[_ ->]]; [|rewrite lookup_insert_eq; eauto].
      destruct (decide (k = x)) as [->|]; [rewrite lookup_insert_eq; eauto|].
      by rewrite lookup_insert_ne.
    + intros k' i'. rewrite lookup_insert. case_decide; [lia|]. intros ?%Hmax. lia.
  - subst m. split; [rewrite lookup_insert_eq; eauto|].
    intros k' i'. rewrite lookup_insert. case_decide; [lia|by rewrite lookup_empty].
Qed.

Lemma prepare_inode_allocation_Ok s al :
  prepare_inode_allocation s = Ok al ->
  s_next_inode_id s = Some (al_inode_id al) /\ 2 <= al_inode_id al /\
  al_next_inode_id al = al_inode_id al + 1 /\ al_inode_id al + 1 <= u64_max.
Proof. unfold prepare_inode_allocation. intros H. inv_ok. bool_prop. simpl. split_and!; (done || lia). Qed.

Lemma prepare_inode_allocation_total s n k0 i0 :
  s_next_inode_id s = Some n -> 2 <= n -> n + 1 <= u64_max -> s_inodes s !! k0 = Some i0 ->
  (forall k i, s_inodes s !! k = Some i -> 1 <= k < n) ->
  prepare_inode_allocation s = Ok (mk_InodeAllocation n (n + 1)).
Proof.
  intros Hn Hge Hmax H0 Hkeys. unfold prepare_inode_allocation. rewrite Hn. simpl.
  rewrite (proj2 (Z.ltb_ge n 2)) by done. simpl. unfold max_inode_id.
  pose proof (max_inode_key_spec s) as Hs. destruct (max_inode_key s) as [m|];
    [|by rewrite Hs, lookup_empty in H0].
  destruct Hs as [[im Him] _]. apply Hkeys in Him as Hm.
  rewrite (bool_decide_eq_false_2 (m = 0)) by lia. simpl.
  rewrite (proj2 (Z.leb_gt n m)) by lia.
  rewrite bool_decide_eq_false_2; [|intros [i Hi]; apply Hkeys in Hi; lia]. simpl.
  unfold checked_add64. by rewrite bool_decide_eq_true_2.
Qed.

Lemma check_targets_Ok s expected targets next :
  check_targets s expected targets = Ok next ->
  next = expected + Z.of_nat (length targets) /\
  (targets <> [] -> next <= u64_max) /\
  forall j id, targets !! j = Some id -> id = expected + Z.of_nat j /\ s_inodes s !! id = None.
Proof.
  revert expected. induction targets as [|id rest IH]; intros expected H; simpl in H.
  { simplify_eq/=. split_and!; [lia|done|]. intros j id. by rewrite lookup_nil. }
  inv_ok. bool_prop.
  select (check_targets _ _ _ = _) (fun H => apply IH in H as (-> & Hle & Hall)). simpl. split_and!; [lia| |].
  - intros _. destruct rest; [simpl; lia|by apply Hle].
  - intros [|j] id' Hj; simpl in Hj; [simplify_eq|apply Hall in Hj; split; [lia|naive_solver]].
    split; [lia|]. by apply eq_None_not_Some.
Qed.
End scan_lemmas.
