(* ===== verification/Namespace.v ===== *)
(** * Namespace commands of the state machine
      ([beryl-metadata/src/raft/state_machine/namespace.rs])

    Deterministic application of the commands that change the directory tree.
    Each function reads the store, validates, and commits one batch; a rejected
    command returns an error and no store. *)

From S2P Require Import Prelude Types Errors Inode Mount Store.
Local Open Scope Z_scope.

Definition MAX_PATH_BYTES : Z := 4096.
Definition MAX_PATH_COMPONENT_BYTES : Z := 255.
Definition MAX_PATH_COMPONENTS : Z := 256.

Definition mutation_timestamp (inode : Inode) (proposed_at_ms : Z) : Z :=
  Z.max proposed_at_ms (modify_time (inode_attrs inode)).

(** The updated parent that every namespace mutation writes back. *)
Definition touch_parent (parent : Inode) (proposed_at_ms : Z) : Inode :=
  with_attrs parent
    (set_modify_time (inode_attrs parent) (mutation_timestamp parent proposed_at_ms)).

Definition apply_bootstrap_namespace (s : Store) (group : GroupName) (proposed_at_ms : Z)
    (rs : RaftState) : MetadataResult (Store * MountEntry) :=
  state ← bootstrap_namespace_state s group;
  match state with
  | BNS_Conflicting =>
      Err (InvalidArgument "metadata namespace is partially initialized or conflicts with writable root bootstrap; reformat metadata storage")
  | BNS_Matching => Ok (commit_applied_state s rs, root_mount_entry group)
  | BNS_Empty =>
      let attrs := attrs_initialize attrs_new proposed_at_ms in
      let root_inode := new_dir ROOT_INODE_ID attrs 1 in
      Ok (bootstrap_namespace_atomic s root_inode (root_mount_entry group) rs, root_mount_entry group)
  end.

Definition apply_mkdir (s : Store) (parent_id : InodeId) (name : string) (attrs : InodeAttrs)
    (proposed_at_ms : Z) (rs : RaftState) : MetadataResult (Store * (InodeId * InodeAttrs)) :=
  parent ← ok_or (get_inode s parent_id) (NotFound "Parent inode not found");
  reject_if (negb (is_dir parent)) (NotDir "Parent is not a directory");;
  reject_if (bool_decide (is_Some (get_dentry s parent_id name))) (AlreadyExists "Directory already exists");;
  allocation ← prepare_inode_allocation s;
  let inode := new_dir (al_inode_id allocation) (attrs_initialize attrs proposed_at_ms)
                 (inode_mount_id parent) in
  s' ← create_dir_atomic s allocation parent_id name inode (touch_parent parent proposed_at_ms) rs;
  Ok (s', (inode_id inode, inode_attrs inode)).

(** The loop of [apply_create_directory]: the current parent, the next free id
    and the insertions planned so far. *)
Fixpoint mkdir_loop (s : Store) (attrs : InodeAttrs) (proposed_at_ms : Z) (parent : Inode)
    (next_raw : Z) (entries : list RecursiveMkdirEntry) (components : list string)
  : MetadataResult (Inode * Z * list RecursiveMkdirEntry) :=
  match components with
  | [] => Ok (parent, next_raw, entries)
  | name :: rest =>
      match get_dentry s (inode_id parent) name with
      | Some child_id =>
          child ← ok_or (get_inode s child_id) (NotFound "Target inode not found");
          reject_if (negb (is_dir child)) (NotDir "Path component is not a directory");;
          mkdir_loop s attrs proposed_at_ms child next_raw entries rest
      | None =>
          next ← ok_or (checked_add64 next_raw 1) (Internal "inode ID allocator overflow");
          let child := new_dir next_raw (attrs_initialize attrs proposed_at_ms) (inode_mount_id parent) in
          let entry := mk_RecursiveMkdirEntry (inode_id parent) name child
                         (touch_parent parent proposed_at_ms) in
          mkdir_loop s attrs proposed_at_ms child next (entries ++ [entry]) rest
      end
  end.

Definition apply_create_directory (s : Store) (root_id : InodeId) (components : list string)
    (attrs : InodeAttrs) (proposed_at_ms : Z) (rs : RaftState)
  : MetadataResult (Store * (InodeId * InodeAttrs)) :=
  reject_if (bool_decide (components = []) || existsb (fun c => bool_decide (c = EmptyString)) components)
    (InvalidArgument "CreateDirectory requires non-empty path components");;
  parent ← ok_or (get_inode s root_id) (NotFound "Root inode not found");
  reject_if (negb (is_dir parent)) (NotDir "Root is not a directory");;
  allocation ← prepare_inode_allocation s;
  '(last, next_raw, entries) ←
     mkdir_loop s attrs proposed_at_ms parent (al_inode_id allocation) [] components;
  s' ← (if bool_decide (entries ≠ [])
        then create_directories_atomic s (mk_InodeAllocation (al_inode_id allocation) next_raw) entries rs
        else Ok (commit_applied_state s rs));
  Ok (s', (inode_id last, inode_attrs last)).

(** ** Path validation shared by CreateFile and Delete *)

Fixpoint validate_components (components : list string) : MetadataResult unit :=
  match components with
  | [] => Ok tt
  | c :: rest =>
      reject_if (bool_decide (c = EmptyString) || contains_char slash c || contains_char nul c)
        (InvalidArgument "path contains an invalid component");;
      reject_if (MAX_PATH_COMPONENT_BYTES <? str_len c) (InvalidArgument "path component exceeds the limit");;
      validate_components rest
  end.

Definition validate_relative_components (components : list string) : MetadataResult unit :=
  reject_if (bool_decide (components = [])) (InvalidArgument "cannot target a mount root");;
  reject_if (MAX_PATH_COMPONENTS <? Z.of_nat (length components)) (InvalidArgument "path exceeds the component limit");;
  validate_components components.

(** The walk of [resolve_create_parent] over the parent components. *)
Fixpoint walk_create_parent (s : Store) (mount : MountId) (parent : Inode) (components : list string)
  : MetadataResult Inode :=
  match components with
  | [] => Ok parent
  | c :: rest =>
      child_id ← ok_or (get_dentry s (inode_id parent) c) (NotFound "Entry not found");
      child ← ok_or (get_inode s child_id) (NotFound "Child inode not found");
      reject_if (bool_decide (inode_id child ≠ child_id) || bool_decide (inode_mount_id child ≠ mount))
        (Internal "CreateFile parent path authority is corrupt");;
      reject_if (negb (is_dir child)) (NotDir "Path component is not a directory");;
      walk_create_parent s mount child rest
  end.

Definition resolve_create_parent (s : Store) (mount : MountId) (expected_mount_epoch : Z)
    (mount_root : InodeId) (components : list string) : MetadataResult (InodeId * string * Inode) :=
  validate_relative_components components;;
  entry ← ok_or (get_mount s mount) (NotFound "Mount not found");
  reject_if (bool_decide (mount_epoch entry ≠ expected_mount_epoch)
             || bool_decide (root_inode_id entry ≠ mount_root))
    (Again "CreateFile mount precondition changed");;
  root ← ok_or (get_inode s mount_root) (NotFound "Mount root inode not found");
  reject_if (bool_decide (inode_id root ≠ mount_root) || bool_decide (inode_mount_id root ≠ mount)
             || negb (is_dir root))
    (Internal "CreateFile mount root authority is corrupt");;
  name ← expect (last components);
  parent ← walk_create_parent s mount root (removelast components);
  Ok (inode_id parent, name, parent).

(** ** CreateFile *)

Definition validate_create_file_replay (s : Store) (r : CreateFileReplayRecord) (proposed_at_ms : Z)
  : MetadataResult unit :=
  reject_if (rr_expires_at_ms r <=? proposed_at_ms) (Again "replayed CreateFile write session has expired");;
  '(parent_id, name, _) ← resolve_create_parent s (rr_mount_id r) (rr_expected_mount_epoch r)
                            (rr_mount_root_inode_id r) (rr_relative_components r);
  reject_if (bool_decide (parent_id ≠ rr_parent_inode_id r) || bool_decide (name ≠ rr_name r))
    (Again "replayed CreateFile path authority changed");;
  reject_if (bool_decide (get_dentry s (rr_parent_inode_id r) (rr_name r) ≠ Some (rr_inode_id r)))
    (AlreadyExists "replayed CreateFile target no longer names its original inode");;
  inode ← ok_or (get_inode s (rr_inode_id r)) (NotFound "CreateFile inode not found");
  reject_if (bool_decide (inode_id inode ≠ rr_inode_id r) || bool_decide (inode_mount_id inode ≠ rr_mount_id r)
             || negb (is_file inode))
    (Internal "replayed CreateFile inode authority is corrupt");;
  match inode_kind inode with
  | KDir => Err (Internal "replayed CreateFile inode payload is not a file")
  | KFile f =>
      reject_if (bool_decide (fd_lease_epoch f ≠ rr_lease_epoch r))
        (LeaseFenced (fd_lease_epoch f) (rr_lease_epoch r));;
      reject_if (bool_decide (fd_blocks f ≠ []) || bool_decide (fd_generation f ≠ rr_generation r)
                 || bool_decide (fd_next_index f ≠ 0) || bool_decide (inode_len inode ≠ 0))
        (AlreadyExists "replayed CreateFile result no longer owns the initial file state");;
      layout ← get_layout s (rr_inode_id r);
      reject_if (bool_decide (layout ≠ rr_layout r)) (Internal "replayed CreateFile layout authority changed")
  end.

Record CreateFileArgs := mk_CreateFileArgs {
  ca_operation_id : CreateFileOperationId;
  ca_request_deadline_ms : Z;
  ca_session_expires_at_ms : Z;
  ca_normalized_path : string;
  ca_mount_id : MountId;
  ca_expected_mount_epoch : Z;
  ca_mount_root_inode_id : InodeId;
  ca_relative_components : list string;
  ca_attrs : InodeAttrs;
  ca_layout : FileLayout
}.

Definition with_lease_epoch (f : FileData) (epoch : LeaseEpoch) : FileData :=
  mk_FileData (fd_layout f) (fd_len f) (fd_generation f) (fd_blocks f) (fd_next_index f) epoch
    (fd_last_commit f).

(** The file a CreateFile command inserts: [new_file] with its first lease. The
    directory arm is the source's [unreachable!]. *)
Definition initial_file (id : InodeId) (attrs : InodeAttrs) (mount : MountId) (layout : FileLayout) : Inode :=
  let inode := new_file id attrs mount layout in
  match inode_kind inode with
  | KFile f => with_file inode (with_lease_epoch f 1)
  | KDir => inode
  end.

Definition apply_create (s : Store) (a : CreateFileArgs) (proposed_at_ms : Z) (rs : RaftState)
  : MetadataResult (Store * CreateFileReplayRecord) :=
  found ← get_create_file_replay s (ca_operation_id a);
  match found with
  | Some r =>
      reject_if (bool_decide (rr_request_deadline_ms r ≠ ca_request_deadline_ms a)
                 || bool_decide (rr_normalized_path r ≠ ca_normalized_path a)
                 || bool_decide (rr_mount_id r ≠ ca_mount_id a)
                 || bool_decide (rr_expected_mount_epoch r ≠ ca_expected_mount_epoch a)
                 || bool_decide (rr_mount_root_inode_id r ≠ ca_mount_root_inode_id a)
                 || bool_decide (rr_relative_components r ≠ ca_relative_components a))
        (InvalidArgument "CreateFile operation identity was reused with a different request");;
      validate_create_file_replay s r proposed_at_ms;;
      Ok (commit_applied_state s rs, r)
  | None =>
      reject_if (ca_request_deadline_ms a <? proposed_at_ms)
        (InvalidArgument "CreateFile request deadline expired before proposal");;
      reject_if (ca_session_expires_at_ms a <=? proposed_at_ms)
        (Again "CreateFile write session expired before proposal");;
      map_err (fun _ => InvalidArgument "invalid CreateFile layout") (layout_validate (ca_layout a));;
      '(parent_id, name, parent) ←
        resolve_create_parent s (ca_mount_id a) (ca_expected_mount_epoch a)
          (ca_mount_root_inode_id a) (ca_relative_components a);
      reject_if (bool_decide (is_Some (get_dentry s parent_id name))) (AlreadyExists "File already exists");;
      allocation ← prepare_inode_allocation s;
      let inode := initial_file (al_inode_id allocation) (attrs_initialize (ca_attrs a) proposed_at_ms)
                     (inode_mount_id parent) (ca_layout a) in
      let record := mk_ReplayRecord (ca_operation_id a) (ca_request_deadline_ms a) (ca_normalized_path a)
                      parent_id name (inode_id inode) (ca_mount_id a) (ca_expected_mount_epoch a)
                      (ca_mount_root_inode_id a) (ca_relative_components a) 1 (ca_layout a) 0
                      (ca_session_expires_at_ms a) in
      s' ← create_file_atomic s allocation parent_id name inode (touch_parent parent proposed_at_ms)
             record proposed_at_ms rs;
      Ok (s', record)
  end.

(** ** Delete *)

Definition apply_unlink (s : Store) (parent_id : InodeId) (name : string) (proposed_at_ms : Z)
    (rs : RaftState) : MetadataResult Store :=
  child_id ← ok_or (get_dentry s parent_id name) (NotFound "Entry not found");
  child ← ok_or (get_inode s child_id) (NotFound "Child inode not found");
  reject_if (is_dir child) (IsDir "Cannot unlink directory");;
  parent ← ok_or (get_inode s parent_id) (Internal "Parent inode disappeared");
  match inode_kind child with
  | KFile _ =>
      corrupt ← (if bool_decide (inode_id child ≠ child_id) then Ok true
                 else layout ← get_layout_optional s child_id; Ok (bool_decide (layout = None)));
      reject_if corrupt (Internal "file inode has corrupt identity or missing layout");;
      Ok (unlink_inode_atomic s parent_id name child_id (touch_parent parent proposed_at_ms) rs)
  | KDir => Err (IsDir "Cannot unlink directory")
  end.

Definition apply_delete_empty_dir (s : Store) (parent_id : InodeId) (name : string) (proposed_at_ms : Z)
    (rs : RaftState) : MetadataResult Store :=
  child_id ← ok_or (get_dentry s parent_id name) (NotFound "Directory not found");
  child ← ok_or (get_inode s child_id) (NotFound "Child inode not found");
  reject_if (negb (is_dir child)) (NotDir "Not a directory");;
  empty ← is_directory_empty s child_id;
  reject_if (negb empty) (DirectoryNotEmpty "Directory not empty");;
  parent ← ok_or (get_inode s parent_id) (Internal "Parent inode disappeared");
  Ok (unlink_inode_atomic s parent_id name child_id (touch_parent parent proposed_at_ms) rs).

Definition apply_detach_directory (s : Store) (parent_id : InodeId) (name : string) (root_id : InodeId)
    (proposed_at_ms : Z) (rs : RaftState) : MetadataResult Store :=
  current ← ok_or (get_dentry s parent_id name) (NotFound "Directory not found");
  reject_if (bool_decide (current ≠ root_id)) (Again "delete target changed");;
  root ← ok_or (get_inode s root_id) (NotFound "Root inode not found");
  reject_if (negb (is_dir root)) (NotDir "Not a directory");;
  corrupt ← (if bool_decide (inode_id root ≠ root_id) then Ok true
             else layout ← get_layout_optional s root_id; Ok (bool_decide (layout ≠ None)));
  reject_if corrupt (Internal "directory inode carries file authority");;
  marker ← get_detached_root s root_id;
  reject_if (bool_decide (marker ≠ None)) (Internal "inode is both reachable and already detached");;
  parent ← ok_or (get_inode s parent_id) (Internal "Parent inode disappeared");
  reject_if (negb (is_dir parent)) (NotDir "Parent is not a directory");;
  reject_if (bool_decide (inode_mount_id parent ≠ inode_mount_id root))
    (CrossMountRename "recursive delete cannot cross mount boundary");;
  Ok (detach_directory_atomic s parent_id name root_id (touch_parent parent proposed_at_ms)
        (mk_DetachedRoot (inode_mount_id root) proposed_at_ms) rs).

(** The walk of [resolve_delete_target] over all components. *)
Fixpoint walk_delete (s : Store) (mounts : list MountEntry) (mount : MountId) (parent : Inode)
    (components : list string) : MetadataResult (InodeId * string * Inode) :=
  match components with
  | [] => Panic
  | c :: rest =>
      child_id ← ok_or (get_dentry s (inode_id parent) c) (NotFound "Entry not found");
      child ← ok_or (get_inode s child_id) (NotFound "Child inode not found");
      reject_if (bool_decide (inode_id child ≠ child_id)) (Internal "inode key contains another inode");;
      reject_if (bool_decide (inode_mount_id child ≠ mount))
        (CrossMountRename "delete path crosses mount authority");;
      match rest with
      | [] =>
          reject_if (existsb (fun e => bool_decide (root_inode_id e = child_id)) mounts)
            (InvalidArgument "Cannot delete mount root inode");;
          Ok (inode_id parent, c, child)
      | _ :: _ =>
          reject_if (negb (is_dir child)) (NotDir "Path component is not a directory");;
          walk_delete s mounts mount child rest
      end
  end.

(** Byte length of the target path; [usize] overflow is not reachable with at
    most 256 components of at most 255 bytes and a stored prefix. *)
Definition relative_path_bytes (components : list string) : Z :=
  Z.of_nat (length components - 1) + foldr Z.add 0 (str_len <$> components).

Definition target_path (prefix : string) (components : list string) : string :=
  if bool_decide (prefix = ROOT_MOUNT_PREFIX)
  then String slash (join_slash components)
  else prefix +:+ String slash (join_slash components).

Definition target_path_bytes (prefix : string) (components : list string) : Z :=
  if bool_decide (prefix = ROOT_MOUNT_PREFIX)
  then 1 + relative_path_bytes components
  else str_len prefix + 1 + relative_path_bytes components.

Definition resolve_delete_target (s : Store) (mount : MountId) (expected_mount_epoch : Z)
    (mount_root : InodeId) (components : list string) : MetadataResult (InodeId * string * Inode) :=
  validate_relative_components components;;
  let mounts := list_mounts s in
  entry ← ok_or (List.find (fun e => bool_decide (mount_id e = mount)) mounts) (NotFound "Mount not found");
  reject_if (bool_decide (mount_epoch entry ≠ expected_mount_epoch)
             || bool_decide (root_inode_id entry ≠ mount_root))
    (Again "delete mount precondition changed");;
  reject_if (MAX_PATH_BYTES <? target_path_bytes (mount_prefix entry) components)
    (InvalidArgument "Delete path exceeds the limit");;
  let target := target_path (mount_prefix entry) components in
  reject_if (existsb (fun e => bool_decide (mount_id e ≠ mount)
                               && mount_prefix_matches_path target (mount_prefix e)) mounts)
    (CrossMountRename "delete target is a mount root or contains a nested mount");;
  root ← ok_or (get_inode s mount_root) (NotFound "Mount root inode not found");
  reject_if (bool_decide (inode_id root ≠ mount_root)) (Internal "mount root inode key contains another inode");;
  reject_if (negb (is_dir root)) (NotDir "Mount root is not a directory");;
  reject_if (bool_decide (inode_mount_id root ≠ mount))
    (CrossMountRename "mount root inode belongs to a different mount");;
  walk_delete s mounts mount root components.

Record DeleteArgs := mk_DeleteArgs {
  da_mount_id : MountId;
  da_expected_mount_epoch : Z;
  da_mount_root_inode_id : InodeId;
  da_relative_components : list string;
  da_expected_inode_id : InodeId;
  da_expected_file_lease_epoch : option LeaseEpoch;
  da_recursive : bool
}.

Definition inode_lease_epoch (i : Inode) : option LeaseEpoch :=
  match inode_kind i with KFile f => Some (fd_lease_epoch f) | KDir => None end.

Definition apply_delete (s : Store) (a : DeleteArgs) (proposed_at_ms : Z) (rs : RaftState)
  : MetadataResult Store :=
  '(parent_id, name, child) ←
    resolve_delete_target s (da_mount_id a) (da_expected_mount_epoch a) (da_mount_root_inode_id a)
      (da_relative_components a);
  reject_if (bool_decide (inode_id child ≠ da_expected_inode_id a)) (Again "delete target changed");;
  if is_dir child
  then
    reject_if (bool_decide (da_expected_file_lease_epoch a ≠ None))
      (Again "delete target lease precondition changed");;
    if da_recursive a
    then apply_detach_directory s parent_id name (inode_id child) proposed_at_ms rs
    else apply_delete_empty_dir s parent_id name proposed_at_ms rs
  else
    reject_if (bool_decide (inode_lease_epoch child ≠ da_expected_file_lease_epoch a))
      (Again "delete target lease precondition changed");;
    apply_unlink s parent_id name proposed_at_ms rs.

(** ** Rename *)

Definition prepare_rename_overwrite_target_cleanup (s : Store) (dst_id : InodeId) (dst : Inode)
  : MetadataResult InodeId :=
  match inode_kind dst with
  | KFile _ =>
      corrupt ← (if bool_decide (inode_id dst ≠ dst_id) then Ok true
                 else layout ← get_layout_optional s dst_id; Ok (bool_decide (layout = None)));
      reject_if corrupt (Internal "file inode has corrupt identity or missing layout");;
      Ok dst_id
  | KDir =>
      empty ← is_directory_empty s dst_id;
      reject_if (negb empty) (DirectoryNotEmpty "Cannot overwrite non-empty directory");;
      corrupt ← (if bool_decide (inode_id dst ≠ dst_id) then Ok true
                 else layout ← get_layout_optional s dst_id; Ok (bool_decide (layout ≠ None)));
      reject_if corrupt (Internal "directory inode carries invalid file authority");;
      Ok dst_id
  end.

Record RenameArgs := mk_RenameArgs {
  ra_src_parent : InodeId;
  ra_src : string;
  ra_expected_src : InodeId;
  ra_dst_parent : InodeId;
  ra_dst : string;
  ra_expected_dst : option InodeId;
  ra_expected_dst_lease_epoch : option LeaseEpoch;
  ra_flags : Z
}.

(** The validation of an existing destination that differs from the source. *)
Definition prepare_overwrite (s : Store) (a : RenameArgs) (src : Inode) (dst_id : InodeId)
  : MetadataResult InodeId :=
  dst ← ok_or (get_inode s dst_id) (Internal "Destination inode disappeared");
  reject_if (bool_decide (inode_lease_epoch dst ≠ ra_expected_dst_lease_epoch a))
    (Again "rename destination lease epoch changed");;
  (if is_dir src
   then reject_if (negb (is_dir dst)) (NotDir "Cannot overwrite non-directory with directory");;
        empty ← is_directory_empty s dst_id;
        reject_if (negb empty) (DirectoryNotEmpty "Cannot overwrite non-empty directory")
   else reject_if (is_dir dst) (IsDir "Cannot overwrite directory with file"));;
  prepare_rename_overwrite_target_cleanup s dst_id dst.

(** The parents whose modification time the move updates. *)
Definition prepare_parents (s : Store) (a : RenameArgs) (proposed_at_ms : Z)
  : MetadataResult (option Inode * option Inode) :=
  if bool_decide (ra_src_parent a ≠ ra_dst_parent a)
  then
    src_parent ← ok_or (get_inode s (ra_src_parent a)) (Internal "Source parent disappeared");
    dst_parent ← ok_or (get_inode s (ra_dst_parent a)) (Internal "Destination parent disappeared");
    Ok (Some (touch_parent src_parent proposed_at_ms), Some (touch_parent dst_parent proposed_at_ms))
  else
    parent ← ok_or (get_inode s (ra_src_parent a)) (Internal "Parent disappeared");
    Ok (Some (touch_parent parent proposed_at_ms), None).

Definition rename_update (a : RenameArgs) (src_id : InodeId) (target : option InodeId)
    (parents : option Inode * option Inode) : RenameAtomicUpdate :=
  mk_RenameUpdate (ra_src_parent a) (ra_src a) (ra_dst_parent a) (ra_dst a) src_id target
    parents.1 parents.2.

Definition prepare_rename (s : Store) (a : RenameArgs) (proposed_at_ms : Z)
  : MetadataResult RenameAtomicUpdate :=
  src_id ← ok_or (get_dentry s (ra_src_parent a) (ra_src a)) (NotFound "Source not found");
  reject_if (bool_decide (src_id ≠ ra_expected_src a)) (Again "rename source changed");;
  let current_dst := get_dentry s (ra_dst_parent a) (ra_dst a) in
  reject_if (bool_decide (current_dst ≠ ra_expected_dst a)) (Again "rename destination changed");;
  src ← ok_or (get_inode s src_id) (NotFound "Source inode not found");
  match current_dst with
  | Some dst_id =>
      reject_if (bool_decide (Z.land (ra_flags a) 1 ≠ 0))
        (AlreadyExists "Destination exists and RENAME_NOREPLACE set");;
      if bool_decide (src_id = dst_id) then Ok (rename_update a src_id None (None, None))
      else
        target ← prepare_overwrite s a src dst_id;
        parents ← prepare_parents s a proposed_at_ms;
        Ok (rename_update a src_id (Some target) parents)
  | None =>
      parents ← prepare_parents s a proposed_at_ms;
      Ok (rename_update a src_id None parents)
  end.

Definition apply_rename (s : Store) (a : RenameArgs) (proposed_at_ms : Z) (rs : RaftState)
  : MetadataResult Store :=
  update ← prepare_rename s a proposed_at_ms;
  Ok (rename_atomic s update rs).
