(* ===== verification/Tree.v ===== *)
(** * The namespace invariant

    The shape of the directory tree as a predicate on the four column families
    that hold it: inodes [I], dentries [D], mounts [M] and detached-root markers
    [T], with [n] the next inode id to allocate. One lemma per elementary edit
    of the tree shows that the edit preserves the invariant; the commands are
    compositions of these edits. *)

From S2P Require Import Prelude Types Errors Inode Mount Store Namespace.
Local Open Scope Z_scope.

(** A dentry name the path layer admits. *)
Definition valid_name (c : string) : Prop :=
  c <> EmptyString /\ contains_char slash c = false /\ contains_char nul c = false /\
  str_len c <= MAX_PATH_COMPONENT_BYTES.

(** A file keeps a valid layout, and its counters stay inside their widths. *)
Definition file_inv (id : InodeId) (f : FileData) : Prop :=
  file_ok id f /\ 0 <= fd_len f /\ 0 <= fd_next_index f <= u32_max + 1 /\ 0 <= fd_generation f <= u64_max /\
  0 <= fd_lease_epoch f <= u64_max.

Definition inode_inv (i : Inode) : Prop :=
  match inode_kind i with KFile f => file_inv (inode_id i) f | KDir => True end.

(** [c] is a child of directory [p]. *)
Definition child (D : gmap (InodeId * string) InodeId) (p c : InodeId) : Prop :=
  exists nm, D !! (p, nm) = Some c.

Definition is_mount_root (M : gmap MountId MountEntry) (r : InodeId) : Prop :=
  exists m e, M !! m = Some e /\ root_inode_id e = r.

Record tree_inv (n : Z) (I : gmap InodeId Inode) (D : gmap (InodeId * string) InodeId)
    (M : gmap MountId MountEntry) (T : gmap InodeId DetachedRoot) : Prop := {
  ti_inode : forall k i, I !! k = Some i ->
    inode_id i = k /\ 1 <= k < n /\ inode_inv i /\ is_Some (M !! inode_mount_id i);
  ti_dentry : forall p nm c, D !! (p, nm) = Some c ->
    valid_name nm /\
    exists ip ic, I !! p = Some ip /\ is_dir ip = true /\ I !! c = Some ic /\
                  inode_mount_id ic = inode_mount_id ip;
  ti_unique : forall p nm p' nm' c,
    D !! (p, nm) = Some c -> D !! (p', nm') = Some c -> p = p' /\ nm = nm';
  ti_mount : forall m e, M !! m = Some e ->
    mount_id e = m /\ m <> 0 /\
    (exists i, I !! root_inode_id e = Some i /\ is_dir i = true /\ inode_mount_id i = m) /\
    (forall p, ~ child D p (root_inode_id e));
  ti_detached : forall r d, T !! r = Some d ->
    (exists i, I !! r = Some i /\ is_dir i = true /\ inode_mount_id i = dr_mount_id d) /\
    (forall p, ~ child D p r) /\ ~ is_mount_root M r;
  ti_owned : forall k i, I !! k = Some i ->
    is_mount_root M k \/ is_Some (T !! k) \/ exists p, child D p k
}.

(** The inode that a path of components names below [p]. *)
Fixpoint lookup_path (D : gmap (InodeId * string) InodeId) (p : InodeId) (components : list string)
  : option InodeId :=
  match components with
  | [] => Some p
  | c :: rest => D !! (p, c) ≫= fun q => lookup_path D q rest
  end.

(** The roots from which inodes are reached: mount roots and detached roots. *)
Definition is_root (M : gmap MountId MountEntry) (T : gmap InodeId DetachedRoot) (r : InodeId) : Prop :=
  is_mount_root M r \/ is_Some (T !! r).

(** Every inode hangs below a root: the dentries form a forest without orphaned
    cycles. *)
Definition rooted (I : gmap InodeId Inode) (D : gmap (InodeId * string) InodeId)
    (M : gmap MountId MountEntry) (T : gmap InodeId DetachedRoot) : Prop :=
  forall k i, I !! k = Some i -> exists r, is_root M T r /\ rtc (child D) r k.

Section edits.
Context {n : Z} {I : gmap InodeId Inode} {D : gmap (InodeId * string) InodeId}
  {M : gmap MountId MountEntry} {T : gmap InodeId DetachedRoot}.
Context (HT : tree_inv n I D M T).

Lemma child_is_inode p c : child D p c -> exists i, I !! c = Some i.
Proof using HT. intros [nm H]. apply (ti_dentry _ _ _ _ _ HT) in H as (_ & ip & ic & _ & _ & H & _). eauto. Qed.

Lemma parent_is_dir p c i : child D p c -> I !! p = Some i -> is_dir i = true.
Proof using HT.
  intros [nm H] Hp. apply (ti_dentry _ _ _ _ _ HT) in H as (_ & ip & ic & ? & ? & _). by simplify_eq.
Qed.

Lemma alloc_fresh : I !! n = None.
Proof using HT.
  destruct (I !! n) as [i|] eqn:H; [|done]. apply (ti_inode _ _ _ _ _ HT) in H. lia.
Qed.

(** Rewriting an inode in place. *)
Lemma tree_update k j i :
  I !! k = Some j -> inode_id i = k -> is_dir i = is_dir j ->
  inode_mount_id i = inode_mount_id j -> inode_inv i ->
  tree_inv n (<[k := i]> I) D M T.
Proof using HT.
  intros Hj Hid Hdir Hmnt Hinv. destruct HT as [H1 H2 H3 H4 H5 H6].
  assert (forall q iq, I !! q = Some iq ->
    exists iq', <[k := i]> I !! q = Some iq' /\ is_dir iq' = is_dir iq /\
                inode_mount_id iq' = inode_mount_id iq) as Hsame.
  { intros q iq Hq. destruct (decide (q = k)) as [->|].
    - rewrite lookup_insert_eq. naive_solver.
    - rewrite lookup_insert_ne by done. eauto. }
  split.
  - intros q iq. rewrite lookup_insert. case_decide; [|by apply H1].
    intros; simplify_eq. destruct (H1 _ _ Hj) as (? & ? & ? & ?).
    split_and!; try done; [lia..|by rewrite Hmnt].
  - intros p nm c (Hn & ip & ic & Hp & Hd & Hc & Hm)%H2. split; [done|].
    destruct (Hsame _ _ Hp) as (ip' & ? & ? & ?), (Hsame _ _ Hc) as (ic' & ? & ? & ?).
    exists ip', ic'. split_and!; congruence.
  - apply H3.
  - intros m e (? & ? & (ir & Hr & Hd & Hm) & ?)%H4. split_and!; [done..| |done].
    destruct (Hsame _ _ Hr) as (ir' & ? & ? & ?). exists ir'. split_and!; congruence.
  - intros r d ((ir & Hr & Hd & Hm) & ? & ?)%H5. split_and!; [|done..].
    destruct (Hsame _ _ Hr) as (ir' & ? & ? & ?). exists ir'. split_and!; congruence.
  - intros q iq. rewrite lookup_insert. case_decide; [subst; intros _; by eapply H6|by apply H6].
Qed.

(** Inserting a freshly allocated child. *)
Lemma tree_add p ip nm i :
  I !! p = Some ip -> is_dir ip = true -> D !! (p, nm) = None -> valid_name nm ->
  inode_id i = n -> 1 <= n -> inode_mount_id i = inode_mount_id ip -> inode_inv i ->
  tree_inv (n + 1) (<[n := i]> I) (<[(p, nm) := n]> D) M T.
Proof using HT.
  intros Hp Hdir Hfree Hnm Hid Hn Hmnt Hinv. pose proof alloc_fresh as Hfresh.
  assert (forall q, ~ child D q n) as Hnochild.
  { intros q Hc. apply child_is_inode in Hc as [j Hc]. congruence. }
  assert (forall q c, child (<[(p, nm) := n]> D) q c <-> child D q c \/ (q = p /\ c = n)) as Hchild.
  { intros q c. unfold child. setoid_rewrite lookup_insert. split.
    - intros [nm' Hl]. case_decide; simplify_eq; eauto.
    - intros [[nm' Hl]|[-> ->]]; [exists nm'; case_decide; simplify_eq; done|].
      exists nm. by rewrite decide_True. }
  assert (forall q iq, I !! q = Some iq -> <[n := i]> I !! q = Some iq) as Hkeep.
  { intros q iq Hq. rewrite lookup_insert_ne by congruence. done. }
  destruct HT as [H1 H2 H3 H4 H5 H6]. split.
  - intros q iq. rewrite lookup_insert. case_decide.
    + intros; simplify_eq. split_and!; [done|lia|lia|done|]. rewrite Hmnt.
      by apply (H1 p).
    + intros (? & ? & ? & ?)%H1. split_and!; try done; lia.
  - intros q nm' c. rewrite lookup_insert. case_decide.
    + intros; simplify_eq. split; [done|]. exists ip, i.
      rewrite lookup_insert_eq. naive_solver.
    + intros (? & iq & ic & Hq & ? & Hc & ?)%H2. split; [done|].
      exists iq, ic. naive_solver.
  - intros q nm1 q' nm2 c. rewrite !lookup_insert. repeat case_decide; intros; simplify_eq; eauto.
    all: exfalso; eapply Hnochild; eexists; done.
  - intros m e (? & ? & (ir & Hr & ?) & Hnc)%H4. split_and!; [done..| |].
    + exists ir. naive_solver.
    + intros q [Hc|[-> Heq]]%Hchild; [by eapply Hnc|congruence].
  - intros r d ((ir & Hr & ?) & Hnc & ?)%H5. split_and!; [| |done].
    + exists ir. naive_solver.
    + intros q [Hc|[-> Heq]]%Hchild; [by eapply Hnc|congruence].
  - intros q iq. rewrite lookup_insert. case_decide.
    + intros; subst. right; right. exists p. apply Hchild. by right.
    + intros [?|[?|[q' ?]]]%H6; [by left|by right; left|]. right; right. exists q'.
      apply Hchild. by left.
Qed.

(** Children after a dentry is deleted. *)
Lemma child_delete p nm c q x :
  D !! (p, nm) = Some c -> child (delete (p, nm) D) q x <-> child D q x /\ x <> c.
Proof using HT.
  intros Hc. unfold child. setoid_rewrite lookup_delete_Some. split.
  - intros (nm' & Hne & Hl). split; [by exists nm'|]. intros ->. apply Hne.
    by destruct (ti_unique _ _ _ _ _ HT _ _ _ _ _ Hc Hl) as [-> ->].
  - intros [[nm' Hl] Hne]. exists nm'. split; [|done]. congruence.
Qed.

(** Unlinking a node without children. *)
Lemma tree_remove p nm c :
  D !! (p, nm) = Some c -> (forall x, ~ child D c x) ->
  tree_inv n (delete c I) (delete (p, nm) D) M T.
Proof using HT.
  intros Hc Hleaf. assert (Hcc : child D p c) by by exists nm.
  assert (forall q iq, I !! q = Some iq -> q <> c -> delete c I !! q = Some iq) as Hkeep.
  { intros q iq Hq Hne. by rewrite lookup_delete_ne. }
  pose proof (fun q x => child_delete p nm c q x Hc) as Hchild.
  destruct HT as [H1 H2 H3 H4 H5 H6]. split.
  - intros k i [_ Hk]%lookup_delete_Some. by apply H1.
  - intros q nm' x [Hne Hl]%lookup_delete_Some.
    assert (child (delete (p, nm) D) q x) as [_ Hx]%Hchild.
    { exists nm'. by apply lookup_delete_Some. }
    assert (q <> c) as Hq. { intros ->. apply (Hleaf x). by exists nm'. }
    apply H2 in Hl as (? & iq & ix & ? & ? & ? & ?). split; [done|]. exists iq, ix.
    split_and!; eauto.
  - intros q nm1 q' nm2 x [_ Ha]%lookup_delete_Some [_ Hb]%lookup_delete_Some. by eapply H3.
  - intros m e (? & ? & (ir & Hr & ?) & Hnc)%H4. split_and!; [done..| |].
    + exists ir. split; [|done]. apply Hkeep; [done|]. intros <-. by eapply Hnc.
    + intros q [Hq _]%Hchild. by eapply Hnc.
  - intros r d ((ir & Hr & ?) & Hnc & ?)%H5. split_and!; [| |done].
    + exists ir. split; [|done]. apply Hkeep; [done|]. intros ->. by eapply Hnc.
    + intros q [Hq _]%Hchild. by eapply Hnc.
  - intros k i [Hne Hk]%lookup_delete_Some. apply H6 in Hk as [?|[?|[q Hq]]]; [by left|by right; left|].
    right; right. exists q. apply Hchild. naive_solver.
Qed.

(** Turning a child directory into a detached root. *)
Lemma tree_detach p nm c ic d :
  D !! (p, nm) = Some c -> I !! c = Some ic -> is_dir ic = true ->
  inode_mount_id ic = dr_mount_id d ->
  tree_inv n I (delete (p, nm) D) M (<[c := d]> T).
Proof using HT.
  intros Hc Hic Hdir Hmnt. assert (Hcc : child D p c) by by exists nm.
  pose proof (fun q x => child_delete p nm c q x Hc) as Hchild.
  destruct HT as [H1 H2 H3 H4 H5 H6]. split.
  - apply H1.
  - intros q nm' x [_ Hl]%lookup_delete_Some. by apply H2.
  - intros q nm1 q' nm2 x [_ Ha]%lookup_delete_Some [_ Hb]%lookup_delete_Some. by eapply H3.
  - intros m e (? & ? & ? & Hnc)%H4. split_and!; [done..|].
    intros q [Hq _]%Hchild. by eapply Hnc.
  - intros r d'. rewrite lookup_insert. case_decide.
    + intros; simplify_eq. split_and!; [by eauto| |].
      * by intros q [_ Hq]%Hchild.
      * intros (m & e & Hm & Heq). apply H4 in Hm as (_ & _ & _ & Hnc). rewrite Heq in Hnc.
        by eapply Hnc.
    + intros (? & Hnc & ?)%H5. split_and!; [done| |done].
      intros q [Hq _]%Hchild. by eapply Hnc.
  - intros k i Hk. destruct (decide (k = c)) as [->|Hne].
    { right; left. rewrite lookup_insert_eq. eauto. }
    rewrite lookup_insert_ne by done.
    apply H6 in Hk as [?|[?|[q Hq]]]; [by left|by right; left|].
    right; right. exists q. by apply Hchild.
Qed.

(** Retiring an empty detached root. *)
Lemma tree_retire r :
  is_Some (T !! r) -> (forall x, ~ child D r x) ->
  tree_inv n (delete r I) D M (delete r T).
Proof using HT.
  intros [d Hd] Hleaf.
  destruct (ti_detached _ _ _ _ _ HT _ _ Hd) as (_ & Hnc & Hnr).
  assert (forall q iq, I !! q = Some iq -> q <> r -> delete r I !! q = Some iq) as Hkeep.
  { intros q iq Hq Hne. by rewrite lookup_delete_ne. }
  destruct HT as [H1 H2 H3 H4 H5 H6]. split.
  - intros k i [_ Hk]%lookup_delete_Some. by apply H1.
  - intros q nm x Hl. pose proof Hl as (? & iq & ix & ? & ? & ? & ?)%H2. split; [done|].
    exists iq, ix. split_and!; [apply Hkeep|..|apply Hkeep|]; try done.
    + intros ->. apply (Hleaf x). by exists nm.
    + intros ->. apply (Hnc q). by exists nm.
  - apply H3.
  - intros m e Hm. pose proof Hm as (? & ? & (ir & Hr & ?) & ?)%H4. split_and!; [done..| |done].
    exists ir. split; [|done]. apply Hkeep; [done|]. intros Heq. apply Hnr. exists m, e. done.
  - intros x d' [Hne Hx]%lookup_delete_Some. apply H5 in Hx as ((ir & Hr & ?) & ? & ?).
    split_and!; [|done..]. exists ir. split; [|done]. by apply Hkeep.
  - intros k i [Hne Hk]%lookup_delete_Some. apply H6 in Hk as [?|[?|[q Hq]]]; [by left| |].
    + right; left. by rewrite lookup_delete_ne.
    + right; right. by exists q.
Qed.

(** Moving a dentry to a free name of a directory of the same mount. *)
Lemma tree_move sp sn c dp ip ic dn :
  D !! (sp, sn) = Some c -> delete (sp, sn) D !! (dp, dn) = None ->
  I !! dp = Some ip -> is_dir ip = true -> valid_name dn ->
  I !! c = Some ic -> inode_mount_id ic = inode_mount_id ip ->
  tree_inv n I (<[(dp, dn) := c]> (delete (sp, sn) D)) M T.
Proof using HT.
  intros Hc Hfree Hdp Hdir Hdn Hic Hmnt. assert (Hcc : child D sp c) by by exists sn.
  assert (forall q x, child (<[(dp, dn) := c]> (delete (sp, sn) D)) q x ->
            (child D q x /\ x <> c) \/ (q = dp /\ x = c)) as Hchild.
  { intros q x [nm Hl]. rewrite lookup_insert in Hl. case_decide; simplify_eq; [by right|].
    left. apply (child_delete sp sn c); [done|]. by exists nm. }
  assert (forall q x, child D q x -> x <> c -> child (<[(dp, dn) := c]> (delete (sp, sn) D)) q x) as Hold.
  { intros q x [nm Hl] Hne.
    assert (delete (sp, sn) D !! (q, nm) = Some x) as Hl'.
    { apply lookup_delete_Some. split; [congruence|done]. }
    exists nm. rewrite lookup_insert_ne by congruence. done. }
  assert (child (<[(dp, dn) := c]> (delete (sp, sn) D)) dp c) as Hnew.
  { exists dn. by rewrite lookup_insert_eq. }
  destruct HT as [H1 H2 H3 H4 H5 H6]. split.
  - apply H1.
  - intros q nm x. rewrite lookup_insert. case_decide.
    + intros; simplify_eq. split; [done|]. by exists ip, ic.
    + intros [_ Hl]%lookup_delete_Some. by apply H2.
  - intros q nm1 q' nm2 x. rewrite !lookup_insert.
    repeat case_decide; rewrite ?lookup_delete_Some; intros Ha Hb; simplify_eq; [done|..].
    + destruct Hb as [Hb1 Hb2]. destruct (H3 _ _ _ _ _ Hb2 Hc) as [-> ->]. done.
    + destruct Ha as [Ha1 Ha2]. destruct (H3 _ _ _ _ _ Ha2 Hc) as [-> ->]. done.
    + destruct Ha as [_ Ha], Hb as [_ Hb]. by eapply H3.
  - intros m e (? & ? & ? & Hnc)%H4. split_and!; [done..|].
    intros q [[Hq _]|[-> Heq]]%Hchild; [by eapply Hnc|]. rewrite Heq in Hnc. by eapply Hnc.
  - intros r d (? & Hnc & ?)%H5. split_and!; [done| |done].
    intros q [[Hq _]|[-> ->]]%Hchild; by eapply Hnc.
  - intros k i Hk. destruct (decide (k = c)) as [->|Hne]; [right; right; eauto|].
    apply H6 in Hk as [?|[?|[q Hq]]]; [by left|by right; left|]. right; right. eauto.
Qed.
End edits.

(** ** Rootedness *)

(** An edit keeps every surviving inode rooted if surviving roots stay roots and
    every edge into a surviving inode survives or leads to a new root. *)
Lemma rooted_edit I D M T I' D' T' :
  rooted I D M T ->
  (forall k i', I' !! k = Some i' -> is_Some (I !! k)) ->
  (forall r, is_root M T r -> is_Some (I' !! r) -> is_root M T' r) ->
  (forall m k, child D m k -> is_Some (I' !! k) ->
     (is_Some (I' !! m) /\ child D' m k) \/ is_root M T' k) ->
  rooted I' D' M T'.
Proof.
  intros Hr Hsub Hroot Hedge k i' Hk. destruct (Hsub _ _ Hk) as [i Hi].
  destruct (Hr _ _ Hi) as (r & Hrr & Hpath). assert (is_Some (I' !! k)) as Hs by eauto.
  clear i i' Hk Hi. revert k Hpath Hs. refine (rtc_ind_r _ _ _ _).
  - intros Hs. exists r. split; [by apply Hroot|done].
  - intros m k Hpath Hstep IH Hs.
    destruct (Hedge _ _ Hstep Hs) as [[Hm Hc]|Hnew]; [|by exists k].
    destruct (IH Hm) as (r' & Hr' & Hp). exists r'. split; [done|]. by eapply rtc_r.
Qed.

Section rooted_edits.
Context {n : Z} {I : gmap InodeId Inode} {D : gmap (InodeId * string) InodeId}
  {M : gmap MountId MountEntry} {T : gmap InodeId DetachedRoot}.
Context (HT : tree_inv n I D M T) (HR : rooted I D M T).

Lemma rooted_update k j i : I !! k = Some j -> rooted (<[k := i]> I) D M T.
Proof using HR.
  intros Hj q iq Hq. destruct (decide (q = k)) as [->|]; [by eapply HR|].
  rewrite lookup_insert_ne in Hq by done. by eapply HR.
Qed.

Lemma rooted_add p ip nm i :
  I !! p = Some ip -> D !! (p, nm) = None ->
  rooted (<[n := i]> I) (<[(p, nm) := n]> D) M T.
Proof using HT HR.
  intros Hp Hfree.
  assert (forall r k, rtc (child D) r k -> rtc (child (<[(p, nm) := n]> D)) r k) as Hmono.
  { intros r k. apply rtc_subrel. intros a b [nm' Hl]. exists nm'.
    rewrite lookup_insert_ne; congruence. }
  intros q iq. rewrite lookup_insert. case_decide; intros Hq.
  - subst q. destruct (HR _ _ Hp) as (r & Hr & Hpath). exists r. split; [done|].
    eapply rtc_r; [by apply Hmono|]. exists nm. by rewrite lookup_insert_eq.
  - destruct (HR _ _ Hq) as (r & Hr & Hpath). eauto.
Qed.

Lemma rooted_remove p nm c :
  D !! (p, nm) = Some c -> (forall x, ~ child D c x) ->
  rooted (delete c I) (delete (p, nm) D) M T.
Proof using HT HR.
  intros Hc Hleaf. eapply rooted_edit; [done|..].
  - intros k i' [_ Hk]%lookup_delete_Some. eauto.
  - done.
  - intros m k Hmk [i [Hne _]%lookup_delete_Some]. left. split.
    + destruct Hmk as [nm' Hl]. pose proof Hl as (_ & im & _ & Him & _)%(ti_dentry _ _ _ _ _ HT).
      exists im. rewrite lookup_delete_ne; [done|]. intros ->. apply (Hleaf k). by exists nm'.
    + apply (child_delete HT p nm c m k Hc). naive_solver.
Qed.

Lemma rooted_detach p nm c d :
  D !! (p, nm) = Some c -> rooted I (delete (p, nm) D) M (<[c := d]> T).
Proof using HT HR.
  intros Hc. eapply rooted_edit; [done|..].
  - eauto.
  - intros r [Hr|Hr] _; [by left|]. right. rewrite lookup_insert. case_decide; [eauto|done].
  - intros m k Hmk Hk. destruct (decide (k = c)) as [->|Hne].
    + right. right. rewrite lookup_insert_eq. eauto.
    + left. split; [|by apply (child_delete HT p nm c m k Hc)].
      destruct Hmk as [nm' (_ & im & _ & Him & _)%(ti_dentry _ _ _ _ _ HT)]. eauto.
Qed.

Lemma rooted_retire r :
  (forall x, ~ child D r x) -> rooted (delete r I) D M (delete r T).
Proof using HT HR.
  intros Hleaf. eapply rooted_edit; [done|..].
  - intros k i' [_ Hk]%lookup_delete_Some. eauto.
  - intros x [Hx|Hx] [i [Hne _]%lookup_delete_Some]; [by left|]. right.
    by rewrite lookup_delete_ne.
  - intros m k Hmk [i [Hne _]%lookup_delete_Some]. left. split; [|done].
    pose proof Hmk as [nm (_ & im & _ & Him & _)%(ti_dentry _ _ _ _ _ HT)].
    exists im. rewrite lookup_delete_ne; [done|]. intros ->. by apply (Hleaf k).
Qed.

(** A move keeps the forest if the destination is not inside the moved subtree. *)
Lemma rooted_move sp sn c dp ip dn :
  D !! (sp, sn) = Some c -> delete (sp, sn) D !! (dp, dn) = None -> I !! dp = Some ip ->
  ~ rtc (child D) c dp ->
  rooted I (<[(dp, dn) := c]> (delete (sp, sn) D)) M T.
Proof using HT HR.
  intros Hc Hfree Hdp Hout. set (D' := <[(dp, dn) := c]> (delete (sp, sn) D)).
  assert (forall q x, child D q x -> x <> c -> child D' q x) as Hold.
  { intros q x [nm Hl] Hne.
    assert (delete (sp, sn) D !! (q, nm) = Some x) as Hl'.
    { apply lookup_delete_Some. split; [congruence|done]. }
    exists nm. unfold D'. rewrite lookup_insert_ne by congruence. done. }
  assert (forall r k, rtc (child D) r k -> ~ rtc (child D) c k -> rtc (child D') r k) as Haway.
  { intros r. refine (rtc_ind_r _ _ _ _); [done|]. intros m k _ Hstep IH Hn.
    assert (rtc (child D') r m). { apply IH. intros Hm. apply Hn. by eapply rtc_r. }
    eapply rtc_r; [done|]. apply Hold; [done|]. intros ->. by apply Hn. }
  assert (forall r k, rtc (child D) r k -> rtc (child D') r k \/ rtc (child D') c k) as Hsplit.
  { intros r. refine (rtc_ind_r _ _ _ _); [by left|]. intros m k _ Hstep IH.
    destruct (decide (k = c)) as [->|Hne]; [by right|]. apply Hold in Hstep; [|done].
    destruct IH; [left|right]; by eapply rtc_r. }
  intros k i Hk. destruct (HR _ _ Hk) as (r & Hr & Hpath).
  destruct (Hsplit _ _ Hpath) as [Hp|Hp]; [by exists r|].
  destruct (HR _ _ Hdp) as (r' & Hr' & Hpath'). exists r'. split; [done|].
  etrans; [by apply Haway|]. eapply rtc_l; [|done].
  exists dn. unfold D'. by rewrite lookup_insert_eq.
Qed.
End rooted_edits.
