(* ===== verification/NamespaceInv.v ===== *)
(** * Namespace commands preserve the namespace invariant

    For each command of [Namespace.v] that changes the tree: what a successful
    run does to the store, and that the tree invariant and rootedness survive. *)

From S2P Require Import Prelude Types Errors Inode Mount Store Namespace Tree.
Local Open Scope Z_scope.

Create HintDb inodes.

Definition tree_of (n : Z) (s : Store) : Prop :=
  tree_inv n (s_inodes s) (s_dentries s) (s_mounts s) (s_detached s).
Definition rooted_of (s : Store) : Prop :=
  rooted (s_inodes s) (s_dentries s) (s_mounts s) (s_detached s).

(** An initialised namespace whose allocator stands at [n]. *)
Record ready (n : Z) (s : Store) : Prop := {
  rd_next : s_next_inode_id s = Some n;
  rd_range : 2 <= n <= u64_max;
  rd_tree : tree_of n s
}.

(** The counters of a file only move forward, and its layout is immutable. *)
Definition file_le (f f' : FileData) : Prop :=
  fd_layout f' = fd_layout f /\ fd_generation f <= fd_generation f' /\
  fd_next_index f <= fd_next_index f' /\ fd_lease_epoch f <= fd_lease_epoch f'.

Definition inode_le (i i' : Inode) : Prop :=
  inode_mount_id i' = inode_mount_id i /\
  match inode_kind i, inode_kind i' with
  | KFile f, KFile f' => file_le f f'
  | KDir, KDir => True
  | _, _ => False
  end.

(** The kind of an inode with all its content. *)
Definition inode_same (i i' : Inode) : Prop := inode_mount_id i' = inode_mount_id i /\ inode_kind i' = inode_kind i.

(** Inodes below the allocator keep their identity; ids from [n] on are new. *)
Definition inodes_by (R : Inode -> Inode -> Prop) (n : Z) (I I' : gmap InodeId Inode) : Prop :=
  forall k i', I' !! k = Some i' -> n <= k \/ exists i, I !! k = Some i /\ R i i'.

(** The effect of a command on an initialised namespace. *)
Definition tree_step_by (R : Inode -> Inode -> Prop) (n : Z) (s s' : Store) : Prop :=
  exists n', n <= n' /\ ready n' s' /\ s_mounts s' = s_mounts s /\
             inodes_by R n (s_inodes s) (s_inodes s').
Notation inodes_same := (inodes_by inode_same).
Notation shape_step := (tree_step_by inode_same).
Notation tree_step := (tree_step_by inode_le).

#[global] Instance inode_same_preorder : PreOrder inode_same.
Proof. split; [done|]. intros a b c [? ?] [? ?]. split; congruence. Qed.

#[global] Instance inode_le_preorder : PreOrder inode_le.
Proof.
  split.
  - intros i. unfold inode_le, file_le. destruct (inode_kind i); split_and!; (done || lia).
  - intros i1 i2 i3. unfold inode_le, file_le. destruct (inode_kind i1), (inode_kind i2), (inode_kind i3);
      intros; destruct_and?; split_and?; (done || congruence || lia).
Qed.

Lemma inode_same_le i i' : inode_same i i' -> inode_le i i'.
Proof. intros [Hm Hk]. unfold inode_le, file_le. rewrite Hk. destruct (inode_kind i); split_and!; (done || lia). Qed.

Lemma shape_step_tree n s s' : shape_step n s s' -> tree_step n s s'.
Proof.
  intros (n' & ? & ? & ? & Hin). exists n'. split_and!; try done. intros k i' Hk.
  destruct (Hin k i' Hk) as [?|(i & ? & ?)]; [by left|right]. eauto using inode_same_le.
Qed.

Section order_lemmas.
Context {R : Inode -> Inode -> Prop} `{!PreOrder R}.
Implicit Types (i : Inode) (I J K : gmap InodeId Inode).

Lemma inodes_le_refl n I : inodes_by R n I I.
Proof. intros k i Hk. right. by exists i. Qed.

Lemma inodes_le_trans n n' I J K :
  n <= n' -> inodes_by R n I J -> inodes_by R n' J K -> inodes_by R n I K.
Proof.
  intros Hn HIJ HJK k i3 Hk. destruct (HJK _ _ Hk) as [?|(i2 & H2 & Hle)]; [left; lia|].
  destruct (HIJ _ _ H2) as [?|(i1 & H1 & Hle')]; [by left|]. right. exists i1.
  split; [done|]. by etrans.
Qed.

Lemma inodes_le_delete n I J k : inodes_by R n I J -> inodes_by R n I (delete k J).
Proof. intros H q i [_ Hq]%lookup_delete_Some. by apply H. Qed.

Lemma inodes_le_insert n I J k i j :
  inodes_by R n I J -> J !! k = Some j -> R j i -> inodes_by R n I (<[k := i]> J).
Proof.
  intros H Hj Hle q iq. rewrite lookup_insert. case_decide; [|by apply H]. intros; simplify_eq.
  destruct (H _ _ Hj) as [?|(j' & Hj' & ?)]; [by left|]. right. exists j'. split; [done|].
  by etrans.
Qed.

Lemma inodes_le_fresh n I J k i : inodes_by R n I J -> n <= k -> inodes_by R n I (<[k := i]> J).
Proof. intros H Hk q iq. rewrite lookup_insert. case_decide; [intros; left; lia|by apply H]. Qed.
End order_lemmas.

Lemma inodes_le_touch n I J p ip now :
  inodes_same n I J -> J !! p = Some ip -> inodes_same n I (<[p := touch_parent ip now]> J).
Proof. intros H Hp. by eapply inodes_le_insert. Qed.

#[export] Hint Resolve inodes_le_refl inodes_le_delete inodes_le_fresh inodes_le_touch : inodes.

Section lemmas.
Implicit Types (s : Store) (i ip : Inode) (rs : RaftState).

Lemma touch_parent_same i now :
  inode_id (touch_parent i now) = inode_id i /\ is_dir (touch_parent i now) = is_dir i /\
  inode_mount_id (touch_parent i now) = inode_mount_id i /\
  (inode_inv i -> inode_inv (touch_parent i now)).
Proof. by destruct i as [? ? [] ?]. Qed.

(** Touching an existing inode. *)
Lemma tree_touch n I D M T p ip now :
  tree_inv n I D M T -> I !! p = Some ip -> tree_inv n (<[p := touch_parent ip now]> I) D M T.
Proof.
  intros HT Hp. destruct (ti_inode _ _ _ _ _ HT _ _ Hp) as (Hid & _ & Hinv & _).
  destruct (touch_parent_same ip now) as (? & ? & ? & ?).
  eapply (tree_update HT); eauto; congruence.
Qed.

Lemma touch_id n I D M T p ip now :
  tree_inv n I D M T -> I !! p = Some ip -> inode_id (touch_parent ip now) = p.
Proof. intros HT Hp. by destruct (ti_inode _ _ _ _ _ HT _ _ Hp) as (Hid & _). Qed.

(** Inserting a child and touching its parent, as [create_batch] does. *)
Lemma tree_create n I D M T p ip nm i now :
  tree_inv n I D M T -> 1 <= n -> I !! p = Some ip -> is_dir ip = true -> D !! (p, nm) = None ->
  valid_name nm -> inode_id i = n -> inode_mount_id i = inode_mount_id ip -> inode_inv i ->
  tree_inv (n + 1) (<[p := touch_parent ip now]> (<[n := i]> I)) (<[(p, nm) := n]> D) M T /\
  (rooted I D M T ->
   rooted (<[p := touch_parent ip now]> (<[n := i]> I)) (<[(p, nm) := n]> D) M T) /\
  inodes_same n I (<[p := touch_parent ip now]> (<[n := i]> I)).
Proof.
  intros HT Hn Hp Hdir Hfree Hnm Hid Hmnt Hinv.
  assert (<[n := i]> I !! p = Some ip) as Hp'.
  { rewrite lookup_insert_ne; [done|]. intros ->. pose proof (alloc_fresh HT). congruence. }
  split_and!.
  - apply tree_touch; [|done]. by eapply (tree_add HT).
  - intros HR. eapply rooted_update; [|done]. by eapply (rooted_add HT HR).
  - apply inodes_le_touch; [|done]. apply inodes_le_fresh; [apply inodes_le_refl|lia].
Qed.

(** Removing a leaf and touching its parent, as [unlink_inode_atomic] does. *)
Lemma tree_unlink n I D M T p ip nm c now :
  tree_inv n I D M T -> I !! p = Some ip -> D !! (p, nm) = Some c -> (forall x, ~ child D c x) ->
  tree_inv n (<[p := touch_parent ip now]> (delete c I)) (delete (p, nm) D) M T /\
  (rooted I D M T -> rooted (<[p := touch_parent ip now]> (delete c I)) (delete (p, nm) D) M T) /\
  inodes_same n I (<[p := touch_parent ip now]> (delete c I)).
Proof.
  intros HT Hp Hc Hleaf. assert (delete c I !! p = Some ip) as Hp'.
  { rewrite lookup_delete_ne; [done|]. intros ->. apply (Hleaf p). by exists nm. }
  split_and!.
  - apply tree_touch; [|done]. by apply (tree_remove HT).
  - intros HR. eapply rooted_update; [|done]. by apply (rooted_remove HT HR).
  - auto with inodes typeclass_instances.
Qed.

Lemma file_has_no_children n s c i :
  tree_of n s -> s_inodes s !! c = Some i -> is_dir i = false -> forall x, ~ child (s_dentries s) c x.
Proof. intros HT Hc Hf x Hx. rewrite (parent_is_dir HT _ _ _ Hx Hc) in Hf. done. Qed.

Lemma empty_has_no_children s c :
  is_directory_empty s c = Ok true -> forall x, ~ child (s_dentries s) c x.
Proof. intros H x [nm Hx]. rewrite (proj1 (is_directory_empty_true s c) H) in Hx. done. Qed.

Lemma validate_components_Ok cs : validate_components cs = Ok tt -> Forall valid_name cs.
Proof.
  induction cs as [|c cs IH]; simpl; [by constructor|]. intros H. inv_ok. bool_prop.
  constructor; [|by apply IH]. split_and!; [done..|lia].
Qed.

Lemma validate_relative_components_Ok cs :
  validate_relative_components cs = Ok tt -> cs <> [] /\ Forall valid_name cs.
Proof.
  unfold validate_relative_components. intros H. inv_ok. bool_prop.
  split; [done|by apply validate_components_Ok].
Qed.
End lemmas.

(** ** Bootstrap *)

Lemma bootstrap_ready s group now rs s' e :
  s_inodes s = ∅ -> s_dentries s = ∅ -> s_mounts s = ∅ -> s_detached s = ∅ ->
  s_next_inode_id s = None ->
  apply_bootstrap_namespace s group now rs = Ok (s', e) ->
  ready 2 s' /\ rooted_of s' /\ s_mounts s' = {[1 := root_mount_entry group]} /\
    e = root_mount_entry group.
Proof.
  intros HI HD HM HT Hn. unfold apply_bootstrap_namespace. intros H. inv_ok.
  destruct x; [| |done].
  2: { revert H. unfold bootstrap_namespace_state, get_inode. rewrite HI, lookup_empty. simpl.
       intros H. inv_ok. by destruct (negb _). }
  simplify_eq/=. destruct s; simpl in *; subst.
  assert (tree_inv 2 {[1 := new_dir 1 (attrs_initialize attrs_new now) 1]} ∅
            {[1 := root_mount_entry group]} ∅) as Htree.
  { split.
    - intros k i [<- <-]%lookup_singleton_Some. simpl. split_and!; [done|lia|lia|done|].
      rewrite lookup_singleton_eq. eauto.
    - intros ???. by rewrite lookup_empty.
    - intros ?????. by rewrite lookup_empty.
    - intros m e [<- <-]%lookup_singleton_Some. simpl. split_and!; [done|done| |].
      + eexists. by rewrite lookup_singleton_eq.
      + intros p [nm Hp]. by rewrite lookup_empty in Hp.
    - intros ??. by rewrite lookup_empty.
    - intros k i [<- <-]%lookup_singleton_Some. left. exists 1, (root_mount_entry group).
      by rewrite lookup_singleton_eq. }
  assert (rooted {[1 := new_dir 1 (attrs_initialize attrs_new now) 1]} ∅
            {[1 := root_mount_entry group]} ∅) as Hroot.
  { intros k i [<- <-]%lookup_singleton_Some. exists 1. split; [|done].
    left. exists 1, (root_mount_entry group). by rewrite lookup_singleton_eq. }
  by split_and!.
Qed.

(** ** Directories *)

Lemma apply_mkdir_step n s parent name attrs now rs s' r :
  ready n s -> valid_name name ->
  apply_mkdir s parent name attrs now rs = Ok (s', r) ->
  shape_step n s s' /\ (rooted_of s -> rooted_of s').
Proof.
  intros [Hnext Hn HT] Hname. unfold apply_mkdir, create_dir_atomic. intros H.
  unbind H as ip Hp. unbind H as [] Hdir. unbind H as [] Hfree. unbind H as al Hal.
  unbind H as s1 Hs1. unbind Hs1 as [] Hv. injection H as <- <-. injection Hs1 as <-.
  bool_prop. apply eq_None_not_Some in Hfree. unfold get_inode, get_dentry in *.
  apply prepare_inode_allocation_Ok in Hal as (Hnx & _ & Hal & Hmax).
  rewrite Hnext in Hnx. injection Hnx as ->.
  pose proof (tree_create _ _ _ _ _ parent ip name
      (new_dir (al_inode_id al) (attrs_initialize attrs now) (inode_mount_id ip)) now HT
      ltac:(lia) Hp Hdir Hfree Hname eq_refl eq_refl Logic.I) as (HT' & HR' & Hle).
  pose proof (touch_id _ _ _ _ _ _ _ now HT Hp) as Htid.
  destruct s; unfold tree_step_by, rooted_of, tree_of in *; store_eval. rewrite Htid, Hal.
  split; [|done]. exists (al_inode_id al + 1). split; [lia|]. split; [|done].
  split; simpl; [done|lia|done].
Qed.

Lemma write_batch_app s b1 b2 : write_batch s (b1 ++ b2) = write_batch (write_batch s b1) b2.
Proof. apply foldl_app. Qed.

(** The store after the insertions planned so far by a recursive mkdir. *)
Definition planned (s : Store) (entries : list RecursiveMkdirEntry) : Store :=
  write_batch s (mjoin (mkdir_entry_batch <$> entries)).

Lemma planned_snoc s entries e :
  planned s (entries ++ [e]) = write_batch (planned s entries) (mkdir_entry_batch e).
Proof. unfold planned. rewrite fmap_app, join_app, write_batch_app. done. Qed.

Record mkdir_inv (n : Z) (s : Store) (next : Z) (entries : list RecursiveMkdirEntry) (parent : Inode)
  : Prop := {
  mi_next : n <= next <= u64_max;
  mi_tree : tree_of next (planned s entries);
  mi_rooted : rooted_of s -> rooted_of (planned s entries);
  mi_parent : s_inodes (planned s entries) !! inode_id parent = Some parent;
  mi_dir : is_dir parent = true;
  mi_mounts : s_mounts (planned s entries) = s_mounts s;
  mi_le : inodes_same n (s_inodes s) (s_inodes (planned s entries));
  mi_fresh : entries = [] \/ forall nm,
    s_dentries s !! (inode_id parent, nm) = None /\
    s_dentries (planned s entries) !! (inode_id parent, nm) = None
}.

Lemma mkdir_inv_create n s next entries parent name attrs now :
  2 <= n -> tree_of n s -> mkdir_inv n s next entries parent -> valid_name name ->
  s_dentries s !! (inode_id parent, name) = None -> next + 1 <= u64_max ->
  let c := new_dir next (attrs_initialize attrs now) (inode_mount_id parent) in
  mkdir_inv n s (next + 1)
    (entries ++ [mk_RecursiveMkdirEntry (inode_id parent) name c (touch_parent parent now)]) c.
Proof.
  intros Hn Hs [Hr HT HR Hp Hd HM Hle Hf] Hname Hnone Hmax c.
  assert (s_dentries (planned s entries) !! (inode_id parent, name) = None) as Hfree.
  { destruct Hf as [->|Hf]; [done|by apply Hf]. }
  pose proof (tree_create _ _ _ _ _ (inode_id parent) parent name c now HT ltac:(lia) Hp Hd Hfree
                Hname eq_refl eq_refl Logic.I) as (HT' & HR' & Hle').
  pose proof (alloc_fresh HT) as Hfresh.
  assert (inode_id parent <> next) as Hne by congruence.
  assert (forall nm, s_dentries s !! (next, nm) = None) as Hs0.
  { intros nm. destruct (s_dentries s !! (next, nm)) eqn:Hl; [|done].
    apply (ti_dentry _ _ _ _ _ Hs) in Hl as (_ & iq & _ & Hq & _).
    apply (ti_inode _ _ _ _ _ Hs) in Hq. lia. }
  assert (forall nm, s_dentries (planned s entries) !! (next, nm) = None) as Hs1.
  { intros nm. destruct (s_dentries _ !! (next, nm)) eqn:Hl; [|done].
    apply (ti_dentry _ _ _ _ _ HT) in Hl as (_ & iq & _ & Hq & _). congruence. }
  split; try rewrite planned_snoc; unfold tree_of, rooted_of in *;
    destruct (planned s entries) as [I D M W re me nx r ri rx rc T rst]; simpl in *.
  - lia.
  - done.
  - auto.
  - rewrite lookup_insert_ne by done. by rewrite lookup_insert_eq.
  - done.
  - done.
  - eapply inodes_le_trans; [|done|done]. lia.
  - right. intros nm. split; [done|]. rewrite lookup_insert_ne by congruence. done.
Qed.

Lemma mkdir_loop_inv n s attrs now comps parent next entries last next' entries' :
  2 <= n -> tree_of n s -> mkdir_inv n s next entries parent -> Forall valid_name comps ->
  mkdir_loop s attrs now parent next entries comps = Ok (last, next', entries') ->
  mkdir_inv n s next' entries' last.
Proof.
  intros Hn Hs. revert parent next entries.
  induction comps as [|name comps IH]; intros parent next entries Hinv Hnames H; simpl in H.
  { by simplify_eq. }
  apply Forall_cons in Hnames as [Hname Hnames]. unfold get_dentry, get_inode in H.
  destruct (s_dentries s !! (inode_id parent, name)) as [cid|] eqn:Hd.
  - unbind H as ch Hc. unbind H as [] Hdir. bool_prop.
    eapply IH; [|done|done]. destruct Hinv as [Hr HT HR Hp Hpd HM Hle [->|Hf]];
      [|by destruct (Hf name); congruence].
    destruct (ti_inode _ _ _ _ _ Hs _ _ Hc) as (Hid & _).
    split; [done..|by rewrite Hid|done|done|done|by left].
  - unbind H as nx Hnx. apply checked_add64_Some in Hnx as [-> Hmax].
    eapply IH; [|done|done]. by apply mkdir_inv_create.
Qed.

Lemma apply_create_directory_step n s root comps attrs now rs s' r :
  ready n s -> Forall valid_name comps ->
  apply_create_directory s root comps attrs now rs = Ok (s', r) ->
  shape_step n s s' /\ (rooted_of s -> rooted_of s').
Proof.
  intros [Hnext Hn HT] Hnames. unfold apply_create_directory. intros H.
  unbind H as [] Hne. unbind H as ip Hp. unbind H as [] Hdir. unbind H as al Hal.
  unbind H as [[last next'] entries] Hloop. unbind H as s1 Hs1. injection H as <- _. bool_prop.
  apply prepare_inode_allocation_Ok in Hal as (Hnx & _ & _ & _). rewrite Hnext in Hnx. injection Hnx as ->.
  assert (mkdir_inv (al_inode_id al) s (al_inode_id al) [] ip) as Hinit.
  { destruct (ti_inode _ _ _ _ _ HT _ _ Hp) as (Hid & _).
    split; [lia|done|done|by rewrite Hid|done|done|apply inodes_le_refl|by left]. }
  eapply (mkdir_loop_inv (al_inode_id al)) in Hloop as [Hr HT' HR' _ _ HM Hle _]; [|lia|done..].
  case_bool_decide.
  - unfold create_directories_atomic in Hs1. unbind Hs1 as [] Hv. injection Hs1 as <-.
    unfold commit_authority_batch. rewrite !write_batch_app. fold (planned s entries).
    unfold tree_step_by, tree_of, rooted_of in *. destruct (planned s entries); simpl in *.
    split; [|done]. exists next'. split; [lia|]. split; [|done]. split; simpl; [done|lia|done].
  - injection Hs1 as <-. destruct s; unfold tree_step_by, tree_of, rooted_of in *; store_eval.
    split; [|done]. exists (al_inode_id al). split_and!; [done|by split|done|by auto with inodes typeclass_instances].
Qed.

(** ** CreateFile *)

(** The operations that only touch the replay tables. *)
Definition is_replay_op (op : WriteOp) : bool :=
  match op with
  | PutReplay _ | DeleteReplay _ | PutReplayInode _ _ | DeleteReplayInode _
  | PutReplayExpiry _ _ | DeleteReplayExpiry _ _ | PutReplayCount _ => true
  | _ => false
  end.

(** Two stores with the same namespace. *)
Definition same_tree (s s' : Store) : Prop :=
  s_inodes s' = s_inodes s /\ s_dentries s' = s_dentries s /\ s_mounts s' = s_mounts s /\
  s_detached s' = s_detached s /\ s_next_inode_id s' = s_next_inode_id s.

Lemma replay_ops_tree s ops : Forall (fun op => is_replay_op op = true) ops -> same_tree s (write_batch s ops).
Proof.
  intros Hops. revert s. induction Hops as [|op ops Hop _ IH]; intros s; [done|].
  unfold same_tree, write_batch in *. simpl.
  destruct (IH (write_op s op)) as (-> & -> & -> & -> & ->). by destruct s, op.
Qed.

Lemma batch_put_create_file_replay_ops s r now ops :
  batch_put_create_file_replay s r now = Ok ops -> Forall (fun op => is_replay_op op = true) ops.
Proof.
  unfold batch_put_create_file_replay. intros H.
  unbind H as [] H1. unbind H as [] H2. unbind H as [] H3. unbind H as [ev cnt] H4. injection H as <-.
  apply Forall_app. split; [|by repeat constructor].
  case_bool_decide; [|by simplify_eq]. unbind H4 as ev' H5. simplify_eq.
  unfold evict_expired in H5. inv_ok. by repeat constructor.
Qed.

Lemma walk_create_parent_Ok s mount p comps q :
  walk_create_parent s mount p comps = Ok q ->
  s_inodes s !! inode_id p = Some p -> is_dir p = true -> inode_mount_id p = mount ->
  s_inodes s !! inode_id q = Some q /\ is_dir q = true /\ inode_mount_id q = mount /\
  lookup_path (s_dentries s) (inode_id p) comps = Some (inode_id q).
Proof.
  revert p. induction comps as [|c comps IH]; intros p H Hp Hd Hm; simpl in H; [by simplify_eq|].
  unbind H as cid Hc. unbind H as ch Hch. unbind H as [] Hok. unbind H as [] Hdir. bool_prop.
  unfold get_dentry, get_inode in *. simplify_eq. simpl. rewrite Hc. simpl. by apply IH.
Qed.

Lemma resolve_create_parent_Ok s mount epoch root comps pid name parent :
  resolve_create_parent s mount epoch root comps = Ok (pid, name, parent) ->
  pid = inode_id parent /\ s_inodes s !! pid = Some parent /\ is_dir parent = true /\
  inode_mount_id parent = mount /\ Forall valid_name comps /\ comps = removelast comps ++ [name] /\
  lookup_path (s_dentries s) root (removelast comps) = Some pid.
Proof.
  unfold resolve_create_parent. intros H.
  unbind H as [] Hv. unbind H as e He. unbind H as [] Hpre. unbind H as ir Hir. unbind H as [] Hroot.
  unbind H as nm Hnm. unbind H as q Hq. injection H as <- -> <-. bool_prop.
  apply validate_relative_components_Ok in Hv as [Hne Hv].
  apply walk_create_parent_Ok in Hq as (? & ? & ? & Hpath);
    [|unfold get_inode in *; congruence|done|done].
  split_and!; [done..| |congruence].
  destruct comps as [|x l _] using rev_ind; [done|].
  rewrite last_snoc in Hnm. injection Hnm as ->. by rewrite removelast_last.
Qed.

Lemma initial_file_inv id attrs mount layout :
  layout_ok layout -> inode_inv (initial_file id attrs mount layout).
Proof.
  intros Hl. unfold inode_inv, file_inv. simpl.
  split_and!; try (unfold u64_max, u32_max; lia). destruct Hl as [Hf [Hpos Hmax]].
  split; simpl; [done| |done|constructor|constructor]. by rewrite ceil_div_0.
Qed.

(** What a CreateFile that is not a replay commits. *)
Lemma apply_create_fresh s a now rs s' r :
  apply_create s a now rs = Ok (s', r) -> s_replays s !! ca_operation_id a = None ->
  exists pid name parent n ops,
    let inode := initial_file n (attrs_initialize (ca_attrs a) now) (inode_mount_id parent) (ca_layout a) in
    resolve_create_parent s (ca_mount_id a) (ca_expected_mount_epoch a) (ca_mount_root_inode_id a)
      (ca_relative_components a) = Ok (pid, name, parent) /\
    layout_validate (ca_layout a) = Ok tt /\ now <= ca_request_deadline_ms a /\
    now < ca_session_expires_at_ms a /\
    s_dentries s !! (pid, name) = None /\ s_next_inode_id s = Some n /\ 2 <= n /\ n + 1 <= u64_max /\
    r = mk_ReplayRecord (ca_operation_id a) (ca_request_deadline_ms a) (ca_normalized_path a)
          pid name n (ca_mount_id a) (ca_expected_mount_epoch a) (ca_mount_root_inode_id a)
          (ca_relative_components a) 1 (ca_layout a) 0 (ca_session_expires_at_ms a) /\
    batch_put_create_file_replay s r now = Ok ops /\
    s' = write_batch s (create_batch pid name inode (touch_parent parent now)
                        ++ [PutNextInodeId (n + 1)] ++ ops ++ [PutRaftState rs]).
Proof.
  intros H Hnew. unfold apply_create in H. unbind H as found Hf.
  unfold get_create_file_replay in Hf. rewrite Hnew in Hf. injection Hf as <-.
  unbind H as [] Hdl. unbind H as [] Hse. unbind H as [] Hlay. unbind H as [[pid name] parent] Hp.
  unbind H as [] Hfree. unbind H as al Hal. unbind H as s1 Hs1. injection H as <- <-.
  unfold create_file_atomic in Hs1. unbind Hs1 as [] Hv. unbind Hs1 as ops Hops. injection Hs1 as <-.
  bool_prop. apply eq_None_not_Some in Hfree.
  apply prepare_inode_allocation_Ok in Hal as (Hnx & Hge & Hal & Hmax).
  exists pid, name, parent, (al_inode_id al), ops. split_and!; try done.
  by rewrite Hal.
Qed.

Lemma apply_create_step n s a now rs s' r :
  ready n s -> 0 <= fl_block_size (ca_layout a) ->
  apply_create s a now rs = Ok (s', r) ->
  shape_step n s s' /\ (rooted_of s -> rooted_of s').
Proof.
  intros [Hnext Hn HT] Hbs H. destruct (s_replays s !! ca_operation_id a) as [r0|] eqn:Hrep.
  - unfold apply_create in H. unbind H as found Hf.
    unfold get_create_file_replay in Hf. rewrite Hrep in Hf. unbind Hf as [] Hop. injection Hf as <-.
    unbind H as [] Hsame. unbind H as [] Hval. injection H as <- <-.
    destruct s; unfold tree_step_by, tree_of, rooted_of in *; store_eval. split; [|done].
    exists n. split_and!; [done|by split|done|by auto with inodes typeclass_instances].
  - apply apply_create_fresh in H as (pid & name & parent & n' & ops & Hres & Hlay & _ & _ & Hfree & Hnx & Hge & Hmax & Hr & Hops & ->);
      [|done].
    rewrite Hnext in Hnx. injection Hnx as <-.
    apply layout_validate_Ok in Hlay; [|done].
    apply resolve_create_parent_Ok in Hres as (-> & Hp & Hdir & _ & Hnames & Hcomps & _).
    assert (valid_name name) as Hname.
    { rewrite Hcomps in Hnames. apply Forall_app in Hnames as [_ Hx]. by rewrite Forall_singleton in Hx. }
    apply batch_put_create_file_replay_ops in Hops.
    pose proof (tree_create _ _ _ _ _ (inode_id parent) parent name
      (initial_file n (attrs_initialize (ca_attrs a) now) (inode_mount_id parent) (ca_layout a)) now HT
      ltac:(lia) Hp Hdir Hfree Hname eq_refl eq_refl (initial_file_inv _ _ _ _ Hlay)) as (HT' & HR' & Hle).
    rewrite app_assoc, write_batch_app, write_batch_app.
    destruct (replay_ops_tree (write_batch s (create_batch (inode_id parent) name
      (initial_file n (attrs_initialize (ca_attrs a) now) (inode_mount_id parent) (ca_layout a))
      (touch_parent parent now) ++ [PutNextInodeId (n + 1)])) ops Hops) as (E1 & E2 & E3 & E4 & E5).
    destruct (write_batch (write_batch s _) ops) as [I D M W re me nx rp ri rx rc T rst].
    destruct s; unfold tree_step_by, tree_of, rooted_of in *; store_eval; subst.
    split; [|done]. exists (n + 1). split; [lia|]. split; [|done]. split; simpl; [done|lia|done].
Qed.

(** ** Delete *)

Lemma ready_unlink n s p ip nm c now rs :
  ready n s -> s_inodes s !! p = Some ip -> s_dentries s !! (p, nm) = Some c ->
  (forall x, ~ child (s_dentries s) c x) ->
  let s' := unlink_inode_atomic s p nm c (touch_parent ip now) rs in
  shape_step n s s' /\ (rooted_of s -> rooted_of s').
Proof.
  intros [Hnext Hn HT] Hp Hc Hleaf.
  destruct (tree_unlink _ _ _ _ _ p ip nm c now HT Hp Hc Hleaf) as (HT' & HR' & Hle).
  pose proof (touch_id _ _ _ _ _ _ _ now HT Hp) as Htid.
  destruct s; unfold tree_step_by, tree_of, rooted_of in *; store_eval. rewrite Htid.
  split; [|done]. exists n. split_and!; [done|by split|done|by auto with inodes typeclass_instances].
Qed.

Lemma apply_unlink_Ok n s p nm now rs s' :
  ready n s -> apply_unlink s p nm now rs = Ok s' ->
  exists c ip i, s_dentries s !! (p, nm) = Some c /\ s_inodes s !! p = Some ip /\
    s_inodes s !! c = Some i /\ is_dir i = false /\
    s' = unlink_inode_atomic s p nm c (touch_parent ip now) rs /\
    (forall x, ~ child (s_dentries s) c x).
Proof.
  intros Hs. unfold apply_unlink. intros H. unbind H as c Hc. unbind H as i Hi. unbind H as [] Hd.
  unbind H as ip Hp. destruct (inode_kind i); [|done].
  unbind H as corrupt Hcor. unbind H as [] Hok. injection H as <-.
  exists c, ip, i. split_and!; try done. eapply file_has_no_children; [apply Hs|done..].
Qed.

Lemma apply_delete_empty_dir_Ok s p nm now rs s' :
  apply_delete_empty_dir s p nm now rs = Ok s' ->
  exists c ip i, s_dentries s !! (p, nm) = Some c /\ s_inodes s !! p = Some ip /\
    s_inodes s !! c = Some i /\ is_dir i = true /\
    s' = unlink_inode_atomic s p nm c (touch_parent ip now) rs /\
    (forall x, ~ child (s_dentries s) c x).
Proof.
  unfold apply_delete_empty_dir. intros H. unbind H as c Hc. unbind H as i Hi. unbind H as [] Hd.
  unbind H as empty He. unbind H as [] Hok. unbind H as ip Hp. injection H as <-. bool_prop. subst.
  exists c, ip, i. split_and!; try done. by apply empty_has_no_children.
Qed.

Lemma apply_detach_directory_Ok s p nm root now rs s' :
  apply_detach_directory s p nm root now rs = Ok s' ->
  exists ip i, s_dentries s !! (p, nm) = Some root /\ s_inodes s !! p = Some ip /\
    s_inodes s !! root = Some i /\ is_dir i = true /\ s_detached s !! root = None /\
    s' = detach_directory_atomic s p nm root (touch_parent ip now)
           (mk_DetachedRoot (inode_mount_id i) now) rs.
Proof.
  unfold apply_detach_directory. intros H. unbind H as c Hc. unbind H as [] Hsame. unbind H as i Hi.
  unbind H as [] Hd. unbind H as corrupt Hcor. unbind H as [] Hok. unbind H as mk Hmk. unbind H as [] Hnone.
  unbind H as ip Hp. unbind H as [] Hpd. unbind H as [] Hm. injection H as <-. bool_prop. subst.
  exists ip, i. split_and!; try done. unfold get_detached_root in Hmk.
  destruct (s_detached s !! root); [|done]. by unbind Hmk as [] Hz.
Qed.

Lemma ready_detach n s p ip nm c ic now t rs :
  ready n s -> s_inodes s !! p = Some ip -> s_dentries s !! (p, nm) = Some c ->
  s_inodes s !! c = Some ic -> is_dir ic = true ->
  let s' := detach_directory_atomic s p nm c (touch_parent ip now)
              (mk_DetachedRoot (inode_mount_id ic) t) rs in
  shape_step n s s' /\ (rooted_of s -> rooted_of s').
Proof.
  intros [Hnext Hn HT] Hp Hc Hic Hdir.
  pose proof (tree_detach HT p nm c ic (mk_DetachedRoot (inode_mount_id ic) t) Hc Hic Hdir eq_refl) as HT'.
  pose proof (tree_touch _ _ _ _ _ p ip now HT' Hp) as HT''.
  pose proof (touch_id _ _ _ _ _ _ _ now HT Hp) as Htid.
  destruct s; unfold tree_step_by, tree_of, rooted_of in *; store_eval. rewrite Htid. split.
  - exists n. split_and!; [done|by split|done|by auto with inodes typeclass_instances].
  - intros HR. eapply rooted_update; [|done]. by apply (rooted_detach HT HR).
Qed.

(** The walk of Delete ends at the parent and the entry that the path names. *)
Lemma walk_delete_Ok n s ms mount p comps pid name i :
  tree_of n s -> walk_delete s ms mount p comps = Ok (pid, name, i) ->
  s_inodes s !! inode_id p = Some p ->
  comps = removelast comps ++ [name] /\
  lookup_path (s_dentries s) (inode_id p) (removelast comps) = Some pid /\
  s_dentries s !! (pid, name) = Some (inode_id i) /\ s_inodes s !! inode_id i = Some i /\
  inode_mount_id i = mount /\ (forall e, e ∈ ms -> root_inode_id e <> inode_id i).
Proof.
  intros HT. revert p. induction comps as [|c comps IH]; intros p H Hp; simpl in H; [done|].
  unbind H as cid Hc. unbind H as ch Hch. unbind H as [] Hid. unbind H as [] Hm. bool_prop. subst cid.
  unfold get_inode, get_dentry in *. destruct comps as [|c' comps].
  - unbind H as [] Hroot. injection H as <- <- <-. split_and!; try done.
    intros e He Heq. assert (existsb (fun e => bool_decide (root_inode_id e = inode_id ch)) ms = true);
      [|congruence]. apply existsb_exists. exists e. split; [by apply list_elem_of_In|].
    by apply bool_decide_eq_true.
  - unbind H as [] Hd. apply IH in H as (Hsnoc & Hpath & ? & ? & ? & ?); [|done].
    change (removelast (c :: c' :: comps)) with (c :: removelast (c' :: comps)).
    split_and!; try done.
    + rewrite Hsnoc at 1. done.
    + cbn [lookup_path]. by rewrite Hc.
Qed.

Lemma apply_delete_step n s a now rs s' :
  ready n s -> apply_delete s a now rs = Ok s' ->
  shape_step n s s' /\ (rooted_of s -> rooted_of s').
Proof.
  intros Hs H. unfold apply_delete in H. unbind H as [[pid name] i] Hres. unbind H as [] Hexp.
  destruct (is_dir i) eqn:Hdir; unbind H as [] Hpre.
  - destruct (da_recursive a).
    + apply apply_detach_directory_Ok in H as (ip & i' & Hc & Hp & Hi & Hd & _ & ->).
      by eapply ready_detach.
    + apply apply_delete_empty_dir_Ok in H as (c & ip & i' & Hc & Hp & _ & _ & -> & Hleaf).
      by eapply ready_unlink.
  - eapply apply_unlink_Ok in H as (c & ip & i' & Hc & Hp & _ & _ & -> & Hleaf); [|done].
    by eapply ready_unlink.
Qed.

(** ** Rename *)

(** What the request path guarantees about a Rename command and Raft apply does
    not check again: the new name is a valid component, and the destination
    parent, while it exists, is a directory of the source's mount. *)
Definition rename_admissible (s : Store) (a : RenameArgs) : Prop :=
  valid_name (ra_dst a) /\
  forall isp idp, s_inodes s !! ra_src_parent a = Some isp -> s_inodes s !! ra_dst_parent a = Some idp ->
    is_dir idp = true /\ inode_mount_id idp = inode_mount_id isp.

(** The parents as [prepare_parents] leaves them. *)
Definition touch_parents (I : gmap InodeId Inode) (sp dp : InodeId) (isp idp : Inode) (now : Z)
  : gmap InodeId Inode :=
  if bool_decide (sp = dp) then <[sp := touch_parent isp now]> I
  else <[dp := touch_parent idp now]> (<[sp := touch_parent isp now]> I).

Lemma tree_touch_parents n I D M T sp dp isp idp now :
  tree_inv n I D M T -> I !! sp = Some isp -> I !! dp = Some idp ->
  tree_inv n (touch_parents I sp dp isp idp now) D M T /\
  (rooted I D M T -> rooted (touch_parents I sp dp isp idp now) D M T).
Proof.
  intros HT Hs Hd. pose proof (tree_touch _ _ _ _ _ sp isp now HT Hs) as HT1.
  unfold touch_parents. case_bool_decide.
  - split; [done|]. intros HR. by eapply rooted_update.
  - assert (<[sp := touch_parent isp now]> I !! dp = Some idp) as Hd' by by rewrite lookup_insert_ne.
    split; [by apply tree_touch|]. intros HR. do 2 (eapply rooted_update; [|done]). done.
Qed.

Lemma inodes_le_touch_parents n I J sp dp isp idp now :
  inodes_same n I J -> J !! sp = Some isp -> J !! dp = Some idp ->
  inodes_same n I (touch_parents J sp dp isp idp now).
Proof.
  intros H Hs Hd. unfold touch_parents. case_bool_decide; [by apply inodes_le_touch|].
  apply inodes_le_touch; [by apply inodes_le_touch|]. by rewrite lookup_insert_ne.
Qed.

Lemma prepare_parents_Ok s a now parents :
  prepare_parents s a now = Ok parents ->
  exists isp idp, s_inodes s !! ra_src_parent a = Some isp /\ s_inodes s !! ra_dst_parent a = Some idp /\
    parents = (Some (touch_parent isp now),
               if bool_decide (ra_src_parent a = ra_dst_parent a) then None
               else Some (touch_parent idp now)).
Proof.
  unfold prepare_parents. intros H. destruct (decide (ra_src_parent a = ra_dst_parent a)) as [E|E].
  - rewrite bool_decide_eq_false_2 in H by (by intros ?). unbind H as isp Hs. injection H as <-.
    exists isp, isp. rewrite bool_decide_eq_true_2 by done. rewrite <-E. done.
  - rewrite bool_decide_eq_true_2 in H by done. unbind H as isp Hs. unbind H as idp Hd. injection H as <-.
    exists isp, idp. by rewrite bool_decide_eq_false_2.
Qed.

(** The overwritten target is a file or an empty directory. *)
Lemma prepare_overwrite_Ok n s a src t x :
  tree_of n s -> prepare_overwrite s a src t = Ok x ->
  x = t /\ exists it, s_inodes s !! t = Some it /\ is_dir it = is_dir src /\
    inode_lease_epoch it = ra_expected_dst_lease_epoch a /\ forall y, ~ child (s_dentries s) t y.
Proof.
  intros HT H. unfold prepare_overwrite in H. unbind H as it Hit. unbind H as [] Hlease.
  unbind H as [] Hkind. bool_prop.
  assert (is_dir it = is_dir src /\ forall y, ~ child (s_dentries s) t y) as [Hd Hleaf].
  { destruct (is_dir src) eqn:Hds.
    - unbind Hkind as [] Hdt. unbind Hkind as empty He. apply reject_if_Ok in Hkind. bool_prop. subst.
      split; [done|]. by apply empty_has_no_children.
    - apply reject_if_Ok in Hkind. split; [done|]. by eapply file_has_no_children. }
  unfold prepare_rename_overwrite_target_cleanup in H.
  assert (x = t) as ->. { destruct (inode_kind it); inv_ok; done. }
  split; [done|]. by exists it.
Qed.

(** The three shapes of an accepted rename. *)
Lemma prepare_rename_Ok n s a now u :
  tree_of n s -> prepare_rename s a now = Ok u ->
  let src := ra_expected_src a in
  s_dentries s !! (ra_src_parent a, ra_src a) = Some src /\
  (exists i, s_inodes s !! src = Some i) /\
  s_dentries s !! (ra_dst_parent a, ra_dst a) = ra_expected_dst a /\
  (ra_expected_dst a = Some src /\ u = rename_update a src None (None, None) \/
   exists parents, prepare_parents s a now = Ok parents /\
     (ra_expected_dst a = None /\ u = rename_update a src None parents \/
      exists t, ra_expected_dst a = Some t /\ t <> src /\ u = rename_update a src (Some t) parents /\
        forall y, ~ child (s_dentries s) t y)).
Proof.
  intros HT H. unfold prepare_rename in H. unbind H as src Hsrc. unbind H as [] Hexp.
  unbind H as [] Hdst. unbind H as i Hi. bool_prop. simpl in Hdst. subst.
  unfold get_dentry, get_inode in *. simpl. rewrite <-Hdst.
  split_and!; [done|by exists i|done|].
  destruct (s_dentries s !! (ra_dst_parent a, ra_dst a)) as [t|] eqn:Ht.
  - unbind H as [] Hfl. case_bool_decide as Heq.
    + left. injection H as <-. by rewrite Heq.
    + right. unbind H as t' Ht'. unbind H as parents Hp. injection H as <-.
      eapply prepare_overwrite_Ok in Ht' as (-> & it & _ & _ & _ & Hleaf); [|done].
      exists parents. split; [done|]. right. exists t. by split_and!.
  - right. unbind H as parents Hp. injection H as <-. exists parents. split; [done|]. by left.
Qed.

(** Moving a dentry and touching both parents. *)
Lemma tree_rename n I D M T sp sn c dp dn isp idp now :
  tree_inv n I D M T -> D !! (sp, sn) = Some c -> delete (sp, sn) D !! (dp, dn) = None ->
  I !! sp = Some isp -> I !! dp = Some idp -> is_dir idp = true ->
  inode_mount_id idp = inode_mount_id isp -> valid_name dn ->
  let I' := touch_parents I sp dp isp idp now in
  let D' := <[(dp, dn) := c]> (delete (sp, sn) D) in
  tree_inv n I' D' M T /\
  (rooted I D M T -> ~ rtc (child D) c dp -> rooted I' D' M T).
Proof.
  intros HT Hc Hfree Hs Hd Hdir Hmnt Hname I' D'.
  destruct (ti_dentry _ _ _ _ _ HT _ _ _ Hc) as (_ & isp' & ic & Hsp & _ & Hic & Hm).
  assert (isp' = isp) as -> by congruence.
  assert (tree_inv n I D' M T) as HT1.
  { eapply (tree_move HT); [done|done|done|done|done|done|congruence]. }
  destruct (tree_touch_parents n I D' M T sp dp isp idp now HT1 Hs Hd) as [? HR].
  split; [done|]. intros HR0 Hout. apply HR. by eapply (rooted_move HT HR0).
Qed.

Definition put_opt (i : option Inode) (I : gmap InodeId Inode) : gmap InodeId Inode :=
  match i with Some i => <[inode_id i := i]> I | None => I end.

Lemma rename_atomic_fields s a src t parents rs :
  let s' := rename_atomic s (rename_update a src t parents) rs in
  s_mounts s' = s_mounts s /\ s_detached s' = s_detached s /\
  s_next_inode_id s' = s_next_inode_id s /\
  s_dentries s' = <[(ra_dst_parent a, ra_dst a) := src]> (delete (ra_src_parent a, ra_src a)
    (match t with Some _ => delete (ra_dst_parent a, ra_dst a) (s_dentries s) | None => s_dentries s end)) /\
  s_inodes s' = put_opt parents.2 (put_opt parents.1
    (match t with Some t => delete t (s_inodes s) | None => s_inodes s end)).
Proof. by destruct s, t, parents as [[] []]. Qed.

Lemma touch_parents_put n s a isp idp now J :
  tree_of n s -> s_inodes s !! ra_src_parent a = Some isp -> s_inodes s !! ra_dst_parent a = Some idp ->
  put_opt (if bool_decide (ra_src_parent a = ra_dst_parent a) then None
           else Some (touch_parent idp now)) (put_opt (Some (touch_parent isp now)) J)
  = touch_parents J (ra_src_parent a) (ra_dst_parent a) isp idp now.
Proof.
  intros HT Hs Hd. pose proof (touch_id _ _ _ _ _ _ _ now HT Hs) as E1.
  pose proof (touch_id _ _ _ _ _ _ _ now HT Hd) as E2.
  unfold touch_parents, put_opt. rewrite E1. case_bool_decide; [done|by rewrite E2].
Qed.

(** The store an accepted rename leaves behind. *)
Lemma apply_rename_Ok n s a now rs s' :
  ready n s -> apply_rename s a now rs = Ok s' ->
  let '(sp, sn, dp, dn) := (ra_src_parent a, ra_src a, ra_dst_parent a, ra_dst a) in
  let src := ra_expected_src a in
  s_dentries s !! (sp, sn) = Some src /\ s_dentries s !! (dp, dn) = ra_expected_dst a /\
  s_mounts s' = s_mounts s /\ s_detached s' = s_detached s /\
  s_next_inode_id s' = s_next_inode_id s /\
  ((dp, dn) = (sp, sn) /\ s_inodes s' = s_inodes s /\ s_dentries s' = s_dentries s \/
   (dp, dn) <> (sp, sn) /\
   (forall t, ra_expected_dst a = Some t -> t <> src /\ forall y, ~ child (s_dentries s) t y) /\
   exists isp idp, s_inodes s !! sp = Some isp /\ s_inodes s !! dp = Some idp /\
     s_dentries s' = <[(dp, dn) := src]> (delete (sp, sn) (s_dentries s)) /\
     s_inodes s' = touch_parents (match ra_expected_dst a with
                                  | Some t => delete t (s_inodes s) | None => s_inodes s end)
                     sp dp isp idp now).
Proof.
  intros [Hnext Hn HT] H. unfold apply_rename in H. unbind H as u Hu. injection H as <-.
  destruct (prepare_rename_Ok n s a now u HT Hu) as (Hsrc & [i Hi] & Hdst & Hcases).
  destruct Hcases as [[Hsame ->]|(parents & Hpar & Hcases)].
  - destruct (rename_atomic_fields s a (ra_expected_src a) None (None, None) rs)
      as (-> & -> & -> & -> & ->).
    rewrite Hsame in Hdst. destruct (ti_unique _ _ _ _ _ HT _ _ _ _ _ Hdst Hsrc) as [E1 E2].
    split_and!; try done; [congruence|]. left. rewrite E1, E2. split_and!; try done.
    rewrite insert_delete_eq. by apply insert_id.
  - apply prepare_parents_Ok in Hpar as (isp & idp & Hs & Hd & ->).
    destruct Hcases as [[Hnone ->]|(t & Ht & Hne & -> & Hleaf)].
    + destruct (rename_atomic_fields s a (ra_expected_src a) None
        (Some (touch_parent isp now), if bool_decide (ra_src_parent a = ra_dst_parent a) then None
           else Some (touch_parent idp now)) rs) as (-> & -> & -> & -> & ->).
      split_and!; try done. right. rewrite Hnone in *. split; [congruence|]. split; [done|].
      exists isp, idp. split_and!; try done. by eapply touch_parents_put.
    + destruct (rename_atomic_fields s a (ra_expected_src a) (Some t)
        (Some (touch_parent isp now), if bool_decide (ra_src_parent a = ra_dst_parent a) then None
           else Some (touch_parent idp now)) rs) as (-> & -> & -> & -> & ->).
      split_and!; try done. right. rewrite Ht in *. split; [congruence|].
      split; [by intros ? [= <-]|]. exists isp, idp. split_and!; try done.
      * by rewrite delete_delete, insert_delete_eq.
      * by eapply touch_parents_put.
Qed.

Lemma apply_rename_step n s a now rs s' :
  ready n s -> rename_admissible s a -> apply_rename s a now rs = Ok s' ->
  shape_step n s s' /\
  (rooted_of s -> ~ rtc (child (s_dentries s)) (ra_expected_src a) (ra_dst_parent a) -> rooted_of s').
Proof.
  intros Hs [Hname Hadm] H. pose proof Hs as [Hnext Hn HT].
  destruct (apply_rename_Ok n s a now rs s' Hs H)
    as (Hsrc & Hdst & HM & HTd & Hnx & [(E & HI & HD)|(Hne & Hleaf & isp & idp & Hsp & Hdp & HD & HI)]);
    unfold tree_step_by, tree_of, rooted_of in *.
  { rewrite HI, HD, HM, HTd. split; [|done]. exists n.
    split_and!; [done| |done|apply inodes_le_refl]. split; [congruence|done|].
    unfold tree_of. by rewrite HI, HD, HM, HTd. }
  destruct (Hadm _ _ Hsp Hdp) as [Hdir Hmnt].
  assert (forall J D', s_inodes s' = touch_parents J (ra_src_parent a) (ra_dst_parent a) isp idp now ->
    s_dentries s' = D' -> inodes_same n (s_inodes s) J ->
    J !! ra_src_parent a = Some isp -> J !! ra_dst_parent a = Some idp ->
    tree_inv n (touch_parents J (ra_src_parent a) (ra_dst_parent a) isp idp now) D' (s_mounts s) (s_detached s) ->
    exists n', n <= n' /\ ready n' s' /\ s_mounts s' = s_mounts s /\
      inodes_same n (s_inodes s) (s_inodes s')) as Hfinish.
  { intros J D' E1 E2 Hle HJ1 HJ2 HT'. exists n. split_and!; [done| |done|].
    - split; [congruence|done|]. unfold tree_of. by rewrite E1, E2, HM, HTd.
    - rewrite E1. by apply inodes_le_touch_parents. }
  destruct (ra_expected_dst a) as [t|] eqn:Ht.
  - destruct (Hleaf t eq_refl) as [Htne Htl].
    assert (delete t (s_inodes s) !! ra_src_parent a = Some isp) as Hsp'.
    { rewrite lookup_delete_ne; [done|]. intros ->. apply (Htl (ra_expected_src a)). by exists (ra_src a). }
    assert (delete t (s_inodes s) !! ra_dst_parent a = Some idp) as Hdp'.
    { rewrite lookup_delete_ne; [done|]. intros ->. apply (Htl (ra_dst_parent a)). by exists (ra_dst a). }
    edestruct (tree_rename n _ _ _ _ (ra_src_parent a) (ra_src a) (ra_expected_src a) (ra_dst_parent a)
      (ra_dst a) isp idp now (tree_remove HT _ _ _ Hdst Htl)) as [HT2 HR2]; [..|done|done|done|done|done|].
    + rewrite lookup_delete_ne by done. done.
    + rewrite delete_delete. apply lookup_delete_eq.
    + rewrite delete_delete, insert_delete_eq in HT2, HR2. split.
      * eapply Hfinish; [done|done| |done|done|done]. apply inodes_le_delete, inodes_le_refl.
      * rewrite HI, HD, HM, HTd. intros HR Hout. apply HR2; [by apply (rooted_remove HT HR)|].
        intros Hp. apply Hout. eapply rtc_subrel; [|done].
        intros x y [nm [_ Hl]%lookup_delete_Some]. by exists nm.
  - edestruct (tree_rename n _ _ _ _ (ra_src_parent a) (ra_src a) (ra_expected_src a) (ra_dst_parent a)
      (ra_dst a) isp idp now HT) as [HT2 HR2]; [done| |done..|].
    { by rewrite lookup_delete_ne. }
    split; [|by rewrite HI, HD, HM, HTd].
    eapply Hfinish; [done|done|apply inodes_le_refl|done|done|done].
Qed.
