(* ===== verification/WriteApply.v ===== *)
(** * Write-authority commands of the state machine
      ([beryl-metadata/src/raft/state_machine/write.rs])

    Block allocation, write leases, publication and commit of one file inode,
    with what each command does to the inode it names and that it preserves the
    namespace invariant. *)

From S2P Require Import Prelude Types Errors Inode Mount Store Namespace Tree NamespaceInv.
Local Open Scope Z_scope.

Definition ensure_file_inode_authority (id : InodeId) (inode : Inode) : MetadataResult unit :=
  reject_if (bool_decide (inode_id inode ≠ id) || negb (is_file inode)) (Internal "invalid file authority");;
  f ← inode_file inode;
  file_validate f id.

(** The common prologue: read the inode, check its authority, take its file. *)
Definition load_file (s : Store) (id : InodeId) : MetadataResult (Inode * FileData) :=
  inode ← ok_or (get_inode s id) (NotFound "inode");
  ensure_file_inode_authority id inode;;
  f ← inode_file inode;
  Ok (inode, f).

Definition with_next_index (f : FileData) (next : Z) : FileData :=
  mk_FileData (fd_layout f) (fd_len f) (fd_generation f) (fd_blocks f) next (fd_lease_epoch f)
    (fd_last_commit f).

Definition with_commit (f : FileData) (epoch : LeaseEpoch) (c : FileCommit) : FileData :=
  mk_FileData (fd_layout f) (fd_len f) (fd_generation f) (fd_blocks f) (fd_next_index f) epoch (Some c).

Definition apply_allocate_block (s : Store) (id : InodeId) (epoch : LeaseEpoch) (rs : RaftState)
  : MetadataResult (Store * BlockId) :=
  '(inode, f) ← load_file s id;
  reject_if (bool_decide (fd_lease_epoch f ≠ epoch)) (LeaseFenced (fd_lease_epoch f) epoch);;
  reject_if (u32_max <? fd_next_index f) (InvalidArgument "block index exhausted");;
  Ok (put_inode_atomic s (with_file inode (with_next_index f (fd_next_index f + 1))) rs,
      mk_BlockId id (fd_next_index f)).

Definition apply_acquire_write_lease (s : Store) (id : InodeId) (expected : LeaseEpoch)
    (proposed_at_ms : Z) (rs : RaftState) : MetadataResult (Store * LeaseEpoch) :=
  '(inode, f) ← load_file s id;
  found ← get_create_file_replay_for_inode s id;
  reject_if (match found with
             | Some r =>
                 (proposed_at_ms <? rr_expires_at_ms r) && bool_decide (fd_len f = 0)
                 && bool_decide (fd_next_index f = 0)
                 && bool_decide (fd_generation f = rr_generation r)
                 && bool_decide (fd_lease_epoch f = rr_lease_epoch r)
             | None => false
             end)
    (Again "CreateFile replay still owns the initial session");;
  reject_if (bool_decide (fd_lease_epoch f ≠ expected)) (Again "write lease epoch changed");;
  next ← ok_or (lease_checked_next (fd_lease_epoch f)) (InvalidArgument "write lease epoch overflow");
  Ok (put_inode_atomic s (with_file inode (with_lease_epoch f next)) rs, next).

Definition apply_end_write_lease (s : Store) (id : InodeId) (epoch : LeaseEpoch) (rs : RaftState)
  : MetadataResult (Store * LeaseEpoch) :=
  '(inode, f) ← load_file s id;
  next ← ok_or (lease_checked_next epoch) (InvalidArgument "write lease epoch overflow");
  if bool_decide (fd_lease_epoch f = next) then Ok (commit_applied_state s rs, next)
  else
    reject_if (bool_decide (fd_lease_epoch f ≠ epoch)) (LeaseFenced (fd_lease_epoch f) epoch);;
    Ok (put_inode_atomic s (with_file inode (with_lease_epoch f next)) rs, next).

Definition prepare_file_publication (inode : Inode) (p : FilePublication) (proposed_at_ms : Z)
  : MetadataResult (Inode * ContentGeneration * bool) :=
  f ← inode_file inode;
  reject_if (bool_decide (fd_lease_epoch f ≠ fp_lease_epoch p))
    (LeaseFenced (fd_lease_epoch f) (fp_lease_epoch p));;
  matches ← matches_visible p f;
  if bool_decide (generation_checked_next (fp_expected_generation p) = Some (fd_generation f)) && matches
  then Ok (inode, fd_generation f, false)
  else
    reject_if (bool_decide (fd_generation f ≠ fp_expected_generation p)
               || bool_decide (fd_len f ≠ fp_expected_file_size p))
      (Again "file publication precondition changed");;
    if matches : bool then Ok (inode, fd_generation f, false)
    else
      blocks ← merged_blocks p (inode_id inode) f;
      next ← ok_or (generation_checked_next (fd_generation f)) (InvalidArgument "content generation overflow");
      let f' := published f (fp_target_size p) blocks next (fd_lease_epoch f) None in
      Ok (with_attrs (with_file inode f') (set_modify_time (inode_attrs inode) proposed_at_ms), next, true).

Definition apply_publish_file (s : Store) (id : InodeId) (p : FilePublication) (proposed_at_ms : Z)
    (rs : RaftState) : MetadataResult (Store * ContentGeneration) :=
  '(inode, _) ← load_file s id;
  '(inode', generation, changed) ← prepare_file_publication inode p proposed_at_ms;
  if changed : bool then Ok (put_inode_atomic s inode' rs, generation)
  else Ok (commit_applied_state s rs, generation).

Definition apply_commit_file (s : Store) (id : InodeId) (client : ClientId) (call : CallId)
    (p : FilePublication) (proposed_at_ms : Z) (rs : RaftState)
  : MetadataResult (Store * ContentGeneration) :=
  '(inode, f) ← load_file s id;
  replay ← resolve_commit p inode client call;
  match replay with
  | Some generation => Ok (commit_applied_state s rs, generation)
  | None =>
      reject_if (bool_decide (fd_generation f ≠ fp_expected_generation p))
        (Again "CommitFile generation changed without completion evidence");;
      ended ← ok_or (lease_checked_next (fp_lease_epoch p)) (InvalidArgument "write lease epoch overflow");
      '(inode', generation, _) ← prepare_file_publication inode p proposed_at_ms;
      f' ← inode_file inode';
      let commit := mk_FileCommit client call (fp_lease_epoch p) (fp_expected_generation p)
                      (fp_expected_file_size p) (fp_mode p) (fp_target_size p) generation in
      Ok (put_inode_atomic s (with_file inode' (with_commit f' ended commit)) rs, generation)
  end.

(** ** The commands on the inode they name *)

Definition lookup_file (s : Store) (id : InodeId) : option FileData :=
  match s_inodes s !! id with
  | Some i => match inode_kind i with KFile f => Some f | KDir => None end
  | None => None
  end.

Section write_lemmas.
Implicit Types (s : Store) (f : FileData) (i : Inode) (p : FilePublication) (rs : RaftState).

Lemma load_file_Ok s id i f :
  load_file s id = Ok (i, f) ->
  s_inodes s !! id = Some i /\ inode_kind i = KFile f /\ inode_id i = id /\ file_validate f id = Ok tt.
Proof.
  unfold load_file, ensure_file_inode_authority, inode_file. intros H. unbind H as i' Hi.
  unbind H as [] Ha. unbind Ha as [] Hid. unbind Ha as f' Hf'. unbind H as f'' Hf. injection H as <- <-.
  destruct (inode_kind i') as [g|] eqn:Hk; [|done]. simplify_eq. bool_prop. done.
Qed.

Lemma file_inv_typed id f : file_inv id f -> file_typed f.
Proof. intros (Hok & Hlen & _). destruct Hok as [[_ Hl] _ _ _ _]. split; lia. Qed.

(** Validation is part of the invariant, so loading an existing file succeeds. *)
Lemma load_file_total n s id i f :
  tree_of n s -> s_inodes s !! id = Some i -> inode_kind i = KFile f -> load_file s id = Ok (i, f).
Proof.
  intros HT Hi Hk. destruct (ti_inode _ _ _ _ _ HT _ _ Hi) as (Hid & _ & Hinv & _).
  unfold inode_inv in Hinv. rewrite Hk, Hid in Hinv. pose proof (file_inv_typed _ _ Hinv) as Ht.
  destruct Hinv as [Hok _]. unfold load_file, ensure_file_inode_authority, get_inode, inode_file, is_file.
  rewrite Hi. simpl. rewrite Hk, (bool_decide_eq_false_2 (inode_id i ≠ id)) by naive_solver. simpl.
  by rewrite (proj2 (file_validate_Ok id f Ht)).
Qed.

Lemma lookup_file_inv n s id i f :
  tree_of n s -> s_inodes s !! id = Some i -> inode_kind i = KFile f -> file_inv id f.
Proof.
  intros HT Hi Hk. destruct (ti_inode _ _ _ _ _ HT _ _ Hi) as (Hid & _ & Hinv & _).
  unfold inode_inv in Hinv. by rewrite Hk, Hid in Hinv.
Qed.

(** Storing a file with a valid new payload. *)
Lemma put_file_step n s id i f i' f' rs :
  ready n s -> s_inodes s !! id = Some i -> inode_kind i = KFile f ->
  inode_id i' = id -> inode_kind i' = KFile f' -> inode_mount_id i' = inode_mount_id i ->
  file_inv id f' -> file_le f f' ->
  let s' := put_inode_atomic s i' rs in
  tree_step n s s' /\ (rooted_of s -> rooted_of s').
Proof.
  intros [Hnext Hn HT] Hi Hk Hid Hk' Hm Hinv Hle s'.
  assert (is_dir i' = is_dir i) as Hdir. { unfold is_dir. by rewrite Hk, Hk'. }
  assert (inode_inv i') as Hinv'. { unfold inode_inv. by rewrite Hk', Hid. }
  assert (inode_le i i') as Hile. { unfold inode_le. by rewrite Hk, Hk'. }
  pose proof (tree_update HT id i i' Hi Hid Hdir Hm Hinv') as HT'.
  subst s'. destruct s; unfold tree_step_by, tree_of, rooted_of in *; store_eval. rewrite Hid. split.
  - exists n. split_and!; [done|by split|done|]. eapply inodes_le_insert; [apply inodes_le_refl|done|done].
  - intros HR. by eapply rooted_update.
Qed.

Lemma commit_applied_shape n s rs :
  ready n s -> shape_step n s (commit_applied_state s rs) /\
               (rooted_of s -> rooted_of (commit_applied_state s rs)).
Proof.
  intros [Hnext Hn HT]. destruct s; unfold tree_step_by, tree_of, rooted_of in *; store_eval.
  split; [|done]. exists n. split_and!; [done|by split|done|apply inodes_le_refl].
Qed.

Lemma commit_applied_step n s rs :
  ready n s -> tree_step n s (commit_applied_state s rs) /\
               (rooted_of s -> rooted_of (commit_applied_state s rs)).
Proof. intros [? ?]%(commit_applied_shape _ _ rs). split; [by apply shape_step_tree|done]. Qed.

Lemma apply_allocate_block_Ok s id epoch rs s' b :
  apply_allocate_block s id epoch rs = Ok (s', b) ->
  exists i f, s_inodes s !! id = Some i /\ inode_kind i = KFile f /\ inode_id i = id /\
    fd_lease_epoch f = epoch /\ fd_next_index f <= u32_max /\ b = mk_BlockId id (fd_next_index f) /\
    s' = put_inode_atomic s (with_file i (with_next_index f (fd_next_index f + 1))) rs.
Proof.
  unfold apply_allocate_block. intros H. unbind H as [i f] Hl. unbind H as [] He. unbind H as [] Hx.
  injection H as <- <-. apply load_file_Ok in Hl as (? & ? & ? & _). bool_prop. by exists i, f.
Qed.

Lemma apply_acquire_write_lease_Ok s id expected now rs s' e :
  apply_acquire_write_lease s id expected now rs = Ok (s', e) ->
  exists i f, s_inodes s !! id = Some i /\ inode_kind i = KFile f /\ inode_id i = id /\
    fd_lease_epoch f = expected /\ e = expected + 1 /\ e <= u64_max /\
    s' = put_inode_atomic s (with_file i (with_lease_epoch f e)) rs.
Proof.
  unfold apply_acquire_write_lease. intros H. unbind H as [i f] Hl. unbind H as fnd Hf. unbind H as [] Hr.
  unbind H as [] He. unbind H as nx Hnx. injection H as <- <-.
  apply load_file_Ok in Hl as (? & ? & ? & _). bool_prop. apply checked_add64_Some in Hnx as [-> ?].
  exists i, f. split_and!; (done || congruence).
Qed.

Lemma apply_end_write_lease_Ok s id epoch rs s' e :
  apply_end_write_lease s id epoch rs = Ok (s', e) ->
  exists i f, s_inodes s !! id = Some i /\ inode_kind i = KFile f /\ inode_id i = id /\
    e = epoch + 1 /\ e <= u64_max /\
    (fd_lease_epoch f = e /\ s' = commit_applied_state s rs \/
     fd_lease_epoch f = epoch /\ s' = put_inode_atomic s (with_file i (with_lease_epoch f e)) rs).
Proof.
  unfold apply_end_write_lease. intros H. unbind H as [i f] Hl. unbind H as nx Hnx.
  apply load_file_Ok in Hl as (? & ? & ? & _). apply checked_add64_Some in Hnx as [-> ?].
  exists i, f. case_bool_decide.
  - injection H as <- <-. split_and!; try done. by left.
  - unbind H as [] He. injection H as <- <-. bool_prop. split_and!; try done. by right.
Qed.

(** A publication either confirms what is visible or installs its payload. *)
Lemma prepare_file_publication_Ok i f p now i' g changed :
  inode_kind i = KFile f -> prepare_file_publication i p now = Ok (i', g, changed) ->
  fd_lease_epoch f = fp_lease_epoch p /\
  (changed = false /\ i' = i /\ g = fd_generation f /\ matches_visible p f = Ok true \/
   changed = true /\ g = fd_generation f + 1 /\ g <= u64_max /\
   fd_generation f = fp_expected_generation p /\ fd_len f = fp_expected_file_size p /\
   exists blocks, merged_blocks p (inode_id i) f = Ok blocks /\
     i' = with_attrs (with_file i (published f (fp_target_size p) blocks g (fd_lease_epoch f) None))
            (set_modify_time (inode_attrs i) now)).
Proof.
  intros Hk H. unfold prepare_file_publication, inode_file in H. rewrite Hk in H. unbind H as f' Hf.
  injection Hf as <-. unbind H as [] Hl. unbind H as m Hm. bool_prop. split; [done|].
  destruct (bool_decide _ && m) eqn:Hc.
  { injection H as <- <- <-. bool_prop. subst. by left. }
  unbind H as [] Hp. bool_prop. destruct m.
  { injection H as <- <- <-. by left. }
  unbind H as bl Hbl. unbind H as nx Hnx. injection H as <- <- <-.
  apply checked_add64_Some in Hnx as [-> ?]. right. split_and!; try done. by exists bl.
Qed.

Lemma published_inv id f p bl g epoch c :
  file_inv id f -> publication_typed p -> merged_blocks p id f = Ok bl ->
  0 <= g <= u64_max -> 0 <= epoch <= u64_max ->
  file_inv id (published f (fp_target_size p) bl g epoch c).
Proof.
  intros Hf Hp Hm Hg He. pose proof (file_inv_typed _ _ Hf) as Ht.
  pose proof (merged_blocks_file_ok id p f bl g epoch c Ht Hp Hm) as Hok.
  destruct Hf as (_ & _ & Hx & _ & _). destruct Hp.
  split_and!; simpl; (done || lia).
Qed.

Lemma apply_publish_file_Ok s id p now rs s' g :
  apply_publish_file s id p now rs = Ok (s', g) ->
  exists i f i' changed, s_inodes s !! id = Some i /\ inode_kind i = KFile f /\ inode_id i = id /\
    prepare_file_publication i p now = Ok (i', g, changed) /\
    s' = if changed : bool then put_inode_atomic s i' rs else commit_applied_state s rs.
Proof.
  unfold apply_publish_file. intros H. unbind H as [i f] Hl. unbind H as [[i' g'] ch] Hp.
  apply load_file_Ok in Hl as (? & ? & ? & _). exists i, f, i', ch.
  destruct ch; injection H as <- <-; done.
Qed.

(** A CommitFile is a replay, or it publishes, ends the lease and records itself. *)
Lemma apply_commit_file_Ok s id client call p now rs s' g :
  apply_commit_file s id client call p now rs = Ok (s', g) ->
  exists i f, s_inodes s !! id = Some i /\ inode_kind i = KFile f /\ inode_id i = id /\
    (resolve_commit p i client call = Ok (Some g) /\ s' = commit_applied_state s rs \/
     resolve_commit p i client call = Ok None /\ fd_generation f = fp_expected_generation p /\
     fp_lease_epoch p + 1 <= u64_max /\
     exists i' f' changed, prepare_file_publication i p now = Ok (i', g, changed) /\
       inode_kind i' = KFile f' /\
       s' = put_inode_atomic s (with_file i' (with_commit f' (fp_lease_epoch p + 1)
              (mk_FileCommit client call (fp_lease_epoch p) (fp_expected_generation p)
                 (fp_expected_file_size p) (fp_mode p) (fp_target_size p) g))) rs).
Proof.
  unfold apply_commit_file. intros H. unbind H as [i f] Hl. unbind H as rp Hr.
  apply load_file_Ok in Hl as (? & ? & ? & _). exists i, f. split_and!; try done.
  destruct rp as [g'|]; [injection H as <- <-; by left|]. right.
  unbind H as [] Hg. unbind H as ended He. unbind H as [[i' g'] ch] Hp. unbind H as f' Hf'.
  injection H as <- <-. apply checked_add64_Some in He as [-> ?]. bool_prop. split_and!; try done.
  exists i', f', ch. unfold inode_file in Hf'. destruct (inode_kind i'); by simplify_eq.
Qed.

(** *** The commands preserve the namespace invariant *)

Lemma apply_allocate_block_step n s id epoch rs s' b :
  ready n s -> apply_allocate_block s id epoch rs = Ok (s', b) ->
  tree_step n s s' /\ (rooted_of s -> rooted_of s').
Proof.
  intros Hs H. apply apply_allocate_block_Ok in H as (i & f & Hi & Hk & Hid & _ & Hx & _ & ->).
  destruct (lookup_file_inv n s id i f (rd_tree _ _ Hs) Hi Hk) as ([Hl Hc Hb Hnd Ho] & ? & ? & ? & ?).
  eapply put_file_step; try done.
  - split_and!; simpl; try lia. split; simpl; try done.
    eapply Forall_impl; [done|]. simpl. intros b' [? ?]. split; [done|lia].
  - split_and!; simpl; (done || lia).
Qed.

Lemma with_lease_step n s id i f e rs :
  ready n s -> s_inodes s !! id = Some i -> inode_kind i = KFile f -> inode_id i = id ->
  fd_lease_epoch f <= e <= u64_max ->
  let s' := put_inode_atomic s (with_file i (with_lease_epoch f e)) rs in
  tree_step n s s' /\ (rooted_of s -> rooted_of s').
Proof.
  intros Hs Hi Hk Hid He.
  destruct (lookup_file_inv n s id i f (rd_tree _ _ Hs) Hi Hk) as ([Hl Hc Hb Hnd Ho] & ? & ? & ? & ?).
  eapply put_file_step; try done.
  - split_and!; simpl; try lia. by split.
  - split_and!; simpl; (done || lia).
Qed.

Lemma apply_acquire_write_lease_step n s id expected now rs s' e :
  ready n s -> apply_acquire_write_lease s id expected now rs = Ok (s', e) ->
  tree_step n s s' /\ (rooted_of s -> rooted_of s').
Proof.
  intros Hs H. apply apply_acquire_write_lease_Ok in H as (i & f & Hi & Hk & Hid & He & -> & Hmax & ->).
  apply (with_lease_step n s id i f); try done. lia.
Qed.

Lemma apply_end_write_lease_step n s id epoch rs s' e :
  ready n s -> apply_end_write_lease s id epoch rs = Ok (s', e) ->
  tree_step n s s' /\ (rooted_of s -> rooted_of s').
Proof.
  intros Hs H. apply apply_end_write_lease_Ok in H
    as (i & f & Hi & Hk & Hid & -> & Hmax & [[? ->]|[? ->]]); [by apply commit_applied_step|].
  apply (with_lease_step n s id i f); try done. lia.
Qed.

(** The file that a publication prepares. *)
Lemma prepared_file n s id i f p now i' g changed :
  tree_of n s -> s_inodes s !! id = Some i -> inode_kind i = KFile f -> publication_typed p ->
  prepare_file_publication i p now = Ok (i', g, changed) ->
  exists f', inode_kind i' = KFile f' /\ inode_id i' = id /\ inode_mount_id i' = inode_mount_id i /\
    file_inv id f' /\ file_le f f' /\ fd_lease_epoch f' = fp_lease_epoch p /\
    fd_len f' = fp_target_size p /\ fd_generation f' = g /\ matches_visible p f' = Ok true /\
    fd_next_index f' = fd_next_index f.
Proof.
  intros HT Hi Hk Hp H. pose proof (lookup_file_inv n s id i f HT Hi Hk) as Hf.
  destruct (ti_inode _ _ _ _ _ HT _ _ Hi) as (Hid & _).
  apply (prepare_file_publication_Ok i f) in H
    as [Hl [(-> & -> & -> & Hm)|(-> & -> & Hg & _ & _ & bl & Hbl & ->)]]; [| |done].
  - exists f. split_and!; try done; try lia.
    unfold matches_visible in Hm. unbind Hm as st Hst. injection Hm as Hm. by bool_prop.
  - rewrite Hid in Hbl. eexists. split; [done|]. split_and!; try done.
    + pose proof Hf as (_ & _ & _ & Hgen & Hlease). apply published_inv; try done. lia.
    + unfold file_le; simpl; split_and!; (done || lia).
    + eapply matches_visible_merged; [by eapply file_inv_typed|done|done].
Qed.

Lemma apply_publish_file_step n s id p now rs s' g :
  ready n s -> publication_typed p -> apply_publish_file s id p now rs = Ok (s', g) ->
  tree_step n s s' /\ (rooted_of s -> rooted_of s').
Proof.
  intros Hs Hp H. apply apply_publish_file_Ok in H as (i & f & i' & ch & Hi & Hk & Hid & Hprep & ->).
  destruct ch; [|by apply commit_applied_step].
  edestruct (prepared_file n s id i f p now i' g true (rd_tree _ _ Hs) Hi Hk Hp Hprep)
    as (f' & ? & ? & ? & ? & ? & _). by eapply put_file_step.
Qed.

Lemma apply_commit_file_step n s id client call p now rs s' g :
  ready n s -> publication_typed p -> apply_commit_file s id client call p now rs = Ok (s', g) ->
  tree_step n s s' /\ (rooted_of s -> rooted_of s').
Proof.
  intros Hs Hp H. apply apply_commit_file_Ok in H as (i & f & Hi & Hk & Hid & [[_ ->]|H]);
    [by apply commit_applied_step|].
  destruct H as (_ & _ & Hmax & i' & f'' & ch & Hprep & Hk'' & ->).
  edestruct (prepared_file n s id i f p now i' g ch (rd_tree _ _ Hs) Hi Hk Hp Hprep)
    as (f' & Hk' & ? & ? & Hinv & Hle & Hlease & _).
  rewrite Hk' in Hk''. injection Hk'' as <-.
  destruct Hinv as ([? ? ? ? ?] & ? & ? & ? & ?), Hle as (? & ? & ? & ?).
  eapply put_file_step; try done.
  - split_and!; simpl; try lia. by split.
  - split_and!; simpl; (done || lia).
Qed.
End write_lemmas.

(** ** Replay *)

(** Equal visible content and completion evidence. *)
Definition same_content (f f' : FileData) : Prop :=
  fd_layout f' = fd_layout f /\ fd_len f' = fd_len f /\ fd_generation f' = fd_generation f /\
  fd_blocks f' = fd_blocks f /\ fd_last_commit f' = fd_last_commit f.

Section replay_lemmas.
Implicit Types (s : Store) (f : FileData) (i : Inode) (p : FilePublication) (rs : RaftState).

Lemma put_inode_atomic_inodes s i rs :
  s_inodes (put_inode_atomic s i rs) = <[inode_id i := i]> (s_inodes s).
Proof. by destruct s. Qed.

Lemma commit_applied_inodes s rs : s_inodes (commit_applied_state s rs) = s_inodes s.
Proof. by destruct s. Qed.

Lemma matches_visible_ext p f f' :
  fd_layout f' = fd_layout f -> fd_len f' = fd_len f -> fd_blocks f' = fd_blocks f ->
  matches_visible p f' = matches_visible p f.
Proof.
  intros Hl Hn Hb. unfold matches_visible. rewrite (start_index_ext p f' f Hl). by rewrite Hn, Hb.
Qed.

(** Lease changes alone do not retire the completion evidence. *)
Lemma resolve_commit_ext p i i' f f' client call g :
  inode_kind i = KFile f -> inode_kind i' = KFile f' -> same_content f f' ->
  fd_lease_epoch f <= fd_lease_epoch f' ->
  resolve_commit p i client call = Ok (Some g) -> resolve_commit p i' client call = Ok (Some g).
Proof.
  intros Hk Hk' (Hl & Hn & Hg & Hb & Hc) Hle. unfold resolve_commit, inode_file. rewrite Hk, Hk'. simpl.
  rewrite Hc, Hg, Hn, (matches_visible_ext p f f' Hl Hn Hb).
  destruct (fd_last_commit f) as [c|]; [|done]. destruct (_ || _); [done|].
  destruct (lease_checked_next (fc_lease_epoch c)) as [e|]; [|by destruct (_ || _)].
  intros H. unbind H as [] Hev. bool_prop.
  rewrite (proj2 (Z.ltb_ge (fd_lease_epoch f') e)) by lia.
  rewrite (bool_decide_eq_false_2 (fc_generation c ≠ fd_generation f)) by (by intros []).
  by rewrite (bool_decide_eq_false_2 (fc_committed_size c ≠ fd_len f)) by (by intros []).
Qed.

Lemma resolve_commit_fresh p i f client call g :
  inode_kind i = KFile (with_commit f (fp_lease_epoch p + 1)
    (mk_FileCommit client call (fp_lease_epoch p) (fp_expected_generation p)
       (fp_expected_file_size p) (fp_mode p) (fp_target_size p) g)) ->
  fp_lease_epoch p + 1 <= u64_max -> fd_generation f = g -> fd_len f = fp_target_size p ->
  matches_visible p f = Ok true -> resolve_commit p i client call = Ok (Some g).
Proof.
  intros Hk Hmax Hg Hn Hm. unfold resolve_commit, inode_file. rewrite Hk. simpl.
  rewrite !bool_decide_eq_false_2 by (by intros ?). simpl.
  unfold lease_checked_next, checked_add64. rewrite bool_decide_eq_true_2 by done.
  rewrite (proj2 (Z.ltb_ge _ _)) by lia. simpl.
  rewrite (matches_visible_ext p f) by done. rewrite Hm. done.
Qed.

Lemma commit_leaves_evidence n s id client call p now rs s1 g :
  ready n s -> publication_typed p -> apply_commit_file s id client call p now rs = Ok (s1, g) ->
  exists i1, s_inodes s1 !! id = Some i1 /\ resolve_commit p i1 client call = Ok (Some g).
Proof.
  intros Hs Hp H. apply apply_commit_file_Ok in H as (i & f & Hi & Hk & Hid & [[Hr ->]|H]).
  { exists i. by rewrite commit_applied_inodes. }
  destruct H as (_ & _ & Hmax & i' & f'' & ch & Hprep & Hk'' & ->).
  edestruct (prepared_file n s id i f p now i' g ch (rd_tree _ _ Hs) Hi Hk Hp Hprep)
    as (f' & Hk' & Hid' & _ & _ & _ & _ & Hlen & Hgen & Hmv & _).
  rewrite Hk' in Hk''. injection Hk'' as <-. rewrite put_inode_atomic_inodes. simpl.
  rewrite Hid', lookup_insert_eq. eexists. split; [done|]. by eapply resolve_commit_fresh.
Qed.

Lemma resolve_commit_applies n s id i f p client call g now rs :
  tree_of n s -> s_inodes s !! id = Some i -> inode_kind i = KFile f ->
  resolve_commit p i client call = Ok (Some g) ->
  apply_commit_file s id client call p now rs = Ok (commit_applied_state s rs, g).
Proof.
  intros HT Hi Hk Hr. unfold apply_commit_file. rewrite (load_file_total n s id i f HT Hi Hk). simpl.
  by rewrite Hr.
Qed.
End replay_lemmas.
