(* ===== verification/Samples.v ===== *)
(** * A small concrete namespace

    The stores reached by bootstrapping a namespace, creating [/d] and [/f],
    allocating two blocks and publishing them. They witness that the hypotheses
    of the theorems can hold. *)

From S2P Require Import Prelude Types Errors Inode Mount Store Namespace Tree NamespaceInv.
From S2P Require Import WriteApply.
Local Open Scope Z_scope.

Definition rs0 : RaftState := mk_RaftState (Some (mk_RaftLogId 1 1 5)) None None None (None, 0).

Definition run_ok {A} (r : MetadataResult (Store * A)) (s : Store) : Store :=
  match r with Ok (s', _) => s' | _ => s end.

Definition s_boot : Store := run_ok (apply_bootstrap_namespace empty_store "g" 100 rs0) empty_store.
Definition s_dir : Store := run_ok (apply_mkdir s_boot 1 "d" attrs_new 110 rs0) s_boot.

Definition create_f : CreateFileArgs :=
  mk_CreateFileArgs (mk_OperationId 7 8) 500 400 "/f" 1 1 1 ["f"] attrs_new sample_layout.
Definition s_file : Store := run_ok (apply_create s_dir create_f 120 rs0) s_dir.

(** Two blocks allocated to file 3 under lease epoch 1. *)
Definition s_alloc1 : Store := run_ok (apply_allocate_block s_file 3 1 rs0) s_file.
Definition s_alloc : Store := run_ok (apply_allocate_block s_alloc1 3 1 rs0) s_alloc1.

Definition publish_f : FilePublication :=
  mk_FilePublication [mk_CommittedBlock (mk_BlockId 3 0) 10; mk_CommittedBlock (mk_BlockId 3 1) 5]
    15 0 0 1 ReplaceIfUnchanged.

Definition the_inode (s : Store) (id : InodeId) : Inode :=
  default (new_dir 0 attrs_new 0) (s_inodes s !! id).
Definition the_file (s : Store) (id : InodeId) : FileData := default sample_file (lookup_file s id).

Lemma ready_next n n' s : ready n s -> s_next_inode_id s = Some n' -> ready n' s.
Proof. intros H E. destruct H as [H1 H2 H3]. rewrite E in H1. injection H1 as ->. by split. Qed.

Lemma step_ready R n s s' n' : tree_step_by R n s s' -> s_next_inode_id s' = Some n' -> ready n' s'.
Proof. intros (m & _ & H & _) E. by eapply ready_next. Qed.

Lemma s_boot_ready : ready 2 s_boot /\ rooted_of s_boot.
Proof.
  edestruct (bootstrap_ready empty_store "g" 100 rs0 s_boot) as (H & H' & _);
    [reflexivity..|vm_compute; reflexivity|done].
Qed.

Lemma valid_name_compute c : validate_components [c] = Ok tt -> valid_name c.
Proof. intros H. apply validate_components_Ok in H. by rewrite Forall_singleton in H. Qed.

Lemma s_dir_ready : ready 3 s_dir /\ rooted_of s_dir.
Proof.
  destruct s_boot_ready as [H HR].
  edestruct (apply_mkdir_step 2 s_boot 1 "d" attrs_new 110 rs0 s_dir) as [Hs Hr];
    [done|apply valid_name_compute; by vm_compute|vm_compute; reflexivity|].
  split; [|by apply Hr]. eapply step_ready; [done|by vm_compute].
Qed.

Lemma s_file_ready : ready 4 s_file /\ rooted_of s_file.
Proof.
  destruct s_dir_ready as [H HR].
  edestruct (apply_create_step 3 s_dir create_f 120 rs0 s_file) as [Hs Hr];
    [done|vm_compute; congruence|vm_compute; reflexivity|].
  split; [|by apply Hr]. eapply step_ready; [done|by vm_compute].
Qed.

Lemma s_alloc_ready : ready 4 s_alloc /\ rooted_of s_alloc.
Proof.
  destruct s_file_ready as [H HR].
  edestruct (apply_allocate_block_step 4 s_file 3 1 rs0 s_alloc1) as [H1 HR1];
    [done|vm_compute; reflexivity|].
  apply (step_ready _ _ _ _ 4) in H1; [|by vm_compute].
  edestruct (apply_allocate_block_step 4 s_alloc1 3 1 rs0 s_alloc) as [H2 HR2];
    [done|vm_compute; reflexivity|].
  split; [|by apply HR2, HR1]. eapply step_ready; [done|by vm_compute].
Qed.

(** [/d] with a child directory [/d/e], detached by a recursive delete. *)
Definition s_sub : Store := run_ok (apply_mkdir s_file 2 "e" attrs_new 130 rs0) s_file.
Definition delete_d : DeleteArgs := mk_DeleteArgs 1 1 1 ["d"] 2 None true.
Definition s_det : Store := match apply_delete s_sub delete_d 140 rs0 with Ok s => s | _ => s_sub end.

Lemma s_sub_ready : ready 5 s_sub /\ rooted_of s_sub.
Proof.
  destruct s_file_ready as [H HR].
  edestruct (apply_mkdir_step 4 s_file 2 "e" attrs_new 130 rs0 s_sub) as [Hs Hr];
    [done|apply valid_name_compute; by vm_compute|vm_compute; reflexivity|].
  split; [|by apply Hr]. eapply step_ready; [done|by vm_compute].
Qed.

Lemma s_det_ready : ready 5 s_det /\ rooted_of s_det.
Proof.
  destruct s_sub_ready as [H HR].
  edestruct (apply_delete_step 5 s_sub delete_d 140 rs0 s_det) as [Hs Hr]; [done|vm_compute; reflexivity|].
  split; [|by apply Hr]. eapply step_ready; [done|by vm_compute].
Qed.
