(* ===== verification/WriteProps.v ===== *)
(** * Correctness of the write-authority commands

    Stale writers are fenced, and completed operations replay without effect. *)

From S2P Require Import Prelude Types Errors Inode Mount Store Namespace Tree NamespaceInv.
From S2P Require Import WriteApply Samples.
Local Open Scope Z_scope.

(** ** Properties *)

(** C27. A writer whose lease epoch is not the file's current one cannot
    change anything: allocation, publication and lease end are rejected with the
    current epoch, and a commit can only confirm an operation that already
    completed. *)
Theorem stale_writer_fenced n s id i f stale rs :
  ready n s -> s_inodes s !! id = Some i -> inode_kind i = KFile f -> stale <> fd_lease_epoch f ->
  apply_allocate_block s id stale rs = Err (LeaseFenced (fd_lease_epoch f) stale) /\
  (forall p now, fp_lease_epoch p = stale ->
     apply_publish_file s id p now rs = Err (LeaseFenced (fd_lease_epoch f) stale)) /\
  (stale + 1 <= u64_max -> fd_lease_epoch f <> stale + 1 ->
     apply_end_write_lease s id stale rs = Err (LeaseFenced (fd_lease_epoch f) stale)) /\
  (forall p client call now s' g, fp_lease_epoch p = stale ->
     apply_commit_file s id client call p now rs = Ok (s', g) -> s' = commit_applied_state s rs).
Proof.
  intros Hs Hi Hk Hne. pose proof (load_file_total n s id i f (rd_tree _ _ Hs) Hi Hk) as Hl.
  assert (bool_decide (fd_lease_epoch f ≠ stale) = true) as Hb by by apply bool_decide_eq_true.
  split_and!.
  - unfold apply_allocate_block. rewrite Hl. simpl. by rewrite Hb.
  - intros p now <-. unfold apply_publish_file, prepare_file_publication, inode_file.
    rewrite Hl. simpl. rewrite Hk. simpl. by rewrite Hb.
  - intros Hmax Hnx. unfold apply_end_write_lease. rewrite Hl. simpl.
    unfold lease_checked_next, checked_add64.
    rewrite (bool_decide_eq_true_2 (stale + 1 <= u64_max)) by done. simpl.
    rewrite (bool_decide_eq_false_2 (fd_lease_epoch f = stale + 1)) by done. by rewrite Hb.
  - intros p client call now s' g <- H.
    apply apply_commit_file_Ok in H as (i0 & f0 & Hi0 & Hk0 & _ & [[_ ->]|H]); [done|].
    destruct H as (_ & _ & _ & i' & f' & ch & Hprep & _).
    assert (i0 = i) as -> by congruence. assert (f0 = f) as -> by congruence.
    apply (prepare_file_publication_Ok i f) in Hprep as [Heq _]; [|done]. congruence.
Qed.

Lemma stale_writer_fenced_witness :
  apply_allocate_block s_alloc 3 0 rs0 = Err (LeaseFenced 1 0).
Proof.
  apply (stale_writer_fenced 4 s_alloc 3 (the_inode s_alloc 3) (the_file s_alloc 3) 0 rs0);
    [apply s_alloc_ready|by vm_compute|by vm_compute|vm_compute; congruence].
Defined.


(** Commit, then another writer acquires the lease, then the commit is repeated. *)
Definition s_commit : Store := run_ok (apply_commit_file s_alloc 3 7 9 publish_f 200 rs0) s_alloc.
Definition s_reopen : Store := run_ok (apply_acquire_write_lease s_commit 3 2 500 rs0) s_commit.

Lemma s_commit_ready : ready 4 s_commit.
Proof.
  edestruct (apply_commit_file_step 4 s_alloc 3 7 9 publish_f 200 rs0 s_commit) as [H _];
    [apply s_alloc_ready|split; vm_compute; congruence|vm_compute; reflexivity|].
  eapply step_ready; [done|by vm_compute].
Qed.

Lemma s_reopen_ready : ready 4 s_reopen.
Proof.
  edestruct (apply_acquire_write_lease_step 4 s_commit 3 2 500 rs0 s_reopen) as [H _];
    [apply s_commit_ready|vm_compute; reflexivity|].
  eapply step_ready; [done|by vm_compute].
Qed.


(** Repeating a publication that succeeded confirms the same
    generation without a further change. *)
Lemma publish_file_replay n s id p now rs s1 g now2 rs2 :
  ready n s -> publication_typed p ->
  apply_publish_file s id p now rs = Ok (s1, g) ->
  apply_publish_file s1 id p now2 rs2 = Ok (commit_applied_state s1 rs2, g).
Proof.
  intros Hs Hp H. pose proof H as Hstep.
  apply (apply_publish_file_step n) in Hstep as [(n1 & _ & [_ _ HT1] & _) _]; [|done|done].
  apply apply_publish_file_Ok in H as (i & f & i' & ch & Hi & Hk & Hid & Hprep & ->).
  destruct (prepared_file n s id i f p now i' g ch (rd_tree _ _ Hs) Hi Hk Hp Hprep)
    as (f' & Hk' & Hid' & _ & _ & _ & Hl' & Hlen' & Hg' & Hm' & _).
  pose proof Hprep as Hcases. apply (prepare_file_publication_Ok i f) in Hcases
    as [Hl [(-> & -> & -> & Hm)|(-> & Hg & Hgm & Hge & _)]]; [| |done].
  - unfold apply_publish_file.
    rewrite (load_file_total n1 _ id i f HT1) by (by rewrite ?commit_applied_inodes). simpl.
    assert (prepare_file_publication i p now2 = Ok (i, fd_generation f, false)) as ->; [|done].
    revert Hprep. unfold prepare_file_publication, inode_file. rewrite Hk. simpl. by rewrite Hm.
  - unfold apply_publish_file.
    rewrite (load_file_total n1 _ id i' f' HT1);
      [|rewrite put_inode_atomic_inodes, Hid'; apply lookup_insert_eq|done].
    simpl. unfold prepare_file_publication, inode_file. rewrite Hk'. simpl.
    rewrite Hl', (bool_decide_eq_false_2 (fp_lease_epoch p ≠ _)) by (by intros []). simpl.
    rewrite Hm'. simpl. unfold generation_checked_next, checked_add64.
    rewrite (bool_decide_eq_true_2 (fp_expected_generation p + 1 <= u64_max)) by lia.
    rewrite (bool_decide_eq_true_2 (Some _ = Some _)) by (f_equal; lia). simpl.
    by rewrite Hg'.
Qed.

(** Ending a lease is idempotent: repeating the command confirms the
    same successor epoch and changes nothing but the applied Raft position. *)
Lemma end_write_lease_replay n s id epoch rs s1 e rs2 :
  ready n s -> apply_end_write_lease s id epoch rs = Ok (s1, e) ->
  e = epoch + 1 /\ apply_end_write_lease s1 id epoch rs2 = Ok (commit_applied_state s1 rs2, e).
Proof.
  intros Hs H. pose proof H as Hstep.
  apply (apply_end_write_lease_step n) in Hstep as [(n1 & _ & [_ _ HT1] & _) _]; [|done].
  apply apply_end_write_lease_Ok in H as (i & f & Hi & Hk & Hid & -> & Hmax & Hcases). split; [done|].
  assert (exists i1 f1, s_inodes s1 !! id = Some i1 /\ inode_kind i1 = KFile f1 /\
            fd_lease_epoch f1 = epoch + 1) as (i1 & f1 & Hi1 & Hk1 & Hl1).
  { destruct Hcases as [[Hl ->]|[Hl ->]].
    - exists i, f. by rewrite commit_applied_inodes.
    - rewrite put_inode_atomic_inodes. simpl. rewrite Hid, lookup_insert_eq. by do 2 eexists. }
  unfold apply_end_write_lease. rewrite (load_file_total n1 s1 id i1 f1 HT1 Hi1 Hk1). simpl.
  unfold lease_checked_next, checked_add64.
  rewrite (bool_decide_eq_true_2 (epoch + 1 <= u64_max)) by done. simpl.
  by rewrite (bool_decide_eq_true_2 (fd_lease_epoch f1 = epoch + 1)).
Qed.
