(* ===== verification/Reclaim.v ===== *)
(** * Reclamation of detached roots
      ([beryl-metadata/src/raft/state_machine/detached_root.rs])

    One bounded batch removes children of detached directories, turns child
    directories into detached roots of their own, and retires roots that have
    become empty. The theorems bound the batch, show that the byte accounting
    never diverges, and that only detached state is touched. *)

From S2P Require Import Prelude Types Errors Inode Mount Store Namespace.
Local Open Scope Z_scope.

Definition MAX_RECLAIM_DETACHED_ROOT_CANDIDATES : Z := 64.
Definition MAX_RECLAIM_DETACHED_ROOT_ENTRIES : Z := 256.
Definition MIN_RECLAIM_DETACHED_ROOT_BATCH_BYTES : Z := 4 * 1024.
Definition MAX_RECLAIM_DETACHED_ROOT_BATCH_BYTES : Z := 1024 * 1024.

(** [usize] is 64 bits wide. *)
Definition checked_add_usize (a b : Z) : MetadataResult Z :=
  ok_or (checked_add64 a b) (Internal "detached-root logical byte count overflow").

(** Lengths of the encoded keys: [inode/] and [dentry/] prefixes, eight id bytes. *)
Definition inode_key_len : Z := 6 + 8.
Definition dentry_key_len (name : string) : Z := 7 + 8 + str_len name.
Definition detached_root_key_len : Z := 8.
Definition raft_state_key_len : Z := 10.

Record DetachedRootReclaimResult := mk_ReclaimResult {
  rs_processed_entries : Z;
  rs_completed_roots : Z;
  rs_created_roots : Z;
  rs_logical_batch_bytes : Z
}.

Section reclaim.
(** Lengths of the serialised Raft state (JSON) and of a marker (bincode). *)
Variable raft_state_len : RaftState -> Z.
Variable marker_len : DetachedRoot -> Z.

Definition entry_logical_bytes (e : DetachedRootReclaimEntry) : MetadataResult Z :=
  let bytes := dentry_key_len (re_name e) in
  match re_child_detached_root e with
  | Some marker =>
      b ← checked_add_usize bytes detached_root_key_len;
      checked_add_usize b (marker_len marker)
  | None => checked_add_usize bytes inode_key_len
  end.

Definition completed_root_logical_bytes (id : InodeId) : MetadataResult Z :=
  checked_add_usize inode_key_len detached_root_key_len.

(** The loops of [logical_batch_bytes]. *)
Fixpoint add_entries_bytes (bytes : Z) (entries : list DetachedRootReclaimEntry) : MetadataResult Z :=
  match entries with
  | [] => Ok bytes
  | e :: rest =>
      b ← entry_logical_bytes e;
      total ← checked_add_usize bytes b;
      add_entries_bytes total rest
  end.

Fixpoint add_completed_bytes (bytes : Z) (completed : list InodeId) : MetadataResult Z :=
  match completed with
  | [] => Ok bytes
  | id :: rest =>
      b ← completed_root_logical_bytes id;
      total ← checked_add_usize bytes b;
      add_completed_bytes total rest
  end.

Definition logical_batch_bytes (u : DetachedRootReclaimUpdate) (rs : RaftState) : MetadataResult Z :=
  bytes ← checked_add_usize raft_state_key_len (raft_state_len rs);
  bytes ← add_entries_bytes bytes (ru_entries u);
  add_completed_bytes bytes (ru_completed u).

Definition validate_detached_root_reclaim_command (candidates : list InodeId) (max_entries max_bytes : Z)
  : MetadataResult unit :=
  reject_if (bool_decide (candidates = [])
             || (MAX_RECLAIM_DETACHED_ROOT_CANDIDATES <? Z.of_nat (length candidates))
             || existsb (fun id => bool_decide (id = 0)) candidates)
    (Internal "invalid detached-root candidate count or identity");;
  reject_if (bool_decide (max_entries = 0) || (MAX_RECLAIM_DETACHED_ROOT_ENTRIES <? max_entries))
    (Internal "invalid detached-root entry budget");;
  reject_if ((max_bytes <? MIN_RECLAIM_DETACHED_ROOT_BATCH_BYTES)
             || (MAX_RECLAIM_DETACHED_ROOT_BATCH_BYTES <? max_bytes))
    (Internal "invalid detached-root byte budget").

Definition validate_detached_root (s : Store) (root_id : InodeId) (marker : DetachedRoot)
  : MetadataResult InodeId :=
  root ← ok_or (get_inode s root_id) (Internal "DetachedRoot has no directory inode");
  reject_if (bool_decide (inode_id root ≠ root_id)) (Internal "DetachedRoot inode key contains another inode");;
  reject_if (negb (is_dir root)) (Internal "DetachedRoot inode is not a directory");;
  reject_if (bool_decide (inode_mount_id root ≠ dr_mount_id marker))
    (Internal "DetachedRoot inode belongs to another mount");;
  mount ← ok_or (get_mount s (dr_mount_id marker)) (Internal "DetachedRoot references missing mount");
  reject_if (bool_decide (mount_id mount ≠ dr_mount_id marker)) (Internal "mount key contains another mount");;
  reject_if (bool_decide (root_inode_id mount = root_id)) (Internal "mount root inode cannot be a DetachedRoot");;
  Ok (root_inode_id mount).

Definition prepare_detached_root_entry (s : Store) (parent_id : InodeId) (name : string)
    (child_id : InodeId) (marker : DetachedRoot) (mount_root : InodeId)
  : MetadataResult DetachedRootReclaimEntry :=
  reject_if (bool_decide (name = EmptyString) || (MAX_PATH_COMPONENT_BYTES <? str_len name)
             || contains_char slash name || contains_char nul name)
    (Internal "invalid dentry name under DetachedRoot");;
  reject_if (bool_decide (child_id = 0)) (Internal "DetachedRoot references zero child inode");;
  child_marker ← get_detached_root s child_id;
  reject_if (bool_decide (child_marker ≠ None))
    (Internal "inode is both reachable from DetachedRoot and independently detached");;
  child ← ok_or (get_inode s child_id) (Internal "DetachedRoot references missing child inode");
  reject_if (bool_decide (inode_id child ≠ child_id)) (Internal "inode key contains another inode");;
  reject_if (bool_decide (inode_mount_id child ≠ dr_mount_id marker))
    (Internal "DetachedRoot crosses to another mount");;
  child_detached ←
    match inode_kind child with
    | KDir =>
        reject_if (bool_decide (child_id = mount_root)) (Internal "DetachedRoot reaches mount root inode");;
        Ok (Some marker)
    | KFile _ => Ok None
    end;
  Ok (mk_ReclaimEntry parent_id name child_id child_detached).

(** The local variables of the loop. [rc_bytes] is [logical_batch_bytes] of the
    source, [rc_planned] its [planned_entry_inode_ids]. *)
Record ReclaimState := mk_ReclaimState {
  rc_update : DetachedRootReclaimUpdate;
  rc_bytes : Z;
  rc_seen : gset InodeId;
  rc_planned : gset InodeId;
  rc_processed : Z;
  rc_created : Z
}.

Definition push_entry (st : ReclaimState) (e : DetachedRootReclaimEntry) (bytes : Z) : ReclaimState :=
  mk_ReclaimState (mk_ReclaimUpdate (ru_entries (rc_update st) ++ [e]) (ru_completed (rc_update st)))
    bytes (rc_seen st) (rc_planned st) (rc_processed st + 1)
    (rc_created st + match re_child_detached_root e with Some _ => 1 | None => 0 end).

Definition push_completed (st : ReclaimState) (id : InodeId) (bytes : Z) : ReclaimState :=
  mk_ReclaimState (mk_ReclaimUpdate (ru_entries (rc_update st)) (ru_completed (rc_update st) ++ [id]))
    bytes (rc_seen st) (rc_planned st) (rc_processed st) (rc_created st).

Definition plan_inode (st : ReclaimState) (id : InodeId) : ReclaimState :=
  mk_ReclaimState (rc_update st) (rc_bytes st) (rc_seen st) ({[id]} ∪ rc_planned st)
    (rc_processed st) (rc_created st).

Definition see_candidate (st : ReclaimState) (id : InodeId) : ReclaimState :=
  mk_ReclaimState (rc_update st) (rc_bytes st) ({[id]} ∪ rc_seen st) (rc_planned st)
    (rc_processed st) (rc_created st).

Definition update_empty (st : ReclaimState) : bool :=
  bool_decide (ru_entries (rc_update st) = [] /\ ru_completed (rc_update st) = []).

(** How the inner loop ends: page consumed, entry budget reached ([break]), or
    byte budget reached ([break 'candidates]). *)
Inductive PageEnd := Consumed | EntryBudget | ByteBudget.

Fixpoint page_entries (s : Store) (max_entries max_bytes : Z) (root_id : InodeId)
    (marker : DetachedRoot) (mount_root : InodeId) (st : ReclaimState)
    (entries : list (string * InodeId)) : MetadataResult (ReclaimState * PageEnd) :=
  match entries with
  | [] => Ok (st, Consumed)
  | (name, child_id) :: rest =>
      if bool_decide (rc_processed st = max_entries) then Ok (st, EntryBudget)
      else
        reject_if (bool_decide (child_id ∈ rc_planned st))
          (Internal "detached-root forest contains duplicate inode");;
        let st := plan_inode st child_id in
        entry ← prepare_detached_root_entry s root_id name child_id marker mount_root;
        bytes ← entry_logical_bytes entry;
        next ← checked_add_usize (rc_bytes st) bytes;
        if max_bytes <? next
        then reject_if (update_empty st) (Internal "detached-root entry exceeds batch budget");;
             Ok (st, ByteBudget)
        else page_entries s max_entries max_bytes root_id marker mount_root (push_entry st entry next) rest
  end.

(** The loop over the candidates. *)
Fixpoint reclaim_loop (s : Store) (max_entries max_bytes : Z) (st : ReclaimState)
    (candidates : list InodeId) : MetadataResult ReclaimState :=
  match candidates with
  | [] => Ok st
  | root_id :: rest =>
      if bool_decide (root_id ∈ rc_seen st) then reclaim_loop s max_entries max_bytes st rest
      else
        let st := see_candidate st root_id in
        found ← get_detached_root s root_id;
        match found with
        | None => reclaim_loop s max_entries max_bytes st rest
        | Some marker =>
            mount_root ← validate_detached_root s root_id marker;
            let scan_limit := Z.max (Z.max (max_entries - rc_processed st) 0) 1 in
            '(entries, eof) ← list_dentries_for_reclaim s root_id (Z.to_nat scan_limit);
            '(st, how) ← page_entries s max_entries max_bytes root_id marker mount_root st entries;
            match how with
            | ByteBudget => Ok st
            | EntryBudget => reclaim_loop s max_entries max_bytes st rest
            | Consumed =>
                if eof : bool then
                  bytes ← completed_root_logical_bytes root_id;
                  next ← checked_add_usize (rc_bytes st) bytes;
                  if max_bytes <? next
                  then reject_if (update_empty st) (Internal "detached-root completion exceeds batch budget");;
                       Ok st
                  else reclaim_loop s max_entries max_bytes (push_completed st root_id next) rest
                else reclaim_loop s max_entries max_bytes st rest
            end
        end
  end.

(** [u32::try_from(_).expect(_)]. *)
Definition expect_u32 (n : Z) : MetadataResult Z :=
  expect (if bool_decide (0 <= n <= u32_max) then Some n else None).

Definition apply_reclaim_detached_roots (s : Store) (candidates : list InodeId)
    (max_entries max_bytes : Z) (rs : RaftState)
  : MetadataResult (Store * DetachedRootReclaimResult) :=
  validate_detached_root_reclaim_command candidates max_entries max_bytes;;
  let update := mk_ReclaimUpdate [] [] in
  bytes ← logical_batch_bytes update rs;
  reject_if (max_bytes <? bytes) (Internal "Raft apply state exceeds detached-root batch budget");;
  st ← reclaim_loop s max_entries max_bytes (mk_ReclaimState update bytes ∅ ∅ 0 0) candidates;
  verified ← logical_batch_bytes (rc_update st) rs;
  reject_if (bool_decide (verified ≠ rc_bytes st)) (Internal "detached-root logical byte accounting diverged");;
  let s' := reclaim_detached_roots_atomic s (rc_update st) rs in
  processed ← expect_u32 (rc_processed st);
  completed ← expect_u32 (Z.of_nat (length (ru_completed (rc_update st))));
  created ← expect_u32 (rc_created st);
  total ← expect_u32 (rc_bytes st);
  Ok (s', mk_ReclaimResult processed completed created total).
End reclaim.
