(* ===== verification/ReclaimProps.v ===== *)
(** * Correctness of detached-root reclamation

    The batch respects its budgets and its byte accounting is exact; it
    preserves the namespace invariant; it only removes state below detached
    roots; and on a consistent store it always succeeds and makes progress. *)

From S2P Require Import Prelude Types Errors Inode Mount Store Namespace Tree NamespaceInv.
From S2P Require Import WriteApply Samples Reclaim.
Local Open Scope Z_scope.

(** ** Effect of the entries on the tree *)

(** The entry describes a dentry of the tree and the kind of its child. *)
Definition entry_valid (I : gmap InodeId Inode) (D : gmap (InodeId * string) InodeId)
    (e : DetachedRootReclaimEntry) : Prop :=
  D !! (re_parent_inode_id e, re_name e) = Some (re_inode_id e) /\
  exists ic, I !! re_inode_id e = Some ic /\
    match re_child_detached_root e with
    | Some d => is_dir ic = true /\ inode_mount_id ic = dr_mount_id d
    | None => is_dir ic = false
    end.

(** The column families a reclamation batch writes. *)
Definition same_rest (s s' : Store) : Prop :=
  s_mounts s' = s_mounts s /\ s_next_inode_id s' = s_next_inode_id s.

Section entries.
Implicit Types (s : Store) (e : DetachedRootReclaimEntry) (es : list DetachedRootReclaimEntry).

Definition after_entries s es : Store := write_batch s (mjoin (reclaim_entry_batch <$> es)).
Definition after_completed s (rs : list InodeId) : Store :=
  write_batch s (mjoin (reclaim_completed_batch <$> rs)).

Record entries_effect (n : Z) s es s' : Prop := {
  ee_tree : tree_of n s';
  ee_rooted : rooted_of s -> rooted_of s';
  ee_rest : same_rest s s';
  ee_inodes : inodes_same n (s_inodes s) (s_inodes s');
  ee_dentries : forall p nm c, s_dentries s' !! (p, nm) = Some c <->
    s_dentries s !! (p, nm) = Some c /\ c ∉ re_inode_id <$> es;
  ee_detached : forall r, is_Some (s_detached s !! r) -> is_Some (s_detached s' !! r);
  ee_others : forall k, k ∉ re_inode_id <$> es -> s_inodes s' !! k = s_inodes s !! k
}.

(** One entry. *)
Lemma entry_effect n s e :
  tree_of n s -> entry_valid (s_inodes s) (s_dentries s) e ->
  entries_effect n s [e] (write_batch s (reclaim_entry_batch e)).
Proof.
  intros HT (Hd & ic & Hic & Hm). destruct e as [p nm c [d|]]; simpl in *.
  - destruct Hm as [Hdir Hmnt].
    pose proof (tree_detach HT p nm c ic d Hd Hic Hdir Hmnt) as HT'.
    pose proof (fun HR => rooted_detach HT HR p nm c d Hd) as HR'.
    destruct s; unfold tree_of, rooted_of in *; simpl in *. split; simpl; try done.
    + apply inodes_le_refl.
    + intros q nm' x. rewrite lookup_delete_Some. split.
      * intros [Hne Hx]. split; [done|]. intros ->%list_elem_of_singleton.
        destruct (ti_unique _ _ _ _ _ HT _ _ _ _ _ Hd Hx) as [-> ->]. done.
      * intros [Hx Hne]. split; [|done]. intros [= <- <-]. set_solver.
    + intros r Hr. rewrite lookup_insert. case_decide; [eauto|done].
  - assert (forall x, ~ child (s_dentries s) c x) as Hleaf by by eapply file_has_no_children.
    pose proof (tree_remove HT p nm c Hd Hleaf) as HT'.
    pose proof (fun HR => rooted_remove HT HR p nm c Hd Hleaf) as HR'.
    destruct s; unfold tree_of, rooted_of in *; simpl in *. split; simpl; try done.
    + apply inodes_le_delete, inodes_le_refl.
    + intros q nm' x. rewrite lookup_delete_Some. split.
      * intros [Hne Hx]. split; [done|]. intros ->%list_elem_of_singleton.
        destruct (ti_unique _ _ _ _ _ HT _ _ _ _ _ Hd Hx) as [-> ->]. done.
      * intros [Hx Hne]. split; [|done]. intros [= <- <-]. set_solver.
    + intros k Hk. rewrite lookup_delete_ne; [done|]. set_solver.
Qed.

Lemma entries_step n s es :
  tree_of n s -> Forall (entry_valid (s_inodes s) (s_dentries s)) es ->
  NoDup (re_inode_id <$> es) -> entries_effect n s es (after_entries s es).
Proof.
  unfold after_entries. revert s. induction es as [|e es IH]; intros s HT Hv Hnd.
  { split; simpl; try done; [apply inodes_le_refl|]. intros. set_solver. }
  apply Forall_cons in Hv as [He Hes]. csimpl in Hnd. apply NoDup_cons in Hnd as [Hne Hnd].
  destruct (entry_effect n s e HT He) as [HT1 HR1 [HM1 HN1] HI1 HD1 HE1 HO1].
  set (s1 := write_batch s (reclaim_entry_batch e)) in *.
  destruct (IH s1 HT1) as [HT2 HR2 [HM2 HN2] HI2 HD2 HE2 HO2]; [|done|].
  { eapply Forall_impl; [apply Forall_and; split; [apply Hes|]|].
    - apply Forall_forall. intros e' Hin. exact (Hin : e' ∈ es).
    - intros e' [(Hd & ic & Hic & Hm) Hin]. simpl in Hin.
      assert (re_inode_id e' <> re_inode_id e).
      { intros Heq. apply Hne. rewrite <-Heq. by apply list_elem_of_fmap_2. }
      split; [apply HD1; set_solver|]. exists ic. split; [|done]. rewrite HO1; [done|set_solver]. }
  replace (write_batch s (mjoin (reclaim_entry_batch <$> e :: es)))
    with (write_batch s1 (mjoin (reclaim_entry_batch <$> es)))
    by (unfold s1; rewrite <-write_batch_app; done).
  split; try done.
  - auto.
  - split; congruence.
  - eapply inodes_le_trans; [|done|done]. lia.
  - intros p nm c. rewrite HD2, HD1. set_solver.
  - auto.
  - intros k Hk. rewrite HO2, HO1; [done|set_solver|set_solver].
Qed.

Lemma completed_step n s cs :
  tree_of n s -> NoDup cs ->
  Forall (fun r => is_Some (s_detached s !! r) /\ forall x, ~ child (s_dentries s) r x) cs ->
  let s' := after_completed s cs in
  tree_of n s' /\ (rooted_of s -> rooted_of s') /\ same_rest s s' /\
  inodes_same n (s_inodes s) (s_inodes s') /\ s_dentries s' = s_dentries s /\
  (forall k, k ∉ cs -> s_inodes s' !! k = s_inodes s !! k).
Proof.
  unfold after_completed. revert s. induction cs as [|r cs IH]; intros s HT Hnd Hv.
  { simpl. split_and!; try done. apply inodes_le_refl. }
  apply NoDup_cons in Hnd as [Hne Hnd]. apply Forall_cons in Hv as [[Hr Hleaf] Hcs].
  set (s1 := write_batch s (reclaim_completed_batch r)).
  change (write_batch s _) with (write_batch s1 (mjoin (reclaim_completed_batch <$> cs))).
  pose proof (tree_retire HT r Hr Hleaf) as HT1.
  pose proof (fun HR => rooted_retire HT HR r Hleaf) as HR1.
  assert (s_inodes s1 = delete r (s_inodes s) /\ s_dentries s1 = s_dentries s /\
          s_mounts s1 = s_mounts s /\ s_detached s1 = delete r (s_detached s) /\
          s_next_inode_id s1 = s_next_inode_id s) as (EI & ED & EM & ET & EN) by by destruct s.
  assert (tree_of n s1) as HT1'. { unfold tree_of. by rewrite EI, ED, EM, ET. }
  destruct (IH s1 HT1' Hnd) as (HT2 & HR2 & [HM2 HN2] & HI2 & HD2 & HO2).
  { eapply Forall_impl; [apply Forall_and; split; [apply Hcs|]|].
    - apply Forall_forall. intros r' Hin. exact (Hin : r' ∈ cs).
    - intros r' [[Hr' Hl'] Hin]. simpl in Hin. rewrite ET, ED. split; [|done].
      rewrite lookup_delete_ne; [done|]. by intros ->. }
  split_and!; try done.
  - intros HR. apply HR2. unfold rooted_of. rewrite EI, ED, EM, ET. by apply HR1.
  - split; congruence.
  - apply (inodes_le_trans n n _ (s_inodes s1)); [lia| |done].
    rewrite EI. apply inodes_le_delete, inodes_le_refl.
  - congruence.
  - intros k Hk. rewrite HO2, EI, lookup_delete_ne; [done|set_solver|set_solver].
Qed.
End entries.

(** ** Byte accounting *)

Section accounting.
Context (raft_state_len : RaftState -> Z) (marker_len : DetachedRoot -> Z).
Context (raft_state_len_nonneg : forall rs, 0 <= raft_state_len rs).
Context (marker_len_nonneg : forall d, 0 <= marker_len d).
Implicit Types (e : DetachedRootReclaimEntry) (es : list DetachedRootReclaimEntry).

Definition entry_size e : Z :=
  dentry_key_len (re_name e)
  + match re_child_detached_root e with
    | Some d => detached_root_key_len + marker_len d
    | None => inode_key_len
    end.

Definition entries_size es : Z := foldr Z.add 0 (entry_size <$> es).

(** Exact size of a batch: Raft state, entries, and two keys per retired root. *)
Definition update_size (u : DetachedRootReclaimUpdate) (rs : RaftState) : Z :=
  raft_state_key_len + raft_state_len rs + entries_size (ru_entries u)
  + (inode_key_len + detached_root_key_len) * Z.of_nat (length (ru_completed u)).

Lemma entry_size_nonneg e : 0 <= entry_size e.
Proof using marker_len_nonneg.
  unfold entry_size, dentry_key_len, str_len, detached_root_key_len, inode_key_len.
  destruct (re_child_detached_root e) as [d|]; [pose proof (marker_len_nonneg d)|]; lia.
Qed.

Lemma entries_size_nonneg es : 0 <= entries_size es.
Proof using marker_len_nonneg.
  induction es as [|e es IH]; unfold entries_size in *; csimpl; [done|].
  pose proof (entry_size_nonneg e). lia.
Qed.

Lemma entries_size_snoc es e : entries_size (es ++ [e]) = entries_size es + entry_size e.
Proof. unfold entries_size. induction es as [|e' es IH]; csimpl; [lia|]. rewrite IH. lia. Qed.

Lemma checked_add_usize_Ok a b c : checked_add_usize a b = Ok c <-> c = a + b /\ a + b <= u64_max.
Proof. unfold checked_add_usize. by rewrite ok_or_Ok, checked_add64_Some. Qed.

Lemma entry_logical_bytes_Ok e b :
  entry_logical_bytes marker_len e = Ok b <-> b = entry_size e /\ entry_size e <= u64_max.
Proof using marker_len_nonneg.
  unfold entry_logical_bytes, entry_size, detached_root_key_len, inode_key_len.
  destruct (re_child_detached_root e) as [d|].
  - pose proof (marker_len_nonneg d). rewrite bind_Ok. setoid_rewrite checked_add_usize_Ok. split.
    + intros (x & [-> ?] & [-> ?]). lia.
    + intros [-> ?]. eexists. split; [split; [done|]|]; lia.
  - by rewrite checked_add_usize_Ok.
Qed.

Lemma add_entries_bytes_Ok b es t :
  0 <= b -> add_entries_bytes marker_len b es = Ok t <->
  t = b + entries_size es /\ (es = [] \/ t <= u64_max).
Proof using marker_len_nonneg.
  revert b. induction es as [|e es IH]; intros b Hb; unfold entries_size; csimpl.
  { split; [intros [= ->]; split; [lia|by left]|intros [-> _]; f_equal; lia]. }
  pose proof (entry_size_nonneg e). pose proof (entries_size_nonneg es).
  rewrite bind_Ok. setoid_rewrite entry_logical_bytes_Ok. setoid_rewrite bind_Ok.
  setoid_rewrite checked_add_usize_Ok. fold (entries_size es). split.
  - intros (x & [-> ?] & y & [-> ?] & Hr). apply IH in Hr as [-> Hr]; [|lia].
    split; [lia|]. right. destruct Hr as [->|]; unfold entries_size in *; simpl in *; lia.
  - intros [-> [|Ht]]; [done|]. eexists. split; [split; [done|lia]|].
    eexists. split; [split; [done|lia]|]. apply IH; [lia|]. split; [lia|by right].
Qed.

Lemma add_completed_bytes_Ok b cs t :
  0 <= b -> add_completed_bytes b cs = Ok t <->
  t = b + (inode_key_len + detached_root_key_len) * Z.of_nat (length cs) /\ (cs = [] \/ t <= u64_max).
Proof.
  unfold inode_key_len, detached_root_key_len. revert b.
  induction cs as [|c cs IH]; intros b Hb; cbn [add_completed_bytes length].
  { split; [intros [= ->]; split; [lia|by left]|intros [-> _]; f_equal; lia]. }
  unfold completed_root_logical_bytes. rewrite bind_Ok. setoid_rewrite bind_Ok.
  setoid_rewrite checked_add_usize_Ok. unfold inode_key_len, detached_root_key_len. split.
  - intros (x & [-> ?] & y & [-> ?] & Hr). apply IH in Hr as [-> Hr]; [|lia].
    split; [lia|]. right. destruct Hr as [->|]; simpl in *; lia.
  - intros [-> [|Ht]]; [done|]. unfold u64_max in *. eexists. split; [split; [done|lia]|].
    eexists. split; [split; [done|lia]|]. apply IH; [lia|]. split; [lia|]. right. lia.
Qed.

Lemma logical_batch_bytes_Ok u rs t :
  logical_batch_bytes raft_state_len marker_len u rs = Ok t <-> t = update_size u rs /\ t <= u64_max.
Proof using raft_state_len_nonneg marker_len_nonneg.
  unfold logical_batch_bytes, update_size. pose proof (raft_state_len_nonneg rs).
  pose proof (entries_size_nonneg (ru_entries u)).
  rewrite bind_Ok. setoid_rewrite bind_Ok. setoid_rewrite checked_add_usize_Ok.
  unfold raft_state_key_len. split.
  - intros (x & [-> ?] & y & Hy & Ht). apply add_entries_bytes_Ok in Hy as [-> Hy]; [|lia].
    apply add_completed_bytes_Ok in Ht as [-> Ht]; [|lia]. split; [lia|].
    unfold inode_key_len, detached_root_key_len in *.
    destruct Ht as [E|]; [rewrite E in *|lia]. destruct Hy as [E'|]; [rewrite E' in *|simpl; lia].
    unfold entries_size; simpl. lia.
  - intros [-> Ht]. unfold inode_key_len, detached_root_key_len in *.
    eexists. split; [split; [done|lia]|]. eexists. split.
    + apply add_entries_bytes_Ok; [lia|]. split; [done|]. right. lia.
    + apply add_completed_bytes_Ok; [lia|]. unfold inode_key_len, detached_root_key_len.
      split; [lia|]. right. lia.
Qed.
End accounting.

(** ** The loop *)

Section loop.
Context (raft_state_len : RaftState -> Z) (marker_len : DetachedRoot -> Z).
Context (raft_state_len_nonneg : forall rs, 0 <= raft_state_len rs).
Context (marker_len_nonneg : forall d, 0 <= marker_len d).
Context (s : Store) (rs : RaftState) (max_entries max_bytes : Z).
Implicit Types (st : ReclaimState).

Notation size u := (update_size raft_state_len marker_len u rs).
Notation planned_ids st := (re_inode_id <$> ru_entries (rc_update st)).

Record rc_inv st : Prop := {
  ri_bytes : rc_bytes st = size (rc_update st);
  ri_max : rc_bytes st <= max_bytes;
  ri_processed : rc_processed st = Z.of_nat (length (ru_entries (rc_update st)));
  ri_budget : rc_processed st <= max_entries;
  ri_created : 0 <= rc_created st <= rc_processed st;
  ri_valid : Forall (entry_valid (s_inodes s) (s_dentries s)) (ru_entries (rc_update st));
  ri_parent : Forall (fun e => is_Some (s_detached s !! re_parent_inode_id e)) (ru_entries (rc_update st));
  ri_nodup : NoDup (planned_ids st);
  ri_planned : forall c, c ∈ planned_ids st -> c ∈ rc_planned st;
  ri_seen : forall c, c ∈ rc_planned st ->
    exists p nm, s_dentries s !! (p, nm) = Some c /\ p ∈ rc_seen st;
  ri_cnodup : NoDup (ru_completed (rc_update st));
  ri_cseen : forall r, r ∈ ru_completed (rc_update st) -> r ∈ rc_seen st;
  ri_completed : Forall (fun r => is_Some (s_detached s !! r) /\
    forall nm c, s_dentries s !! (r, nm) = Some c -> c ∈ planned_ids st) (ru_completed (rc_update st))
}.

Lemma prepare_entry_Ok root nm c d mr e :
  prepare_detached_root_entry s root nm c d mr = Ok e ->
  re_parent_inode_id e = root /\ re_name e = nm /\ re_inode_id e = c /\ c <> 0 /\
  exists ic, s_inodes s !! c = Some ic /\
    match re_child_detached_root e with
    | Some d' => is_dir ic = true /\ inode_mount_id ic = dr_mount_id d' /\ d' = d
    | None => is_dir ic = false
    end.
Proof.
  unfold prepare_detached_root_entry. intros H. unbind H as [] Hn. unbind H as [] Hz.
  unbind H as mk Hmk. unbind H as [] Hmn. unbind H as ic Hic. unbind H as [] Hid. unbind H as [] Hm.
  unbind H as cd Hcd. injection H as <-. simpl. bool_prop. split_and!; try done.
  exists ic. split; [done|]. unfold is_dir. destruct (inode_kind ic); [by simplify_eq|].
  unbind Hcd as [] Hr. by simplify_eq.
Qed.

Lemma rc_inv_push st root nm c d mr e :
  rc_inv st -> s_dentries s !! (root, nm) = Some c -> is_Some (s_detached s !! root) ->
  root ∈ rc_seen st -> c ∉ rc_planned st ->
  prepare_detached_root_entry s root nm c d mr = Ok e ->
  rc_bytes st + entry_size marker_len e <= max_bytes -> rc_processed st < max_entries ->
  rc_inv (push_entry (plan_inode st c) e (rc_bytes st + entry_size marker_len e)).
Proof.
  intros [] Hd Hr Hroot Hc He Hmax Hb. apply prepare_entry_Ok in He as (<- & <- & <- & _ & ic & Hic & Hk).
  destruct st as [[es cs] b sn pl pr cr]; simpl in *. split; simpl; try done.
  - unfold update_size in *. simpl in *. rewrite entries_size_snoc. lia.
  - rewrite length_app. simpl. lia.
  - lia.
  - destruct (re_child_detached_root e); lia.
  - apply Forall_app. split; [done|]. apply Forall_singleton. split; [done|]. exists ic. split; [done|].
    destruct (re_child_detached_root e); [|done]. by destruct Hk as (? & ? & _).
  - apply Forall_app. split; [done|]. by apply Forall_singleton.
  - rewrite fmap_app. apply NoDup_app. split_and!; [done| |apply NoDup_singleton].
    intros x Hx ->%list_elem_of_singleton. apply Hc. auto.
  - rewrite fmap_app. set_solver.
  - intros x [->%elem_of_singleton|Hx]%elem_of_union; [eauto|]. auto.
  - eapply Forall_impl; [done|]. simpl. intros r [? Hall]. split; [done|].
    intros nm c Hl. rewrite fmap_app. apply elem_of_app. left. eauto.
Qed.

Lemma rc_inv_plan st c root nm :
  rc_inv st -> s_dentries s !! (root, nm) = Some c -> root ∈ rc_seen st -> rc_inv (plan_inode st c).
Proof.
  intros [] Hd Hr. destruct st as [[es cs] b sn pl pr cr]; simpl in *. split; simpl; try done.
  - intros x Hx. apply elem_of_union. right. auto.
  - intros x [->%elem_of_singleton|Hx]%elem_of_union; [eauto|]. auto.
Qed.

Lemma rc_inv_see st r : rc_inv st -> rc_inv (see_candidate st r).
Proof.
  intros []. destruct st as [[es cs] b sn pl pr cr]; simpl in *. split; simpl; try done.
  - intros x Hx. destruct (ri_seen0 x Hx) as (p & nm & ? & ?). exists p, nm. set_solver.
  - set_solver.
Qed.

Lemma rc_inv_complete st r :
  rc_inv st -> r ∈ rc_seen st -> r ∉ ru_completed (rc_update st) -> is_Some (s_detached s !! r) ->
  (forall nm c, s_dentries s !! (r, nm) = Some c -> c ∈ planned_ids st) ->
  rc_bytes st + (inode_key_len + detached_root_key_len) <= max_bytes ->
  rc_inv (push_completed st r (rc_bytes st + (inode_key_len + detached_root_key_len))).
Proof.
  intros [] Hseen Hnew Hr Hall Hmax. destruct st as [[es cs] b sn pl pr cr]; simpl in *.
  split; simpl; try done.
  - unfold update_size in *. simpl in *. rewrite length_app. simpl. lia.
  - apply NoDup_app. split_and!; [done| |apply NoDup_singleton]. set_solver.
  - set_solver.
  - apply Forall_app. split; [done|]. by apply Forall_singleton.
Qed.

(** What the inner loop does with one page of a detached root. *)
Lemma page_entries_inv root d mr st page st' how :
  rc_inv st -> is_Some (s_detached s !! root) -> root ∈ rc_seen st ->
  (forall nm c, (nm, c) ∈ page -> s_dentries s !! (root, nm) = Some c) ->
  page_entries marker_len s max_entries max_bytes root d mr st page = Ok (st', how) ->
  rc_inv st' /\ rc_seen st' = rc_seen st /\ ru_completed (rc_update st') = ru_completed (rc_update st) /\
  (forall c, c ∈ planned_ids st -> c ∈ planned_ids st') /\
  (how = Consumed -> forall nm c, (nm, c) ∈ page -> c ∈ planned_ids st').
Proof using raft_state_len_nonneg marker_len_nonneg.
  revert st. induction page as [|[nm c] page IH]; intros st Hinv Hr Hseen Hpage H; simpl in H.
  { simplify_eq. split_and!; try done. set_solver. }
  case_bool_decide as Hbud; [simplify_eq; by split_and!|].
  unbind H as [] Hpl. bool_prop. unbind H as e He. unbind H as b Hb. unbind H as nx Hnx.
  apply entry_logical_bytes_Ok in Hb as [-> _]; [|done]. apply checked_add_usize_Ok in Hnx as [-> _].
  assert (s_dentries s !! (root, nm) = Some c) as Hd by (apply Hpage; left).
  destruct (Z.ltb_spec max_bytes (rc_bytes st + entry_size marker_len e)) as [Hlt|Hle].
  { unbind H as [] Hemp. simplify_eq. split_and!; try done. by eapply rc_inv_plan. }
  pose proof Hinv as [].
  apply IH in H as (Hinv' & Hs' & Hc' & Hmono & Hall).
  - split_and!; try done.
    + intros x Hx. apply Hmono. simpl. rewrite fmap_app. set_solver.
    + intros -> nm' c' [[= -> ->]|Hin]%elem_of_cons; [|by eapply Hall].
      apply Hmono. simpl. rewrite fmap_app. apply prepare_entry_Ok in He as (_ & _ & <- & _). set_solver.
  - eapply rc_inv_push; try done. lia.
  - done.
  - done.
  - intros nm' c' Hin. apply Hpage. by right.
Qed.

Lemma reclaim_loop_inv st cands st' :
  rc_inv st -> reclaim_loop marker_len s max_entries max_bytes st cands = Ok st' ->
  rc_inv st' /\
  (Z.of_nat (length (ru_completed (rc_update st')))
   <= Z.of_nat (length (ru_completed (rc_update st))) + Z.of_nat (length cands)).
Proof using raft_state_len_nonneg marker_len_nonneg.
  revert st. induction cands as [|r cands IH]; intros st Hinv H; simpl in H.
  { simplify_eq. split; [done|simpl; lia]. }
  case_bool_decide as Hseen.
  { apply IH in H as [? ?]; [|done]. split; [done|simpl; lia]. }
  unbind H as found Hf. unfold get_detached_root in Hf.
  apply (rc_inv_see _ r) in Hinv as Hinv1.
  destruct (s_detached s !! r) as [d|] eqn:Hd; cycle 1.
  { simplify_eq. apply IH in H as [? ?]; [|done]. simpl in *. split; [done|lia]. }
  unbind Hf as [] Hz. injection Hf as <-. unbind H as mr Hmr. unbind H as [page eof] Hpg.
  unbind H as [st1 how] Hpe.
  unfold list_dentries_for_reclaim in Hpg. unbind Hpg as [] Hlim. injection Hpg as <- <-.
  apply page_entries_inv in Hpe as (Hinv2 & Hs2 & Hc2 & _ & Hall);
    [|done|by eauto|simpl; set_solver|].
  2: { intros nm c Hin. apply elem_of_dir_entries. by eapply elem_of_sublist, sublist_take. }
  simpl in Hs2, Hc2. destruct how.
  - case_bool_decide as Heof.
    + unbind H as nx Hnx. apply checked_add_usize_Ok in Hnx as [-> _].
      destruct (Z.ltb_spec max_bytes (rc_bytes st1 + (inode_key_len + detached_root_key_len))) as [Hlt|Hle].
      { unbind H as [] Hemp. simplify_eq. split; [done|]. rewrite Hc2. simpl. lia. }
      apply IH in H as [? Hlen].
      * split; [done|]. simpl in *. rewrite length_app, Hc2 in Hlen. simpl in *. lia.
      * apply rc_inv_complete; [done|rewrite Hs2; set_solver| |by eauto| |done].
        -- rewrite Hc2. intros Hin. apply Hseen. by apply (ri_cseen _ Hinv).
        -- intros nm c Hl. apply (Hall eq_refl nm). rewrite take_ge by done. by apply elem_of_dir_entries.
    + apply IH in H as [? Hlen]; [|done]. rewrite Hc2 in Hlen. simpl in *. split; [done|lia].
  - apply IH in H as [? Hlen]; [|done]. rewrite Hc2 in Hlen. simpl in *. split; [done|lia].
  - simplify_eq. split; [done|]. rewrite Hc2. simpl. lia.
Qed.
End loop.

(** ** The whole command *)

Lemma expect_u32_Ok n m : expect_u32 n = Ok m <-> m = n /\ 0 <= n <= u32_max.
Proof. unfold expect_u32. rewrite expect_Ok. case_bool_decide; naive_solver. Qed.

Section command.
Context (raft_state_len : RaftState -> Z) (marker_len : DetachedRoot -> Z).
Context (raft_state_len_nonneg : forall rs, 0 <= raft_state_len rs).
Context (marker_len_nonneg : forall d, 0 <= marker_len d).

Lemma rc_inv_init s rs max_entries max_bytes bytes :
  logical_batch_bytes raft_state_len marker_len (mk_ReclaimUpdate [] []) rs = Ok bytes ->
  bytes <= max_bytes -> 0 <= max_entries ->
  rc_inv raft_state_len marker_len s rs max_entries max_bytes
    (mk_ReclaimState (mk_ReclaimUpdate [] []) bytes ∅ ∅ 0 0).
Proof using raft_state_len_nonneg marker_len_nonneg.
  intros Hb Hmax He. apply logical_batch_bytes_Ok in Hb as [-> _]; [|done|done].
  split; simpl; try done; (constructor || set_solver).
Qed.

Lemma apply_reclaim_Ok s cands max_entries max_bytes rs s' r :
  0 <= max_entries ->
  apply_reclaim_detached_roots raft_state_len marker_len s cands max_entries max_bytes rs = Ok (s', r) ->
  exists st, rc_inv raft_state_len marker_len s rs max_entries max_bytes st /\
    s' = reclaim_detached_roots_atomic s (rc_update st) rs /\
    r = mk_ReclaimResult (rc_processed st) (Z.of_nat (length (ru_completed (rc_update st))))
          (rc_created st) (rc_bytes st) /\
    Z.of_nat (length (ru_completed (rc_update st))) <= Z.of_nat (length cands) /\
    reclaim_loop marker_len s max_entries max_bytes
      (mk_ReclaimState (mk_ReclaimUpdate [] [])
         (update_size raft_state_len marker_len (mk_ReclaimUpdate [] []) rs) ∅ ∅ 0 0) cands = Ok st.
Proof using raft_state_len_nonneg marker_len_nonneg.
  intros Hme. unfold apply_reclaim_detached_roots. intros H.
  unbind H as [] Hval. unbind H as b Hb. unbind H as [] Hbm. unbind H as st Hst.
  unbind H as v Hv. unbind H as [] Hdiv. unbind H as p Hp. unbind H as c Hc. unbind H as cr Hcr.
  unbind H as t Ht. injection H as <- <-. bool_prop.
  pose proof Hb as Hb'. apply logical_batch_bytes_Ok in Hb' as [E _]; [|done|done]. rewrite E in *.
  pose proof Hst as Hinv. eapply reclaim_loop_inv in Hinv as [Hinv Hlen]; [|done|done|by apply rc_inv_init].
  apply expect_u32_Ok in Hp as [-> _], Hc as [-> _], Hcr as [-> _], Ht as [-> _].
  exists st. by split_and!.
Qed.

Lemma reclaim_effect n s rs max_entries max_bytes st :
  tree_of n s -> rc_inv raft_state_len marker_len s rs max_entries max_bytes st ->
  let s1 := after_entries s (ru_entries (rc_update st)) in
  let s2 := after_completed s1 (ru_completed (rc_update st)) in
  entries_effect n s (ru_entries (rc_update st)) s1 /\
  tree_of n s2 /\ (rooted_of s1 -> rooted_of s2) /\ same_rest s1 s2 /\
  inodes_same n (s_inodes s1) (s_inodes s2) /\ s_dentries s2 = s_dentries s1 /\
  (forall k, k ∉ ru_completed (rc_update st) -> s_inodes s2 !! k = s_inodes s1 !! k).
Proof.
  intros HT [] s1 s2. assert (entries_effect n s (ru_entries (rc_update st)) s1) as He
    by by apply entries_step.
  split; [done|]. destruct He. apply completed_step; [done|done|].
  eapply Forall_impl; [done|]. simpl. intros r [Hr Hall]. split; [auto|].
  intros x [nm Hx]. apply ee_dentries0 in Hx as [Hx Hnx]. by apply Hnx, (Hall nm).
Qed.

(** The committed store differs from the two phases only in its Raft state. *)
Lemma reclaim_store s u rs :
  let s' := reclaim_detached_roots_atomic s u rs in
  let s2 := after_completed (after_entries s (ru_entries u)) (ru_completed u) in
  same_tree s2 s'.
Proof.
  unfold reclaim_detached_roots_atomic, commit_authority_batch, after_completed, after_entries.
  rewrite !write_batch_app. by destruct (write_batch (write_batch s _) _).
Qed.

Lemma apply_reclaim_step n s cands max_entries max_bytes rs s' r :
  ready n s -> 0 <= max_entries ->
  apply_reclaim_detached_roots raft_state_len marker_len s cands max_entries max_bytes rs = Ok (s', r) ->
  shape_step n s s' /\ (rooted_of s -> rooted_of s').
Proof using raft_state_len_nonneg marker_len_nonneg.
  intros [Hnext Hn HT] Hme H. apply apply_reclaim_Ok in H as (st & Hinv & -> & _); [|done].
  pose proof (reclaim_store s (rc_update st) rs) as (E1 & E2 & E3 & E4 & E5).
  destruct (reclaim_effect n s rs max_entries max_bytes st HT Hinv)
    as ([HT1 HR1 [HM1 HN1] HI1 _ _ _] & HT2 & HR2 & [HM2 HN2] & HI2 & _).
  unfold rooted_of. rewrite E1, E2, E3, E4. split; [|by intros HR; apply HR2, HR1].
  exists n. split_and!; [done| |congruence|].
  - split; [congruence|done|]. unfold tree_of. by rewrite E1, E2, E3, E4.
  - rewrite E1. eapply inodes_le_trans; [|done|done]. lia.
Qed.
End command.

(** ** Totality and progress *)

Section totality.
Context (raft_state_len : RaftState -> Z) (marker_len : DetachedRoot -> Z).
Context (raft_state_len_nonneg : forall rs, 0 <= raft_state_len rs).
(** A marker is two variable-length integers of at most nine bytes. *)
Context (marker_len_bound : forall d, 0 <= marker_len d <= 18).
Context (n : Z) (s : Store) (HT : tree_of n s) (rs : RaftState) (max_entries max_bytes : Z).
Context (Hentries : 1 <= max_entries) (Hbytes : max_bytes <= MAX_RECLAIM_DETACHED_ROOT_BATCH_BYTES).
(** One entry always fits beside the Raft state. *)
Context (Hfits : raft_state_key_len + raft_state_len rs + 296 <= max_bytes).
Implicit Types (st : ReclaimState).

Notation inv := (rc_inv raft_state_len marker_len s rs max_entries max_bytes).

Lemma get_detached_root_total r : get_detached_root s r = Ok (s_detached s !! r).
Proof.
  unfold get_detached_root. destruct (s_detached s !! r) as [d|] eqn:Hd; [|done].
  destruct (ti_detached _ _ _ _ _ HT _ _ Hd) as ((i & Hi & _ & Hm) & _).
  destruct (ti_inode _ _ _ _ _ HT _ _ Hi) as (_ & _ & _ & [e He]).
  destruct (ti_mount _ _ _ _ _ HT _ _ He) as (_ & Hnz & _).
  rewrite bool_decide_eq_false_2; [done|congruence].
Qed.

Lemma validate_detached_root_total r d :
  s_detached s !! r = Some d ->
  exists mr, validate_detached_root s r d = Ok mr /\ is_mount_root (s_mounts s) mr.
Proof.
  intros Hd. destruct (ti_detached _ _ _ _ _ HT _ _ Hd) as ((i & Hi & Hdir & Hm) & _ & Hnr).
  destruct (ti_inode _ _ _ _ _ HT _ _ Hi) as (Hid & _ & _ & [e He]). rewrite Hm in He.
  destruct (ti_mount _ _ _ _ _ HT _ _ He) as (Hme & _).
  exists (root_inode_id e). split; [|by exists (dr_mount_id d), e].
  unfold validate_detached_root, get_inode, get_mount. rewrite Hi. simpl.
  rewrite (bool_decide_eq_false_2 (inode_id i ≠ r)) by same. rewrite Hdir. simpl.
  rewrite (bool_decide_eq_false_2 (inode_mount_id i ≠ _)) by same. rewrite He. simpl.
  rewrite (bool_decide_eq_false_2 (mount_id e ≠ _)) by same. simpl.
  rewrite bool_decide_eq_false_2; [done|]. intros E. apply Hnr. by exists (dr_mount_id d), e.
Qed.

Lemma prepare_entry_total r d mr nm c :
  s_detached s !! r = Some d -> is_mount_root (s_mounts s) mr -> s_dentries s !! (r, nm) = Some c ->
  exists e, prepare_detached_root_entry s r nm c d mr = Ok e.
Proof.
  intros Hd (m & em & Hem & Hmr) Hc.
  destruct (ti_dentry _ _ _ _ _ HT _ _ _ Hc) as ((Hn1 & Hn2 & Hn3 & Hn4) & ip & ic & Hp & _ & Hic & Hm).
  destruct (ti_detached _ _ _ _ _ HT _ _ Hd) as ((ip' & Hp' & _ & Hpm) & _).
  assert (ip' = ip) as -> by congruence.
  destruct (ti_inode _ _ _ _ _ HT _ _ Hic) as (Hid & Hrange & _).
  unfold prepare_detached_root_entry, get_inode.
  rewrite (bool_decide_eq_false_2 (nm = EmptyString)) by done. rewrite Hn2, Hn3.
  rewrite (proj2 (Z.ltb_ge _ _) Hn4). simpl.
  rewrite (bool_decide_eq_false_2 (c = 0)) by lia. simpl. rewrite get_detached_root_total. simpl.
  destruct (s_detached s !! c) as [dc|] eqn:Hdc.
  { destruct (ti_detached _ _ _ _ _ HT _ _ Hdc) as (_ & Hnc & _). exfalso. apply (Hnc r). by exists nm. }
  simpl. rewrite Hic. simpl. rewrite (bool_decide_eq_false_2 (inode_id ic ≠ c)) by same. simpl.
  rewrite (bool_decide_eq_false_2 (inode_mount_id ic ≠ _)) by same. simpl.
  destruct (inode_kind ic); simpl; [by eexists|].
  rewrite (bool_decide_eq_false_2 (c = mr)); [by eexists|]. intros ->.
  destruct (ti_mount _ _ _ _ _ HT _ _ Hem) as (_ & _ & _ & Hnc). apply (Hnc r). rewrite Hmr. by exists nm.
Qed.

Lemma entry_size_bound r d mr nm c e :
  s_dentries s !! (r, nm) = Some c -> prepare_detached_root_entry s r nm c d mr = Ok e ->
  0 <= entry_size marker_len e <= 296.
Proof.
  intros Hc He. apply prepare_entry_Ok in He as (_ & Hnm & _).
  destruct (ti_dentry _ _ _ _ _ HT _ _ _ Hc) as ((_ & _ & _ & Hn4) & _).
  unfold entry_size, dentry_key_len, detached_root_key_len, inode_key_len, MAX_PATH_COMPONENT_BYTES in *.
  rewrite Hnm. unfold str_len in *.
  destruct (re_child_detached_root e) as [d'|]; [pose proof (marker_len_bound d')|]; lia.
Qed.

Lemma update_empty_true st :
  update_empty st = true <-> ru_entries (rc_update st) = [] /\ ru_completed (rc_update st) = [].
Proof. unfold update_empty. by rewrite bool_decide_eq_true. Qed.

Lemma empty_bytes st : inv st -> update_empty st = true ->
  rc_bytes st = raft_state_key_len + raft_state_len rs /\ rc_processed st = 0.
Proof.
  intros [] [E1 E2]%update_empty_true. rewrite ri_processed0, ri_bytes0. unfold update_size.
  rewrite E1, E2. unfold entries_size; simpl. lia.
Qed.

Lemma push_entry_nonempty st e b : update_empty (push_entry st e b) = false.
Proof. unfold update_empty. apply bool_decide_eq_false. simpl. intros [? _]. by destruct (ru_entries (rc_update st)). Qed.

Lemma push_completed_nonempty st r b : update_empty (push_completed st r b) = false.
Proof. unfold update_empty. apply bool_decide_eq_false. simpl. intros [_ ?]. by destruct (ru_completed (rc_update st)). Qed.

Lemma page_entries_total r d mr st page :
  inv st -> s_detached s !! r = Some d -> is_mount_root (s_mounts s) mr -> r ∈ rc_seen st ->
  (forall nm c, (nm, c) ∈ page -> s_dentries s !! (r, nm) = Some c) -> NoDup page ->
  (forall nm c, (nm, c) ∈ page -> c ∉ rc_planned st) ->
  exists st' how, page_entries marker_len s max_entries max_bytes r d mr st page = Ok (st', how) /\
    (update_empty st = false \/ page <> [] -> update_empty st' = false) /\
    (page = [] -> st' = st /\ how = Consumed).
Proof.
  revert st. induction page as [|[nm c] page IH]; intros st Hinv Hd Hmr Hseen Hpage Hnd Hnew; simpl.
  { exists st, Consumed. split_and!; try done. by intros [|]. }
  assert (s_dentries s !! (r, nm) = Some c) as Hc by (apply Hpage; left).
  destruct (decide (rc_processed st = max_entries)) as [Heq|Hlt].
  { rewrite bool_decide_eq_true_2 by done. exists st, EntryBudget. split_and!; try done.
    intros _. destruct (update_empty st) eqn:Hemp; [|done].
    destruct (empty_bytes st Hinv Hemp). lia. }
  rewrite bool_decide_eq_false_2 by done.
  rewrite (bool_decide_eq_false_2 (c ∈ rc_planned st)) by (apply (Hnew nm); left). simpl.
  destruct (prepare_entry_total r d mr nm c Hd Hmr Hc) as [e He]. rewrite He. simpl.
  pose proof (entry_size_bound r d mr nm c e Hc He) as Hsize.
  assert (forall d, 0 <= marker_len d) as Hnn by (intros; apply marker_len_bound).
  pose proof (ri_max _ _ _ _ _ _ _ Hinv) as Hmax. unfold MAX_RECLAIM_DETACHED_ROOT_BATCH_BYTES in Hbytes.
  assert (0 <= rc_bytes st) as Hpos.
  { rewrite (ri_bytes _ _ _ _ _ _ _ Hinv). unfold update_size, raft_state_key_len, inode_key_len, detached_root_key_len.
    pose proof (entries_size_nonneg marker_len Hnn (ru_entries (rc_update st))).
    pose proof (raft_state_len_nonneg rs). lia. }
  rewrite (proj2 (entry_logical_bytes_Ok marker_len Hnn e (entry_size marker_len e)));
    [|unfold u64_max; split; [done|lia]]. simpl.
  rewrite (proj2 (checked_add_usize_Ok (rc_bytes st) (entry_size marker_len e)
             (rc_bytes st + entry_size marker_len e)));
    [|unfold u64_max; split; [done|lia]]. simpl.
  destruct (Z.ltb_spec max_bytes (rc_bytes st + entry_size marker_len e)) as [Hover|Hfit].
  { destruct (update_empty st) eqn:Hemp.
    - destruct (empty_bytes st Hinv Hemp) as [E _]. lia.
    - unfold update_empty in *. simpl. rewrite Hemp. simpl.
      exists (plan_inode st c), ByteBudget. by split_and!. }
  apply NoDup_cons in Hnd as [Hnin Hnd].
  assert (rc_processed st < max_entries) as Hb by (pose proof (ri_budget _ _ _ _ _ _ _ Hinv); lia).
  assert (inv (push_entry (plan_inode st c) e (rc_bytes st + entry_size marker_len e))) as Hinv'.
  { eapply rc_inv_push; try done. apply (Hnew nm). left. }
  destruct (IH (push_entry (plan_inode st c) e (rc_bytes st + entry_size marker_len e)))
    as (st' & how & Hrun & Hne & _); try done.
  - intros nm' c' Hin. apply Hpage. by right.
  - intros nm' c' Hin. simpl. rewrite not_elem_of_union, not_elem_of_singleton.
    split; [|apply (Hnew nm'); by right]. intros ->. apply Hnin.
    assert (s_dentries s !! (r, nm') = Some c) as Hc' by (apply Hpage; by right).
    by destruct (ti_unique _ _ _ _ _ HT _ _ _ _ _ Hc Hc') as [_ ->].
  - exists st', how. split_and!; try done. intros _. apply Hne. left. apply push_entry_nonempty.
Qed.

Lemma reclaim_loop_total st cands :
  inv st ->
  exists st', reclaim_loop marker_len s max_entries max_bytes st cands = Ok st' /\
    (update_empty st = false \/ (exists r, r ∈ cands /\ r ∉ rc_seen st /\ is_Some (s_detached s !! r)) ->
     update_empty st' = false).
Proof.
  assert (forall d, 0 <= marker_len d) as Hnn by (intros; apply marker_len_bound).
  revert st. induction cands as [|r cands IH]; intros st Hinv; cbn [reclaim_loop].
  { exists st. split; [done|]. intros [?|(r & Hr & _)]; [done|]. by apply not_elem_of_nil in Hr. }
  destruct (decide (r ∈ rc_seen st)) as [Hseen|Hnew].
  { rewrite bool_decide_eq_true_2 by done. destruct (IH st Hinv) as (st' & Hrun & Hne).
    exists st'. split; [done|]. intros [?|(r' & Hin & ? & ?)]; apply Hne; [by left|right].
    exists r'. set_solver. }
  rewrite bool_decide_eq_false_2 by done. rewrite get_detached_root_total. simpl.
  assert (inv (see_candidate st r)) as Hinv1 by by apply rc_inv_see.
  destruct (s_detached s !! r) as [d|] eqn:Hd; cycle 1.
  { destruct (IH _ Hinv1) as (st' & Hrun & Hne). exists st'. split; [done|].
    intros [?|(r' & [->|Hin]%elem_of_cons & ? & Hs)]; apply Hne; [by left|by destruct Hs; congruence|right].
    exists r'. simpl. split_and!; try done. destruct (decide (r' = r)) as [->|]; [by destruct Hs; congruence|set_solver]. }
  destruct (validate_detached_root_total r d Hd) as (mr & Hmr & Hroot). rewrite Hmr. simpl.
  unfold list_dentries_for_reclaim.
  set (limit := Z.to_nat (Z.max (Z.max (max_entries - rc_processed st) 0) 1)).
  assert (limit <> 0%nat) as Hlim by lia. rewrite (bool_decide_eq_false_2 (limit = 0%nat)) by done. simpl.
  edestruct (page_entries_total r d mr (see_candidate st r) (take limit (dir_entries s r)))
    as (st1 & how & Hpage & Hne1 & Hnil); try done.
  { simpl. set_solver. }
  { intros nm c Hin. apply elem_of_dir_entries. by eapply elem_of_sublist, sublist_take. }
  { eapply sublist_NoDup; [apply dir_entries_NoDup|apply sublist_take]. }
  { intros nm c Hin Hpl. simpl in Hpl. destruct (ri_seen _ _ _ _ _ _ _ Hinv c Hpl) as (p & nm' & Hp & Hps).
    assert (s_dentries s !! (r, nm) = Some c) as Hc.
    { apply elem_of_dir_entries. by eapply elem_of_sublist, sublist_take. }
    destruct (ti_unique _ _ _ _ _ HT _ _ _ _ _ Hc Hp) as [-> _]. done. }
  rewrite Hpage. simpl. pose proof Hpage as Hinv2.
  eapply page_entries_inv in Hinv2 as (Hinv2 & Hs2 & Hc2 & _ & Hall);
    [|done|done|done|by eauto|simpl; set_solver|].
  2: { intros nm c Hin. apply elem_of_dir_entries. by eapply elem_of_sublist, sublist_take. }
  destruct how.
  - case_bool_decide as Heof.
    + change (inode_key_len + detached_root_key_len) with 22.
      pose proof (ri_max _ _ _ _ _ _ _ Hinv2) as Hmax.
      unfold MAX_RECLAIM_DETACHED_ROOT_BATCH_BYTES in Hbytes.
      rewrite (proj2 (checked_add_usize_Ok (rc_bytes st1) 22 (rc_bytes st1 + 22)));
        [|unfold u64_max; split; [done|lia]]. simpl.
      destruct (Z.ltb_spec max_bytes (rc_bytes st1 + 22)) as [Hover|Hfit].
      * destruct (update_empty st1) eqn:Hemp.
        { destruct (empty_bytes st1 Hinv2 Hemp). lia. }
        simpl. by exists st1.
      * assert (inv (push_completed st1 r (rc_bytes st1 + 22))) as Hinv3.
        { change 22 with (inode_key_len + detached_root_key_len).
          apply rc_inv_complete; try done; [rewrite Hs2; simpl; set_solver|..].
          - rewrite Hc2. intros Hin. apply Hnew. by apply (ri_cseen _ _ _ _ _ _ _ Hinv).
          - intros nm c Hl. apply (Hall eq_refl nm). rewrite take_ge by done. by apply elem_of_dir_entries. }
        destruct (IH _ Hinv3) as (st' & Hrun & Hne). exists st'. split; [done|].
        intros _. apply Hne. left. apply push_completed_nonempty.
    + destruct (IH _ Hinv2) as (st' & Hrun & Hne). exists st'. split; [done|]. intros _. apply Hne. left.
      apply Hne1. right. intros Hnil'. apply Heof. apply (f_equal length) in Hnil'.
      rewrite length_take in Hnil'. simpl in Hnil'. lia.
  - destruct (IH _ Hinv2) as (st' & Hrun & Hne). exists st'. split; [done|]. intros _. apply Hne. left.
    apply Hne1. right. intros Hnil'. by destruct (Hnil Hnil').
  - exists st1. split; [done|]. intros _. apply Hne1. right. intros Hnil'. by destruct (Hnil Hnil').
Qed.
End totality.

(** ** Properties *)

Section properties.
Context (raft_state_len : RaftState -> Z) (marker_len : DetachedRoot -> Z).
Implicit Types (s : Store) (rs : RaftState).

(** A reclamation stays inside its replicated budgets: at most
    [max_entries] children, at most one completion per candidate, and a batch
    whose exact logical size is the reported one and at most [max_batch_bytes]. *)
Theorem reclaim_within_budget s cands max_entries max_bytes rs s' r :
  (forall rs, 0 <= raft_state_len rs) -> (forall d, 0 <= marker_len d) -> 0 <= max_entries ->
  apply_reclaim_detached_roots raft_state_len marker_len s cands max_entries max_bytes rs = Ok (s', r) ->
  0 <= rs_processed_entries r <= max_entries /\
  0 <= rs_completed_roots r <= Z.of_nat (length cands) /\
  0 <= rs_created_roots r <= rs_processed_entries r /\
  rs_logical_batch_bytes r <= max_bytes /\
  exists u, s' = reclaim_detached_roots_atomic s u rs /\
    rs_logical_batch_bytes r = update_size raft_state_len marker_len u rs /\
    rs_processed_entries r = Z.of_nat (length (ru_entries u)) /\
    rs_completed_roots r = Z.of_nat (length (ru_completed u)).
Proof.
  intros Hr Hm Hme H. apply apply_reclaim_Ok in H as (st & [] & -> & -> & Hlen & _); [|done..]. simpl.
  split_and!; try lia. exists (rc_update st). by split_and!.
Qed.

(** C33. Reclamation touches nothing but detached state: a dentry that
    disappears belonged to a detached root, an inode that changes was a detached
    root or a child of one, and no dentry appears or is redirected. *)
Theorem reclaim_only_detached n s cands max_entries max_bytes rs s' r :
  (forall rs, 0 <= raft_state_len rs) -> (forall d, 0 <= marker_len d) -> 0 <= max_entries ->
  ready n s ->
  apply_reclaim_detached_roots raft_state_len marker_len s cands max_entries max_bytes rs = Ok (s', r) ->
  (forall p nm c, s_dentries s !! (p, nm) = Some c ->
     s_dentries s' !! (p, nm) = Some c \/ is_Some (s_detached s !! p)) /\
  (forall p nm c, s_dentries s' !! (p, nm) = Some c -> s_dentries s !! (p, nm) = Some c) /\
  (forall k i, s_inodes s !! k = Some i ->
     s_inodes s' !! k = Some i \/ is_Some (s_detached s !! k) \/
     exists p, is_Some (s_detached s !! p) /\ child (s_dentries s) p k).
Proof.
  intros Hr Hm Hme [Hnext Hn HT] H. apply apply_reclaim_Ok in H as (st & Hinv & -> & _); [|done..].
  pose proof (reclaim_store s (rc_update st) rs) as (E1 & E2 & _).
  destruct (reclaim_effect _ _ n s rs max_entries max_bytes st HT Hinv)
    as ([_ _ _ _ HD _ HO] & _ & _ & _ & _ & HD2 & HO2).
  rewrite E1, E2, HD2. destruct Hinv.
  assert (forall c, c ∈ re_inode_id <$> ru_entries (rc_update st) ->
    exists p nm, s_dentries s !! (p, nm) = Some c /\ is_Some (s_detached s !! p)) as Hentry.
  { intros c (e & -> & He)%list_elem_of_fmap. rewrite Forall_forall in ri_valid0, ri_parent0.
    destruct (ri_valid0 e He) as [Hd _]. eauto. }
  split_and!.
  - intros p nm c Hc. destruct (decide (c ∈ re_inode_id <$> ru_entries (rc_update st))) as [Hin|Hnin].
    + right. destruct (Hentry c Hin) as (p' & nm' & Hc' & Hp').
      by destruct (ti_unique _ _ _ _ _ HT _ _ _ _ _ Hc Hc') as [-> _].
    + left. by apply HD.
  - intros p nm c Hc. by apply HD in Hc as [Hc _].
  - intros k i Hk. destruct (decide (k ∈ ru_completed (rc_update st))) as [Hin|Hnin].
    { right; left. rewrite Forall_forall in ri_completed0. by apply ri_completed0. }
    rewrite HO2 by done.
    destruct (decide (k ∈ re_inode_id <$> ru_entries (rc_update st))) as [Hin|Hnin'].
    + right; right. destruct (Hentry k Hin) as (p & nm & Hc & Hp). exists p. split; [done|by exists nm].
    + left. by rewrite HO.
Qed.

(** On a consistent namespace a well-formed reclamation never
    fails (in particular the accounting never diverges and no invariant failure
    is reported), provided the Raft state leaves room for one entry; and it makes
    progress whenever some candidate is a detached root. *)
Lemma reclaim_progress n s cands max_entries max_bytes rs :
  (forall rs, 0 <= raft_state_len rs) -> (forall d, 0 <= marker_len d <= 18) ->
  ready n s -> validate_detached_root_reclaim_command cands max_entries max_bytes = Ok tt ->
  0 <= max_entries -> raft_state_key_len + raft_state_len rs + 296 <= max_bytes ->
  exists s' r,
    apply_reclaim_detached_roots raft_state_len marker_len s cands max_entries max_bytes rs = Ok (s', r) /\
    ((exists k, k ∈ cands /\ is_Some (s_detached s !! k)) ->
     1 <= rs_processed_entries r + rs_completed_roots r).
Proof.
  intros Hr Hm [Hnext Hn HT] Hval Hme Hfit.
  assert (forall d, 0 <= marker_len d) as Hnn by (intros; apply Hm).
  pose proof Hval as Hbud. unfold validate_detached_root_reclaim_command in Hbud.
  unbind Hbud as [] Hc. unbind Hbud as [] He. apply reject_if_Ok in Hbud. bool_prop.
  unfold MAX_RECLAIM_DETACHED_ROOT_CANDIDATES, MAX_RECLAIM_DETACHED_ROOT_ENTRIES,
    MAX_RECLAIM_DETACHED_ROOT_BATCH_BYTES in *.
  pose proof (Hr rs) as Hr0.
  assert (update_size raft_state_len marker_len (mk_ReclaimUpdate [] []) rs
          = raft_state_key_len + raft_state_len rs) as Hbase.
  { unfold update_size, entries_size. simpl. lia. }
  assert (logical_batch_bytes raft_state_len marker_len (mk_ReclaimUpdate [] []) rs
          = Ok (raft_state_key_len + raft_state_len rs)) as Hinit.
  { apply logical_batch_bytes_Ok; [done|done|]. unfold u64_max. lia. }
  unfold apply_reclaim_detached_roots. rewrite Hval. simpl. rewrite Hinit. simpl.
  rewrite (proj2 (Z.ltb_ge max_bytes (raft_state_key_len + raft_state_len rs))) by lia. simpl.
  pose proof (rc_inv_init raft_state_len marker_len Hr Hnn s rs max_entries max_bytes _ Hinit
                ltac:(lia) ltac:(lia)) as Hinv0.
  destruct (reclaim_loop_total raft_state_len marker_len Hr Hm n s HT rs max_entries max_bytes
              ltac:(lia) ltac:(done) Hfit _ cands Hinv0) as (st & Hrun & Hne).
  rewrite Hrun. simpl. eapply reclaim_loop_inv in Hrun as [[] Hlen]; [|done|done|done]. simpl in Hlen.
  assert (logical_batch_bytes raft_state_len marker_len (rc_update st) rs = Ok (rc_bytes st)) as ->.
  { apply logical_batch_bytes_Ok; [done|done|]. split; [done|]. unfold u64_max. lia. }
  simpl. rewrite (bool_decide_eq_false_2 (rc_bytes st ≠ rc_bytes st)) by same. simpl.
  assert (0 <= rc_bytes st) as Hpos.
  { rewrite ri_bytes0. unfold update_size, raft_state_key_len, inode_key_len, detached_root_key_len.
    pose proof (entries_size_nonneg marker_len Hnn (ru_entries (rc_update st))). lia. }
  unfold u32_max in *.
  rewrite (proj2 (expect_u32_Ok (rc_processed st) _)), (proj2 (expect_u32_Ok (Z.of_nat _) _)),
    (proj2 (expect_u32_Ok (rc_created st) _)), (proj2 (expect_u32_Ok (rc_bytes st) _))
    by (split; [reflexivity|unfold u32_max; lia]).
  simpl. eexists _, _. split; [done|]. simpl. intros (k & Hk & Hd).
  assert (update_empty st = false) as Hemp. { apply Hne. right. exists k. set_solver. }
  destruct (ru_entries (rc_update st)) eqn:E1, (ru_completed (rc_update st)) eqn:E2; simpl in *; try lia.
  assert (update_empty st = true); [by apply update_empty_true|congruence].
Qed.
End properties.

(** Serialised lengths of the witnesses. *)
Definition sample_state_len : RaftState -> Z := fun _ => 100.
Definition sample_marker_len : DetachedRoot -> Z := fun _ => 3.

Lemma reclaim_within_budget_witness :
  exists s' r,
    apply_reclaim_detached_roots sample_state_len sample_marker_len s_det [2] 10 4096 rs0 = Ok (s', r) /\
    0 <= rs_processed_entries r <= 10.
Proof.
  eexists _, _. split; [vm_compute; reflexivity|].
  eapply (reclaim_within_budget sample_state_len sample_marker_len s_det [2] 10 4096 rs0);
    [intros; vm_compute; congruence|intros; vm_compute; congruence|vm_compute; congruence|].
  vm_compute. reflexivity.
Defined.

Lemma reclaim_only_detached_witness :
  exists s' r,
    apply_reclaim_detached_roots sample_state_len sample_marker_len s_det [2] 10 4096 rs0 = Ok (s', r) /\
    forall p nm c, s_dentries s_det !! (p, nm) = Some c ->
      s_dentries s' !! (p, nm) = Some c \/ is_Some (s_detached s_det !! p).
Proof.
  eexists _, _. split; [vm_compute; reflexivity|].
  eapply (reclaim_only_detached sample_state_len sample_marker_len 5 s_det [2] 10 4096 rs0);
    [intros; vm_compute; congruence|intros; vm_compute; congruence|vm_compute; congruence
    |apply s_det_ready|].
  vm_compute. reflexivity.
Defined.
