(* ===== verification/Apply.v ===== *)
(** * Command dispatch ([beryl-metadata/src/raft/state_machine/mod.rs])

    The replicated commands, their responses, and [apply_committed], which turns
    the outcome of a command into a committed success, a committed rejection or
    a fatal failure. *)

From S2P Require Import Prelude Types Errors Inode Mount Store Namespace WriteApply Reclaim.
Local Open Scope Z_scope.

Inductive Command :=
| BootstrapNamespace (proposed_at_ms : Z) (group_name : GroupName)
| CreateDirectory (proposed_at_ms : Z) (root_id : InodeId) (components : list string)
    (attrs : InodeAttrs) (recursive : bool)
| CreateFile (proposed_at_ms : Z) (args : CreateFileArgs)
| Delete (proposed_at_ms : Z) (args : DeleteArgs)
| Rename (proposed_at_ms : Z) (args : RenameArgs)
| AcquireWriteLease (proposed_at_ms : Z) (id : InodeId) (expected_lease_epoch : LeaseEpoch)
| AllocateBlock (id : InodeId) (lease_epoch : LeaseEpoch)
| EndWriteLease (proposed_at_ms : Z) (id : InodeId) (lease_epoch : LeaseEpoch)
| PublishFile (proposed_at_ms : Z) (id : InodeId) (publication : FilePublication)
| CommitFile (proposed_at_ms : Z) (id : InodeId) (client_id : ClientId) (call_id : CallId)
    (publication : FilePublication)
| RegisterWorkerDescriptor (proposed_at_ms : Z) (group_name : GroupName) (worker_id : WorkerId)
    (address : string) (worker_net_protocol : Z) (fault_domain : option string)
| ReclaimDetachedRoots (candidates : list InodeId) (max_entries max_batch_bytes : Z).

Inductive ApplySuccess :=
| MountUpserted (entry : MountEntry)
| DirectoryEnsured (id : InodeId) (attrs : InodeAttrs)
| FileCreated (id : InodeId) (layout : FileLayout) (lease_epoch : LeaseEpoch) (expires_at_ms : Z)
    (generation : ContentGeneration)
| DeleteApplied
| RenameApplied
| WriteLeaseAcquired (id : InodeId) (lease_epoch : LeaseEpoch)
| BlockAllocated (block_id : BlockId)
| WriteLeaseEnded (id : InodeId) (lease_epoch : LeaseEpoch)
| FilePublished (id : InodeId) (generation : ContentGeneration)
| FileCommitted (id : InodeId) (generation : ContentGeneration) (lease_epoch : LeaseEpoch)
| WorkerUpserted (worker_id : WorkerId)
| DetachedRootsReclaimed (result : DetachedRootReclaimResult)
| RaftEntryApplied.

(** [RaftApplyResult]. *)
Notation RaftApplyResult := (result ApplyRejection ApplySuccess) (only parsing).

Inductive RoutingDelta := RD_None | RD_Upsert (entry : MountEntry).
Inductive RoutingIntent := RI_None | RI_Upsert.

Record CommittedApply := mk_CommittedApply {
  ca_response : RaftApplyResult;
  ca_routing_delta : RoutingDelta
}.

Definition routing_intent (c : Command) : RoutingIntent :=
  match c with BootstrapNamespace _ _ => RI_Upsert | _ => RI_None end.

Definition committed_apply_new (intent : RoutingIntent) (response : RaftApplyResult) : CommittedApply :=
  mk_CommittedApply response
    match intent, response with
    | RI_Upsert, Ok (MountUpserted entry) => RD_Upsert entry
    | _, _ => RD_None
    end.

Definition apply_register_worker (s : Store) (group : GroupName) (id : WorkerId) (address : string)
    (protocol : Z) (fault_domain : option string) (rs : RaftState) : MetadataResult (Store * WorkerId) :=
  info ← prepare_worker_registration group id address protocol fault_domain;
  s' ← register_worker_atomic s info rs;
  Ok (s', wi_worker_id info).

Section apply.
Variable raft_state_len : RaftState -> Z.
Variable marker_len : DetachedRoot -> Z.

(** The command's outcome before it is classified. *)
Definition run_command (s : Store) (c : Command) (rs : RaftState) : MetadataResult (Store * ApplySuccess) :=
  match c with
  | BootstrapNamespace now group =>
      '(s', entry) ← apply_bootstrap_namespace s group now rs;
      Ok (s', MountUpserted entry)
  | RegisterWorkerDescriptor _ group id address protocol fault_domain =>
      '(s', id) ← apply_register_worker s group id address protocol fault_domain rs;
      Ok (s', WorkerUpserted id)
  | CreateDirectory now root components attrs recursive =>
      '(s', (id, attrs)) ←
        (if recursive : bool then apply_create_directory s root components attrs now rs
         else
           reject_if (bool_decide (length components ≠ 1%nat))
             (InvalidArgument "non-recursive CreateDirectory requires exactly one path component");;
           name ← expect (last components);
           apply_mkdir s root name attrs now rs);
      Ok (s', DirectoryEnsured id attrs)
  | CreateFile now args =>
      '(s', r) ← apply_create s args now rs;
      Ok (s', FileCreated (rr_inode_id r) (rr_layout r) (rr_lease_epoch r) (rr_expires_at_ms r)
                (rr_generation r))
  | Delete now args =>
      s' ← apply_delete s args now rs;
      Ok (s', DeleteApplied)
  | Rename now args =>
      s' ← apply_rename s args now rs;
      Ok (s', RenameApplied)
  | AcquireWriteLease now id expected =>
      '(s', epoch) ← apply_acquire_write_lease s id expected now rs;
      Ok (s', WriteLeaseAcquired id epoch)
  | AllocateBlock id epoch =>
      '(s', block) ← apply_allocate_block s id epoch rs;
      Ok (s', BlockAllocated block)
  | EndWriteLease _ id epoch =>
      '(s', ended) ← apply_end_write_lease s id epoch rs;
      Ok (s', WriteLeaseEnded id ended)
  | PublishFile now id publication =>
      '(s', generation) ← apply_publish_file s id publication now rs;
      Ok (s', FilePublished id generation)
  | CommitFile now id client call publication =>
      ended ← ok_or (lease_checked_next (fp_lease_epoch publication))
                (InvalidArgument "write lease epoch overflow");
      '(s', generation) ← apply_commit_file s id client call publication now rs;
      Ok (s', FileCommitted id generation ended)
  | ReclaimDetachedRoots candidates max_entries max_bytes =>
      '(s', r) ← apply_reclaim_detached_roots raft_state_len marker_len s candidates max_entries max_bytes rs;
      Ok (s', DetachedRootsReclaimed r)
  end.

(** A fatal failure leaves the store as it was, so none is returned for it. *)
Definition apply_committed (s : Store) (c : Command) (rs : RaftState)
  : result FatalApplyError (Store * CommittedApply) :=
  let intent := routing_intent c in
  match run_command s c rs with
  | Ok (s', success) => Ok (s', committed_apply_new intent (Ok success))
  | Err e =>
      rejection ← from_metadata_error e;
      Ok (commit_applied_state s rs, committed_apply_new intent (Err rejection))
  | Panic => Panic
  end.
End apply.
