(* ===== verification/NoPanic.v ===== *)
(** * Absence of panics

    No [expect], [unwrap], [assert!] or [unreachable!] of the modelled code is
    reached while a command is applied, whatever the store holds. *)

From S2P Require Import Prelude Types Errors Inode Mount Store Namespace Tree NamespaceInv.
From S2P Require Import WriteApply Reclaim ReclaimProps Apply.
Local Open Scope Z_scope.

Lemma np_layout_validate l : layout_validate l <> Panic.
Proof.
  destruct l as [bs fmt]. unfold layout_validate, block_format_spec, block_format_from_raw; simpl.
  destruct (decide (fmt = 2)) as [->|Hf]; simpl; [|by rewrite !bool_decide_eq_false_2 by done].
  unfold block_shape_new, validate_block_layout_parts, validate_effective_len.
  destruct (decide (bs = 0)) as [->|Hz]; [by vm_compute|].
  rewrite !(bool_decide_eq_false_2 (bs = 0)) by done. simpl.
  destruct (MAX_BLOCK_SIZE <? bs); simpl; [done|]. by rewrite (proj2 (Z.ltb_ge bs bs)) by lia.
Qed.
#[export] Hint Resolve np_layout_validate : np.

Lemma np_block_count l c : block_count l c <> Panic.
Proof. unfold block_count. no_panic. Qed.
#[export] Hint Resolve np_block_count : np.
Lemma np_file_validate f id : file_validate f id <> Panic.
Proof. unfold file_validate. no_panic. Qed.
Lemma np_check_block_lens t c o bs : check_block_lens t c o bs <> Panic.
Proof. revert o. induction bs; intros o; simpl; no_panic. Qed.
#[export] Hint Resolve np_file_validate np_check_block_lens : np.
Lemma np_start_index p f : start_index p f <> Panic.
Proof. unfold start_index. no_panic. Qed.
Lemma np_merge_loop id m f sn acc bs : merge_loop id m f sn acc bs <> Panic.
Proof. revert sn acc. induction bs; intros sn acc; simpl; no_panic. Qed.
#[export] Hint Resolve np_start_index np_merge_loop : np.
Lemma np_matches_visible p f : matches_visible p f <> Panic.
Proof. unfold matches_visible. no_panic. Qed.
Lemma np_merged_blocks p id f : merged_blocks p id f <> Panic.
Proof. unfold merged_blocks. no_panic. Qed.
Lemma np_inode_file i : inode_file i <> Panic.
Proof. unfold inode_file. no_panic. Qed.
#[export] Hint Resolve np_matches_visible np_merged_blocks np_inode_file : np.
Lemma np_resolve_commit p i a b : resolve_commit p i a b <> Panic.
Proof. unfold resolve_commit. no_panic. Qed.
#[export] Hint Resolve np_resolve_commit : np.

Lemma np_get_detached_root s id : get_detached_root s id <> Panic.
Proof. unfold get_detached_root. no_panic. Qed.
Lemma np_get_replay s op : get_create_file_replay s op <> Panic.
Proof. unfold get_create_file_replay. no_panic. Qed.
#[export] Hint Resolve np_get_detached_root np_get_replay : np.
Lemma np_get_replay_inode s id : get_create_file_replay_for_inode s id <> Panic.
Proof. unfold get_create_file_replay_for_inode. no_panic. Qed.
Lemma np_layout_optional s id : get_layout_optional s id <> Panic.
Proof. unfold get_layout_optional. no_panic. Qed.
#[export] Hint Resolve np_get_replay_inode np_layout_optional : np.
Lemma np_get_layout s id : get_layout s id <> Panic.
Proof. unfold get_layout. no_panic. Qed.
Lemma np_page_loop p m sk acc l : page_loop p m sk acc l <> Panic.
Proof. revert sk acc. induction l as [|[nm c] l IH]; intros sk acc; simpl; no_panic. Qed.
#[export] Hint Resolve np_get_layout np_page_loop : np.
Lemma np_list_dentries s p c m : list_dentries_with_cursor s p c m <> Panic.
Proof. unfold list_dentries_with_cursor. no_panic. Qed.
Lemma np_list_reclaim s p m : list_dentries_for_reclaim s p m <> Panic.
Proof. unfold list_dentries_for_reclaim. no_panic. Qed.
Lemma np_max_inode_id s : max_inode_id s <> Panic.
Proof. unfold max_inode_id. no_panic. Qed.
Lemma np_check_targets s e ts : check_targets s e ts <> Panic.
Proof. revert e. induction ts; intros e; simpl; no_panic. Qed.
#[export] Hint Resolve np_list_dentries np_list_reclaim np_max_inode_id np_check_targets : np.
Lemma np_is_directory_empty s p : is_directory_empty s p <> Panic.
Proof. unfold is_directory_empty. no_panic. Qed.
Lemma np_prepare_allocation s : prepare_inode_allocation s <> Panic.
Proof. unfold prepare_inode_allocation. no_panic. Qed.
Lemma np_validate_targets s al ts : validate_inode_allocation_targets s al ts <> Panic.
Proof. unfold validate_inode_allocation_targets. no_panic. Qed.
Lemma np_evict s now : evict_expired s now <> Panic.
Proof. unfold evict_expired. no_panic. Qed.
#[export] Hint Resolve np_is_directory_empty np_prepare_allocation np_validate_targets np_evict : np.
Lemma np_put_replay s r now : batch_put_create_file_replay s r now <> Panic.
Proof. unfold batch_put_create_file_replay. no_panic. Qed.
#[export] Hint Resolve np_put_replay : np.
Lemma np_create_file_atomic s al p nm i u r now rs : create_file_atomic s al p nm i u r now rs <> Panic.
Proof. unfold create_file_atomic. no_panic. Qed.
Lemma np_create_dir_atomic s al p nm i u rs : create_dir_atomic s al p nm i u rs <> Panic.
Proof. unfold create_dir_atomic. no_panic. Qed.
Lemma np_create_dirs_atomic s al es rs : create_directories_atomic s al es rs <> Panic.
Proof. unfold create_directories_atomic. no_panic. Qed.
#[export] Hint Resolve np_create_file_atomic np_create_dir_atomic np_create_dirs_atomic : np.

Lemma np_bootstrap_state s g : bootstrap_namespace_state s g <> Panic.
Proof. unfold bootstrap_namespace_state. no_panic. Qed.
#[export] Hint Resolve np_bootstrap_state : np.
Lemma np_mkdir_loop s a now p nx es cs : mkdir_loop s a now p nx es cs <> Panic.
Proof. revert p nx es. induction cs; intros p nx es; simpl; no_panic. Qed.
Lemma np_validate_components cs : validate_components cs <> Panic.
Proof. induction cs; simpl; no_panic. Qed.
Lemma np_walk_create s m p cs : walk_create_parent s m p cs <> Panic.
Proof. revert p. induction cs; intros p; simpl; no_panic. Qed.
#[export] Hint Resolve np_mkdir_loop np_validate_components np_walk_create : np.
Lemma np_validate_relative cs : validate_relative_components cs <> Panic.
Proof. unfold validate_relative_components. no_panic. Qed.
#[export] Hint Resolve np_validate_relative : np.

Lemma np_resolve_create s m e r cs : resolve_create_parent s m e r cs <> Panic.
Proof.
  unfold resolve_create_parent. apply np_bind; [auto with np|]. intros [] Hv.
  apply validate_relative_components_Ok in Hv as [Hne _].
  assert (is_Some (last cs)) as [nm Hl] by by apply last_is_Some.
  rewrite Hl. simpl. no_panic.
Qed.
#[export] Hint Resolve np_resolve_create : np.
Lemma np_validate_replay s r now : validate_create_file_replay s r now <> Panic.
Proof. unfold validate_create_file_replay. no_panic. Qed.
#[export] Hint Resolve np_validate_replay : np.

Lemma np_walk_delete s ms m p cs : cs <> [] -> walk_delete s ms m p cs <> Panic.
Proof. revert p. induction cs as [|c cs IH]; intros p Hne; [done|]. simpl. no_panic. Qed.

Lemma np_resolve_delete s m e r cs : resolve_delete_target s m e r cs <> Panic.
Proof.
  unfold resolve_delete_target. apply np_bind; [auto with np|]. intros [] Hv.
  apply validate_relative_components_Ok in Hv as [Hne _]. no_panic. by apply np_walk_delete.
Qed.
#[export] Hint Resolve np_resolve_delete : np.

Lemma np_apply_delete s a now rs : apply_delete s a now rs <> Panic.
Proof.
  unfold apply_delete, apply_detach_directory, apply_delete_empty_dir, apply_unlink. no_panic.
Qed.

Lemma np_cleanup s t i : prepare_rename_overwrite_target_cleanup s t i <> Panic.
Proof. unfold prepare_rename_overwrite_target_cleanup. no_panic. Qed.
#[export] Hint Resolve np_cleanup : np.
Lemma np_apply_rename s a now rs : apply_rename s a now rs <> Panic.
Proof. unfold apply_rename, prepare_rename, prepare_overwrite, prepare_parents. no_panic. Qed.

Lemma np_load_file s id : load_file s id <> Panic.
Proof. unfold load_file, ensure_file_inode_authority. no_panic. Qed.
Lemma np_prepare_publication i p now : prepare_file_publication i p now <> Panic.
Proof. unfold prepare_file_publication. no_panic. Qed.
#[export] Hint Resolve np_apply_delete np_apply_rename np_load_file np_prepare_publication : np.

(** ** Reclamation: the four narrowing conversions stay inside [u32] *)

Lemma np_checked_add a b : checked_add_usize a b <> Panic.
Proof. unfold checked_add_usize. no_panic. Qed.
#[export] Hint Resolve np_checked_add : np.
Lemma np_completed_bytes id : completed_root_logical_bytes id <> Panic.
Proof. unfold completed_root_logical_bytes. no_panic. Qed.
Lemma np_entry_bytes len e : entry_logical_bytes len e <> Panic.
Proof. unfold entry_logical_bytes. no_panic. Qed.
#[export] Hint Resolve np_completed_bytes np_entry_bytes : np.
Lemma np_add_entries len b es : add_entries_bytes len b es <> Panic.
Proof. revert b. induction es; intros b; simpl; no_panic. Qed.
Lemma np_add_completed b es : add_completed_bytes b es <> Panic.
Proof. revert b. induction es; intros b; simpl; no_panic. Qed.
#[export] Hint Resolve np_add_entries np_add_completed : np.
Lemma np_batch_bytes rl ml u rs : logical_batch_bytes rl ml u rs <> Panic.
Proof. unfold logical_batch_bytes. no_panic. Qed.
Lemma np_validate_reclaim c e b : validate_detached_root_reclaim_command c e b <> Panic.
Proof. unfold validate_detached_root_reclaim_command. no_panic. Qed.
Lemma np_validate_root s r d : validate_detached_root s r d <> Panic.
Proof. unfold validate_detached_root. no_panic. Qed.
Lemma np_prepare_entry s p nm c d m : prepare_detached_root_entry s p nm c d m <> Panic.
Proof. unfold prepare_detached_root_entry. no_panic. Qed.
#[export] Hint Resolve np_batch_bytes np_validate_reclaim np_validate_root np_prepare_entry : np.
Lemma np_page_entries ml s e b r d m st es : page_entries ml s e b r d m st es <> Panic.
Proof. revert st. induction es as [|[nm c] es IH]; intros st; simpl; no_panic. Qed.
#[export] Hint Resolve np_page_entries : np.
Lemma np_reclaim_loop ml s e b st cs : reclaim_loop ml s e b st cs <> Panic.
Proof. revert st. induction cs as [|c cs IH]; intros st; simpl; no_panic. Qed.
#[export] Hint Resolve np_reclaim_loop : np.

Lemma np_expect_u32 n : 0 <= n <= u32_max -> expect_u32 n <> Panic.
Proof. intros H. by rewrite (proj2 (expect_u32_Ok n n)). Qed.

Lemma np_apply_reclaim rl ml s cands max_entries max_bytes rs :
  (forall rs, 0 <= rl rs) -> (forall d, 0 <= ml d) -> 0 <= max_entries ->
  apply_reclaim_detached_roots rl ml s cands max_entries max_bytes rs <> Panic.
Proof.
  intros Hr Hm He. unfold apply_reclaim_detached_roots. apply np_bind; [auto with np|]. intros [] Hval.
  apply np_bind; [auto with np|]. intros b Hb. apply np_bind; [auto with np|]. intros [] Hmax%reject_if_Ok.
  apply np_bind; [auto with np|]. intros st Hst. unfold validate_detached_root_reclaim_command in Hval.
  unbind Hval as [] Hc. unbind Hval as [] Hn. apply reject_if_Ok in Hval. bool_prop.
  unfold MAX_RECLAIM_DETACHED_ROOT_CANDIDATES, MAX_RECLAIM_DETACHED_ROOT_ENTRIES,
    MAX_RECLAIM_DETACHED_ROOT_BATCH_BYTES in *.
  eapply reclaim_loop_inv in Hst as [[Hbytes Hle Hproc Hbud Hcr _ _ _ _ _ _ _ _] Hlen];
    [|done|done|by apply rc_inv_init]. simpl in Hlen.
  assert (0 <= rc_bytes st) as Hpos.
  { rewrite Hbytes. unfold update_size, raft_state_key_len, inode_key_len, detached_root_key_len.
    pose proof (entries_size_nonneg ml Hm (ru_entries (rc_update st))). pose proof (Hr rs). lia. }
  no_panic; apply np_expect_u32; unfold u32_max; lia.
Qed.

Lemma np_bootstrap s g now rs : apply_bootstrap_namespace s g now rs <> Panic.
Proof. unfold apply_bootstrap_namespace. no_panic. Qed.
Lemma np_mkdir s p nm a now rs : apply_mkdir s p nm a now rs <> Panic.
Proof. unfold apply_mkdir. no_panic. Qed.
Lemma np_create s a now rs : apply_create s a now rs <> Panic.
Proof. unfold apply_create. no_panic. Qed.
Lemma np_create_directory s p nm a now rs : apply_create_directory s p nm a now rs <> Panic.
Proof. unfold apply_create_directory. no_panic. Qed.
#[export] Hint Resolve np_bootstrap np_mkdir np_create np_create_directory : np.
Lemma np_worker g id a p f : prepare_worker_registration g id a p f <> Panic.
Proof. unfold prepare_worker_registration. no_panic. Qed.
Lemma np_register s i rs : register_worker_atomic s i rs <> Panic.
Proof. unfold register_worker_atomic. no_panic. Qed.
#[export] Hint Resolve np_worker np_register : np.
Lemma np_acquire s id e now rs : apply_acquire_write_lease s id e now rs <> Panic.
Proof. unfold apply_acquire_write_lease. no_panic. Qed.
Lemma np_allocate s id e rs : apply_allocate_block s id e rs <> Panic.
Proof. unfold apply_allocate_block. no_panic. Qed.
Lemma np_end_lease s id e rs : apply_end_write_lease s id e rs <> Panic.
Proof. unfold apply_end_write_lease. no_panic. Qed.
Lemma np_publish s id p now rs : apply_publish_file s id p now rs <> Panic.
Proof. unfold apply_publish_file. no_panic. Qed.
Lemma np_commit s id cl ca p now rs : apply_commit_file s id cl ca p now rs <> Panic.
Proof. unfold apply_commit_file. no_panic. Qed.
#[export] Hint Resolve np_acquire np_allocate np_end_lease np_publish np_commit : np.

(** The integers of a command are values of their unsigned types. *)
Definition command_typed (c : Command) : Prop :=
  match c with
  | CreateFile _ a => 0 <= fl_block_size (ca_layout a)
  | PublishFile _ _ p | CommitFile _ _ _ _ p => publication_typed p
  | ReclaimDetachedRoots _ max_entries _ => 0 <= max_entries
  | _ => True
  end.

Lemma np_run_command rl ml s c rs :
  (forall rs, 0 <= rl rs) -> (forall d, 0 <= ml d) -> command_typed c -> run_command rl ml s c rs <> Panic.
Proof.
  intros Hr Hm Hc. destruct c; simpl in *; unfold apply_register_worker; no_panic.
  - destruct components as [|nm [|]]; simpl in *; no_panic.
  - by apply np_apply_reclaim.
Qed.
