(* ===== verification/Reach.v ===== *)
(** * The invariant of every reachable store

    CreateFile replay bookkeeping, the whole-store invariant, and its
    preservation by every command that [apply_committed] applies. *)

From S2P Require Import Prelude Types Errors Inode Mount Store Namespace Tree NamespaceInv.
From S2P Require Import WriteApply Samples Reclaim ReclaimProps Apply NoPanic.
Local Open Scope Z_scope.

(** ** Replay bookkeeping *)

(** Records, inode index, expiry index and counter describe the same bounded set
    of creations, all of inodes that were already allocated. *)
Record replay_inv (s : Store) : Prop := {
  rp_record : forall op r, s_replays s !! op = Some r ->
    rr_operation_id r = op /\ s_replay_inode s !! rr_inode_id r = Some op /\
    (rr_expires_at_ms r, op) ∈ s_replay_expiry s;
  rp_inode : forall id op, s_replay_inode s !! id = Some op ->
    exists r, s_replays s !! op = Some r /\ rr_inode_id r = id;
  rp_expiry : forall t op, (t, op) ∈ s_replay_expiry s ->
    exists r, s_replays s !! op = Some r /\ rr_expires_at_ms r = t;
  rp_count : default 0 (s_replay_count s) = Z.of_nat (size (s_replays s));
  rp_bound : default 0 (s_replay_count s) <= MAX_CREATE_FILE_REPLAY_RECORDS;
  rp_fresh : forall id op, s_replay_inode s !! id = Some op ->
    exists n, s_next_inode_id s = Some n /\ id < n
}.

Definition same_replay (s s' : Store) : Prop :=
  s_replays s' = s_replays s /\ s_replay_inode s' = s_replay_inode s /\
  s_replay_expiry s' = s_replay_expiry s /\ s_replay_count s' = s_replay_count s.

(** The allocator never moves back. *)
Definition next_le (s s' : Store) : Prop :=
  forall n, s_next_inode_id s = Some n -> exists n', s_next_inode_id s' = Some n' /\ n <= n'.

Lemma replay_inv_same s s' : replay_inv s -> same_replay s s' -> next_le s s' -> replay_inv s'.
Proof.
  intros [] (E1 & E2 & E3 & E4) Hn. split; rewrite ?E1, ?E2, ?E3, ?E4; try done.
  intros id op H. destruct (rp_fresh0 _ _ H) as (n & E & Hlt). destruct (Hn _ E) as (n' & E' & ?).
  exists n'. split; [done|lia].
Qed.

Lemma tree_step_next n s s' : ready n s -> tree_step n s s' -> next_le s s'.
Proof. intros [H _ _] (n' & Hle & [H' _ _] & _) m Hm. exists n'. split; [done|]. simplify_eq. lia. Qed.

Lemma nonreplay_ops s ops :
  Forall (fun op => is_replay_op op = false) ops -> same_replay s (write_batch s ops).
Proof.
  intros Hops. revert s. induction Hops as [|op ops Hop _ IH]; intros s; [done|].
  unfold same_replay, write_batch in *. simpl.
  destruct (IH (write_op s op)) as (-> & -> & -> & ->). by destruct s, op.
Qed.

Lemma commit_nonreplay s ops rs :
  Forall (fun op => is_replay_op op = false) ops -> same_replay s (commit_authority_batch s ops rs).
Proof.
  intros H. unfold commit_authority_batch. apply nonreplay_ops, Forall_app. split; [done|].
  by repeat constructor.
Qed.

Create HintDb replay.

Lemma mjoin_Forall {A} (P : A -> Prop) (ls : list (list A)) : Forall (Forall P) ls -> Forall P (mjoin ls).
Proof. induction 1; simpl; [constructor|]. by apply Forall_app. Qed.

Section atomics.
Implicit Types (s : Store) (rs : RaftState).

Lemma put_inode_replay s i rs : same_replay s (put_inode_atomic s i rs).
Proof. apply commit_nonreplay. by repeat constructor. Qed.
Lemma applied_replay s rs : same_replay s (commit_applied_state s rs).
Proof. apply commit_nonreplay. by repeat constructor. Qed.
Lemma unlink_replay s p nm c i rs : same_replay s (unlink_inode_atomic s p nm c i rs).
Proof. apply commit_nonreplay. by repeat constructor. Qed.
Lemma detach_replay s p nm r i d rs : same_replay s (detach_directory_atomic s p nm r i d rs).
Proof. apply commit_nonreplay. by repeat constructor. Qed.
Lemma bootstrap_replay s i m rs : same_replay s (bootstrap_namespace_atomic s i m rs).
Proof. apply commit_nonreplay. by repeat constructor. Qed.
Lemma rename_replay s u rs : same_replay s (rename_atomic s u rs).
Proof.
  apply commit_nonreplay. destruct u as [? ? ? ? ? [] [] []]; by repeat constructor.
Qed.
Lemma reclaim_replay s u rs : same_replay s (reclaim_detached_roots_atomic s u rs).
Proof.
  apply commit_nonreplay, Forall_app. split; apply mjoin_Forall, Forall_fmap, Forall_true.
  - intros [? ? ? []]; by repeat constructor.
  - by repeat constructor.
Qed.
Lemma create_dirs_replay s es x rs :
  same_replay s (commit_authority_batch s (mjoin (mkdir_entry_batch <$> es) ++ [PutNextInodeId x]) rs).
Proof.
  apply commit_nonreplay, Forall_app. split; [|by repeat constructor].
  apply mjoin_Forall, Forall_fmap, Forall_true. by repeat constructor.
Qed.
End atomics.

#[export] Hint Resolve put_inode_replay applied_replay unlink_replay detach_replay bootstrap_replay
  rename_replay reclaim_replay create_dirs_replay : replay.

Lemma run_nonreplay rl ml s c rs s' r :
  (forall now a, c <> CreateFile now a) -> run_command rl ml s c rs = Ok (s', r) -> same_replay s s'.
Proof.
  intros Hc. destruct c; simpl; intros H.
  - unfold apply_bootstrap_namespace in H. inv_run; subst; auto with replay.
  - unfold apply_create_directory, apply_mkdir, create_directories_atomic, create_dir_atomic in H.
    inv_run; subst; auto with replay; by apply commit_nonreplay; repeat constructor.
  - by edestruct Hc.
  - unfold apply_delete, apply_detach_directory, apply_delete_empty_dir, apply_unlink in H.
    inv_run; subst; auto with replay.
  - unfold apply_rename in H. inv_run; subst; auto with replay.
  - unfold apply_acquire_write_lease in H. inv_run; subst; auto with replay.
  - unfold apply_allocate_block in H. inv_run; subst; auto with replay.
  - unfold apply_end_write_lease in H. inv_run; subst; auto with replay.
  - unfold apply_publish_file in H. inv_run; subst; auto with replay.
  - unfold apply_commit_file in H. inv_run; subst; auto with replay.
  - unfold apply_register_worker, register_worker_atomic in H. inv_run; subst.
    by apply commit_nonreplay; repeat constructor.
  - unfold apply_reclaim_detached_roots in H. inv_run; subst; auto with replay.
Qed.

(** ** Insertion into the replay table *)

(** The first expiry key is a least element of the index. *)
Lemma expiry_min_fold l x :
  foldr expiry_min None l = Some x -> x ∈ l /\ forall y, y ∈ l -> x.1 <= y.1.
Proof.
  revert x. induction l as [|a l IH]; intros x; simpl; [done|].
  destruct (foldr expiry_min None l) as [b|] eqn:E; simpl.
  - destruct (IH b eq_refl) as [Hb Hmin]. unfold expiry_lt. destruct (_ || _) eqn:Hlt; intros [= <-].
    + apply orb_true_iff in Hlt. split; [set_solver|]. intros y [->|Hy]%elem_of_cons; [lia|].
      specialize (Hmin y Hy). destruct Hlt as [H|[H _]%andb_true_iff]; lia.
    + apply orb_false_iff in Hlt as [Hlt _]. split; [set_solver|].
      intros y [->|Hy]%elem_of_cons; [lia|auto].
  - intros [= <-]. destruct l as [|c l']; [|simpl in E; by destruct (foldr _ _ l'); simpl in E; try case_match].
    split; [set_solver|]. intros y [->|Hy]%elem_of_cons; [lia|set_solver].
Qed.

Lemma expiry_min_None l : foldr expiry_min None l = None -> l = [].
Proof. destruct l as [|a l]; simpl; [done|]. destruct (foldr _ _ l); simpl; [by case_match|done]. Qed.

Lemma first_expiry_Some s t op :
  first_expiry s = Some (t, op) ->
  (t, op) ∈ s_replay_expiry s /\ forall t' op', (t', op') ∈ s_replay_expiry s -> t <= t'.
Proof.
  unfold first_expiry. intros [H1 H2]%expiry_min_fold. split; [by apply elem_of_elements|].
  intros t' op' H. apply (H2 (t', op')). by apply elem_of_elements.
Qed.

Section insertion.
Context (s : Store) (Hinv : replay_inv s).
Implicit Types (r : CreateFileReplayRecord) (op : CreateFileOperationId).

(** Eviction removes one record from all three indexes. *)
Lemma evict_expired_Ok now ops :
  evict_expired s now = Ok ops ->
  exists op r, s_replays s !! op = Some r /\ rr_expires_at_ms r <= now /\
    (forall op' r', s_replays s !! op' = Some r' -> rr_expires_at_ms r <= rr_expires_at_ms r') /\
    ops = [DeleteReplayExpiry (rr_expires_at_ms r) op; DeleteReplay op; DeleteReplayInode (rr_inode_id r)].
Proof.
  unfold evict_expired. intros H. unbind H as [t op] Hf. unbind H as [] Ht. unbind H as r Hr.
  unbind H as [] Hop. unbind H as ix Hix. unbind H as [] Hixop. injection H as <-. bool_prop.
  apply first_expiry_Some in Hf as [Hin Hmin]. destruct (rp_expiry _ Hinv _ _ Hin) as (r' & Hr' & <-).
  simplify_eq. exists (rr_operation_id r), r. split_and!; try done. intros op' r'' H.
  destruct (rp_record _ Hinv _ _ H) as (_ & _ & Hx). by apply (Hmin _ op').
Qed.

(** On a consistent table only an unexpired oldest record refuses eviction. *)
Lemma evict_expired_total now :
  s_replays s <> ∅ ->
  (exists ops, evict_expired s now = Ok ops) \/
  (exists m, evict_expired s now = Err (ResourceExhausted m)) /\
  (forall op r, s_replays s !! op = Some r -> now < rr_expires_at_ms r).
Proof.
  intros Hne. unfold evict_expired. destruct (first_expiry s) as [[t op]|] eqn:Hf; simpl.
  - apply first_expiry_Some in Hf as [Hin Hmin]. destruct (now <? t) eqn:Ht; simpl; bool_prop.
    + right. split; [eauto|]. intros op' r H. destruct (rp_record _ Hinv _ _ H) as (_ & _ & Hx).
      specialize (Hmin _ _ Hx). lia.
    + left. destruct (rp_expiry _ Hinv _ _ Hin) as (r & Hr & _). rewrite Hr. simpl.
      destruct (rp_record _ Hinv _ _ Hr) as (Hop & Hix & _). rewrite Hix. simpl.
      rewrite (bool_decide_eq_false_2 (rr_operation_id r ≠ op)), (bool_decide_eq_false_2 (op ≠ op))
        by same. simpl. eauto.
  - apply map_choose in Hne as (op & r & Hr). destruct (rp_record _ Hinv _ _ Hr) as (_ & _ & Hx).
    apply expiry_min_None in Hf. apply elem_of_elements in Hx. rewrite Hf in Hx. set_solver.
Qed.
End insertion.

(** Removing a record, and inserting a new one, with the counter adjusted. *)
Lemma replay_inv_delete s op r :
  replay_inv s -> s_replays s !! op = Some r ->
  replay_inv (write_batch s
    [DeleteReplayExpiry (rr_expires_at_ms r) op; DeleteReplay op; DeleteReplayInode (rr_inode_id r);
     PutReplayCount (default 0 (s_replay_count s) - 1)]).
Proof.
  intros [Hrec Hino Hexp Hcnt Hbnd Hfresh] Hr. destruct (Hrec _ _ Hr) as (Hop & Hid & Hx).
  destruct s; unfold write_batch; simpl in *. split; simpl.
  - intros op' r' [Hne H]%lookup_delete_Some. destruct (Hrec _ _ H) as (? & Hi & ?). split_and!; [done| |].
    + rewrite lookup_delete_ne; [done|]. intros E. congruence.
    + apply elem_of_difference. split; [done|]. intros [= ]%elem_of_singleton. congruence.
  - intros id op' [Hne H]%lookup_delete_Some. destruct (Hino _ _ H) as (r' & ? & <-).
    exists r'. split; [|done]. rewrite lookup_delete_ne; [done|]. intros ->. congruence.
  - intros t op' [H Hne]%elem_of_difference. destruct (Hexp _ _ H) as (r' & ? & <-).
    exists r'. split; [|done]. rewrite lookup_delete_ne; [done|]. intros ->.
    apply Hne, elem_of_singleton. congruence.
  - rewrite map_size_delete_Some by eauto. assert (size s_replays <> 0%nat); [|lia].
    intros H0%map_size_empty_inv. set_solver.
  - lia.
  - intros id op' [_ H]%lookup_delete_Some. eauto.
Qed.

Lemma replay_inv_put s r n :
  replay_inv s -> s_replays s !! rr_operation_id r = None -> s_replay_inode s !! rr_inode_id r = None ->
  default 0 (s_replay_count s) < MAX_CREATE_FILE_REPLAY_RECORDS ->
  s_next_inode_id s = Some n -> rr_inode_id r < n ->
  replay_inv (write_batch s
    [PutReplay r; PutReplayInode (rr_inode_id r) (rr_operation_id r);
     PutReplayExpiry (rr_expires_at_ms r) (rr_operation_id r);
     PutReplayCount (default 0 (s_replay_count s) + 1)]).
Proof.
  intros [Hrec Hino Hexp Hcnt Hbnd Hfresh] Hop Hid Hlt Hn Hr.
  destruct s; unfold write_batch; simpl in *. split; simpl.
  - intros op' r'. rewrite lookup_insert. case_decide; [intros; simplify_eq|].
    + rewrite lookup_insert_eq. set_solver.
    + intros H'. destruct (Hrec _ _ H') as (? & Hi & ?).
      rewrite lookup_insert_ne by (intros E; congruence). set_solver.
  - intros id op'. rewrite lookup_insert. case_decide; [intros; simplify_eq|].
    + exists r. by rewrite lookup_insert_eq.
    + intros H'. destruct (Hino _ _ H') as (r' & ? & <-). exists r'.
      by rewrite lookup_insert_ne by (intros E; rewrite E in *; congruence).
  - intros t op' [[= -> ->]%elem_of_singleton|H]%elem_of_union.
    + exists r. by rewrite lookup_insert_eq.
    + destruct (Hexp _ _ H) as (r' & ? & <-). exists r'.
      by rewrite lookup_insert_ne by (intros E; rewrite E in *; congruence).
  - rewrite map_size_insert_None by done. lia.
  - lia.
  - intros id op'. rewrite lookup_insert. case_decide; [intros; simplify_eq; eauto|apply Hfresh].
Qed.

Lemma batch_put_create_file_replay_inv s s1 r now ops n :
  replay_inv s -> batch_put_create_file_replay s r now = Ok ops ->
  same_replay s s1 -> next_le s s1 -> s_next_inode_id s1 = Some n -> rr_inode_id r < n ->
  replay_inv (write_batch s1 ops) /\ s_replays (write_batch s1 ops) !! rr_operation_id r = Some r.
Proof.
  intros Hinv H Hsame Hle Hn Hlt. pose proof (replay_inv_same _ _ Hinv Hsame Hle) as Hinv1.
  destruct Hsame as (E1 & E2 & E3 & E4). unfold batch_put_create_file_replay in H.
  unbind H as [] Hop. unbind H as [] Hid. unbind H as [] Hmax. unbind H as [ev cnt] Hev. injection H as <-.
  bool_prop. apply eq_None_not_Some in Hop, Hid. split; [|by destruct (write_batch s1 ev) eqn:E;
    rewrite write_batch_app, E; simpl; apply lookup_insert_eq].
  case_bool_decide as Hfull.
  - unbind Hev as ev' He. injection Hev as <- <-.
    apply (evict_expired_Ok s Hinv) in He as (op & r0 & Hr0 & _ & _ & ->).
    rewrite <- E1 in Hr0. pose proof (replay_inv_delete s1 op r0 Hinv1 Hr0) as Hdel.
    rewrite <- E1 in Hop. rewrite <- E2 in Hid. rewrite <- E4 in *.
    eapply (replay_inv_put _ r n) in Hdel.
    + revert Hdel. destruct s1; unfold write_batch; simpl. intros Hdel. by rewrite Z.sub_add in *.
    + destruct s1; simpl in *. by rewrite lookup_delete, Hop; case_decide.
    + destruct s1; simpl in *. by rewrite lookup_delete, Hid; case_decide.
    + destruct s1; simpl in *. lia.
    + by destruct s1.
    + done.
  - injection Hev as <- <-. rewrite <- E1 in Hop. rewrite <- E2 in Hid. rewrite <- E4 in *. simpl.
    apply (replay_inv_put s1 r n); try done. lia.
Qed.

Lemma replay_inv_raft_state s rs : replay_inv s -> replay_inv (write_batch s [PutRaftState rs]).
Proof.
  intros H. eapply replay_inv_same; [done|by destruct s|]. intros n Hn. exists n. by destruct s.
Qed.

Lemma apply_create_replay_inv n s a now rs s' r :
  ready n s -> replay_inv s -> apply_create s a now rs = Ok (s', r) ->
  replay_inv s' /\ s_replays s' !! ca_operation_id a = Some r.
Proof.
  intros Hs Hinv H. destruct (s_replays s !! ca_operation_id a) as [r0|] eqn:Hrep.
  - unfold apply_create in H. unbind H as found Hf.
    unfold get_create_file_replay in Hf. rewrite Hrep in Hf. unbind Hf as [] Hop. injection Hf as <-.
    unbind H as [] Hsame. unbind H as [] Hval. injection H as <- <-.
    pose proof (applied_replay s rs) as Hr. split; [|by destruct Hr as [-> _]].
    eapply replay_inv_same; [done|done|]. eapply tree_step_next; [done|by apply commit_applied_step].
  - apply apply_create_fresh in H
      as (pid & name & parent & n' & ops & _ & _ & _ & _ & _ & Hnx & _ & _ & -> & Hops & ->); [|done].
    rewrite app_assoc, write_batch_app, write_batch_app.
    eapply (batch_put_create_file_replay_inv s (write_batch s (create_batch pid name _ _ ++ [PutNextInodeId (n' + 1)]))) in Hops as [Hinv' Hlook];
      [|done|by apply nonreplay_ops; repeat constructor
       |by intros m Hm; exists (n' + 1); destruct s; simpl in *; split; [|simplify_eq; lia]
       |by destruct s|simpl; lia].
    split; [by apply replay_inv_raft_state|]. by destruct (write_batch (write_batch s _) ops).
Qed.

(** ** The whole-store invariant *)

(** Before the bootstrap command only workers may have been registered. *)
Record uninitialised (s : Store) : Prop := {
  un_inodes : s_inodes s = ∅;
  un_dentries : s_dentries s = ∅;
  un_mounts : s_mounts s = ∅;
  un_detached : s_detached s = ∅;
  un_next : s_next_inode_id s = None;
  un_replays : s_replays s = ∅
}.

Definition store_inv (s : Store) : Prop :=
  (uninitialised s \/ exists n, ready n s) /\ replay_inv s.

(** What the proposers of a command guarantee: values of their machine types,
    path components that were validated, and a rename destination that is a
    directory of the same mount. *)
Definition admissible (s : Store) (c : Command) : Prop :=
  command_typed c /\
  match c with
  | CreateDirectory _ _ components _ _ => Forall valid_name components
  | Rename _ a => rename_admissible s a
  | _ => True
  end.

(** A rename whose destination lies outside the moved subtree. *)
Definition outside_subtree (s : Store) (c : Command) : Prop :=
  match c with
  | Rename _ a => ~ rtc (child (s_dentries s)) (ra_expected_src a) (ra_dst_parent a)
  | _ => True
  end.

Lemma uninitialised_same s s' : uninitialised s -> same_tree s s' -> same_replay s s' -> uninitialised s'.
Proof. intros [] (E1 & E2 & E3 & E4 & E5) (E6 & _). by split; rewrite ?E1, ?E2, ?E3, ?E4, ?E5, ?E6. Qed.

Lemma applied_tree s rs : same_tree s (commit_applied_state s rs).
Proof. by destruct s. Qed.

Lemma uninitialised_load s id : uninitialised s -> exists e, load_file s id = Err e.
Proof. intros []. unfold load_file, get_inode. rewrite un_inodes0, lookup_empty. eauto. Qed.

Section preservation.
Context (raft_state_len : RaftState -> Z) (marker_len : DetachedRoot -> Z).
Context (raft_state_len_nonneg : forall rs, 0 <= raft_state_len rs).
Context (marker_len_nonneg : forall d, 0 <= marker_len d).
Implicit Types (s : Store) (c : Command) (rs : RaftState).
Notation run := (run_command raft_state_len marker_len).

(** Without a namespace every command but the bootstrap finds nothing to change. *)
Lemma run_uninitialised s c rs s' r :
  uninitialised s -> command_typed c -> run s c rs = Ok (s', r) ->
  (exists now group, c = BootstrapNamespace now group) \/ same_tree s s'.
Proof.
  intros Hun Hty H. pose proof Hun as [HI HD HM HT Hnx HR].
  assert (forall k, get_inode s k = None) as Hget by (intros; unfold get_inode; by rewrite HI).
  destruct c; simpl in H; try (left; by eauto); right.
  - unfold apply_create_directory, apply_mkdir in H. destruct recursive; inv_run; rewrite Hget in *; done.
  - unfold apply_create, get_create_file_replay, resolve_create_parent, get_mount in H.
    rewrite HR, HM, !lookup_empty in H. simpl in H. by inv_run.
  - unfold apply_delete, resolve_delete_target in H. inv_run; rewrite Hget in *; done.
  - unfold apply_rename, prepare_rename, get_dentry in H. rewrite HD, lookup_empty in H. by inv_run.
  - destruct (uninitialised_load s id Hun) as [e He]. unfold apply_acquire_write_lease in H. by rewrite He in H.
  - destruct (uninitialised_load s id Hun) as [e He]. unfold apply_allocate_block in H. by rewrite He in H.
  - destruct (uninitialised_load s id Hun) as [e He]. unfold apply_end_write_lease in H. by rewrite He in H.
  - destruct (uninitialised_load s id Hun) as [e He]. unfold apply_publish_file in H. by rewrite He in H.
  - destruct (uninitialised_load s id Hun) as [e He]. unfold apply_commit_file in H. rewrite He in H.
    by inv_run.
  - unfold apply_register_worker, register_worker_atomic in H. inv_run; subst. by destruct s.
  - unbind H as [s1 r1] Hr. injection H as <- <-.
    apply apply_reclaim_Ok in Hr as (st & [] & -> & _); [|done..].
    assert (ru_entries (rc_update st) = []) as E1.
    { destruct (ru_entries (rc_update st)) as [|e es]; [done|]. inv ri_valid. destruct H1 as [Hd _].
      by rewrite HD in Hd. }
    assert (ru_completed (rc_update st) = []) as E2.
    { destruct (ru_completed (rc_update st)) as [|e es]; [done|]. inv ri_completed. destruct H1 as [[d Hd] _].
      by rewrite HT in Hd. }
    unfold reclaim_detached_roots_atomic. rewrite E1, E2. by destruct s.
Qed.

Lemma bootstrap_again n s group now rs s' e :
  ready n s -> apply_bootstrap_namespace s group now rs = Ok (s', e) ->
  s' = commit_applied_state s rs /\ e = root_mount_entry group.
Proof.
  intros [Hnx _ _] H. unfold apply_bootstrap_namespace in H. unbind H as st Hst.
  destruct st; try done; [|by inv_run].
  exfalso. unfold bootstrap_namespace_state in Hst. rewrite Hnx in Hst.
  rewrite (bool_decide_eq_true_2 (is_Some (Some n))), !orb_true_r in Hst by eauto. simpl in Hst.
  inv_run; done.
Qed.

(** The commands that change the content or the lease of a file. *)
Definition writes_file (c : Command) : bool :=
  match c with
  | AcquireWriteLease _ _ _ | AllocateBlock _ _ | EndWriteLease _ _ _ | PublishFile _ _ _ | CommitFile _ _ _ _ _ => true
  | _ => false
  end.

Lemma run_shape n s c rs s' r :
  ready n s -> admissible s c -> run s c rs = Ok (s', r) -> writes_file c = false ->
  shape_step n s s' /\ (outside_subtree s c -> rooted_of s -> rooted_of s').
Proof.
  intros Hs [Hty Hadm] H Hw. assert (forall P : Prop, (shape_step n s s' /\ (rooted_of s -> rooted_of s')) ->
    shape_step n s s' /\ (P -> rooted_of s -> rooted_of s')) as Hweak by naive_solver.
  destruct c; try done; clear Hw; simpl in *.
  - unbind H as [s1 e] Hr. injection H as <- <-. apply Hweak.
    eapply bootstrap_again in Hr as [-> _]; [|done]. by apply commit_applied_shape.
  - apply Hweak. unbind H as [s1 [id a]] Hr. injection H as <- <-. destruct recursive.
    + by eapply apply_create_directory_step.
    + unbind Hr as [] Hlen. unbind Hr as nm Hl. eapply apply_mkdir_step; [done| |done].
      apply last_Some in Hl as [l ->]. apply Forall_app in Hadm as [_ Hnm].
      by rewrite Forall_singleton in Hnm.
  - apply Hweak. unbind H as [s1 rec] Hr. injection H as <- <-. by eapply apply_create_step.
  - apply Hweak. unbind H as s1 Hr. injection H as <- <-. by eapply apply_delete_step.
  - unbind H as s1 Hr. injection H as <- <-.
    destruct (apply_rename_step n s args proposed_at_ms rs s1 Hs Hadm Hr) as [Ht HR]. auto.
  - apply Hweak. unfold apply_register_worker, register_worker_atomic in H. inv_run; subst.
    destruct Hs as [Hnext Hn HT]. destruct s; unfold tree_step_by, tree_of, rooted_of in *; store_eval.
    split; [|done]. exists n. split_and!; [done|by split|done|apply inodes_le_refl].
  - apply Hweak. unbind H as [s1 e] Hr. injection H as <- <-. by eapply apply_reclaim_step.
Qed.

Lemma run_ready n s c rs s' r :
  ready n s -> admissible s c -> run s c rs = Ok (s', r) ->
  tree_step n s s' /\ (outside_subtree s c -> rooted_of s -> rooted_of s').
Proof.
  intros Hs Hadm H. destruct (writes_file c) eqn:Hw.
  2:{ destruct (run_shape n s c rs s' r Hs Hadm H Hw). split; [by apply shape_step_tree|done]. }
  destruct Hadm as [Hty Hadm]. assert (forall P : Prop, (tree_step n s s' /\ (rooted_of s -> rooted_of s')) ->
    tree_step n s s' /\ (P -> rooted_of s -> rooted_of s')) as Hweak by naive_solver.
  destruct c; try done; clear Hw; simpl in *; apply Hweak.
  - unbind H as [s1 e] Hr. injection H as <- <-. by eapply apply_acquire_write_lease_step.
  - unbind H as [s1 e] Hr. injection H as <- <-. by eapply apply_allocate_block_step.
  - unbind H as [s1 e] Hr. injection H as <- <-. by eapply apply_end_write_lease_step.
  - unbind H as [s1 e] Hr. injection H as <- <-. by eapply apply_publish_file_step.
  - unbind H as ended He. unbind H as [s1 e] Hr. injection H as <- <-. by eapply apply_commit_file_step.
Qed.

Lemma run_store_inv s c rs s' r :
  store_inv s -> admissible s c -> run s c rs = Ok (s', r) ->
  store_inv s' /\ (outside_subtree s c -> rooted_of s -> rooted_of s').
Proof.
  intros [[Hun|[n Hs]] Hrp] Hadm H.
  - destruct (run_uninitialised s c rs s' r Hun (proj1 Hadm) H) as [(now & group & ->)|Htree].
    + assert (same_replay s s') as Hsame by (eapply run_nonreplay; [|exact H]; done). simpl in H.
      unbind H as [s1 e] Hr. injection H as <- <-. destruct Hun.
      apply bootstrap_ready in Hr as (Hr & Hroot & _); [|done..]. split; [|done]. split; [by eauto|].
      eapply replay_inv_same; [done|done|]. intros m Hm. congruence.
    + assert (same_replay s s') as Hsame.
      { eapply run_nonreplay; [|done]. intros now a ->. simpl in H. unbind H as [s1 e] Hr.
        destruct Hun. unfold apply_create, get_create_file_replay, resolve_create_parent, get_mount in Hr.
        rewrite un_replays0, un_mounts0, !lookup_empty in Hr. simpl in Hr. by inv_run. }
      split.
      * split; [left; by eapply uninitialised_same|]. eapply replay_inv_same; [done|done|].
        intros m Hm. destruct Hun. congruence.
      * intros _ Hroot. unfold rooted_of in *. by destruct Htree as (-> & -> & -> & -> & _).
  - destruct (run_ready n s c rs s' r Hs Hadm H) as [Hstep Hroot]. split; [|done].
    split; [right; destruct Hstep as (n' & _ & Hs' & _); by eauto|].
    assert ((exists now a, c = CreateFile now a) \/ forall now a, c <> CreateFile now a)
      as [(now & a & ->)|Hc] by (destruct c; naive_solver).
    + simpl in H. unbind H as [s1 rec] Hr. injection H as <- <-.
      by eapply apply_create_replay_inv in Hr as [? _].
    + eapply replay_inv_same; [done| |by eapply tree_step_next].
      by eapply run_nonreplay.
Qed.
End preservation.

(** ** Reachable stores *)

Section reachability.
Context (raft_state_len : RaftState -> Z) (marker_len : DetachedRoot -> Z).

(** The stores a replica passes through while it applies committed commands that
    satisfy [P]; a fatal failure ends the run. *)
Inductive reachable (P : Store -> Command -> Prop) : Store -> Prop :=
| reach_init : reachable P empty_store
| reach_step s c rs s' out :
    reachable P s -> P s c -> apply_committed raft_state_len marker_len s c rs = Ok (s', out) ->
    reachable P s'.
End reachability.

Lemma apply_committed_cases rl ml s c rs s' out :
  apply_committed rl ml s c rs = Ok (s', out) ->
  (exists r, run_command rl ml s c rs = Ok (s', r) /\ out = committed_apply_new (routing_intent c) (Ok r)) \/
  (exists e j, run_command rl ml s c rs = Err e /\ from_metadata_error e = Ok j /\
     s' = commit_applied_state s rs /\ out = committed_apply_new (routing_intent c) (Err j)).
Proof.
  unfold apply_committed. destruct (run_command rl ml s c rs) as [[s1 r]|e|] eqn:E; [|intros H|done].
  - intros [= -> <-]. eauto.
  - unbind H as j Hj. injection H as <- <-. right. by exists e, j.
Qed.

Lemma store_inv_applied s rs :
  store_inv s -> store_inv (commit_applied_state s rs) /\ (rooted_of s -> rooted_of (commit_applied_state s rs)).
Proof.
  intros [Hc Hrp]. split; [|by destruct s]. split.
  - destruct Hc as [Hun|[n Hs]].
    + left. eapply uninitialised_same; [done|apply applied_tree|apply applied_replay].
    + right. destruct (commit_applied_step n s rs Hs) as [(n' & _ & H & _) _]. eauto.
  - eapply replay_inv_same; [done|apply applied_replay|]. intros m Hm. exists m. by destruct s.
Qed.

Lemma store_inv_empty : store_inv empty_store.
Proof. split; [left; by split|]. split; simpl; try done; set_solver. Qed.

Section invariant.
Context (raft_state_len : RaftState -> Z) (marker_len : DetachedRoot -> Z).
Context (raft_state_len_nonneg : forall rs, 0 <= raft_state_len rs).
Context (marker_len_nonneg : forall d, 0 <= marker_len d).

Lemma committed_store_inv s c rs s' out :
  store_inv s -> admissible s c -> apply_committed raft_state_len marker_len s c rs = Ok (s', out) ->
  store_inv s' /\ (outside_subtree s c -> rooted_of s -> rooted_of s').
Proof.
  intros Hs Hadm [(r & Hr & _)|(e & j & _ & _ & -> & _)]%apply_committed_cases.
  - by eapply run_store_inv.
  - destruct (store_inv_applied s rs Hs). auto.
Qed.
End invariant.
