(* ===== verification/NamespaceProps.v ===== *)
(** * What the namespace commands do

    The effect of Rename, Delete, CreateFile and recursive CreateDirectory on the
    paths of the namespace, the idempotence of their replays, and the rename that
    separates a subtree from its root. *)

From S2P Require Import Prelude Types Errors Inode Mount Store Namespace Tree NamespaceInv.
From S2P Require Import WriteApply Samples Reclaim ReclaimProps Apply NoPanic Reach.
Local Open Scope Z_scope.

(** ** Paths under edits *)

Lemma lookup_path_app D p cs cs' :
  lookup_path D p (cs ++ cs') = lookup_path D p cs ≫= fun q => lookup_path D q cs'.
Proof. revert p. induction cs as [|c cs IH]; intros p; simpl; [done|]. by destruct (D !! (p, c)); simpl. Qed.

Lemma lookup_path_mono (D D' : gmap (InodeId * string) InodeId) p cs q :
  (forall k c, D !! k = Some c -> D' !! k = Some c) -> lookup_path D p cs = Some q -> lookup_path D' p cs = Some q.
Proof.
  intros Hsub. revert p. induction cs as [|c cs IH]; intros p; simpl; [done|].
  destruct (D !! (p, c)) as [x|] eqn:E; simpl; [|done]. rewrite (Hsub _ _ E). simpl. auto.
Qed.

(** ** Rename *)

Lemma touch_parents_lookup I sp dp isp idp now k i :
  touch_parents I sp dp isp idp now !! k = Some i ->
  I !! k = Some i \/ (k = sp /\ i = touch_parent isp now) \/ (k = dp /\ i = touch_parent idp now).
Proof.
  unfold touch_parents. case_bool_decide; rewrite !lookup_insert; repeat case_decide; naive_solver.
Qed.

Lemma touch_parents_other I sp dp isp idp now k :
  k <> sp -> k <> dp -> touch_parents I sp dp isp idp now !! k = I !! k.
Proof. intros H1 H2. unfold touch_parents. case_bool_decide; by rewrite !lookup_insert_ne. Qed.

(** C31. A successful Rename moves exactly one entry. The source name then
    names nothing (unless it is the destination), the destination names the inode
    the source named, every other entry is untouched, the replaced inode was the
    expected one, had no children and is gone, and no other inode but the two
    parents changes. *)
Theorem rename_moves_entry n s a now rs s' :
  ready n s -> apply_rename s a now rs = Ok s' ->
  s_dentries s !! (ra_src_parent a, ra_src a) = Some (ra_expected_src a) /\
  s_dentries s !! (ra_dst_parent a, ra_dst a) = ra_expected_dst a /\
  s_dentries s' !! (ra_dst_parent a, ra_dst a) = Some (ra_expected_src a) /\
  ((ra_src_parent a, ra_src a) <> (ra_dst_parent a, ra_dst a) ->
     s_dentries s' !! (ra_src_parent a, ra_src a) = None) /\
  (forall k, k <> (ra_src_parent a, ra_src a) -> k <> (ra_dst_parent a, ra_dst a) ->
     s_dentries s' !! k = s_dentries s !! k) /\
  (forall t, ra_expected_dst a = Some t -> t <> ra_expected_src a ->
     (forall y, ~ child (s_dentries s) t y) /\ s_inodes s' !! t = None) /\
  (forall k, k <> ra_src_parent a -> k <> ra_dst_parent a -> Some k <> ra_expected_dst a ->
     s_inodes s' !! k = s_inodes s !! k).
Proof.
  intros Hs H. pose proof (rd_tree _ _ Hs) as HT.
  destruct (apply_rename_Ok n s a now rs s' Hs H)
    as (Hsrc & Hdst & _ & _ & _ & [(E & HI & HD)|(Hne & Hleaf & isp & idp & Hsp & Hdp & HD & HI)]).
  - injection E as E1 E2. rewrite HI, HD, E1, E2 in *. split_and!; try done.
    intros t Ht Hts. rewrite Hsrc in Hdst. congruence.
  - rewrite HD. split_and!; try done.
    + by rewrite lookup_insert_eq.
    + intros Hneq. rewrite lookup_insert_ne by done. by rewrite lookup_delete_eq.
    + intros k H1 H2. by rewrite lookup_insert_ne, lookup_delete_ne.
    + intros t Ht Hts. destruct (Hleaf t Ht) as [_ Hl]. split; [done|]. rewrite HI, Ht.
      rewrite Ht in Hdst. destruct (s_inodes s' !! t) as [i|] eqn:Ei; [|by rewrite HI, Ht in Ei].
      exfalso. rewrite HI, Ht in Ei. apply touch_parents_lookup in Ei as [Ei|[[-> _]|[-> _]]].
      * by rewrite lookup_delete_eq in Ei.
      * eapply Hl. by exists (ra_src a).
      * eapply Hl. by exists (ra_dst a).
    + intros k H1 H2 H3. rewrite HI, touch_parents_other by done.
      destruct (ra_expected_dst a) as [t|]; [|done]. rewrite lookup_delete_ne; [done|congruence].
Qed.

(** Move [/f] over a free name in [/d]. *)
Definition rename_f : RenameArgs := mk_RenameArgs 1 "f" 3 2 "g" None None 0.

Lemma rename_moves_entry_witness :
  exists s', apply_rename s_sub rename_f 150 rs0 = Ok s' /\ s_dentries s' !! (2, "g") = Some 3.
Proof.
  eexists. split; [vm_compute; reflexivity|].
  eapply (rename_moves_entry 5 s_sub rename_f 150 rs0); [apply s_sub_ready|vm_compute; reflexivity].
Defined.

(** Move [/d] below itself, to [/d/x]. *)
Definition rename_below : RenameArgs := mk_RenameArgs 1 "d" 2 2 "x" None None 0.

(** C34. Neither [apply_rename] nor the request path in front of it
    refuses a destination inside the moved directory. Renaming [/d] to [/d/x] in
    a namespace where every inode is rooted succeeds, and afterwards the
    directory is its own child: no mount root and no detached root reaches it, so
    no path names it and reclamation never frees it. *)
Theorem rename_below_itself_leaks :
  rooted_of s_sub /\ admissible s_sub (Rename 150 rename_below) /\
  exists s', apply_rename s_sub rename_below 150 rs0 = Ok s' /\
    s_dentries s' !! (2, "x") = Some 2 /\ is_Some (s_inodes s' !! 2) /\
    (forall r, is_root (s_mounts s') (s_detached s') r -> ~ rtc (child (s_dentries s')) r 2) /\
    ~ rooted_of s'.
Proof.
  destruct s_sub_ready as [Hs Hroot]. split; [done|]. split.
  { split; [done|]. split; [apply valid_name_compute; by vm_compute|].
    intros isp idp Hsp Hdp. vm_compute in Hsp, Hdp. by simplify_eq. }
  set (s' := match apply_rename s_sub rename_below 150 rs0 with Ok s' => s' | _ => s_sub end).
  assert (map_Forall (fun k c => c = 2 -> k.1 = 2) (s_dentries s')) as HD
    by (refine (bool_decide_unpack _ _); vm_compute; exact I).
  assert (map_Forall (fun _ e => root_inode_id e = 1) (s_mounts s')) as HM
    by (refine (bool_decide_unpack _ _); vm_compute; exact I).
  assert (forall r, is_root (s_mounts s') (s_detached s') r -> ~ rtc (child (s_dentries s')) r 2) as Hno.
  { intros r Hr Hpath.
    assert (r = 2) as ->.
    { clear Hr. remember 2 as k eqn:Ek in Hpath |- *. induction Hpath as [|x y z [nm Hxy] _ IH]; [done|].
      rewrite (IH Ek), Ek in Hxy. rewrite Ek. exact (HD _ _ Hxy eq_refl). }
    destruct Hr as [(m & e & He & Hr)|[d Hd]]; [apply HM in He; congruence|by vm_compute in Hd]. }
  exists s'. split_and!; [by vm_compute|by vm_compute|by vm_compute; eauto|done|].
  intros HR. assert (is_Some (s_inodes s' !! 2)) as [i Hi] by by vm_compute; eauto.
  destruct (HR 2 i Hi) as (r & Hr & Hp). by eapply Hno.
Qed.

(** ** Delete *)

Lemma resolve_delete_target_Ok n s m e root cs pid name i :
  tree_of n s -> resolve_delete_target s m e root cs = Ok (pid, name, i) ->
  cs = removelast cs ++ [name] /\ lookup_path (s_dentries s) root (removelast cs) = Some pid /\
  s_dentries s !! (pid, name) = Some (inode_id i) /\ s_inodes s !! inode_id i = Some i /\
  ~ is_mount_root (s_mounts s) (inode_id i).
Proof.
  intros HT H. unfold resolve_delete_target in H.
  unbind H as [] H1. unbind H as me H2. unbind H as [] H3. unbind H as [] H4. unbind H as [] H5.
  unbind H as ir H6. unbind H as [] H7. unbind H as [] H8. unbind H as [] H9. bool_prop.
  unfold get_inode in H6. eapply walk_delete_Ok in H as (? & Hp & ? & ? & _ & Hm); [|done|by rewrite H7].
  rewrite H7 in Hp. split_and!; try done. intros (m' & en & Hen & Hr).
  apply (Hm en); [|done]. unfold list_mounts. apply list_elem_of_fmap. exists (m', en). split; [done|].
  rewrite merge_sort_Permutation. by apply elem_of_map_to_list.
Qed.

Lemma unlink_fields s p nm c i rs :
  let s' := unlink_inode_atomic s p nm c i rs in
  s_dentries s' = delete (p, nm) (s_dentries s) /\
  s_inodes s' = <[inode_id i := i]> (delete c (s_inodes s)) /\ s_detached s' = s_detached s.
Proof. by destruct s. Qed.

Lemma detach_fields s p nm c i d rs :
  let s' := detach_directory_atomic s p nm c i d rs in
  s_dentries s' = delete (p, nm) (s_dentries s) /\
  s_inodes s' = <[inode_id i := i]> (s_inodes s) /\ s_detached s' = <[c := d]> (s_detached s).
Proof. by destruct s. Qed.

(** C32. A successful Delete removes exactly the entry its path names, and
    only if that entry still is the expected inode with the expected lease. The
    inode is never a mount root. A recursive delete of a directory keeps the
    inode and marks it detached; every other delete requires that nothing lives
    below the inode and removes it. *)
Theorem delete_removes_entry n s a now rs s' :
  ready n s -> apply_delete s a now rs = Ok s' ->
  exists parent name i,
    da_relative_components a = removelast (da_relative_components a) ++ [name] /\
    lookup_path (s_dentries s) (da_mount_root_inode_id a) (removelast (da_relative_components a)) = Some parent /\
    s_dentries s !! (parent, name) = Some (da_expected_inode_id a) /\
    s_inodes s !! da_expected_inode_id a = Some i /\
    inode_lease_epoch i = da_expected_file_lease_epoch a /\
    ~ is_mount_root (s_mounts s) (da_expected_inode_id a) /\
    s_dentries s' = delete (parent, name) (s_dentries s) /\
    (forall k, k <> parent -> k <> da_expected_inode_id a -> s_inodes s' !! k = s_inodes s !! k) /\
    if is_dir i && da_recursive a
    then s_detached s' = <[da_expected_inode_id a := mk_DetachedRoot (inode_mount_id i) now]> (s_detached s) /\
         is_Some (s_inodes s' !! da_expected_inode_id a)
    else s_detached s' = s_detached s /\ s_inodes s' !! da_expected_inode_id a = None /\
         forall x, ~ child (s_dentries s) (da_expected_inode_id a) x.
Proof.
  intros Hs H. pose proof (rd_tree _ _ Hs) as HT. unfold apply_delete in H.
  unbind H as [[pid name] i] Hres. unbind H as [] Hexp. bool_prop.
  apply (resolve_delete_target_Ok n) in Hres as (Hcs & Hpath & Hd & Hi & Hroot); [|done].
  rewrite Hexp in *. exists pid, name, i.
  assert (forall ip (I0 : gmap InodeId Inode), s_inodes s !! pid = Some ip ->
    (forall k, k <> da_expected_inode_id a -> I0 !! k = s_inodes s !! k) ->
    forall k, k <> pid -> k <> da_expected_inode_id a ->
      <[inode_id (touch_parent ip now) := touch_parent ip now]> I0 !! k = s_inodes s !! k) as Hother.
  { intros ip I0 Hp HI k H1 H2. rewrite (touch_id _ _ _ _ _ _ _ now HT Hp).
    rewrite lookup_insert_ne by done. auto. }
  destruct (is_dir i) eqn:Hdir; simpl; unbind H as [] Hpre; bool_prop.
  - assert (inode_lease_epoch i = da_expected_file_lease_epoch a) as Hle.
    { unfold is_dir in Hdir. unfold inode_lease_epoch. rewrite Hpre. by destruct (inode_kind i). }
    destruct (da_recursive a).
    + apply apply_detach_directory_Ok in H as (ip & i' & _ & Hp & Hi' & _ & _ & ->). simplify_eq.
      edestruct (detach_fields s pid name) as (-> & -> & ->). rewrite (touch_id _ _ _ _ _ _ _ now HT Hp).
      split_and!; try done; [by intros; rewrite lookup_insert_ne|]. rewrite lookup_insert. case_decide; eauto.
    + apply apply_delete_empty_dir_Ok in H as (c & ip & i' & Hc & Hp & Hi' & _ & -> & Hleaf). simplify_eq.
      edestruct (unlink_fields s pid name) as (-> & -> & ->). split_and!; try done.
      * apply Hother; [done|]. intros. by rewrite lookup_delete_ne.
      * rewrite (touch_id _ _ _ _ _ _ _ now HT Hp), lookup_insert_ne, lookup_delete_eq; [done|].
        intros ->. eapply Hleaf. by exists name.
  - eapply apply_unlink_Ok in H as (c & ip & i' & Hc & Hp & Hi' & _ & -> & Hleaf); [|done]. simplify_eq.
    edestruct (unlink_fields s pid name) as (-> & -> & ->). split_and!; try done.
    + apply Hother; [done|]. intros. by rewrite lookup_delete_ne.
    + rewrite (touch_id _ _ _ _ _ _ _ now HT Hp), lookup_insert_ne, lookup_delete_eq; [done|].
      intros ->. eapply Hleaf. by exists name.
Qed.

Lemma delete_removes_entry_witness :
  apply_delete s_sub delete_d 140 rs0 = Ok s_det /\
  exists parent name i, s_dentries s_sub !! (parent, name) = Some 2 /\
    s_inodes s_sub !! 2 = Some i /\ s_dentries s_det = delete (parent, name) (s_dentries s_sub).
Proof.
  split; [by vm_compute|].
  edestruct (delete_removes_entry 5 s_sub delete_d 140 rs0 s_det)
    as (p & nm & i & _ & _ & H1 & H2 & _ & _ & H3 & _); [apply s_sub_ready|by vm_compute|].
  exists p, nm, i. split; [exact H1|split; [exact H2|exact H3]].
Defined.

(** ** CreateFile *)

Lemma create_batch_fields s pid name i ip n ops rs :
  Forall (fun op => is_replay_op op = true) ops ->
  let s' := write_batch s (create_batch pid name i ip ++ [PutNextInodeId n] ++ ops ++ [PutRaftState rs]) in
  s_inodes s' = <[inode_id ip := ip]> (<[inode_id i := i]> (s_inodes s)) /\
  s_dentries s' = <[(pid, name) := inode_id i]> (s_dentries s) /\ s_mounts s' = s_mounts s /\
  s_next_inode_id s' = Some n.
Proof.
  intros Hops. rewrite app_assoc, write_batch_app, write_batch_app.
  destruct (replay_ops_tree (write_batch s (create_batch pid name i ip ++ [PutNextInodeId n])) ops Hops)
    as (E1 & E2 & E3 & _ & E5). destruct (write_batch (write_batch s _) ops). destruct s; simpl in *. by subst.
Qed.

Lemma validate_relative_components_intro cs s m e r x :
  resolve_create_parent s m e r cs = Ok x -> validate_relative_components cs = Ok tt.
Proof. unfold resolve_create_parent. intros H. by unbind H as [] Hv. Qed.

(** A CreateFile that is not a replay gives the path a new inode with a
    fresh id: before, the path named nothing; afterwards it names an empty file
    of the requested layout, at generation zero, with no blocks issued and under
    write lease epoch one, which the response reports. *)
Theorem create_file_effect n s a now rs s' r :
  ready n s -> s_replays s !! ca_operation_id a = None -> apply_create s a now rs = Ok (s', r) ->
  lookup_path (s_dentries s) (ca_mount_root_inode_id a) (ca_relative_components a) = None /\
  lookup_path (s_dentries s') (ca_mount_root_inode_id a) (ca_relative_components a) = Some (rr_inode_id r) /\
  s_inodes s !! rr_inode_id r = None /\ rr_inode_id r = n /\ s_next_inode_id s' = Some (n + 1) /\
  lookup_file s' (rr_inode_id r) = Some (mk_FileData (ca_layout a) 0 0 [] 0 1 None) /\
  rr_lease_epoch r = 1 /\ rr_generation r = 0 /\ rr_layout r = ca_layout a.
Proof.
  intros Hs Hnew H. pose proof Hs as [Hnext Hn HT].
  apply apply_create_fresh in H
    as (pid & name & parent & n' & ops & Hres & _ & _ & _ & Hfree & Hnx & _ & _ & -> & Hops & ->); [|done].
  rewrite Hnext in Hnx. injection Hnx as <-. pose proof (alloc_fresh HT) as Hfresh.
  apply resolve_create_parent_Ok in Hres as (-> & Hp & Hdir & _ & _ & Hcs & Hpath).
  pose proof (batch_put_create_file_replay_ops _ _ _ _ Hops) as Hro.
  edestruct (create_batch_fields s) as (HI & HD & _ & HN); [exact Hro|].
  unfold lookup_file. rewrite HI, HD, HN. cbn [inode_id initial_file new_file with_file inode_kind].
  split_and!; try done.
  - rewrite Hcs, lookup_path_app, Hpath. simpl. by rewrite Hfree.
  - rewrite Hcs, lookup_path_app. erewrite lookup_path_mono; [|  |exact Hpath]; simpl.
    + by rewrite lookup_insert_eq.
    + intros k c Hk. rewrite lookup_insert_ne; [done|]. intros <-. congruence.
  - rewrite lookup_insert_ne, lookup_insert_eq; [done|]. intros E. simpl in *. congruence.
Qed.

Lemma create_file_effect_witness :
  exists r, apply_create s_dir create_f 120 rs0 = Ok (s_file, r) /\
    lookup_path (s_dentries s_file) 1 ["f"] = Some (rr_inode_id r).
Proof.
  eexists. split; [vm_compute; reflexivity|].
  eapply (create_file_effect 3 s_dir create_f 120 rs0 s_file); [apply s_dir_ready|by vm_compute|].
  vm_compute. reflexivity.
Defined.

(** Path resolution survives new entries and attribute updates. *)
Definition inode_ext (I I' : gmap InodeId Inode) : Prop :=
  forall k i, I !! k = Some i -> exists i', I' !! k = Some i' /\
    inode_id i' = inode_id i /\ inode_mount_id i' = inode_mount_id i /\ is_dir i' = is_dir i.

Lemma walk_create_parent_ext s s' m cs p p' q :
  inode_ext (s_inodes s) (s_inodes s') ->
  (forall k c, s_dentries s !! k = Some c -> s_dentries s' !! k = Some c) ->
  inode_id p' = inode_id p -> walk_create_parent s m p cs = Ok q ->
  exists q', walk_create_parent s' m p' cs = Ok q' /\ inode_id q' = inode_id q.
Proof.
  intros HI HD. revert p p'. induction cs as [|c cs IH]; intros p p' Hid H; simpl in *; [naive_solver|].
  unbind H as cid Hc. unbind H as ch Hch. unbind H as [] Hck. unbind H as [] Hdir. bool_prop.
  unfold get_dentry, get_inode in *. rewrite Hid, (HD _ _ Hc). simpl.
  destruct (HI _ _ Hch) as (ch' & -> & E1 & E2 & E3). simpl.
  rewrite (bool_decide_eq_false_2 (inode_id ch' ≠ cid)), (bool_decide_eq_false_2 (inode_mount_id ch' ≠ m))
    by same.
  simpl. rewrite E3, Hdir. simpl. by eapply IH.
Qed.

Lemma resolve_create_parent_ext s s' m e root cs pid name parent :
  inode_ext (s_inodes s) (s_inodes s') -> s_mounts s' = s_mounts s ->
  (forall k c, s_dentries s !! k = Some c -> s_dentries s' !! k = Some c) ->
  resolve_create_parent s m e root cs = Ok (pid, name, parent) ->
  exists parent', resolve_create_parent s' m e root cs = Ok (pid, name, parent').
Proof.
  intros HI HM HD H. unfold resolve_create_parent in *. unbind H as [] Hv. unbind H as en He.
  unbind H as [] Hep. unbind H as ir Hr. unbind H as [] Hrk. unbind H as nm Hl. unbind H as q Hw.
  injection H as <- <- <-. rewrite Hv. simpl. unfold get_mount, get_inode in *. rewrite HM, He. simpl.
  rewrite Hep. simpl. destruct (HI _ _ Hr) as (ir' & -> & E1 & E2 & E3). simpl.
  rewrite E1, E2, E3, Hrk. simpl. rewrite Hl. simpl.
  destruct (walk_create_parent_ext s s' m (removelast cs) ir ir' q) as (q' & -> & E); [done..|].
  simpl. rewrite E. eauto.
Qed.

Lemma create_inode_ext I n i p ip now :
  I !! n = None -> I !! p = Some ip -> inode_ext I (<[p := touch_parent ip now]> (<[n := i]> I)).
Proof.
  intros Hn Hp k j Hk. rewrite !lookup_insert. destruct (touch_parent_same ip now) as (? & ? & ? & _).
  case_decide; [simplify_eq; eauto|]. case_decide; [congruence|]. eauto.
Qed.



(** ** Recursive CreateDirectory *)

Lemma mkdir_loop_path n s attrs now comps parent next entries last next' entries' :
  2 <= n -> tree_of n s -> mkdir_inv n s next entries parent -> Forall valid_name comps ->
  mkdir_loop s attrs now parent next entries comps = Ok (last, next', entries') ->
  lookup_path (s_dentries (planned s entries')) (inode_id parent) comps = Some (inode_id last) /\
  (forall k c, s_dentries (planned s entries) !! k = Some c -> s_dentries (planned s entries') !! k = Some c).
Proof.
  intros Hn Hs. revert parent next entries.
  induction comps as [|name comps IH]; intros parent next entries Hinv Hnames H; simpl in H.
  { by simplify_eq. }
  apply Forall_cons in Hnames as [Hname Hnames]. unfold get_dentry, get_inode in H. simpl.
  destruct (s_dentries s !! (inode_id parent, name)) as [cid|] eqn:Hd.
  - unbind H as ch Hc. unbind H as [] Hdir. bool_prop.
    destruct (ti_inode _ _ _ _ _ Hs _ _ Hc) as (Hid & _).
    destruct Hinv as [Hr HT HR Hp Hpd HM Hle [->|Hf]]; [|by destruct (Hf name); congruence].
    apply IH in H as [Hpath Hmono]; [| |done].
    + split; [|done]. rewrite (Hmono _ _ Hd). simpl. by rewrite <- Hid.
    + split; [done..|by rewrite Hid|done|done|done|by left].
  - unbind H as nx Hnx. apply checked_add64_Some in Hnx as [-> Hmax].
    assert (s_dentries (planned s entries) !! (inode_id parent, name) = None) as Hfree.
    { destruct Hinv as [_ _ _ _ _ _ _ [->|Hf]]; [done|by apply Hf]. }
    apply IH in H as [Hpath Hmono]; [|by apply mkdir_inv_create|done]. rewrite planned_snoc in Hmono.
    destruct (planned s entries) as [I D M W re me nx r ri rx rc T rst]. simpl in *.
    split.
    + rewrite (Hmono (inode_id parent, name) next); [done|]. by rewrite lookup_insert_eq.
    + intros k c Hk. apply Hmono. rewrite lookup_insert_ne; [done|]. intros <-. congruence.
Qed.

Lemma mkdir_loop_existing n s attrs now comps p next entries q iq :
  tree_of n s -> lookup_path (s_dentries s) (inode_id p) comps = Some q ->
  s_inodes s !! inode_id p = Some p -> s_inodes s !! q = Some iq -> is_dir iq = true ->
  mkdir_loop s attrs now p next entries comps = Ok (iq, next, entries).
Proof.
  intros HT. revert p. induction comps as [|c comps IH]; intros p Hpath Hp Hq Hdir; simpl in *; [congruence|].
  unfold get_dentry, get_inode. destruct (s_dentries s !! (inode_id p, c)) as [x|] eqn:Hx; [|done]. simpl in *.
  destruct (ti_dentry _ _ _ _ _ HT _ _ _ Hx) as (_ & _ & ix & _ & _ & Hix & _). rewrite Hix. simpl.
  destruct (ti_inode _ _ _ _ _ HT _ _ Hix) as (Hid & _).
  assert (is_dir ix = true) as ->; [|by apply IH; rewrite ?Hid].
  destruct comps as [|c' comps]; simpl in Hpath; [congruence|].
  destruct (s_dentries s !! (x, c')) as [y|] eqn:Hy; [|done].
  eapply (parent_is_dir HT); [by exists c'|done].
Qed.

Lemma create_directory_store n s root comps attrs now rs s' id at' :
  ready n s -> Forall valid_name comps ->
  apply_create_directory s root comps attrs now rs = Ok (s', (id, at')) ->
  comps <> [] /\ is_Some (s_inodes s !! root) /\
  lookup_path (s_dentries s') root comps = Some id /\
  (exists i, s_inodes s' !! id = Some i /\ is_dir i = true) /\
  (forall k c, s_dentries s !! k = Some c -> s_dentries s' !! k = Some c).
Proof.
  intros [Hnext Hn HT] Hnames H. unfold apply_create_directory in H.
  unbind H as [] Hne. unbind H as ip Hp. unbind H as [] Hdir. unbind H as al Hal.
  unbind H as [[last next'] entries] Hloop. unbind H as s1 Hs1. injection H as <- <- <-. bool_prop.
  apply prepare_inode_allocation_Ok in Hal as (Hnx & _ & _ & _). rewrite Hnext in Hnx. injection Hnx as ->.
  destruct (ti_inode _ _ _ _ _ HT _ _ Hp) as (Hid & _).
  assert (mkdir_inv (al_inode_id al) s (al_inode_id al) [] ip) as Hinit.
  { split; [lia|done|done|by rewrite Hid|done|done|apply inodes_le_refl|by left]. }
  pose proof (mkdir_loop_inv (al_inode_id al) s _ _ _ _ _ _ _ _ _ ltac:(lia) HT Hinit Hnames Hloop)
    as [_ _ _ Hlast Hld _ _ _].
  eapply (mkdir_loop_path (al_inode_id al)) in Hloop as [Hpath Hmono]; [|lia|done..]. rewrite Hid in Hpath.
  assert (s_dentries s1 = s_dentries (planned s entries) /\ s_inodes s1 = s_inodes (planned s entries))
    as [-> ->]; [|by split_and!; eauto].
  case_bool_decide as He.
  - unfold create_directories_atomic in Hs1. unbind Hs1 as [] Hv. injection Hs1 as <-.
    unfold commit_authority_batch. rewrite !write_batch_app. fold (planned s entries).
    by destruct (planned s entries).
  - assert (entries = []) as -> by by destruct entries; [|destruct He].
    injection Hs1 as <-. by destruct s.
Qed.

(** A recursive CreateDirectory makes its whole path exist: afterwards the
    path names the returned directory and every entry that existed still names
    the same inode. Applying it again, as long as the id space is not exhausted,
    returns the same directory and changes nothing but the Raft state. *)
Theorem create_directory_effect n s root comps attrs now rs s' id at' now' rs' :
  ready n s -> Forall valid_name comps ->
  apply_create_directory s root comps attrs now rs = Ok (s', (id, at')) ->
  lookup_path (s_dentries s') root comps = Some id /\
  (forall k c, s_dentries s !! k = Some c -> s_dentries s' !! k = Some c) /\
  exists i, s_inodes s' !! id = Some i /\ is_dir i = true /\
    (s_next_inode_id s' <> Some u64_max ->
     apply_create_directory s' root comps attrs now' rs'
     = Ok (commit_applied_state s' rs', (id, inode_attrs i))).
Proof.
  intros Hs Hnames H.
  destruct (create_directory_store n s root comps attrs now rs s' id at' Hs Hnames H)
    as (Hne & [ir Hr] & Hpath & (i & Hi & Hdir) & Hmono).
  destruct (apply_create_directory_step n s root comps attrs now rs s' (id, at') Hs Hnames H)
    as [(n' & Hle & [Hnext' Hn' HT'] & _ & _) _].
  split; [done|]. split; [done|]. exists i. split; [done|]. split; [done|]. intros Hmax.
  destruct (ti_inode _ _ _ _ _ HT' _ _ Hi) as (Hid & _).
  assert (existsb (fun c => bool_decide (c = EmptyString)) comps = false) as Hv.
  { apply not_true_iff_false. intros (c & Hc & Hb)%existsb_exists. bool_prop.
    apply list_elem_of_In in Hc. rewrite Forall_forall in Hnames. by destruct (Hnames c Hc). }
  destruct comps as [|c comps]; [done|]. simpl in Hpath.
  destruct (s_dentries s' !! (root, c)) as [x|] eqn:Hx; [|done].
  destruct (ti_dentry _ _ _ _ _ HT' _ _ _ Hx) as (_ & ip & _ & Hp & Hpd & _).
  destruct (ti_inode _ _ _ _ _ HT' _ _ Hp) as (Hpid & _).
  assert (mkdir_loop s' attrs now' ip n' [] (c :: comps) = Ok (i, n', [])) as Hloop.
  { eapply mkdir_loop_existing; [done| |by rewrite Hpid|done|done]. rewrite Hpid. simpl. by rewrite Hx. }
  unfold apply_create_directory, get_inode. rewrite Hv, Hp.
  cbn -[mkdir_loop prepare_inode_allocation]. rewrite Hpd.
  rewrite (prepare_inode_allocation_total s' n' root ip); [|done|lia| |done|].
  - cbn -[mkdir_loop]. rewrite Hloop. simpl. by rewrite Hid.
  - assert (n' <> u64_max); [congruence|lia].
  - intros k j Hk. by apply (ti_inode _ _ _ _ _ HT') in Hk as (_ & ? & _).
Qed.

Lemma create_directory_effect_witness :
  exists s' id at', apply_create_directory s_dir 1 ["d"; "x"; "y"] attrs_new 120 rs0 = Ok (s', (id, at')) /\
    lookup_path (s_dentries s') 1 ["d"; "x"; "y"] = Some id.
Proof.
  eexists _, _, _. split; [vm_compute; reflexivity|].
  eapply (create_directory_effect 3 s_dir 1 ["d"; "x"; "y"] attrs_new 120 rs0 _ _ _ 130 rs0);
    [apply s_dir_ready|repeat constructor; vm_compute; congruence|vm_compute; reflexivity].
Defined.
