(* ===== verification/ApplyProps.v ===== *)
(** * Correctness of command application

    Commit discipline of [apply_committed], absence of panics, the invariant of
    every reachable store, and what holds along any sequence of commands. *)

From S2P Require Import Prelude Types Errors Inode Mount Store Namespace Tree NamespaceInv.
From S2P Require Import WriteApply Samples WriteProps Reclaim ReclaimProps Apply NoPanic Reach.
Local Open Scope Z_scope.

(** ** Every success commits the Raft position it was applied at *)

Lemma commit_raft_state s b rs : s_raft_state (commit_authority_batch s b rs) = Some rs.
Proof. unfold commit_authority_batch. rewrite write_batch_app. by destruct (write_batch s b). Qed.

Create HintDb commit.
#[export] Hint Resolve commit_raft_state : commit.

Section committing.
Implicit Types (s : Store) (rs : RaftState).

Lemma put_inode_raft s i rs : s_raft_state (put_inode_atomic s i rs) = Some rs.
Proof. apply commit_raft_state. Qed.
Lemma applied_raft s rs : s_raft_state (commit_applied_state s rs) = Some rs.
Proof. apply commit_raft_state. Qed.
Lemma unlink_raft s p nm c i rs : s_raft_state (unlink_inode_atomic s p nm c i rs) = Some rs.
Proof. apply commit_raft_state. Qed.
Lemma rename_raft s u rs : s_raft_state (rename_atomic s u rs) = Some rs.
Proof. apply commit_raft_state. Qed.
Lemma detach_raft s p nm r i d rs : s_raft_state (detach_directory_atomic s p nm r i d rs) = Some rs.
Proof. apply commit_raft_state. Qed.
Lemma bootstrap_raft s i m rs : s_raft_state (bootstrap_namespace_atomic s i m rs) = Some rs.
Proof. apply commit_raft_state. Qed.
Lemma reclaim_raft s u rs : s_raft_state (reclaim_detached_roots_atomic s u rs) = Some rs.
Proof. apply commit_raft_state. Qed.
End committing.

#[export] Hint Resolve put_inode_raft applied_raft unlink_raft rename_raft detach_raft bootstrap_raft
  reclaim_raft : commit.

Section run.
Context (raft_state_len : RaftState -> Z) (marker_len : DetachedRoot -> Z).
Implicit Types (s : Store) (c : Command) (rs : RaftState).
Notation run := (run_command raft_state_len marker_len).

Lemma run_command_raft s c rs s' r : run s c rs = Ok (s', r) -> s_raft_state s' = Some rs.
Proof.
  destruct c; simpl; intros H.
  - unfold apply_bootstrap_namespace in H. inv_run; subst; auto with commit.
  - unfold apply_create_directory, apply_mkdir, create_directories_atomic, create_dir_atomic in H.
    inv_run; subst; auto with commit.
  - unfold apply_create, create_file_atomic in H. inv_run; subst; auto with commit.
  - unfold apply_delete, apply_detach_directory, apply_delete_empty_dir, apply_unlink in H.
    inv_run; subst; auto with commit.
  - unfold apply_rename in H. inv_run; subst; auto with commit.
  - unfold apply_acquire_write_lease in H. inv_run; subst; auto with commit.
  - unfold apply_allocate_block in H. inv_run; subst; auto with commit.
  - unfold apply_end_write_lease in H. inv_run; subst; auto with commit.
  - unfold apply_publish_file in H. inv_run; subst; auto with commit.
  - unfold apply_commit_file in H. inv_run; subst; auto with commit.
  - unfold apply_register_worker, register_worker_atomic in H. inv_run; subst; auto with commit.
  - unfold apply_reclaim_detached_roots in H. inv_run; subst; auto with commit.
Qed.
End run.

(** ** Properties *)

Section properties.
Context (raft_state_len : RaftState -> Z) (marker_len : DetachedRoot -> Z).
Implicit Types (s : Store) (c : Command) (rs : RaftState).

(** C9. The commit discipline of [apply_committed]. A committed outcome, be
    it a success or a business rejection, always records the Raft position it was
    applied at; a rejection changes nothing else, is not a fatal failure, and its
    replicated form restores the original error; routing is published only for a
    successful bootstrap; and only fatal failures are refused. *)
Theorem apply_committed_outcome s c rs :
  match apply_committed raft_state_len marker_len s c rs with
  | Ok (s', out) =>
      s_raft_state s' = Some rs /\
      match ca_response out with
      | Ok r => run_command raft_state_len marker_len s c rs = Ok (s', r)
      | Err j =>
          run_command raft_state_len marker_len s c rs = Err (into_metadata_error j) /\
          is_fatal (into_metadata_error j) = false /\
          s' = write_batch s [PutRaftState rs] /\ ca_routing_delta out = RD_None
      | Panic => False
      end /\
      (forall e, ca_routing_delta out = RD_Upsert e ->
         exists now group, c = BootstrapNamespace now group /\ ca_response out = Ok (MountUpserted e))
  | Err (mk_FatalApplyError e) =>
      is_fatal e = true /\ run_command raft_state_len marker_len s c rs = Err e
  | Panic => run_command raft_state_len marker_len s c rs = Panic
  end.
Proof.
  unfold apply_committed. destruct (run_command raft_state_len marker_len s c rs) as [[s' r]|e|] eqn:E; [| |done].
  - split_and!; [by eapply run_command_raft|done|]. simpl. intros e He.
    destruct c; simpl in He; try done. destruct r; simplify_eq. by eauto.
  - destruct (from_metadata_error_cases e) as [[Hf ->]|(Hf & j & -> & <-)]; simpl; [done|].
    split_and!; [apply applied_raft|done|done|done| |]; destruct c; done.
Qed.

(** C38. Applying a command never panics, whatever the store holds: no
    [expect], [assert!] or [unreachable!] of the command handlers is reached. *)
Theorem apply_no_panic s c rs :
  (forall rs, 0 <= raft_state_len rs) -> (forall d, 0 <= marker_len d) -> command_typed c ->
  apply_committed raft_state_len marker_len s c rs <> Panic.
Proof.
  intros Hr Hm Hc. pose proof (np_run_command _ _ s c rs Hr Hm Hc) as Hnp. unfold apply_committed.
  destruct (run_command raft_state_len marker_len s c rs) as [[s' r]|e|]; [done| |done].
  destruct (from_metadata_error_cases e) as [[_ ->]|(_ & j & -> & _)]; done.
Qed.

(** C8. Every store a replica reaches by applying committed commands is
    consistent: it is either not yet bootstrapped, or its inodes, dentries, mounts
    and detached roots form a well-formed namespace under an allocator that is
    ahead of every inode; and the four replay indexes agree. *)
Theorem reachable_store_inv s :
  (forall rs, 0 <= raft_state_len rs) -> (forall d, 0 <= marker_len d) ->
  reachable raft_state_len marker_len admissible s -> store_inv s.
Proof.
  intros Hr Hm. induction 1 as [|s c rs s' out _ IH Hadm H]; [apply store_inv_empty|].
  by eapply committed_store_inv.
Qed.

(** If no rename moves a directory below itself, every inode of every
    reachable store is reachable from a mount root or from a detached root, so
    nothing is leaked: what no path names is on its way to reclamation. *)
Lemma reachable_rooted s :
  (forall rs, 0 <= raft_state_len rs) -> (forall d, 0 <= marker_len d) ->
  reachable raft_state_len marker_len (fun s c => admissible s c /\ outside_subtree s c) s ->
  store_inv s /\ rooted_of s.
Proof.
  intros Hr Hm. induction 1 as [|s c rs s' out _ [IH IHr] [Hadm Hout] H].
  - split; [apply store_inv_empty|]. by intros k i Hk.
  - destruct (committed_store_inv _ _ Hr Hm s c rs s' out IH Hadm H). auto.
Qed.
End properties.

(** ** Witnesses *)

Lemma apply_no_panic_witness :
  apply_committed sample_state_len sample_marker_len s_det (ReclaimDetachedRoots [2] 10 4096) rs0 <> Panic.
Proof.
  apply apply_no_panic; [intros; vm_compute; congruence..|]. vm_compute; congruence.
Defined.

Definition committed_store (r : result FatalApplyError (Store * CommittedApply)) (s : Store) : Store :=
  match r with Ok (s', _) => s' | _ => s end.

Definition sample_apply (s : Store) (c : Command) : Store :=
  committed_store (apply_committed sample_state_len sample_marker_len s c rs0) s.

Definition boot_command : Command := BootstrapNamespace 100 "g".
Definition mkdir_command : Command := CreateDirectory 110 1 ["a"; "b"] attrs_new true.
Definition s_ab : Store := sample_apply (sample_apply empty_store boot_command) mkdir_command.

(** [/a/b] is reached from the empty store by two commands. *)
Lemma s_ab_reachable :
  reachable sample_state_len sample_marker_len (fun s c => admissible s c /\ outside_subtree s c) s_ab.
Proof.
  eapply (reach_step _ _ _ (sample_apply empty_store boot_command) mkdir_command rs0);
    [eapply (reach_step _ _ _ empty_store boot_command rs0); [constructor|by split|vm_compute; reflexivity]
    | |vm_compute; reflexivity].
  split; [|done]. split; [done|]. repeat constructor; vm_compute; congruence.
Qed.

Lemma reachable_weaken rl ml (P Q : Store -> Command -> Prop) s :
  (forall s c, P s c -> Q s c) -> reachable rl ml P s -> reachable rl ml Q s.
Proof. intros HPQ. induction 1; [constructor|]. eapply reach_step; eauto. Qed.

Lemma reachable_store_inv_witness : s_dentries s_ab !! (2, "b") = Some 3 /\ store_inv s_ab.
Proof.
  split; [by vm_compute|].
  apply (reachable_store_inv sample_state_len sample_marker_len s_ab); [intros; vm_compute; congruence..|].
  eapply reachable_weaken; [|apply s_ab_reachable]. by intros ? ? [].
Defined.
