(* ===== verification/Determinism.v ===== *)
(** * Replicas stay equal

    The Raft state a replica persists with every command holds node-local parts:
    the vote, the commit position, the purged prefix. Replicas only stay equal if
    that state never influences what a command does. For every command but
    reclamation it does not; reclamation charges the serialised Raft state against
    its byte budget, so there it does, unless the budget has slack. *)

From S2P Require Import Prelude Types Errors Inode Mount Store Namespace Tree NamespaceInv.
From S2P Require Import WriteApply Samples Reclaim ReclaimProps Apply NoPanic Reach.
Local Open Scope Z_scope.

(** A store with another durable Raft state. *)
Definition with_raft (s : Store) (r : option RaftState) : Store :=
  mk_Store (s_inodes s) (s_dentries s) (s_mounts s) (s_workers s) (s_route_epoch s) (s_mount_epoch s)
    (s_next_inode_id s) (s_replays s) (s_replay_inode s) (s_replay_expiry s) (s_replay_count s)
    (s_detached s) r.

(** The stores of two replicas agree on all replicated state. *)
Definition same_data (s1 s2 : Store) : Prop := with_raft s1 None = with_raft s2 None.

#[global] Instance same_data_equiv : Equivalence same_data.
Proof. unfold same_data. split; repeat intro; congruence. Qed.

Lemma same_data_with s1 s2 : same_data s1 s2 -> s2 = with_raft s1 (s_raft_state s2).
Proof. destruct s1, s2. unfold same_data, with_raft. simpl. intros [=]. by subst. Qed.

Lemma same_data_with_raft s r : same_data s (with_raft s r).
Proof. done. Qed.

(** An outcome whose store carries another Raft state. *)
Definition at_raft {A} (rs : RaftState) (m : MetadataResult (Store * A)) : MetadataResult (Store * A) :=
  '(s, a) ← m; Ok (with_raft s (Some rs), a).

Lemma write_batch_with s r b :
  Forall (fun op => forall x, op <> PutRaftState x) b ->
  write_batch (with_raft s r) b = with_raft (write_batch s b) r.
Proof.
  intros Hb. revert s. induction Hb as [|op b Hop _ IH]; intros s; [done|].
  unfold write_batch in *. simpl. rewrite <- IH. f_equal. destruct s, op; try done. by edestruct Hop.
Qed.

Lemma commit_with s r b rs rs' :
  Forall (fun op => forall x, op <> PutRaftState x) b ->
  commit_authority_batch (with_raft s r) b rs' = with_raft (commit_authority_batch s b rs) (Some rs').
Proof.
  intros Hb. unfold commit_authority_batch. rewrite !write_batch_app, write_batch_with by done.
  by destruct (write_batch s b).
Qed.

Ltac no_raft := repeat constructor; discriminate.

Lemma bind_cong {E A B} (m m' : result E A) (f g : A -> result E B) :
  m = m' -> (forall a, m' = Ok a -> f a = g a) -> mbind f m = mbind g m'.
Proof. intros -> H. destruct m'; simpl; auto. Qed.

(** Compare two runs of a handler bind by bind. *)
Ltac lockstep :=
  repeat match goal with
  | |- forall _, _ => intros
  | |- mbind _ _ = mbind _ _ => apply bind_cong; [solve [reflexivity|auto]|]
  | |- match ?x with _ => _ end = match ?x with _ => _ end => destruct x
  end.

Section readers.
Context (s : Store) (r : option RaftState).
Notation s' := (with_raft s r).

Lemma mkdir_loop_with a now p nx es cs : mkdir_loop s' a now p nx es cs = mkdir_loop s a now p nx es cs.
Proof.
  revert p nx es. induction cs as [|c cs IH]; intros p nx es; simpl; [done|].
  change (get_dentry s') with (get_dentry s). change (get_inode s') with (get_inode s). lockstep; auto.
Qed.

Lemma walk_create_with m p cs : walk_create_parent s' m p cs = walk_create_parent s m p cs.
Proof.
  revert p. induction cs as [|c cs IH]; intros p; simpl; [done|].
  change (get_dentry s') with (get_dentry s). change (get_inode s') with (get_inode s). lockstep; auto.
Qed.

Lemma walk_delete_with ms m p cs : walk_delete s' ms m p cs = walk_delete s ms m p cs.
Proof.
  revert p. induction cs as [|c cs IH]; intros p; [done|]. cbn [walk_delete].
  change (get_dentry s') with (get_dentry s). change (get_inode s') with (get_inode s).
  lockstep; auto.
Qed.

Lemma check_targets_with e ts : check_targets s' e ts = check_targets s e ts.
Proof.
  revert e. induction ts as [|t ts IH]; intros e; simpl; [done|].
  change (get_inode s') with (get_inode s). lockstep; auto.
Qed.
End readers.

(** The batches of the commands never contain a Raft state of their own. *)
Section batches.
Implicit Types (s : Store) (rs : RaftState).

Lemma put_inode_with s r i rs rs' :
  put_inode_atomic (with_raft s r) i rs' = with_raft (put_inode_atomic s i rs) (Some rs').
Proof. apply commit_with. no_raft. Qed.
Lemma applied_with s r rs rs' :
  commit_applied_state (with_raft s r) rs' = with_raft (commit_applied_state s rs) (Some rs').
Proof. apply commit_with. no_raft. Qed.
Lemma unlink_with s r p nm c i rs rs' :
  unlink_inode_atomic (with_raft s r) p nm c i rs' = with_raft (unlink_inode_atomic s p nm c i rs) (Some rs').
Proof. apply commit_with. no_raft. Qed.
Lemma detach_with s r p nm c i d rs rs' :
  detach_directory_atomic (with_raft s r) p nm c i d rs'
  = with_raft (detach_directory_atomic s p nm c i d rs) (Some rs').
Proof. apply commit_with. no_raft. Qed.
Lemma bootstrap_with s r i m rs rs' :
  bootstrap_namespace_atomic (with_raft s r) i m rs' = with_raft (bootstrap_namespace_atomic s i m rs) (Some rs').
Proof. apply commit_with. no_raft. Qed.
Lemma rename_with s r u rs rs' :
  rename_atomic (with_raft s r) u rs' = with_raft (rename_atomic s u rs) (Some rs').
Proof. apply commit_with. destruct u as [? ? ? ? ? [] [] []]; no_raft. Qed.
Lemma reclaim_with s r u rs rs' :
  reclaim_detached_roots_atomic (with_raft s r) u rs' = with_raft (reclaim_detached_roots_atomic s u rs) (Some rs').
Proof.
  apply commit_with, Forall_app. split; apply mjoin_Forall, Forall_fmap, Forall_true.
  - intros [? ? ? []]; no_raft.
  - no_raft.
Qed.
Lemma create_dirs_with s r es x rs rs' :
  commit_authority_batch (with_raft s r) (mjoin (mkdir_entry_batch <$> es) ++ [PutNextInodeId x]) rs'
  = with_raft (commit_authority_batch s (mjoin (mkdir_entry_batch <$> es) ++ [PutNextInodeId x]) rs) (Some rs').
Proof.
  apply commit_with, Forall_app. split; [|no_raft]. apply mjoin_Forall, Forall_fmap, Forall_true. no_raft.
Qed.
Lemma create_file_with s r p nm i ip x ops rs rs' :
  Forall (fun op => is_replay_op op = true) ops ->
  commit_authority_batch (with_raft s r) (create_batch p nm i ip ++ [PutNextInodeId x] ++ ops) rs'
  = with_raft (commit_authority_batch s (create_batch p nm i ip ++ [PutNextInodeId x] ++ ops) rs) (Some rs').
Proof.
  intros Hops. apply commit_with. do 4 (constructor; [discriminate|]).
  eapply Forall_impl; [done|]. intros op Hop x' ->. done.
Qed.
End batches.

Lemma at_raft_bind {A B} rs (m : MetadataResult A) (f : A -> MetadataResult (Store * B)) :
  at_raft rs (mbind f m) = a ← m; at_raft rs (f a).
Proof. by destruct m. Qed.

Definition at_raft_store (rs : RaftState) (m : MetadataResult Store) : MetadataResult Store :=
  s ← m; Ok (with_raft s (Some rs)).

Lemma at_raft_store_bind {A} rs (m : MetadataResult A) (f : A -> MetadataResult Store) :
  at_raft_store rs (mbind f m) = a ← m; at_raft_store rs (f a).
Proof. by destruct m. Qed.

(** Reads do not see the Raft state. *)
Ltac raft_reads s r :=
  change (get_inode (with_raft s r)) with (get_inode s);
  change (get_dentry (with_raft s r)) with (get_dentry s);
  change (get_mount (with_raft s r)) with (get_mount s);
  change (list_mounts (with_raft s r)) with (list_mounts s);
  change (get_detached_root (with_raft s r)) with (get_detached_root s);
  change (get_layout_optional (with_raft s r)) with (get_layout_optional s);
  change (get_create_file_replay (with_raft s r)) with (get_create_file_replay s);
  change (get_create_file_replay_for_inode (with_raft s r)) with (get_create_file_replay_for_inode s);
  change (prepare_inode_allocation (with_raft s r)) with (prepare_inode_allocation s);
  change (bootstrap_namespace_state (with_raft s r)) with (bootstrap_namespace_state s);
  change (is_directory_empty (with_raft s r)) with (is_directory_empty s);
  change (load_file (with_raft s r)) with (load_file s).

(** Push the relabelling through a handler and compare bind by bind. *)
Ltac raft_steps :=
  repeat match goal with
  | |- _ = at_raft _ (mbind _ _) => rewrite at_raft_bind
  | |- _ = at_raft_store _ (mbind _ _) => rewrite at_raft_store_bind
  | |- forall _, _ => intros
  | |- mbind _ _ = mbind _ _ => apply bind_cong; [solve [reflexivity|auto]|]
  | |- match ?x with _ => _ end = _ => destruct x
  | |- Err _ = _ => reflexivity
  | |- Panic = _ => reflexivity
  end.

Section handlers.
Context (s : Store) (r : option RaftState) (rs rs' : RaftState).
Notation s' := (with_raft s r).

Lemma resolve_create_with m e root cs :
  resolve_create_parent s' m e root cs = resolve_create_parent s m e root cs.
Proof. unfold resolve_create_parent. raft_reads s r. lockstep. by rewrite walk_create_with. Qed.

Lemma validate_targets_with al ts :
  validate_inode_allocation_targets s' al ts = validate_inode_allocation_targets s al ts.
Proof.
  unfold validate_inode_allocation_targets. change (s_next_inode_id s') with (s_next_inode_id s).
  lockstep. by rewrite check_targets_with.
Qed.

Lemma validate_replay_with x now : validate_create_file_replay s' x now = validate_create_file_replay s x now.
Proof. unfold validate_create_file_replay. by rewrite resolve_create_with. Qed.

Lemma apply_bootstrap_with g now :
  apply_bootstrap_namespace s' g now rs' = at_raft rs' (apply_bootstrap_namespace s g now rs).
Proof.
  unfold apply_bootstrap_namespace. raft_reads s r. raft_steps; simpl; by erewrite ?applied_with, ?bootstrap_with.
Qed.

Lemma apply_mkdir_with p nm a now :
  apply_mkdir s' p nm a now rs' = at_raft rs' (apply_mkdir s p nm a now rs).
Proof.
  unfold apply_mkdir, create_dir_atomic. raft_reads s r. raft_steps.
  rewrite validate_targets_with. destruct (validate_inode_allocation_targets _ _ _); simpl; try done.
  erewrite commit_with; [done|]. no_raft.
Qed.

Lemma apply_create_directory_with p cs a now :
  apply_create_directory s' p cs a now rs' = at_raft rs' (apply_create_directory s p cs a now rs).
Proof.
  unfold apply_create_directory, create_directories_atomic. raft_reads s r. raft_steps.
  rewrite mkdir_loop_with. raft_steps.
  match goal with |- context [if ?b then _ else _] => destruct b end;
    [|cbn [mbind result_bind]; by erewrite applied_with].
  rewrite validate_targets_with. destruct (validate_inode_allocation_targets _ _ _); simpl; try done.
  by erewrite create_dirs_with.
Qed.

Lemma apply_create_with a now : apply_create s' a now rs' = at_raft rs' (apply_create s a now rs).
Proof.
  unfold apply_create, create_file_atomic. raft_reads s r. raft_steps.
  - rewrite validate_replay_with. raft_steps. simpl. by erewrite applied_with.
  - rewrite resolve_create_with. raft_steps. rewrite validate_targets_with.
    destruct (validate_inode_allocation_targets _ _ _); [cbn [mbind result_bind]|done|done].
    change (batch_put_create_file_replay s') with (batch_put_create_file_replay s).
    destruct (batch_put_create_file_replay s _ _) as [ops| |] eqn:Hops; [cbn [mbind result_bind]|done|done].
    apply batch_put_create_file_replay_ops in Hops. by erewrite create_file_with.
Qed.

Lemma resolve_delete_with m e root cs :
  resolve_delete_target s' m e root cs = resolve_delete_target s m e root cs.
Proof. unfold resolve_delete_target. raft_reads s r. lockstep. by rewrite walk_delete_with. Qed.

Lemma apply_delete_with a now : apply_delete s' a now rs' = at_raft_store rs' (apply_delete s a now rs).
Proof.
  unfold apply_delete, apply_unlink, apply_delete_empty_dir, apply_detach_directory. raft_reads s r.
  rewrite resolve_delete_with. raft_steps; simpl; by erewrite ?unlink_with, ?detach_with.
Qed.

Lemma apply_rename_with a now : apply_rename s' a now rs' = at_raft_store rs' (apply_rename s a now rs).
Proof.
  unfold apply_rename. change (prepare_rename s') with (prepare_rename s). raft_steps. simpl.
  by erewrite rename_with.
Qed.

Lemma apply_acquire_with id e now :
  apply_acquire_write_lease s' id e now rs' = at_raft rs' (apply_acquire_write_lease s id e now rs).
Proof. unfold apply_acquire_write_lease. raft_reads s r. raft_steps. simpl. by erewrite put_inode_with. Qed.

Lemma apply_allocate_with id e :
  apply_allocate_block s' id e rs' = at_raft rs' (apply_allocate_block s id e rs).
Proof. unfold apply_allocate_block. raft_reads s r. raft_steps. simpl. by erewrite put_inode_with. Qed.

Lemma apply_end_with id e :
  apply_end_write_lease s' id e rs' = at_raft rs' (apply_end_write_lease s id e rs).
Proof.
  unfold apply_end_write_lease. raft_reads s r. raft_steps; simpl; by erewrite ?put_inode_with, ?applied_with.
Qed.

Lemma apply_publish_with id p now :
  apply_publish_file s' id p now rs' = at_raft rs' (apply_publish_file s id p now rs).
Proof.
  unfold apply_publish_file. raft_reads s r. raft_steps; simpl; by erewrite ?put_inode_with, ?applied_with.
Qed.

Lemma apply_commit_with id cl ca p now :
  apply_commit_file s' id cl ca p now rs' = at_raft rs' (apply_commit_file s id cl ca p now rs).
Proof.
  unfold apply_commit_file. raft_reads s r. raft_steps; simpl; by erewrite ?put_inode_with, ?applied_with.
Qed.

Lemma apply_register_with g id ad p f :
  apply_register_worker s' g id ad p f rs' = at_raft rs' (apply_register_worker s g id ad p f rs).
Proof.
  unfold apply_register_worker, register_worker_atomic. raft_steps.
  destruct (reject_if _ _); simpl; try done. erewrite commit_with; [done|]. no_raft.
Qed.
End handlers.

(** ** Reclamation with slack *)

(** The loop state of a replica whose Raft state is [delta] bytes longer. *)
Definition shift (delta : Z) (st : ReclaimState) : ReclaimState :=
  mk_ReclaimState (rc_update st) (rc_bytes st + delta) (rc_seen st) (rc_planned st)
    (rc_processed st) (rc_created st).

Section slack.
Context (marker_len : DetachedRoot -> Z) (marker_len_bound : forall d, 0 <= marker_len d <= 18).
Context (s : Store) (max_entries max_bytes delta : Z).
Context (Hbytes : max_bytes <= MAX_RECLAIM_DETACHED_ROOT_BATCH_BYTES).
Implicit Types (st : ReclaimState).

(** Room for every entry the entry budget still admits and for [k] completions. *)
Definition fits (k : Z) st : Prop :=
  0 <= k /\ 0 <= rc_processed st <= max_entries /\
  rc_bytes st + 296 * (max_entries - rc_processed st) + 22 * k <= max_bytes.

Lemma entry_bytes_bound root nm c d mr e :
  prepare_detached_root_entry s root nm c d mr = Ok e ->
  entry_logical_bytes marker_len e = Ok (entry_size marker_len e) /\ entry_size marker_len e <= 296.
Proof.
  intros He. pose proof (prepare_entry_Ok _ _ _ _ _ _ _ He) as (_ & Hnm & _).
  unfold prepare_detached_root_entry in He. unbind He as [] Hn. bool_prop.
  assert (entry_size marker_len e <= 296) as Hle.
  { unfold entry_size, dentry_key_len, detached_root_key_len, inode_key_len, MAX_PATH_COMPONENT_BYTES in *.
    rewrite Hnm. destruct (re_child_detached_root e) as [d'|]; [pose proof (marker_len_bound d')|]; lia. }
  split; [|done]. apply entry_logical_bytes_Ok; [apply marker_len_bound|]. unfold u64_max. split; [done|lia].
Qed.

Lemma page_entries_shift k root d mr st page :
  fits k st -> fits k (shift delta st) ->
  page_entries marker_len s max_entries max_bytes root d mr (shift delta st) page
  = ('(st', how) ← page_entries marker_len s max_entries max_bytes root d mr st page; Ok (shift delta st', how)) /\
  (forall st' how, page_entries marker_len s max_entries max_bytes root d mr st page = Ok (st', how) ->
     fits k st' /\ fits k (shift delta st') /\ how <> ByteBudget).
Proof.
  unfold MAX_RECLAIM_DETACHED_ROOT_BATCH_BYTES in Hbytes. revert st.
  induction page as [|[nm c] page IH]; intros st Hf Hf'; simpl; [split; [done|by intros st' how [= <- <-]]|].
  case_bool_decide as Hbud; [split; [done|by intros st' how [= <- <-]]|].
  destruct (reject_if (bool_decide (c ∈ _)) _); simpl; [|split; done..].
  destruct (prepare_detached_root_entry _ _ _ _ _ _) as [e| |] eqn:He; simpl; [|split; done..].
  destruct (entry_bytes_bound _ _ _ _ _ _ He) as [-> Hsz]. simpl.
  destruct Hf as (Hk & Hp & Hf), Hf' as (_ & _ & Hf'). simpl in Hf'.
  rewrite (proj2 (checked_add_usize_Ok (rc_bytes st + delta) _ _)) by (unfold u64_max; split; [done|lia]).
  rewrite (proj2 (checked_add_usize_Ok (rc_bytes st) _ _)) by (unfold u64_max; split; [done|lia]).
  simpl. rewrite !(proj2 (Z.ltb_ge max_bytes _)) by lia.
  destruct (IH (push_entry (plan_inode st c) e (rc_bytes st + entry_size marker_len e))) as [E Hok].
  - unfold fits. simpl. lia.
  - unfold fits. simpl. lia.
  - split; [|done]. rewrite <- E. unfold shift, push_entry, plan_inode. simpl. do 2 f_equal. lia.
Qed.

Lemma reclaim_loop_shift st cands :
  fits (Z.of_nat (length cands)) st -> fits (Z.of_nat (length cands)) (shift delta st) ->
  reclaim_loop marker_len s max_entries max_bytes (shift delta st) cands
  = (st' ← reclaim_loop marker_len s max_entries max_bytes st cands; Ok (shift delta st')).
Proof.
  unfold MAX_RECLAIM_DETACHED_ROOT_BATCH_BYTES in Hbytes. revert st.
  induction cands as [|r cands IH]; intros st Hf Hf'; [done|].
  assert (forall st0 k, fits (Z.of_nat (length (r :: cands))) st0 -> k = Z.of_nat (length cands) -> fits k st0)
    as Hless by (unfold fits; simpl; lia).
  cbn [reclaim_loop]. simpl (rc_seen (shift delta st)). case_bool_decide as Hseen; [apply IH; eauto|].
  change (see_candidate (shift delta st) r) with (shift delta (see_candidate st r)).
  destruct (get_detached_root s r) as [[d|]| |]; simpl; [| |done|done].
  2: { apply (IH (see_candidate st r)); [apply (Hless _ _ Hf eq_refl)|apply (Hless _ _ Hf' eq_refl)]. }
  destruct (validate_detached_root s r d) as [mr| |]; simpl; [|done|done].
  destruct (list_dentries_for_reclaim s r _) as [[page eof]| |]; simpl; [|done|done].
  destruct (page_entries_shift (Z.of_nat (length (r :: cands))) r d mr (see_candidate st r) page) as [E Hok];
    [done|done|].
  rewrite E.
  destruct (page_entries _ _ _ _ _ _ _ (see_candidate st r) page) as [[st1 how]| |]; simpl; [|done|done].
  destruct (Hok st1 how eq_refl) as (Hf1 & Hf1' & Hhow). destruct how; [| |done].
  - destruct eof; [|apply IH; eauto]. unfold completed_root_logical_bytes.
    simpl. change (inode_key_len + detached_root_key_len) with 22.
    unfold fits in *. simpl in *.
    rewrite !(proj2 (checked_add_usize_Ok _ _ _)) by (split; [reflexivity|unfold u64_max; lia]). simpl.
    rewrite !(proj2 (Z.ltb_ge max_bytes _)) by lia.
    rewrite <- IH; [|unfold fits; simpl; lia..]. f_equal. unfold shift, push_completed. simpl. f_equal. lia.
  - apply IH; eauto.
Qed.
End slack.

Section reclaim.
Context (raft_state_len : RaftState -> Z) (raft_state_len_nonneg : forall rs, 0 <= raft_state_len rs).
Context (marker_len : DetachedRoot -> Z) (marker_len_bound : forall d, 0 <= marker_len d <= 18).
Implicit Types (s : Store) (rs : RaftState).

Lemma page_entries_with s r me mb root d mr st page :
  page_entries marker_len (with_raft s r) me mb root d mr st page
  = page_entries marker_len s me mb root d mr st page.
Proof.
  revert st. induction page as [|[nm c] page IH]; intros st; simpl; [done|].
  change (prepare_detached_root_entry (with_raft s r)) with (prepare_detached_root_entry s).
  lockstep; auto.
Qed.

Lemma reclaim_loop_with s r me mb st cands :
  reclaim_loop marker_len (with_raft s r) me mb st cands = reclaim_loop marker_len s me mb st cands.
Proof.
  revert st. induction cands as [|c cands IH]; intros st; cbn [reclaim_loop]; [done|].
  change (get_detached_root (with_raft s r)) with (get_detached_root s).
  change (validate_detached_root (with_raft s r)) with (validate_detached_root s).
  change (list_dentries_for_reclaim (with_raft s r)) with (list_dentries_for_reclaim s).
  lockstep; auto. apply bind_cong; [apply page_entries_with|]. lockstep; auto.
Qed.

Definition initial (rs : RaftState) : ReclaimState :=
  mk_ReclaimState (mk_ReclaimUpdate [] []) (raft_state_key_len + raft_state_len rs) ∅ ∅ 0 0.

Definition reclaim_result (st : ReclaimState) : DetachedRootReclaimResult :=
  mk_ReclaimResult (rc_processed st) (Z.of_nat (length (ru_completed (rc_update st)))) (rc_created st)
    (rc_bytes st).

(** The budget covers the Raft state, every entry and every completion. *)
Definition slack (cands : list InodeId) (me mb : Z) rs : Prop :=
  raft_state_key_len + raft_state_len rs + 296 * me + 22 * Z.of_nat (length cands) <= mb.

Lemma reclaim_as_loop s cands me mb rs :
  0 <= me -> slack cands me mb rs ->
  apply_reclaim_detached_roots raft_state_len marker_len s cands me mb rs
  = (validate_detached_root_reclaim_command cands me mb;;
     st ← reclaim_loop marker_len s me mb (initial rs) cands;
     Ok (reclaim_detached_roots_atomic s (rc_update st) rs, reclaim_result st)).
Proof.
  intros Hme Hslack. unfold apply_reclaim_detached_roots, slack in *.
  destruct (validate_detached_root_reclaim_command cands me mb) as [[]| |] eqn:Hval; simpl; [|done|done].
  unfold validate_detached_root_reclaim_command in Hval. unbind Hval as [] Hv1. unbind Hval as [] Hv2. apply reject_if_Ok in Hval.
  unfold MIN_RECLAIM_DETACHED_ROOT_BATCH_BYTES, MAX_RECLAIM_DETACHED_ROOT_BATCH_BYTES,
    MAX_RECLAIM_DETACHED_ROOT_CANDIDATES in *. bool_prop.
  assert (forall d, 0 <= marker_len d) as Hml by (intros; apply marker_len_bound).
  assert (logical_batch_bytes raft_state_len marker_len (mk_ReclaimUpdate [] []) rs
          = Ok (raft_state_key_len + raft_state_len rs)) as Hb.
  { apply logical_batch_bytes_Ok; [done|done|]. unfold update_size, entries_size, u64_max. simpl. lia. }
  pose proof Hb as Hb'. rewrite Hb. simpl. unfold reject_if at 1. rewrite (proj2 (Z.ltb_ge mb _)) by lia. simpl.
  fold (initial rs). destruct (reclaim_loop marker_len s me mb (initial rs) cands) as [st| |] eqn:Hl; simpl; try done.
  apply (reclaim_loop_inv raft_state_len marker_len raft_state_len_nonneg Hml s rs) in Hl as [[] Hlen];
    [|apply rc_inv_init; [done|done|done|lia|done]].
  rewrite (proj2 (logical_batch_bytes_Ok _ _ raft_state_len_nonneg Hml _ rs (rc_bytes st)))
    by (unfold u64_max; split; [done|lia]).
  simpl. rewrite neq_refl_false. simpl in *.
  assert (0 <= rc_bytes st).
  { rewrite ri_bytes. unfold update_size, raft_state_key_len, inode_key_len, detached_root_key_len.
    pose proof (raft_state_len_nonneg rs). pose proof (entries_size_nonneg _ Hml (ru_entries (rc_update st))). lia. }
  unfold MAX_RECLAIM_DETACHED_ROOT_ENTRIES in *.
  do 4 (rewrite (proj2 (expect_u32_Ok _ _)) by (split; [reflexivity|unfold u32_max; lia])). done.
Qed.

Lemma reclaim_deterministic s r cands me mb rs rs' :
  0 <= me -> slack cands me mb rs -> slack cands me mb rs' ->
  apply_reclaim_detached_roots raft_state_len marker_len (with_raft s r) cands me mb rs'
  = ('(s1, res) ← apply_reclaim_detached_roots raft_state_len marker_len s cands me mb rs;
     Ok (with_raft s1 (Some rs'),
         mk_ReclaimResult (rs_processed_entries res) (rs_completed_roots res) (rs_created_roots res)
           (rs_logical_batch_bytes res + (raft_state_len rs' - raft_state_len rs)))).
Proof.
  intros Hme Hs Hs'. rewrite !reclaim_as_loop by done. rewrite reclaim_loop_with.
  destruct (validate_detached_root_reclaim_command cands me mb) as [[]| |] eqn:Hval; simpl; [|done|done].
  unfold validate_detached_root_reclaim_command in Hval. unbind Hval as [] Hv1. unbind Hval as [] Hv2. apply reject_if_Ok in Hval. bool_prop.
  replace (initial rs') with (shift (raft_state_len rs' - raft_state_len rs) (initial rs))
    by (unfold shift, initial; simpl; f_equal; lia).
  unfold slack in *. rewrite reclaim_loop_shift; [|done|lia|unfold fits; simpl; lia..].
  destruct (reclaim_loop marker_len s me mb (initial rs) cands) as [st| |]; simpl; [|done|done].
  by erewrite reclaim_with.
Qed.
End reclaim.

(** ** Properties *)

(** What the replicas must agree on: the store without its Raft state, and the
    response without the number of bytes this replica's batch took. *)
Definition forget_bytes (a : ApplySuccess) : ApplySuccess :=
  match a with
  | DetachedRootsReclaimed r =>
      DetachedRootsReclaimed (mk_ReclaimResult (rs_processed_entries r) (rs_completed_roots r)
                                (rs_created_roots r) 0)
  | a => a
  end.

Definition replicated (m : result FatalApplyError (Store * CommittedApply))
  : result FatalApplyError (Store * CommittedApply) :=
  '(s, out) ← m;
  Ok (with_raft s None, mk_CommittedApply (forget_bytes <$> ca_response out) (ca_routing_delta out)).

Definition reclaim_slack (raft_state_len : RaftState -> Z) (c : Command) (rs : RaftState) : Prop :=
  match c with
  | ReclaimDetachedRoots cands me mb => slack raft_state_len cands me mb rs
  | _ => True
  end.

Section properties.
Context (raft_state_len : RaftState -> Z) (marker_len : DetachedRoot -> Z).
Implicit Types (s : Store) (c : Command) (rs : RaftState).
Notation run := (run_command raft_state_len marker_len).

Definition strip (m : MetadataResult (Store * ApplySuccess)) : MetadataResult (Store * ApplySuccess) :=
  '(s, a) ← m; Ok (with_raft s None, forget_bytes a).

Lemma run_command_deterministic s r c rs rs' :
  (forall rs, 0 <= raft_state_len rs) -> (forall d, 0 <= marker_len d <= 18) -> command_typed c ->
  reclaim_slack raft_state_len c rs -> reclaim_slack raft_state_len c rs' ->
  strip (run (with_raft s r) c rs') = strip (run s c rs).
Proof.
  intros Hr Hm Hty Hs Hs'. destruct c; simpl in *.
  - rewrite (apply_bootstrap_with _ _ rs). by destruct (apply_bootstrap_namespace _ _ _ _) as [[]| |].
  - destruct recursive.
    + rewrite (apply_create_directory_with _ _ rs). by destruct (apply_create_directory _ _ _ _ _ _) as [[? []]| |].
    + destruct (reject_if _ _); simpl; [|done..]. destruct (expect (last components)) as [nm| |]; simpl; [|done..].
      rewrite (apply_mkdir_with _ _ rs). by destruct (apply_mkdir _ _ _ _ _ _) as [[? []]| |].
  - rewrite (apply_create_with _ _ rs). by destruct (apply_create _ _ _ _) as [[]| |].
  - rewrite (apply_delete_with _ _ rs). by destruct (apply_delete _ _ _ _).
  - rewrite (apply_rename_with _ _ rs). by destruct (apply_rename _ _ _ _).
  - rewrite (apply_acquire_with _ _ rs). by destruct (apply_acquire_write_lease _ _ _ _ _) as [[]| |].
  - rewrite (apply_allocate_with _ _ rs). by destruct (apply_allocate_block _ _ _ _) as [[]| |].
  - rewrite (apply_end_with _ _ rs). by destruct (apply_end_write_lease _ _ _ _) as [[]| |].
  - rewrite (apply_publish_with _ _ rs). by destruct (apply_publish_file _ _ _ _ _) as [[]| |].
  - destruct (ok_or _ _); simpl; [|done..].
    rewrite (apply_commit_with _ _ rs). by destruct (apply_commit_file _ _ _ _ _ _ _) as [[]| |].
  - rewrite (apply_register_with _ _ rs). by destruct (apply_register_worker _ _ _ _ _ _ _) as [[]| |].
  - rewrite (reclaim_deterministic _ Hr _ Hm _ _ _ _ _ rs) by done.
    by destruct (apply_reclaim_detached_roots _ _ _ _ _ _ _) as [[? []]| |].
Qed.

Lemma apply_committed_replicated s r c rs rs' :
  (forall rs, 0 <= raft_state_len rs) -> (forall d, 0 <= marker_len d <= 18) -> command_typed c ->
  reclaim_slack raft_state_len c rs -> reclaim_slack raft_state_len c rs' ->
  replicated (apply_committed raft_state_len marker_len s c rs)
  = replicated (apply_committed raft_state_len marker_len (with_raft s r) c rs').
Proof.
  intros Hr Hm Hty Hs Hs'. pose proof (run_command_deterministic s r c rs rs' Hr Hm Hty Hs Hs') as H.
  unfold apply_committed. destruct (run s c rs) as [[s1' a1]|e1|], (run (with_raft s r) c rs') as [[s2' a2]|e2|];
    simpl in H; try discriminate H; [|injection H as ->|done].
  - assert ((with_raft s2' None, forget_bytes a2) = (with_raft s1' None, forget_bytes a1)) as Hp by congruence.
    apply pair_equal_spec in Hp as [Hst Ha]. cbn [replicated mbind result_bind]. rewrite Hst. do 3 f_equal.
    { simpl. by rewrite Ha. }
    unfold committed_apply_new. simpl. destruct (routing_intent c), a1, a2; simpl in *; congruence.
  - destruct (from_metadata_error e1); [|done..]. by rewrite (applied_with s r rs rs').
Qed.

(** C10. Replicas that agree on the replicated state agree after every
    command: whatever votes, commit positions and purged prefixes they hold, they
    take the same decision, give the same response and reach the same replicated
    state. For reclamation the byte budget must leave room for every entry and
    completion, as the default of one mebibyte does. *)
Theorem apply_deterministic s1 s2 c rs1 rs2 :
  (forall rs, 0 <= raft_state_len rs) -> (forall d, 0 <= marker_len d <= 18) ->
  same_data s1 s2 -> command_typed c ->
  reclaim_slack raft_state_len c rs1 -> reclaim_slack raft_state_len c rs2 ->
  replicated (apply_committed raft_state_len marker_len s1 c rs1)
  = replicated (apply_committed raft_state_len marker_len s2 c rs2).
Proof.
  intros Hr Hm Hsame Hty Hs1 Hs2. rewrite (same_data_with _ _ Hsame). by apply apply_committed_replicated.
Qed.
End properties.

(** ** The divergence *)

(** Fourteen directories with names of 228 bytes in [/d], then a recursive delete
    of [/d]. *)
Definition padded (c : string) : string :=
  String.append (String.concat EmptyString (replicate 22 "0123456789")) (String.append "padding" c).
Definition divergence_setup : list Command :=
  [BootstrapNamespace 100 "g"; CreateDirectory 110 1 ["d"] attrs_new false]
  ++ ((fun c => CreateDirectory 120 2 [padded c] attrs_new false)
      <$> ["a"; "b"; "c"; "d"; "e"; "f"; "g"; "h"; "i"; "j"; "k"; "l"; "m"; "n"])
  ++ [Delete 130 (mk_DeleteArgs 1 1 1 ["d"] 2 None true)].

Fixpoint apply_all (raft_state_len : RaftState -> Z) (marker_len : DetachedRoot -> Z) (s : Store)
    (cs : list Command) (rs : RaftState) : result FatalApplyError Store :=
  match cs with
  | [] => Ok s
  | c :: cs =>
      '(s', out) ← apply_committed raft_state_len marker_len s c rs;
      apply_all raft_state_len marker_len s' cs rs
  end.

(** Two Raft states that only differ in the purged prefix of the local log, and
    serialised lengths of three hundred bytes and a null or a log id. *)
Definition rs_unpurged : RaftState :=
  mk_RaftState (Some (mk_RaftLogId 1 1 30)) None None None (None, 0).
Definition rs_purged : RaftState :=
  mk_RaftState (Some (mk_RaftLogId 1 1 30)) (Some (mk_RaftLogId 1 1 20)) None None (None, 0).
Definition json_len (rs : RaftState) : Z :=
  300 + match last_purged_log_id rs with Some _ => 52 | None => 4 end.

Definition s_loaded : Store :=
  match apply_all json_len (fun _ => 16) empty_store divergence_setup rs0 with Ok s => s | _ => empty_store end.

Definition reclaim_loaded (rs : RaftState) : result FatalApplyError (Store * CommittedApply) :=
  apply_committed json_len (fun _ => 16) s_loaded (ReclaimDetachedRoots [2] 256 4096) rs.


Lemma apply_deterministic_witness :
  size (s_dentries s_loaded) = 14%nat /\
  replicated (apply_committed json_len (fun _ => 16) s_loaded (ReclaimDetachedRoots [2] 256 1048576) rs_unpurged)
  = replicated (apply_committed json_len (fun _ => 16) (with_raft s_loaded None)
                  (ReclaimDetachedRoots [2] 256 1048576) rs_purged).
Proof.
  split; [vm_compute; reflexivity|].
  apply apply_deterministic; [|intros _; lia|apply same_data_with_raft|vm_compute; congruence..].
  intros rs. unfold json_len. destruct (last_purged_log_id rs); lia.
Defined.
