(* ===== verification/Bytes.v ===== *)
(** * Bytes, integers on the wire and UTF-8

    The byte-level vocabulary of the snapshot codec: big-endian integers,
    [std::str::from_utf8], [str::trim], and the group names that
    [beryl-types/src/ids.rs] parses from text. *)

From S2P Require Import Prelude.
From Stdlib Require Export Init.Byte Strings.Byte.
Local Open Scope Z_scope.

Notation bytes := (list byte).

#[global] Instance byte_eq_dec : EqDecision byte := Byte.byte_eq_dec.

Definition byte_val (b : byte) : Z := Z.of_N (Byte.to_N b).
Definition byte_of (z : Z) : byte := default x00 (Byte.of_N (Z.to_N z)).

(** [u16], [u32] and [u64] [to_be_bytes] and [from_be_bytes], by width. *)
Fixpoint be_bytes (n : nat) (v : Z) : bytes :=
  match n with
  | O => []
  | S n' => be_bytes n' (v / 256) ++ [byte_of (v mod 256)]
  end.

Definition be_value (bs : bytes) : Z := foldl (fun acc b => acc * 256 + byte_val b) 0 bs.

(** ** UTF-8 *)

Definition continuation (b : byte) : bool := (128 <=? byte_val b) && (byte_val b <=? 191).

(** The code points of a byte string, if it is well-formed ([std::str::from_utf8]):
    shortest encodings only, no surrogates, nothing above U+10FFFF. *)
Fixpoint utf8_chars (bs : bytes) : option (list Z) :=
  match bs with
  | [] => Some []
  | b0 :: rest =>
      let v0 := byte_val b0 in
      if v0 <=? 127 then (cons v0) <$> utf8_chars rest
      else
        match rest with
        | [] => None
        | b1 :: rest1 =>
            let v1 := byte_val b1 in
            if (194 <=? v0) && (v0 <=? 223)
            then if continuation b1
                 then (cons ((v0 - 192) * 64 + (v1 - 128))) <$> utf8_chars rest1
                 else None
            else
              match rest1 with
              | [] => None
              | b2 :: rest2 =>
                  let v2 := byte_val b2 in
                  if (224 <=? v0) && (v0 <=? 239)
                  then if continuation b1 && continuation b2
                          && implb (v0 =? 224) (160 <=? v1) && implb (v0 =? 237) (v1 <=? 159)
                       then (cons ((v0 - 224) * 4096 + (v1 - 128) * 64 + (v2 - 128))) <$> utf8_chars rest2
                       else None
                  else
                    match rest2 with
                    | [] => None
                    | b3 :: rest3 =>
                        let v3 := byte_val b3 in
                        if (240 <=? v0) && (v0 <=? 244) && continuation b1 && continuation b2
                           && continuation b3 && implb (v0 =? 240) (144 <=? v1) && implb (v0 =? 244) (v1 <=? 143)
                        then (cons ((v0 - 240) * 262144 + (v1 - 128) * 4096 + (v2 - 128) * 64 + (v3 - 128)))
                               <$> utf8_chars rest3
                        else None
                    end
              end
        end
  end.

(** [char::len_utf8] and the byte length of a text. *)
Definition char_len (c : Z) : Z :=
  if c <? 128 then 1 else if c <? 2048 then 2 else if c <? 65536 then 3 else 4.
Definition text_len (cs : list Z) : Z := foldr (fun c acc => char_len c + acc) 0 cs.

(** [char::is_whitespace]: the Unicode White_Space property. *)
Definition is_whitespace (c : Z) : bool :=
  ((9 <=? c) && (c <=? 13)) || (c =? 32) || (c =? 133) || (c =? 160) || (c =? 5760)
  || ((8192 <=? c) && (c <=? 8202)) || (c =? 8232) || (c =? 8233) || (c =? 8239) || (c =? 8287)
  || (c =? 12288).

Fixpoint trim_start (cs : list Z) : list Z :=
  match cs with
  | c :: rest => if is_whitespace c then trim_start rest else cs
  | [] => []
  end.

Definition trim (cs : list Z) : list Z := reverse (trim_start (reverse (trim_start cs))).

(** ** Group names *)

Inductive GroupNameError := GN_Empty | GN_TooLong | GN_InvalidStart | GN_InvalidCharacter.

Definition is_ascii_lowercase (c : Z) : bool := (97 <=? c) && (c <=? 122).
Definition is_ascii_digit (c : Z) : bool := (48 <=? c) && (c <=? 57).

(** The text of ASCII characters. *)
Definition text_of_ascii (cs : list Z) : string :=
  String.string_of_list_ascii ((fun c => Ascii.ascii_of_N (Z.to_N c)) <$> cs).

(** Characters of a text held as bytes. *)
Definition chars_of (s : string) : list Z :=
  (fun a => Z.of_N (Ascii.N_of_ascii a)) <$> String.list_ascii_of_string s.

Definition group_name_parse (raw : list Z) : result GroupNameError string :=
  let value := trim raw in
  reject_if (bool_decide (value = [])) GN_Empty;;
  reject_if (63 <? text_len value) GN_TooLong;;
  match value with
  | [] => Err GN_Empty
  | first :: rest =>
      reject_if (negb (is_ascii_lowercase first) && negb (is_ascii_digit first)) GN_InvalidStart;;
      reject_if (negb (forallb (fun ch => is_ascii_lowercase ch || is_ascii_digit ch
                                          || (ch =? 46) || (ch =? 95) || (ch =? 45)) rest))
        GN_InvalidCharacter;;
      Ok (text_of_ascii value)
  end.

(** ** Lemmas on integers *)

Lemma byte_val_range b : 0 <= byte_val b < 256.
Proof. unfold byte_val. pose proof (Byte.to_N_bounded b). lia. Qed.

Lemma byte_of_val b : byte_of (byte_val b) = b.
Proof. unfold byte_of, byte_val. by rewrite N2Z.id, Byte.of_to_N. Qed.

Lemma byte_val_of z : 0 <= z < 256 -> byte_val (byte_of z) = z.
Proof.
  intros Hz. unfold byte_of, byte_val. destruct (Byte.of_N (Z.to_N z)) as [b|] eqn:E; simpl.
  - apply Byte.to_of_N in E. rewrite E. lia.
  - apply Byte.of_N_None_iff in E. lia.
Qed.

Lemma be_bytes_length n v : length (be_bytes n v) = n.
Proof. revert v. induction n as [|n IH]; intros v; simpl; [done|]. rewrite length_app, IH. simpl. lia. Qed.

Lemma be_value_snoc bs b : be_value (bs ++ [b]) = be_value bs * 256 + byte_val b.
Proof. unfold be_value. by rewrite foldl_app. Qed.

Lemma be_value_bytes n v : 0 <= v < 256 ^ Z.of_nat n -> be_value (be_bytes n v) = v.
Proof.
  revert v. induction n as [|n IH]; intros v Hv; [simpl in *; unfold be_value; simpl; lia|].
  cbn [be_bytes]. rewrite be_value_snoc, byte_val_of by (apply Z.mod_pos_bound; lia).
  rewrite Nat2Z.inj_succ, Z.pow_succ_r in Hv by lia.
  rewrite IH; [pose proof (Z.div_mod v 256); lia|].
  split; [apply Z.div_pos; lia|]. apply Z.div_lt_upper_bound; lia.
Qed.

Lemma be_value_range bs : 0 <= be_value bs < 256 ^ Z.of_nat (length bs).
Proof.
  induction bs as [|b bs IH] using rev_ind; [done|].
  rewrite be_value_snoc, length_app, Nat.add_comm. cbn [length Nat.add].
  rewrite Nat2Z.inj_succ, Z.pow_succ_r by lia. pose proof (byte_val_range b). lia.
Qed.

Lemma be_bytes_value bs : be_bytes (length bs) (be_value bs) = bs.
Proof.
  induction bs as [|b bs IH] using rev_ind; [done|].
  rewrite length_app, Nat.add_comm. cbn [length Nat.add be_bytes]. rewrite be_value_snoc.
  pose proof (byte_val_range b).
  rewrite Z.div_add_l, (Z.div_small (byte_val b)), Z.add_0_r, IH by lia.
  by rewrite Z.add_comm, Z.mod_add, Z.mod_small, byte_of_val by lia.
Qed.

(** ** Lemmas on group names *)

Definition group_char (c : Z) : bool :=
  is_ascii_lowercase c || is_ascii_digit c || (c =? 46) || (c =? 95) || (c =? 45).

Lemma group_char_range c : group_char c = true -> 45 <= c <= 122 /\ is_whitespace c = false.
Proof.
  unfold group_char, is_ascii_lowercase, is_ascii_digit, is_whitespace. intros H.
  assert (45 <= c <= 122) as Hc by lia. split; [done|]. lia.
Qed.

Lemma chars_of_ascii cs : Forall (fun c => 0 <= c < 256) cs -> chars_of (text_of_ascii cs) = cs.
Proof.
  intros H. unfold chars_of, text_of_ascii. rewrite String.list_ascii_of_string_of_list_ascii, <- list_fmap_compose.
  induction H as [|c cs Hc H IH]; [done|]. cbn [fmap list_fmap]. rewrite IH. f_equal. simpl.
  rewrite Ascii.N_ascii_embedding; lia.
Qed.

Lemma trim_start_clean cs : Forall (fun c => is_whitespace c = false) cs -> trim_start cs = cs.
Proof. destruct 1 as [|c cs Hc _]; simpl; [done|]. by rewrite Hc. Qed.

Lemma trim_clean cs : Forall (fun c => is_whitespace c = false) cs -> trim cs = cs.
Proof.
  intros H. unfold trim. rewrite (trim_start_clean cs) by done.
  rewrite trim_start_clean by (by apply Forall_reverse). apply reverse_involutive.
Qed.

(** What a parsed group name looks like. *)
Lemma group_name_parse_Ok raw g :
  group_name_parse raw = Ok g ->
  chars_of g = trim raw /\ g <> EmptyString /\ Forall (fun c => group_char c = true) (chars_of g) /\
  text_len (chars_of g) <= 63.
Proof.
  unfold group_name_parse. intros H. unbind H as [] He. unbind H as [] Hl. bool_prop.
  destruct (trim raw) as [|c cs] eqn:Ht; [done|]. unbind H as [] Hs. unbind H as [] Hc. bool_prop.
  injection H as <-.
  assert (Forall (fun c => group_char c = true) (c :: cs)) as Hall.
  { constructor.
    - unfold group_char. destruct Hs as [Hs|Hs]; apply negb_false_iff in Hs; rewrite Hs; rewrite ?orb_true_r; done.
    - apply List.Forall_forall. intros x Hx. by eapply (proj1 (forallb_forall _ _) Hc). }
  assert (chars_of (text_of_ascii (c :: cs)) = c :: cs) as Hch.
  { apply chars_of_ascii. eapply Forall_impl; [exact Hall|]. intros x Hx%group_char_range. lia. }
  rewrite Hch. split_and!; [done|discriminate|done|done].
Qed.

(** A parsed group name parses to itself. *)
Lemma group_name_parse_idem raw g : group_name_parse raw = Ok g -> group_name_parse (chars_of g) = Ok g.
Proof.
  intros H. pose proof (group_name_parse_Ok _ _ H) as (Ht & _ & Hall & _).
  unfold group_name_parse in *. rewrite trim_clean, Ht; [done|].
  eapply Forall_impl; [exact Hall|]. intros c Hc. by apply group_char_range in Hc as [_ ?].
Qed.

(** ASCII text is its own UTF-8 encoding. *)
Lemma utf8_ascii s :
  Forall (fun c => c < 128) (chars_of s) -> utf8_chars (String.list_byte_of_string s) = Some (chars_of s).
Proof.
  unfold chars_of. induction s as [|a s IH]; intros H; [done|].
  cbn [String.list_ascii_of_string fmap list_fmap] in H. apply Forall_cons in H as [Ha Hs].
  change (String.list_byte_of_string (String a s)) with (Ascii.byte_of_ascii a :: String.list_byte_of_string s).
  cbn [utf8_chars].
  assert (byte_val (Ascii.byte_of_ascii a) = Z.of_N (Ascii.N_of_ascii a)) as Hv
    by (by destruct a as [[] [] [] [] [] [] [] []]).
  rewrite Hv, (proj2 (Z.leb_le _ 127)) by lia. by rewrite IH.
Qed.

#[global] Opaque be_bytes.
