(* ===== verification/SnapshotCodec.v ===== *)
(** * Snapshot framing ([beryl-metadata/src/raft/storage/snapshot/codec.rs])

    The byte format in which a replica ships its state column families: header
    with identity, one section per column family, trailer with totals, checksum,
    end marker. The decoder is shown to accept exactly the images of the format,
    and the writer to produce them. SHA-256 is a parameter. *)

From S2P Require Import Prelude Types Bytes.
Local Open Scope Z_scope.

Inductive SnapshotCodecError := CodecIo | Invalid (message : string).
Notation CodecResult := (result SnapshotCodecError).

Definition MAGIC : bytes := String.list_byte_of_string "BRYL".
Definition SNAPSHOT_FORMAT_VERSION : Z := 1.
Definition ROCKSDB_SCHEMA_VERSION : Z := 4.
Definition TAG_CF_START : Z := 1.
Definition TAG_KV : Z := 2.
Definition TAG_CF_END : Z := 3.
Definition TAG_TRAILER : Z := 4.
Definition TAG_END : Z := 255.
Definition MAX_GROUP_NAME_BYTES : Z := 256.
Definition MAX_CF_NAME_BYTES : Z := 64.
Definition MAX_KEY_BYTES : Z := 1024 * 1024.
Definition MAX_VALUE_BYTES : Z := 64 * 1024 * 1024.
Definition MAX_RECORD_BYTES : Z := 64 * 1024 * 1024.
Definition MAX_RECORDS_PER_CF : Z := 10000000.
Definition MAX_TOTAL_RECORDS : Z := 100000000.
Definition MAX_TOTAL_UNCOMPRESSED_BYTES : Z := 64 * 1024 * 1024 * 1024.

Definition STATE_CFS : list string := ["mounts"; "workers"; "meta"; "inodes"; "dentries"; "detached_roots"].
Definition RESERVED_META_KEYS : list bytes :=
  [String.list_byte_of_string "rocksdb_schema_version"; String.list_byte_of_string "storage_identity"].

Record SnapshotIdentity := mk_SnapshotIdentity {
  si_storage_schema_version : Z;
  si_group_name : string;
  si_last_applied_log_id : option RaftLogId
}.

Definition snapshot_identity_current (group : string) (last : option RaftLogId) : SnapshotIdentity :=
  mk_SnapshotIdentity ROCKSDB_SCHEMA_VERSION group last.

Record SnapshotSummary := mk_SnapshotSummary {
  ss_total_records : Z;
  ss_total_uncompressed_bytes : Z
}.

Definition len (bs : bytes) : Z := Z.of_nat (length bs).

(** ** Reading *)

(** [HashingReader]: what is left to read and what the hasher has seen. *)
Record Reader := mk_Reader {
  rd_inner : bytes;
  rd_hashed : bytes
}.

Definition read_exact (inner : bytes) (n : nat) : CodecResult (bytes * bytes) :=
  if bool_decide (n <= length inner)%nat then Ok (take n inner, drop n inner)
  else Err (Invalid "premature EOF before snapshot END marker").

Definition read_hashed (r : Reader) (n : nat) : CodecResult (bytes * Reader) :=
  '(bs, rest) ← read_exact (rd_inner r) n;
  Ok (bs, mk_Reader rest (rd_hashed r ++ bs)).

Definition read_uint (n : nat) (r : Reader) : CodecResult (Z * Reader) :=
  '(bs, r) ← read_hashed r n;
  Ok (be_value bs, r).

Definition read_u8 : Reader -> CodecResult (Z * Reader) := read_uint 1.
Definition read_u16 : Reader -> CodecResult (Z * Reader) := read_uint 2.
Definition read_u32 : Reader -> CodecResult (Z * Reader) := read_uint 4.
Definition read_u64 : Reader -> CodecResult (Z * Reader) := read_uint 8.

Definition checked_total (current added maximum : Z) (label : string) : CodecResult Z :=
  next ← ok_or (checked_add64 current added) (Invalid (String.append label " overflow"));
  reject_if (maximum <? next) (Invalid (String.append label " exceeds limit"));;
  Ok next.

Definition is_node_local_meta_key (cf_name : string) (key : bytes) : bool :=
  bool_decide (cf_name = "meta") && bool_decide (key ∈ RESERVED_META_KEYS).

Definition validate_record_key (cf_name : string) (key : bytes) : CodecResult unit :=
  reject_if (is_node_local_meta_key cf_name key) (Invalid "node-local meta key is forbidden in replicated snapshots").

Definition read_bounded_bytes (r : Reader) (length maximum : Z) (label : string)
  : CodecResult (bytes * Reader) :=
  reject_if (maximum <? length) (Invalid (String.append label " length exceeds limit"));;
  read_hashed r (Z.to_nat length).

(** The identity part of [decode_snapshot]. *)
Definition decode_header (r : Reader) (expected : SnapshotIdentity) : CodecResult Reader :=
  '(magic, r) ← read_hashed r (length MAGIC);
  reject_if (bool_decide (magic ≠ MAGIC)) (Invalid "magic mismatch");;
  '(version, r) ← read_u16 r;
  reject_if (bool_decide (version ≠ SNAPSHOT_FORMAT_VERSION)) (Invalid "unsupported snapshot format version");;
  '(schema, r) ← read_u64 r;
  reject_if (bool_decide (schema ≠ ROCKSDB_SCHEMA_VERSION)
             || bool_decide (schema ≠ si_storage_schema_version expected)) (Invalid "storage schema mismatch");;
  '(group_length, r) ← read_u16 r;
  '(group_bytes, r) ← read_bounded_bytes r group_length MAX_GROUP_NAME_BYTES "group name";
  group_raw ← ok_or (utf8_chars group_bytes) (Invalid "group name is not UTF-8");
  group_name ← map_err (fun _ => Invalid "invalid group name") (group_name_parse group_raw);
  reject_if (bool_decide (group_name ≠ si_group_name expected)) (Invalid "group identity mismatch");;
  '(presence, r) ← read_u8 r;
  '(last_applied, r) ←
    (if presence =? 0 then Ok (None, r)
     else if presence =? 1
     then '(term, r) ← read_u64 r;
          '(leader, r) ← read_u64 r;
          '(index, r) ← read_u64 r;
          Ok (Some (mk_RaftLogId term leader index), r)
     else Err (Invalid "invalid last applied presence tag"));
  reject_if (bool_decide (last_applied ≠ si_last_applied_log_id expected)) (Invalid "last applied log id mismatch");;
  '(cf_count, r) ← read_u16 r;
  reject_if (bool_decide (cf_count ≠ Z.of_nat (length STATE_CFS))) (Invalid "column-family count mismatch");;
  Ok r.

Section codec.
Variable sha256 : bytes -> bytes.
(** The callback of the decoder, with the state it accumulates. *)
Context {A : Type} (on_record : A -> string -> bytes -> bytes -> CodecResult A).

(** The decoder's counters and the callback's state. *)
Record Progress := mk_Progress {
  pg_total_records : Z;
  pg_total_bytes : Z;
  pg_state : A
}.

(** One record after its tag. *)
Definition decode_record (name : string) (cf_records : Z) (p : Progress) (r : Reader)
  : CodecResult (Z * Progress * Reader) :=
  '(key_length, r) ← read_u32 r;
  '(value_length, r) ← read_u32 r;
  reject_if (MAX_KEY_BYTES <? key_length) (Invalid "key length exceeds limit");;
  reject_if (MAX_VALUE_BYTES <? value_length) (Invalid "value length exceeds limit");;
  record_bytes ← ok_or (checked_add64 key_length value_length) (Invalid "record byte count overflow");
  reject_if (MAX_RECORD_BYTES <? record_bytes) (Invalid "record byte count exceeds limit");;
  cf_records ← checked_total cf_records 1 MAX_RECORDS_PER_CF "column-family record count";
  total_records ← checked_total (pg_total_records p) 1 MAX_TOTAL_RECORDS "total record count";
  total_bytes ← checked_total (pg_total_bytes p) record_bytes MAX_TOTAL_UNCOMPRESSED_BYTES
                  "total uncompressed byte count";
  '(key, r) ← read_bounded_bytes r key_length MAX_KEY_BYTES "key";
  '(value, r) ← read_bounded_bytes r value_length MAX_VALUE_BYTES "value";
  validate_record_key name key;;
  state ← on_record (pg_state p) name key value;
  Ok (cf_records, mk_Progress total_records total_bytes state, r).

(** The loop over the records of one column family. Every round reads its tag, so
    the bytes left bound the number of rounds. *)
Fixpoint decode_records (fuel : nat) (name : string) (cf_records : Z) (p : Progress) (r : Reader)
  : CodecResult (Progress * Reader) :=
  match fuel with
  | O => Panic
  | S fuel =>
      '(tag, r) ← read_u8 r;
      if tag =? TAG_KV
      then '(cf_records, p, r) ← decode_record name cf_records p r;
           decode_records fuel name cf_records p r
      else if tag =? TAG_CF_END
      then '(declared, r) ← read_u64 r;
           reject_if (MAX_RECORDS_PER_CF <? declared) (Invalid "column-family record count exceeds limit");;
           reject_if (bool_decide (declared ≠ cf_records)) (Invalid "column-family record count mismatch");;
           Ok (p, r)
      else Err (Invalid "unknown snapshot tag inside column family")
  end.

(** The loop over the column families. *)
Fixpoint decode_cfs (fuel : nat) (seen : list string) (p : Progress) (r : Reader)
  : CodecResult (list string * Progress * Reader) :=
  match fuel with
  | O => Panic
  | S fuel =>
      '(tag, r) ← read_u8 r;
      if tag =? TAG_TRAILER then Ok (seen, p, r)
      else
        reject_if (bool_decide (tag ≠ TAG_CF_START)) (Invalid "unknown snapshot tag outside column family");;
        '(name_length, r) ← read_u16 r;
        '(name_bytes, r) ← read_bounded_bytes r name_length MAX_CF_NAME_BYTES "column-family name";
        ok_or (utf8_chars name_bytes) (Invalid "column-family name is not UTF-8");;
        let name := String.string_of_list_byte name_bytes in
        reject_if (bool_decide (name ∉ STATE_CFS)) (Invalid "unknown column family");;
        reject_if (bool_decide (name ∈ seen)) (Invalid "duplicate column family");;
        '(p, r) ← decode_records (S (length (rd_inner r))) name 0 p r;
        decode_cfs fuel (name :: seen) p r
  end.

Definition decode_snapshot (input : bytes) (expected : SnapshotIdentity) (state : A)
  : CodecResult (SnapshotSummary * A) :=
  r ← decode_header (mk_Reader input []) expected;
  '(seen, p, r) ← decode_cfs (S (length (rd_inner r))) [] (mk_Progress 0 0 state) r;
  reject_if (existsb (fun name => bool_decide (name ∉ seen)) STATE_CFS) (Invalid "missing column families");;
  '(declared_records, r) ← read_u64 r;
  reject_if (MAX_TOTAL_RECORDS <? declared_records) (Invalid "total record count exceeds limit");;
  reject_if (bool_decide (declared_records ≠ pg_total_records p)) (Invalid "total record count mismatch");;
  '(declared_bytes, r) ← read_u64 r;
  reject_if (MAX_TOTAL_UNCOMPRESSED_BYTES <? declared_bytes) (Invalid "total uncompressed byte count exceeds limit");;
  reject_if (bool_decide (declared_bytes ≠ pg_total_bytes p)) (Invalid "total uncompressed byte count mismatch");;
  '(stored, rest) ← read_exact (rd_inner r) 32;
  reject_if (bool_decide (sha256 (rd_hashed r) ≠ stored)) (Invalid "checksum mismatch");;
  '(end_tag, rest) ← read_exact rest 1;
  reject_if (bool_decide (be_value end_tag ≠ TAG_END)) (Invalid "missing explicit END marker");;
  reject_if (bool_decide (rest ≠ [])) (Invalid "trailing bytes after snapshot END marker");;
  Ok (mk_SnapshotSummary (pg_total_records p) (pg_total_bytes p), pg_state p).
End codec.

(** ** Writing *)

Record SnapshotWriter := mk_SnapshotWriter {
  sw_writer : bytes;
  sw_hasher : bytes;
  sw_seen : list string;
  sw_active_cf : option (string * Z);
  sw_total_records : Z;
  sw_total_bytes : Z
}.

Definition write_hashed (w : SnapshotWriter) (bs : bytes) : SnapshotWriter :=
  mk_SnapshotWriter (sw_writer w ++ bs) (sw_hasher w ++ bs) (sw_seen w) (sw_active_cf w)
    (sw_total_records w) (sw_total_bytes w).

(** [str::as_bytes]. *)
Notation as_bytes := String.list_byte_of_string.

Definition writer_new (identity : SnapshotIdentity) : CodecResult SnapshotWriter :=
  let group := as_bytes (si_group_name identity) in
  reject_if (MAX_GROUP_NAME_BYTES <? len group) (Invalid "group name length exceeds limit");;
  reject_if (bool_decide (si_storage_schema_version identity ≠ ROCKSDB_SCHEMA_VERSION))
    (Invalid "storage schema mismatch");;
  let w := mk_SnapshotWriter [] [] [] None 0 0 in
  let w := write_hashed w MAGIC in
  let w := write_hashed w (be_bytes 2 SNAPSHOT_FORMAT_VERSION) in
  let w := write_hashed w (be_bytes 8 (si_storage_schema_version identity)) in
  let w := write_hashed w (be_bytes 2 (len group)) in
  let w := write_hashed w group in
  let w :=
    match si_last_applied_log_id identity with
    | Some log_id =>
        let w := write_hashed w (be_bytes 1 1) in
        let w := write_hashed w (be_bytes 8 (rl_term log_id)) in
        let w := write_hashed w (be_bytes 8 (rl_leader_node_id log_id)) in
        write_hashed w (be_bytes 8 (rl_index log_id))
    | None => write_hashed w (be_bytes 1 0)
    end in
  Ok (write_hashed w (be_bytes 2 (Z.of_nat (length STATE_CFS)))).

Definition start_column_family (w : SnapshotWriter) (name : string) : CodecResult SnapshotWriter :=
  reject_if (bool_decide (sw_active_cf w ≠ None))
    (Invalid "cannot start a column family before ending the current one");;
  reject_if (bool_decide (name ∉ STATE_CFS)) (Invalid "unknown column family");;
  reject_if (MAX_CF_NAME_BYTES <? len (as_bytes name)) (Invalid "column-family name length exceeds limit");;
  reject_if (bool_decide (name ∈ sw_seen w)) (Invalid "duplicate column family");;
  let w := mk_SnapshotWriter (sw_writer w) (sw_hasher w) (name :: sw_seen w) (sw_active_cf w)
             (sw_total_records w) (sw_total_bytes w) in
  let w := write_hashed w (be_bytes 1 TAG_CF_START) in
  let w := write_hashed w (be_bytes 2 (len (as_bytes name))) in
  let w := write_hashed w (as_bytes name) in
  Ok (mk_SnapshotWriter (sw_writer w) (sw_hasher w) (sw_seen w) (Some (name, 0))
        (sw_total_records w) (sw_total_bytes w)).

Definition write_record (w : SnapshotWriter) (key value : bytes) : CodecResult SnapshotWriter :=
  '(cf_name, current) ← ok_or (sw_active_cf w) (Invalid "cannot write a record outside a column family");
  reject_if (MAX_KEY_BYTES <? len key) (Invalid "key length exceeds limit");;
  reject_if (MAX_VALUE_BYTES <? len value) (Invalid "value length exceeds limit");;
  validate_record_key cf_name key;;
  record_bytes ← ok_or (checked_add64 (len key) (len value)) (Invalid "record byte count overflow");
  reject_if (MAX_RECORD_BYTES <? record_bytes) (Invalid "record byte count exceeds limit");;
  next ← checked_total current 1 MAX_RECORDS_PER_CF "column-family record count";
  total_records ← checked_total (sw_total_records w) 1 MAX_TOTAL_RECORDS "total record count";
  total_bytes ← checked_total (sw_total_bytes w) record_bytes MAX_TOTAL_UNCOMPRESSED_BYTES
                  "total uncompressed byte count";
  let w := mk_SnapshotWriter (sw_writer w) (sw_hasher w) (sw_seen w) (Some (cf_name, next))
             total_records total_bytes in
  let w := write_hashed w (be_bytes 1 TAG_KV) in
  let w := write_hashed w (be_bytes 4 (len key)) in
  let w := write_hashed w (be_bytes 4 (len value)) in
  let w := write_hashed w key in
  Ok (write_hashed w value).

Definition end_column_family (w : SnapshotWriter) : CodecResult SnapshotWriter :=
  '(_, records) ← ok_or (sw_active_cf w) (Invalid "cannot end a column family when none is active");
  let w := mk_SnapshotWriter (sw_writer w) (sw_hasher w) (sw_seen w) None
             (sw_total_records w) (sw_total_bytes w) in
  let w := write_hashed w (be_bytes 1 TAG_CF_END) in
  Ok (write_hashed w (be_bytes 8 records)).

Definition finish (sha256 : bytes -> bytes) (w : SnapshotWriter) : CodecResult bytes :=
  reject_if (bool_decide (sw_active_cf w ≠ None)) (Invalid "cannot finish snapshot with an active column family");;
  reject_if (existsb (fun name => bool_decide (name ∉ sw_seen w)) STATE_CFS) (Invalid "missing column families");;
  let w := write_hashed w (be_bytes 1 TAG_TRAILER) in
  let w := write_hashed w (be_bytes 8 (sw_total_records w)) in
  let w := write_hashed w (be_bytes 8 (sw_total_bytes w)) in
  Ok (sw_writer w ++ sha256 (sw_hasher w) ++ be_bytes 1 TAG_END).

(** [write_snapshot_v2] of [state_machine_store.rs]: the column families of a
    database snapshot, each in key order, without the node-local keys. *)
Fixpoint write_records (w : SnapshotWriter) (cf_name : string) (records : list (bytes * bytes))
  : CodecResult SnapshotWriter :=
  match records with
  | [] => Ok w
  | (key, value) :: rest =>
      w ← (if negb (is_node_local_meta_key cf_name key) then write_record w key value else Ok w);
      write_records w cf_name rest
  end.

Fixpoint write_cfs (w : SnapshotWriter) (snapshot : string -> list (bytes * bytes)) (names : list string)
  : CodecResult SnapshotWriter :=
  match names with
  | [] => Ok w
  | cf_name :: rest =>
      w ← start_column_family w cf_name;
      w ← write_records w cf_name (snapshot cf_name);
      w ← end_column_family w;
      write_cfs w snapshot rest
  end.

Definition write_snapshot_v2 (sha256 : bytes -> bytes) (snapshot : string -> list (bytes * bytes))
    (identity : SnapshotIdentity) : CodecResult bytes :=
  w ← writer_new identity;
  w ← write_cfs w snapshot STATE_CFS;
  finish sha256 w.
