(* ===== verification/SnapshotProps.v ===== *)
(** * The snapshot format is strict

    A declarative description of snapshot images, and the theorems that the
    decoder accepts exactly these images and that the writer produces one. *)

From S2P Require Import Prelude Types Bytes SnapshotCodec.
Local Open Scope Z_scope.

(** ** Images *)

Definition encode_record (kv : bytes * bytes) : bytes :=
  be_bytes 1 TAG_KV ++ be_bytes 4 (len kv.1) ++ be_bytes 4 (len kv.2) ++ kv.1 ++ kv.2.

Definition encode_records (records : list (bytes * bytes)) : bytes := mjoin (encode_record <$> records).

Definition encode_cf (cf : string * list (bytes * bytes)) : bytes :=
  be_bytes 1 TAG_CF_START ++ be_bytes 2 (len (as_bytes cf.1)) ++ as_bytes cf.1 ++ encode_records cf.2
  ++ be_bytes 1 TAG_CF_END ++ be_bytes 8 (Z.of_nat (length cf.2)).

Definition encode_cfs (cfs : list (string * list (bytes * bytes))) : bytes := mjoin (encode_cf <$> cfs).

Definition encode_last (last : option RaftLogId) : bytes :=
  match last with
  | Some l => be_bytes 1 1 ++ be_bytes 8 (rl_term l) ++ be_bytes 8 (rl_leader_node_id l) ++ be_bytes 8 (rl_index l)
  | None => be_bytes 1 0
  end.

Definition encode_header (group : bytes) (last : option RaftLogId) : bytes :=
  MAGIC ++ be_bytes 2 SNAPSHOT_FORMAT_VERSION ++ be_bytes 8 ROCKSDB_SCHEMA_VERSION
  ++ be_bytes 2 (len group) ++ group ++ encode_last last ++ be_bytes 2 (Z.of_nat (length STATE_CFS)).

Definition records_bytes (records : list (bytes * bytes)) : Z :=
  foldr (fun kv acc => len kv.1 + len kv.2 + acc) 0 records.

Definition total_records (cfs : list (string * list (bytes * bytes))) : Z :=
  foldr (fun cf acc => Z.of_nat (length cf.2) + acc) 0 cfs.
Definition total_bytes (cfs : list (string * list (bytes * bytes))) : Z :=
  foldr (fun cf acc => records_bytes cf.2 + acc) 0 cfs.

Definition encode_body (group : bytes) (last : option RaftLogId) (cfs : list (string * list (bytes * bytes))) : bytes :=
  encode_header group last ++ encode_cfs cfs
  ++ be_bytes 1 TAG_TRAILER ++ be_bytes 8 (total_records cfs) ++ be_bytes 8 (total_bytes cfs).

Definition encode_image (sha256 : bytes -> bytes) (group : bytes) (last : option RaftLogId)
    (cfs : list (string * list (bytes * bytes))) : bytes :=
  let body := encode_body group last cfs in
  body ++ sha256 body ++ be_bytes 1 TAG_END.

Definition record_ok (name : string) (kv : bytes * bytes) : Prop :=
  len kv.1 <= MAX_KEY_BYTES /\ len kv.2 <= MAX_VALUE_BYTES /\ len kv.1 + len kv.2 <= MAX_RECORD_BYTES /\
  is_node_local_meta_key name kv.1 = false.

Definition cf_ok (cf : string * list (bytes * bytes)) : Prop :=
  Forall (record_ok cf.1) cf.2 /\ Z.of_nat (length cf.2) <= MAX_RECORDS_PER_CF.

(** Every state column family exactly once, in any order, within the limits. *)
Definition image_ok (cfs : list (string * list (bytes * bytes))) : Prop :=
  cfs.*1 ≡ₚ STATE_CFS /\ Forall cf_ok cfs /\
  total_records cfs <= MAX_TOTAL_RECORDS /\ total_bytes cfs <= MAX_TOTAL_UNCOMPRESSED_BYTES.

(** ** Reading *)

(** [r'] is [r] after reading [bs]. *)
Definition advance (r : Reader) (bs : bytes) (r' : Reader) : Prop :=
  rd_inner r = bs ++ rd_inner r' /\ rd_hashed r' = rd_hashed r ++ bs.

Lemma advance_app r a b r' : advance r (a ++ b) r' <-> exists r1, advance r a r1 /\ advance r1 b r'.
Proof.
  split.
  - intros [H1 H2]. exists (mk_Reader (b ++ rd_inner r') (rd_hashed r ++ a)).
    unfold advance; simpl. by rewrite H1, H2, !app_assoc.
  - intros (r1 & [H1 H2] & [H3 H4]). split; [by rewrite H1, H3, app_assoc|by rewrite H4, H2, app_assoc].
Qed.

Lemma advance_nil r r' : advance r [] r' <-> r' = r.
Proof.
  split; [|intros ->; split; [done|by rewrite app_nil_r]].
  intros [H1 H2]. destruct r, r'; simpl in *. rewrite app_nil_r in H2. congruence.
Qed.

Lemma advance_length r bs r' : advance r bs r' -> length (rd_inner r) = (length bs + length (rd_inner r'))%nat.
Proof. intros [H _]. rewrite H. apply length_app. Qed.

Lemma read_exact_Ok inner n bs rest :
  read_exact inner n = Ok (bs, rest) <-> length bs = n /\ inner = bs ++ rest.
Proof.
  unfold read_exact. case_bool_decide as Hn.
  - split.
    + intros [= <- <-]. rewrite length_take, take_drop. split; [lia|done].
    + intros [<- ->]. by rewrite take_app_length, drop_app_length.
  - split; [done|]. intros [<- ->]. rewrite length_app in Hn. lia.
Qed.

Lemma read_hashed_Ok r n bs r' : read_hashed r n = Ok (bs, r') <-> length bs = n /\ advance r bs r'.
Proof.
  unfold read_hashed, advance. destruct r as [inner h], r' as [inner' h']. simpl. split.
  - intros H. unbind H as [x rest] Hx. apply read_exact_Ok in Hx as [Hl Hi]. injection H as <- <- <-. done.
  - intros (Hl & Hi & ->). by rewrite (proj2 (read_exact_Ok inner n bs inner')).
Qed.

Lemma read_uint_Ok n r v r' :
  read_uint n r = Ok (v, r') <-> 0 <= v < 256 ^ Z.of_nat n /\ advance r (be_bytes n v) r'.
Proof.
  unfold read_uint. split.
  - intros H. unbind H as [bs r1] Hr. apply read_hashed_Ok in Hr as [Hl Ha]. injection H as <- <-.
    subst n. split; [apply be_value_range|]. by rewrite be_bytes_value.
  - intros [Hv Ha]. rewrite (proj2 (read_hashed_Ok r n (be_bytes n v) r')) by (by rewrite be_bytes_length).
    simpl. by rewrite be_value_bytes.
Qed.

Lemma read_bounded_Ok r l mx lb bs r' :
  0 <= l -> read_bounded_bytes r l mx lb = Ok (bs, r') <-> len bs = l /\ l <= mx /\ advance r bs r'.
Proof.
  intros Hl. unfold read_bounded_bytes, len. rewrite bind_Ok. setoid_rewrite read_hashed_Ok. split.
  - intros ([] & Hr & Hn & Ha). apply reject_if_Ok in Hr. bool_prop. split_and!; [lia|lia|done].
  - intros (Hn & Hmx & Ha). exists tt. rewrite reject_if_Ok. split_and!; [by apply Z.ltb_ge|lia|done].
Qed.

Lemma checked_total_Ok c a mx lb t :
  mx <= u64_max -> checked_total c a mx lb = Ok t <-> t = c + a /\ t <= mx.
Proof.
  intros Hmx. unfold checked_total. rewrite bind_Ok. setoid_rewrite ok_or_Ok. setoid_rewrite checked_add64_Some.
  setoid_rewrite bind_Ok. setoid_rewrite reject_if_Ok. setoid_rewrite Z.ltb_ge. split.
  - intros (x & [-> ?] & [] & ? & [= <-]). lia.
  - intros [-> ?]. exists (c + a). split; [split; [done|lia]|]. by exists tt.
Qed.

(** The same facts in the direction of evaluation. *)
Lemma read_uint_eq n r v r' :
  advance r (be_bytes n v) r' -> 0 <= v < 256 ^ Z.of_nat n -> read_uint n r = Ok (v, r').
Proof. intros. by apply read_uint_Ok. Qed.
Lemma read_bounded_eq r mx lb bs r' :
  advance r bs r' -> len bs <= mx -> read_bounded_bytes r (len bs) mx lb = Ok (bs, r').
Proof. intros. apply read_bounded_Ok; [unfold len; lia|done]. Qed.
Lemma checked_total_eq c a mx lb : mx <= u64_max -> c + a <= mx -> checked_total c a mx lb = Ok (c + a).
Proof. intros. by apply checked_total_Ok. Qed.

Lemma limits_u64 :
  MAX_RECORDS_PER_CF <= u64_max /\ MAX_TOTAL_RECORDS <= u64_max /\ MAX_TOTAL_UNCOMPRESSED_BYTES <= u64_max /\
  MAX_RECORD_BYTES <= u64_max.
Proof. by vm_compute. Qed.

Lemma len_nonneg bs : 0 <= len bs.
Proof. unfold len. lia. Qed.

(** Chain the reads of a decoder run. *)
Ltac advance_chain :=
  repeat (apply advance_app; eexists; split; [eassumption|]); eassumption.

Section decoder.
Context {A : Type} (on_record : A -> string -> bytes -> bytes -> CodecResult A).
Implicit Types (p : Progress (A := A)) (r : Reader) (kv : bytes * bytes).

(** The progress after one more record. *)
Definition bump (kv : bytes * bytes) (state : A) p : Progress :=
  mk_Progress (pg_total_records p + 1) (pg_total_bytes p + (len kv.1 + len kv.2)) state.

Definition record_frame (kv : bytes * bytes) : bytes :=
  be_bytes 4 (len kv.1) ++ be_bytes 4 (len kv.2) ++ kv.1 ++ kv.2.

Lemma decode_record_sound name n p r n' p' r' :
  decode_record on_record name n p r = Ok (n', p', r') ->
  exists kv state, advance r (record_frame kv) r' /\ record_ok name kv /\ n' = n + 1 /\ n' <= MAX_RECORDS_PER_CF /\
    p' = bump kv state p /\ on_record (pg_state p) name kv.1 kv.2 = Ok state.
Proof.
  destruct limits_u64 as (L1 & L2 & L3 & L4). unfold decode_record. intros H.
  unbind H as [kl r1] Hk. apply read_uint_Ok in Hk as [Hkl Ak]. unbind H as [vl r2] Hv.
  apply read_uint_Ok in Hv as [Hvl Av]. unbind H as [] Hm1. unbind H as [] Hm2. unbind H as rb Hrb.
  unbind H as [] Hm3. bool_prop. unbind H as cr Hcr. unbind H as tr Htr. unbind H as tb Htb.
  apply checked_total_Ok in Hcr as [-> Hcr]; [|done]. apply checked_total_Ok in Htr as [-> Htr]; [|done].
  apply checked_total_Ok in Htb as [-> Htb]; [|done]. apply checked_add64_Some in Hrb as [-> Hrb].
  unbind H as [key r3] Hkey. apply read_bounded_Ok in Hkey as (<- & _ & Akey); [|lia].
  unbind H as [value r4] Hval. apply read_bounded_Ok in Hval as (<- & _ & Aval); [|lia].
  unbind H as [] Hres. unfold validate_record_key in Hres. apply reject_if_Ok in Hres.
  unbind H as st Hst. injection H as <- <- <-. exists (key, value), st.
  split; [unfold record_frame; advance_chain|]. by split_and!.
Qed.

Lemma decode_record_complete name n p r kv state r' :
  advance r (record_frame kv) r' -> record_ok name kv -> n + 1 <= MAX_RECORDS_PER_CF ->
  pg_total_records p + 1 <= MAX_TOTAL_RECORDS ->
  pg_total_bytes p + (len kv.1 + len kv.2) <= MAX_TOTAL_UNCOMPRESSED_BYTES ->
  on_record (pg_state p) name kv.1 kv.2 = Ok state ->
  decode_record on_record name n p r = Ok (n + 1, bump kv state p, r').
Proof.
  destruct limits_u64 as (L1 & L2 & L3 & L4). destruct kv as [key value]. unfold record_frame. simpl.
  intros Ha (Hk & Hv & Hr & Hloc) Hn Htr Htb Hst. simpl in *.
  apply advance_app in Ha as (r1 & A1 & (r2 & A2 & (r3 & A3 & A4)%advance_app)%advance_app).
  pose proof (len_nonneg key). pose proof (len_nonneg value).
  unfold MAX_KEY_BYTES, MAX_VALUE_BYTES in *. unfold decode_record, read_u32.
  rewrite (read_uint_eq 4 r (len key) r1 A1) by lia. simpl.
  rewrite (read_uint_eq 4 r1 (len value) r2 A2) by lia. simpl.
  unfold MAX_KEY_BYTES, MAX_VALUE_BYTES, reject_if.
  rewrite (proj2 (Z.ltb_ge _ (len key))), (proj2 (Z.ltb_ge _ (len value))) by lia. simpl.
  rewrite (proj2 (checked_add64_Some (len key) (len value) _)) by (split; [done|lia]). simpl.
  rewrite (proj2 (Z.ltb_ge _ (len key + len value))) by lia. simpl.
  rewrite !checked_total_eq by done. simpl.
  rewrite (read_bounded_eq _ _ _ _ _ A3) by done. simpl. rewrite (read_bounded_eq _ _ _ _ _ A4) by done. simpl.
  unfold validate_record_key, reject_if. rewrite Hloc. simpl. by rewrite Hst.
Qed.

(** The callback's state after the records of one and of all column families. *)
Fixpoint run_records (state : A) (name : string) (records : list (bytes * bytes)) : CodecResult A :=
  match records with
  | [] => Ok state
  | kv :: rest => state ← on_record state name kv.1 kv.2; run_records state name rest
  end.

Fixpoint run_cfs (state : A) (cfs : list (string * list (bytes * bytes))) : CodecResult A :=
  match cfs with
  | [] => Ok state
  | cf :: rest => state ← run_records state cf.1 cf.2; run_cfs state rest
  end.

(** [p'] is the progress after some records. *)
Definition progressed (p : Progress (A := A)) (count size : Z) (p' : Progress (A := A)) : Prop :=
  pg_total_records p' = pg_total_records p + count /\ pg_total_bytes p' = pg_total_bytes p + size.

Definition end_frame (n : Z) : bytes := be_bytes 1 TAG_CF_END ++ be_bytes 8 n.

Lemma encode_records_cons kv records : encode_records (kv :: records) = be_bytes 1 TAG_KV ++ record_frame kv ++ encode_records records.
Proof. unfold encode_records, encode_record, record_frame. csimpl. by rewrite <- !app_assoc. Qed.

Lemma decode_records_sound fuel name n p r p' r' :
  decode_records on_record fuel name n p r = Ok (p', r') ->
  exists records, let n' := n + Z.of_nat (length records) in
    advance r (encode_records records ++ end_frame n') r' /\ Forall (record_ok name) records /\
    n' <= MAX_RECORDS_PER_CF /\ progressed p (Z.of_nat (length records)) (records_bytes records) p' /\
    run_records (pg_state p) name records = Ok (pg_state p').
Proof.
  revert n p r. induction fuel as [|fuel IH]; intros n p r H; [done|]. cbn [decode_records] in H.
  unbind H as [tag r1] Ht. apply read_uint_Ok in Ht as [_ At].
  destruct (Z.eqb_spec tag TAG_KV) as [->|].
  - unbind H as [[n1 p1] r2] Hr. apply decode_record_sound in Hr as (kv & st & Ar & Hok & -> & Hn & -> & Hst).
    apply IH in H as (records & Ae & Hall & Hn' & [Ht Hb] & Hrun). exists (kv :: records).
    cbv zeta in *. rewrite encode_records_cons, length_cons, Nat2Z.inj_succ, <- !app_assoc. simpl in *.
    replace (n + Z.succ (Z.of_nat (length records))) with (n + 1 + Z.of_nat (length records)) by lia.
    split; [advance_chain|]. split; [by constructor|]. split; [done|]. unfold progressed.
    rewrite Hst. simpl. split; [lia|done].
  - destruct (Z.eqb_spec tag TAG_CF_END) as [->|]; [|done].
    unbind H as [d r2] Hd. apply read_uint_Ok in Hd as [_ Ad]. unbind H as [] Hmx. unbind H as [] Heq.
    bool_prop. injection H as <- <-. exists []. simpl. rewrite Z.add_0_r. unfold progressed.
    subst d. split; [unfold end_frame; advance_chain|]. split_and!; [done|done|lia|lia|done].
Qed.

Lemma records_bytes_nonneg records : 0 <= records_bytes records.
Proof. induction records as [|[k v] records IH]; simpl; [done|]. pose proof (len_nonneg k). pose proof (len_nonneg v). lia. Qed.

Lemma decode_records_complete fuel name n p r records r' state :
  let n' := n + Z.of_nat (length records) in
  advance r (encode_records records ++ end_frame n') r' -> Forall (record_ok name) records ->
  0 <= n -> n' <= MAX_RECORDS_PER_CF ->
  pg_total_records p + Z.of_nat (length records) <= MAX_TOTAL_RECORDS ->
  pg_total_bytes p + records_bytes records <= MAX_TOTAL_UNCOMPRESSED_BYTES ->
  run_records (pg_state p) name records = Ok state -> (length (rd_inner r) < fuel)%nat ->
  decode_records on_record fuel name n p r
  = Ok (mk_Progress (pg_total_records p + Z.of_nat (length records)) (pg_total_bytes p + records_bytes records) state, r').
Proof.
  destruct limits_u64 as (L1 & _). revert fuel n p r. induction records as [|kv records IH];
    intros fuel n p r n' Ha Hall H0 Hn Htr Htb Hrun Hfuel; (destruct fuel as [|fuel]; [lia|]);
    cbn [decode_records]; subst n'.
  - simpl in *. unfold end_frame in Ha. apply advance_app in Ha as (r1 & A1 & A2).
    unfold read_u8, read_u64. rewrite (read_uint_eq 1 r TAG_CF_END r1 A1) by done. simpl.
    rewrite (read_uint_eq 8 r1 _ r' A2) by (unfold MAX_RECORDS_PER_CF in *; lia). simpl.
    unfold reject_if. rewrite (proj2 (Z.ltb_ge _ _)) by lia. simpl.
    rewrite Z.add_0_r, neq_refl_false, !Z.add_0_r. simpl. injection Hrun as <-. by destruct p.
  - rewrite encode_records_cons, <- !app_assoc in Ha.
    apply advance_app in Ha as (r1 & A1 & (r2 & A2 & A3)%advance_app).
    apply Forall_cons in Hall as [Hok Hall]. cbn [run_records] in Hrun. unbind Hrun as st Hst.
    rewrite length_cons, Nat2Z.inj_succ in *. cbn [records_bytes foldr] in Htb.
    fold (records_bytes records) in Htb. pose proof (records_bytes_nonneg records).
    unfold read_u8. rewrite (read_uint_eq 1 r TAG_KV r1 A1) by done. simpl.
    rewrite (decode_record_complete name n p r1 kv st r2 A2 Hok) by (done || lia). simpl.
    assert (length (rd_inner r2) < length (rd_inner r))%nat as Hlt.
    { apply advance_length in A1, A2. rewrite be_bytes_length in A1. lia. }
    rewrite (IH fuel (n + 1) (bump kv st p) r2); simpl; try done; try lia.
    + do 3 f_equal; lia.
    + by replace (n + 1 + Z.of_nat (length records)) with (n + Z.succ (Z.of_nat (length records))) by lia.
Qed.
End decoder.

(** ** Header *)

Definition log_id_typed (last : option RaftLogId) : Prop :=
  match last with
  | Some l => 0 <= rl_term l <= u64_max /\ 0 <= rl_leader_node_id l <= u64_max /\ 0 <= rl_index l <= u64_max
  | None => True
  end.

(** The raw group bytes of a header name the group. *)
Definition names_group (raw : bytes) (group : string) : Prop :=
  len raw <= MAX_GROUP_NAME_BYTES /\ exists chars, utf8_chars raw = Some chars /\ group_name_parse chars = Ok group.

Lemma decode_header_sound r expected r' :
  decode_header r expected = Ok r' ->
  si_storage_schema_version expected = ROCKSDB_SCHEMA_VERSION /\
  exists raw, names_group raw (si_group_name expected) /\ log_id_typed (si_last_applied_log_id expected) /\
    advance r (encode_header raw (si_last_applied_log_id expected)) r'.
Proof.
  unfold decode_header. intros H. unbind H as [m r1] Hm. apply read_hashed_Ok in Hm as [_ A1].
  unbind H as [] Em. unbind H as [v r2] Hv. apply read_uint_Ok in Hv as [_ A2]. unbind H as [] Ev.
  unbind H as [sc r3] Hs. apply read_uint_Ok in Hs as [_ A3]. unbind H as [] Es.
  unbind H as [gl r4] Hg. apply read_uint_Ok in Hg as [Hgl A4]. unbind H as [raw r5] Hraw.
  apply read_bounded_Ok in Hraw as (<- & Hrl & A5); [|lia]. unbind H as chars Hch. unbind H as g Hgp.
  unbind H as [] Eg. unbind H as [pr r6] Hpr. apply read_uint_Ok in Hpr as [_ A6].
  unbind H as [la r7] Hla. unbind H as [] El. unbind H as [cc r8] Hcc. apply read_uint_Ok in Hcc as [_ A8].
  unbind H as [] Ec. bool_prop. subst m v sc g la cc. injection H as <-.
  split; [done|]. exists raw. split; [by split; eauto|].
  assert (log_id_typed (si_last_applied_log_id expected) /\ advance r5 (encode_last (si_last_applied_log_id expected)) r7)
    as [Hty A67].
  { destruct (Z.eqb_spec pr 0) as [->|]; [|destruct (Z.eqb_spec pr 1) as [->|]; [|done]].
    - injection Hla as <- <-. done.
    - unbind Hla as [t q1] Ht. apply read_uint_Ok in Ht as [Ht B1]. unbind Hla as [ld q2] Hl.
      apply read_uint_Ok in Hl as [Hl B2]. unbind Hla as [ix q3] Hi. apply read_uint_Ok in Hi as [Hi B3].
      injection Hla as <- <-. unfold log_id_typed, u64_max. simpl. split; [lia|]. advance_chain. }
  split; [done|]. unfold encode_header. advance_chain.
Qed.

Lemma decode_header_complete r expected raw r' :
  si_storage_schema_version expected = ROCKSDB_SCHEMA_VERSION -> names_group raw (si_group_name expected) ->
  log_id_typed (si_last_applied_log_id expected) ->
  advance r (encode_header raw (si_last_applied_log_id expected)) r' -> decode_header r expected = Ok r'.
Proof.
  intros Hsc (Hrl & chars & Hch & Hgp) Hty Ha. unfold encode_header in Ha.
  apply advance_app in Ha as (r1 & A1 & (r2 & A2 & (r3 & A3 & (r4 & A4 & (r5 & A5 & (r6 & A6 & A7)%advance_app)
    %advance_app)%advance_app)%advance_app)%advance_app).
  pose proof (len_nonneg raw). unfold MAX_GROUP_NAME_BYTES in *. unfold decode_header, read_u8, read_u16, read_u64.
  rewrite (proj2 (read_hashed_Ok r (length MAGIC) MAGIC r1)) by done. simpl. rewrite ?neq_refl_false. simpl.
  rewrite (read_uint_eq 2 r1 _ r2 A2) by done. simpl. rewrite (read_uint_eq 8 r2 _ r3 A3) by done. simpl.
  rewrite Hsc. simpl. rewrite ?neq_refl_false. simpl.
  rewrite (read_uint_eq 2 r3 _ r4 A4) by lia. simpl. rewrite (read_bounded_eq r4 _ _ raw r5 A5) by done. simpl.
  rewrite Hch. simpl. rewrite Hgp. simpl. rewrite ?neq_refl_false. simpl.
  assert (exists pr q, read_uint 1 r5 = Ok (pr, q) /\
            (if pr =? 0 then Ok (None, q)
             else if pr =? 1
             then '(term, r) ← read_uint 8 q; '(leader, r) ← read_uint 8 r; '(index, r) ← read_uint 8 r;
                  Ok (Some (mk_RaftLogId term leader index), r)
             else Err (Invalid "invalid last applied presence tag"))
            = Ok (si_last_applied_log_id expected, r6)) as (pr & q & Hq & Hl).
  { unfold log_id_typed, u64_max in Hty. destruct (si_last_applied_log_id expected) as [[t ld ix]|]; simpl in *.
    - apply advance_app in A6 as (q1 & B1 & (q2 & B2 & (q3 & B3 & B4)%advance_app)%advance_app).
      exists 1, q1. split; [by apply read_uint_eq|]. simpl.
      rewrite (read_uint_eq 8 q1 t q2 B2) by lia. simpl. rewrite (read_uint_eq 8 q2 ld q3 B3) by lia. simpl.
      by rewrite (read_uint_eq 8 q3 ix r6 B4) by lia.
    - exists 0, r6. split; [by apply read_uint_eq|done]. }
  rewrite Hq. simpl. rewrite Hl. simpl. rewrite ?neq_refl_false. simpl.
  by rewrite (read_uint_eq 2 r6 _ r' A7) by done.
Qed.

(** ** Column families *)

Lemma state_cf_name name :
  name ∈ STATE_CFS -> len (as_bytes name) <= MAX_CF_NAME_BYTES /\ is_Some (utf8_chars (as_bytes name)).
Proof.
  assert (Forall (fun n => bool_decide (len (as_bytes n) <= MAX_CF_NAME_BYTES)
                           && bool_decide (is_Some (utf8_chars (as_bytes n))) = true) STATE_CFS) as H
    by (repeat constructor).
  intros Hn. rewrite Forall_forall in H. apply H in Hn. by bool_prop.
Qed.

Section families.
Context {A : Type} (on_record : A -> string -> bytes -> bytes -> CodecResult A).
Implicit Types (p : Progress (A := A)) (r : Reader) (cfs : list (string * list (bytes * bytes))).

Lemma encode_cfs_cons cf cfs :
  encode_cfs (cf :: cfs)
  = be_bytes 1 TAG_CF_START ++ be_bytes 2 (len (as_bytes cf.1)) ++ as_bytes cf.1
    ++ (encode_records cf.2 ++ end_frame (Z.of_nat (length cf.2))) ++ encode_cfs cfs.
Proof. unfold encode_cfs, encode_cf, end_frame. csimpl. by rewrite <- !app_assoc. Qed.

Lemma decode_cfs_sound fuel seen p r seen' p' r' :
  decode_cfs on_record fuel seen p r = Ok (seen', p', r') ->
  exists cfs, advance r (encode_cfs cfs ++ be_bytes 1 TAG_TRAILER) r' /\ Forall cf_ok cfs /\
    seen' = reverse cfs.*1 ++ seen /\ (NoDup seen -> NoDup seen') /\ Forall (.∈ STATE_CFS) cfs.*1 /\
    progressed p (total_records cfs) (total_bytes cfs) p' /\
    run_cfs on_record (pg_state p) cfs = Ok (pg_state p').
Proof.
  revert seen p r. induction fuel as [|fuel IH]; intros seen p r H; [done|]. cbn [decode_cfs] in H.
  unbind H as [tag r1] Ht. apply read_uint_Ok in Ht as [_ At].
  destruct (Z.eqb_spec tag TAG_TRAILER) as [->|].
  - injection H as <- <- <-. exists []. unfold progressed. simpl. split; [done|].
    split_and!; [done|done|done|done|lia|lia|done].
  - unbind H as [] Etag. bool_prop. subst tag. unbind H as [nl r2] Hn. apply read_uint_Ok in Hn as [Hnl An].
    unbind H as [nb r3] Hb. apply read_bounded_Ok in Hb as (<- & _ & Ab); [|lia]. unbind H as u8 Hu8.
    unbind H as [] Hst. unbind H as [] Hnew. unbind H as [p1 r4] Hrec. bool_prop. apply dec_stable in Hst.
    apply decode_records_sound in Hrec as (records & Ar & Hrok & Hcnt & [Hc Hs] & Hrun). rewrite Z.add_0_l in *.
    apply IH in H as (cfs & Ac & Hok & -> & Hnd & Hin & [Hc' Hs'] & Hrun').
    set (name := String.string_of_list_byte nb) in *.
    assert (nb = as_bytes name) as Enb by (unfold name; by rewrite String.list_byte_of_string_of_list_byte).
    clearbody name. subst nb. exists ((name, records) :: cfs). rewrite encode_cfs_cons, <- !app_assoc.
    cbn [fst snd] in *. apply advance_app in Ar as (q & Ar1 & Ar2), Ac as (q' & Ac1 & Ac2).
    split; [advance_chain|].
    split; [by constructor|]. csimpl. rewrite reverse_cons, <- app_assoc. split; [done|].
    split; [intros; apply Hnd; by constructor|]. split; [by constructor|]. unfold progressed. simpl.
    rewrite Hrun. simpl. split; [|done]. unfold total_records, total_bytes in *. lia.
Qed.

Lemma totals_nonneg cfs : 0 <= total_records cfs /\ 0 <= total_bytes cfs.
Proof.
  induction cfs as [|[nm recs] cfs [IH1 IH2]]; [done|]. unfold total_records, total_bytes in *. simpl.
  pose proof (records_bytes_nonneg recs). lia.
Qed.

Lemma decode_cfs_complete fuel seen p r cfs r' state :
  advance r (encode_cfs cfs ++ be_bytes 1 TAG_TRAILER) r' -> Forall cf_ok cfs ->
  NoDup (cfs.*1) -> Forall (fun n => n ∈ STATE_CFS /\ n ∉ seen) cfs.*1 ->
  pg_total_records p + total_records cfs <= MAX_TOTAL_RECORDS ->
  pg_total_bytes p + total_bytes cfs <= MAX_TOTAL_UNCOMPRESSED_BYTES ->
  run_cfs on_record (pg_state p) cfs = Ok state -> (length (rd_inner r) < fuel)%nat ->
  decode_cfs on_record fuel seen p r
  = Ok (reverse cfs.*1 ++ seen,
        mk_Progress (pg_total_records p + total_records cfs) (pg_total_bytes p + total_bytes cfs) state, r').
Proof.
  revert fuel seen p r. induction cfs as [|[name records] cfs IH];
    intros fuel seen p r Ha Hok Hnd Hin Htr Htb Hrun Hfuel; (destruct fuel as [|fuel]; [lia|]);
    cbn [decode_cfs]; unfold read_u8, read_u16.
  - simpl in Ha. rewrite (read_uint_eq 1 r TAG_TRAILER r' Ha) by done. simpl. simpl in Hrun. injection Hrun as <-.
    rewrite !Z.add_0_r. by destruct p.
  - rewrite encode_cfs_cons, <- !app_assoc in Ha. cbn [fst snd] in Ha.
    apply advance_app in Ha as (r1 & A1 & (r2 & A2 & (r3 & A3 & Ha)%advance_app)%advance_app).
    rewrite (app_assoc (encode_records _)) in Ha. apply advance_app in Ha as (r4 & A4 & A5).
    csimpl in Hin. csimpl in Hnd. csimpl in Hrun. apply Forall_cons in Hok as [[Hrok Hcnt] Hok]. apply Forall_cons in Hin as [[Hst Hnew] Hin].
    apply NoDup_cons in Hnd as [Hfresh Hnd]. unbind Hrun as st Hst'. cbn [fst snd] in *.
    destruct (state_cf_name name Hst) as [Hlen [u8 Hu8]]. unfold MAX_CF_NAME_BYTES in *.
    pose proof (len_nonneg (as_bytes name)). pose proof (totals_nonneg cfs).
    unfold total_records, total_bytes in Htr, Htb. cbn [foldr fst snd] in Htr, Htb.
    fold (total_records cfs) in Htr. fold (total_bytes cfs) in Htb. pose proof (records_bytes_nonneg records).
    rewrite (read_uint_eq 1 r _ r1 A1) by done. cbn [mbind result_bind].
    change (TAG_CF_START =? TAG_TRAILER) with false. rewrite neq_refl_false. cbn [reject_if mbind result_bind].
    rewrite (read_uint_eq 2 r1 _ r2 A2) by lia. cbn [mbind result_bind].
    rewrite (read_bounded_eq r2 _ _ _ r3 A3) by done. cbn [mbind result_bind].
    rewrite Hu8. cbn [ok_or mbind result_bind]. rewrite String.string_of_list_byte_of_string.
    rewrite (bool_decide_eq_false_2 (name ∉ STATE_CFS)) by (by intros ?).
    rewrite (bool_decide_eq_false_2 (name ∈ seen)) by done. cbn [reject_if mbind result_bind].
    rewrite (decode_records_complete on_record _ name 0 p r3 records r4 st); [|done|done|done|done|lia|lia|done|lia].
    cbn [mbind result_bind].
    rewrite (IH fuel (name :: seen) _ r4); simpl; try done; try lia.
    + rewrite reverse_cons, <- app_assoc. unfold total_records, total_bytes. simpl. do 4 f_equal; lia.
    + rewrite Forall_forall in Hin |- *. intros x Hx. destruct (Hin x Hx) as [? ?]. split; [done|].
      intros [->|?]%elem_of_cons; done.
    + apply advance_length in A1, A2, A3, A4. rewrite be_bytes_length in A1. lia.
Qed.
End families.

(** ** The whole image *)

Section image.
Context {A : Type} (on_record : A -> string -> bytes -> bytes -> CodecResult A).
Context (sha256 : bytes -> bytes).
Implicit Types (cfs : list (string * list (bytes * bytes))).

Lemma seen_all cfs :
  existsb (fun name => bool_decide (name ∉ reverse cfs.*1 ++ [])) STATE_CFS = false <->
  forall name, name ∈ STATE_CFS -> name ∈ cfs.*1.
Proof.
  rewrite app_nil_r, <- not_true_iff_false, existsb_exists. split.
  - intros H name Hn. destruct (decide (name ∈ cfs.*1)) as [|Hx]; [done|]. exfalso. apply H. exists name.
    split; [by apply list_elem_of_In|]. apply bool_decide_eq_true. by rewrite elem_of_reverse.
  - intros H (name & Hn%list_elem_of_In & Hx). apply bool_decide_eq_true in Hx. rewrite elem_of_reverse in Hx. auto.
Qed.

Lemma state_cfs_NoDup : NoDup STATE_CFS.
Proof. apply (bool_decide_unpack _). by vm_compute. Qed.

Lemma decode_snapshot_sound input expected state summary state' :
  decode_snapshot sha256 on_record input expected state = Ok (summary, state') ->
  exists raw cfs,
    si_storage_schema_version expected = ROCKSDB_SCHEMA_VERSION /\ names_group raw (si_group_name expected) /\
    image_ok cfs /\ input = encode_image sha256 raw (si_last_applied_log_id expected) cfs /\
    summary = mk_SnapshotSummary (total_records cfs) (total_bytes cfs) /\
    run_cfs on_record state cfs = Ok state'.
Proof.
  unfold decode_snapshot. intros H. unbind H as r Hh.
  apply decode_header_sound in Hh as (Hsc & raw & Hg & _ & Ah). unbind H as [[seen p] r1] Hc.
  apply decode_cfs_sound in Hc as (cfs & Ac & Hok & -> & Hnd & Hin & [Hr Hb] & Hrun).
  unbind H as [] Hmiss. rewrite seen_all in Hmiss. unbind H as [dr r2] Hdr. apply read_uint_Ok in Hdr as [_ Ar].
  unbind H as [] Hmr. unbind H as [] Er. unbind H as [db r3] Hdb. apply read_uint_Ok in Hdb as [_ Ab].
  unbind H as [] Hmb. unbind H as [] Eb. unbind H as [sum rest] Hs. apply read_exact_Ok in Hs as [_ Is].
  unbind H as [] Es. unbind H as [en rest'] He. apply read_exact_Ok in He as [Le Ie]. unbind H as [] Ee.
  unbind H as [] Et. bool_prop. subst dr db sum rest'. injection H as <- <-. cbn [pg_total_records pg_total_bytes pg_state] in *.
  rewrite Z.add_0_l in Hr, Hb. exists raw, cfs. split; [done|]. split; [done|].
  assert (advance (mk_Reader input []) (encode_body raw (si_last_applied_log_id expected) cfs) r3) as [Hin' Hh'].
  { unfold encode_body. rewrite Hr in Ar. rewrite Hb in Ab. apply advance_app in Ac as (q & Ac1 & Ac2). advance_chain. }
  cbn [rd_inner rd_hashed] in *. assert (rd_hashed r3 = encode_body raw (si_last_applied_log_id expected) cfs) as Hb3 by done.
  split.
  { split; [|split; [done|lia]]. apply NoDup_Permutation; [|apply state_cfs_NoDup|].
    - rewrite app_nil_r in Hnd. rewrite <- (reverse_Permutation cfs.*1). apply Hnd. constructor.
    - intros x. rewrite Forall_forall in Hin. split; [apply Hin|apply Hmiss]. }
  split; [|by rewrite Hr, Hb].
  unfold encode_image. rewrite Hin', Is, Ie, Hb3. rewrite app_nil_r. do 2 f_equal.
  rewrite <- (be_bytes_value en), Le, Ee. done.
Qed.

Lemma decode_snapshot_complete expected raw cfs state state' :
  (forall bs, length (sha256 bs) = 32%nat) -> log_id_typed (si_last_applied_log_id expected) ->
  si_storage_schema_version expected = ROCKSDB_SCHEMA_VERSION -> names_group raw (si_group_name expected) ->
  image_ok cfs -> run_cfs on_record state cfs = Ok state' ->
  decode_snapshot sha256 on_record (encode_image sha256 raw (si_last_applied_log_id expected) cfs) expected state
  = Ok (mk_SnapshotSummary (total_records cfs) (total_bytes cfs), state').
Proof.
  intros Hsha Hty Hsc Hg (Hperm & Hok & Hr & Hb) Hrun. unfold decode_snapshot.
  set (last := si_last_applied_log_id expected) in *. set (body := encode_body raw last cfs).
  set (tail := sha256 body ++ be_bytes 1 TAG_END).
  assert (advance (mk_Reader (encode_image sha256 raw last cfs) []) body (mk_Reader tail body)) as Ha by done.
  unfold body at 1, encode_body in Ha. rewrite (app_assoc (encode_cfs cfs)) in Ha.
  apply advance_app in Ha as (r1 & A1 & (r2 & A2 & (r3 & A3 & A4)%advance_app)%advance_app).
  pose proof (totals_nonneg cfs). unfold MAX_TOTAL_RECORDS, MAX_TOTAL_UNCOMPRESSED_BYTES in *.
  rewrite (decode_header_complete _ expected raw r1) by done. cbn [mbind result_bind].
  rewrite (decode_cfs_complete on_record _ [] (mk_Progress 0 0 state) r1 cfs r2 state'); try done; try lia.
  - cbn [mbind result_bind pg_total_records pg_total_bytes pg_state]. rewrite !Z.add_0_l.
    rewrite (proj2 (seen_all cfs)); [|intros name; by rewrite Hperm]. cbn [reject_if mbind result_bind].
    unfold read_u64. rewrite (read_uint_eq 8 r2 _ r3 A3) by lia. cbn [mbind result_bind].
    unfold MAX_TOTAL_RECORDS, MAX_TOTAL_UNCOMPRESSED_BYTES.
    rewrite (proj2 (Z.ltb_ge _ _)) by lia. rewrite neq_refl_false. cbn [reject_if mbind result_bind].
    rewrite (read_uint_eq 8 r3 _ _ A4) by lia. cbn [mbind result_bind].
    rewrite (proj2 (Z.ltb_ge _ _)) by lia. rewrite neq_refl_false. cbn [reject_if mbind result_bind rd_inner rd_hashed].
    unfold tail. rewrite (proj2 (read_exact_Ok _ 32 (sha256 body) (be_bytes 1 TAG_END))) by done.
    cbn [mbind result_bind]. rewrite neq_refl_false. cbn [reject_if mbind result_bind].
    rewrite (proj2 (read_exact_Ok _ 1 (be_bytes 1 TAG_END) [])) by (by rewrite app_nil_r). done.
  - rewrite Hperm. apply state_cfs_NoDup.
  - apply Forall_forall. intros x Hx. rewrite Hperm in Hx. split; [done|]. apply not_elem_of_nil.
Qed.
End image.

(** ** The writer *)

(** The records of a column family that leave the node. *)
Definition shipped (snapshot : string -> list (bytes * bytes)) (name : string) : list (bytes * bytes) :=
  filter (fun kv => is_node_local_meta_key name kv.1 = false) (snapshot name).

Definition image_cfs (snapshot : string -> list (bytes * bytes)) (names : list string)
  : list (string * list (bytes * bytes)) := (fun name => (name, shipped snapshot name)) <$> names.

Lemma encode_records_app a b : encode_records (a ++ b) = encode_records a ++ encode_records b.
Proof. unfold encode_records. by rewrite fmap_app, join_app. Qed.

Lemma records_bytes_app a b : records_bytes (a ++ b) = records_bytes a + records_bytes b.
Proof. unfold records_bytes. induction a as [|kv a IH]; simpl; [done|]. rewrite IH. lia. Qed.

(** Output and hasher agree, and the totals are inside the limits. *)
Record writer_ok (out : bytes) (seen : list string) (tr tb : Z) (active : option (string * Z)) (w : SnapshotWriter)
  : Prop := {
  wo_eq : w = mk_SnapshotWriter out out seen active tr tb;
  wo_records : 0 <= tr <= MAX_TOTAL_RECORDS;
  wo_bytes : 0 <= tb <= MAX_TOTAL_UNCOMPRESSED_BYTES
}.

Lemma write_hashed_ok out seen tr tb active w bs :
  writer_ok out seen tr tb active w -> writer_ok (out ++ bs) seen tr tb active (write_hashed w bs).
Proof. by intros [-> ? ?]. Qed.

Lemma write_record_ok out seen tr tb name n w key value w' :
  writer_ok out seen tr tb (Some (name, n)) w -> 0 <= n -> write_record w key value = Ok w' ->
  record_ok name (key, value) /\ n + 1 <= MAX_RECORDS_PER_CF /\
  writer_ok (out ++ encode_record (key, value)) seen (tr + 1) (tb + (len key + len value)) (Some (name, n + 1)) w'.
Proof.
  intros [-> Htr Htb] Hn H. destruct limits_u64 as (L1 & L2 & L3 & L4). unfold write_record in H. simpl in H.
  unbind H as [] Hk. unbind H as [] Hv. unbind H as [] Hloc. unbind H as rb Hrb. unbind H as [] Hrec.
  unbind H as nx Hnx. unbind H as t1 Ht1. unbind H as t2 Ht2. unfold validate_record_key in Hloc.
  apply reject_if_Ok in Hloc. apply checked_add64_Some in Hrb as [-> _]. bool_prop.
  apply checked_total_Ok in Hnx as [-> Hnx]; [|done]. apply checked_total_Ok in Ht1 as [-> Ht1]; [|done].
  apply checked_total_Ok in Ht2 as [-> Ht2]; [|done]. injection H as <-.
  pose proof (len_nonneg key). pose proof (len_nonneg value).
  split; [done|]. split; [done|]. split; [|lia|lia]. unfold write_hashed. simpl. unfold encode_record. simpl.
  by rewrite <- !app_assoc.
Qed.

Lemma write_records_ok out seen tr tb name n w records w' :
  writer_ok out seen tr tb (Some (name, n)) w -> 0 <= n <= MAX_RECORDS_PER_CF ->
  write_records w name records = Ok w' ->
  let kept := filter (fun kv => is_node_local_meta_key name kv.1 = false) records in
  let n' := n + Z.of_nat (length kept) in
  Forall (record_ok name) kept /\ n' <= MAX_RECORDS_PER_CF /\
  writer_ok (out ++ encode_records kept) seen (tr + Z.of_nat (length kept)) (tb + records_bytes kept)
    (Some (name, n')) w'.
Proof.
  revert out tr tb n w. induction records as [|[k v] records IH]; intros out tr tb n w Hw Hn H; cbv zeta.
  { simpl in H. injection H as <-. simpl. rewrite !Z.add_0_r, app_nil_r. split_and!; [done|lia|done]. }
  cbn [write_records] in H. unbind H as w1 Hw1. rewrite filter_cons. simpl.
  destruct (is_node_local_meta_key name k) eqn:Hloc; simpl in Hw1.
  - injection Hw1 as <-. rewrite decide_False by done. by apply (IH out tr tb n w).
  - rewrite decide_True by done. apply (write_record_ok _ _ _ _ _ _ _ _ _ _ Hw) in Hw1 as (Hok & Hn1 & Hw1); [|lia].
    apply (IH _ _ _ _ _ Hw1) in H as (Hall & Hn' & Hw'); [|lia]. split; [by constructor|].
    rewrite length_cons, Nat2Z.inj_succ. change (encode_records ((k, v) :: ?x)) with (encode_record (k, v) ++ encode_records x).
    cbn [records_bytes foldr fst snd]. fold (records_bytes (filter (fun kv => is_node_local_meta_key name kv.1 = false) records)).
    rewrite app_assoc. revert Hn' Hw'. generalize (filter (fun kv => is_node_local_meta_key name kv.1 = false) records).
    intros kept Hn' Hw'. split; [lia|].
    replace (n + Z.succ (Z.of_nat (length kept))) with (n + 1 + Z.of_nat (length kept)) by lia.
    replace (tr + Z.succ (Z.of_nat (length kept))) with (tr + 1 + Z.of_nat (length kept)) by lia.
    by rewrite Z.add_assoc.
Qed.

Lemma write_cfs_ok out seen tr tb w snapshot names w' :
  writer_ok out seen tr tb None w -> write_cfs w snapshot names = Ok w' ->
  let cfs := image_cfs snapshot names in
  Forall cf_ok cfs /\
  writer_ok (out ++ encode_cfs cfs) (reverse names ++ seen) (tr + total_records cfs) (tb + total_bytes cfs) None w'.
Proof.
  revert out seen tr tb w. induction names as [|name names IH]; intros out seen tr tb w Hw H; cbv zeta.
  { simpl in H. injection H as <-. simpl. by rewrite !Z.add_0_r, app_nil_r. }
  cbn [write_cfs] in H. unbind H as w1 Hw1. unbind H as w2 Hw2. unbind H as w3 Hw3.
  destruct Hw as [-> Htr Htb]. unfold start_column_family in Hw1. simpl in Hw1.
  unbind Hw1 as [] Hst. unbind Hw1 as [] Hlen. unbind Hw1 as [] Hnew. injection Hw1 as <-.
  match type of Hw2 with write_records ?w0 _ _ = _ =>
    apply (write_records_ok (sw_writer w0) (name :: seen) tr tb name 0 w0) in Hw2 as (Hall & Hn & [-> Ht2 Hb2]);
    [|by split|unfold MAX_RECORDS_PER_CF; lia] end.
  unfold end_column_family in Hw3. simpl in Hw3. injection Hw3 as <-.
  fold (shipped snapshot name) in *. unfold write_hashed in H. simpl in H.
  eapply IH in H as [Hok Hw']; [|by split]. split; [by constructor|].
  change (image_cfs snapshot (name :: names)) with ((name, shipped snapshot name) :: image_cfs snapshot names).
  rewrite encode_cfs_cons, reverse_cons, <- app_assoc. unfold total_records, total_bytes.
  cbn [foldr fst snd]. fold (total_records (image_cfs snapshot names)) (total_bytes (image_cfs snapshot names)).
  rewrite !Z.add_assoc. unfold end_frame. rewrite <- !app_assoc in *. exact Hw'.
Qed.

Lemma existsb_missing names : existsb (fun name => bool_decide (name ∉ reverse names ++ [])) STATE_CFS = false ->
  forall name, name ∈ STATE_CFS -> name ∈ names.
Proof.
  intros H. pose proof (seen_all ((., []) <$> names)) as Hs. rewrite <- list_fmap_compose in Hs.
  rewrite (list_fmap_ext _ id names), list_fmap_id in Hs by done. by apply Hs.
Qed.

Lemma writer_new_ok identity w :
  writer_new identity = Ok w ->
  si_storage_schema_version identity = ROCKSDB_SCHEMA_VERSION /\
  len (as_bytes (si_group_name identity)) <= MAX_GROUP_NAME_BYTES /\
  writer_ok (encode_header (as_bytes (si_group_name identity)) (si_last_applied_log_id identity)) [] 0 0 None w.
Proof.
  unfold writer_new. intros H. unbind H as [] Hl. unbind H as [] Hs. bool_prop.
  injection H as <-. split; [done|]. split; [done|].
  assert (writer_ok [] [] 0 0 None (mk_SnapshotWriter [] [] [] None 0 0)) as H0
    by (split; [done|unfold MAX_TOTAL_RECORDS; lia|unfold MAX_TOTAL_UNCOMPRESSED_BYTES; lia]).
  unfold encode_header, encode_last. rewrite Hs, <- (app_nil_l MAGIC).
  destruct (si_last_applied_log_id identity) as [l|]; rewrite !app_assoc; by repeat apply write_hashed_ok.
Qed.

Lemma write_snapshot_image sha256 snapshot identity out :
  write_snapshot_v2 sha256 snapshot identity = Ok out ->
  si_storage_schema_version identity = ROCKSDB_SCHEMA_VERSION /\
  len (as_bytes (si_group_name identity)) <= MAX_GROUP_NAME_BYTES /\
  image_ok (image_cfs snapshot STATE_CFS) /\
  out = encode_image sha256 (as_bytes (si_group_name identity)) (si_last_applied_log_id identity)
          (image_cfs snapshot STATE_CFS).
Proof.
  unfold write_snapshot_v2. intros H. unbind H as w Hw. apply writer_new_ok in Hw as (Hs & Hl & Hw).
  unbind H as w1 Hw1. apply (write_cfs_ok _ _ _ _ _ _ _ _ Hw) in Hw1 as [Hok [-> Htr Htb]].
  cbv zeta in *. remember (image_cfs snapshot STATE_CFS) as cfs eqn:Ecfs.
  remember (encode_header _ _) as header eqn:Eheader.
  unfold finish in H. cbn [sw_active_cf sw_seen] in H. unbind H as [] Hactive. unbind H as [] Hmiss. injection H as <-.
  split; [done|]. split; [done|]. rewrite !Z.add_0_l in *. split.
  - split; [|split; [done|lia]]. rewrite Ecfs. unfold image_cfs. by rewrite <- list_fmap_compose, (list_fmap_ext _ id), list_fmap_id.
  - unfold write_hashed, encode_image, encode_body. rewrite <- Eheader.
    cbn [sw_writer sw_hasher sw_total_records sw_total_bytes]. by rewrite <- !app_assoc.
Qed.

(** ** Properties *)

(** C11. The snapshot decoder accepts exactly the images of the format: the
    expected schema, group and log position, every state column family once and in
    full with matching counts, no node-local key, all limits respected, the right
    checksum over everything before it, and nothing after the end marker. What it
    delivers are the records of the image, in order. *)
Theorem decode_accepts_images {A} (on_record : A -> string -> bytes -> bytes -> CodecResult A) sha256
    input expected state summary state' :
  (forall bs, length (sha256 bs) = 32%nat) -> log_id_typed (si_last_applied_log_id expected) ->
  decode_snapshot sha256 on_record input expected state = Ok (summary, state') <->
  exists raw cfs,
    si_storage_schema_version expected = ROCKSDB_SCHEMA_VERSION /\ names_group raw (si_group_name expected) /\
    image_ok cfs /\ input = encode_image sha256 raw (si_last_applied_log_id expected) cfs /\
    summary = mk_SnapshotSummary (total_records cfs) (total_bytes cfs) /\
    run_cfs on_record state cfs = Ok state'.
Proof.
  intros Hsha Hty. split; [apply decode_snapshot_sound|].
  intros (raw & cfs & Hsc & Hg & Hok & -> & -> & Hrun). by apply decode_snapshot_complete.
Qed.

(** The callback that collects what it is given. *)
Definition collect (acc : list (string * bytes * bytes)) (name : string) (key value : bytes)
  : CodecResult (list (string * bytes * bytes)) := Ok (acc ++ [(name, key, value)]).

Definition shipped_records (snapshot : string -> list (bytes * bytes)) : list (string * bytes * bytes) :=
  name ← STATE_CFS; (fun kv => (name, kv.1, kv.2)) <$> shipped snapshot name.

Lemma run_collect cfs acc :
  run_cfs collect acc cfs = Ok (acc ++ (cf ← cfs; (fun kv => (cf.1, kv.1, kv.2)) <$> cf.2)).
Proof.
  revert acc. induction cfs as [|[name records] cfs IH]; intros acc; simpl; [by rewrite app_nil_r|].
  assert (forall a, run_records collect a name records = Ok (a ++ ((fun kv => (name, kv.1, kv.2)) <$> records))) as Hr.
  { induction records as [|kv records IHr]; intros a; simpl; [by rewrite app_nil_r|].
    by rewrite IHr, <- app_assoc. }
  rewrite Hr. simpl. by rewrite IH, <- app_assoc.
Qed.

(** C12. Installing what a snapshot build wrote delivers exactly the replicated
    records of the database: every record of every state column family in order,
    without the two node-local keys. *)
Theorem snapshot_roundtrip sha256 snapshot identity raw out :
  (forall bs, length (sha256 bs) = 32%nat) -> log_id_typed (si_last_applied_log_id identity) ->
  group_name_parse raw = Ok (si_group_name identity) ->
  write_snapshot_v2 sha256 snapshot identity = Ok out ->
  exists summary, decode_snapshot sha256 collect out identity [] = Ok (summary, shipped_records snapshot) /\
    ss_total_records summary = Z.of_nat (length (shipped_records snapshot)).
Proof.
  intros Hsha Hty Hg Hw. apply write_snapshot_image in Hw as (Hs & Hl & Hok & ->).
  pose proof (group_name_parse_Ok _ _ Hg) as (_ & _ & Hch & _).
  eexists. rewrite (decode_snapshot_complete collect sha256 identity _ _ [] (shipped_records snapshot)); try done.
  - split; [reflexivity|]. cbn [ss_total_records]. unfold shipped_records, image_cfs. generalize STATE_CFS. intros names.
    induction names as [|name names IH]; [done|]. unfold total_records in *. csimpl. rewrite length_app, length_fmap, IH. lia.
  - split; [done|]. exists (chars_of (si_group_name identity)). split; [|by eapply group_name_parse_idem].
    apply utf8_ascii. eapply Forall_impl; [exact Hch|]. intros c Hc%group_char_range. lia.
  - by rewrite run_collect.
Qed.

(** ** The loops end *)

Lemma np_read_exact inner n : read_exact inner n <> Panic.
Proof. unfold read_exact. no_panic. Qed.
#[export] Hint Resolve np_read_exact : np.
Lemma np_read_hashed r n : read_hashed r n <> Panic.
Proof. unfold read_hashed. no_panic. Qed.
#[export] Hint Resolve np_read_hashed : np.
Lemma np_read_uint n r : read_uint n r <> Panic.
Proof. unfold read_uint. no_panic. Qed.
Lemma np_read_bounded r l mx lb : read_bounded_bytes r l mx lb <> Panic.
Proof. unfold read_bounded_bytes. no_panic. Qed.
Lemma np_checked_total c a mx lb : checked_total c a mx lb <> Panic.
Proof. unfold checked_total. no_panic. Qed.
Lemma np_group_name raw : group_name_parse raw <> Panic.
Proof. unfold group_name_parse. no_panic. Qed.
#[export] Hint Resolve np_read_uint np_read_bounded np_checked_total np_group_name : np.
Lemma np_decode_header r expected : decode_header r expected <> Panic.
Proof. unfold decode_header, read_u8, read_u16, read_u64. no_panic. Qed.
#[export] Hint Resolve np_decode_header : np.

Section total.
Context {A : Type} (on_record : A -> string -> bytes -> bytes -> CodecResult A).
Context (on_record_np : forall a n k v, on_record a n k v <> Panic).

Lemma np_decode_record name n p r : decode_record on_record name n p r <> Panic.
Proof using on_record_np. unfold decode_record, validate_record_key, read_u32. no_panic. Qed.

Lemma np_decode_records fuel name n p r :
  (length (rd_inner r) < fuel)%nat -> decode_records on_record fuel name n p r <> Panic.
Proof using on_record_np.
  revert n p r. induction fuel as [|fuel IH]; intros n p r Hf; [lia|]. cbn [decode_records].
  unfold read_u8, read_u64. apply np_bind; [apply np_read_uint|]. intros [tag r1] Ht. apply read_uint_Ok in Ht as [_ At].
  apply advance_length in At. rewrite be_bytes_length in At.
  destruct (tag =? TAG_KV); [|no_panic]. apply np_bind; [apply np_decode_record|]. intros [[n1 p1] r2] Hr.
  apply decode_record_sound in Hr as (kv & st & Ar & _). apply advance_length in Ar. apply IH. lia.
Qed.

Lemma np_decode_cfs fuel seen p r :
  (length (rd_inner r) < fuel)%nat -> decode_cfs on_record fuel seen p r <> Panic.
Proof using on_record_np.
  revert seen p r. induction fuel as [|fuel IH]; intros seen p r Hf; [lia|]. cbn [decode_cfs].
  unfold read_u8, read_u16. apply np_bind; [apply np_read_uint|]. intros [tag r1] Ht. apply read_uint_Ok in Ht as [_ At].
  apply advance_length in At. rewrite be_bytes_length in At. destruct (tag =? TAG_TRAILER); [done|].
  apply np_bind; [apply np_reject|]. intros [] _. apply np_bind; [apply np_read_uint|]. intros [nl r2] Hn.
  apply read_uint_Ok in Hn as [Hnl An]. apply advance_length in An.
  apply np_bind; [apply np_read_bounded|]. intros [nb r3] Hb. apply read_bounded_Ok in Hb as (_ & _ & Ab); [|lia].
  apply advance_length in Ab. do 3 (apply np_bind; [auto with np|]; intros ? _).
  apply np_bind; [apply np_decode_records; lia|]. intros [p1 r4] Hr.
  apply decode_records_sound in Hr as (recs & Ar & _). apply advance_length in Ar. apply IH. lia.
Qed.
End total.

(** Decoding ends with an answer on every input: the loops of the decoder
    never run out of the bound set by the bytes that are left, since every round
    consumes its tag. *)
Theorem decode_snapshot_total {A} (on_record : A -> string -> bytes -> bytes -> CodecResult A) sha256
    input expected state :
  (forall a n k v, on_record a n k v <> Panic) -> decode_snapshot sha256 on_record input expected state <> Panic.
Proof.
  intros Hnp. unfold decode_snapshot, read_u64. apply np_bind; [auto with np|]. intros r _.
  apply np_bind; [apply np_decode_cfs; [done|lia]|]. intros [[seen p] r1] _. no_panic.
Qed.

(** ** Witnesses *)

(** A toy digest of the right length, and a database with two records. *)
Definition toy_digest (bs : bytes) : bytes := be_bytes 32 (len bs).
Definition toy_db (name : string) : list (bytes * bytes) :=
  if bool_decide (name = "meta")
  then [(as_bytes "route_epoch", as_bytes "1"); (as_bytes "storage_identity", as_bytes "node")]
  else [].
Definition toy_identity : SnapshotIdentity := snapshot_identity_current "g" (Some (mk_RaftLogId 2 1 7)).
Definition toy_image : bytes :=
  match write_snapshot_v2 toy_digest toy_db toy_identity with Ok out => out | _ => [] end.

Lemma toy_digest_length bs : length (toy_digest bs) = 32%nat.
Proof. apply be_bytes_length. Qed.

Lemma snapshot_roundtrip_witness :
  exists summary, decode_snapshot toy_digest collect toy_image toy_identity []
    = Ok (summary, [("meta", as_bytes "route_epoch", as_bytes "1")]) /\ ss_total_records summary = 1.
Proof.
  assert (shipped_records toy_db = [("meta", as_bytes "route_epoch", as_bytes "1")]) as E by (vm_compute; reflexivity).
  assert (write_snapshot_v2 toy_digest toy_db toy_identity = Ok toy_image) as Hw by (vm_compute; reflexivity).
  assert (log_id_typed (si_last_applied_log_id toy_identity)) as Hty by (vm_compute; intuition congruence).
  assert (group_name_parse (chars_of "g") = Ok (si_group_name toy_identity)) as Hg by (vm_compute; reflexivity).
  destruct (snapshot_roundtrip toy_digest toy_db toy_identity (chars_of "g") toy_image toy_digest_length Hty Hg Hw)
    as (summary & H1 & H2).
  rewrite E in H1, H2. exists summary. split; [exact H1|exact H2].
Defined.

Lemma decode_accepts_images_witness :
  (exists summary records, decode_snapshot toy_digest collect toy_image toy_identity [] = Ok (summary, records)) /\
  exists raw cfs, names_group raw "g" /\ image_ok cfs /\
    toy_image = encode_image toy_digest raw (Some (mk_RaftLogId 2 1 7)) cfs.
Proof.
  assert (exists summary records, decode_snapshot toy_digest collect toy_image toy_identity [] = Ok (summary, records))
    as (summary & records & H) by (do 2 eexists; vm_compute; reflexivity).
  split; [exists summary, records; exact H|].
  assert (log_id_typed (si_last_applied_log_id toy_identity)) as Hty by (vm_compute; intuition congruence).
  destruct (proj1 (decode_accepts_images collect toy_digest toy_image toy_identity [] summary records toy_digest_length Hty) H) as (raw & cfs & _ & Hg & Hok & Hi & _).
  exists raw, cfs. split; [exact Hg|]. split; [exact Hok|exact Hi].
Defined.

Lemma decode_snapshot_total_witness :
  decode_snapshot toy_digest collect (as_bytes "BRYL") toy_identity [] <> Panic.
Proof. apply decode_snapshot_total. discriminate. Defined.
