(* ===== verification/Replica.v ===== *)
(** * One replica ([beryl-metadata/src/raft/storage/log_store.rs],
      [state_machine_store.rs], [snapshot/io.rs], [raft/read_view.rs])

    The durable state of a metadata node, what it keeps in memory, and the calls
    openraft makes on it: log storage, applying committed entries, building and
    installing snapshots, restarting. Log keys are zero-padded decimal indexes, so
    iteration runs in index order. Snapshot files are represented by the records
    they carry; their framing is the subject of [SnapshotCodec]. *)

From S2P Require Import Prelude Types Errors Inode Mount Store Namespace WriteApply Reclaim Apply.
From S2P Require Import SnapshotCodec.
Local Open Scope Z_scope.

(** ** Log entries and durable records *)

Inductive EntryPayload := Blank | Normal (c : Command) | Membership (m : Z).

Record LogEntry := mk_LogEntry {
  le_log_id : RaftLogId;
  le_payload : EntryPayload
}.

(** [SnapshotMeta] and the node's [StorageIdentity]. *)
Record SnapshotMeta := mk_SnapshotMeta {
  sm_last_log_id : option RaftLogId;
  sm_last_membership : option RaftLogId * Z;
  sm_snapshot_id : string
}.

Record StorageIdentity := mk_StorageIdentity {
  sid_storage_uuid : string;
  sid_cluster_id : string;
  sid_group_name : string;
  sid_node_id : Z;
  sid_bootstrap_client_id : string;
  sid_bootstrap_call_id : string;
  sid_bootstrap_proposed_at_ms : Z
}.

#[global] Instance StorageIdentity_eq_dec : EqDecision StorageIdentity.
Proof. solve_decision. Defined.
#[global] Instance SnapshotIdentity_eq_dec : EqDecision SnapshotIdentity.
Proof. solve_decision. Defined.

(** [AppMetadataRaftState::default]. *)
Definition raft_state_default : RaftState := mk_RaftState None None None None (None, 0).

(** The column families of one database generation: the state families and the
    Raft state in [db_store], the log, the node-local identity and the snapshot
    metadata. *)
Record Db := mk_Db {
  db_store : Store;
  db_log : gmap Z LogEntry;
  db_identity : option StorageIdentity;
  db_snapshot_meta : option SnapshotMeta
}.

(** ** The tracker of an incoming snapshot *)

Record InstallState := mk_InstallState {
  is_pending_id : option Z;
  is_deferred_purge : option RaftLogId
}.

Definition install_state_default : InstallState := mk_InstallState None None.

(** [begin], with the fresh identity it draws. *)
Definition tracker_begin (st : InstallState) (id : Z) : MetadataResult InstallState :=
  reject_if (bool_decide (is_pending_id st ≠ None))
    (ServiceUnavailable "another incoming metadata snapshot is already pending");;
  Ok (mk_InstallState (Some id) None).

Definition tracker_defer_purge (st : InstallState) (log_id : RaftLogId) : bool * InstallState :=
  match is_pending_id st with
  | None => (false, st)
  | Some _ =>
      (true,
       match is_deferred_purge st with
       | Some current => if rl_index current <? rl_index log_id
                         then mk_InstallState (is_pending_id st) (Some log_id) else st
       | None => mk_InstallState (is_pending_id st) (Some log_id)
       end)
  end.

Definition tracker_complete (st : InstallState) (id : Z) : MetadataResult (InstallState * option RaftLogId) :=
  reject_if (bool_decide (is_pending_id st ≠ Some id))
    (Internal "incoming snapshot token no longer owns the pending installation");;
  Ok (mk_InstallState None None, is_deferred_purge st).

(** Dropping an uncompleted token. *)
Definition tracker_cancel (st : InstallState) (id : Z) : InstallState :=
  if bool_decide (is_pending_id st = Some id) then mk_InstallState None None else st.

(** ** The replica *)

(** The content of a snapshot file: its identity and the records of the state
    column families. *)
Record SnapshotImage := mk_SnapshotImage {
  im_identity : SnapshotIdentity;
  im_state : Store
}.

#[global] Instance WorkerInfo_eq_dec : EqDecision WorkerInfo.
Proof. solve_decision. Defined.
#[global] Instance Store_eq_dec : EqDecision Store.
Proof. solve_decision. Defined.
#[global] Instance SnapshotImage_eq_dec : EqDecision SnapshotImage.
Proof. solve_decision. Defined.

(** [rp_files] is the snapshot directory. A file is named by the SHA-256 digest of
    its snapshot id, so it is keyed by that id. [rp_readers] are the files that are
    open for reading. *)
Record Replica := mk_Replica {
  rp_db : Db;
  rp_state : RaftState;
  rp_routing : MountTableState;
  rp_route_epoch : Z;
  rp_install : InstallState;
  rp_poisoned : bool;
  rp_files : gmap string SnapshotImage;
  rp_readers : gset string
}.

(** [GenerationHandle::ensure_healthy], which every access to the database runs. *)
Definition pin_generation (r : Replica) : MetadataResult unit :=
  reject_if (rp_poisoned r) (Internal "metadata generation handle is poisoned; restart is required").

Definition with_db (r : Replica) (db : Db) : Replica :=
  mk_Replica db (rp_state r) (rp_routing r) (rp_route_epoch r)
    (rp_install r) (rp_poisoned r) (rp_files r) (rp_readers r).
Definition with_state (r : Replica) (state : RaftState) : Replica :=
  mk_Replica (rp_db r) state (rp_routing r) (rp_route_epoch r)
    (rp_install r) (rp_poisoned r) (rp_files r) (rp_readers r).
Definition with_routing (r : Replica) (routing : MountTableState) : Replica :=
  mk_Replica (rp_db r) (rp_state r) routing (rp_route_epoch r)
    (rp_install r) (rp_poisoned r) (rp_files r) (rp_readers r).
Definition with_install (r : Replica) (st : InstallState) : Replica :=
  mk_Replica (rp_db r) (rp_state r) (rp_routing r) (rp_route_epoch r)
    st (rp_poisoned r) (rp_files r) (rp_readers r).
Definition poison (r : Replica) : Replica :=
  mk_Replica (rp_db r) (rp_state r) (rp_routing r) (rp_route_epoch r)
    (rp_install r) true (rp_files r) (rp_readers r).
Definition with_files (r : Replica) (files : gmap string SnapshotImage) : Replica :=
  mk_Replica (rp_db r) (rp_state r) (rp_routing r) (rp_route_epoch r)
    (rp_install r) (rp_poisoned r) files (rp_readers r).
Definition with_readers (r : Replica) (readers : gset string) : Replica :=
  mk_Replica (rp_db r) (rp_state r) (rp_routing r) (rp_route_epoch r)
    (rp_install r) (rp_poisoned r) (rp_files r) readers.
Definition db_with_store (db : Db) (s : Store) : Db :=
  mk_Db s (db_log db) (db_identity db) (db_snapshot_meta db).
Definition db_with_log (db : Db) (log : gmap Z LogEntry) : Db :=
  mk_Db (db_store db) log (db_identity db) (db_snapshot_meta db).
Notation rp_store r := (db_store (rp_db r)).
Notation rp_log r := (db_log (rp_db r)).

Definition with_store (r : Replica) (s : Store) : Replica := with_db r (db_with_store (rp_db r) s).
Definition with_log (r : Replica) (log : gmap Z LogEntry) : Replica := with_db r (db_with_log (rp_db r) log).

Definition set_last_applied (rs : RaftState) (id : RaftLogId) : RaftState :=
  mk_RaftState (Some id) (last_purged_log_id rs) (vote rs) (committed rs) (membership rs).
Definition set_last_purged (rs : RaftState) (id : RaftLogId) : RaftState :=
  mk_RaftState (last_applied_log_id rs) (Some id) (vote rs) (committed rs) (membership rs).
Definition set_vote (rs : RaftState) (v : Z * Z * bool) : RaftState :=
  mk_RaftState (last_applied_log_id rs) (last_purged_log_id rs) (Some v) (committed rs) (membership rs).
Definition set_committed (rs : RaftState) (c : option RaftLogId) : RaftState :=
  mk_RaftState (last_applied_log_id rs) (last_purged_log_id rs) (vote rs) c (membership rs).
Definition set_membership (rs : RaftState) (m : option RaftLogId * Z) : RaftState :=
  mk_RaftState (last_applied_log_id rs) (last_purged_log_id rs) (vote rs) (committed rs) m.

(** [load_raft_state]. *)
Definition load_raft_state (s : Store) : RaftState := default raft_state_default (s_raft_state s).

(** [persist_raft_state_durable]. *)
Definition persist_raft_state (s : Store) (rs : RaftState) : Store := write_batch s [PutRaftState rs].

(** [StorageError::IO]: the failing operation and its source. *)
Inductive ErrorSubject := ES_Apply (id : RaftLogId) | ES_ReadLogs | ES_ReadLogAt (index : Z) | ES_WriteLogs
| ES_WriteVote | ES_WriteStateMachine | ES_WriteSnapshot | ES_ReadSnapshot.
Record StorageError := mk_StorageError {
  se_subject : ErrorSubject;
  se_source : MetadataError
}.

(** ** Log storage *)

Definition index_le (a b : Z * LogEntry) : Prop := a.1 <= b.1.
#[global] Instance index_le_dec a b : Decision (index_le a b).
Proof. unfold index_le. apply _. Defined.

(** A forward iterator over the log column family. *)
Definition log_iter (log : gmap Z LogEntry) : list (Z * LogEntry) := merge_sort index_le (map_to_list log).

Definition get_raft_log (log : gmap Z LogEntry) (index : Z) : option LogEntry := log !! index.

(** The loop of [scan_raft_logs]. *)
Fixpoint scan_loop (items : list (Z * LogEntry)) (end_exclusive previous : option Z)
    (entries : list (Z * LogEntry)) : MetadataResult (list (Z * LogEntry)) :=
  match items with
  | [] => Ok entries
  | (index, value) :: rest =>
      if match end_exclusive with Some e => e <=? index | None => false end then Ok entries
      else
        reject_if match previous with
                  | Some p => bool_decide (checked_add64 p 1 ≠ Some index)
                  | None => false
                  end (Internal "Raft log hole detected");;
        scan_loop rest end_exclusive (Some index) (entries ++ [(index, value)])
  end.

Definition scan_raft_logs (log : gmap Z LogEntry) (start : Z) (end_exclusive : option Z)
  : MetadataResult (list (Z * LogEntry)) :=
  scan_loop (filter (fun e => start <= e.1) (log_iter log)) end_exclusive None [].

(** [entries.windows(2).find(..)] of the append check. *)
Fixpoint not_contiguous (entries : list (Z * LogEntry)) : bool :=
  match entries with
  | (a, _) :: (((b, _) :: _) as rest) =>
      match checked_add64 a 1 with Some e => bool_decide (e ≠ b) | None => true end || not_contiguous rest
  | _ => false
  end.

Definition append_raft_logs_durable (log : gmap Z LogEntry) (entries : list (Z * LogEntry))
  : MetadataResult (gmap Z LogEntry) :=
  reject_if (not_contiguous entries) (Internal "Raft log append is not contiguous");;
  Ok (foldl (fun l e => <[e.1 := e.2]> l) log entries).

Definition truncate_raft_logs (log : gmap Z LogEntry) (start : Z) : gmap Z LogEntry :=
  filter (fun e => ~ start <= e.1) log.

(** The deletions of [purge_raft_logs_and_state]. *)
Definition purge_raft_logs (log : gmap Z LogEntry) (end_index : Z) : gmap Z LogEntry :=
  filter (fun e => ~ e.1 <= end_index) log.

Definition get_last_log_index (log : gmap Z LogEntry) : option Z := fst <$> last (log_iter log).

Record LogState := mk_LogState {
  ls_last_purged_log_id : option RaftLogId;
  ls_last_log_id : option RaftLogId
}.

Definition get_log_state (r : Replica) : result StorageError LogState :=
  let last_purged := last_purged_log_id (rp_state r) in
  map_err (mk_StorageError ES_ReadLogs) (pin_generation r);;
  last_log_id ←
    match get_last_log_index (rp_log r) with
    | Some idx =>
        match get_raft_log (rp_log r) idx with
        | Some entry => Ok (Some (le_log_id entry))
        | None => Err (mk_StorageError (ES_ReadLogAt idx)
                         (Internal "Raft log index exists in the index scan but has no value"))
        end
    | None => Ok last_purged
    end;
  Ok (mk_LogState last_purged last_log_id).

Definition save_vote (r : Replica) (v : Z * Z * bool) : result StorageError Replica :=
  map_err (mk_StorageError ES_WriteVote) (pin_generation r);;
  let next := set_vote (rp_state r) v in
  Ok (with_state (with_store r (persist_raft_state (rp_store r) next)) next).

Definition read_vote (r : Replica) : option (Z * Z * bool) := vote (rp_state r).

Definition save_committed (r : Replica) (c : option RaftLogId) : result StorageError Replica :=
  map_err (mk_StorageError ES_WriteStateMachine) (pin_generation r);;
  let next := set_committed (rp_state r) c in
  Ok (with_state (with_store r (persist_raft_state (rp_store r) next)) next).

Definition read_committed (r : Replica) : option RaftLogId := committed (rp_state r).

Definition append (r : Replica) (entries : list LogEntry) : result StorageError Replica :=
  let encoded := (fun e => (rl_index (le_log_id e), e)) <$> entries in
  log ← map_err (mk_StorageError ES_WriteLogs)
          (pin_generation r;; append_raft_logs_durable (rp_log r) encoded);
  Ok (with_log r log).

Definition truncate (r : Replica) (log_id : RaftLogId) : result StorageError Replica :=
  map_err (mk_StorageError ES_WriteLogs) (pin_generation r);;
  Ok (with_log r (truncate_raft_logs (rp_log r) (rl_index log_id))).

Definition purge (r : Replica) (log_id : RaftLogId) : result StorageError Replica :=
  let '(deferred, st) := tracker_defer_purge (rp_install r) log_id in
  if deferred then Ok (with_install r st)
  else
    map_err (mk_StorageError ES_WriteLogs) (pin_generation r);;
    let next := set_last_purged (rp_state r) log_id in
    let db := rp_db r in
    Ok (with_state (with_db r (db_with_log (db_with_store db (persist_raft_state (db_store db) next))
                                 (purge_raft_logs (db_log db) (rl_index log_id)))) next).

Inductive Bound := Included (idx : Z) | Excluded (idx : Z) | Unbounded.

Definition try_get_log_entries (r : Replica) (start_bound end_bound : Bound) : result StorageError (list LogEntry) :=
  let start_index := match start_bound with Included i => i | Excluded i => i + 1 | Unbounded => 0 end in
  let end_index := match end_bound with Included i => Some (i + 1) | Excluded i => Some i | Unbounded => None end in
  raw ← map_err (mk_StorageError ES_ReadLogs)
          (pin_generation r;; scan_raft_logs (rp_log r) start_index end_index);
  Ok (raw.*2).

(** ** Applying committed entries *)

Definition applied_state (r : Replica) : option RaftLogId * (option RaftLogId * Z) :=
  (last_applied_log_id (rp_state r), membership (rp_state r)).

(** [MetadataReadView::publish_routing]. *)
Definition publish_routing (routing : MountTableState) (delta : RoutingDelta)
  : MountTableState * MetadataResult unit :=
  match delta with
  | RD_None => (routing, Ok tt)
  | RD_Upsert entry => upsert routing entry
  end.

Section apply.
Variable raft_state_len : RaftState -> Z.
Variable marker_len : DetachedRoot -> Z.

(** One round of the loop of [apply]: the replica it leaves and its result. *)
Definition apply_entry (r : Replica) (e : LogEntry) : Replica * result StorageError RaftApplyResult :=
  let log_id := le_log_id e in
  match pin_generation r with
  | Err err => (r, Err (mk_StorageError (ES_Apply log_id) err))
  | Panic => (r, Panic)
  | Ok _ =>
  match le_payload e with
  | Normal c =>
      let next := set_last_applied (rp_state r) log_id in
      match apply_committed raft_state_len marker_len (rp_store r) c next with
      | Ok (s, applied) =>
          let r := with_store r s in
          let '(routing, published) := publish_routing (rp_routing r) (ca_routing_delta applied) in
          let r := with_routing r routing in
          match published with
          | Ok _ => (with_state r next, Ok (ca_response applied))
          | Err err => (r, Err (mk_StorageError (ES_Apply log_id) err))
          | Panic => (r, Panic)
          end
      | Err (mk_FatalApplyError err) => (r, Err (mk_StorageError (ES_Apply log_id) err))
      | Panic => (r, Panic)
      end
  | Membership m =>
      let next := set_last_applied (set_membership (rp_state r) (Some log_id, m)) log_id in
      (with_state (with_store r (commit_applied_state (rp_store r) next)) next, Ok (Ok RaftEntryApplied))
  | Blank =>
      let next := set_last_applied (rp_state r) log_id in
      (with_state (with_store r (commit_applied_state (rp_store r) next)) next, Ok (Ok RaftEntryApplied))
  end
  end.

Fixpoint apply (r : Replica) (entries : list LogEntry) : Replica * result StorageError (list RaftApplyResult) :=
  match entries with
  | [] => (r, Ok [])
  | e :: rest =>
      match apply_entry r e with
      | (r, Ok response) =>
          let '(r, results) := apply r rest in
          (r, results ← results; Ok (response :: results))
      | (r, Err err) => (r, Err err)
      | (r, Panic) => (r, Panic)
      end
  end.
End apply.

(** ** Snapshots *)

(** The state column families of a store: everything but the Raft state. *)
Definition state_families (s : Store) : Store :=
  mk_Store (s_inodes s) (s_dentries s) (s_mounts s) (s_workers s) (s_route_epoch s) (s_mount_epoch s)
    (s_next_inode_id s) (s_replays s) (s_replay_inode s) (s_replay_expiry s) (s_replay_count s)
    (s_detached s) None.

Definition format_snapshot_id (last : option RaftLogId) (suffix : string) : string :=
  match last with
  | Some id => String.append (pretty (rl_term id))
                 (String.append "-" (String.append (pretty (rl_index id)) (String.append "-" suffix)))
  | None => String.append "bootstrap-" suffix
  end.

(** [SnapshotFile::open_read], and dropping the file it returns. *)
Definition open_read (r : Replica) (id : string) : Replica := with_readers r (rp_readers r ∪ {[id]}).
Definition close_read (r : Replica) (id : string) : Replica := with_readers r (rp_readers r ∖ {[id]}).

(** [current_snapshot_path], as the id of the current file. *)
Definition current_snapshot_path (r : Replica) : MetadataResult (option string) :=
  pin_generation r;;
  match db_snapshot_meta (rp_db r) with
  | None => Ok None
  | Some meta =>
      reject_if (bool_decide (rp_files r !! sm_snapshot_id meta = None))
        (InvalidArgument "current snapshot file is missing");;
      Ok (Some (sm_snapshot_id meta))
  end.

(** [cleanup_obsolete_snapshot_files]. *)
Definition cleanup_obsolete_snapshot_files (r : Replica) (current : option string) : Replica :=
  with_files r (filter (fun f => Some f.1 = current \/ f.1 ∈ rp_readers r) (rp_files r)).

(** [build_snapshot_generation] with the random suffix it draws, and the opening
    of the built file. *)
Definition build_snapshot (r : Replica) (suffix : string) : MetadataResult (Replica * SnapshotMeta) :=
  pin_generation r;;
  let raft_state := load_raft_state (rp_store r) in
  identity ← ok_or (db_identity (rp_db r)) (InvalidArgument "storage identity is missing");
  let id := format_snapshot_id (last_applied_log_id raft_state) suffix in
  let meta := mk_SnapshotMeta (last_applied_log_id raft_state) (membership raft_state) id in
  let image := mk_SnapshotImage (snapshot_identity_current (sid_group_name identity) (sm_last_log_id meta))
                 (state_families (rp_store r)) in
  reject_if (bool_decide (is_Some (rp_files r !! id))) (Internal "snapshot path already exists");;
  let r := with_files r (<[id := image]> (rp_files r)) in
  let r := with_db r (mk_Db (rp_store r) (rp_log r) (db_identity (rp_db r)) (Some meta)) in
  Ok (open_read (cleanup_obsolete_snapshot_files r (Some id)) id, meta).

(** [decode_into_staged]: the identity test of the decoder, then the records. *)
Definition decode_into_staged (image : SnapshotImage) (expected : SnapshotIdentity) : MetadataResult Store :=
  reject_if (bool_decide (im_identity image ≠ expected)) (InvalidArgument "invalid incoming snapshot");;
  Ok (im_state image).

Definition validate_detached_root_records (s : Store) : MetadataResult unit :=
  reject_if (bool_decide (is_Some (s_detached s !! 0)))
    (InvalidArgument "detached-root inode ID must be non-zero; reformat metadata storage");;
  reject_if (existsb (fun e => bool_decide (dr_mount_id e.2 = 0)) (map_to_list (s_detached s)))
    (InvalidArgument "detached-root inode has zero mount ID; reformat metadata storage").

Definition load_mount_replacement (s : Store) : MetadataResult MountTableState := build_replacement (list_mounts s).

Definition load_route_epoch (s : Store) : MetadataResult Z :=
  epoch ← ok_or (s_route_epoch s) (InvalidArgument "snapshot route epoch is missing");
  reject_if (bool_decide (epoch = 0)) (InvalidArgument "snapshot route epoch must be non-zero");;
  Ok epoch.

(** The loop of [copy_log_suffix]. *)
Fixpoint copy_loop (items : list (Z * LogEntry)) (expected : Z) (copied : gmap Z LogEntry)
  : MetadataResult (gmap Z LogEntry) :=
  match items with
  | [] => Ok copied
  | (index, value) :: rest =>
      reject_if (bool_decide (index ≠ expected)) (Internal "raft log suffix is not contiguous");;
      expected ← ok_or (checked_add64 expected 1) (Internal "raft log index overflow");
      copy_loop rest expected (<[index := value]> copied)
  end.

Definition copy_log_suffix (log : gmap Z LogEntry) (boundary : Z) : MetadataResult (gmap Z LogEntry) :=
  start ← ok_or (checked_add64 boundary 1) (Internal "snapshot boundary index overflow");
  copy_loop (filter (fun e => start <= e.1) (log_iter log)) start ∅.

(** The closure run before the generations are switched: the new database and the
    Raft state it carries. *)
Definition before_switch (old : Db) (staged : Store) (local_identity : StorageIdentity) (meta : SnapshotMeta)
    (boundary : RaftLogId) : MetadataResult (Db * RaftState) :=
  let old_state := load_raft_state (db_store old) in
  let beyond o := match o with Some id => rl_index boundary <? rl_index id | None => false end in
  reject_if (beyond (last_applied_log_id old_state) || beyond (last_purged_log_id old_state))
    (InvalidArgument "refusing stale snapshot over local raft state");;
  actual ← ok_or (db_identity old) (InvalidArgument "local storage identity is missing");
  reject_if (bool_decide (actual ≠ local_identity))
    (Internal "local storage identity changed during snapshot installation");;
  log ← copy_log_suffix (db_log old) (rl_index boundary);
  let next :=
    mk_RaftState (Some boundary) (Some boundary) (vote old_state)
      (match committed old_state with
       | Some c => if rl_index c <? rl_index boundary then Some boundary else Some c
       | None => Some boundary
       end) (sm_last_membership meta) in
  Ok (mk_Db (persist_raft_state staged next) log (Some actual) (Some meta), next).

(** The closure run after the switch. [token] is the identity of the incoming
    snapshot, if it was received through the tracker. *)
Definition after_switch (db : Db) (install : InstallState) (next : RaftState) (token : option Z) (boundary : RaftLogId)
  : InstallState * MetadataResult (Db * RaftState) :=
  match token with
  | None => (install, Ok (db, next))
  | Some id =>
      match tracker_complete install id with
      | Ok (install, Some deferred) =>
          (install,
           reject_if (rl_index boundary <? rl_index deferred)
             (Internal "deferred purge index exceeds installed snapshot boundary");;
           if match last_purged_log_id next with
              | Some current => rl_index current <? rl_index deferred
              | None => true
              end
           then let next := set_last_purged next deferred in
                Ok (mk_Db (persist_raft_state (db_store db) next) (purge_raft_logs (db_log db) (rl_index deferred))
                      (db_identity db) (db_snapshot_meta db), next)
           else Ok (db, next))
      | Ok (install, None) => (install, Ok (db, next))
      | Err e => (install, Err e)
      | Panic => (install, Panic)
      end
  end.

(** [publish_received_snapshot_file]. *)
Definition publish_received_snapshot_file (r : Replica) (id : string) (image : SnapshotImage) : MetadataResult Replica :=
  match rp_files r !! id with
  | Some existing =>
      reject_if (bool_decide (existing ≠ image)) (InvalidArgument "snapshot id collision");;
      Ok r
  | None => Ok (with_files r (<[id := image]> (rp_files r)))
  end.

(** What is prepared before the switch: the published file, the staged store,
    routing and epoch. *)
Definition prepare_install (r : Replica) (meta : SnapshotMeta) (image : SnapshotImage)
  : MetadataResult (Replica * RaftLogId * StorageIdentity * Store * MountTableState * Z) :=
  boundary ← ok_or (sm_last_log_id meta) (InvalidArgument "incoming metadata snapshot has no last applied log id");
  pin_generation r;;
  local_identity ← ok_or (db_identity (rp_db r))
                     (InvalidArgument "storage identity is missing; reformat metadata storage");
  staged ← decode_into_staged image (snapshot_identity_current (sid_group_name local_identity) (Some boundary));
  validate_detached_root_records staged;;
  routing ← load_mount_replacement staged;
  route_epoch ← load_route_epoch staged;
  r ← publish_received_snapshot_file r (sm_snapshot_id meta) image;
  Ok (r, boundary, local_identity, staged, routing, route_epoch).

(** Dropping the token of a failed installation. *)
Definition drop_token (r : Replica) (token : option Z) : Replica :=
  match token with Some id => with_install r (tracker_cancel (rp_install r) id) | None => r end.

(** The cleanup after a failed publication. *)
Definition failed_publication (r : Replica) : Replica :=
  match current_snapshot_path r with
  | Ok current => cleanup_obsolete_snapshot_files r current
  | _ => r
  end.

(** [MetadataReadView::install_generation]. *)
Definition install_generation (r : Replica) (routing : MountTableState) (route_epoch : Z) (state : RaftState)
  : Replica :=
  mk_Replica (rp_db r) state routing route_epoch (rp_install r) (rp_poisoned r) (rp_files r) (rp_readers r).

(** [publish_staged_with] and the two closures: a failure before the switch leaves
    the database; a failure after it leaves the new one and poisons the handle. *)
Definition publish_staged (r : Replica) (meta : SnapshotMeta) (boundary : RaftLogId) (local_identity : StorageIdentity)
    (staged : Store) (routing : MountTableState) (route_epoch : Z) (token : option Z)
  : Replica * MetadataResult unit :=
  match before_switch (rp_db r) staged local_identity meta boundary with
  | Ok (db, next) =>
      let '(install, after) := after_switch db (rp_install r) next token boundary in
      let r := with_install (with_db r db) install in
      match after with
      | Ok (db, next) => (install_generation (with_db r db) routing route_epoch next, Ok tt)
      | Err e => (poison r, Err e)
      | Panic => (poison r, Panic)
      end
  | Err e => (drop_token r token, Err e)
  | Panic => (drop_token r token, Panic)
  end.

(** [install_snapshot_generation]. *)
Definition install_snapshot (r : Replica) (meta : SnapshotMeta) (image : SnapshotImage) (token : option Z)
  : Replica * MetadataResult unit :=
  match prepare_install r meta image with
  | Ok (r, boundary, local_identity, staged, routing, route_epoch) =>
      let '(r, published) := publish_staged r meta boundary local_identity staged routing route_epoch token in
      match published with
      | Ok _ => (cleanup_obsolete_snapshot_files r (Some (sm_snapshot_id meta)), Ok tt)
      | Err e => (failed_publication r, Err e)
      | Panic => (r, Panic)
      end
  | Err e => (drop_token r token, Err e)
  | Panic => (drop_token r token, Panic)
  end.

(** [begin_receiving_snapshot]. *)
Definition begin_receiving_snapshot (r : Replica) (id : Z) : result StorageError Replica :=
  st ← map_err (mk_StorageError ES_WriteSnapshot) (tracker_begin (rp_install r) id);
  Ok (with_install r st).

Definition get_current_snapshot (r : Replica)
  : result StorageError (Replica * option (SnapshotMeta * SnapshotImage)) :=
  map_err (mk_StorageError ES_ReadSnapshot) (pin_generation r);;
  match db_snapshot_meta (rp_db r) with
  | None => Ok (r, None)
  | Some meta =>
      image ← ok_or (rp_files r !! sm_snapshot_id meta)
                (mk_StorageError ES_ReadSnapshot (Internal "snapshot metadata references missing file"));
      Ok (open_read r (sm_snapshot_id meta), Some (meta, image))
  end.

(** ** Starting *)

(** A process start over what is on disk: [MountTable::load_from_storage], then
    [load_raft_state], [MetadataReadView::new] and [new_with_tracker] as
    [AppRaftNode::new] runs them. *)
Definition start (db : Db) (files : gmap string SnapshotImage) : MetadataResult Replica :=
  routing ← build_replacement (list_mounts (db_store db));
  let r := mk_Replica db (load_raft_state (db_store db)) routing (get_route_epoch (db_store db))
             install_state_default false files ∅ in
  current ← current_snapshot_path r;
  Ok (cleanup_obsolete_snapshot_files r current).

Definition restart (r : Replica) : MetadataResult Replica := start (rp_db r) (rp_files r).
