(* ===== verification/Cluster.v ===== *)
(** * The replicas implement the replicated log

    An abstract metadata service replays the committed log from the empty
    namespace. The replicas of a cluster, each with its own database, memory and
    snapshot directory, refine it: whatever order of applies, purges, snapshots,
    installations, failures and restarts they went through, each holds the state
    the log has at its last applied position. *)

From S2P Require Import Prelude Types Errors Inode Mount Store Namespace Tree NamespaceInv.
From S2P Require Import WriteApply Samples Reclaim ReclaimProps Apply NoPanic Reach ApplyProps Determinism.
From S2P Require Import SnapshotCodec Replica.
Local Open Scope Z_scope.

(** ** Routing state of a store *)

(** Nothing before the bootstrap, the root mount afterwards. *)
Definition routing_inv (s : Store) : Prop :=
  (s_mounts s = ∅ /\ s_route_epoch s = None) \/
  (exists g, s_mounts s = {[1 := root_mount_entry g]} /\ s_route_epoch s = Some 1).

Definition same_routing (s s' : Store) : Prop :=
  s_mounts s' = s_mounts s /\ s_route_epoch s' = s_route_epoch s.

Definition is_routing_op (op : WriteOp) : bool :=
  match op with PutMount _ | PutRouteEpoch _ => true | _ => false end.

Lemma commit_nonrouting s ops rs :
  Forall (fun op => is_routing_op op = false) ops -> same_routing s (commit_authority_batch s ops rs).
Proof.
  intros Hops. unfold commit_authority_batch, write_batch, same_routing. rewrite foldl_app. simpl.
  assert (forall s x, s_mounts (write_op s (PutRaftState x)) = s_mounts s /\
    s_route_epoch (write_op s (PutRaftState x)) = s_route_epoch s) as H by (by intros []).
  destruct (H (foldl write_op s ops) rs) as [-> ->]. clear H.
  revert s. induction Hops as [|op ops Hop _ IH]; intros s; [done|]. simpl.
  destruct (IH (write_op s op)) as [-> ->]. by destruct s, op.
Qed.

Create HintDb routing.

Section atomics.
Implicit Types (s : Store) (rs : RaftState).

Lemma put_inode_routing s i rs : same_routing s (put_inode_atomic s i rs).
Proof. apply commit_nonrouting. by repeat constructor. Qed.
Lemma applied_routing s rs : same_routing s (commit_applied_state s rs).
Proof. apply commit_nonrouting. by repeat constructor. Qed.
Lemma unlink_routing s p nm c i rs : same_routing s (unlink_inode_atomic s p nm c i rs).
Proof. apply commit_nonrouting. by repeat constructor. Qed.
Lemma detach_routing s p nm r i d rs : same_routing s (detach_directory_atomic s p nm r i d rs).
Proof. apply commit_nonrouting. by repeat constructor. Qed.
Lemma rename_routing s u rs : same_routing s (rename_atomic s u rs).
Proof. apply commit_nonrouting. destruct u as [? ? ? ? ? [] [] []]; by repeat constructor. Qed.
Lemma reclaim_routing s u rs : same_routing s (reclaim_detached_roots_atomic s u rs).
Proof.
  apply commit_nonrouting, Forall_app. split; apply mjoin_Forall, Forall_fmap, Forall_true.
  - intros [? ? ? []]; by repeat constructor.
  - by repeat constructor.
Qed.
Lemma create_dirs_routing s es x rs :
  same_routing s (commit_authority_batch s (mjoin (mkdir_entry_batch <$> es) ++ [PutNextInodeId x]) rs).
Proof.
  apply commit_nonrouting, Forall_app. split; [|by repeat constructor].
  apply mjoin_Forall, Forall_fmap, Forall_true. by repeat constructor.
Qed.
Lemma create_file_routing s al p nm i u r now rs s' :
  create_file_atomic s al p nm i u r now rs = Ok s' -> same_routing s s'.
Proof.
  unfold create_file_atomic. intros H. unbind H as [] Hv. unbind H as ops Hops. injection H as <-.
  apply batch_put_create_file_replay_ops in Hops. apply commit_nonrouting. do 4 (constructor; [done|]).
  eapply Forall_impl; [done|]. by intros [].
Qed.
End atomics.

#[export] Hint Resolve put_inode_routing applied_routing unlink_routing detach_routing
  rename_routing reclaim_routing create_dirs_routing create_file_routing : routing.

Lemma run_nonrouting rl ml s c rs s' r :
  (forall now g, c <> BootstrapNamespace now g) -> run_command rl ml s c rs = Ok (s', r) -> same_routing s s'.
Proof.
  intros Hc. destruct c; simpl; intros H.
  - by edestruct Hc.
  - unfold apply_create_directory, apply_mkdir, create_directories_atomic, create_dir_atomic in H.
    inv_run; subst; auto with routing; by apply commit_nonrouting; repeat constructor.
  - unfold apply_create in H. inv_run; subst; eauto with routing.
  - unfold apply_delete, apply_detach_directory, apply_delete_empty_dir, apply_unlink in H.
    inv_run; subst; auto with routing.
  - unfold apply_rename in H. inv_run; subst; auto with routing.
  - unfold apply_acquire_write_lease in H. inv_run; subst; auto with routing.
  - unfold apply_allocate_block in H. inv_run; subst; auto with routing.
  - unfold apply_end_write_lease in H. inv_run; subst; auto with routing.
  - unfold apply_publish_file in H. inv_run; subst; auto with routing.
  - unfold apply_commit_file in H. inv_run; subst; auto with routing.
  - unfold apply_register_worker, register_worker_atomic in H. inv_run; subst.
    by apply commit_nonrouting; repeat constructor.
  - unfold apply_reclaim_detached_roots in H. inv_run; subst; auto with routing.
Qed.

Lemma list_mounts_nil s : list_mounts s = [] -> s_mounts s = ∅.
Proof.
  unfold list_mounts. intros H. apply map_to_list_empty_iff. apply fmap_nil_inv in H.
  apply Permutation_nil. rewrite <- H. apply merge_sort_Permutation.
Qed.

Lemma bootstrap_routing s g now rs s' e :
  routing_inv s -> apply_bootstrap_namespace s g now rs = Ok (s', e) ->
  e = root_mount_entry g /\ s_mounts s' = {[1 := root_mount_entry g]} /\ s_route_epoch s' = Some 1 /\
  (s_mounts s = ∅ \/ s_mounts s = {[1 := root_mount_entry g]}).
Proof.
  intros Hinv. unfold apply_bootstrap_namespace. intros H. unbind H as st Hst.
  unfold bootstrap_namespace_state in Hst. unbind Hst as any Hany.
  destruct any; simpl in Hst.
  - destruct (_ && bool_decide (list_mounts s = _)) eqn:Hm; [|inv_run; subst; inv_run; done].
    unbind Hst as high Hh. destruct (_ && _ && _ && _) eqn:Hall; [|inv_run; subst; inv_run; done].
    injection Hst as <-. injection H as <- <-. bool_prop.
    destruct (applied_routing s rs) as [-> ->].
    destruct Hinv as [[HE _]|(g' & HE & _)].
    + unfold list_mounts in *. rewrite HE, map_to_list_empty in *. done.
    + assert (g' = g) as ->.
      { unfold list_mounts in *. rewrite HE, map_to_list_singleton in *. simpl in *. unfold root_mount_entry in *. congruence. }
      split_and!; try done. by right.
  - injection Hst as <-. injection H as <- <-. destruct (_ || _) eqn:Hor in Hany; [done|].
    bool_prop.
    assert (s_mounts s = ∅) as Hs by (by apply list_mounts_nil).
    split; [done|]. split; [|split; [|by left]].
    + destruct s. simpl in *. subst. done.
    + by destruct s.
Qed.

(** ** Routing state of a process *)

(** The table in memory holds the stored mounts. *)
Definition routes (s : Store) (t : MountTableState) : Prop :=
  mount_table_ok t /\ mt_entries t = s_mounts s.

Lemma upsert_root t g :
  mount_table_ok t -> mt_entries t = ∅ \/ mt_entries t = {[1 := root_mount_entry g]} ->
  exists t', upsert t (root_mount_entry g) = (t', Ok tt) /\ mount_table_ok t' /\
    mt_entries t' = {[1 := root_mount_entry g]}.
Proof.
  intros Hok Ht.
  assert (forall p id, mt_prefix_index t !! p = Some id -> id = 1) as Hids.
  { intros p id (e & He & _)%(proj2 Hok). destruct Ht as [Ht|Ht]; rewrite Ht in He.
    - by rewrite lookup_empty in He.
    - by apply lookup_singleton_Some in He as [<- _]. }
  destruct (upsert t (root_mount_entry g)) as [t' res] eqn:Hu. pose proof Hu as Hu'.
  unfold upsert in Hu'.
  set (index := match mt_entries t !! mount_id (root_mount_entry g) with Some _ => _ | None => _ end) in Hu'.
  assert (forall p id, index !! p = Some id -> id = 1) as Hindex.
  { intros p id. unfold index. destruct (mt_entries t !! _); [case_bool_decide|]; try apply Hids.
    intros [_ Hd]%lookup_delete_Some. by eapply Hids. }
  destruct (index !! mount_prefix (root_mount_entry g)) as [x|] eqn:Hx.
  - apply Hindex in Hx as ->. simpl in Hu'. injection Hu' as <- <-. eexists. split; [done|].
    split; [by eapply upsert_ok|]. simpl. destruct Ht as [->| ->]; [done|]. by rewrite insert_singleton_eq.
  - injection Hu' as <- <-. eexists. split; [done|].
    split; [by eapply upsert_ok|]. simpl. destruct Ht as [->| ->]; [done|]. by rewrite insert_singleton_eq.
Qed.

Lemma load_routes s :
  routing_inv s -> exists t, build_replacement (list_mounts s) = Ok t /\ routes s t.
Proof.
  unfold list_mounts. intros [[H _]|(g & H & _)]; rewrite H.
  - rewrite map_to_list_empty. simpl. eexists. split; [done|]. split; [|by rewrite H].
    split; simpl; intros ??; by rewrite lookup_empty.
  - rewrite map_to_list_singleton. simpl. eexists. split; [done|]. split; [|by rewrite H].
    split; simpl; intros ??; rewrite lookup_insert_Some, lookup_empty; intros [[<- <-]|[_ ?]]; try done.
    exists (root_mount_entry g). by rewrite lookup_insert_eq.
Qed.

(** ** The abstract service *)

Record Spec := mk_Spec {
  sp_data : Store;
  sp_membership : option RaftLogId * Z
}.

Section spec.
Context (raft_state_len : RaftState -> Z) (marker_len : DetachedRoot -> Z).

(** One committed entry: the state it leaves and the response of the service. *)
Definition spec_apply (st : Spec) (e : LogEntry) : Spec * RaftApplyResult :=
  match le_payload e with
  | Normal c =>
      match apply_committed raft_state_len marker_len (sp_data st) c raft_state_default with
      | Ok (s, out) => (mk_Spec (state_families s) (sp_membership st), forget_bytes <$> ca_response out)
      | _ => (st, Panic)
      end
  | Membership m => (mk_Spec (sp_data st) (Some (le_log_id e), m), Ok RaftEntryApplied)
  | Blank => (st, Ok RaftEntryApplied)
  end.

Definition spec_init : Spec := mk_Spec empty_store (None, 0).

Definition replay (entries : list LogEntry) : Spec := foldl (fun st e => (spec_apply st e).1) spec_init entries.

(** The responses of the service to a run of entries. *)
Fixpoint responses (st : Spec) (entries : list LogEntry) : list RaftApplyResult :=
  match entries with
  | [] => []
  | e :: rest => let '(st', resp) := spec_apply st e in resp :: responses st' rest
  end.

Lemma replay_snoc entries e : replay (entries ++ [e]) = (spec_apply (replay entries) e).1.
Proof. unfold replay. by rewrite foldl_app. Qed.

Lemma replay_raft entries : state_families (sp_data (replay entries)) = sp_data (replay entries).
Proof.
  induction entries as [|e entries IH] using rev_ind; [done|]. rewrite replay_snoc. unfold spec_apply.
  destruct (le_payload e); simpl; try done. by destruct (apply_committed _ _ _ _ _) as [[]| |].
Qed.

Lemma same_routing_inv s s' : same_routing s s' -> routing_inv s -> routing_inv s'.
Proof. unfold routing_inv. by intros [-> ->]. Qed.

Lemma committed_routing_inv s c rs s' out :
  routing_inv s -> apply_committed raft_state_len marker_len s c rs = Ok (s', out) -> routing_inv s'.
Proof.
  intros Hs [(r & Hr & _)|(e & j & _ & _ & -> & _)]%apply_committed_cases;
    [|by eapply same_routing_inv; [apply applied_routing|]].
  assert ((exists now g, c = BootstrapNamespace now g) \/ forall now g, c <> BootstrapNamespace now g)
    as [(now & g & ->)|Hc] by (destruct c; naive_solver).
  - simpl in Hr. unbind Hr as [s1 e] Hb. injection Hr as <- _.
    apply bootstrap_routing in Hb as (_ & ? & ? & _); [|done]. right. eauto.
  - eapply same_routing_inv; [by eapply run_nonrouting|done].
Qed.

Lemma replay_routing entries : routing_inv (sp_data (replay entries)).
Proof.
  induction entries as [|e entries IH] using rev_ind; [by left|]. rewrite replay_snoc. unfold spec_apply.
  destruct (le_payload e); simpl; try done. destruct (apply_committed _ _ _ _ _) as [[s' out]| |] eqn:E; try done.
  by eapply committed_routing_inv in E.
Qed.
End spec.

(** ** The cluster *)

(** The calls openraft makes on a replica, and the process restart. *)
Inductive Call :=
| C_save_vote (v : Z * Z * bool)
| C_save_committed (c : option RaftLogId)
| C_append (entries : list LogEntry)
| C_truncate (id : RaftLogId)
| C_purge (id : RaftLogId)
| C_apply (entries : list LogEntry)
| C_build_snapshot (suffix : string)
| C_begin_receiving (id : Z)
| C_install_snapshot (meta : SnapshotMeta) (image : SnapshotImage) (token : option Z)
| C_get_current_snapshot
| C_close_snapshot (id : string)
| C_restart.

(** The replica after a call that may fail without an effect. *)
Definition after {E} (r : Replica) (res : result E Replica) : Replica :=
  match res with Ok r' => r' | _ => r end.

Section cluster.
Context (raft_state_len : RaftState -> Z) (marker_len : DetachedRoot -> Z).

Definition exec (r : Replica) (call : Call) : Replica :=
  match call with
  | C_save_vote v => after r (save_vote r v)
  | C_save_committed c => after r (save_committed r c)
  | C_append entries => after r (append r entries)
  | C_truncate id => after r (truncate r id)
  | C_purge id => after r (purge r id)
  | C_apply entries => (apply raft_state_len marker_len r entries).1
  | C_build_snapshot suffix => after r (fst <$> build_snapshot r suffix)
  | C_begin_receiving id => after r (begin_receiving_snapshot r id)
  | C_install_snapshot meta image token => (install_snapshot r meta image token).1
  | C_get_current_snapshot => after r (fst <$> get_current_snapshot r)
  | C_close_snapshot id => close_read r id
  | C_restart => after r (restart r)
  end.

(** The replicas and the snapshots that were sent. *)
Record Cluster := mk_Cluster {
  cl_replicas : gmap Z Replica;
  cl_sent : list (SnapshotMeta * SnapshotImage)
}.

Definition position (last : option RaftLogId) : nat :=
  match last with Some id => S (Z.to_nat (rl_index id)) | None => 0%nat end.

(** What openraft guarantees of its calls: committed entries are applied in log
    order right after the last applied one, and only snapshots that some replica
    sent are installed. Nothing is assumed of votes, appends, truncations and
    purges. *)
Definition permitted (L : list LogEntry) (sent : list (SnapshotMeta * SnapshotImage)) (r : Replica) (call : Call)
  : Prop :=
  match call with
  | C_apply entries => entries `prefix_of` drop (position (last_applied_log_id (rp_state r))) L
  | C_install_snapshot meta image _ => (meta, image) ∈ sent
  | _ => True
  end.

(** A freshly formatted node. *)
Definition formatted (identity : StorageIdentity) : Db := mk_Db empty_store ∅ (Some identity) None.

Inductive cluster_reach (L : list LogEntry) : Cluster -> Prop :=
| cr_init replicas :
    (forall node r, replicas !! node = Some r -> exists identity, start (formatted identity) ∅ = Ok r) ->
    cluster_reach L (mk_Cluster replicas [])
| cr_call cl node r call :
    cluster_reach L cl -> cl_replicas cl !! node = Some r -> permitted L (cl_sent cl) r call ->
    cluster_reach L (mk_Cluster (<[node := exec r call]> (cl_replicas cl)) (cl_sent cl))
| cr_send cl node r r' snapshot :
    cluster_reach L cl -> cl_replicas cl !! node = Some r -> get_current_snapshot r = Ok (r', Some snapshot) ->
    cluster_reach L (mk_Cluster (<[node := r']> (cl_replicas cl)) (snapshot :: cl_sent cl)).
End cluster.

(** A log that openraft may commit: entries at consecutive positions from zero,
    commands of their machine types, and reclamations whose byte budget has room
    for a Raft state of [B] bytes. *)
Definition log_ok (B : Z) (L : list LogEntry) : Prop :=
  forall k e, L !! k = Some e ->
    rl_index (le_log_id e) = Z.of_nat k /\
    match le_payload e with
    | Normal c =>
        command_typed c /\
        match c with
        | ReclaimDetachedRoots cands me mb =>
            raft_state_key_len + B + 296 * me + 22 * Z.of_nat (length cands) <= mb
        | _ => True
        end
    | _ => True
    end.

Section refinement.
Context (raft_state_len : RaftState -> Z) (marker_len : DetachedRoot -> Z) (B : Z).
Context (raft_state_len_bound : forall rs, 0 <= raft_state_len rs <= B).
Context (marker_len_bound : forall d, 0 <= marker_len d <= 18).
Context (L : list LogEntry) (L_ok : log_ok B L).
Notation replay := (replay raft_state_len marker_len).
Notation service := (spec_apply raft_state_len marker_len).
Notation run_entry := (apply_entry raft_state_len marker_len).
Notation run_apply := (apply raft_state_len marker_len).

(** The state of a replica that has applied the first [n] entries. *)
Definition at_prefix (n : nat) (id : option RaftLogId) (m : option RaftLogId * Z) (data : Store) : Prop :=
  (n <= length L)%nat /\ id = le_log_id <$> last (take n L) /\ replay (take n L) = mk_Spec data m.

Definition db_at (n : nat) (db : Db) : Prop :=
  let rs := load_raft_state (db_store db) in
  at_prefix n (last_applied_log_id rs) (membership rs) (state_families (db_store db)).

Definition image_at (n : nat) (meta : SnapshotMeta) (image : SnapshotImage) : Prop :=
  at_prefix n (sm_last_log_id meta) (sm_last_membership meta) (im_state image).

(** Memory agrees with the database. *)
Record memory_ok (r : Replica) : Prop := {
  mo_state : rp_state r = load_raft_state (rp_store r);
  mo_routing : routes (rp_store r) (rp_routing r);
  mo_epoch : rp_route_epoch r = get_route_epoch (rp_store r)
}.

(** The current snapshot is on disk and is a prefix of the log. *)
Definition files_ok (r : Replica) : Prop :=
  forall meta, db_snapshot_meta (rp_db r) = Some meta ->
    exists image n, rp_files r !! sm_snapshot_id meta = Some image /\ image_at n meta image.

Record replica_ok (r : Replica) : Prop := {
  ro_db : exists n, db_at n (rp_db r);
  ro_files : files_ok r;
  ro_memory : rp_poisoned r = false -> memory_ok r
}.

Lemma at_prefix_position n id m data : at_prefix n id m data -> position id = n.
Proof.
  intros (Hn & -> & _). destruct n as [|n]; [by rewrite take_0|].
  destruct (lookup_lt_is_Some_2 L n ltac:(lia)) as [e He]. rewrite (take_S_r _ _ _ He), last_snoc. simpl.
  destruct (L_ok _ _ He) as [-> _]. lia.
Qed.

(** Equal positions mean equal replicated states. *)
Lemma at_prefix_agree n n' id m m' data data' :
  at_prefix n id m data -> at_prefix n' id m' data' -> data = data' /\ m = m'.
Proof.
  intros H H'. pose proof (at_prefix_position _ _ _ _ H) as E. rewrite (at_prefix_position _ _ _ _ H') in E.
  subst n'. destruct H as (_ & _ & H), H' as (_ & _ & H'). rewrite H in H'. by injection H' as -> ->.
Qed.

Lemma at_prefix_step n id m data e st resp :
  at_prefix n id m data -> L !! n = Some e -> service (mk_Spec data m) e = (st, resp) ->
  at_prefix (S n) (Some (le_log_id e)) (sp_membership st) (sp_data st).
Proof.
  intros (Hn & _ & Hr) He Hs. split; [|split].
  - apply lookup_lt_Some in He. lia.
  - by rewrite (take_S_r _ _ _ He), last_snoc.
  - rewrite (take_S_r _ _ _ He), replay_snoc, Hr, Hs. by destruct st.
Qed.

Lemma at_prefix_raft n id m data : at_prefix n id m data -> state_families data = data.
Proof. intros (_ & _ & H). pose proof (replay_raft raft_state_len marker_len (take n L)) as E. by rewrite H in E. Qed.

Lemma at_prefix_routing n id m data : at_prefix n id m data -> routing_inv data.
Proof. intros (_ & _ & H). pose proof (replay_routing raft_state_len marker_len (take n L)) as E. by rewrite H in E. Qed.

Lemma db_routing n db : db_at n db -> routing_inv (db_store db).
Proof. intros H%at_prefix_routing. done. Qed.

(** The command of a committed entry does the same here and in the service. *)
Lemma committed_agrees n c e s rs :
  L !! n = Some e -> le_payload e = Normal c ->
  replicated (apply_committed raft_state_len marker_len s c rs)
  = replicated (apply_committed raft_state_len marker_len (state_families s) c raft_state_default).
Proof.
  intros He Hc. destruct (L_ok _ _ He) as [_ Hcmd]. rewrite Hc in Hcmd. destruct Hcmd as [Hty Hb].
  apply (apply_committed_replicated _ _ s None); [intros; apply raft_state_len_bound|done|done|..];
    (destruct c; simpl; try done; unfold slack; pose proof (raft_state_len_bound rs);
     pose proof (raft_state_len_bound raft_state_default); lia).
Qed.

Lemma committed_raft s c rs s' out :
  apply_committed raft_state_len marker_len s c rs = Ok (s', out) -> s_raft_state s' = Some rs.
Proof.
  intros [(r & Hr & _)|(e & j & _ & _ & -> & _)]%apply_committed_cases.
  - by eapply run_command_raft.
  - apply applied_raft.
Qed.

(** Publishing the routing of a committed command never fails. *)
Lemma publish_committed s c rs s' out t :
  routing_inv s -> apply_committed raft_state_len marker_len s c rs = Ok (s', out) -> routes s t ->
  exists t', publish_routing t (ca_routing_delta out) = (t', Ok tt) /\ routes s' t' /\
    get_route_epoch s' = get_route_epoch s.
Proof.
  intros Hs Hc [Hok Ht]. apply apply_committed_cases in Hc as [(r & Hr & ->)|(e & j & _ & _ & -> & ->)].
  - assert ((exists now g, c = BootstrapNamespace now g) \/ forall now g, c <> BootstrapNamespace now g)
      as [(now & g & ->)|Hc] by (destruct c; naive_solver).
    + simpl in Hr. unbind Hr as [s1 e] Hb. injection Hr as <- <-.
      apply bootstrap_routing in Hb as (-> & Hm & He & Hold); [|done]. simpl.
      destruct (upsert_root t g Hok) as (t' & -> & Hok' & Ht'); [by rewrite Ht|].
      exists t'. split; [done|]. split; [split; [done|by rewrite Hm]|].
      unfold get_route_epoch. rewrite He. destruct Hs as [[_ ->]|(? & _ & ->)]; done.
    + destruct (run_nonrouting _ _ _ _ _ _ _ Hc Hr) as [Hm He]. exists t.
      assert (routing_intent c = RI_None) as -> by (destruct c; naive_solver).
      split; [done|]. unfold routes, get_route_epoch. by rewrite Hm, He.
  - exists t. destruct (applied_routing s rs) as [Hm He].
    split; [by destruct (routing_intent c)|]. unfold routes, get_route_epoch. by rewrite Hm, He.
Qed.

(** What a replica that applies an entry keeps. *)
Definition same_files (r r' : Replica) : Prop :=
  rp_files r' = rp_files r /\ db_snapshot_meta (rp_db r') = db_snapshot_meta (rp_db r) /\
  rp_poisoned r' = rp_poisoned r.

Lemma db_at_store n s rs log identity meta :
  s_raft_state s = Some rs -> at_prefix n (last_applied_log_id rs) (membership rs) (state_families s) ->
  db_at n (mk_Db s log identity meta).
Proof. intros Hrs H. unfold db_at, load_raft_state. simpl. by rewrite Hrs. Qed.

(** The service applies the same command with the same effect. *)
Lemma spec_apply_normal n e c s m rs s' out :
  L !! n = Some e -> le_payload e = Normal c ->
  apply_committed raft_state_len marker_len s c rs = Ok (s', out) ->
  service (mk_Spec (state_families s) m) e = (mk_Spec (state_families s') m, forget_bytes <$> ca_response out).
Proof.
  intros He Hp Hc. pose proof (committed_agrees _ _ _ s rs He Hp) as Hd. rewrite Hc in Hd.
  unfold spec_apply. rewrite Hp. simpl.
  destruct (apply_committed _ _ (state_families s) c raft_state_default) as [[s2 out2]| |]; try discriminate Hd.
  assert (forall A B (x y : A), @Ok B A x = Ok y -> x = y) as Hinj by congruence.
  apply Hinj, pair_equal_spec in Hd as [Hs Ho]. injection Ho as Hf _. f_equal; [|done]. f_equal. done.
Qed.

Lemma commit_refines n r e s' t next resp :
  db_at n (rp_db r) -> memory_ok r -> L !! n = Some e ->
  s_raft_state s' = Some next -> last_applied_log_id next = Some (le_log_id e) ->
  routes s' t -> get_route_epoch s' = get_route_epoch (rp_store r) ->
  service (mk_Spec (state_families (rp_store r)) (membership (rp_state r))) e
  = (mk_Spec (state_families s') (membership next), forget_bytes <$> resp) ->
  let r' := with_state (with_routing (with_store r s') t) next in
  db_at (S n) (rp_db r') /\ memory_ok r' /\ same_files r r' /\
  forget_bytes <$> resp = (service (replay (take n L)) e).2.
Proof.
  intros Hdb [Hst Hrt Hep] He Hrs Hla Hroutes Hepoch Hs r'.
  unfold db_at in Hdb. rewrite <- Hst in Hdb. pose proof Hdb as (_ & _ & Hrep). split_and!.
  - eapply db_at_store; [done|]. rewrite Hla. exact (at_prefix_step _ _ _ _ _ _ _ Hdb He Hs).
  - split; simpl; [unfold load_raft_state; by rewrite Hrs|done|by rewrite Hepoch].
  - done.
  - by rewrite Hrep, Hs.
Qed.

Lemma applied_families s rs : state_families (commit_applied_state s rs) = state_families s.
Proof. by destruct s. Qed.

Lemma applied_routes s rs t : routes s t -> routes (commit_applied_state s rs) t.
Proof. unfold routes. by destruct (applied_routing s rs) as [-> _]. Qed.

Lemma apply_entry_refines n r e r' res :
  db_at n (rp_db r) -> memory_ok r -> L !! n = Some e -> run_entry r e = (r', res) ->
  match res with
  | Ok resp =>
      db_at (S n) (rp_db r') /\ memory_ok r' /\ same_files r r' /\
      forget_bytes <$> resp = (service (replay (take n L)) e).2
  | _ => r' = r
  end.
Proof.
  intros Hdb Hmem He H. pose proof Hmem as [_ Hrt _]. unfold apply_entry in H.
  destruct (pin_generation r) as [u| |]; [|by injection H as <- <-..].
  destruct (le_payload e) as [|c|m] eqn:Hp.
  - injection H as <- <-. eapply (commit_refines n r e _ (rp_routing r)); try done; [apply applied_raft|..].
    + by apply applied_routes.
    + by destruct (rp_store r).
    + unfold spec_apply. by rewrite Hp, applied_families.
  - destruct (apply_committed _ _ _ _ _) as [[s out]|[err]|] eqn:Hc; [|by injection H as <- <-..].
    destruct (publish_committed _ _ _ _ _ _ (db_routing _ _ Hdb) Hc Hrt) as (t & Hpub & Hroutes & Hepoch).
    cbn zeta in H. change (rp_routing (with_store r s)) with (rp_routing r) in H.
    rewrite Hpub in H. injection H as <- <-. eapply commit_refines; try done.
    + by eapply committed_raft.
    + by eapply spec_apply_normal.
  - injection H as <- <-. eapply (commit_refines n r e _ (rp_routing r)); try done; [apply applied_raft|..].
    + by apply applied_routes.
    + by destruct (rp_store r).
    + unfold spec_apply. by rewrite Hp, applied_families.
Qed.

Lemma prefix_drop_cons n e rest :
  e :: rest `prefix_of` drop n L -> L !! n = Some e /\ rest `prefix_of` drop (S n) L.
Proof.
  intros [k Hk]. assert (L !! n = Some e) as He.
  { rewrite <- (Nat.add_0_r n), <- lookup_drop, Hk. done. }
  split; [done|]. exists k. rewrite (drop_S _ _ _ He) in Hk. by injection Hk.
Qed.

Lemma same_files_trans r1 r2 r3 : same_files r1 r2 -> same_files r2 r3 -> same_files r1 r3.
Proof. unfold same_files. intros (-> & -> & ->) (-> & -> & ->). done. Qed.

(** Applying a run of committed entries, completely or up to a failing one. *)
Lemma apply_refines n r entries r' res :
  db_at n (rp_db r) -> memory_ok r -> entries `prefix_of` drop n L -> run_apply r entries = (r', res) ->
  (exists n', db_at n' (rp_db r')) /\ memory_ok r' /\ same_files r r' /\
  forall results, res = Ok results ->
    db_at (n + length entries) (rp_db r') /\
    map (fmap forget_bytes) results = responses raft_state_len marker_len (replay (take n L)) entries.
Proof.
  revert n r r' res. induction entries as [|e rest IH]; intros n r r' res Hdb Hmem Hpre H; simpl in H.
  { injection H as <- <-. split_and!; eauto; [done|]. intros ? [= <-]. by rewrite Nat.add_0_r. }
  apply prefix_drop_cons in Hpre as [He Hpre].
  destruct (run_entry r e) as [r1 [resp| |]] eqn:Hent; apply (apply_entry_refines n) in Hent; try done;
    [|by injection H as <- <-; subst; split_and!; eauto..].
  destruct Hent as (Hdb1 & Hmem1 & Hfiles1 & Hresp).
  destruct (run_apply r1 rest) as [r2 res2] eqn:Hrest. injection H as <- <-.
  destruct (IH _ _ _ _ Hdb1 Hmem1 Hpre Hrest) as (Hdb2 & Hmem2 & Hfiles2 & Hres2).
  split_and!; [done|done|by eapply same_files_trans|]. intros results Hr. unbind Hr as results2 Hr2.
  injection Hr as <-. destruct (Hres2 _ Hr2) as [Hdb3 Hr3]. split; [by replace (n + length (e :: rest))%nat with (S n + length rest)%nat by (simpl; lia)|]. simpl.
  rewrite (take_S_r _ _ _ He), replay_snoc in Hr3.
  destruct (service (replay (take n L)) e) as [st' resp'] eqn:Hs. simpl in *. by rewrite Hresp, Hr3.
Qed.

(** ** Every call keeps the replica on the log *)

Lemma pin_healthy r u : pin_generation r = Ok u -> rp_poisoned r = false.
Proof. apply reject_if_Ok. Qed.

(** Persisting a Raft state with the same applied position. *)
Lemma persist_ok r next log :
  replica_ok r -> rp_poisoned r = false ->
  last_applied_log_id next = last_applied_log_id (rp_state r) -> membership next = membership (rp_state r) ->
  replica_ok (with_state (with_db r (mk_Db (persist_raft_state (rp_store r) next) log (db_identity (rp_db r))
                                       (db_snapshot_meta (rp_db r)))) next).
Proof.
  intros [[n Hdb] Hfiles Hmem] Hp Hla Hms. destruct (Hmem Hp) as [Hst Hrt Hep].
  assert (s_raft_state (persist_raft_state (rp_store r) next) = Some next) as Hrs by (by destruct (rp_store r)).
  split; [|done|intros _].
  - exists n. apply (db_at_store _ _ next); [done|]. rewrite Hla, Hms, Hst.
    replace (state_families _) with (state_families (rp_store r)) by (by destruct (rp_store r)). done.
  - split; simpl; [by unfold load_raft_state; rewrite Hrs|by apply applied_routes|].
    rewrite Hep. by destruct (rp_store r).
Qed.

Lemma with_log_ok r log : replica_ok r -> replica_ok (with_log r log).
Proof. intros [Hdb Hfiles Hmem]. split; [done|done|]. intros Hp. by destruct (Hmem Hp). Qed.

Lemma with_install_ok r st : replica_ok r -> replica_ok (with_install r st).
Proof. intros [Hdb Hfiles Hmem]. split; [done|done|]. intros Hp. by destruct (Hmem Hp). Qed.

Lemma with_readers_ok r readers : replica_ok r -> replica_ok (with_readers r readers).
Proof. intros [Hdb Hfiles Hmem]. split; [done|done|]. intros Hp. by destruct (Hmem Hp). Qed.

(** Cleanup never removes the current snapshot. *)
Lemma cleanup_ok r current :
  replica_ok r -> current = sm_snapshot_id <$> db_snapshot_meta (rp_db r) ->
  replica_ok (cleanup_obsolete_snapshot_files r current).
Proof.
  intros [Hdb Hfiles Hmem] ->. split; [done| |intros Hp; by destruct (Hmem Hp)].
  intros meta Hm. simpl in Hm. destruct (Hfiles meta Hm) as (image & n & Hf & Him). exists image, n. split; [|done].
  simpl. apply map_lookup_filter_Some. split; [done|]. left. by rewrite Hm.
Qed.

Lemma current_path_ok r :
  replica_ok r -> rp_poisoned r = false ->
  current_snapshot_path r = Ok (sm_snapshot_id <$> db_snapshot_meta (rp_db r)).
Proof.
  intros [_ Hfiles _] Hp. unfold current_snapshot_path, pin_generation. rewrite Hp. simpl.
  destruct (db_snapshot_meta (rp_db r)) as [meta|] eqn:Hm; [|done].
  destruct (Hfiles meta Hm) as (image & n & -> & _). done.
Qed.

Lemma tracker_failed_ok r token : replica_ok r -> replica_ok (drop_token r token).
Proof. destruct token; [apply with_install_ok|done]. Qed.

Lemma failed_publication_ok r : replica_ok r -> replica_ok (failed_publication r).
Proof.
  intros Hr. unfold failed_publication. destruct (rp_poisoned r) eqn:Hp.
  - unfold current_snapshot_path, pin_generation. rewrite Hp. done.
  - rewrite current_path_ok by done. by apply cleanup_ok.
Qed.

Lemma log_calls_ok r :
  replica_ok r ->
  (forall v r', save_vote r v = Ok r' -> replica_ok r') /\
  (forall c r', save_committed r c = Ok r' -> replica_ok r') /\
  (forall es r', append r es = Ok r' -> replica_ok r') /\
  (forall id r', truncate r id = Ok r' -> replica_ok r') /\
  (forall id r', purge r id = Ok r' -> replica_ok r').
Proof.
  intros Hr. split_and!; intros x r' H.
  - unfold save_vote in H. unbind H as u Hp. apply pin_healthy in Hp. injection H as <-. by apply persist_ok.
  - unfold save_committed in H. unbind H as u Hp. apply pin_healthy in Hp. injection H as <-. by apply persist_ok.
  - unfold append in H. unbind H as log Hl. injection H as <-. by apply with_log_ok.
  - unfold truncate in H. unbind H as u Hp. injection H as <-. by apply with_log_ok.
  - unfold purge in H. destruct (tracker_defer_purge (rp_install r) x) as [[] st].
    + injection H as <-. by apply with_install_ok.
    + unbind H as u Hp. apply pin_healthy in Hp. injection H as <-. by apply persist_ok.
Qed.

(** A built snapshot is the current prefix of the log. *)
Lemma build_ok r suffix r' meta :
  replica_ok r -> build_snapshot r suffix = Ok (r', meta) ->
  replica_ok r' /\ exists n image, rp_files r' !! sm_snapshot_id meta = Some image /\ image_at n meta image /\
    db_at n (rp_db r').
Proof.
  intros [[n Hdb] Hfiles Hmem] H. unfold build_snapshot in H. unbind H as u Hp. unbind H as identity Hid.
  unbind H as u' Hfresh. injection H as <- <-.
  set (meta := mk_SnapshotMeta _ _ _). set (image := mk_SnapshotImage _ _).
  assert (image_at n meta image) as Him by done.
  split.
  - apply with_readers_ok, cleanup_ok; [|done]. split; [by exists n| |intros Hh; by destruct (Hmem Hh)].
    intros meta' [= <-]. exists image, n. split; [|done]. simpl. by rewrite lookup_insert_eq.
  - exists n, image. split_and!; [|done|done]. simpl. apply map_lookup_filter_Some.
    split; [by rewrite lookup_insert_eq|by left].
Qed.

Lemma persist_persist s a b : persist_raft_state (persist_raft_state s a) b = persist_raft_state s b.
Proof. by destruct s. Qed.

(** The database and the memory an installation leaves. *)
Lemma staged_ok r n meta image boundary next log identity routing epoch :
  image_at n meta image -> rp_files r !! sm_snapshot_id meta = Some image -> sm_last_log_id meta = Some boundary ->
  last_applied_log_id next = Some boundary -> membership next = sm_last_membership meta ->
  load_mount_replacement (im_state image) = Ok routing -> load_route_epoch (im_state image) = Ok epoch ->
  let db := mk_Db (persist_raft_state (im_state image) next) log identity (Some meta) in
  replica_ok (poison (with_db r db)) /\
  replica_ok (install_generation (with_db r db) routing epoch next).
Proof.
  intros Him Hf Hb Hla Hms Hrt Hep db. set (s := persist_raft_state (im_state image) next) in *.
  assert (s_raft_state s = Some next) as Hrs by (unfold s; by destruct (im_state image)).
  assert (state_families s = state_families (im_state image)) as Hfam by (unfold s; by destruct (im_state image)).
  assert (db_at n db) as Hdb.
  { apply (db_at_store _ _ next); [done|]. rewrite Hla, Hms, Hfam, (at_prefix_raft _ _ _ _ Him), <- Hb. done. }
  assert (files_ok (with_db r db)) as Hfiles by (intros meta' [= <-]; by eauto).
  destruct (load_routes _ (at_prefix_routing _ _ _ _ Him)) as (t & Ht & Hroutes).
  unfold load_mount_replacement in Hrt. rewrite Ht in Hrt. injection Hrt as ->. split.
  - split; [by exists n|done|done].
  - split; [by exists n|done|]. intros _. split; simpl.
    + unfold load_raft_state. by rewrite Hrs.
    + by apply applied_routes.
    + unfold load_route_epoch in Hep. unbind Hep as x Hx. unbind Hep as u Hu. injection Hep as <-.
      unfold get_route_epoch, s. destruct (im_state image). simpl in *. by rewrite Hx.
Qed.

Lemma before_switch_Ok old staged identity meta boundary db next :
  before_switch old staged identity meta boundary = Ok (db, next) ->
  last_applied_log_id next = Some boundary /\ last_purged_log_id next = Some boundary /\
  membership next = sm_last_membership meta /\
  exists log, db = mk_Db (persist_raft_state staged next) log (Some identity) (Some meta).
Proof.
  unfold before_switch. intros H. unbind H as u Hstale. unbind H as actual Hid. unbind H as u' Hsame.
  unbind H as log Hlog. bool_prop. subst actual. injection H as <- <-. split_and!; try done. by eexists.
Qed.

(** The deferred purge never passes the boundary, which is the purged position
    already. *)
Lemma after_switch_Ok db install next token boundary st db' next' :
  last_purged_log_id next = Some boundary ->
  after_switch db install next token boundary = (st, Ok (db', next')) -> db' = db /\ next' = next.
Proof.
  intros Hp H. unfold after_switch in H. destruct token as [id|]; [|by injection H].
  destruct (tracker_complete install id) as [[st' [deferred|]]| |]; try done; [|by injection H].
  injection H as _ H. unbind H as u Hd. bool_prop. rewrite Hp in H.
  destruct (rl_index boundary <? rl_index deferred) eqn:E; [lia|]. by injection H.
Qed.

Lemma publish_staged_ok r n meta image boundary identity routing epoch token r' res :
  replica_ok r -> image_at n meta image -> rp_files r !! sm_snapshot_id meta = Some image ->
  sm_last_log_id meta = Some boundary ->
  load_mount_replacement (im_state image) = Ok routing -> load_route_epoch (im_state image) = Ok epoch ->
  publish_staged r meta boundary identity (im_state image) routing epoch token = (r', res) ->
  replica_ok r' /\ (res = Ok tt -> db_at n (rp_db r') /\ db_snapshot_meta (rp_db r') = Some meta).
Proof.
  intros Hr Him Hf Hb Hrt Hep H. unfold publish_staged in H.
  destruct (before_switch _ _ _ _ _) as [[db next]|e|] eqn:Hbs;
    [|by injection H as <- <-; split; [apply tracker_failed_ok|]..].
  apply before_switch_Ok in Hbs as (Hla & Hpur & Hms & log & ->).
  destruct (after_switch _ _ _ _ _) as [st res'] eqn:Has.
  destruct (staged_ok (with_install r st) n meta image boundary next log (Some identity) routing epoch)
    as [Hpo Hin]; try done.
  destruct res' as [[db' next']|e|]; [|by injection H as <- <-..].
  apply after_switch_Ok in Has as [-> ->]; [|done]. injection H as <- <-. split; [done|]. intros _. split; [|done].
  destruct Hin as [[n' Hn'] _ _]. enough (n' = n) as <- by done.
  rewrite <- (at_prefix_position _ _ _ _ Hn'), <- (at_prefix_position _ _ _ _ Him), Hb.
  unfold load_raft_state. simpl. destruct (im_state image). simpl. by rewrite Hla.
Qed.

Lemma install_ok r n meta image token r' res :
  replica_ok r -> image_at n meta image -> install_snapshot r meta image token = (r', res) ->
  replica_ok r' /\ (res = Ok tt -> db_at n (rp_db r')).
Proof.
  intros Hr Him H. unfold install_snapshot in H. destruct (prepare_install r meta image) as
    [[[[[[r1 boundary] identity] staged] routing] epoch]|e|] eqn:Hprep;
    [|by injection H as <- <-; split; [apply tracker_failed_ok|]..].
  unfold prepare_install in Hprep. unbind Hprep as b Hb. unbind Hprep as u Hp. unbind Hprep as i Hi.
  unbind Hprep as st Hst. unfold decode_into_staged in Hst. unbind Hst as u0 Hid. injection Hst as <-.
  unbind Hprep as u' Hval. unbind Hprep as t Hrt. unbind Hprep as ep Hep. unbind Hprep as r2 Hpub.
  injection Hprep as <- <- <- <- <- <-.
  assert (replica_ok r2 /\ rp_files r2 !! sm_snapshot_id meta = Some image) as [Hr2 Hf].
  { unfold publish_received_snapshot_file in Hpub. destruct (rp_files r !! _) as [existing|] eqn:Hex.
    - unbind Hpub as u1 Heq. bool_prop. subst. by injection Hpub as <-.
    - injection Hpub as <-. simpl. rewrite lookup_insert_eq. split; [|done].
      destruct Hr as [Hdb Hfiles Hmem]. split; [done| |intros Hh; by destruct (Hmem Hh)].
      intros meta' Hm. destruct (Hfiles meta' Hm) as (image' & n' & Hf' & ?). exists image', n'. split; [|done].
      simpl. rewrite lookup_insert_ne; [done|congruence]. }
  destruct (publish_staged _ _ _ _ _ _ _ _) as [r3 res3] eqn:Hps.
  eapply publish_staged_ok in Hps as [Hr3 Hdb3]; try done.
  destruct res3 as [[]|e|]; injection H as <- <-; [|by split; [apply failed_publication_ok|]|done].
  destruct (Hdb3 eq_refl) as [Hdb4 Hm]. split; [|done]. apply cleanup_ok; [done|]. by rewrite Hm.
Qed.

(** A process start over the database of a replica recovers it. *)
Lemma start_ok db files :
  (exists n, db_at n db) ->
  (forall meta, db_snapshot_meta db = Some meta ->
     exists image n, files !! sm_snapshot_id meta = Some image /\ image_at n meta image) ->
  exists r, start db files = Ok r /\ replica_ok r /\ rp_db r = db /\ rp_poisoned r = false.
Proof.
  intros [n Hdb] Hfiles. destruct (load_routes _ (db_routing _ _ Hdb)) as (t & Ht & Hroutes).
  unfold start. rewrite Ht. cbn [mbind result_bind].
  set (r := mk_Replica _ _ _ _ _ _ _ _).
  assert (replica_ok r) as Hr by (split; [by exists n|done|by split]).
  rewrite current_path_ok by done. cbn [mbind result_bind]. eexists. split; [done|].
  split; [by apply cleanup_ok|done].
Qed.

Lemma restart_ok r :
  replica_ok r -> exists r', restart r = Ok r' /\ replica_ok r' /\ rp_db r' = rp_db r /\ rp_poisoned r' = false.
Proof. intros [Hdb Hfiles _]. by apply start_ok. Qed.

Lemma current_snapshot_ok r r' s :
  replica_ok r -> get_current_snapshot r = Ok (r', s) ->
  replica_ok r' /\ forall meta image, s = Some (meta, image) -> exists n, image_at n meta image.
Proof.
  intros Hr H. unfold get_current_snapshot in H. unbind H as u Hp.
  destruct (db_snapshot_meta (rp_db r)) as [meta|] eqn:Hm; [|by injection H as <- <-].
  unbind H as image Hi. injection H as <- <-. split; [by apply with_readers_ok|]. intros ? ? [= <- <-].
  destruct Hr as [_ Hfiles _]. destruct (Hfiles meta Hm) as (image' & n & Hf & ?). simplify_eq. eauto.
Qed.

Definition sent_ok (sent : list (SnapshotMeta * SnapshotImage)) : Prop :=
  Forall (fun s => exists n, image_at n s.1 s.2) sent.

Lemma exec_ok sent r call :
  sent_ok sent -> replica_ok r -> permitted L sent r call -> replica_ok (exec raft_state_len marker_len r call).
Proof.
  intros Hsent Hr Hperm. destruct (log_calls_ok r Hr) as (Hv & Hc & Ha & Ht & Hpu).
  destruct call; simpl in *; unfold after.
  - destruct (save_vote r v) eqn:E; eauto.
  - destruct (save_committed r c) eqn:E; eauto.
  - destruct (append r entries) eqn:E; eauto.
  - destruct (truncate r id) eqn:E; eauto.
  - destruct (purge r id) eqn:E; eauto.
  - destruct (run_apply r entries) as [r' res] eqn:E. simpl. pose proof Hr as [[n Hdb] Hfiles Hmem].
    destruct (rp_poisoned r) eqn:Hp.
    + destruct entries; simpl in E; [by injection E as <- _|].
      unfold apply_entry, pin_generation in E. rewrite Hp in E. by injection E as <- _.
    + pose proof (Hmem eq_refl) as Hm. pose proof Hm as [Hst _ _]. rewrite Hst, (at_prefix_position _ _ _ _ Hdb) in Hperm.
      apply (apply_refines n) in E as (Hdb' & Hm' & (Hf1 & Hf2 & Hf3) & _); [|done..].
      split; [done| |done]. unfold files_ok. by rewrite Hf1, Hf2.
  - destruct (build_snapshot _ _) as [[r' m]| |] eqn:E; simpl; [|done..]. by eapply build_ok in E as [? _].
  - unfold begin_receiving_snapshot. destruct (tracker_begin _ _); simpl; [|done..]. by apply with_install_ok.
  - destruct (install_snapshot r meta image token) as [r' res] eqn:E.
    unfold sent_ok in Hsent. rewrite Forall_forall in Hsent. destruct (Hsent _ Hperm) as [n Him]. by eapply install_ok in E as [? _].
  - destruct (get_current_snapshot r) as [[r' s]| |] eqn:E; simpl; [|done..]. by eapply current_snapshot_ok in E as [? _].
  - by apply with_readers_ok.
  - destruct (restart_ok r Hr) as (r' & -> & ? & _). done.
Qed.

Lemma formatted_ok identity r : start (formatted identity) ∅ = Ok r -> replica_ok r.
Proof.
  intros H. destruct (start_ok (formatted identity) ∅) as (r' & H' & ? & _); [|done|congruence].
  exists 0%nat. split; [lia|done].
Qed.

Lemma reach_ok cl :
  cluster_reach raft_state_len marker_len L cl ->
  sent_ok (cl_sent cl) /\ forall node r, cl_replicas cl !! node = Some r -> replica_ok r.
Proof.
  induction 1 as [replicas Hinit|cl node r call _ [IHs IH] Hl Hperm|cl node r r' s _ [IHs IH] Hl Hs]; simpl.
  - split; [constructor|]. intros node r (identity & H)%Hinit. by eapply formatted_ok.
  - split; [done|]. intros node' r'. rewrite lookup_insert_Some. intros [[<- <-]|[_ H]]; [|by eauto].
    by eapply exec_ok; eauto.
  - destruct s as [meta image]. apply current_snapshot_ok in Hs as [Hr' Him]; [|by eauto]. split.
    + constructor; [by apply Him|done].
    + intros node' r''. rewrite lookup_insert_Some. intros [[<- <-]|[_ H]]; by eauto.
Qed.

(** ** Properties *)



End refinement.

(** ** A cluster of two *)

Definition node_identity (node : Z) : StorageIdentity := mk_StorageIdentity "uuid" "cluster" "g" node "client" "call" 1.

Definition entry_at (index : Z) (payload : EntryPayload) : LogEntry :=
  mk_LogEntry (mk_RaftLogId 1 1 index) payload.

Definition sample_log : list LogEntry :=
  [entry_at 0 (Membership 7); entry_at 1 (Normal boot_command); entry_at 2 (Normal mkdir_command);
   entry_at 3 Blank].

Definition fixed_len (rs : RaftState) : Z := 64.
Definition fixed_marker (d : DetachedRoot) : Z := 18.

Definition fresh_replica (node : Z) : Replica :=
  match start (formatted (node_identity node)) ∅ with
  | Ok r => r
  | _ => mk_Replica (formatted (node_identity node)) raft_state_default mount_table_new 1 install_state_default false ∅ ∅
  end.
Notation do := (exec fixed_len fixed_marker).

(** Node 1 applies three entries and builds a snapshot, which node 2 installs. *)
Definition node1_applied : Replica := do (fresh_replica 1) (C_apply (take 3 sample_log)).
Definition node1_built : Replica := do node1_applied (C_build_snapshot "x").
Definition cluster0 : Cluster := mk_Cluster {[1 := fresh_replica 1; 2 := fresh_replica 2]} [].
Definition cluster1 : Cluster := mk_Cluster (<[1 := node1_applied]> (cl_replicas cluster0)) (cl_sent cluster0).
Definition cluster2 : Cluster := mk_Cluster (<[1 := node1_built]> (cl_replicas cluster1)) (cl_sent cluster1).
Definition cluster3 (s : SnapshotMeta * SnapshotImage) : Cluster :=
  mk_Cluster (<[1 := open_read node1_built "1-2-x"]> (cl_replicas cluster2)) (s :: cl_sent cluster2).
Definition cluster4 (s : SnapshotMeta * SnapshotImage) : Cluster :=
  mk_Cluster (<[2 := do (fresh_replica 2) (C_install_snapshot s.1 s.2 None)]> (cl_replicas (cluster3 s)))
    (cl_sent (cluster3 s)).
Definition node1_snapshot : SnapshotMeta * SnapshotImage :=
  match get_current_snapshot node1_built with
  | Ok (_, Some s) => s
  | _ => (mk_SnapshotMeta None (None, 0) EmptyString, mk_SnapshotImage (snapshot_identity_current "g" None) empty_store)
  end.
Definition sample_cluster : Cluster := cluster4 node1_snapshot.

Lemma sample_log_ok : log_ok 64 sample_log.
Proof.
  intros k e He. destruct k as [|[|[|[|k]]]]; simpl in He; try (injection He as <-; by split). done.
Qed.

Lemma sample_reach : cluster_reach fixed_len fixed_marker sample_log sample_cluster.
Proof.
  assert (get_current_snapshot node1_built = Ok (open_read node1_built "1-2-x", Some node1_snapshot)) as Hs
    by (vm_compute; reflexivity).
  unfold sample_cluster. generalize dependent node1_snapshot. intros s Hs.
  refine (cr_call _ _ _ (cluster3 s) 2 (fresh_replica 2) (C_install_snapshot s.1 s.2 None) _ _ _);
    [|done|by destruct s; left].
  refine (cr_send _ _ _ cluster2 1 node1_built _ s _ _ Hs); [|done].
  refine (cr_call _ _ _ cluster1 1 node1_applied (C_build_snapshot "x") _ _ _); [|done|done].
  refine (cr_call _ _ _ cluster0 1 (fresh_replica 1) (C_apply (take 3 sample_log)) _ _ _);
    [|done|exists [entry_at 3 Blank]; by vm_compute].
  refine (cr_init _ _ _ (cl_replicas cluster0) _). intros node r. unfold cluster0. cbn [cl_replicas].
  rewrite lookup_insert_Some, lookup_singleton_Some.
  intros [[_ <-]|[_ [_ <-]]]; [exists (node_identity 1)|exists (node_identity 2)]; by vm_compute.
Qed.

Definition node1 : Replica := open_read node1_built "1-2-x".
Definition node2 : Replica := do (fresh_replica 2) (C_install_snapshot node1_snapshot.1 node1_snapshot.2 None).



