(* ===== verification/Session.v ===== *)
(** * Write sessions ([beryl-metadata/src/session_registry.rs])

    The leader-local registry that admits writers: one opening or active session
    per inode, unbound openings of CreateFile, bounded capacity for sessions and
    write targets, expiry, and the indexes derived from them. The lock of the
    source makes every method one step on [SessionRegistryState]; the clock is an
    argument. Assertions and [expect]s of the source are the outcome [Panic]. *)

From S2P Require Import Prelude Types Errors Inode Mount Store Namespace.
Local Open Scope Z_scope.

(** A step either panics or yields its value; [Err] cannot be built. *)
Notation step A := (result Empty_set A) (only parsing).

Definition MAX_EXPIRED_SESSION_RETIREMENTS_PER_CALL : nat := 64.

(** ** Sessions *)

Record PendingAllocateBlock := mk_PendingAllocateBlock {
  pa_previous_block_id : option BlockId
}.

#[global] Instance PendingAllocateBlock_eq_dec : EqDecision PendingAllocateBlock.
Proof. solve_decision. Defined.

Record CreateSessionReplay := mk_CreateSessionReplay {
  cs_inode_id : InodeId;
  cs_lease_epoch : LeaseEpoch;
  cs_layout : FileLayout;
  cs_expires_at_ms : Z;
  cs_generation : ContentGeneration
}.

Record ActiveCreateReplay := mk_ActiveCreateReplay {
  acr_operation_id : CreateFileOperationId;
  acr_request_deadline_ms : Z;
  acr_normalized_path : string;
  acr_mount_id : MountId;
  acr_expected_mount_epoch : Z;
  acr_mount_root_inode_id : InodeId;
  acr_response : CreateSessionReplay
}.

Record WriteSession := mk_WriteSession {
  ws_inode_id : InodeId;
  ws_mount_id : MountId;
  ws_lease_epoch : LeaseEpoch;
  ws_base_size : Z;
  ws_generation : ContentGeneration;
  ws_mode : WriteMode;
  ws_open_client_id : ClientId;
  ws_layout : FileLayout;
  ws_expires_at_ms : Z;
  ws_ancestor_inode_ids : list InodeId;
  ws_issued_targets : list LocatedBlock;
  ws_issued_steps : gmap (option BlockId) nat;
  ws_pending_allocate_block : option PendingAllocateBlock;
  ws_active_publication : option Z;
  ws_publication_submitted : bool;
  ws_create_replay : option ActiveCreateReplay
}.

Record WriteSessionIdentity := mk_WriteSessionIdentity {
  wi_mount_id : MountId;
  wi_lease_epoch : LeaseEpoch;
  wi_open_client_id : ClientId
}.

Record BeginSessionInput := mk_BeginSessionInput {
  bi_normalized_path : string;
  bi_mount_id : MountId;
  bi_inode_id : InodeId;
  bi_current_lease_epoch : LeaseEpoch;
  bi_mode : WriteMode;
  bi_open_client_id : ClientId;
  bi_layout : FileLayout;
  bi_ancestor_inode_ids : list InodeId
}.

Record BeginCreateSessionInput := mk_BeginCreateSessionInput {
  bc_operation_id : CreateFileOperationId;
  bc_request_deadline_ms : Z;
  bc_normalized_path : string;
  bc_mount_id : MountId;
  bc_expected_mount_epoch : Z;
  bc_mount_root_inode_id : InodeId;
  bc_open_client_id : ClientId;
  bc_parent_ancestor_inode_ids : list InodeId
}.

Record CreateOpeningSession := mk_CreateOpeningSession {
  co_opening_id : Z;
  co_operation_id : CreateFileOperationId;
  co_request_deadline_ms : Z;
  co_normalized_path : string;
  co_mount_id : MountId;
  co_expected_mount_epoch : Z;
  co_mount_root_inode_id : InodeId;
  co_open_client_id : ClientId;
  co_expires_at_ms : Z;
  co_parent_ancestor_inode_ids : list InodeId
}.

Record OpeningSession := mk_OpeningSession {
  os_opening_id : Z;
  os_inode_id : InodeId;
  os_mount_id : MountId;
  os_proposed_lease_epoch : LeaseEpoch;
  os_mode : WriteMode;
  os_open_client_id : ClientId;
  os_layout : FileLayout;
  os_expires_at_ms : Z;
  os_ancestor_inode_ids : list InodeId
}.

Inductive WriteSessionEntry := Opening (opening : OpeningSession) | Active (session : WriteSession).

Definition entry_inode_id (e : WriteSessionEntry) : InodeId :=
  match e with Opening o => os_inode_id o | Active s => ws_inode_id s end.
Definition entry_client_id (e : WriteSessionEntry) : ClientId :=
  match e with Opening o => os_open_client_id o | Active s => ws_open_client_id s end.
Definition entry_expires_at_ms (e : WriteSessionEntry) : Z :=
  match e with Opening o => os_expires_at_ms o | Active s => ws_expires_at_ms s end.

(** Submitted publications outlive their lease deadline. *)
Definition retirement_at_ms (e : WriteSessionEntry) : Z :=
  match e with
  | Active s => if ws_publication_submitted s then u64_max else entry_expires_at_ms e
  | _ => entry_expires_at_ms e
  end.

Definition entry_ancestor_inode_ids (e : WriteSessionEntry) : list InodeId :=
  match e with Opening o => os_ancestor_inode_ids o | Active s => ws_ancestor_inode_ids s end.
Definition is_opening (e : WriteSessionEntry) : bool :=
  match e with Opening _ => true | Active _ => false end.


(** The CreateFile operation an active session was created by. *)
Definition create_operation (e : WriteSessionEntry) : option CreateFileOperationId :=
  match e with Active s => acr_operation_id <$> ws_create_replay s | Opening _ => None end.

(** ** Owners handed to callers *)

Record WriteOpening := mk_WriteOpening {
  wo_inode_id : InodeId;
  wo_opening_id : Z;
  wo_proposed_lease_epoch : LeaseEpoch
}.

Record CreateOpening := mk_CreateOpening {
  cro_operation_id : CreateFileOperationId;
  cro_opening_id : Z;
  cro_expires_at_ms : Z
}.

Inductive BeginCreateSession := BCS_Replay (replay : CreateSessionReplay) | BCS_Reserved (opening : CreateOpening).

Record WriteTargetReservation := mk_WriteTargetReservation {
  wr_inode_id : InodeId;
  wr_lease_epoch : LeaseEpoch;
  wr_pending : PendingAllocateBlock;
  wr_layout : FileLayout;
  wr_open_client_id : ClientId;
  wr_file_offset : Z
}.

Inductive BeginAllocateBlock := BAB_Replay (target : LocatedBlock) | BAB_Reserved (r : WriteTargetReservation).

Record WritePublication := mk_WritePublication {
  wp_session : WriteSession;
  wp_publication_id : Z;
  wp_submitted : bool
}.

(** ** Errors *)

Inductive WriteSessionLimit := WSL_Global | WSL_PerClient.
Inductive WriteTargetLimit := WTL_Global | WTL_PerSession.

Inductive BeginCreateSessionError :=
| BCE_Pending | BCE_IdentityMismatch | BCE_PathBusy | BCE_LimitExceeded (limit : WriteSessionLimit) (maximum : Z)
| BCE_OpeningIdExhausted | BCE_InvalidAncestorChain.

Inductive BeginSessionError :=
| BSE_Busy | BSE_LimitExceeded (limit : WriteSessionLimit) (maximum : Z) | BSE_LeaseEpochExhausted
| BSE_OpeningIdExhausted | BSE_InvalidAncestorChain.

Inductive WriteOpeningError :=
| WOE_TargetLimit | WOE_Expired | WOE_NotCurrent | WOE_LeaseEpochMismatch (expected got : LeaseEpoch).

Inductive BeginAllocateBlockError :=
| BAE_Session (reason : string) | BAE_Internal (reason : string) | BAE_InvalidArgument (reason : string)
| BAE_Pending | BAE_PublicationInProgress | BAE_LimitExceeded (limit : WriteTargetLimit) (maximum : Z).

Inductive CompleteWriteTargetError := CTE_NotCurrent | CTE_InvalidTarget (reason : string).

Inductive BeginWritePublicationError :=
| BPE_Session (reason : string) | BPE_AllocateBlockPending | BPE_PublicationInProgress | BPE_PublicationIdExhausted.

Inductive WriteSessionError :=
| WSE_NotFound | WSE_LeaseEpochMismatch (expected got : LeaseEpoch) | WSE_OwnerMismatch | WSE_Expired.

(** ** The registry *)

Record SessionLimits := mk_SessionLimits {
  max_sessions : Z;
  max_sessions_per_client : Z;
  max_write_targets : Z;
  max_write_targets_per_session : Z;
  session_ttl_ms : Z
}.

(** The assertions of [SessionRegistry::new]. *)
Definition limits_ok (l : SessionLimits) : bool :=
  (0 <? max_sessions l) && (0 <? max_sessions_per_client l) && (max_sessions_per_client l <=? max_sessions l)
  && (0 <? max_write_targets l) && (0 <? max_write_targets_per_session l)
  && (max_write_targets_per_session l <=? max_write_targets l).

Record SessionRegistryState := mk_SessionRegistryState {
  entries : gmap InodeId WriteSessionEntry;
  create_openings : gmap CreateFileOperationId CreateOpeningSession;
  create_openings_by_path : gmap (MountId * string) CreateFileOperationId;
  create_opening_operations : gmap Z CreateFileOperationId;
  create_openings_by_expiry : gset (Z * Z);
  active_create_operations : gmap CreateFileOperationId InodeId;
  opening_sessions : Z;
  occupied_sessions_by_client : gmap ClientId Z;
  ancestor_activity : gmap InodeId (gmap Z Z);
  entries_by_expiry : gset (Z * InodeId);
  next_opening_id : Z;
  next_publication_id : Z;
  outstanding_write_targets : Z;
  pending_write_targets : Z
}.

Definition registry_default : SessionRegistryState :=
  mk_SessionRegistryState ∅ ∅ ∅ ∅ ∅ ∅ 0 ∅ ∅ ∅ 1 1 0 0.

(** Field updates. *)
Definition set_entries (st : SessionRegistryState) (x : gmap InodeId WriteSessionEntry) : SessionRegistryState :=
  mk_SessionRegistryState x (create_openings st) (create_openings_by_path st) (create_opening_operations st)
    (create_openings_by_expiry st) (active_create_operations st) (opening_sessions st)
    (occupied_sessions_by_client st) (ancestor_activity st) (entries_by_expiry st) (next_opening_id st)
    (next_publication_id st) (outstanding_write_targets st) (pending_write_targets st).
Definition set_create_openings (st : SessionRegistryState) (x : gmap CreateFileOperationId CreateOpeningSession) : SessionRegistryState :=
  mk_SessionRegistryState (entries st) x (create_openings_by_path st) (create_opening_operations st)
    (create_openings_by_expiry st) (active_create_operations st) (opening_sessions st)
    (occupied_sessions_by_client st) (ancestor_activity st) (entries_by_expiry st) (next_opening_id st)
    (next_publication_id st) (outstanding_write_targets st) (pending_write_targets st).
Definition set_create_openings_by_path (st : SessionRegistryState) (x : gmap (MountId * string) CreateFileOperationId) : SessionRegistryState :=
  mk_SessionRegistryState (entries st) (create_openings st) x (create_opening_operations st)
    (create_openings_by_expiry st) (active_create_operations st) (opening_sessions st)
    (occupied_sessions_by_client st) (ancestor_activity st) (entries_by_expiry st) (next_opening_id st)
    (next_publication_id st) (outstanding_write_targets st) (pending_write_targets st).
Definition set_create_opening_operations (st : SessionRegistryState) (x : gmap Z CreateFileOperationId) : SessionRegistryState :=
  mk_SessionRegistryState (entries st) (create_openings st) (create_openings_by_path st) x
    (create_openings_by_expiry st) (active_create_operations st) (opening_sessions st)
    (occupied_sessions_by_client st) (ancestor_activity st) (entries_by_expiry st) (next_opening_id st)
    (next_publication_id st) (outstanding_write_targets st) (pending_write_targets st).
Definition set_create_openings_by_expiry (st : SessionRegistryState) (x : gset (Z * Z)) : SessionRegistryState :=
  mk_SessionRegistryState (entries st) (create_openings st) (create_openings_by_path st)
    (create_opening_operations st) x (active_create_operations st) (opening_sessions st)
    (occupied_sessions_by_client st) (ancestor_activity st) (entries_by_expiry st) (next_opening_id st)
    (next_publication_id st) (outstanding_write_targets st) (pending_write_targets st).
Definition set_active_create_operations (st : SessionRegistryState) (x : gmap CreateFileOperationId InodeId) : SessionRegistryState :=
  mk_SessionRegistryState (entries st) (create_openings st) (create_openings_by_path st)
    (create_opening_operations st) (create_openings_by_expiry st) x (opening_sessions st)
    (occupied_sessions_by_client st) (ancestor_activity st) (entries_by_expiry st) (next_opening_id st)
    (next_publication_id st) (outstanding_write_targets st) (pending_write_targets st).
Definition set_opening_sessions (st : SessionRegistryState) (x : Z) : SessionRegistryState :=
  mk_SessionRegistryState (entries st) (create_openings st) (create_openings_by_path st)
    (create_opening_operations st) (create_openings_by_expiry st) (active_create_operations st) x
    (occupied_sessions_by_client st) (ancestor_activity st) (entries_by_expiry st) (next_opening_id st)
    (next_publication_id st) (outstanding_write_targets st) (pending_write_targets st).
Definition set_occupied_sessions_by_client (st : SessionRegistryState) (x : gmap ClientId Z) : SessionRegistryState :=
  mk_SessionRegistryState (entries st) (create_openings st) (create_openings_by_path st)
    (create_opening_operations st) (create_openings_by_expiry st) (active_create_operations st)
    (opening_sessions st) x (ancestor_activity st) (entries_by_expiry st) (next_opening_id st)
    (next_publication_id st) (outstanding_write_targets st) (pending_write_targets st).
Definition set_ancestor_activity (st : SessionRegistryState) (x : gmap InodeId (gmap Z Z)) : SessionRegistryState :=
  mk_SessionRegistryState (entries st) (create_openings st) (create_openings_by_path st)
    (create_opening_operations st) (create_openings_by_expiry st) (active_create_operations st)
    (opening_sessions st) (occupied_sessions_by_client st) x (entries_by_expiry st) (next_opening_id st)
    (next_publication_id st) (outstanding_write_targets st) (pending_write_targets st).
Definition set_entries_by_expiry (st : SessionRegistryState) (x : gset (Z * InodeId)) : SessionRegistryState :=
  mk_SessionRegistryState (entries st) (create_openings st) (create_openings_by_path st)
    (create_opening_operations st) (create_openings_by_expiry st) (active_create_operations st)
    (opening_sessions st) (occupied_sessions_by_client st) (ancestor_activity st) x (next_opening_id st)
    (next_publication_id st) (outstanding_write_targets st) (pending_write_targets st).
Definition set_next_opening_id (st : SessionRegistryState) (x : Z) : SessionRegistryState :=
  mk_SessionRegistryState (entries st) (create_openings st) (create_openings_by_path st)
    (create_opening_operations st) (create_openings_by_expiry st) (active_create_operations st)
    (opening_sessions st) (occupied_sessions_by_client st) (ancestor_activity st) (entries_by_expiry st) x
    (next_publication_id st) (outstanding_write_targets st) (pending_write_targets st).
Definition set_next_publication_id (st : SessionRegistryState) (x : Z) : SessionRegistryState :=
  mk_SessionRegistryState (entries st) (create_openings st) (create_openings_by_path st)
    (create_opening_operations st) (create_openings_by_expiry st) (active_create_operations st)
    (opening_sessions st) (occupied_sessions_by_client st) (ancestor_activity st) (entries_by_expiry st)
    (next_opening_id st) x (outstanding_write_targets st) (pending_write_targets st).
Definition set_outstanding_write_targets (st : SessionRegistryState) (x : Z) : SessionRegistryState :=
  mk_SessionRegistryState (entries st) (create_openings st) (create_openings_by_path st)
    (create_opening_operations st) (create_openings_by_expiry st) (active_create_operations st)
    (opening_sessions st) (occupied_sessions_by_client st) (ancestor_activity st) (entries_by_expiry st)
    (next_opening_id st) (next_publication_id st) x (pending_write_targets st).
Definition set_pending_write_targets (st : SessionRegistryState) (x : Z) : SessionRegistryState :=
  mk_SessionRegistryState (entries st) (create_openings st) (create_openings_by_path st)
    (create_opening_operations st) (create_openings_by_expiry st) (active_create_operations st)
    (opening_sessions st) (occupied_sessions_by_client st) (ancestor_activity st) (entries_by_expiry st)
    (next_opening_id st) (next_publication_id st) (outstanding_write_targets st) x.

Definition session_with_expiry (s : WriteSession) (x : Z) : WriteSession :=
  mk_WriteSession (ws_inode_id s) (ws_mount_id s) (ws_lease_epoch s) (ws_base_size s) (ws_generation s)
    (ws_mode s) (ws_open_client_id s) (ws_layout s) x (ws_ancestor_inode_ids s) (ws_issued_targets s)
    (ws_issued_steps s) (ws_pending_allocate_block s) (ws_active_publication s) (ws_publication_submitted s)
    (ws_create_replay s).
Definition session_with_targets (s : WriteSession) (targets : list LocatedBlock) (steps : gmap (option BlockId) nat) : WriteSession :=
  mk_WriteSession (ws_inode_id s) (ws_mount_id s) (ws_lease_epoch s) (ws_base_size s) (ws_generation s)
    (ws_mode s) (ws_open_client_id s) (ws_layout s) (ws_expires_at_ms s) (ws_ancestor_inode_ids s) targets steps
    (ws_pending_allocate_block s) (ws_active_publication s) (ws_publication_submitted s) (ws_create_replay s).
Definition session_with_pending (s : WriteSession) (x : option PendingAllocateBlock) : WriteSession :=
  mk_WriteSession (ws_inode_id s) (ws_mount_id s) (ws_lease_epoch s) (ws_base_size s) (ws_generation s)
    (ws_mode s) (ws_open_client_id s) (ws_layout s) (ws_expires_at_ms s) (ws_ancestor_inode_ids s)
    (ws_issued_targets s) (ws_issued_steps s) x (ws_active_publication s) (ws_publication_submitted s)
    (ws_create_replay s).
Definition session_with_publication (s : WriteSession) (x : option Z) (submitted : bool) : WriteSession :=
  mk_WriteSession (ws_inode_id s) (ws_mount_id s) (ws_lease_epoch s) (ws_base_size s) (ws_generation s)
    (ws_mode s) (ws_open_client_id s) (ws_layout s) (ws_expires_at_ms s) (ws_ancestor_inode_ids s)
    (ws_issued_targets s) (ws_issued_steps s) (ws_pending_allocate_block s) x submitted (ws_create_replay s).
Definition session_with_content (s : WriteSession) (size : Z) (generation : ContentGeneration) (mode : WriteMode) : WriteSession :=
  mk_WriteSession (ws_inode_id s) (ws_mount_id s) (ws_lease_epoch s) size generation mode (ws_open_client_id s)
    (ws_layout s) (ws_expires_at_ms s) (ws_ancestor_inode_ids s) (ws_issued_targets s) (ws_issued_steps s)
    (ws_pending_allocate_block s) (ws_active_publication s) (ws_publication_submitted s) (ws_create_replay s).

(** ** Derived indexes *)

(** [BTreeSet::first] of a set of pairs, in lexicographic order. *)
Definition pair_min (a : Z * Z) (o : option (Z * Z)) : option (Z * Z) :=
  match o with
  | None => Some a
  | Some b => if (a.1 <? b.1) || (bool_decide (a.1 = b.1) && (a.2 <? b.2)) then Some a else Some b
  end.
Definition set_first (s : gset (Z * Z)) : option (Z * Z) := foldr pair_min None (elements s).

(** The last key of a [BTreeMap<u64, usize>]. *)
Definition last_key (m : gmap Z Z) : option Z :=
  foldr (fun e o => match o with None => Some e.1 | Some b => Some (Z.max e.1 b) end) None (map_to_list m).

(** [*map.entry(key).or_default() += 1]. *)
Definition increment {K} `{Countable K} (m : gmap K Z) (k : K) : gmap K Z := <[k := default 0 (m !! k) + 1]> m.

(** One more session that expires at [e] below [ancestor]. *)
Definition activity_add (e : Z) (m : gmap InodeId (gmap Z Z)) (ancestor : InodeId) : gmap InodeId (gmap Z Z) :=
  <[ancestor := increment (default ∅ (m !! ancestor)) e]> m.

Definition decrement_expiry_count (m : gmap Z Z) (expires_at_ms : Z) : step (gmap Z Z) :=
  count ← expect (m !! expires_at_ms);
  Ok (if bool_decide (count - 1 = 0) then delete expires_at_ms m else <[expires_at_ms := count - 1]> m).

(** One session less; an emptied ancestor is removed. *)
Definition activity_remove (e : Z) (m : gmap InodeId (gmap Z Z)) (ancestor : InodeId)
  : step (gmap InodeId (gmap Z Z)) :=
  activity ← expect (m !! ancestor);
  activity ← decrement_expiry_count activity e;
  Ok (if bool_decide (activity = ∅) then delete ancestor m else <[ancestor := activity]> m).

(** The loop body of [move_expiry_indexes]. *)
Definition activity_move (previous next : Z) (m : gmap InodeId (gmap Z Z)) (ancestor : InodeId)
  : step (gmap InodeId (gmap Z Z)) :=
  activity ← expect (m !! ancestor);
  activity ← decrement_expiry_count activity previous;
  Ok (<[ancestor := increment activity next]> m).

(** A loop whose body may panic. *)
Fixpoint each {A S} (f : S -> A -> step S) (s : S) (l : list A) : step S :=
  match l with
  | [] => Ok s
  | a :: rest => s ← f s a; each f s rest
  end.

Definition record_session_gauges (st : SessionRegistryState) : step unit :=
  _ ← expect (checked_sub (Z.of_nat (size (entries st))) (opening_sessions st)); Ok tt.

Definition record_write_target_gauges (st : SessionRegistryState) : step unit :=
  _ ← expect (checked_sub (outstanding_write_targets st) (pending_write_targets st)); Ok tt.

Definition decrement_client_occupancy (st : SessionRegistryState) (client : ClientId) : step SessionRegistryState :=
  count ← expect (occupied_sessions_by_client st !! client);
  count ← expect (checked_sub count 1);
  Ok (set_occupied_sessions_by_client st
        (if bool_decide (count = 0) then delete client (occupied_sessions_by_client st)
         else <[client := count]> (occupied_sessions_by_client st))).

Definition insert_entry (st : SessionRegistryState) (entry : WriteSessionEntry) : step SessionRegistryState :=
  let id := entry_inode_id entry in
  let expires_at_ms := retirement_at_ms entry in
  let st := set_ancestor_activity st
              (foldl (activity_add expires_at_ms) (ancestor_activity st) (entry_ancestor_inode_ids entry)) in
  assert_that (bool_decide ((expires_at_ms, id) ∉ entries_by_expiry st));;
  let st := set_entries_by_expiry st ({[(expires_at_ms, id)]} ∪ entries_by_expiry st) in
  let st := if is_opening entry then set_opening_sessions st (opening_sessions st + 1) else st in
  let st := set_occupied_sessions_by_client st
              (increment (occupied_sessions_by_client st) (entry_client_id entry)) in
  st ← match create_operation entry with
       | Some operation_id =>
           assert_that (bool_decide (active_create_operations st !! operation_id = None));;
           Ok (set_active_create_operations st (<[operation_id := id]> (active_create_operations st)))
       | None => Ok st
       end;
  assert_that (bool_decide (entries st !! id = None));;
  let st := set_entries st (<[id := entry]> (entries st)) in
  record_session_gauges st;;
  Ok st.

Definition insert_create_opening (st : SessionRegistryState) (opening : CreateOpeningSession)
  : step SessionRegistryState :=
  let path := (co_mount_id opening, co_normalized_path opening) in
  assert_that (bool_decide (create_openings_by_path st !! path = None));;
  let st := set_create_openings_by_path st (<[path := co_operation_id opening]> (create_openings_by_path st)) in
  let st := set_ancestor_activity st
              (foldl (activity_add (co_expires_at_ms opening)) (ancestor_activity st)
                 (co_parent_ancestor_inode_ids opening)) in
  let expiry := (co_expires_at_ms opening, co_opening_id opening) in
  assert_that (bool_decide (expiry ∉ create_openings_by_expiry st));;
  let st := set_create_openings_by_expiry st ({[expiry]} ∪ create_openings_by_expiry st) in
  assert_that (bool_decide (create_opening_operations st !! co_opening_id opening = None));;
  let st := set_create_opening_operations st
              (<[co_opening_id opening := co_operation_id opening]> (create_opening_operations st)) in
  let st := set_occupied_sessions_by_client st
              (increment (occupied_sessions_by_client st) (co_open_client_id opening)) in
  assert_that (bool_decide (create_openings st !! co_operation_id opening = None));;
  let st := set_create_openings st (<[co_operation_id opening := opening]> (create_openings st)) in
  record_session_gauges st;;
  Ok st.

Definition remove_create_opening (st : SessionRegistryState) (operation_id : CreateFileOperationId)
  : step (SessionRegistryState * option CreateOpeningSession) :=
  match create_openings st !! operation_id with
  | None => Ok (st, None)
  | Some opening =>
      let st := set_create_openings st (delete operation_id (create_openings st)) in
      let path := (co_mount_id opening, co_normalized_path opening) in
      assert_that (bool_decide (create_openings_by_path st !! path = Some operation_id));;
      let st := set_create_openings_by_path st (delete path (create_openings_by_path st)) in
      let expiry := (co_expires_at_ms opening, co_opening_id opening) in
      assert_that (bool_decide (expiry ∈ create_openings_by_expiry st));;
      let st := set_create_openings_by_expiry st (create_openings_by_expiry st ∖ {[expiry]}) in
      assert_that (bool_decide (create_opening_operations st !! co_opening_id opening = Some operation_id));;
      let st := set_create_opening_operations st
                  (delete (co_opening_id opening) (create_opening_operations st)) in
      activity ← each (activity_remove (co_expires_at_ms opening)) (ancestor_activity st)
                   (co_parent_ancestor_inode_ids opening);
      let st := set_ancestor_activity st activity in
      st ← decrement_client_occupancy st (co_open_client_id opening);
      record_session_gauges st;;
      Ok (st, Some opening)
  end.

Definition remove_from_indexes (st : SessionRegistryState) (id : InodeId) (entry : WriteSessionEntry)
  : step SessionRegistryState :=
  let expiry := (retirement_at_ms entry, id) in
  assert_that (bool_decide (expiry ∈ entries_by_expiry st));;
  let st := set_entries_by_expiry st (entries_by_expiry st ∖ {[expiry]}) in
  activity ← each (activity_remove (retirement_at_ms entry)) (ancestor_activity st) (entry_ancestor_inode_ids entry);
  Ok (set_ancestor_activity st activity).

(** [usize::from(session.pending_allocate_block.is_some())]. *)
Definition pending_targets (e : WriteSessionEntry) : Z :=
  match e with
  | Opening _ => 0
  | Active s => if ws_pending_allocate_block s then 1 else 0
  end.
Definition owned_targets (e : WriteSessionEntry) : Z :=
  match e with
  | Opening _ => 0
  | Active s => Z.of_nat (length (ws_issued_targets s)) + pending_targets e
  end.

Definition remove_entry (st : SessionRegistryState) (id : InodeId)
  : step (SessionRegistryState * option WriteSessionEntry) :=
  match entries st !! id with
  | None => Ok (st, None)
  | Some entry =>
      let client := entry_client_id entry in
      assert_that (0 <? default 0 (occupied_sessions_by_client st !! client));;
      let st := set_entries st (delete id (entries st)) in
      st ← match create_operation entry with
           | Some operation_id =>
               assert_that (bool_decide (active_create_operations st !! operation_id = Some id));;
               Ok (set_active_create_operations st (delete operation_id (active_create_operations st)))
           | None => Ok st
           end;
      st ← (if is_opening entry
            then n ← expect (checked_sub (opening_sessions st) 1); Ok (set_opening_sessions st n)
            else Ok st);
      st ← remove_from_indexes st id entry;
      st ← decrement_client_occupancy st client;
      outstanding ← expect (checked_sub (outstanding_write_targets st) (owned_targets entry));
      let st := set_outstanding_write_targets st outstanding in
      pending ← expect (checked_sub (pending_write_targets st) (pending_targets entry));
      let st := set_pending_write_targets st pending in
      record_session_gauges st;;
      record_write_target_gauges st;;
      Ok (st, Some entry)
  end.

Definition move_expiry_indexes (st : SessionRegistryState) (id : InodeId) (ancestors : list InodeId)
    (previous next : Z) : step SessionRegistryState :=
  assert_that (bool_decide ((previous, id) ∈ entries_by_expiry st));;
  let st := set_entries_by_expiry st ({[(next, id)]} ∪ (entries_by_expiry st ∖ {[(previous, id)]})) in
  activity ← each (activity_move previous next) (ancestor_activity st) ancestors;
  Ok (set_ancestor_activity st activity).

(** ** Expiry *)

(** The loop of [retire_expired_entries]; [budget] rounds are left. *)
Fixpoint retire_loop (budget : nat) (st : SessionRegistryState) (now_ms : Z) (retired : Z)
  : step (SessionRegistryState * Z) :=
  match budget with
  | O => Ok (st, retired)
  | S budget =>
      let session_expiry := set_first (entries_by_expiry st) in
      let create_expiry := set_first (create_openings_by_expiry st) in
      match session_expiry, create_expiry with
      | None, None => Ok (st, retired)
      | _, _ =>
          let next_is_create :=
            match session_expiry, create_expiry with
            | Some s, Some c => c.1 <? s.1
            | None, _ => true
            | Some _, None => false
            end in
          next ← expect (if next_is_create then create_expiry else session_expiry);
          if now_ms <? next.1 then Ok (st, retired)
          else
            st ← (if next_is_create : bool
                  then
                    operation_id ← expect (create_opening_operations st !! next.2);
                    '(st, removed) ← remove_create_opening st operation_id;
                    assert_that (bool_decide (is_Some removed));;
                    Ok st
                  else
                    '(st, removed) ← remove_entry st next.2;
                    match removed with
                    | Some _ => Ok st
                    | None => Ok (set_entries_by_expiry st (entries_by_expiry st ∖ {[next]}))
                    end);
            retire_loop budget st now_ms (retired + 1)
      end
  end.

Definition retire_expired_entries (st : SessionRegistryState) (now_ms : Z) : step (SessionRegistryState * Z) :=
  retire_loop MAX_EXPIRED_SESSION_RETIREMENTS_PER_CALL st now_ms 0.

Definition retire_expired_create_opening_for_operation (st : SessionRegistryState)
    (operation_id : CreateFileOperationId) (now_ms : Z) : step SessionRegistryState :=
  match create_openings st !! operation_id with
  | Some opening =>
      if co_expires_at_ms opening <=? now_ms then '(st, _) ← remove_create_opening st operation_id; Ok st
      else Ok st
  | None => Ok st
  end.

Definition retire_expired_entry_for_inode (st : SessionRegistryState) (id : InodeId) (now_ms : Z)
  : step SessionRegistryState :=
  match entries st !! id with
  | Some entry => if retirement_at_ms entry <=? now_ms then '(st, _) ← remove_entry st id; Ok st else Ok st
  | None => Ok st
  end.

(** The retirement that opens most methods. *)
Definition retire_for (st : SessionRegistryState) (id : InodeId) (now_ms : Z) : step SessionRegistryState :=
  st ← retire_expired_entry_for_inode st id now_ms;
  '(st, _) ← retire_expired_entries st now_ms;
  Ok st.

(** ** Ancestor chains *)

Definition validate_ancestor_chain (id : InodeId) (ancestors : list InodeId) : result string unit :=
  reject_if (bool_decide (ancestors = [])) "write session ancestor chain cannot be empty";;
  reject_if (MAX_PATH_COMPONENTS + 1 <? Z.of_nat (length ancestors))
    "write session ancestor chain exceeds the path depth limit";;
  reject_if (bool_decide (last ancestors ≠ Some id)) "write session ancestor chain must end at the file inode";;
  reject_if (negb (bool_decide (NoDup ancestors))) "write session ancestor chain contains a cycle".

Definition validate_parent_ancestor_chain (ancestors : list InodeId) : result string unit :=
  reject_if (bool_decide (ancestors = [])) "create session parent ancestor chain cannot be empty";;
  reject_if (MAX_PATH_COMPONENTS <? Z.of_nat (length ancestors))
    "create session parent ancestor chain exceeds the path depth limit";;
  reject_if (negb (bool_decide (NoDup ancestors))) "create session parent ancestor chain contains a cycle".

(** ** Sessions by inode *)

(** [active_session_mut]. *)
Definition active_session (st : SessionRegistryState) (id : InodeId) : result string WriteSession :=
  match entries st !! id with
  | Some (Active session) => Ok session
  | Some (Opening _) => Err "write session is still opening"
  | None => Err "write session not found"
  end.

(** Writing through the reference [active_session_mut] returned. *)
Definition put_session (st : SessionRegistryState) (id : InodeId) (session : WriteSession) : SessionRegistryState :=
  set_entries st (<[id := Active session]> (entries st)).

(** ** Opening *)

Definition count_client (st : SessionRegistryState) (client : ClientId) : Z :=
  default 0 (occupied_sessions_by_client st !! client).

Definition session_count (st : SessionRegistryState) : Z :=
  Z.of_nat (size (entries st)) + Z.of_nat (size (create_openings st)).

Definition same_create_authority (input : BeginCreateSessionInput) (deadline : Z) (path : string) (mount : MountId)
    (epoch : Z) (root : InodeId) : bool :=
  bool_decide (deadline = bc_request_deadline_ms input) && bool_decide (path = bc_normalized_path input)
  && bool_decide (mount = bc_mount_id input) && bool_decide (epoch = bc_expected_mount_epoch input)
  && bool_decide (root = bc_mount_root_inode_id input).

Section registry.
Variable limits : SessionLimits.

(** What [begin_create_session_at] answers before it looks at capacity. *)
Definition existing_create (st : SessionRegistryState) (input : BeginCreateSessionInput)
  : step (option (result BeginCreateSessionError BeginCreateSession)) :=
  match active_create_operations st !! bc_operation_id input with
  | Some id =>
      match entries st !! id with
      | Some (Active session) =>
          match ws_create_replay session with
          | Some replay =>
              assert_that (bool_decide (acr_operation_id replay = bc_operation_id input));;
              Ok (Some (if same_create_authority input (acr_request_deadline_ms replay) (acr_normalized_path replay)
                             (acr_mount_id replay) (acr_expected_mount_epoch replay) (acr_mount_root_inode_id replay)
                        then Ok (BCS_Replay (acr_response replay)) else Err BCE_IdentityMismatch))
          | None => Panic
          end
      | _ => Panic
      end
  | None =>
      match create_openings st !! bc_operation_id input with
      | Some opening =>
          Ok (Some (Err (if same_create_authority input (co_request_deadline_ms opening) (co_normalized_path opening)
                              (co_mount_id opening) (co_expected_mount_epoch opening)
                              (co_mount_root_inode_id opening)
                         then BCE_Pending else BCE_IdentityMismatch)))
      | None =>
          Ok (match create_openings_by_path st !! (bc_mount_id input, bc_normalized_path input) with
              | Some _ => Some (Err BCE_PathBusy)
              | None => None
              end)
      end
  end.

Definition begin_create_session_at (st : SessionRegistryState) (input : BeginCreateSessionInput) (now_ms : Z)
  : step (SessionRegistryState * result BeginCreateSessionError BeginCreateSession) :=
  if bool_decide (op_client_id (bc_operation_id input) ≠ bc_open_client_id input) then Ok (st, Err BCE_IdentityMismatch)
  else if negb (is_ok (validate_parent_ancestor_chain (bc_parent_ancestor_inode_ids input)))
  then Ok (st, Err BCE_InvalidAncestorChain)
  else
    st ← retire_expired_create_opening_for_operation st (bc_operation_id input) now_ms;
    '(st, _) ← retire_expired_entries st now_ms;
    existing ← existing_create st input;
    match existing with
    | Some answer => Ok (st, answer)
    | None =>
        if max_sessions limits <=? session_count st
        then Ok (st, Err (BCE_LimitExceeded WSL_Global (max_sessions limits)))
        else if max_sessions_per_client limits <=? count_client st (bc_open_client_id input)
        then Ok (st, Err (BCE_LimitExceeded WSL_PerClient (max_sessions_per_client limits)))
        else
          let opening_id := next_opening_id st in
          match checked_add64 (next_opening_id st) 1 with
          | None => Ok (st, Err BCE_OpeningIdExhausted)
          | Some next =>
              let st := set_next_opening_id st next in
              let expires_at_ms := saturating_add64 now_ms (session_ttl_ms limits) in
              st ← insert_create_opening st
                     (mk_CreateOpeningSession opening_id (bc_operation_id input) (bc_request_deadline_ms input)
                        (bc_normalized_path input) (bc_mount_id input) (bc_expected_mount_epoch input)
                        (bc_mount_root_inode_id input) (bc_open_client_id input) expires_at_ms
                        (bc_parent_ancestor_inode_ids input));
              Ok (st, Ok (BCS_Reserved (mk_CreateOpening (bc_operation_id input) opening_id expires_at_ms)))
          end
    end.

Definition begin_session_at (st : SessionRegistryState) (input : BeginSessionInput) (now_ms : Z)
  : step (SessionRegistryState * result BeginSessionError WriteOpening) :=
  if negb (is_ok (validate_ancestor_chain (bi_inode_id input) (bi_ancestor_inode_ids input)))
  then Ok (st, Err BSE_InvalidAncestorChain)
  else
    st ← retire_for st (bi_inode_id input) now_ms;
    if bool_decide (is_Some (entries st !! bi_inode_id input))
       || bool_decide (is_Some (create_openings_by_path st !! (bi_mount_id input, bi_normalized_path input)))
    then Ok (st, Err BSE_Busy)
    else if max_sessions limits <=? session_count st
    then Ok (st, Err (BSE_LimitExceeded WSL_Global (max_sessions limits)))
    else if max_sessions_per_client limits <=? count_client st (bi_open_client_id input)
    then Ok (st, Err (BSE_LimitExceeded WSL_PerClient (max_sessions_per_client limits)))
    else
      match lease_checked_next (bi_current_lease_epoch input) with
      | None => Ok (st, Err BSE_LeaseEpochExhausted)
      | Some proposed =>
          let opening_id := next_opening_id st in
          match checked_add64 (next_opening_id st) 1 with
          | None => Ok (st, Err BSE_OpeningIdExhausted)
          | Some next =>
              let st := set_next_opening_id st next in
              let expires_at_ms := saturating_add64 now_ms (session_ttl_ms limits) in
              st ← insert_entry st
                     (Opening (mk_OpeningSession opening_id (bi_inode_id input) (bi_mount_id input) proposed
                                 (bi_mode input) (bi_open_client_id input) (bi_layout input) expires_at_ms
                                 (bi_ancestor_inode_ids input)));
              Ok (st, Ok (mk_WriteOpening (bi_inode_id input) opening_id proposed))
          end
      end.

(** The opening an owner still holds. *)
Definition current_opening (st : SessionRegistryState) (id : InodeId) (opening_id : Z) : option OpeningSession :=
  match entries st !! id with
  | Some (Opening opening) => if bool_decide (os_opening_id opening = opening_id) then Some opening else None
  | _ => None
  end.

Definition activate_opening (st : SessionRegistryState) (id : InodeId) (opening_id : Z)
    (returned_lease_epoch : LeaseEpoch) (now_ms : Z) (file : FileData) (tail : option LocatedBlock)
  : step (SessionRegistryState * result WriteOpeningError WriteSession) :=
  match current_opening st id opening_id with
  | None => Ok (st, Err WOE_NotCurrent)
  | Some opening =>
      if os_expires_at_ms opening <=? now_ms
      then st ← retire_expired_entry_for_inode st id now_ms; Ok (st, Err WOE_Expired)
      else if bool_decide (os_proposed_lease_epoch opening ≠ returned_lease_epoch)
      then Ok (st, Err (WOE_LeaseEpochMismatch (os_proposed_lease_epoch opening) returned_lease_epoch))
      else if bool_decide (fd_lease_epoch file ≠ returned_lease_epoch) || bool_decide (fd_layout file ≠ os_layout opening)
      then Ok (st, Err WOE_NotCurrent)
      else if bool_decide (is_Some tail) && (max_write_targets limits <=? outstanding_write_targets st)
      then Ok (st, Err WOE_TargetLimit)
      else
        let st := set_outstanding_write_targets st (outstanding_write_targets st + if tail then 1 else 0) in
        let session :=
          mk_WriteSession (os_inode_id opening) (os_mount_id opening) (os_proposed_lease_epoch opening)
            (fd_len file) (fd_generation file) (os_mode opening) (os_open_client_id opening) (os_layout opening)
            (os_expires_at_ms opening) (os_ancestor_inode_ids opening) (option_list tail) ∅ None None false None in
        let st := put_session st id session in
        n ← expect (checked_sub (opening_sessions st) 1);
        let st := set_opening_sessions st n in
        record_session_gauges st;;
        Ok (st, Ok session)
  end.

Definition activate_create_opening (st : SessionRegistryState) (operation_id : CreateFileOperationId) (opening_id : Z)
    (id : InodeId) (lease_epoch : LeaseEpoch) (expires_at_ms : Z) (layout : FileLayout)
    (generation : ContentGeneration) (now_ms : Z)
  : step (SessionRegistryState * result WriteOpeningError WriteSession) :=
  match create_openings st !! operation_id with
  | Some opening =>
      if bool_decide (co_opening_id opening ≠ opening_id) then Ok (st, Err WOE_NotCurrent)
      else if (co_expires_at_ms opening <=? now_ms) || (expires_at_ms <=? now_ms)
      then '(st, _) ← remove_create_opening st operation_id; Ok (st, Err WOE_Expired)
      else if bool_decide (lease_epoch = 0) || bool_decide (is_Some (entries st !! id))
      then Ok (st, Err WOE_NotCurrent)
      else
        let ancestors := co_parent_ancestor_inode_ids opening ++ [id] in
        if negb (is_ok (validate_ancestor_chain id ancestors)) then Ok (st, Err WOE_NotCurrent)
        else
          '(st, removed) ← remove_create_opening st operation_id;
          removed ← expect removed;
          let response := mk_CreateSessionReplay id lease_epoch layout expires_at_ms generation in
          let session :=
            mk_WriteSession id (co_mount_id removed) lease_epoch 0 generation Overwrite (co_open_client_id removed)
              layout expires_at_ms ancestors [] ∅ None None false
              (Some (mk_ActiveCreateReplay operation_id (co_request_deadline_ms removed) (co_normalized_path removed)
                       (co_mount_id removed) (co_expected_mount_epoch removed) (co_mount_root_inode_id removed)
                       response)) in
          st ← insert_entry st (Active session);
          Ok (st, Ok session)
  | None => Ok (st, Err WOE_NotCurrent)
  end.

(** ** Write targets *)

Definition next_target_file_offset (session : WriteSession) : result string Z :=
  match last (ws_issued_targets session) with
  | None => Ok (if bool_decide (ws_mode session = Overwrite) then 0 else ws_base_size session)
  | Some target => ok_or (checked_add64 (lb_file_offset target) (lb_block_size target)) "write target file offset overflow"
  end.

(** The checks of [begin_allocate_block] on the session: a replayed target, or
    layout, client and offset of a new one. *)
Definition check_allocate (session : WriteSession) (lease_epoch : LeaseEpoch) (previous : option BlockId)
  : result BeginAllocateBlockError (LocatedBlock + FileLayout * ClientId * Z) :=
  reject_if (bool_decide (ws_lease_epoch session ≠ lease_epoch)) (BAE_Session "write session lease epoch mismatch");;
  match ws_issued_steps session !! previous with
  | Some index =>
      target ← ok_or (ws_issued_targets session !! index)
                 (BAE_Internal "issued AllocateBlock target index is inconsistent");
      Ok (inl target)
  | None =>
      reject_if (bool_decide (is_Some (ws_active_publication session))) BAE_PublicationInProgress;;
      reject_if (bool_decide (previous ≠ lb_block_id <$> last (ws_issued_targets session)))
        (BAE_InvalidArgument "AllocateBlock predecessor mismatch");;
      reject_if (bool_decide (is_Some (ws_pending_allocate_block session))) BAE_Pending;;
      file_offset ← map_err BAE_InvalidArgument (next_target_file_offset session);
      reject_if (max_write_targets_per_session limits <=? Z.of_nat (length (ws_issued_targets session)))
        (BAE_LimitExceeded WTL_PerSession (max_write_targets_per_session limits));;
      Ok (inr (ws_layout session, ws_open_client_id session, file_offset))
  end.

Definition begin_allocate_block (st : SessionRegistryState) (id : InodeId) (lease_epoch : LeaseEpoch)
    (previous : option BlockId) (now_ms : Z)
  : step (SessionRegistryState * result BeginAllocateBlockError BeginAllocateBlock) :=
  st ← retire_for st id now_ms;
  let pending := mk_PendingAllocateBlock previous in
  match session ← map_err BAE_Session (active_session st id);
        checked ← check_allocate session lease_epoch previous;
        Ok (session, checked) with
  | Err e => Ok (st, Err e)
  | Panic => Panic
  | Ok (_, inl target) => Ok (st, Ok (BAB_Replay target))
  | Ok (session, inr (layout, client, file_offset)) =>
      if max_write_targets limits <=? outstanding_write_targets st
      then Ok (st, Err (BAE_LimitExceeded WTL_Global (max_write_targets limits)))
      else
        assert_that (bool_decide (ws_pending_allocate_block session = None));;
        let st := put_session st id (session_with_pending session (Some pending)) in
        outstanding ← expect (checked_add64 (outstanding_write_targets st) 1);
        let st := set_outstanding_write_targets st outstanding in
        pending_count ← expect (checked_add64 (pending_write_targets st) 1);
        let st := set_pending_write_targets st pending_count in
        record_write_target_gauges st;;
        Ok (st, Ok (BAB_Reserved (mk_WriteTargetReservation id lease_epoch pending layout client file_offset)))
  end.

Definition validate_write_target (session : WriteSession) (lease_epoch : LeaseEpoch) (target : LocatedBlock)
  : result string unit :=
  reject_if (bool_decide (block_inode_id (lb_block_id target) ≠ ws_inode_id session)) "write target inode mismatch";;
  reject_if (bool_decide (ft_block_id (lb_fencing_token target) ≠ lb_block_id target)
             || bool_decide (ft_owner (lb_fencing_token target) ≠ ws_open_client_id session)
             || bool_decide (ft_epoch (lb_fencing_token target) ≠ lease_epoch))
    "write target fencing token mismatch";;
  next_file_offset ← next_target_file_offset session;
  reject_if (bool_decide (lb_file_offset target ≠ next_file_offset)) "write target file offset changed";;
  target_shape ← map_err (fun _ => "invalid write target shape"%string)
                   (block_shape_new (lb_block_format_id target) (lb_block_size target) (lb_chunk_size target)
                      (lb_block_size target));
  expected_shape ← map_err (fun _ => "invalid session layout shape"%string)
                     (block_shape_for_effective_len (ws_layout session) (fl_block_size (ws_layout session)));
  reject_if (bool_decide (target_shape ≠ expected_shape)) "write target shape does not match the session layout";;
  reject_if (bool_decide (lb_write_offset target ≠ 0)) "new block must start at offset zero".

(** The matching pending step of an owner. *)
Definition holds_pending (st : SessionRegistryState) (id : InodeId) (lease_epoch : LeaseEpoch)
    (pending : PendingAllocateBlock) : option WriteSession :=
  match entries st !! id with
  | Some (Active session) =>
      if bool_decide (ws_lease_epoch session = lease_epoch)
         && bool_decide (ws_pending_allocate_block session = Some pending)
      then Some session else None
  | _ => None
  end.

Definition cancel_write_target_locked (st : SessionRegistryState) (id : InodeId) (lease_epoch : LeaseEpoch)
    (pending : PendingAllocateBlock) : step (SessionRegistryState * bool) :=
  match holds_pending st id lease_epoch pending with
  | None => Ok (st, false)
  | Some session =>
      let st := put_session st id (session_with_pending session None) in
      outstanding ← expect (checked_sub (outstanding_write_targets st) 1);
      let st := set_outstanding_write_targets st outstanding in
      pending_count ← expect (checked_sub (pending_write_targets st) 1);
      let st := set_pending_write_targets st pending_count in
      record_write_target_gauges st;;
      Ok (st, true)
  end.

(** [cancel_write_target], which dropping an armed reservation runs. *)
Definition cancel_write_target (st : SessionRegistryState) (r : WriteTargetReservation) : step SessionRegistryState :=
  '(st, _) ← cancel_write_target_locked st (wr_inode_id r) (wr_lease_epoch r) (wr_pending r);
  Ok st.

Definition complete_write_target (st : SessionRegistryState) (id : InodeId) (lease_epoch : LeaseEpoch)
    (pending : PendingAllocateBlock) (target : LocatedBlock) (now_ms : Z)
  : step (SessionRegistryState * result CompleteWriteTargetError LocatedBlock) :=
  st ← retire_for st id now_ms;
  match holds_pending st id lease_epoch pending with
  | None => Ok (st, Err CTE_NotCurrent)
  | Some session =>
      match validate_write_target session lease_epoch target with
      | Err e =>
          '(st, _) ← cancel_write_target_locked st id lease_epoch pending;
          Ok (st, Err (CTE_InvalidTarget e))
      | Panic => Panic
      | Ok _ =>
          let index := length (ws_issued_targets session) in
          assert_that (bool_decide (ws_issued_steps session !! pa_previous_block_id pending = None));;
          let session := session_with_targets session (ws_issued_targets session ++ [target])
                           (<[pa_previous_block_id pending := index]> (ws_issued_steps session)) in
          let st := put_session st id (session_with_pending session None) in
          pending_count ← expect (checked_sub (pending_write_targets st) 1);
          let st := set_pending_write_targets st pending_count in
          record_write_target_gauges st;;
          Ok (st, Ok target)
      end
  end.

(** ** Publications *)

Definition begin_publication (st : SessionRegistryState) (id : InodeId) (lease_epoch : LeaseEpoch) (now_ms : Z)
  : step (SessionRegistryState * result BeginWritePublicationError WritePublication) :=
  st ← retire_for st id now_ms;
  match session ← map_err BPE_Session (active_session st id);
        reject_if (bool_decide (ws_lease_epoch session ≠ lease_epoch)) (BPE_Session "write session lease epoch mismatch");;
        reject_if (bool_decide (is_Some (ws_pending_allocate_block session))) BPE_AllocateBlockPending;;
        reject_if (bool_decide (is_Some (ws_active_publication session))) BPE_PublicationInProgress;;
        Ok session with
  | Err e => Ok (st, Err e)
  | Panic => Panic
  | Ok session =>
      let publication_id := next_publication_id st in
      match checked_add64 (next_publication_id st) 1 with
      | None => Ok (st, Err BPE_PublicationIdExhausted)
      | Some next =>
          let st := set_next_publication_id st next in
          assert_that (bool_decide (ws_active_publication session = None));;
          let session := session_with_publication session (Some publication_id) (ws_publication_submitted session) in
          Ok (put_session st id session, Ok (mk_WritePublication session publication_id false))
      end
  end.

(** The session an exact publication still owns. *)
Definition owned_publication (st : SessionRegistryState) (id : InodeId) (lease_epoch : LeaseEpoch) (publication_id : Z)
  : result string WriteSession :=
  session ← active_session st id;
  reject_if (bool_decide (ws_lease_epoch session ≠ lease_epoch)) "write session lease epoch mismatch";;
  reject_if (bool_decide (ws_active_publication session ≠ Some publication_id)) "write publication is no longer current";;
  Ok session.

Definition revalidate_publication (st : SessionRegistryState) (id : InodeId) (lease_epoch : LeaseEpoch)
    (publication_id now_ms : Z) : step (SessionRegistryState * result string WriteSession) :=
  st ← retire_for st id now_ms;
  Ok (st, owned_publication st id lease_epoch publication_id).

Definition mark_submitted (st : SessionRegistryState) (p : WritePublication) (now_ms : Z)
  : step (SessionRegistryState * result string WritePublication) :=
  let frozen := wp_session p in
  let id := ws_inode_id frozen in
  if wp_submitted p then Ok (st, Ok p)
  else if bool_decide (lease_checked_next (ws_lease_epoch frozen) = None)
  then Ok (st, Err "file publication write lease epoch exhausted"%string)
  else
    match active_session st id with
    | Err e => Ok (st, Err e)
    | Panic => Panic
    | Ok session =>
        if bool_decide (ws_lease_epoch session ≠ ws_lease_epoch frozen)
           || bool_decide (ws_active_publication session ≠ Some (wp_publication_id p))
           || (ws_expires_at_ms session <=? now_ms)
        then Ok (st, Err "file publication session changed or expired before submission"%string)
        else
          let st := put_session st id (session_with_publication session (ws_active_publication session) true) in
          st ← move_expiry_indexes st id (ws_ancestor_inode_ids session) (ws_expires_at_ms session) u64_max;
          Ok (st, Ok (mk_WritePublication frozen (wp_publication_id p) true))
    end.

Definition release_sync_publication (st : SessionRegistryState) (id : InodeId) : step SessionRegistryState :=
  match active_session st id with
  | Ok session =>
      let st := put_session st id (session_with_publication session None false) in
      if ws_publication_submitted session
      then move_expiry_indexes st id (ws_ancestor_inode_ids session) u64_max (ws_expires_at_ms session)
      else Ok st
  | _ => Panic
  end.

(** [partition_point]: the issued targets are in file order, so the targets below
    the published end form a prefix. *)
Fixpoint targets_below (targets : list LocatedBlock) (file_size : Z) : nat :=
  match targets with
  | target :: rest => if lb_file_offset target <? file_size then S (targets_below rest file_size) else O
  | [] => O
  end.

Definition complete_sync_publication (st : SessionRegistryState) (id : InodeId) (lease_epoch : LeaseEpoch)
    (publication_id : Z) (generation : ContentGeneration) (file_size now_ms : Z)
  : step (SessionRegistryState * result string unit) :=
  st ← retire_for st id now_ms;
  match owned_publication st id lease_epoch publication_id with
  | Err e => Ok (st, Err e)
  | Panic => Panic
  | Ok session =>
      if bool_decide (ws_generation session = generation)
      then
        if bool_decide (ws_base_size session ≠ file_size) then Ok (st, Err "replayed SyncWrite size changed"%string)
        else
          let st := put_session st id (session_with_content session (ws_base_size session) (ws_generation session) Append) in
          st ← release_sync_publication st id;
          Ok (st, Ok tt)
      else
        match generation_checked_next (ws_generation session) with
        | None => Ok (st, Err "content generation overflow"%string)
        | Some expected =>
            if bool_decide (generation ≠ expected) then Ok (st, Err "SyncWrite content generation changed"%string)
            else
              let retained := targets_below (ws_issued_targets session) file_size in
              let removed := Z.of_nat (length (ws_issued_targets session) - retained) in
              let session' := session_with_targets session (take retained (ws_issued_targets session))
                                (filter (fun e => (e.2 < retained)%nat) (ws_issued_steps session)) in
              let session' := session_with_content session' file_size generation Append in
              let session' := session_with_publication session' None (ws_publication_submitted session) in
              let st := put_session st id session' in
              outstanding ← expect (checked_sub (outstanding_write_targets st) removed);
              let st := set_outstanding_write_targets st outstanding in
              st ← release_sync_publication st id;
              record_write_target_gauges st;;
              Ok (st, Ok tt)
        end
  end.

Definition complete_commit_publication (st : SessionRegistryState) (id : InodeId) (lease_epoch : LeaseEpoch)
    (publication_id : Z) : step SessionRegistryState :=
  match owned_publication st id lease_epoch publication_id with
  | Ok _ => '(st, _) ← remove_entry st id; Ok st
  | _ => Ok st
  end.

Definition cancel_publication (st : SessionRegistryState) (id : InodeId) (lease_epoch : LeaseEpoch)
    (publication_id : Z) : SessionRegistryState :=
  match owned_publication st id lease_epoch publication_id with
  | Ok session => put_session st id (session_with_publication session None (ws_publication_submitted session))
  | _ => st
  end.

(** ** Queries, renewal, removal *)

Definition get_session (st : SessionRegistryState) (id : InodeId) (now_ms : Z)
  : step (SessionRegistryState * option WriteSession) :=
  st ← retire_for st id now_ms;
  Ok (st, match entries st !! id with Some (Active session) => Some session | _ => None end).

Definition get_session_identity (st : SessionRegistryState) (id : InodeId) (now_ms : Z)
  : step (SessionRegistryState * option WriteSessionIdentity) :=
  st ← retire_for st id now_ms;
  Ok (st, match entries st !! id with
          | Some (Active session) =>
              Some (mk_WriteSessionIdentity (ws_mount_id session) (ws_lease_epoch session) (ws_open_client_id session))
          | _ => None
          end).

Definition remove_session_if_epoch (st : SessionRegistryState) (id : InodeId) (lease_epoch : LeaseEpoch)
  : step (SessionRegistryState * option WriteSession) :=
  match entries st !! id with
  | Some (Active session) =>
      if bool_decide (ws_lease_epoch session = lease_epoch)
      then
        '(st, removed) ← remove_entry st id;
        match removed with Some (Active session) => Ok (st, Some session) | _ => Panic end
      else Ok (st, None)
  | _ => Ok (st, None)
  end.

(** The entry test that opens [validate_session] and [renew_session_at]. *)
Definition retire_if_expired (st : SessionRegistryState) (id : InodeId) (now_ms : Z)
  : step (SessionRegistryState * bool) :=
  match entries st !! id with
  | Some entry =>
      if entry_expires_at_ms entry <=? now_ms
      then st ← retire_expired_entry_for_inode st id now_ms; Ok (st, true)
      else '(st, _) ← retire_expired_entries st now_ms; Ok (st, false)
  | None => '(st, _) ← retire_expired_entries st now_ms; Ok (st, false)
  end.

Definition validate_session (st : SessionRegistryState) (id : InodeId) (lease_epoch : LeaseEpoch) (now_ms : Z)
  : step (SessionRegistryState * result WriteSessionError unit) :=
  '(st, expired) ← retire_if_expired st id now_ms;
  Ok (st,
      if expired : bool then Err WSE_Expired
      else match entries st !! id with
           | Some (Active session) =>
               reject_if (bool_decide (ws_lease_epoch session ≠ lease_epoch))
                 (WSE_LeaseEpochMismatch (ws_lease_epoch session) lease_epoch)
           | _ => Err WSE_NotFound
           end).

Definition renew_session_at (st : SessionRegistryState) (id : InodeId) (lease_epoch : LeaseEpoch) (client : ClientId)
    (now_ms : Z) : step (SessionRegistryState * result WriteSessionError Z) :=
  '(st, expired) ← retire_if_expired st id now_ms;
  if expired : bool then Ok (st, Err WSE_Expired)
  else
    match entries st !! id with
    | Some (Active session) =>
        if bool_decide (ws_lease_epoch session ≠ lease_epoch)
        then Ok (st, Err (WSE_LeaseEpochMismatch (ws_lease_epoch session) lease_epoch))
        else if bool_decide (ws_open_client_id session ≠ client) then Ok (st, Err WSE_OwnerMismatch)
        else
          let previous := ws_expires_at_ms session in
          let expires_at_ms := Z.max (saturating_add64 now_ms (session_ttl_ms limits)) previous in
          st ← (if ws_publication_submitted session then Ok st
                else move_expiry_indexes st id (ws_ancestor_inode_ids session) previous expires_at_ms);
          Ok (put_session st id (session_with_expiry session expires_at_ms), Ok expires_at_ms)
    | _ => Ok (st, Err WSE_NotFound)
    end.

Definition retire_expired_batch (st : SessionRegistryState) (now_ms : Z) : step (SessionRegistryState * Z) :=
  retire_expired_entries st now_ms.

Definition has_active_write_under_at (st : SessionRegistryState) (id : InodeId) (now_ms : Z)
  : step (SessionRegistryState * bool) :=
  '(st, _) ← retire_expired_entries st now_ms;
  Ok (st, match ancestor_activity st !! id ≫= last_key with
          | Some expires_at_ms => now_ms <? expires_at_ms
          | None => false
          end).

Definition has_active_write (st : SessionRegistryState) (id : InodeId) (now_ms : Z)
  : step (SessionRegistryState * bool) := has_active_write_under_at st id now_ms.

(** ** Owners

    Dropping an armed owner runs its cancellation; an owner's last method does so
    unless it disarmed the owner. *)

Definition cancel_opening (st : SessionRegistryState) (o : WriteOpening) : step SessionRegistryState :=
  match current_opening st (wo_inode_id o) (wo_opening_id o) with
  | Some _ => '(st, _) ← remove_entry st (wo_inode_id o); Ok st
  | None => Ok st
  end.

Definition cancel_create_opening (st : SessionRegistryState) (o : CreateOpening) : step SessionRegistryState :=
  match create_openings st !! cro_operation_id o with
  | Some opening =>
      if bool_decide (co_opening_id opening = cro_opening_id o)
      then '(st, _) ← remove_create_opening st (cro_operation_id o); Ok st
      else Ok st
  | None => Ok st
  end.

(** [WriteOpening::activate]. *)
Definition write_opening_activate (st : SessionRegistryState) (o : WriteOpening) (returned : LeaseEpoch) (now_ms : Z)
    (file : FileData) (tail : option LocatedBlock)
  : step (SessionRegistryState * result WriteOpeningError WriteSession) :=
  '(st, res) ← activate_opening st (wo_inode_id o) (wo_opening_id o) returned now_ms file tail;
  match res with
  | Ok _ | Err WOE_NotCurrent | Err WOE_Expired => Ok (st, res)
  | _ => st ← cancel_opening st o; Ok (st, res)
  end.

(** [CreateOpening::activate]. *)
Definition create_opening_activate (st : SessionRegistryState) (o : CreateOpening) (id : InodeId)
    (lease_epoch : LeaseEpoch) (expires_at_ms : Z) (layout : FileLayout) (generation : ContentGeneration) (now_ms : Z)
  : step (SessionRegistryState * result WriteOpeningError WriteSession) :=
  '(st, res) ← activate_create_opening st (cro_operation_id o) (cro_opening_id o) id lease_epoch expires_at_ms
                 layout generation now_ms;
  match res with
  | Ok _ => Ok (st, res)
  | _ => st ← cancel_create_opening st o; Ok (st, res)
  end.

(** [WriteTargetReservation::complete]. *)
Definition reservation_complete (st : SessionRegistryState) (r : WriteTargetReservation) (target : LocatedBlock)
    (now_ms : Z) : step (SessionRegistryState * result CompleteWriteTargetError LocatedBlock) :=
  complete_write_target st (wr_inode_id r) (wr_lease_epoch r) (wr_pending r) target now_ms.

(** Dropping a publication: a submitted owner keeps its protection. *)
Definition drop_publication (st : SessionRegistryState) (p : WritePublication) : SessionRegistryState :=
  if wp_submitted p then st
  else cancel_publication st (ws_inode_id (wp_session p)) (ws_lease_epoch (wp_session p)) (wp_publication_id p).

(** [WritePublication::revalidate]. *)
Definition publication_revalidate (st : SessionRegistryState) (p : WritePublication) (now_ms : Z)
  : step (SessionRegistryState * result string WriteSession) :=
  revalidate_publication st (ws_inode_id (wp_session p)) (ws_lease_epoch (wp_session p)) (wp_publication_id p) now_ms.

(** [WritePublication::complete_sync]. *)
Definition publication_complete_sync (st : SessionRegistryState) (p : WritePublication)
    (generation : ContentGeneration) (file_size now_ms : Z) : step (SessionRegistryState * result string unit) :=
  '(st, res) ← complete_sync_publication st (ws_inode_id (wp_session p)) (ws_lease_epoch (wp_session p))
                 (wp_publication_id p) generation file_size now_ms;
  Ok (if is_ok res then st else drop_publication st p, res).

(** [WritePublication::complete_commit]. *)
Definition publication_complete_commit (st : SessionRegistryState) (p : WritePublication) : step SessionRegistryState :=
  complete_commit_publication st (ws_inode_id (wp_session p)) (ws_lease_epoch (wp_session p)) (wp_publication_id p).
End registry.
