(* ===== verification/SessionInv.v ===== *)
(** * The indexes of the session registry

    Every index of [SessionRegistryState] is a function of the two primary maps.
    The invariant says so, and each internal update of the registry keeps it and
    never runs into one of its assertions. *)

From S2P Require Import Prelude Types Errors Inode Mount Store Namespace Session.
Local Open Scope Z_scope.

(** ** Sums over maps *)

Definition msum {K A} `{Countable K} (f : A -> Z) (m : gmap K A) : Z := map_fold (fun _ a acc => f a + acc) 0 m.

Section msum.
Context {K A : Type} `{Countable K}.
Implicit Types (m : gmap K A) (f : A -> Z).

Lemma msum_empty f : msum f (∅ : gmap K A) = 0.
Proof. done. Qed.

Lemma msum_insert f m k a : m !! k = None -> msum f (<[k := a]> m) = f a + msum f m.
Proof. intros Hk. unfold msum. rewrite map_fold_insert_L; [done| |done]. intros. lia. Qed.

Lemma msum_delete f m k a : m !! k = Some a -> msum f (delete k m) = msum f m - f a.
Proof.
  intros Hk. pose proof (insert_delete_id _ _ _ Hk) as E.
  assert (msum f m = f a + msum f (delete k m)) as ->; [|lia].
  rewrite <- E at 1. apply msum_insert. apply lookup_delete_eq.
Qed.

Lemma msum_replace f m k a b : m !! k = Some a -> msum f (<[k := b]> m) = msum f m - f a + f b.
Proof.
  intros Hk. rewrite <- (insert_delete_eq m k b), msum_insert by apply lookup_delete_eq.
  rewrite (msum_delete _ _ _ _ Hk). lia.
Qed.

Lemma msum_le f g m : (forall k a, m !! k = Some a -> f a <= g a) -> msum f m <= msum g m.
Proof.
  induction m as [|k a m Hk IH] using map_ind; intros Hfg; [done|].
  rewrite !msum_insert by done. assert (f a <= g a) by (apply (Hfg k); apply lookup_insert_eq).
  assert (msum f m <= msum g m); [|lia]. apply IH. intros k' a' Hl. apply (Hfg k').
  rewrite lookup_insert_ne; [done|congruence].
Qed.

Lemma msum_const m : msum (fun _ => 1) m = Z.of_nat (size m).
Proof.
  induction m as [|k a m Hk IH] using map_ind; [done|]. rewrite msum_insert, map_size_insert_None by done. lia.
Qed.

Lemma msum_zero m : msum (fun _ => 0) m = 0.
Proof. induction m as [|k a m Hk IH] using map_ind; [done|]. rewrite msum_insert by done. lia. Qed.

Lemma msum_nonneg f m : (forall k a, m !! k = Some a -> 0 <= f a) -> 0 <= msum f m.
Proof. intros Hf. rewrite <- (msum_zero m). by apply msum_le. Qed.

Lemma msum_lookup f m k a : (forall k a, m !! k = Some a -> 0 <= f a) -> m !! k = Some a -> f a <= msum f m.
Proof.
  intros Hf Hk. pose proof (msum_delete f _ _ _ Hk). assert (0 <= msum f (delete k m)); [|lia].
  apply msum_nonneg. intros k' a' [_ Hl]%lookup_delete_Some. by eapply Hf.
Qed.

Lemma msum_pos f m : (forall k a, m !! k = Some a -> 0 <= f a) ->
  0 < msum f m <-> exists k a, m !! k = Some a /\ 0 < f a.
Proof.
  intros Hf. split.
  - induction m as [|k a m Hk IH] using map_ind; [unfold msum; rewrite map_fold_empty; lia|].
    rewrite msum_insert by done. intros Hpos. destruct (decide (0 < f a)) as [Ha|Ha].
    + exists k, a. rewrite lookup_insert_eq. done.
    + destruct IH as (k' & a' & Hl & ?).
      * intros k' a' Hl. apply (Hf k'). rewrite lookup_insert_ne; [done|congruence].
      * lia.
      * exists k', a'. rewrite lookup_insert_ne; [done|congruence].
  - intros (k & a & Hk & Ha). pose proof (msum_lookup f m k a Hf Hk). lia.
Qed.
End msum.

(** ** Counting maps *)

(** [m] stores the positive values of [f] and nothing else. *)
Definition sparse {K} `{Countable K} (m : gmap K Z) (f : K -> Z) : Prop :=
  forall k, m !! k = if bool_decide (f k = 0) then None else Some (f k).

(** One at [k]. *)
Definition at_key {K} `{EqDecision K} (k j : K) : Z := if bool_decide (j = k) then 1 else 0.

Section sparse.
Context {K : Type} `{Countable K}.
Implicit Types (m : gmap K Z) (f g : K -> Z).

Lemma at_key_eq (k : K) : at_key k k = 1.
Proof. unfold at_key. by rewrite bool_decide_eq_true_2. Qed.
Lemma at_key_ne (k j : K) : j <> k -> at_key k j = 0.
Proof. intros. unfold at_key. by rewrite bool_decide_eq_false_2. Qed.

Lemma sparse_ext m f g : sparse m f -> (forall k, f k = g k) -> sparse m g.
Proof. intros Hs E k. by rewrite <- E. Qed.

Lemma sparse_default m f k : sparse m f -> default 0 (m !! k) = f k.
Proof. intros Hs. rewrite Hs. case_bool_decide; simpl; lia. Qed.

Lemma sparse_empty f : (forall k, f k = 0) -> sparse (∅ : gmap K Z) f.
Proof. intros Hf k. rewrite lookup_empty, Hf. done. Qed.

Lemma sparse_increment m f k : 0 <= f k -> sparse m f -> sparse (increment m k) (fun j => f j + at_key k j).
Proof.
  intros Hf Hs j. unfold increment. rewrite (sparse_default _ _ k Hs). destruct (decide (j = k)) as [->|Hne].
  - rewrite lookup_insert_eq, at_key_eq, bool_decide_eq_false_2 by lia. done.
  - rewrite lookup_insert_ne, Hs, at_key_ne by done. by rewrite Z.add_0_r.
Qed.

Lemma sparse_put m f k v : 0 <= v -> sparse m f ->
  sparse (if bool_decide (v = 0) then delete k m else <[k := v]> m) (fun j => if bool_decide (j = k) then v else f j).
Proof.
  intros Hv Hs j. destruct (decide (j = k)) as [->|Hne].
  - rewrite (bool_decide_eq_true_2 (k = k)) by done. case_bool_decide; [by rewrite lookup_delete_eq|].
    by rewrite lookup_insert_eq.
  - rewrite (bool_decide_eq_false_2 (j = k)) by done.
    case_bool_decide; [rewrite lookup_delete_ne by done|rewrite lookup_insert_ne by done]; apply Hs.
Qed.
End sparse.

Lemma decrement_ok m f e :
  0 < f e -> sparse m f ->
  exists m', decrement_expiry_count m e = Ok m' /\ sparse m' (fun t => f t - at_key e t).
Proof.
  intros Hf Hs. unfold decrement_expiry_count. rewrite (Hs e), bool_decide_eq_false_2 by lia. simpl.
  eexists. split; [done|]. eapply sparse_ext; [apply (sparse_put m f e (f e - 1)); [lia|done]|].
  intros t. simpl. unfold at_key. case_bool_decide; subst; lia.
Qed.

(** The activity of every ancestor. *)
Definition nested (m : gmap InodeId (gmap Z Z)) (F : InodeId -> Z -> Z) : Prop :=
  forall a, match m !! a with
            | Some inner => inner <> ∅ /\ sparse inner (F a)
            | None => forall t, F a t = 0
            end.

Lemma nested_ext m F G : nested m F -> (forall a t, F a t = G a t) -> nested m G.
Proof.
  intros Hn E a. specialize (Hn a). destruct (m !! a).
  - destruct Hn as [Hne Hs]. split; [done|]. by eapply sparse_ext.
  - intros t. by rewrite <- E.
Qed.

Lemma nested_inner m F a : nested m F -> sparse (default ∅ (m !! a)) (F a).
Proof.
  intros Hn. specialize (Hn a). destruct (m !! a) as [inner|]; simpl; [apply Hn|by apply sparse_empty].
Qed.

Definition at_pair (a : InodeId) (e : Z) (b : InodeId) (t : Z) : Z := if bool_decide (b = a) then at_key e t else 0.

Lemma nested_put m F a inner G :
  nested m F -> inner <> ∅ -> sparse inner G ->
  nested (<[a := inner]> m) (fun b t => if bool_decide (b = a) then G t else F b t).
Proof.
  intros Hn Hne Hs b. destruct (decide (b = a)) as [->|Hb].
  - rewrite lookup_insert_eq. split; [done|]. eapply sparse_ext; [done|]. intros t. by rewrite bool_decide_eq_true_2.
  - rewrite lookup_insert_ne by done. specialize (Hn b). destruct (m !! b).
    + destruct Hn as [? Hs']. split; [done|]. eapply sparse_ext; [done|]. intros t. by rewrite bool_decide_eq_false_2.
    + intros t. by rewrite bool_decide_eq_false_2.
Qed.

Lemma increment_nonempty {K} `{Countable K} (m : gmap K Z) k : increment m k <> ∅.
Proof. apply insert_non_empty. Qed.

Lemma activity_add_ok m F a e :
  (forall b t, 0 <= F b t) -> nested m F -> nested (activity_add e m a) (fun b t => F b t + at_pair a e b t).
Proof.
  intros HF Hn. unfold activity_add. eapply nested_ext.
  - apply nested_put; [done|apply increment_nonempty|]. apply sparse_increment; [apply HF|]. by apply nested_inner.
  - intros b t. unfold at_pair. simpl. case_bool_decide; subst; lia.
Qed.

Lemma activity_remove_ok m F a e :
  0 < F a e -> nested m F ->
  exists m', activity_remove e m a = Ok m' /\ nested m' (fun b t => F b t - at_pair a e b t).
Proof.
  intros HF Hn. pose proof (Hn a) as Ha. unfold activity_remove.
  destruct (m !! a) as [inner|] eqn:Hm; [|by rewrite Ha in HF]. destruct Ha as [_ Hs]. simpl.
  destruct (decrement_ok inner (F a) e HF Hs) as (inner' & -> & Hs'). simpl. eexists. split; [done|].
  case_bool_decide as He.
  - subst inner'. intros b. destruct (decide (b = a)) as [->|Hb].
    + rewrite lookup_delete_eq. intros t. specialize (Hs' t). rewrite lookup_empty in Hs'. unfold at_pair.
      rewrite (bool_decide_eq_true_2 (a = a)) by done. revert Hs'. by case_bool_decide.
    + rewrite lookup_delete_ne by done. unfold at_pair. specialize (Hn b). rewrite bool_decide_eq_false_2 by done.
      destruct (m !! b); [split; [apply Hn|]|intros t; rewrite (Hn t); lia].
      eapply sparse_ext; [apply Hn|]. intros t. lia.
  - eapply nested_ext; [by apply nested_put|]. intros b t. simpl. unfold at_pair. case_bool_decide; subst; lia.
Qed.

Lemma activity_move_ok m F a p n :
  (forall b t, 0 <= F b t) -> 0 < F a p -> nested m F ->
  exists m', activity_move p n m a = Ok m' /\
    nested m' (fun b t => F b t - at_pair a p b t + at_pair a n b t).
Proof.
  intros H0 HF Hn. pose proof (Hn a) as Ha. unfold activity_move.
  destruct (m !! a) as [inner|] eqn:Hm; [|by rewrite Ha in HF]. destruct Ha as [_ Hs]. simpl.
  destruct (decrement_ok inner (F a) p HF Hs) as (inner' & -> & Hs'). simpl. eexists. split; [done|].
  eapply nested_ext.
  - apply nested_put; [done|apply increment_nonempty|]. apply sparse_increment; [|done].
    unfold at_key. specialize (H0 a n). case_bool_decide; [subst|]; lia.
  - intros b t. simpl. unfold at_pair. case_bool_decide; subst; lia.
Qed.

(** Occurrences in an ancestor chain. *)
Fixpoint occ (a : InodeId) (l : list InodeId) : Z :=
  match l with [] => 0 | b :: l => at_key b a + occ a l end.

Lemma occ_nonneg a l : 0 <= occ a l.
Proof. induction l as [|b l IH]; simpl; [lia|]. unfold at_key. case_bool_decide; lia. Qed.

Lemma occ_pos a l : 0 < occ a l <-> a ∈ l.
Proof.
  induction l as [|b l IH]; simpl; [split; [lia|set_solver]|]. rewrite elem_of_cons, <- IH.
  pose proof (occ_nonneg a l). unfold at_key. case_bool_decide; subst; split; intros; first [lia|naive_solver lia].
Qed.

(** [l] below expiry [e], as a function of ancestor and time. *)
Definition chain (l : list InodeId) (e : Z) (a : InodeId) (t : Z) : Z := if bool_decide (t = e) then occ a l else 0.

Lemma chain_cons b l e a t : chain (b :: l) e a t = at_pair b e a t + chain l e a t.
Proof.
  unfold chain, at_pair, at_key. simpl. unfold at_key. repeat case_bool_decide; subst; simplify_eq; lia.
Qed.

Lemma chain_nonneg l e a t : 0 <= chain l e a t.
Proof. unfold chain. pose proof (occ_nonneg a l). case_bool_decide; lia. Qed.

Lemma chain_pos b l e : 0 < chain (b :: l) e b e.
Proof. rewrite chain_cons. unfold at_pair, at_key. rewrite !bool_decide_eq_true_2 by done. pose proof (chain_nonneg l e b e). lia. Qed.

Lemma add_chain_ok m F l e :
  (forall b t, 0 <= F b t) -> nested m F ->
  nested (foldl (activity_add e) m l) (fun a t => F a t + chain l e a t).
Proof.
  revert m F. induction l as [|b l IH]; intros m F HF Hn; simpl.
  - eapply nested_ext; [done|]. intros a t. unfold chain. simpl. case_bool_decide; lia.
  - eapply nested_ext; [apply IH; [|by apply activity_add_ok]|].
    + intros a t. specialize (HF a t). unfold at_pair, at_key. repeat case_bool_decide; lia.
    + intros a t. simpl. rewrite chain_cons. lia.
Qed.

Lemma remove_chain_ok m F l e :
  nested m F -> (forall a t, chain l e a t <= F a t) ->
  exists m', each (activity_remove e) m l = Ok m' /\ nested m' (fun a t => F a t - chain l e a t).
Proof.
  revert m F. induction l as [|b l IH]; intros m F Hn HF; simpl.
  - eexists. split; [done|]. eapply nested_ext; [done|]. intros a t. unfold chain. simpl. case_bool_decide; lia.
  - destruct (activity_remove_ok m F b e) as (m1 & -> & Hn1); [|done|].
    { specialize (HF b e). pose proof (chain_pos b l e). lia. }
    simpl. edestruct IH as (m2 & -> & Hn2); [exact Hn1| |].
    + intros a t. specialize (HF a t). rewrite chain_cons in HF. simpl. lia.
    + eexists. split; [done|]. eapply nested_ext; [done|]. intros a t. simpl. rewrite chain_cons. lia.
Qed.

Lemma move_chain_ok m F l p n :
  nested m F -> (forall a t, chain l p a t <= F a t) ->
  exists m', each (activity_move p n) m l = Ok m' /\
    nested m' (fun a t => F a t - chain l p a t + chain l n a t).
Proof.
  revert m F. induction l as [|b l IH]; intros m F Hn HF; simpl.
  - eexists. split; [done|]. eapply nested_ext; [done|]. intros a t. unfold chain. simpl. repeat case_bool_decide; lia.
  - destruct (activity_move_ok m F b p n) as (m1 & -> & Hn1); [| |done|].
    { intros a t. specialize (HF a t). pose proof (chain_nonneg (b :: l) p a t). lia. }
    { specialize (HF b p). pose proof (chain_pos b l p). lia. }
    simpl. edestruct IH as (m2 & -> & Hn2); [exact Hn1| |].
    + intros a t. specialize (HF a t). rewrite chain_cons in HF. simpl. unfold at_pair at 2, at_key. repeat case_bool_decide; lia.
    + eexists. split; [done|]. eapply nested_ext; [done|]. intros a t. simpl. rewrite !chain_cons. lia.
Qed.

(** ** The invariant *)

Definition client_of (c : ClientId) (e : WriteSessionEntry) : Z := at_key (entry_client_id e) c.
Definition create_client_of (c : ClientId) (o : CreateOpeningSession) : Z := at_key (co_open_client_id o) c.
Definition below (a : InodeId) (t : Z) (e : WriteSessionEntry) : Z :=
  chain (entry_ancestor_inode_ids e) (retirement_at_ms e) a t.
Definition create_below (a : InodeId) (t : Z) (o : CreateOpeningSession) : Z :=
  chain (co_parent_ancestor_inode_ids o) (co_expires_at_ms o) a t.
Definition opening_bit (e : WriteSessionEntry) : Z := if is_opening e then 1 else 0.
Definition create_path (o : CreateOpeningSession) : MountId * string := (co_mount_id o, co_normalized_path o).

Record registry_inv (st : SessionRegistryState) : Prop := {
  ri_entries : forall id e, entries st !! id = Some e -> entry_inode_id e = id;
  ri_creates : forall op o, create_openings st !! op = Some o ->
    co_operation_id o = op /\ co_opening_id o < next_opening_id st;
  ri_clients : sparse (occupied_sessions_by_client st)
    (fun c => msum (client_of c) (entries st) + msum (create_client_of c) (create_openings st));
  ri_activity : nested (ancestor_activity st)
    (fun a t => msum (below a t) (entries st) + msum (create_below a t) (create_openings st));
  ri_expiry : forall t id, (t, id) ∈ entries_by_expiry st <->
    exists e, entries st !! id = Some e /\ retirement_at_ms e = t;
  ri_create_expiry : forall t n, (t, n) ∈ create_openings_by_expiry st <->
    exists op o, create_openings st !! op = Some o /\ co_expires_at_ms o = t /\ co_opening_id o = n;
  ri_operations : forall n op, create_opening_operations st !! n = Some op <->
    exists o, create_openings st !! op = Some o /\ co_opening_id o = n;
  ri_paths : forall k op, create_openings_by_path st !! k = Some op <->
    exists o, create_openings st !! op = Some o /\ create_path o = k;
  ri_active : forall op id, active_create_operations st !! op = Some id <->
    exists e, entries st !! id = Some e /\ create_operation e = Some op;
  ri_disjoint : forall op, is_Some (create_openings st !! op) -> active_create_operations st !! op = None;
  ri_opening : opening_sessions st = msum opening_bit (entries st);
  ri_outstanding : outstanding_write_targets st = msum owned_targets (entries st);
  ri_pending : pending_write_targets st = msum pending_targets (entries st)
}.

Lemma registry_default_inv : registry_inv registry_default.
Proof.
  split; simpl; try done.
  - intros a. rewrite lookup_empty. done.
  - intros t id. rewrite lookup_empty. set_solver.
  - intros t n. split; [set_solver|]. intros (? & ? & H & _). by rewrite lookup_empty in H.
  - intros n op. rewrite !lookup_empty. naive_solver.
  - intros n op. rewrite !lookup_empty. naive_solver.
  - intros op id. rewrite !lookup_empty. naive_solver.
Qed.

Lemma below_nonneg a t e : 0 <= below a t e.
Proof. apply chain_nonneg. Qed.
Lemma create_below_nonneg a t o : 0 <= create_below a t o.
Proof. apply chain_nonneg. Qed.
Lemma at_key_nonneg {K} `{EqDecision K} (k j : K) : 0 <= at_key k j.
Proof. unfold at_key. case_bool_decide; lia. Qed.
Lemma pending_nonneg e : 0 <= pending_targets e <= 1.
Proof. destruct e as [|s]; simpl; [lia|]. destruct (ws_pending_allocate_block s); lia. Qed.
Lemma owned_nonneg e : pending_targets e <= owned_targets e.
Proof. destruct e as [|s]; simpl; lia. Qed.

Section inv.
Context (st : SessionRegistryState) (Hinv : registry_inv st).

Lemma gauges_ok : record_session_gauges st = Ok tt.
Proof.
  unfold record_session_gauges, checked_sub. rewrite bool_decide_eq_true_2; [done|].
  rewrite (ri_opening _ Hinv), <- msum_const. apply msum_le. intros _ e _. unfold opening_bit. destruct (is_opening e); lia.
Qed.

Lemma target_gauges_ok : record_write_target_gauges st = Ok tt.
Proof.
  unfold record_write_target_gauges, checked_sub. rewrite bool_decide_eq_true_2; [done|].
  rewrite (ri_outstanding _ Hinv), (ri_pending _ Hinv). apply msum_le. intros _ e _. apply owned_nonneg.
Qed.

Lemma count_client_eq c :
  count_client st c = msum (client_of c) (entries st) + msum (create_client_of c) (create_openings st).
Proof. unfold count_client. by rewrite (sparse_default _ _ _ (ri_clients _ Hinv)). Qed.

Lemma client_sums_nonneg c :
  0 <= msum (client_of c) (entries st) /\ 0 <= msum (create_client_of c) (create_openings st).
Proof. split; apply msum_nonneg; intros; apply at_key_nonneg. Qed.

Lemma activity_nonneg a t : 0 <= msum (below a t) (entries st) /\ 0 <= msum (create_below a t) (create_openings st).
Proof. split; apply msum_nonneg; intros; [apply below_nonneg|apply create_below_nonneg]. Qed.

End inv.

Lemma decrement_client_ok (m : gmap ClientId Z) f c :
  sparse m f -> 0 < f c ->
  exists m', sparse m' (fun c' => f c' - at_key c c') /\
    forall st, occupied_sessions_by_client st = m ->
      decrement_client_occupancy st c = Ok (set_occupied_sessions_by_client st m').
Proof.
  intros Hs Hpos. eexists. split.
  - eapply sparse_ext; [apply (sparse_put m f c (f c - 1)); [lia|exact Hs]|]. intros c'. simpl. unfold at_key.
    case_bool_decide; subst; lia.
  - intros st E. unfold decrement_client_occupancy. rewrite E, (Hs c), bool_decide_eq_false_2 by lia. simpl.
    unfold checked_sub. by rewrite bool_decide_eq_true_2 by lia.
Qed.

Lemma opening_bit_nonneg e : 0 <= opening_bit e.
Proof. unfold opening_bit. destruct (is_opening e); lia. Qed.
Lemma owned_targets_nonneg e : 0 <= owned_targets e.
Proof. pose proof (owned_nonneg e). pose proof (pending_nonneg e). lia. Qed.

(** Evaluate field accesses and updates of a registry state. *)
Ltac reg_fields := cbv beta iota zeta delta [
    entries create_openings create_openings_by_path create_opening_operations create_openings_by_expiry
    active_create_operations opening_sessions occupied_sessions_by_client ancestor_activity entries_by_expiry
    next_opening_id next_publication_id outstanding_write_targets pending_write_targets set_entries
    set_create_openings set_create_openings_by_path set_create_opening_operations set_create_openings_by_expiry
    set_active_create_operations set_opening_sessions set_occupied_sessions_by_client set_ancestor_activity
    set_entries_by_expiry set_next_opening_id set_next_publication_id set_outstanding_write_targets
    set_pending_write_targets].
Lemma Ok_bind {E A B} (a : A) (f : A -> result E B) : mbind f (Ok a) = f a.
Proof. done. Qed.
Ltac reg := reg_fields; repeat (rewrite Ok_bind; reg_fields).
Tactic Notation "reg" "in" hyp(H) := cbv beta iota zeta delta [
    entries create_openings create_openings_by_path create_opening_operations create_openings_by_expiry
    active_create_operations opening_sessions occupied_sessions_by_client ancestor_activity entries_by_expiry
    next_opening_id next_publication_id outstanding_write_targets pending_write_targets set_entries
    set_create_openings set_create_openings_by_path set_create_opening_operations set_create_openings_by_expiry
    set_active_create_operations set_opening_sessions set_occupied_sessions_by_client set_ancestor_activity
    set_entries_by_expiry set_next_opening_id set_next_publication_id set_outstanding_write_targets
    set_pending_write_targets] in H.

Ltac open_state st := destruct st as [E C CP CO CX AC OS OC AA EX NO NP OW PW].

Lemma assert_ok {E A} (P : Prop) `{!Decision P} (k : unit -> result E A) :
  P -> (assert_that (bool_decide P) ≫= k) = k tt.
Proof. intros HP. by rewrite bool_decide_eq_true_2. Qed.

Lemma expect_sub {E A} a b (k : Z -> result E A) : b <= a -> (expect (checked_sub a b) ≫= k) = k (a - b).
Proof. intros HP. unfold checked_sub. by rewrite bool_decide_eq_true_2. Qed.

Lemma expect_add {E A} a b (k : Z -> result E A) :
  a + b <= u64_max -> (expect (checked_add64 a b) ≫= k) = k (a + b).
Proof. intros HP. unfold checked_add64. by rewrite bool_decide_eq_true_2. Qed.

(** What the internal updates leave alone. *)
Definition same_counters (st st' : SessionRegistryState) : Prop :=
  next_opening_id st' = next_opening_id st /\ next_publication_id st' = next_publication_id st.

Lemma same_counters_refl st : same_counters st st.
Proof. done. Qed.
Lemma same_counters_trans a b c : same_counters a b -> same_counters b c -> same_counters a c.
Proof. unfold same_counters. intros [-> ->] [-> ->]. done. Qed.

(** The final state of [insert_entry]. *)
Definition entry_inserted (st : SessionRegistryState) (e : WriteSessionEntry) : SessionRegistryState :=
  let id := entry_inode_id e in
  mk_SessionRegistryState (<[id := e]> (entries st)) (create_openings st) (create_openings_by_path st)
    (create_opening_operations st) (create_openings_by_expiry st)
    (match create_operation e with
     | Some op => <[op := id]> (active_create_operations st)
     | None => active_create_operations st
     end)
    (opening_sessions st + opening_bit e) (increment (occupied_sessions_by_client st) (entry_client_id e))
    (foldl (activity_add (retirement_at_ms e)) (ancestor_activity st) (entry_ancestor_inode_ids e))
    ({[(retirement_at_ms e, id)]} ∪ entries_by_expiry st) (next_opening_id st) (next_publication_id st)
    (outstanding_write_targets st) (pending_write_targets st).

Section insert.
Context (st : SessionRegistryState) (e : WriteSessionEntry).
Context (Hinv : registry_inv st) (Hfree : entries st !! entry_inode_id e = None) (Howned : owned_targets e = 0).
Context (Hop : forall op, create_operation e = Some op ->
  active_create_operations st !! op = None /\ create_openings st !! op = None).

Lemma entry_inserted_inv : registry_inv (entry_inserted st e).
Proof.
  pose proof (pending_nonneg e). pose proof (owned_nonneg e). destruct Hinv. split; cbn [entry_inserted entries
    create_openings create_openings_by_path create_opening_operations create_openings_by_expiry
    active_create_operations opening_sessions occupied_sessions_by_client ancestor_activity entries_by_expiry
    next_opening_id outstanding_write_targets pending_write_targets]; try done.
  - intros id e' [[<- <-]|[_ Hl]]%lookup_insert_Some; [done|by apply ri_entries0].
  - eapply sparse_ext; [apply sparse_increment; [|done]|].
    + destruct (client_sums_nonneg st (entry_client_id e)). lia.
    + intros c. simpl. rewrite msum_insert by done. unfold client_of at 2. lia.
  - eapply nested_ext; [apply add_chain_ok; [|done]|].
    + intros a t. destruct (activity_nonneg st a t). lia.
    + intros a t. simpl. rewrite msum_insert by done. unfold below at 2. lia.
  - intros t id. rewrite elem_of_union, elem_of_singleton, ri_expiry0. split.
    + intros [[= -> ->]|(e' & Hl & <-)].
      * exists e. by rewrite lookup_insert_eq.
      * exists e'. rewrite lookup_insert_ne; [done|congruence].
    + intros (e' & [[<- <-]|[_ Hl]]%lookup_insert_Some & <-); [by left|right; by exists e'].
  - intros op id. transitivity ((create_operation e = Some op /\ id = entry_inode_id e) \/
      active_create_operations st !! op = Some id).
    + destruct (create_operation e) as [op'|] eqn:Eop; [|naive_solver].
      destruct (Hop op' eq_refl) as [Hn _]. rewrite lookup_insert_Some. naive_solver.
    + rewrite ri_active0. split.
      * intros [[E ->]|(e' & Hl & E)]; [exists e; by rewrite lookup_insert_eq|].
        exists e'. rewrite lookup_insert_ne; [done|congruence].
      * intros (e' & [[<- <-]|[_ Hl]]%lookup_insert_Some & E); [by left|right; by exists e'].
  - intros op Hc. destruct (create_operation e) as [op'|] eqn:Eop; [|by apply ri_disjoint0].
    destruct (Hop op' eq_refl) as [_ Hn]. rewrite lookup_insert_ne; [by apply ri_disjoint0|].
    intros ->. rewrite Hn in Hc. by destruct Hc.
  - rewrite msum_insert by done. lia.
  - rewrite msum_insert by done. lia.
  - rewrite msum_insert by done. lia.
Qed.

Lemma insert_entry_ok : insert_entry st e = Ok (entry_inserted st e).
Proof.
  pose proof (gauges_ok _ entry_inserted_inv) as Hg.
  assert ((retirement_at_ms e, entry_inode_id e) ∉ entries_by_expiry st) as Hne.
  { intros (e' & Hl & _)%(ri_expiry _ Hinv). congruence. }
  unfold insert_entry. rewrite assert_ok by done. clear Hinv. unfold entry_inserted, opening_bit in *.
  open_state st. destruct (is_opening e), (create_operation e) as [op|]; reg;
    try (rewrite assert_ok by (by apply Hop)); reg; rewrite assert_ok by done; reg in Hg; rewrite ?Z.add_0_r in *;
    by rewrite Hg.
Qed.
End insert.

(** The final state of [insert_create_opening]. *)
Definition create_inserted (st : SessionRegistryState) (o : CreateOpeningSession) : SessionRegistryState :=
  mk_SessionRegistryState (entries st) (<[co_operation_id o := o]> (create_openings st))
    (<[create_path o := co_operation_id o]> (create_openings_by_path st))
    (<[co_opening_id o := co_operation_id o]> (create_opening_operations st))
    ({[(co_expires_at_ms o, co_opening_id o)]} ∪ create_openings_by_expiry st) (active_create_operations st)
    (opening_sessions st) (increment (occupied_sessions_by_client st) (co_open_client_id o))
    (foldl (activity_add (co_expires_at_ms o)) (ancestor_activity st) (co_parent_ancestor_inode_ids o))
    (entries_by_expiry st) (next_opening_id st) (next_publication_id st) (outstanding_write_targets st)
    (pending_write_targets st).

Section insert_create.
Context (st : SessionRegistryState) (o : CreateOpeningSession).
Context (Hinv : registry_inv st) (Hfree : create_openings st !! co_operation_id o = None).
Context (Hpath : create_openings_by_path st !! create_path o = None).
Context (Hactive : active_create_operations st !! co_operation_id o = None).
Context (Hid : co_opening_id o < next_opening_id st).
Context (Hfresh : forall op o', create_openings st !! op = Some o' -> co_opening_id o' <> co_opening_id o).

Lemma create_inserted_inv : registry_inv (create_inserted st o).
Proof.
  destruct Hinv. split; cbn [create_inserted entries
    create_openings create_openings_by_path create_opening_operations create_openings_by_expiry
    active_create_operations opening_sessions occupied_sessions_by_client ancestor_activity entries_by_expiry
    next_opening_id outstanding_write_targets pending_write_targets]; try done.
  - intros op o' [[<- <-]|[_ Hl]]%lookup_insert_Some; [done|by apply ri_creates0].
  - eapply sparse_ext; [apply sparse_increment; [|done]|].
    + destruct (client_sums_nonneg st (co_open_client_id o)). lia.
    + intros c. simpl. rewrite (msum_insert (create_client_of c)) by done. unfold create_client_of at 2. lia.
  - eapply nested_ext; [apply add_chain_ok; [|done]|].
    + intros a t. destruct (activity_nonneg st a t). lia.
    + intros a t. simpl. rewrite (msum_insert (create_below a t)) by done. unfold create_below at 2. lia.
  - intros t n. rewrite elem_of_union, elem_of_singleton, ri_create_expiry0. split.
    + intros [[= -> ->]|(op & o' & Hl & ? & ?)].
      * exists (co_operation_id o), o. by rewrite lookup_insert_eq.
      * exists op, o'. rewrite lookup_insert_ne; [done|congruence].
    + intros (op & o' & [[<- <-]|[_ Hl]]%lookup_insert_Some & <- & <-); [by left|right; by exists op, o'].
  - intros n op. rewrite lookup_insert_Some, ri_operations0. split.
    + intros [[<- <-]|[Hne (o' & Hl & ?)]]; [exists o; by rewrite lookup_insert_eq|].
      exists o'. rewrite lookup_insert_ne; [done|congruence].
    + intros (o' & [[<- <-]|[Hne Hl]]%lookup_insert_Some & <-); [by left|right].
      split; [|by exists o']. intros E. by eapply Hfresh.
  - intros k op. rewrite lookup_insert_Some, ri_paths0. split.
    + intros [[<- <-]|[Hne (o' & Hl & ?)]]; [exists o; by rewrite lookup_insert_eq|].
      exists o'. rewrite lookup_insert_ne; [done|congruence].
    + intros (o' & [[<- <-]|[Hne Hl]]%lookup_insert_Some & <-); [by left|right].
      split; [|by exists o']. intros E. assert (create_openings_by_path st !! create_path o = Some op) as E'.
      { apply ri_paths0. exists o'. by rewrite E. }
      congruence.
  - intros op [o' Ho']. apply lookup_insert_Some in Ho' as [[<- <-]|[_ Hl]]; [done|]. apply ri_disjoint0. eauto.
Qed.

Lemma insert_create_ok : insert_create_opening st o = Ok (create_inserted st o).
Proof.
  pose proof (gauges_ok _ create_inserted_inv) as Hg.
  assert ((co_expires_at_ms o, co_opening_id o) ∉ create_openings_by_expiry st) as Hne.
  { intros (op & o' & Hl & _ & E)%(ri_create_expiry _ Hinv). by eapply Hfresh. }
  assert (create_opening_operations st !! co_opening_id o = None) as Hno.
  { apply eq_None_not_Some. intros [op (o' & Hl & E)%(ri_operations _ Hinv)]. by eapply Hfresh. }
  unfold insert_create_opening. rewrite assert_ok by done. clear Hinv. unfold create_inserted, create_path in *.
  open_state st. reg. rewrite assert_ok by done. reg. rewrite assert_ok by done. reg. rewrite assert_ok by done. reg.
  reg in Hg. by rewrite Hg.
Qed.
End insert_create.

(** The final state of [remove_create_opening]. *)
Definition create_removed (st : SessionRegistryState) (o : CreateOpeningSession) (clients : gmap ClientId Z)
    (activity : gmap InodeId (gmap Z Z)) : SessionRegistryState :=
  mk_SessionRegistryState (entries st) (delete (co_operation_id o) (create_openings st))
    (delete (create_path o) (create_openings_by_path st)) (delete (co_opening_id o) (create_opening_operations st))
    (create_openings_by_expiry st ∖ {[(co_expires_at_ms o, co_opening_id o)]}) (active_create_operations st)
    (opening_sessions st) clients activity (entries_by_expiry st) (next_opening_id st) (next_publication_id st)
    (outstanding_write_targets st) (pending_write_targets st).

Section remove_create.
Context (st : SessionRegistryState) (o : CreateOpeningSession) (Hinv : registry_inv st).
Context (Ho : create_openings st !! co_operation_id o = Some o).
Notation op := (co_operation_id o).

(** Opening identities are unique. *)
Lemma create_unique op' o' :
  create_openings st !! op' = Some o' -> co_opening_id o' = co_opening_id o \/ create_path o' = create_path o -> op' = op.
Proof.
  intros Ho' [E|E].
  - assert (create_opening_operations st !! co_opening_id o = Some op') as E1 by (apply (ri_operations _ Hinv); by exists o').
    assert (create_opening_operations st !! co_opening_id o = Some op) as E2 by (apply (ri_operations _ Hinv); by exists o).
    congruence.
  - assert (create_openings_by_path st !! create_path o = Some op') as E1 by (apply (ri_paths _ Hinv); by exists o').
    assert (create_openings_by_path st !! create_path o = Some op) as E2 by (apply (ri_paths _ Hinv); by exists o).
    congruence.
Qed.

Lemma create_removed_inv clients activity :
  sparse clients (fun c => msum (client_of c) (entries st) + msum (create_client_of c) (create_openings st)
                           - at_key (co_open_client_id o) c) ->
  nested activity (fun a t => msum (below a t) (entries st) + msum (create_below a t) (create_openings st)
                              - chain (co_parent_ancestor_inode_ids o) (co_expires_at_ms o) a t) ->
  registry_inv (create_removed st o clients activity).
Proof.
  intros Hc Hn. pose proof create_unique as Huniq. destruct Hinv. split; cbn [create_removed entries
    create_openings create_openings_by_path create_opening_operations create_openings_by_expiry
    active_create_operations opening_sessions occupied_sessions_by_client ancestor_activity entries_by_expiry
    next_opening_id outstanding_write_targets pending_write_targets]; try done.
  - intros op' o' [_ Hl]%lookup_delete_Some. by apply ri_creates0.
  - eapply sparse_ext; [done|]. intros c. simpl. rewrite (msum_delete (create_client_of c) _ _ _ Ho).
    unfold create_client_of at 3. lia.
  - eapply nested_ext; [done|]. intros a t. simpl. rewrite (msum_delete (create_below a t) _ _ _ Ho).
    unfold create_below at 3. lia.
  - intros t n. rewrite elem_of_difference, elem_of_singleton, ri_create_expiry0. split.
    + intros [(op' & o' & Hl & Ht & Hi) Hne]. exists op', o'. rewrite lookup_delete_ne; [done|]. naive_solver.
    + intros (op' & o' & [Hne Hl]%lookup_delete_Some & Ht & Hi). split; [by exists op', o'|].
      intros [= E1 E2]. apply Hne. symmetry. apply (Huniq _ _ Hl). left. congruence.
  - intros n op'. rewrite lookup_delete_Some, ri_operations0. split.
    + intros [Hne (o' & Hl & E)]. exists o'. rewrite lookup_delete_ne; [done|]. naive_solver.
    + intros (o' & [Hne Hl]%lookup_delete_Some & E). split; [|by exists o'].
      intros E'. apply Hne. symmetry. apply (Huniq _ _ Hl). left. congruence.
  - intros k op'. rewrite lookup_delete_Some, ri_paths0. split.
    + intros [Hne (o' & Hl & E)]. exists o'. rewrite lookup_delete_ne; [done|]. naive_solver.
    + intros (o' & [Hne Hl]%lookup_delete_Some & E). split; [|by exists o'].
      intros E'. apply Hne. symmetry. apply (Huniq _ _ Hl). right. congruence.
  - intros op' [o' Ho']. apply lookup_delete_Some in Ho' as [_ Hl]. apply ri_disjoint0. eauto.
Qed.

Lemma remove_create_inv :
  exists st', remove_create_opening st op = Ok (st', Some o) /\ registry_inv st' /\ same_counters st st' /\
    entries st' = entries st /\ create_openings st' = delete op (create_openings st) /\
    active_create_operations st' = active_create_operations st /\
    outstanding_write_targets st' = outstanding_write_targets st.
Proof.
  unfold remove_create_opening. rewrite Ho. pose proof Hinv as [].
  rewrite assert_ok by (apply ri_paths0; by exists o).
  rewrite assert_ok by (apply ri_create_expiry0; by exists op, o).
  rewrite assert_ok by (apply ri_operations0; by exists o).
  destruct (remove_chain_ok _ _ (co_parent_ancestor_inode_ids o) (co_expires_at_ms o) ri_activity0)
    as (m & Hm & Hnest).
  { intros a t. simpl. pose proof (proj1 (activity_nonneg st a t)).
    pose proof (msum_lookup (create_below a t) _ _ _ (fun _ o _ => create_below_nonneg a t o) Ho) as Hle.
    change (create_below a t o) with (chain (co_parent_ancestor_inode_ids o) (co_expires_at_ms o) a t) in Hle. lia. }
  cbn [set_create_openings set_create_openings_by_path set_create_openings_by_expiry set_create_opening_operations
    ancestor_activity create_openings_by_path create_openings_by_expiry create_opening_operations]. rewrite Hm, Ok_bind.
  destruct (decrement_client_ok _ _ (co_open_client_id o) ri_clients0) as (clients & Hcl & Hdec).
  { pose proof (proj1 (client_sums_nonneg st (co_open_client_id o))).
    pose proof (msum_lookup (create_client_of (co_open_client_id o)) _ _ _ (fun _ o _ => at_key_nonneg _ _) Ho) as Hle.
    change (create_client_of _ o) with (at_key (co_open_client_id o) (co_open_client_id o)) in Hle.
    rewrite at_key_eq in Hle. lia. }
  rewrite Hdec, Ok_bind by done. pose proof (create_removed_inv _ _ Hcl Hnest) as Hinv'.
  exists (create_removed st o clients m). split; [|done].
  pose proof (gauges_ok _ Hinv') as Hg. clear -Hg. unfold create_removed, create_path in *. open_state st. reg in Hg. reg.
  by rewrite Hg.
Qed.
End remove_create.

Lemma remove_create_ok st op o :
  registry_inv st -> create_openings st !! op = Some o ->
  exists st', remove_create_opening st op = Ok (st', Some o) /\ registry_inv st' /\ same_counters st st' /\
    entries st' = entries st /\ create_openings st' = delete op (create_openings st) /\
    active_create_operations st' = active_create_operations st /\
    outstanding_write_targets st' = outstanding_write_targets st.
Proof. intros Hinv Ho. destruct (ri_creates _ Hinv _ _ Ho) as [<- _]. by apply remove_create_inv. Qed.

(** The final state of [remove_entry]. *)
Definition entry_removed (st : SessionRegistryState) (e : WriteSessionEntry) (clients : gmap ClientId Z)
    (activity : gmap InodeId (gmap Z Z)) : SessionRegistryState :=
  let id := entry_inode_id e in
  mk_SessionRegistryState (delete id (entries st)) (create_openings st) (create_openings_by_path st)
    (create_opening_operations st) (create_openings_by_expiry st)
    (match create_operation e with
     | Some op => delete op (active_create_operations st)
     | None => active_create_operations st
     end)
    (opening_sessions st - opening_bit e) clients activity
    (entries_by_expiry st ∖ {[(retirement_at_ms e, id)]}) (next_opening_id st) (next_publication_id st)
    (outstanding_write_targets st - owned_targets e) (pending_write_targets st - pending_targets e).

Section remove.
Context (st : SessionRegistryState) (e : WriteSessionEntry) (Hinv : registry_inv st).
Context (He : entries st !! entry_inode_id e = Some e).

Lemma entry_removed_inv clients activity :
  sparse clients (fun c => msum (client_of c) (entries st) + msum (create_client_of c) (create_openings st)
                           - at_key (entry_client_id e) c) ->
  nested activity (fun a t => msum (below a t) (entries st) + msum (create_below a t) (create_openings st)
                              - chain (entry_ancestor_inode_ids e) (retirement_at_ms e) a t) ->
  registry_inv (entry_removed st e clients activity).
Proof.
  intros Hc Hn. destruct Hinv. split; cbn [entry_removed entries
    create_openings create_openings_by_path create_opening_operations create_openings_by_expiry
    active_create_operations opening_sessions occupied_sessions_by_client ancestor_activity entries_by_expiry
    next_opening_id outstanding_write_targets pending_write_targets]; try done.
  - intros id e' [_ Hl]%lookup_delete_Some. by apply ri_entries0.
  - eapply sparse_ext; [done|]. intros c. simpl. rewrite (msum_delete (client_of c) _ _ _ He).
    unfold client_of at 3. lia.
  - eapply nested_ext; [done|]. intros a t. simpl. rewrite (msum_delete (below a t) _ _ _ He). unfold below at 3. lia.
  - intros t id. rewrite elem_of_difference, elem_of_singleton, ri_expiry0. split.
    + intros [(e' & Hl & Ht) Hne]. exists e'. rewrite lookup_delete_ne; [done|]. naive_solver.
    + intros (e' & [Hne Hl]%lookup_delete_Some & Ht). split; [by exists e'|]. intros [= E1 E2]. congruence.
  - intros op id. transitivity (active_create_operations st !! op = Some id /\ create_operation e <> Some op).
    + destruct (create_operation e) as [op'|] eqn:Eop; [|naive_solver]. rewrite lookup_delete_Some. naive_solver.
    + rewrite ri_active0. split.
      * intros [(e' & Hl & E) Hne]. exists e'. rewrite lookup_delete_ne; [done|]. naive_solver.
      * intros (e' & [Hne Hl]%lookup_delete_Some & E). split; [by exists e'|]. intros E'. apply Hne.
        assert (active_create_operations st !! op = Some id) as E1 by (apply ri_active0; eauto).
        assert (active_create_operations st !! op = Some (entry_inode_id e)) as E2 by (apply ri_active0; eauto).
        congruence.
  - intros op Hop. destruct (create_operation e) as [op'|]; [|by apply ri_disjoint0].
    apply lookup_delete_None. right. by apply ri_disjoint0.
  - rewrite (msum_delete opening_bit _ _ _ He). lia.
  - rewrite (msum_delete owned_targets _ _ _ He). lia.
  - rewrite (msum_delete pending_targets _ _ _ He). lia.
Qed.

Lemma remove_entry_inv :
  exists st', remove_entry st (entry_inode_id e) = Ok (st', Some e) /\ registry_inv st' /\ same_counters st st' /\
    entries st' = delete (entry_inode_id e) (entries st) /\ create_openings st' = create_openings st /\
    outstanding_write_targets st' = outstanding_write_targets st - owned_targets e.
Proof.
  pose proof Hinv as []. unfold remove_entry. rewrite He.
  assert (0 < msum (client_of (entry_client_id e)) (entries st)
              + msum (create_client_of (entry_client_id e)) (create_openings st)) as Hpos.
  { pose proof (proj2 (client_sums_nonneg st (entry_client_id e))).
    pose proof (msum_lookup (client_of (entry_client_id e)) _ _ _ (fun _ o _ => at_key_nonneg _ _) He) as Hle.
    change (client_of _ e) with (at_key (entry_client_id e) (entry_client_id e)) in Hle.
    rewrite at_key_eq in Hle. lia. }
  rewrite (sparse_default _ _ _ ri_clients0), (proj2 (Z.ltb_lt _ _) Hpos).
  destruct (remove_chain_ok _ _ (entry_ancestor_inode_ids e) (retirement_at_ms e) ri_activity0) as (m & Hm & Hnest).
  { intros a t. simpl. pose proof (proj2 (activity_nonneg st a t)).
    pose proof (msum_lookup (below a t) _ _ _ (fun _ o _ => below_nonneg a t o) He) as Hle.
    change (below a t e) with (chain (entry_ancestor_inode_ids e) (retirement_at_ms e) a t) in Hle. lia. }
  destruct (decrement_client_ok _ _ (entry_client_id e) ri_clients0 Hpos) as (clients & Hcl & Hdec).
  pose proof (entry_removed_inv _ _ Hcl Hnest) as Hinv'.
  exists (entry_removed st e clients m). split; [|done].
  pose proof (gauges_ok _ Hinv') as Hg. pose proof (target_gauges_ok _ Hinv') as Hg'.
  assert (opening_bit e <= opening_sessions st) as Hob.
  { rewrite ri_opening0. apply (msum_lookup opening_bit _ _ _ (fun _ e _ => opening_bit_nonneg e) He). }
  assert (owned_targets e <= outstanding_write_targets st) as Hot.
  { rewrite ri_outstanding0. apply (msum_lookup owned_targets _ _ _ (fun _ e _ => owned_targets_nonneg e) He). }
  assert (pending_targets e <= pending_write_targets st) as Hpt.
  { rewrite ri_pending0. apply (msum_lookup pending_targets _ _ _ (fun _ e _ => proj1 (pending_nonneg e)) He). }
  assert (forall op, create_operation e = Some op -> active_create_operations st !! op = Some (entry_inode_id e)) as Hact.
  { intros op E. apply ri_active0. eauto. }
  assert ((retirement_at_ms e, entry_inode_id e) ∈ entries_by_expiry st) as Hex by (apply ri_expiry0; eauto).
  clear -Hg Hg' Hob Hot Hpt Hact Hex Hm Hdec. unfold remove_from_indexes, entry_removed, opening_bit in *.
  open_state st. reg in Hg. reg in Hg'. reg in Hdec. reg in Hm. cbn [assert_that]. reg.
  destruct (is_opening e), (create_operation e) as [op|]; reg;
    try (rewrite assert_ok by (by apply Hact)); reg; try (rewrite expect_sub by done); reg;
    rewrite assert_ok by done; reg; rewrite Hm; reg; rewrite Hdec by done; reg;
    rewrite expect_sub by done; reg; rewrite expect_sub by done; reg; rewrite ?Z.sub_0_r in *; by rewrite Hg, Ok_bind, Hg'.
Qed.
End remove.

Lemma remove_entry_ok st id e :
  registry_inv st -> entries st !! id = Some e ->
  exists st', remove_entry st id = Ok (st', Some e) /\ registry_inv st' /\ same_counters st st' /\
    entries st' = delete id (entries st) /\ create_openings st' = create_openings st /\
    outstanding_write_targets st' = outstanding_write_targets st - owned_targets e.
Proof. intros Hinv He. pose proof (ri_entries _ Hinv _ _ He) as <-. by apply remove_entry_inv. Qed.

(** Another entry in the place of [e], with activity and expiry index given. *)
Definition entry_replaced (st : SessionRegistryState) (e e' : WriteSessionEntry) (activity : gmap InodeId (gmap Z Z))
    (expiry : gset (Z * InodeId)) : SessionRegistryState :=
  mk_SessionRegistryState (<[entry_inode_id e := e']> (entries st)) (create_openings st) (create_openings_by_path st)
    (create_opening_operations st) (create_openings_by_expiry st) (active_create_operations st)
    (opening_sessions st - opening_bit e + opening_bit e') (occupied_sessions_by_client st) activity expiry
    (next_opening_id st) (next_publication_id st) (outstanding_write_targets st - owned_targets e + owned_targets e')
    (pending_write_targets st - pending_targets e + pending_targets e').

(** The same place in the registry. *)
Definition same_place (e e' : WriteSessionEntry) : Prop :=
  entry_inode_id e' = entry_inode_id e /\ entry_client_id e' = entry_client_id e /\
  entry_ancestor_inode_ids e' = entry_ancestor_inode_ids e /\ create_operation e' = create_operation e.

Section replace.
Context (st : SessionRegistryState) (e e' : WriteSessionEntry) (Hinv : registry_inv st).
Context (He : entries st !! entry_inode_id e = Some e) (Hsame : same_place e e').

Lemma entry_replaced_inv activity expiry :
  nested activity (fun a t => msum (below a t) (entries st) + msum (create_below a t) (create_openings st)
                              - below a t e + below a t e') ->
  (forall t id, (t, id) ∈ expiry <->
     ((t, id) ∈ entries_by_expiry st /\ id <> entry_inode_id e) \/ (t = retirement_at_ms e' /\ id = entry_inode_id e)) ->
  registry_inv (entry_replaced st e e' activity expiry).
Proof.
  intros Hn Hx. destruct Hsame as (Hid & Hcl & Han & Hop). destruct Hinv. split; cbn [entry_replaced entries
    create_openings create_openings_by_path create_opening_operations create_openings_by_expiry
    active_create_operations opening_sessions occupied_sessions_by_client ancestor_activity entries_by_expiry
    next_opening_id outstanding_write_targets pending_write_targets]; try done.
  - intros id x [[<- <-]|[_ Hl]]%lookup_insert_Some; [done|by apply ri_entries0].
  - eapply sparse_ext; [done|]. intros c. simpl. rewrite (msum_replace (client_of c) _ _ _ _ He).
    unfold client_of at 3 4. rewrite Hcl. lia.
  - eapply nested_ext; [done|]. intros a t. simpl. rewrite (msum_replace (below a t) _ _ _ _ He). lia.
  - intros t id. rewrite Hx, ri_expiry0. split.
    + intros [[(x & Hl & E) Hne]|[-> ->]]; [exists x; by rewrite lookup_insert_ne|].
      exists e'. by rewrite lookup_insert_eq.
    + intros (x & [[<- <-]|[Hne Hl]]%lookup_insert_Some & E); [by right|left; split; [by eauto|done]].
  - intros op id. rewrite ri_active0. split; intros (x & Hl & E).
    + destruct (decide (id = entry_inode_id e)) as [->|Hne].
      * exists e'. rewrite lookup_insert_eq. rewrite He in Hl. injection Hl as <-. split; [done|congruence].
      * exists x. by rewrite lookup_insert_ne.
    + apply lookup_insert_Some in Hl as [[<- <-]|[Hne Hl]]; [|by eauto]. exists e. split; [done|congruence].
  - rewrite (msum_replace opening_bit _ _ _ _ He). lia.
  - rewrite (msum_replace owned_targets _ _ _ _ He). lia.
  - rewrite (msum_replace pending_targets _ _ _ _ He). lia.
Qed.

(** An update that leaves the expiry alone. *)
Lemma entry_updated_inv :
  retirement_at_ms e' = retirement_at_ms e ->
  registry_inv (entry_replaced st e e' (ancestor_activity st) (entries_by_expiry st)).
Proof.
  intros Hr. apply entry_replaced_inv.
  - eapply nested_ext; [apply (ri_activity _ Hinv)|]. intros a t. simpl. destruct Hsame as (_ & _ & Han & _).
    unfold below at 3 4. rewrite Hr, Han. lia.
  - intros t id. rewrite Hr. split.
    + intros Hin. destruct (decide (id = entry_inode_id e)) as [->|]; [|by left].
      apply (ri_expiry _ Hinv) in Hin as (x & Hl & <-). rewrite He in Hl. injection Hl as <-. by right.
    + intros [[? _]|[-> ->]]; [done|]. apply (ri_expiry _ Hinv). eauto.
Qed.

(** An update that moves the expiry, before or after the entry is written. *)
Lemma move_ok :
  exists activity,
    registry_inv (entry_replaced st e e' activity
      ({[(retirement_at_ms e', entry_inode_id e)]} ∪ (entries_by_expiry st ∖ {[(retirement_at_ms e, entry_inode_id e)]}))) /\
    forall st', ancestor_activity st' = ancestor_activity st -> entries_by_expiry st' = entries_by_expiry st ->
      move_expiry_indexes st' (entry_inode_id e) (entry_ancestor_inode_ids e) (retirement_at_ms e) (retirement_at_ms e')
      = Ok (set_ancestor_activity (set_entries_by_expiry st'
              ({[(retirement_at_ms e', entry_inode_id e)]} ∪ (entries_by_expiry st ∖ {[(retirement_at_ms e, entry_inode_id e)]})))
              activity).
Proof.
  destruct (move_chain_ok _ _ (entry_ancestor_inode_ids e) (retirement_at_ms e) (retirement_at_ms e')
    (ri_activity _ Hinv)) as (m & Hm & Hn).
  { intros a t. simpl. pose proof (proj2 (activity_nonneg st a t)).
    pose proof (msum_lookup (below a t) _ _ _ (fun _ o _ => below_nonneg a t o) He) as Hle.
    change (below a t e) with (chain (entry_ancestor_inode_ids e) (retirement_at_ms e) a t) in Hle. lia. }
  exists m. split.
  - apply entry_replaced_inv.
    + eapply nested_ext; [done|]. intros a t. simpl. destruct Hsame as (_ & _ & Han & _).
      unfold below at 3 4. by rewrite Han.
    + intros t id. rewrite elem_of_union, elem_of_difference, !elem_of_singleton, pair_equal_spec. split.
      * intros [[-> ->]|[Hin Hne]]; [by right|].
        destruct (decide (id = entry_inode_id e)) as [->|]; [|by left].
        apply (ri_expiry _ Hinv) in Hin as (x & Hl & <-). rewrite He in Hl. injection Hl as <-. by destruct Hne.
      * intros [[Hin Hne]|[-> ->]]; [right|by left]. split; [done|]. intros [= _ E]. done.
  - intros st' Ha Hx. unfold move_expiry_indexes. rewrite Hx.
    rewrite assert_ok by (apply (ri_expiry _ Hinv); eauto).
    change (ancestor_activity (set_entries_by_expiry st' _)) with (ancestor_activity st'). by rewrite Ha, Hm.
Qed.
End replace.
