(* ===== verification/SessionProps.v ===== *)
(** * What the session registry guarantees

    Every method keeps the indexes exact and the limits respected, and no
    assertion of the source can fire, in every sequence of calls. *)

From S2P Require Import Prelude Types Errors Inode Mount Store Namespace Session SessionInv.
Local Open Scope Z_scope.

Lemma msum_sub {K A} `{Countable K} (f : A -> Z) (m m' : gmap K A) :
  (forall a, 0 <= f a) -> m ⊆ m' -> msum f m <= msum f m'.
Proof.
  intros Hf. revert m'. induction m as [|k a m Hk IH] using map_ind; intros m' Hsub.
  { rewrite msum_empty. by apply msum_nonneg. }
  assert (m' !! k = Some a) as Hk' by (eapply lookup_weaken; [apply lookup_insert_eq|done]).
  rewrite msum_insert by done. specialize (IH (delete k m')). pose proof (msum_delete f _ _ _ Hk').
  assert (m ⊆ delete k m'); [|specialize (IH ltac:(done)); lia].
  apply map_subseteq_spec. intros j x Hx. rewrite lookup_delete_ne by congruence.
  eapply lookup_weaken; [|done]. rewrite lookup_insert_ne; [done|congruence].
Qed.

(** ** Sessions and limits *)

(** Each target starts where the one before it ends. *)
Definition contiguous (targets : list LocatedBlock) : Prop :=
  forall i t t', targets !! i = Some t -> targets !! S i = Some t' ->
    lb_file_offset t' = lb_file_offset t + lb_block_size t.

Record session_ok (limits : SessionLimits) (next : Z) (unsubmitted : gset Z) (s : WriteSession) : Prop := {
  so_pending : forall p, ws_pending_allocate_block s = Some p ->
    ws_issued_steps s !! pa_previous_block_id p = None /\ ws_active_publication s = None;
  so_steps : forall k i, ws_issued_steps s !! k = Some i -> (i < length (ws_issued_targets s))%nat;
  so_targets : owned_targets (Active s) <= max_write_targets_per_session limits;
  so_submitted : ws_publication_submitted s = true -> is_Some (ws_active_publication s);
  so_publication : forall n, ws_active_publication s = Some n ->
    n < next /\ (n ∈ unsubmitted -> ws_publication_submitted s = false);
  so_contiguous : contiguous (ws_issued_targets s)
}.

(** [next] is the next publication identity and [unsubmitted] the identities whose
    owners exist and have not been submitted. *)
Record registry_ok (limits : SessionLimits) (next : Z) (unsubmitted : gset Z) (st : SessionRegistryState) : Prop := {
  ro_inv : registry_inv st;
  ro_next : next_publication_id st = next;
  ro_sessions : forall id s, entries st !! id = Some (Active s) -> session_ok limits next unsubmitted s;
  ro_count : session_count st <= max_sessions limits;
  ro_client : forall c, count_client st c <= max_sessions_per_client limits;
  ro_targets : outstanding_write_targets st <= max_write_targets limits
}.

Section limits.
Context (limits : SessionLimits) (Hlimits : limits_ok limits = true) (next : Z) (unsubmitted : gset Z).
Implicit Types (st : SessionRegistryState).

Lemma limits_pos :
  0 < max_sessions limits /\ 0 < max_sessions_per_client limits /\ 0 < max_write_targets limits /\
  0 < max_write_targets_per_session limits.
Proof. unfold limits_ok in Hlimits. bool_prop. lia. Qed.

Lemma registry_default_ok : registry_ok limits (next_publication_id registry_default) unsubmitted registry_default.
Proof.
  pose proof limits_pos. split; simpl; [apply registry_default_inv|done|done|unfold session_count; simpl; rewrite !map_size_empty; lia| |lia].
  intros c. unfold count_client. simpl. rewrite lookup_empty. simpl. lia.
Qed.

(** Dropping sessions keeps every limit. *)
Lemma registry_ok_sub st st' :
  registry_ok limits next unsubmitted st -> registry_inv st' -> same_counters st st' ->
  entries st' ⊆ entries st -> create_openings st' ⊆ create_openings st ->
  registry_ok limits next unsubmitted st'.
Proof.
  intros [Hinv Hn Hs Hc Hcl Ht] Hinv' [_ Hp] He Ho. split; [done|congruence| | | |].
  - intros id s Hl. eapply Hs, lookup_weaken; done.
  - unfold session_count in *. pose proof (map_subseteq_size _ _ He). pose proof (map_subseteq_size _ _ Ho). lia.
  - intros c. specialize (Hcl c). rewrite count_client_eq in * by done.
    pose proof (msum_sub (client_of c) _ _ (fun e => at_key_nonneg _ _) He).
    pose proof (msum_sub (create_client_of c) _ _ (fun e => at_key_nonneg _ _) Ho). lia.
  - rewrite (ri_outstanding _ Hinv) in Ht. rewrite (ri_outstanding _ Hinv').
    pose proof (msum_sub owned_targets _ _ owned_targets_nonneg He). lia.
Qed.

(** ** Retirement *)

(** What retirement at [now] may do: remove entries that are past their time. *)
Record retired (now : Z) (st st' : SessionRegistryState) : Prop := {
  rt_ok : registry_ok limits next unsubmitted st';
  rt_counters : same_counters st st';
  rt_entries : entries st' ⊆ entries st;
  rt_creates : create_openings st' ⊆ create_openings st;
  rt_live : forall id e, entries st !! id = Some e -> now < retirement_at_ms e -> entries st' !! id = Some e;
  rt_live_create : forall op o, create_openings st !! op = Some o -> now < co_expires_at_ms o ->
    create_openings st' !! op = Some o
}.

Lemma retired_refl now st : registry_ok limits next unsubmitted st -> retired now st st.
Proof. by split. Qed.

Lemma retired_trans now a b c : retired now a b -> retired now b c -> retired now a c.
Proof.
  intros [] []. split; eauto; [by eapply same_counters_trans|by etransitivity|by etransitivity].
Qed.

Lemma retire_entry now st id e :
  registry_ok limits next unsubmitted st -> entries st !! id = Some e -> retirement_at_ms e <= now ->
  exists st', remove_entry st id = Ok (st', Some e) /\ retired now st st'.
Proof.
  intros Hok He Ht. destruct (remove_entry_ok st id e (ro_inv _ _ _ _ Hok) He) as (st' & Hr & Hinv & Hc & Hes & Hcs & _).
  exists st'. split; [done|]. split; rewrite ?Hes, ?Hcs; try done.
  - apply (registry_ok_sub st); rewrite ?Hes, ?Hcs; try done. apply delete_subseteq.
  - apply delete_subseteq.
  - intros id' e' Hl Hlive. rewrite lookup_delete_ne; [done|]. intros ->. rewrite He in Hl. injection Hl as ->. lia.
Qed.

Lemma retire_create now st op o :
  registry_ok limits next unsubmitted st -> create_openings st !! op = Some o -> co_expires_at_ms o <= now ->
  exists st', remove_create_opening st op = Ok (st', Some o) /\ retired now st st'.
Proof.
  intros Hok Ho Ht. destruct (remove_create_ok st op o (ro_inv _ _ _ _ Hok) Ho) as (st' & Hr & Hinv & Hc & Hes & Hcs & _).
  exists st'. split; [done|]. split; rewrite ?Hes, ?Hcs; try done.
  - apply (registry_ok_sub st); rewrite ?Hes, ?Hcs; try done. apply delete_subseteq.
  - apply delete_subseteq.
  - intros op' o' Hl Hlive. rewrite lookup_delete_ne; [done|]. intros ->. rewrite Ho in Hl. injection Hl as ->. lia.
Qed.

Lemma pair_min_elem l x : foldr pair_min None l = Some x -> x ∈ l.
Proof.
  revert x. induction l as [|a l IH]; intros x; simpl; [done|]. destruct (foldr pair_min None l) as [b|]; simpl.
  - destruct (_ || _); intros [= <-]; [left|right; by apply IH].
  - intros [= <-]. left.
Qed.

Lemma set_first_elem s x : set_first s = Some x -> x ∈ s.
Proof. intros H%pair_min_elem. by apply elem_of_elements. Qed.

Lemma retire_loop_ok budget st now n :
  registry_ok limits next unsubmitted st -> exists st' n', retire_loop budget st now n = Ok (st', n') /\ retired now st st'.
Proof.
  revert st n. induction budget as [|budget IH]; intros st n Hok; simpl; [by eauto using retired_refl|].
  assert (forall next, set_first (create_openings_by_expiry st) = Some next -> next.1 <= now ->
    exists st' n', (st ← (operation_id ← expect (create_opening_operations st !! next.2);
      '(st, removed) ← remove_create_opening st operation_id;
      assert_that (bool_decide (is_Some removed));; Ok st); retire_loop budget st now (n + 1)) = Ok (st', n')
      /\ retired now st st') as Hcreate.
  { intros [t i] Hf%set_first_elem Hle. apply (ri_create_expiry _ (ro_inv _ _ _ _ Hok)) in Hf as (op & o & Ho & <- & <-).
    assert (create_opening_operations st !! co_opening_id o = Some op) as Hop
      by (apply (ri_operations _ (ro_inv _ _ _ _ Hok)); eauto).
    simpl. rewrite Hop. simpl. destruct (retire_create now st op o Hok Ho Hle) as (st1 & -> & Hr1). simpl.
    destruct (IH st1 (n + 1) (rt_ok _ _ _ Hr1)) as (st' & n' & -> & Hr2). eauto using retired_trans. }
  assert (forall next, set_first (entries_by_expiry st) = Some next -> next.1 <= now ->
    exists st' n', (st ← ('(st, removed) ← remove_entry st next.2;
      match removed with
      | Some _ => Ok st
      | None => Ok (set_entries_by_expiry st (entries_by_expiry st ∖ {[next]}))
      end); retire_loop budget st now (n + 1)) = Ok (st', n') /\ retired now st st') as Hentry.
  { intros [t i] Hf%set_first_elem Hle. apply (ri_expiry _ (ro_inv _ _ _ _ Hok)) in Hf as (e & He & <-).
    simpl. destruct (retire_entry now st i e Hok He Hle) as (st1 & -> & Hr1). simpl.
    destruct (IH st1 (n + 1) (rt_ok _ _ _ Hr1)) as (st' & n' & -> & Hr2). eauto using retired_trans. }
  destruct (set_first (entries_by_expiry st)) as [se|], (set_first (create_openings_by_expiry st)) as [ce|];
    simpl; [destruct (ce.1 <? se.1); simpl| | |by eauto using retired_refl].
  all: match goal with |- context [if (?a <? ?b)%Z then Ok _ else _] => destruct (Z.ltb_spec a b); [by eauto using retired_refl|] end.
  all: first [by apply Hcreate|by apply Hentry].
Qed.

Lemma retire_expired_entries_ok st now :
  registry_ok limits next unsubmitted st -> exists st' n, retire_expired_entries st now = Ok (st', n) /\ retired now st st'.
Proof. apply retire_loop_ok. Qed.

#[local] Opaque retire_expired_entries.

Lemma retire_entry_for_inode_ok st id now :
  registry_ok limits next unsubmitted st -> exists st', retire_expired_entry_for_inode st id now = Ok st' /\ retired now st st' /\
    (forall e, entries st' !! id = Some e -> now < retirement_at_ms e).
Proof.
  intros Hok. unfold retire_expired_entry_for_inode. destruct (entries st !! id) as [e|] eqn:He.
  - destruct (Z.leb_spec (retirement_at_ms e) now).
    + destruct (remove_entry_ok st id e (ro_inv _ _ _ _ Hok) He) as (st1 & Hr & _ & _ & Hes & _).
      destruct (retire_entry now st id e Hok He) as (st' & Hr' & Hret); [lia|].
      rewrite Hr in Hr'. injection Hr' as ->. rewrite Hr. simpl. eexists. split; [done|]. split; [done|].
      intros e'. rewrite Hes, lookup_delete_eq. done.
    + eexists. split; [done|]. split; [by apply retired_refl|]. intros e' He'. rewrite He in He'. by injection He' as <-.
  - eexists. split; [done|]. split; [by apply retired_refl|]. intros e' He'. congruence.
Qed.

Lemma retire_create_for_operation_ok st op now :
  registry_ok limits next unsubmitted st -> exists st', retire_expired_create_opening_for_operation st op now = Ok st' /\ retired now st st'.
Proof.
  intros Hok. unfold retire_expired_create_opening_for_operation.
  destruct (create_openings st !! op) as [o|] eqn:Ho; [|by eauto using retired_refl].
  destruct (Z.leb_spec (co_expires_at_ms o) now); [|by eauto using retired_refl].
  destruct (retire_create now st op o Hok Ho) as (st' & -> & ?); [lia|]. simpl. eauto.
Qed.

(** After the retirement that opens a method, the inode's entry is alive. *)
Lemma retire_for_ok st id now :
  registry_ok limits next unsubmitted st -> exists st', retire_for st id now = Ok st' /\ retired now st st' /\
    (forall e, entries st' !! id = Some e -> entries st !! id = Some e /\ now < retirement_at_ms e).
Proof.
  intros Hok. unfold retire_for. destruct (retire_entry_for_inode_ok st id now Hok) as (st1 & -> & Hr1 & Hlive). rewrite Ok_bind.
  destruct (retire_expired_entries_ok st1 now (rt_ok _ _ _ Hr1)) as (st2 & n & -> & Hr2). rewrite Ok_bind.
  exists st2. split; [reflexivity|]. split; [exact (retired_trans _ _ _ _ Hr1 Hr2)|]. intros e He.
  pose proof (lookup_weaken _ _ _ _ He (rt_entries _ _ _ Hr2)) as He1.
  split; [exact (lookup_weaken _ _ _ _ He1 (rt_entries _ _ _ Hr1))|by apply Hlive].
Qed.

(** ** Opening sessions *)

Lemma next_opening_ok st n :
  registry_ok limits next unsubmitted st -> next_opening_id st <= n ->
  registry_ok limits next unsubmitted (set_next_opening_id st n).
Proof.
  intros [Hinv Hn Hs Hc Hcl Ht] Hle. split; [|done..]. pose proof (ri_creates _ Hinv) as Hcr.
  destruct Hinv. split; try done. simpl. intros op o Ho. destruct (Hcr _ _ Ho). split; [done|lia].
Qed.

Lemma create_inserted_ok st o :
  registry_ok limits next unsubmitted st -> create_openings st !! co_operation_id o = None ->
  create_openings_by_path st !! create_path o = None -> active_create_operations st !! co_operation_id o = None ->
  co_opening_id o < next_opening_id st ->
  (forall op o', create_openings st !! op = Some o' -> co_opening_id o' <> co_opening_id o) ->
  session_count st < max_sessions limits -> count_client st (co_open_client_id o) < max_sessions_per_client limits ->
  insert_create_opening st o = Ok (create_inserted st o) /\ registry_ok limits next unsubmitted (create_inserted st o).
Proof.
  intros [Hinv Hn Hs Hc Hcl Ht] H1 H2 H3 H4 H5 Hnn Hm.
  pose proof (create_inserted_inv st o Hinv H1 H2 H3 H4 H5) as Hinv'.
  split; [by apply insert_create_ok|]. split; try done.
  - unfold session_count, create_inserted in *. simpl. rewrite map_size_insert_None by done. lia.
  - intros c. specialize (Hcl c). rewrite count_client_eq in * by done. simpl.
    rewrite (msum_insert (create_client_of c)) by done. unfold create_client_of at 1, at_key.
    case_bool_decide; [subst c|]; lia.
Qed.

Lemma entry_inserted_ok st e :
  registry_ok limits next unsubmitted st -> entries st !! entry_inode_id e = None -> owned_targets e = 0 ->
  (forall op, create_operation e = Some op ->
     active_create_operations st !! op = None /\ create_openings st !! op = None) ->
  (forall s, e = Active s -> session_ok limits next unsubmitted s) ->
  session_count st < max_sessions limits -> count_client st (entry_client_id e) < max_sessions_per_client limits ->
  insert_entry st e = Ok (entry_inserted st e) /\ registry_ok limits next unsubmitted (entry_inserted st e).
Proof.
  intros [Hinv Hn Hs Hc Hcl Ht] H1 H2 H3 H4 Hnn Hm.
  pose proof (entry_inserted_inv st e Hinv H1 H2 H3) as Hinv'.
  split; [by apply insert_entry_ok|]. split; try done.
  - simpl. intros id s [[_ E]|[_ Hl]]%lookup_insert_Some; [by apply H4|by eapply Hs].
  - unfold session_count, entry_inserted in *. simpl. rewrite map_size_insert_None by done. lia.
  - intros c. specialize (Hcl c). rewrite count_client_eq in * by done. simpl.
    rewrite (msum_insert (client_of c)) by done. unfold client_of at 1, at_key. case_bool_decide; [subst c|]; lia.
Qed.

(** The index of active creations leads to their sessions. *)
Lemma existing_create_ok st input :
  registry_ok limits next unsubmitted st ->
  exists answer, existing_create st input = Ok answer /\
    (answer = None -> active_create_operations st !! bc_operation_id input = None /\
       create_openings st !! bc_operation_id input = None /\
       create_openings_by_path st !! (bc_mount_id input, bc_normalized_path input) = None).
Proof.
  intros Hok. unfold existing_create.
  destruct (active_create_operations st !! bc_operation_id input) as [id|] eqn:Ha.
  - apply (ri_active _ (ro_inv _ _ _ _ Hok)) in Ha as (e & -> & He). destruct e as [|s]; [done|]. simpl in He.
    destruct (ws_create_replay s) as [r|]; [|done]. injection He as He. rewrite assert_ok by done. eexists. split; [done|done].
  - destruct (create_openings st !! bc_operation_id input); [eexists; split; [done|done]|].
    destruct (create_openings_by_path st !! _) eqn:Hp; eexists; split; done.
Qed.

Lemma begin_create_session_ok st input now :
  registry_ok limits next unsubmitted st ->
  exists st' res, begin_create_session_at limits st input now = Ok (st', res) /\ registry_ok limits next unsubmitted st'.
Proof.
  intros Hok. unfold begin_create_session_at. case_bool_decide; [by eauto|]. destruct (negb _); [by eauto|].
  destruct (retire_create_for_operation_ok st (bc_operation_id input) now Hok) as (st1 & -> & Hr1). rewrite Ok_bind.
  destruct (retire_expired_entries_ok st1 now (rt_ok _ _ _ Hr1)) as (st2 & n & -> & Hr2). rewrite Ok_bind.
  pose proof (rt_ok _ _ _ Hr2) as Hok2.
  destruct (existing_create_ok st2 input Hok2) as (answer & -> & Hnone). rewrite Ok_bind.
  destruct answer as [a|]; [by eauto|]. destruct (Hnone eq_refl) as (Hact & Hop & Hpath).
  destruct (Z.leb_spec (max_sessions limits) (session_count st2)); [by eauto|].
  destruct (Z.leb_spec (max_sessions_per_client limits) (count_client st2 (bc_open_client_id input))); [by eauto|].
  destruct (checked_add64 (next_opening_id st2) 1) as [next'|] eqn:Hnext; [|by eauto].
  apply checked_add64_Some in Hnext as [Hnx _].
  match goal with |- context [insert_create_opening ?s ?o] => destruct (create_inserted_ok s o) as [-> Hok3] end;
    try done; [apply next_opening_ok; [done|lia]|simpl; lia| |].
  - simpl. intros op o' Ho'. destruct (ri_creates _ (ro_inv _ _ _ _ Hok2) _ _ Ho'). lia.
  - rewrite Ok_bind. eauto.
Qed.

Lemma begin_session_ok st input now :
  registry_ok limits next unsubmitted st ->
  exists st' res, begin_session_at limits st input now = Ok (st', res) /\ registry_ok limits next unsubmitted st'.
Proof.
  intros Hok. unfold begin_session_at. destruct (negb _); [by eauto|].
  destruct (retire_for_ok st (bi_inode_id input) now Hok) as (st2 & -> & Hr2 & _). rewrite Ok_bind.
  pose proof (rt_ok _ _ _ Hr2) as Hok2. destruct (_ || _) eqn:Hbusy; [by eauto|]. bool_prop.
  destruct (Z.leb_spec (max_sessions limits) (session_count st2)); [by eauto|].
  destruct (Z.leb_spec (max_sessions_per_client limits) (count_client st2 (bi_open_client_id input))); [by eauto|].
  destruct (lease_checked_next (bi_current_lease_epoch input)) as [proposed|]; [|by eauto].
  destruct (checked_add64 (next_opening_id st2) 1) as [next'|] eqn:Hnext; [|by eauto].
  apply checked_add64_Some in Hnext as [Hnx _].
  match goal with |- context [insert_entry ?s ?o] => destruct (entry_inserted_ok s o) as [-> Hok3] end; try done.
  - apply next_opening_ok; [done|lia].
  - simpl. by apply eq_None_not_Some.
  - rewrite Ok_bind. eauto.
Qed.

(** ** Updating a session in place *)

Lemma entry_replaced_ok st e e' activity expiry :
  registry_ok limits next unsubmitted st -> entries st !! entry_inode_id e = Some e ->
  registry_inv (entry_replaced st e e' activity expiry) ->
  (forall s, e' = Active s -> session_ok limits next unsubmitted s) ->
  outstanding_write_targets st - owned_targets e + owned_targets e' <= max_write_targets limits ->
  registry_ok limits next unsubmitted (entry_replaced st e e' activity expiry).
Proof.
  intros [Hinv Hn Hs Hc Hcl Ht] He Hinv' Hs' Ht'. split; try done.
  - simpl. intros id s [[_ E]|[_ Hl]]%lookup_insert_Some; [by apply Hs'|by eapply Hs].
  - unfold session_count, entry_replaced in *. simpl. rewrite map_size_insert_Some; [done|by rewrite He].
Qed.

Section update.
Context (st : SessionRegistryState) (id : InodeId) (s s' : WriteSession).
Context (Hok : registry_ok limits next unsubmitted st) (Hl : entries st !! id = Some (Active s)).
Context (Hplace : same_place (Active s) (Active s')) (Hs' : session_ok limits next unsubmitted s').
Context (Ht : outstanding_write_targets st - owned_targets (Active s) + owned_targets (Active s')
              <= max_write_targets limits).

Lemma session_id : ws_inode_id s = id.
Proof. apply (ri_entries _ (ro_inv _ _ _ _ Hok) _ _ Hl). Qed.

Lemma session_updated_ok :
  retirement_at_ms (Active s') = retirement_at_ms (Active s) ->
  registry_ok limits next unsubmitted (entry_replaced st (Active s) (Active s') (ancestor_activity st) (entries_by_expiry st)).
Proof.
  intros Hr. assert (entries st !! entry_inode_id (Active s) = Some (Active s)) as Hl' by (simpl; by rewrite session_id).
  apply entry_replaced_ok; try done.
  - by apply entry_updated_inv; [apply (ro_inv _ _ _ _ Hok)|..].
  - by intros ? [= <-].
Qed.

(** An update that moves the retirement time, in either order of the writes. *)
Lemma session_moved_ok :
  exists st', registry_ok limits next unsubmitted st' /\ same_counters st st' /\ create_openings st' = create_openings st /\
    entries st' = <[id := Active s']> (entries st) /\
    outstanding_write_targets st' = outstanding_write_targets st - owned_targets (Active s) + owned_targets (Active s') /\
    (owned_targets (Active s') = owned_targets (Active s) -> pending_targets (Active s') = pending_targets (Active s) ->
     move_expiry_indexes (put_session st id s') id (ws_ancestor_inode_ids s)
       (retirement_at_ms (Active s)) (retirement_at_ms (Active s')) = Ok st' /\
     (st1 ← move_expiry_indexes st id (ws_ancestor_inode_ids s) (retirement_at_ms (Active s))
              (retirement_at_ms (Active s')); Ok (put_session st1 id s')) = Ok st') /\
    (pending_targets (Active s') = pending_targets (Active s) ->
     move_expiry_indexes (set_outstanding_write_targets (put_session st id s') (outstanding_write_targets st'))
       id (ws_ancestor_inode_ids s) (retirement_at_ms (Active s)) (retirement_at_ms (Active s')) = Ok st').
Proof.
  assert (entries st !! entry_inode_id (Active s) = Some (Active s)) as Hl' by (simpl; by rewrite session_id).
  destruct (move_ok st (Active s) (Active s') (ro_inv _ _ _ _ Hok) Hl' Hplace) as (activity & Hinv & Hmove).
  eexists. split; [apply (entry_replaced_ok st (Active s) (Active s') _ _ Hok Hl' Hinv); [by intros ? [= <-]|done]|].
  split; [done|]. split; [done|]. split; [simpl; by rewrite session_id|]. split; [done|].
  cbn [entry_inode_id] in Hmove. rewrite session_id in Hmove.
  change (entry_ancestor_inode_ids (Active s)) with (ws_ancestor_inode_ids s) in Hmove.
  rewrite !Hmove by done. rewrite Ok_bind. unfold entry_replaced. cbn [entry_inode_id]. rewrite session_id.
  clear. split; [intros Ho Hp; rewrite Ho, Hp|intros Hp; rewrite Hp]; open_state st; cbv [put_session]; reg;
    unfold opening_bit; cbn [is_opening]; [split|]; f_equal; f_equal; lia.
Qed.
End update.

(** ** Activation *)

Lemma current_opening_Some st id n o :
  current_opening st id n = Some o -> entries st !! id = Some (Opening o) /\ os_opening_id o = n.
Proof.
  unfold current_opening. destruct (entries st !! id) as [[o'|]|]; try done. case_bool_decide; [|done]. by intros [= <-].
Qed.

Lemma fresh_session_ok s :
  ws_issued_steps s = ∅ -> ws_pending_allocate_block s = None -> ws_active_publication s = None ->
  ws_publication_submitted s = false ->
  (length (ws_issued_targets s) <= 1)%nat -> session_ok limits next unsubmitted s.
Proof.
  intros Hst Hp Hpub Hsub Hlen. pose proof limits_pos. split; try congruence.
  - intros k i. by rewrite Hst, lookup_empty.
  - simpl. rewrite Hp. lia.
  - intros i t t' _ Hi%lookup_lt_Some. lia.
Qed.

Lemma activate_opening_ok st id n epoch now file tail :
  registry_ok limits next unsubmitted st ->
  exists st' res, activate_opening limits st id n epoch now file tail = Ok (st', res) /\ registry_ok limits next unsubmitted st'.
Proof.
  intros Hok. unfold activate_opening. destruct (current_opening st id n) as [o|] eqn:Ho; [|by eauto].
  apply current_opening_Some in Ho as [Hl <-].
  destruct (Z.leb_spec (os_expires_at_ms o) now).
  { destruct (retire_entry_for_inode_ok st id now Hok) as (st1 & -> & Hr & _). rewrite Ok_bind. eauto using rt_ok. }
  case_bool_decide; [by eauto|]. destruct (_ || _); [by eauto|]. destruct (_ && _) eqn:Hlim; [by eauto|].
  set (s := mk_WriteSession _ _ _ _ _ _ _ _ _ _ _ _ _ _ _ _).
  pose proof (ri_entries _ (ro_inv _ _ _ _ Hok) _ _ Hl) as Hid. simpl in Hid.
  assert (entries st !! entry_inode_id (Opening o) = Some (Opening o)) as Hl' by (simpl; by rewrite Hid).
  assert (owned_targets (Active s) = if tail then 1 else 0) as Howned by (simpl; by destruct tail).
  assert (registry_ok limits next unsubmitted (entry_replaced st (Opening o) (Active s) (ancestor_activity st) (entries_by_expiry st))) as Hok'.
  { apply entry_replaced_ok; [done|done| | |].
    - by apply entry_updated_inv; [apply (ro_inv _ _ _ _ Hok)|..].
    - intros ? [= <-]. apply fresh_session_ok; try done. by destruct tail; simpl; lia.
    - rewrite Howned. change (owned_targets (Opening o)) with 0. pose proof (ro_targets _ _ _ _ Hok).
      destruct tail; simpl in Hlim; [bool_prop|]; lia. }
  pose proof (gauges_ok _ (ro_inv _ _ _ _ Hok')) as Hg.
  assert (1 <= opening_sessions st) as Hop.
  { rewrite (ri_opening _ (ro_inv _ _ _ _ Hok)).
    apply (msum_lookup opening_bit _ _ _ (fun _ e _ => opening_bit_nonneg e) Hl). }
  exists (entry_replaced st (Opening o) (Active s) (ancestor_activity st) (entries_by_expiry st)), (Ok s).
  split; [|done]. clear Hl Hl' Hok Hok'. unfold entry_replaced in *. cbn [entry_inode_id] in *. rewrite Hid in *. rewrite Howned in *.
  change (owned_targets (Opening o)) with 0 in *. change (pending_targets (Opening o)) with 0 in *.
  change (pending_targets (Active s)) with 0 in *. change (opening_bit (Opening o)) with 1 in *.
  change (opening_bit (Active s)) with 0 in *. clearbody s. open_state st. cbv [put_session]. reg. reg in Hg. reg in Hop.
  rewrite expect_sub by done. reg. rewrite ?Z.add_0_r, ?Z.sub_0_r in *. by rewrite Hg.
Qed.

Lemma activate_create_ok st op n id epoch expires layout generation now :
  registry_ok limits next unsubmitted st ->
  exists st' res, activate_create_opening st op n id epoch expires layout generation now = Ok (st', res) /\
    registry_ok limits next unsubmitted st'.
Proof.
  intros Hok. unfold activate_create_opening. destruct (create_openings st !! op) as [o|] eqn:Ho; [|by eauto].
  case_bool_decide; [by eauto|].
  destruct (remove_create_ok st op o (ro_inv _ _ _ _ Hok) Ho) as (st1 & Hrm & Hinv1 & Hctr & Hes & Hcs & Hac & _).
  assert (registry_ok limits next unsubmitted st1) as Hok1.
  { apply (registry_ok_sub st); rewrite ?Hes, ?Hcs; try done. apply delete_subseteq. }
  destruct (_ || _); [rewrite Hrm, Ok_bind; by eauto|].
  destruct (_ || _) eqn:Hbad; [by eauto|]. bool_prop. destruct (negb _); [by eauto|].
  rewrite Hrm, Ok_bind. cbn [expect]. rewrite Ok_bind.
  match goal with |- context [insert_entry ?s ?e] => destruct (entry_inserted_ok s e) as [-> Hok3] end; try done.
  - simpl. rewrite Hes. by apply eq_None_not_Some.
  - simpl. intros op' [= <-]. rewrite Hac, Hcs, lookup_delete_eq. split; [|done].
    apply (ri_disjoint _ (ro_inv _ _ _ _ Hok)). eauto.
  - intros s [= <-]. by apply fresh_session_ok; simpl; try lia.
  - pose proof (ro_count _ _ _ _ Hok). unfold session_count in *. rewrite Hes, Hcs.
    rewrite map_size_delete_Some by eauto. assert (0 < size (create_openings st))%nat; [|lia].
    apply Nat.neq_0_lt_0. intros E%map_size_empty_inv. by rewrite E, lookup_empty in Ho.
  - pose proof (ro_client _ _ _ _ Hok (co_open_client_id o)) as Hcl.
    rewrite count_client_eq in Hcl by apply (ro_inv _ _ _ _ Hok).
    simpl. rewrite count_client_eq, Hes, Hcs, (msum_delete (create_client_of _) _ _ _ Ho) by done.
    change (create_client_of (co_open_client_id o) o) with (at_key (co_open_client_id o) (co_open_client_id o)).
    rewrite at_key_eq. lia.
  - rewrite Ok_bind. eauto.
Qed.

(** ** Write targets *)

Lemma active_session_Ok st id s : active_session st id = Ok s <-> entries st !! id = Some (Active s).
Proof. unfold active_session. destruct (entries st !! id) as [[]|]; naive_solver. Qed.

Lemma np_active_session st id : active_session st id <> Panic.
Proof. unfold active_session. by destruct (entries st !! id) as [[]|]. Qed.

Lemma np_next_offset s : next_target_file_offset s <> Panic.
Proof. unfold next_target_file_offset. destruct (last _); [|done]. by destruct (checked_add64 _ _). Qed.

Lemma np_check_allocate s epoch previous : check_allocate limits s epoch previous <> Panic.
Proof.
  unfold check_allocate. apply np_bind; [auto with np|]. intros ? _. destruct (ws_issued_steps s !! previous).
  - no_panic.
  - repeat (apply np_bind; [first [apply np_reject|apply np_map_err, np_next_offset]|]; intros ? _). done.
Qed.

Lemma check_allocate_new s epoch previous layout client offset :
  check_allocate limits s epoch previous = Ok (inr (layout, client, offset)) ->
  ws_lease_epoch s = epoch /\ ws_issued_steps s !! previous = None /\ ws_active_publication s = None /\
  previous = lb_block_id <$> last (ws_issued_targets s) /\ ws_pending_allocate_block s = None /\
  next_target_file_offset s = Ok offset /\ layout = ws_layout s /\ client = ws_open_client_id s /\
  Z.of_nat (length (ws_issued_targets s)) < max_write_targets_per_session limits.
Proof.
  unfold check_allocate. intros H. unbind H as u Hep. destruct (ws_issued_steps s !! previous) eqn:Hst.
  { unbind H as t Ht. done. }
  unbind H as u1 Hpub. unbind H as u2 Hprev. unbind H as u3 Hpend. unbind H as off Hoff. unbind H as u4 Hlim.
  bool_prop. injection H as <- <- <-. split_and!; try done.
  - by apply eq_None_not_Some.
  - by apply eq_None_not_Some.
Qed.

(** The state in which a session has been replaced and the counters adjusted. *)
Lemma put_counted st id s s' :
  ws_inode_id s = id ->
  set_pending_write_targets (set_outstanding_write_targets (put_session st id s')
      (outstanding_write_targets st - owned_targets (Active s) + owned_targets (Active s')))
      (pending_write_targets st - pending_targets (Active s) + pending_targets (Active s'))
  = entry_replaced st (Active s) (Active s') (ancestor_activity st) (entries_by_expiry st).
Proof.
  intros Hid. unfold entry_replaced, opening_bit. cbn [entry_inode_id is_opening]. rewrite Hid. open_state st.
  cbv [put_session]. reg. f_equal; lia.
Qed.

Lemma put_pending st id s s' :
  ws_inode_id s = id -> owned_targets (Active s') = owned_targets (Active s) ->
  set_pending_write_targets (put_session st id s')
    (pending_write_targets st - pending_targets (Active s) + pending_targets (Active s'))
  = entry_replaced st (Active s) (Active s') (ancestor_activity st) (entries_by_expiry st).
Proof.
  intros Hid Ho. rewrite <- (put_counted st id) by done. rewrite Ho. open_state st. cbv [put_session]. reg. f_equal; lia.
Qed.

Lemma put_outstanding st id s s' :
  ws_inode_id s = id -> pending_targets (Active s') = pending_targets (Active s) ->
  set_outstanding_write_targets (put_session st id s')
    (outstanding_write_targets st - owned_targets (Active s) + owned_targets (Active s'))
  = entry_replaced st (Active s) (Active s') (ancestor_activity st) (entries_by_expiry st).
Proof.
  intros Hid Ho. rewrite <- (put_counted st id) by done. rewrite Ho. open_state st. cbv [put_session]. reg. f_equal; lia.
Qed.

Lemma put_uncounted st id s s' :
  ws_inode_id s = id -> owned_targets (Active s') = owned_targets (Active s) ->
  pending_targets (Active s') = pending_targets (Active s) ->
  put_session st id s' = entry_replaced st (Active s) (Active s') (ancestor_activity st) (entries_by_expiry st).
Proof.
  intros Hid Ho Hp. rewrite <- (put_counted st id) by done. rewrite Ho, Hp. open_state st. cbv [put_session]. reg. f_equal; lia.
Qed.

Lemma pending_below_outstanding st : registry_inv st -> 0 <= pending_write_targets st <= outstanding_write_targets st.
Proof.
  intros Hinv. rewrite (ri_pending _ Hinv), (ri_outstanding _ Hinv). split.
  - apply msum_nonneg. intros _ e _. apply pending_nonneg.
  - apply msum_le. intros _ e _. apply owned_nonneg.
Qed.

(** A session without a publication and without a submitted one. *)
Lemma idle_not_submitted s : session_ok limits next unsubmitted s -> ws_active_publication s = None -> ws_publication_submitted s = false.
Proof.
  intros Hs Hn. destruct (ws_publication_submitted s) eqn:E; [|done]. destruct (so_submitted _ _ _ _ Hs E). congruence.
Qed.

Lemma begin_allocate_ok st id epoch previous now :
  max_write_targets limits <= u64_max -> registry_ok limits next unsubmitted st ->
  exists st' res, begin_allocate_block limits st id epoch previous now = Ok (st', res) /\ registry_ok limits next unsubmitted st'.
Proof.
  intros Hmax Hok. unfold begin_allocate_block. destruct (retire_for_ok st id now Hok) as (st2 & -> & Hr2 & _).
  rewrite Ok_bind. pose proof (rt_ok _ _ _ Hr2) as Hok2. clear Hok st Hr2. rename st2 into st, Hok2 into Hok.
  destruct (active_session st id) as [s|e|] eqn:Hs; cbn [map_err]; [rewrite Ok_bind|by simpl; eauto|by apply np_active_session in Hs].
  apply active_session_Ok in Hs.
  destruct (check_allocate limits s epoch previous) as [[t|[[layout client] offset]]|e|] eqn:Hc;
    [rewrite !Ok_bind; by eauto|rewrite Ok_bind|by simpl; eauto|by apply np_check_allocate in Hc].
  destruct (Z.leb_spec (max_write_targets limits) (outstanding_write_targets st)); [by eauto|].
  apply check_allocate_new in Hc as (_ & Hstep & Hpub & _ & Hpend & _ & _ & _ & Hlen).
  rewrite assert_ok by done. pose proof (session_id st id s Hok Hs) as Hid. pose proof (ro_sessions _ _ _ _ Hok _ _ Hs) as Hso.
  set (s' := session_with_pending s _).
  assert (owned_targets (Active s') = owned_targets (Active s) + 1) as Ho by (simpl; rewrite Hpend; lia).
  assert (pending_targets (Active s') = pending_targets (Active s) + 1) as Hp by (simpl; rewrite Hpend; lia).
  assert (registry_ok limits next unsubmitted (entry_replaced st (Active s) (Active s') (ancestor_activity st) (entries_by_expiry st))) as Hok'.
  { apply (session_updated_ok st id); try done; [|lia]. destruct Hso. split; try done.
    - by intros p [= <-].
    - simpl. lia. }
  exists (entry_replaced st (Active s) (Active s') (ancestor_activity st) (entries_by_expiry st)). eexists. split; [|done].
  pose proof (pending_below_outstanding st (ro_inv _ _ _ _ Hok)).
  pose proof (target_gauges_ok _ (ro_inv _ _ _ _ Hok')) as Hg. rewrite <- (put_counted st id) in * by done.
  rewrite Ho, Hp in *.
  replace (outstanding_write_targets st - _ + _) with (outstanding_write_targets st + 1) in * by lia.
  replace (pending_write_targets st - _ + _) with (pending_write_targets st + 1) in * by lia.
  change (outstanding_write_targets (put_session st id s')) with (outstanding_write_targets st).
  rewrite expect_add by lia.
  change (pending_write_targets (set_outstanding_write_targets (put_session st id s') _)) with (pending_write_targets st).
  rewrite expect_add, Hg by lia. done.
Qed.

Lemma holds_pending_Some st id epoch p s :
  holds_pending st id epoch p = Some s ->
  entries st !! id = Some (Active s) /\ ws_lease_epoch s = epoch /\ ws_pending_allocate_block s = Some p.
Proof.
  unfold holds_pending. destruct (entries st !! id) as [[|s']|]; try done. destruct (_ && _) eqn:E; [|done].
  bool_prop. by intros [= <-].
Qed.

(** Releasing a pending step. *)
Lemma cancel_locked_ok st id epoch p :
  registry_ok limits next unsubmitted st ->
  exists st' b, cancel_write_target_locked st id epoch p = Ok (st', b) /\ registry_ok limits next unsubmitted st'.
Proof.
  intros Hok. unfold cancel_write_target_locked. destruct (holds_pending st id epoch p) as [s|] eqn:Hh; [|by eauto].
  apply holds_pending_Some in Hh as (Hs & _ & Hpend). pose proof (session_id st id s Hok Hs) as Hid.
  pose proof (ro_sessions _ _ _ _ Hok _ _ Hs) as Hso. set (s' := session_with_pending s None).
  assert (owned_targets (Active s') = owned_targets (Active s) - 1) as Ho by (simpl; rewrite Hpend; lia).
  assert (pending_targets (Active s') = pending_targets (Active s) - 1) as Hp by (simpl; rewrite Hpend; lia).
  assert (registry_ok limits next unsubmitted (entry_replaced st (Active s) (Active s') (ancestor_activity st) (entries_by_expiry st))) as Hok'.
  { pose proof (ro_targets _ _ _ _ Hok). apply (session_updated_ok st id); try done; [|lia]. destruct Hso. split; try done. simpl in *. lia. }
  exists (entry_replaced st (Active s) (Active s') (ancestor_activity st) (entries_by_expiry st)), true. split; [|done].
  pose proof (msum_lookup pending_targets _ _ _ (fun _ e _ => proj1 (pending_nonneg e)) Hs) as Hle.
  rewrite <- (ri_pending _ (ro_inv _ _ _ _ Hok)) in Hle. pose proof (pending_below_outstanding st (ro_inv _ _ _ _ Hok)).
  assert (pending_targets (Active s) = 1) as H1 by (simpl; by rewrite Hpend).
  pose proof (target_gauges_ok _ (ro_inv _ _ _ _ Hok')) as Hg. rewrite <- (put_counted st id) in * by done. rewrite Ho, Hp in *.
  replace (outstanding_write_targets st - _ + _) with (outstanding_write_targets st - 1) in * by lia.
  replace (pending_write_targets st - _ + _) with (pending_write_targets st - 1) in * by lia.
  change (outstanding_write_targets (put_session st id s')) with (outstanding_write_targets st).
  rewrite expect_sub by lia.
  change (pending_write_targets (set_outstanding_write_targets (put_session st id s') _)) with (pending_write_targets st).
  rewrite expect_sub, Hg by lia. done.
Qed.

Lemma contiguous_snoc targets t :
  contiguous targets ->
  (forall t', last targets = Some t' -> lb_file_offset t = lb_file_offset t' + lb_block_size t') ->
  contiguous (targets ++ [t]).
Proof.
  intros Hc Hl i a b Ha Hb. destruct (decide (S i < length targets)%nat) as [Hlt|Hge].
  - rewrite lookup_app_l in Ha by lia. rewrite lookup_app_l in Hb by lia. by eapply Hc.
  - pose proof (lookup_lt_Some _ _ _ Hb) as Hlen. rewrite length_app in Hlen. simpl in Hlen.
    assert (S i = length targets) as Hi by lia. rewrite Hi, lookup_app_r, Nat.sub_diag in Hb by lia. injection Hb as <-.
    rewrite lookup_app_l in Ha by lia. apply Hl. rewrite last_lookup, <- Hi. done.
Qed.

Lemma contiguous_take targets n : contiguous targets -> contiguous (take n targets).
Proof.
  intros Hc i a b Ha Hb. apply lookup_take_Some in Ha as [Ha _], Hb as [Hb _]. by eapply Hc.
Qed.

Lemma np_block_format_spec f : block_format_spec f <> Panic.
Proof. unfold block_format_spec, block_format_from_raw. by repeat case_bool_decide. Qed.
Hint Resolve np_block_format_spec : np.

Lemma np_block_shape_new f b c e : block_shape_new f b c e <> Panic.
Proof. unfold block_shape_new, validate_block_layout_parts, validate_effective_len. no_panic. Qed.

Lemma np_block_shape_for l e : block_shape_for_effective_len l e <> Panic.
Proof. unfold block_shape_for_effective_len. apply np_bind; [auto with np|]. intros ? _. apply np_block_shape_new. Qed.
Hint Resolve np_block_shape_new np_block_shape_for np_next_offset np_active_session : np.

Lemma np_validate_target s epoch t : validate_write_target s epoch t <> Panic.
Proof.
  unfold validate_write_target. no_panic.
Qed.

Lemma validate_target_offset s epoch t :
  validate_write_target s epoch t = Ok tt -> next_target_file_offset s = Ok (lb_file_offset t).
Proof.
  unfold validate_write_target. intros H. unbind H as u1 H1. unbind H as u2 H2. unbind H as off Hoff. unbind H as u3 H3.
  bool_prop. congruence.
Qed.

Lemma next_offset_last s t off :
  next_target_file_offset s = Ok off -> last (ws_issued_targets s) = Some t -> off = lb_file_offset t + lb_block_size t.
Proof.
  unfold next_target_file_offset. intros H Hl. rewrite Hl in H. destruct (checked_add64 _ _) as [x|] eqn:Hx; [|done].
  apply checked_add64_Some in Hx as [-> _]. by injection H as <-.
Qed.

(** The session with a completed step. *)
Definition completed (s : WriteSession) (p : PendingAllocateBlock) (t : LocatedBlock) : WriteSession :=
  session_with_pending (session_with_targets s (ws_issued_targets s ++ [t])
    (<[pa_previous_block_id p := length (ws_issued_targets s)]> (ws_issued_steps s))) None.

Lemma completed_ok s p epoch t :
  session_ok limits next unsubmitted s -> ws_pending_allocate_block s = Some p ->
  validate_write_target s epoch t = Ok tt -> session_ok limits next unsubmitted (completed s p t).
Proof.
  intros [] Hp Hv. split; try done; simpl in *.
  - intros k i. rewrite length_app. simpl. intros [[_ <-]|[_ Hi]]%lookup_insert_Some; [lia|]. apply so_steps0 in Hi. lia.
  - rewrite length_app, Hp in *. simpl. lia.
  - apply contiguous_snoc; [done|]. intros t' Hl. eapply next_offset_last; [|done]. by eapply validate_target_offset.
Qed.

Lemma pending_counted st id s p :
  registry_ok limits next unsubmitted st -> entries st !! id = Some (Active s) ->
  ws_pending_allocate_block s = Some p -> 1 <= pending_write_targets st.
Proof.
  intros Hok Hs Hp. pose proof (msum_lookup pending_targets _ _ _ (fun _ e _ => proj1 (pending_nonneg e)) Hs) as Hle.
  rewrite <- (ri_pending _ (ro_inv _ _ _ _ Hok)) in Hle. simpl in Hle. rewrite Hp in Hle. lia.
Qed.

Lemma complete_target_ok st id epoch p t now :
  registry_ok limits next unsubmitted st ->
  exists st' res, complete_write_target st id epoch p t now = Ok (st', res) /\ registry_ok limits next unsubmitted st' /\
    forall t', res = Ok t' -> t' = t /\ exists s, entries st !! id = Some (Active s) /\ ws_lease_epoch s = epoch /\
      ws_pending_allocate_block s = Some p /\ validate_write_target s epoch t = Ok tt /\
      entries st' !! id = Some (Active (completed s p t)).
Proof.
  intros Hok. unfold complete_write_target. destruct (retire_for_ok st id now Hok) as (st2 & -> & Hr2 & Hlive).
  rewrite Ok_bind. pose proof (rt_ok _ _ _ Hr2) as Hok2. clear Hok Hr2. rename st into st0, st2 into st, Hok2 into Hok.
  destruct (holds_pending st id epoch p) as [s|] eqn:Hh; [|by eexists _, _].
  destruct (validate_write_target s epoch t) as [[]|e|] eqn:Hv; [| |by apply np_validate_target in Hv].
  2:{ destruct (cancel_locked_ok st id epoch p Hok) as (st' & b & -> & Hok'). rewrite Ok_bind. by eexists _, _. }
  apply holds_pending_Some in Hh as (Hs & Hep & Hpend). pose proof (session_id st id s Hok Hs) as Hid.
  pose proof (ro_sessions _ _ _ _ Hok _ _ Hs) as Hso. rewrite assert_ok by (by apply (so_pending _ _ _ _ Hso)).
  fold (completed s p t). set (s' := completed s p t).
  assert (owned_targets (Active s') = owned_targets (Active s)) as Ho.
  { simpl. rewrite length_app, Hpend. simpl. lia. }
  assert (registry_ok limits next unsubmitted
            (entry_replaced st (Active s) (Active s') (ancestor_activity st) (entries_by_expiry st))) as Hok'.
  { pose proof (ro_targets _ _ _ _ Hok). apply (session_updated_ok st id); try done; [by eapply completed_ok|lia]. }
  pose proof (pending_counted st id s p Hok Hs Hpend).
  exists (entry_replaced st (Active s) (Active s') (ancestor_activity st) (entries_by_expiry st)), (Ok t). split.
  2:{ split; [done|]. intros ? [= <-]. split; [done|]. exists s. split_and!; try done; [by apply Hlive|].
      simpl. by rewrite Hid, lookup_insert_eq. }
  pose proof (target_gauges_ok _ (ro_inv _ _ _ _ Hok')) as Hg. rewrite <- (put_pending st id) in * by done.
  change (pending_targets (Active s')) with 0 in *.
  replace (pending_targets (Active s)) with 1 in * by (simpl; by rewrite Hpend).
  replace (pending_write_targets st - 1 + 0) with (pending_write_targets st - 1) in * by lia.
  change (pending_write_targets (put_session st id s')) with (pending_write_targets st).
  rewrite expect_sub, Hg by lia. done.
Qed.

Lemma cancel_target_ok st r :
  registry_ok limits next unsubmitted st ->
  exists st', cancel_write_target st r = Ok st' /\ registry_ok limits next unsubmitted st'.
Proof.
  intros Hok. unfold cancel_write_target.
  destruct (cancel_locked_ok st (wr_inode_id r) (wr_lease_epoch r) (wr_pending r) Hok) as (st' & b & -> & Hok').
  rewrite Ok_bind. eauto.
Qed.

(** ** Publications *)

Lemma owned_publication_Ok st id epoch n s :
  owned_publication st id epoch n = Ok s ->
  entries st !! id = Some (Active s) /\ ws_lease_epoch s = epoch /\ ws_active_publication s = Some n.
Proof.
  unfold owned_publication. intros H. unbind H as s0 Hs. unbind H as u1 H1. unbind H as u2 H2. bool_prop.
  injection H as <-. by apply active_session_Ok in Hs.
Qed.

Lemma np_owned_publication st id epoch n : owned_publication st id epoch n <> Panic.
Proof. unfold owned_publication. no_panic. Qed.

Lemma revalidate_ok st id epoch n now :
  registry_ok limits next unsubmitted st ->
  exists st' res, revalidate_publication st id epoch n now = Ok (st', res) /\ registry_ok limits next unsubmitted st'.
Proof.
  intros Hok. unfold revalidate_publication. destruct (retire_for_ok st id now Hok) as (st2 & -> & Hr2 & _).
  rewrite Ok_bind. eexists _, _. split; [done|]. apply (rt_ok _ _ _ Hr2).
Qed.

(** Giving a publication up, when it was not submitted. *)
Lemma cancel_publication_ok st id epoch n :
  registry_ok limits next unsubmitted st -> n ∈ unsubmitted ->
  registry_ok limits next unsubmitted (cancel_publication st id epoch n).
Proof.
  intros Hok Hn. unfold cancel_publication. destruct (owned_publication st id epoch n) as [s|?|] eqn:Hs; [|done..].
  apply owned_publication_Ok in Hs as (Hs & _ & Hpub). pose proof (ro_sessions _ _ _ _ Hok _ _ Hs) as Hso.
  pose proof (proj2 (so_publication _ _ _ _ Hso _ Hpub) Hn) as Hsub.
  rewrite (put_uncounted st id s) by (done || by eapply session_id). pose proof (ro_targets _ _ _ _ Hok).
  apply (session_updated_ok st id); try done; [|simpl in *; lia].
  destruct Hso. split; try done; simpl; [intros p Hp; split; [by apply so_pending0|done]|]. congruence.
Qed.

Lemma drop_publication_ok st p :
  registry_ok limits next unsubmitted st -> (wp_submitted p = false -> wp_publication_id p ∈ unsubmitted) ->
  registry_ok limits next unsubmitted (drop_publication st p).
Proof.
  intros Hok Hp. unfold drop_publication. destruct (wp_submitted p); [done|]. apply cancel_publication_ok; auto.
Qed.

Lemma removed_ok st id e :
  registry_ok limits next unsubmitted st -> entries st !! id = Some e ->
  exists st', remove_entry st id = Ok (st', Some e) /\ registry_ok limits next unsubmitted st'.
Proof.
  intros Hok Hs. destruct (remove_entry_ok st id _ (ro_inv _ _ _ _ Hok) Hs) as (st' & Hr & Hinv & Hc & Hes & Hcs & _).
  exists st'. split; [done|]. apply (registry_ok_sub st); rewrite ?Hes, ?Hcs; try done. apply delete_subseteq.
Qed.

Lemma complete_commit_ok st id epoch n :
  registry_ok limits next unsubmitted st ->
  exists st', complete_commit_publication st id epoch n = Ok st' /\ registry_ok limits next unsubmitted st'.
Proof.
  intros Hok. unfold complete_commit_publication. destruct (owned_publication st id epoch n) as [s|?|] eqn:Hs; [|by eauto..].
  apply owned_publication_Ok in Hs as (Hs & _ & _).
  destruct (removed_ok st id _ Hok Hs) as (st' & -> & Hok'). rewrite Ok_bind. eauto.
Qed.

(** A publication of the session gone, with or without fewer targets. *)
Lemma released_session_ok s s' :
  session_ok limits next unsubmitted s -> ws_active_publication s' = None -> ws_publication_submitted s' = false ->
  ws_pending_allocate_block s' = ws_pending_allocate_block s ->
  (exists n, ws_issued_targets s' = take n (ws_issued_targets s) /\
     forall k i, ws_issued_steps s' !! k = Some i -> ws_issued_steps s !! k = Some i /\ (i < n)%nat) ->
  session_ok limits next unsubmitted s'.
Proof.
  intros [] Hpub Hsub Hpend (n & Ht & Hst). split; rewrite ?Hpub; try done.
  - rewrite Hpend. intros p Hp. split; [|done]. destruct (so_pending0 p Hp) as [Hn _].
    destruct (ws_issued_steps s' !! _) eqn:E; [|done]. apply Hst in E as [E _]. congruence.
  - intros k i [Hi Hlt]%Hst. rewrite Ht, length_take. apply so_steps0 in Hi. lia.
  - simpl in *. rewrite Ht, Hpend, length_take. lia.
  - congruence.
  - rewrite Ht. by apply contiguous_take.
Qed.

(** [release_sync_publication] after the session was rewritten to [s1]. *)
Lemma release_ok st id s s1 :
  registry_ok limits next unsubmitted st -> entries st !! id = Some (Active s) ->
  same_place (Active s) (Active s1) -> ws_publication_submitted s1 = ws_publication_submitted s ->
  ws_expires_at_ms s1 = ws_expires_at_ms s -> pending_targets (Active s1) = pending_targets (Active s) ->
  owned_targets (Active s1) <= owned_targets (Active s) ->
  session_ok limits next unsubmitted (session_with_publication s1 None false) ->
  exists st', registry_ok limits next unsubmitted st' /\
    release_sync_publication (set_outstanding_write_targets (put_session st id s1)
      (outstanding_write_targets st - owned_targets (Active s) + owned_targets (Active s1))) id = Ok st'.
Proof.
  intros Hok Hs Hplace Hsub Hexp Hpend Hown Hs1. pose proof (ro_targets _ _ _ _ Hok).
  set (s2 := session_with_publication s1 None false) in *. unfold release_sync_publication.
  rewrite (proj2 (active_session_Ok _ id s1)) by (simpl; by rewrite lookup_insert_eq). fold s2.
  replace (put_session _ id s2) with (set_outstanding_write_targets (put_session st id s2)
    (outstanding_write_targets st - owned_targets (Active s) + owned_targets (Active s2)))
    by (clear; open_state st; cbv [put_session]; reg; by rewrite insert_insert_eq).
  destruct (session_moved_ok st id s s2 Hok Hs Hplace Hs1) as (st' & Hok' & _ & _ & _ & Ho & _ & Hmove);
    [change (owned_targets (Active s2)) with (owned_targets (Active s1)); lia|].
  destruct (ws_publication_submitted s1) eqn:Hsub1.
  - exists st'. split; [done|]. rewrite <- Ho. rewrite <- Hmove by done. simpl. rewrite <- Hsub.
    destruct Hplace as (_ & _ & Ha & _). simpl in Ha. by rewrite Ha.
  - eexists. split; [|done]. rewrite put_outstanding by (done || exact (session_id st id s Hok Hs)).
    apply (session_updated_ok st id); try done; [change (owned_targets (Active s2)) with (owned_targets (Active s1)); lia|].
    simpl. by rewrite <- Hsub, Hexp.
Qed.

Lemma targets_below_length targets size : (targets_below targets size <= length targets)%nat.
Proof. induction targets as [|t targets IH]; simpl; [done|]. destruct (_ <? _); lia. Qed.

Lemma complete_sync_ok st id epoch n generation size now :
  registry_ok limits next unsubmitted st ->
  exists st' res, complete_sync_publication st id epoch n generation size now = Ok (st', res) /\
    registry_ok limits next unsubmitted st'.
Proof.
  intros Hok. unfold complete_sync_publication. destruct (retire_for_ok st id now Hok) as (st2 & -> & Hr2 & _).
  rewrite Ok_bind. pose proof (rt_ok _ _ _ Hr2) as Hok2. clear Hok st Hr2. rename st2 into st, Hok2 into Hok.
  destruct (owned_publication st id epoch n) as [s|?|] eqn:Hp; [|by eauto|by apply np_owned_publication in Hp].
  apply owned_publication_Ok in Hp as (Hs & _ & Hpub). pose proof (ro_sessions _ _ _ _ Hok _ _ Hs) as Hso.
  case_bool_decide as Hgen.
  - case_bool_decide; [by eauto|]. set (s1 := session_with_content s _ _ _).
    destruct (release_ok st id s s1 Hok Hs) as (st' & Hok' & Hrel); try done.
    { apply (released_session_ok s); try done. exists (length (ws_issued_targets s)). simpl. split; [by rewrite take_ge|].
      intros k i Hi. split; [done|]. by apply (so_steps _ _ _ _ Hso) in Hi. }
    exists st', (Ok tt). split; [|done].
    replace (outstanding_write_targets st - _ + _) with (outstanding_write_targets st) in Hrel by (simpl; lia).
    change (set_outstanding_write_targets (put_session st id s1) (outstanding_write_targets st)) with (put_session st id s1) in Hrel.
    by rewrite Hrel.
  - destruct (generation_checked_next (ws_generation s)); [|by eauto]. case_bool_decide; [by eauto|].
    set (retained := targets_below (ws_issued_targets s) size).
    pose proof (targets_below_length (ws_issued_targets s) size) as Hret. fold retained in Hret.
    set (s1 := session_with_publication _ None _).
    assert (owned_targets (Active s1) = owned_targets (Active s) - Z.of_nat (length (ws_issued_targets s) - retained)) as Ho.
    { simpl. rewrite length_take. lia. }
    destruct (release_ok st id s s1 Hok Hs) as (st' & Hok' & Hrel); try done; [lia| |].
    { apply (released_session_ok s); try done. exists retained. simpl. split; [done|]. intros k i.
      by rewrite map_lookup_filter_Some. }
    pose proof (msum_lookup owned_targets _ _ _ (fun _ e _ => owned_targets_nonneg e) Hs) as Hle.
    rewrite <- (ri_outstanding _ (ro_inv _ _ _ _ Hok)) in Hle. pose proof (owned_targets_nonneg (Active s1)).
    change (outstanding_write_targets (put_session st id s1)) with (outstanding_write_targets st).
    rewrite expect_sub by lia.
    replace (outstanding_write_targets st - _ + _) with
      (outstanding_write_targets st - Z.of_nat (length (ws_issued_targets s) - retained)) in Hrel by lia.
    rewrite Hrel, Ok_bind. rewrite (target_gauges_ok _ (ro_inv _ _ _ _ Hok')). by eauto.
Qed.

(** ** Queries, renewal, removal *)

Lemma get_session_ok st id now :
  registry_ok limits next unsubmitted st ->
  exists st' res, get_session st id now = Ok (st', res) /\ registry_ok limits next unsubmitted st'.
Proof.
  intros Hok. unfold get_session. destruct (retire_for_ok st id now Hok) as (st2 & -> & Hr2 & _). rewrite Ok_bind.
  eexists _, _. split; [done|]. apply (rt_ok _ _ _ Hr2).
Qed.

Lemma get_session_identity_ok st id now :
  registry_ok limits next unsubmitted st ->
  exists st' res, get_session_identity st id now = Ok (st', res) /\ registry_ok limits next unsubmitted st'.
Proof.
  intros Hok. unfold get_session_identity. destruct (retire_for_ok st id now Hok) as (st2 & -> & Hr2 & _). rewrite Ok_bind.
  eexists _, _. split; [done|]. apply (rt_ok _ _ _ Hr2).
Qed.

Lemma remove_session_ok st id epoch :
  registry_ok limits next unsubmitted st ->
  exists st' res, remove_session_if_epoch st id epoch = Ok (st', res) /\ registry_ok limits next unsubmitted st'.
Proof.
  intros Hok. unfold remove_session_if_epoch. destruct (entries st !! id) as [[|s]|] eqn:Hs; [by eauto| |by eauto].
  case_bool_decide; [|by eauto]. destruct (removed_ok st id _ Hok Hs) as (st' & -> & Hok'). rewrite Ok_bind. eauto.
Qed.

Lemma retire_if_expired_ok st id now :
  registry_ok limits next unsubmitted st ->
  exists st' b, retire_if_expired st id now = Ok (st', b) /\ retired now st st'.
Proof.
  intros Hok. unfold retire_if_expired. destruct (retire_expired_entries_ok st now Hok) as (st1 & n & Hr & Hok1).
  destruct (retire_entry_for_inode_ok st id now Hok) as (st2 & Hr2 & Hok2 & _).
  destruct (entries st !! id) as [e|]; [destruct (_ <=? _)|]; rewrite ?Hr, ?Hr2, Ok_bind; by eauto.
Qed.

Lemma validate_session_ok st id epoch now :
  registry_ok limits next unsubmitted st ->
  exists st' res, validate_session st id epoch now = Ok (st', res) /\ registry_ok limits next unsubmitted st'.
Proof.
  intros Hok. unfold validate_session. destruct (retire_if_expired_ok st id now Hok) as (st1 & b & -> & Hr). rewrite Ok_bind.
  eexists _, _. split; [done|]. apply (rt_ok _ _ _ Hr).
Qed.

Lemma renew_session_ok st id epoch client now :
  registry_ok limits next unsubmitted st ->
  exists st' res, renew_session_at limits st id epoch client now = Ok (st', res) /\ registry_ok limits next unsubmitted st'.
Proof.
  intros Hok. unfold renew_session_at. destruct (retire_if_expired_ok st id now Hok) as (st1 & b & -> & Hr). rewrite Ok_bind.
  pose proof (rt_ok _ _ _ Hr) as Hok1. clear Hok Hr st. rename st1 into st, Hok1 into Hok.
  destruct b; [by eauto|]. destruct (entries st !! id) as [[|s]|] eqn:Hs; [by eauto| |by eauto].
  case_bool_decide; [by eauto|]. case_bool_decide; [by eauto|].
  set (t := Z.max _ _). set (s' := session_with_expiry s t).
  pose proof (ro_targets _ _ _ _ Hok). pose proof (ro_sessions _ _ _ _ Hok _ _ Hs) as Hso.
  assert (session_ok limits next unsubmitted s') as Hso' by (by destruct Hso).
  destruct (ws_publication_submitted s) eqn:Hsub.
  - rewrite Ok_bind. eexists _, _. split; [done|]. rewrite (put_uncounted st id s) by (done || by eapply session_id).
    apply (session_updated_ok st id); try done; [simpl in *; lia|]. simpl. by rewrite Hsub.
  - destruct (session_moved_ok st id s s' Hok Hs) as (st' & Hok' & _ & _ & _ & _ & Hmove & _); try done; [simpl in *; lia|].
    destruct (Hmove eq_refl eq_refl) as [_ Hm]. unfold retirement_at_ms in Hm. simpl in Hm. rewrite Hsub in Hm.
    unbind Hm as st1 Hm1. injection Hm as <-. rewrite Hm1, Ok_bind. eauto.
Qed.

Lemma active_under_ok st id now :
  registry_ok limits next unsubmitted st ->
  exists st' res, has_active_write_under_at st id now = Ok (st', res) /\ registry_ok limits next unsubmitted st'.
Proof.
  intros Hok. unfold has_active_write_under_at. destruct (retire_expired_entries_ok st now Hok) as (st1 & n & -> & Hr).
  rewrite Ok_bind. eexists _, _. split; [done|]. apply (rt_ok _ _ _ Hr).
Qed.

(** ** Owners *)

Lemma cancel_opening_ok st o :
  registry_ok limits next unsubmitted st ->
  exists st', cancel_opening st o = Ok st' /\ registry_ok limits next unsubmitted st'.
Proof.
  intros Hok. unfold cancel_opening. destruct (current_opening st _ _) eqn:Hc; [|by eauto].
  apply current_opening_Some in Hc as [Hs _]. destruct (removed_ok st _ _ Hok Hs) as (st' & -> & Hok'). rewrite Ok_bind. eauto.
Qed.

Lemma cancel_create_opening_ok st o :
  registry_ok limits next unsubmitted st ->
  exists st', cancel_create_opening st o = Ok st' /\ registry_ok limits next unsubmitted st'.
Proof.
  intros Hok. unfold cancel_create_opening. destruct (create_openings st !! _) as [c|] eqn:Hc; [|by eauto].
  case_bool_decide; [|by eauto].
  destruct (remove_create_ok st _ _ (ro_inv _ _ _ _ Hok) Hc) as (st' & -> & Hinv & Hctr & Hes & Hcs & _). rewrite Ok_bind.
  exists st'. split; [done|]. apply (registry_ok_sub st); rewrite ?Hes, ?Hcs; try done. apply delete_subseteq.
Qed.

Lemma write_opening_activate_ok st o epoch now file tail :
  registry_ok limits next unsubmitted st ->
  exists st' res, write_opening_activate limits st o epoch now file tail = Ok (st', res) /\
    registry_ok limits next unsubmitted st'.
Proof.
  intros Hok. unfold write_opening_activate.
  destruct (activate_opening_ok st (wo_inode_id o) (wo_opening_id o) epoch now file tail Hok) as (st1 & res & -> & Hok1).
  rewrite Ok_bind. destruct (cancel_opening_ok st1 o Hok1) as (st2 & Hc & Hok2). rewrite Hc.
  destruct res as [s|[]|]; rewrite ?Ok_bind; eauto.
Qed.

Lemma create_opening_activate_ok st o id epoch expires layout generation now :
  registry_ok limits next unsubmitted st ->
  exists st' res, create_opening_activate st o id epoch expires layout generation now = Ok (st', res) /\
    registry_ok limits next unsubmitted st'.
Proof.
  intros Hok. unfold create_opening_activate.
  destruct (activate_create_ok st (cro_operation_id o) (cro_opening_id o) id epoch expires layout generation now Hok)
    as (st1 & res & -> & Hok1).
  rewrite Ok_bind. destruct (cancel_create_opening_ok st1 o Hok1) as (st2 & Hc & Hok2). rewrite Hc.
  destruct res as [s|?|]; rewrite ?Ok_bind; eauto.
Qed.
End limits.
