(* ===== verification/SessionSystem.v ===== *)
(** * The session registry under every sequence of calls

    The registry with the publication owners its callers hold. The other owners
    carry no state the registry depends on, so a call may present any value of
    them. [registry_reach] are the states that calls can lead to, at any clock
    readings; the theorems hold in all of them. *)

From S2P Require Import Prelude Types Errors Inode Mount Store Namespace Session SessionInv SessionProps.
Local Open Scope Z_scope.

#[local] Opaque retire_expired_entries.

Inductive RegistryCall :=
| BeginCreateSessionAt (input : BeginCreateSessionInput)
| BeginSessionAt (input : BeginSessionInput)
| WriteOpeningActivate (o : WriteOpening) (returned : LeaseEpoch) (file : FileData) (tail : option LocatedBlock)
| WriteOpeningDrop (o : WriteOpening)
| CreateOpeningActivate (o : CreateOpening) (id : InodeId) (lease_epoch : LeaseEpoch) (expires_at_ms : Z)
    (layout : FileLayout) (generation : ContentGeneration)
| CreateOpeningDrop (o : CreateOpening)
| BeginAllocate (id : InodeId) (lease_epoch : LeaseEpoch) (previous : option BlockId)
| ReservationComplete (r : WriteTargetReservation) (target : LocatedBlock)
| ReservationDrop (r : WriteTargetReservation)
| BeginPublication (id : InodeId) (lease_epoch : LeaseEpoch)
| PublicationRevalidate (n : Z)
| PublicationMarkSubmitted (n : Z)
| PublicationCompleteSync (n : Z) (generation : ContentGeneration) (file_size : Z)
| PublicationCompleteCommit (n : Z)
| PublicationDrop (n : Z)
| GetSession (id : InodeId)
| GetSessionIdentity (id : InodeId)
| RemoveSessionIfEpoch (id : InodeId) (lease_epoch : LeaseEpoch)
| ValidateSession (id : InodeId) (lease_epoch : LeaseEpoch)
| RenewSessionAt (id : InodeId) (lease_epoch : LeaseEpoch) (client : ClientId)
| RetireExpiredBatch
| HasActiveWriteUnderAt (id : InodeId).

(** The registry and the publication owners, by publication identity. *)
Record System := mk_System {
  sy_state : SessionRegistryState;
  sy_publications : gmap Z WritePublication
}.

Definition System_init : System := mk_System registry_default ∅.

(** A method that only changes the registry. *)
Definition on_state {A} (sys : System) (r : step (SessionRegistryState * A)) : step System :=
  '(st, _) ← r; Ok (mk_System st (sy_publications sys)).
Definition on_state_only (sys : System) (r : step SessionRegistryState) : step System :=
  st ← r; Ok (mk_System st (sy_publications sys)).

(** A method of the publication owner [n], which exists. *)
Definition with_publication (sys : System) (n : Z) (f : WritePublication -> step System) : step System :=
  match sy_publications sys !! n with Some p => f p | None => Ok sys end.

Section system.
Context (limits : SessionLimits).

Definition call (sys : System) (now : Z) (c : RegistryCall) : step System :=
  let st := sy_state sys in
  let publications := sy_publications sys in
  match c with
  | BeginCreateSessionAt input => on_state sys (begin_create_session_at limits st input now)
  | BeginSessionAt input => on_state sys (begin_session_at limits st input now)
  | WriteOpeningActivate o epoch file tail => on_state sys (write_opening_activate limits st o epoch now file tail)
  | WriteOpeningDrop o => on_state_only sys (cancel_opening st o)
  | CreateOpeningActivate o id epoch expires layout generation =>
      on_state sys (create_opening_activate st o id epoch expires layout generation now)
  | CreateOpeningDrop o => on_state_only sys (cancel_create_opening st o)
  | BeginAllocate id epoch previous => on_state sys (begin_allocate_block limits st id epoch previous now)
  | ReservationComplete r target => on_state sys (reservation_complete st r target now)
  | ReservationDrop r => on_state_only sys (cancel_write_target st r)
  | BeginPublication id epoch =>
      '(st, res) ← begin_publication st id epoch now;
      Ok (mk_System st (match res with Ok p => <[wp_publication_id p := p]> publications | _ => publications end))
  | PublicationRevalidate n => with_publication sys n (fun p => on_state sys (publication_revalidate st p now))
  | PublicationMarkSubmitted n =>
      with_publication sys n (fun p =>
        '(st, res) ← mark_submitted st p now;
        Ok (mk_System st (match res with Ok p => <[n := p]> publications | _ => publications end)))
  | PublicationCompleteSync n generation size =>
      with_publication sys n (fun p =>
        '(st, _) ← publication_complete_sync st p generation size now;
        Ok (mk_System st (delete n publications)))
  | PublicationCompleteCommit n =>
      with_publication sys n (fun p =>
        st ← publication_complete_commit st p;
        Ok (mk_System st (delete n publications)))
  | PublicationDrop n =>
      with_publication sys n (fun p => Ok (mk_System (drop_publication st p) (delete n publications)))
  | GetSession id => on_state sys (get_session st id now)
  | GetSessionIdentity id => on_state sys (get_session_identity st id now)
  | RemoveSessionIfEpoch id epoch => on_state sys (remove_session_if_epoch st id epoch)
  | ValidateSession id epoch => on_state sys (validate_session st id epoch now)
  | RenewSessionAt id epoch client => on_state sys (renew_session_at limits st id epoch client now)
  | RetireExpiredBatch => on_state sys (retire_expired_batch st now)
  | HasActiveWriteUnderAt id => on_state sys (has_active_write_under_at st id now)
  end.

(** The states that calls lead to; a panic would leave the relation stuck. *)
Inductive registry_reach : System -> Prop :=
| reach_init : registry_reach System_init
| reach_call sys now c sys' : registry_reach sys -> call sys now c = Ok sys' -> registry_reach sys'.

(** The identities whose owners have not been submitted. *)
Definition unsubmitted_of (publications : gmap Z WritePublication) : gset Z :=
  dom (filter (fun e => wp_submitted e.2 = false) publications).

Record system_ok (sys : System) : Prop := {
  sk_registry : registry_ok limits (next_publication_id (sy_state sys)) (unsubmitted_of (sy_publications sys)) (sy_state sys);
  sk_publications : forall n p, sy_publications sys !! n = Some p ->
    wp_publication_id p = n /\ n < next_publication_id (sy_state sys)
}.

Lemma unsubmitted_spec publications n :
  n ∈ unsubmitted_of publications <-> exists p, publications !! n = Some p /\ wp_submitted p = false.
Proof. unfold unsubmitted_of. rewrite elem_of_dom. unfold is_Some. setoid_rewrite map_lookup_filter_Some. done. Qed.

Lemma registry_ok_weaken next U U' st :
  registry_ok limits next U st -> U' ⊆ U -> registry_ok limits next U' st.
Proof.
  intros [? ? Hse] HU. split; try done. intros id s Hs. destruct (Hse id s Hs) as [? ? ? ? Hpub ?]. split; try done.
  intros n Hn. destruct (Hpub n Hn). split; [done|]. set_solver.
Qed.

(** A new identity is not in use. *)
Lemma registry_ok_fresh next U st :
  registry_ok limits next U st ->
  registry_ok limits (next + 1) ({[next]} ∪ U) (set_next_publication_id st (next + 1)).
Proof.
  intros [Hinv ? Hse]. split; try done; [by destruct Hinv|]. intros id s Hs. destruct (Hse id s Hs) as [? ? ? ? Hpub ?]. split; try done.
  intros n Hn. destruct (Hpub n Hn). split; [lia|]. rewrite elem_of_union, elem_of_singleton. intros [->|]; [lia|auto].
Qed.

Context (Hlimits : limits_ok limits = true).

(** A publication of a session begins under a fresh identity. *)
Lemma begin_publication_ok next U st id epoch now :
  registry_ok limits next U st ->
  exists st' res, begin_publication st id epoch now = Ok (st', res) /\
    match res with
    | Ok p => wp_publication_id p = next /\ wp_submitted p = false /\ registry_ok limits (next + 1) ({[next]} ∪ U) st'
    | _ => registry_ok limits next U st'
    end.
Proof.
  intros Hok. unfold begin_publication. destruct (retire_for_ok limits next U st id now Hok) as (st2 & -> & Hr2 & _).
  rewrite Ok_bind. pose proof (rt_ok _ _ _ _ _ _ Hr2) as Hok2. clear Hok st Hr2. rename st2 into st, Hok2 into Hok.
  match goal with |- context [match ?r with Ok _ => _ | Err _ => _ | Panic => _ end] => destruct r as [s|e|] eqn:Hr end.
  2:{ eexists _, _. split; [done|]. done. }
  2:{ by apply np_bind in Hr; [|apply np_map_err, np_active_session|intros ? _; no_panic]. }
  unbind Hr as s0 Hs. unbind Hr as u1 H1. unbind Hr as u2 H2. unbind Hr as u3 H3. bool_prop. injection Hr as ->.
  destruct (active_session st id) as [s1|?|] eqn:Ha; try done. injection Hs as ->. apply active_session_Ok in Ha.
  destruct (checked_add64 (next_publication_id st) 1) as [n|] eqn:Hn; [|by eexists _, _].
  apply checked_add64_Some in Hn as [-> _]. rewrite (ro_next _ _ _ _ Hok). rewrite assert_ok by (by apply eq_None_not_Some).
  eexists _, _. split; [done|]. split; [done|]. split; [done|].
  pose proof (ro_sessions _ _ _ _ Hok _ _ Ha) as Hso. pose proof (registry_ok_fresh next U st Hok) as Hok'.
  rewrite (put_uncounted _ id s) by (done || by apply (session_id limits next U st id s Hok)).
  pose proof (ro_targets _ _ _ _ Hok). apply (session_updated_ok limits _ _ _ id); try done; [|simpl in *; lia].
  pose proof (idle_not_submitted limits next U s Hso) as Hidle.
  destruct Hso as [Hpend ? ? ? ? ?]. split; try done; simpl; [|intros n [= <-]; split; [lia|intros _; by apply Hidle, eq_None_not_Some]].
  intros p Hp. rewrite Hp in *. naive_solver.
Qed.

(** Submitting moves the session out of reach of expiry. *)
Lemma mark_submitted_ok next U st p now :
  registry_ok limits next U st -> (wp_submitted p = false -> wp_publication_id p ∈ U) ->
  exists st' res, mark_submitted st p now = Ok (st', res) /\
    match res with
    | Ok p' => wp_publication_id p' = wp_publication_id p /\ wp_submitted p' = true /\
               registry_ok limits next (U ∖ {[wp_publication_id p]}) st'
    | _ => registry_ok limits next U st'
    end.
Proof.
  intros Hok Hp. assert (registry_ok limits next (U ∖ {[wp_publication_id p]}) st) as Hok'
    by (eapply registry_ok_weaken; [done|set_solver]).
  unfold mark_submitted. destruct (wp_submitted p) eqn:Hsub; [by eexists _, _|]. specialize (Hp eq_refl).
  case_bool_decide; [by eexists _, _|].
  destruct (active_session st _) as [s|e|] eqn:Hs; [|by eexists _, _|by apply np_active_session in Hs].
  apply active_session_Ok in Hs. destruct (_ || _) eqn:Hbad; [by eexists _, _|]. bool_prop.
  pose proof (ro_sessions _ _ _ _ Hok _ _ Hs) as Hso. pose proof (ro_sessions _ _ _ _ Hok' _ _ Hs) as Hso'.
  assert (ws_publication_submitted s = false) as Hns by (eapply (so_publication _ _ _ _ Hso); eauto).
  set (s' := session_with_publication s (ws_active_publication s) true). pose proof (ro_targets _ _ _ _ Hok).
  destruct (session_moved_ok limits next _ st _ s s' Hok' Hs) as (st' & Hok2 & _ & _ & _ & _ & Hmove & _); try done.
  { destruct Hso' as [? ? ? ? Hpub ?]. split; try done; simpl.
    intros n Hn. split; [by apply Hpub|]. assert (n = wp_publication_id p) as -> by congruence. set_solver. }
  { simpl in *. lia. }
  destruct (Hmove eq_refl eq_refl) as [Hm _]. unfold retirement_at_ms in Hm. simpl in Hm. rewrite Hns in Hm.
  eexists _, _. rewrite Hm, Ok_bind. split; [done|]. done.
Qed.

Lemma on_state_ok {A} sys (r : step (SessionRegistryState * A)) :
  system_ok sys ->
  (exists st' res, r = Ok (st', res) /\ registry_ok limits (next_publication_id (sy_state sys))
                     (unsubmitted_of (sy_publications sys)) st') ->
  exists sys', on_state sys r = Ok sys' /\ system_ok sys'.
Proof.
  intros [Hok Hp] (st' & res & -> & Hok'). unfold on_state. rewrite Ok_bind. eexists. split; [done|].
  pose proof (ro_next _ _ _ _ Hok') as Hn. split; simpl; rewrite Hn; done.
Qed.

Lemma on_state_only_ok sys (r : step SessionRegistryState) :
  system_ok sys ->
  (exists st', r = Ok st' /\ registry_ok limits (next_publication_id (sy_state sys))
                 (unsubmitted_of (sy_publications sys)) st') ->
  exists sys', on_state_only sys r = Ok sys' /\ system_ok sys'.
Proof.
  intros [Hok Hp] (st' & -> & Hok'). unfold on_state_only. rewrite Ok_bind. eexists. split; [done|].
  pose proof (ro_next _ _ _ _ Hok') as Hn. split; simpl; rewrite Hn; done.
Qed.

(** An owner that is given up. *)
Lemma publication_gone_ok sys n st' :
  system_ok sys ->
  registry_ok limits (next_publication_id (sy_state sys)) (unsubmitted_of (sy_publications sys)) st' ->
  system_ok (mk_System st' (delete n (sy_publications sys))).
Proof.
  intros [Hok Hp] Hok'. pose proof (ro_next _ _ _ _ Hok') as Hn. split; simpl; rewrite Hn.
  - eapply registry_ok_weaken; [done|]. intros m. rewrite !unsubmitted_spec. intros (p & [_ Hl]%lookup_delete_Some & Hs). eauto.
  - intros m p [_ Hl]%lookup_delete_Some. by apply Hp.
Qed.

Lemma publication_held sys n p :
  system_ok sys -> sy_publications sys !! n = Some p ->
  wp_publication_id p = n /\
  (wp_submitted p = false -> wp_publication_id p ∈ unsubmitted_of (sy_publications sys)).
Proof.
  intros Hsys Hp. destruct (sk_publications _ Hsys n p Hp) as [<- _]. split; [done|]. intros Hs.
  apply unsubmitted_spec. eauto.
Qed.

Lemma complete_sync_call_ok sys n p generation size now :
  system_ok sys -> sy_publications sys !! n = Some p ->
  exists st' res, publication_complete_sync (sy_state sys) p generation size now = Ok (st', res) /\
    system_ok (mk_System st' (delete n (sy_publications sys))).
Proof.
  intros Hsys Hp. destruct (publication_held sys n p Hsys Hp) as [_ Hu]. unfold publication_complete_sync.
  destruct (complete_sync_ok limits _ _ (sy_state sys) (ws_inode_id (wp_session p)) (ws_lease_epoch (wp_session p))
    (wp_publication_id p) generation size now (sk_registry _ Hsys)) as (st1 & res & -> & Hok1). rewrite Ok_bind.
  eexists _, _. split; [done|]. apply publication_gone_ok; [done|].
  destruct (is_ok res); [done|]. by apply drop_publication_ok.
Qed.

Lemma begin_publication_call_ok sys id epoch now :
  system_ok sys -> exists sys', call sys now (BeginPublication id epoch) = Ok sys' /\ system_ok sys'.
Proof.
  intros [Hok Hp]. unfold call.
  destruct (begin_publication_ok _ _ (sy_state sys) id epoch now Hok) as (st' & res & -> & Hres). rewrite Ok_bind.
  eexists. split; [done|]. destruct res as [p|e|]; [|pose proof (ro_next _ _ _ _ Hres) as Hn; split; simpl; rewrite Hn; done..].
  destruct Hres as (Hid & Hsub & Hok'). pose proof (ro_next _ _ _ _ Hok') as Hn. split; simpl; rewrite Hn.
  - eapply registry_ok_weaken; [done|]. intros m. rewrite elem_of_union, elem_of_singleton, !unsubmitted_spec.
    intros (q & [[<- _]|[_ Hl]]%lookup_insert_Some & Hs); [by left|right; eauto].
  - intros m q [[<- <-]|[_ Hl]]%lookup_insert_Some; [lia|]. destruct (Hp m q Hl). lia.
Qed.

Lemma mark_submitted_call_ok sys n now :
  system_ok sys -> exists sys', call sys now (PublicationMarkSubmitted n) = Ok sys' /\ system_ok sys'.
Proof.
  intros Hsys. unfold call, with_publication. destruct (sy_publications sys !! n) as [p|] eqn:Hl; [|by eauto].
  destruct (publication_held sys n p Hsys Hl) as [<- Hu]. pose proof (sk_publications _ Hsys) as Hp.
  destruct (mark_submitted_ok _ _ (sy_state sys) p now (sk_registry _ Hsys) Hu) as (st' & res & -> & Hres). rewrite Ok_bind.
  eexists. split; [done|]. destruct res as [q|e|]; [|pose proof (ro_next _ _ _ _ Hres) as Hn; split; simpl; rewrite Hn; done..].
  destruct Hres as (Hid & Hsub & Hok'). pose proof (ro_next _ _ _ _ Hok') as Hn. split; simpl; rewrite Hn.
  - eapply registry_ok_weaken; [done|]. intros m. rewrite elem_of_difference, elem_of_singleton, !unsubmitted_spec.
    intros (r & [[_ <-]|[Hne Hr]]%lookup_insert_Some & Hs); [congruence|]. split; eauto.
  - intros m r [[<- <-]|[_ Hr]]%lookup_insert_Some; [|by apply Hp]. split; [done|]. by eapply Hp.
Qed.

Lemma call_ok sys now c :
  max_write_targets limits <= u64_max -> system_ok sys -> exists sys', call sys now c = Ok sys' /\ system_ok sys'.
Proof.
  intros Hmax Hsys. pose proof (sk_registry _ Hsys) as Hok.
  destruct c; try (by apply begin_publication_call_ok); try (by apply mark_submitted_call_ok); cbn [call];
    try (apply on_state_ok; [done|]); try (apply on_state_only_ok; [done|]);
    try (unfold with_publication; destruct (sy_publications sys !! n) as [p|] eqn:Hl; [|by eauto]).
  - by apply begin_create_session_ok.
  - by apply begin_session_ok.
  - by apply write_opening_activate_ok.
  - by apply cancel_opening_ok.
  - by apply create_opening_activate_ok.
  - by apply cancel_create_opening_ok.
  - by apply begin_allocate_ok.
  - destruct (complete_target_ok limits _ _ (sy_state sys) (wr_inode_id r) (wr_lease_epoch r) (wr_pending r) target now Hok)
      as (st' & res & Hc & Hok' & _). by exists st', res.
  - by apply cancel_target_ok.
  - apply on_state_ok; [done|]. by apply revalidate_ok.
  - destruct (complete_sync_call_ok sys n p generation file_size now Hsys Hl) as (st' & res & -> & Hsys'). rewrite Ok_bind. eauto.
  - unfold publication_complete_commit. destruct (complete_commit_ok limits _ _ (sy_state sys) (ws_inode_id (wp_session p))
      (ws_lease_epoch (wp_session p)) (wp_publication_id p) Hok) as (st' & -> & Hok'). rewrite Ok_bind.
    eexists. split; [done|]. by apply publication_gone_ok.
  - eexists. split; [done|]. apply publication_gone_ok; [done|]. apply drop_publication_ok; [done|].
    by eapply publication_held.
  - by apply get_session_ok.
  - by apply get_session_identity_ok.
  - by apply remove_session_ok.
  - by apply validate_session_ok.
  - by apply renew_session_ok.
  - destruct (retire_expired_entries_ok limits _ _ _ now Hok) as (st' & n & Hr & Hret). exists st', n. split; [done|].
    apply (rt_ok _ _ _ _ _ _ Hret).
  - by apply active_under_ok.
Qed.

Lemma system_reach_ok sys : max_write_targets limits <= u64_max -> registry_reach sys -> system_ok sys.
Proof.
  intros Hmax. induction 1 as [|sys now c sys' _ IH Hc].
  - split; [by apply registry_default_ok|]. simpl. intros n p. by rewrite lookup_empty.
  - destruct (call_ok sys now c Hmax IH) as (sys2 & Hc2 & Hok). rewrite Hc in Hc2. by injection Hc2 as <-.
Qed.
End system.

(** ** Active writes below an inode *)

Lemma last_key_spec (m : gmap Z Z) t :
  last_key m = Some t <-> is_Some (m !! t) /\ forall t', is_Some (m !! t') -> t' <= t.
Proof.
  assert (forall (l : list (Z * Z)) o,
    foldr (fun e o => match o with None => Some e.1 | Some b => Some (Z.max e.1 b) end) None l = o ->
    match o with
    | None => l = []
    | Some b => (exists v, (b, v) ∈ l) /\ forall e, e ∈ l -> e.1 <= b
    end) as Hl.
  { induction l as [|[k v] l IH]; simpl; intros o <-; [done|]. specialize (IH _ eq_refl).
    destruct (foldr _ None l) as [b|]; simpl.
    - destruct IH as [[w Hw] Hmax]. split.
      + destruct (Z.max_spec k b) as [[_ ->]|[_ ->]]; [exists w|exists v]; set_solver.
      + intros e [->|He]%elem_of_cons; simpl; [lia|]. specialize (Hmax e He). lia.
    - subst l. split; [exists v; set_solver|]. intros e [->|He]%elem_of_cons; simpl; [lia|set_solver]. }
  specialize (Hl (map_to_list m) _ eq_refl). unfold last_key. destruct (foldr _ None _) as [b|].
  - destruct Hl as [[w Hw] Hmax]. apply elem_of_map_to_list in Hw.
    assert (forall t', is_Some (m !! t') -> t' <= b) as Hmax'.
    { intros t' [x Hx]. apply (Hmax (t', x)). by apply elem_of_map_to_list. }
    split; [intros [= <-]; by eauto|]. intros [Ht Hle]. f_equal. specialize (Hle b (mk_is_Some _ _ Hw)). specialize (Hmax' t Ht). lia.
  - split; [done|]. intros [[x Hx] _]. apply elem_of_map_to_list in Hx. rewrite Hl in Hx. set_solver.
Qed.

Lemma last_key_None (m : gmap Z Z) : last_key m = None -> m = ∅.
Proof.
  unfold last_key. intros H. apply map_to_list_empty_iff. destruct (map_to_list m) as [|[k v] l]; [done|].
  simpl in H. by destruct (foldr _ None l).
Qed.

Lemma chain_positive l e a t : 0 < chain l e a t <-> t = e /\ a ∈ l.
Proof. unfold chain. rewrite <- occ_pos. case_bool_decide; split; naive_solver lia. Qed.

(** A write that holds [id]: a session or opening below it that retires later. *)
Definition live_below (st : SessionRegistryState) (id : InodeId) (now : Z) : Prop :=
  (exists f e, entries st !! f = Some e /\ id ∈ entry_ancestor_inode_ids e /\ now < retirement_at_ms e) \/
  (exists op o, create_openings st !! op = Some o /\ id ∈ co_parent_ancestor_inode_ids o /\ now < co_expires_at_ms o).

Lemma activity_spec st id now :
  registry_inv st ->
  match ancestor_activity st !! id ≫= last_key with Some t => now <? t | None => false end = true <-> live_below st id now.
Proof.
  intros Hinv. pose proof (ri_activity _ Hinv id) as Hact.
  set (F := fun t => msum (below id t) (entries st) + msum (create_below id t) (create_openings st)).
  assert (forall t, 0 < F t <-> (exists f e, entries st !! f = Some e /\ id ∈ entry_ancestor_inode_ids e /\ retirement_at_ms e = t) \/
    (exists op o, create_openings st !! op = Some o /\ id ∈ co_parent_ancestor_inode_ids o /\ co_expires_at_ms o = t)) as HF.
  { intros t. unfold F. pose proof (activity_nonneg st id t) as [H1 H2].
    pose proof (msum_pos (below id t) (entries st) (fun _ e _ => below_nonneg id t e)) as E1.
    pose proof (msum_pos (create_below id t) (create_openings st) (fun _ e _ => create_below_nonneg id t e)) as E2.
    unfold below in E1 at 2. unfold create_below in E2 at 2. setoid_rewrite chain_positive in E1. setoid_rewrite chain_positive in E2.
    split; [intros Hpos|intros [(f & e & ?)|(op & o & ?)]; [assert (0 < msum (below id t) (entries st)) by (apply E1; naive_solver)|
      assert (0 < msum (create_below id t) (create_openings st)) by (apply E2; naive_solver)]; lia].
    assert (0 < msum (below id t) (entries st) \/ 0 < msum (create_below id t) (create_openings st)) as [Hp|Hp] by lia;
      [left; apply E1 in Hp|right; apply E2 in Hp]; naive_solver. }
  assert (live_below st id now <-> exists t, 0 < F t /\ now < t) as ->.
  { unfold live_below. setoid_rewrite HF. naive_solver. }
  destruct (ancestor_activity st !! id) as [inner|]; simpl.
  - destruct Hact as [Hne Hs].
    assert (forall t, is_Some (inner !! t) <-> 0 < F t) as Hin.
    { intros t. rewrite (Hs t). fold (F t). pose proof (activity_nonneg st id t). unfold F in *.
      case_bool_decide; split; intros Hx; try lia; [by destruct Hx|by eexists]. }
    destruct (last_key inner) as [t|] eqn:Hlast; [|by apply last_key_None in Hlast].
    apply last_key_spec in Hlast as [Ht Hmax]. rewrite Z.ltb_lt. split; [intros ?; exists t; by rewrite <- Hin|].
    intros (t' & Hp & Hlt). rewrite <- Hin in Hp. specialize (Hmax t' Hp). lia.
  - split; [done|]. intros (t & Hp & _). unfold F in Hp. rewrite Hact in Hp. lia.
Qed.

(** What retirement keeps. *)
Lemma live_below_retired limits next U st st' id now :
  retired limits next U now st st' -> live_below st' id now <-> live_below st id now.
Proof.
  intros [_ _ He Hc Hle Hlc]. unfold live_below. split.
  - intros [(f & e & Hl & ?)|(op & o & Hl & ?)]; [left; exists f, e|right; exists op, o]; (split; [|done]);
      by eapply lookup_weaken.
  - intros [(f & e & Hl & Hin & Hlt)|(op & o & Hl & Hin & Hlt)]; [left; exists f, e|right; exists op, o]; auto.
Qed.

(** ** Counting *)

Lemma msum_size {K A} `{Countable K} (P : A -> Prop) `{!forall a, Decision (P a)} (f : A -> Z) (m : gmap K A) :
  (forall a, f a = if bool_decide (P a) then 1 else 0) -> msum f m = Z.of_nat (size (filter (fun e => P e.2) m)).
Proof.
  intros Hf. induction m as [|k a m Hk IH] using map_ind; [by rewrite msum_empty, map_filter_empty, map_size_empty|].
  rewrite msum_insert by done. rewrite Hf, IH. case_bool_decide.
  - rewrite map_filter_insert_True by done. rewrite map_size_insert_None; [lia|]. apply map_lookup_filter_None. by left.
  - rewrite map_filter_insert_False by done. by rewrite delete_id.
Qed.

(** The sessions and openings a client occupies. *)
Definition client_sessions (st : SessionRegistryState) (c : ClientId) : nat :=
  size (filter (fun e => c = entry_client_id e.2) (entries st)) +
  size (filter (fun e => c = co_open_client_id e.2) (create_openings st)).

Section theorems.
Context (limits : SessionLimits) (sys : System).
Context (Hlimits : limits_ok limits = true) (Hmax : max_write_targets limits <= u64_max).
Context (Hreach : registry_reach limits sys).

(** C23. No assertion, [expect] or index lookup of the session registry can
    fail: from the empty registry, under limits its constructor accepts, every
    sequence of calls at any clock readings succeeds, and every derived index
    (client occupancy, ancestor activity, expiry order, path and operation maps,
    counters) stays exactly what the sessions determine. *)
Theorem registry_never_panics :
  registry_inv (sy_state sys) /\ forall now c, exists sys', call limits sys now c = Ok sys'.
Proof.
  pose proof (system_reach_ok limits Hlimits sys Hmax Hreach) as Hsys. split; [apply (sk_registry _ _ Hsys)|].
  intros now c. destruct (call_ok limits Hlimits sys now c Hmax Hsys) as (sys' & Hc & _). eauto.
Qed.

(** C25. In every reachable registry the number of sessions and openings,
    those of each client, the write targets issued or reserved overall and by each
    session stay within the configured limits. *)
Theorem registry_limits :
  Z.of_nat (size (entries (sy_state sys)) + size (create_openings (sy_state sys))) <= max_sessions limits /\
  (forall c, Z.of_nat (client_sessions (sy_state sys) c) <= max_sessions_per_client limits) /\
  msum owned_targets (entries (sy_state sys)) <= max_write_targets limits /\
  (forall id e, entries (sy_state sys) !! id = Some e -> owned_targets e <= max_write_targets_per_session limits).
Proof.
  pose proof (sk_registry _ _ (system_reach_ok limits Hlimits sys Hmax Hreach)) as Hok. pose proof (ro_inv _ _ _ _ Hok) as Hinv.
  split_and!.
  - pose proof (ro_count _ _ _ _ Hok). unfold session_count in *. lia.
  - intros c. pose proof (ro_client _ _ _ _ Hok c) as Hc. rewrite count_client_eq in Hc by done. unfold client_sessions.
    rewrite (msum_size (fun e => c = entry_client_id e)) in Hc by done.
    rewrite (msum_size (fun o => c = co_open_client_id o)) in Hc by done. lia.
  - rewrite <- (ri_outstanding _ Hinv). apply (ro_targets _ _ _ _ Hok).
  - intros id [o|s] He; [simpl; pose proof (limits_pos limits Hlimits); lia|].
    apply (so_targets _ _ _ _ (ro_sessions _ _ _ _ Hok _ _ He)).
Qed.

(** [has_active_write_under_at] is exact: it answers true exactly when
    a session or opening below the inode retires after the given time, whatever
    retirement leaves behind. *)
Theorem active_write_under_exact id now :
  exists st' b, has_active_write_under_at (sy_state sys) id now = Ok (st', b) /\
    (b = true <-> live_below (sy_state sys) id now).
Proof.
  pose proof (sk_registry _ _ (system_reach_ok limits Hlimits sys Hmax Hreach)) as Hok. unfold has_active_write_under_at.
  destruct (retire_expired_entries_ok limits _ _ (sy_state sys) now Hok) as (st1 & n & -> & Hr). rewrite Ok_bind.
  eexists _, _. split; [done|]. rewrite activity_spec by apply (rt_ok _ _ _ _ _ _ Hr). by eapply live_below_retired.
Qed.


(** C16. One writer per file: opening a session is refused as busy while an
    entry of the file lives, and a session is opened only when neither the file
    nor its path is held; it then carries the next lease epoch and the entries of
    other files that are alive stay as they are. *)
Theorem begin_session_exclusive input now :
  exists st' res, begin_session_at limits (sy_state sys) input now = Ok (st', res) /\
    (forall e, entries (sy_state sys) !! bi_inode_id input = Some e -> now < retirement_at_ms e ->
       res = Err BSE_Busy \/ res = Err BSE_InvalidAncestorChain) /\
    (forall o, res = Ok o ->
       (forall op c, create_openings (sy_state sys) !! op = Some c ->
          create_path c = (bi_mount_id input, bi_normalized_path input) -> co_expires_at_ms c <= now) /\
       wo_proposed_lease_epoch o = bi_current_lease_epoch input + 1 /\
       entries st' !! bi_inode_id input = Some (Opening (mk_OpeningSession (wo_opening_id o) (bi_inode_id input)
         (bi_mount_id input) (wo_proposed_lease_epoch o) (bi_mode input) (bi_open_client_id input) (bi_layout input)
         (saturating_add64 now (session_ttl_ms limits)) (bi_ancestor_inode_ids input))) /\
       (forall id e, id <> bi_inode_id input -> entries (sy_state sys) !! id = Some e -> now < retirement_at_ms e ->
          entries st' !! id = Some e)).
Proof.
  pose proof (sk_registry _ _ (system_reach_ok limits Hlimits sys Hmax Hreach)) as Hok.
  destruct (begin_session_ok limits _ _ (sy_state sys) input now Hok) as (st' & res & Hb & _).
  exists st', res. split; [done|]. revert Hb. unfold begin_session_at. destruct (negb _); [intros [= <- <-]; split; [by right|done]|].
  destruct (retire_for_ok limits _ _ (sy_state sys) (bi_inode_id input) now Hok) as (st2 & -> & Hr2 & Hlive2). rewrite Ok_bind.
  pose proof (rt_ok _ _ _ _ _ _ Hr2) as Hok2. destruct (_ || _) eqn:Hbusy; [intros [= <- <-]; split; [by left|done]|].
  apply orb_false_iff in Hbusy as [Hfree%bool_decide_eq_false Hpath%bool_decide_eq_false]. intros Hb. split.
  { intros e He Hlt. destruct Hfree. exists e. by apply (rt_live _ _ _ _ _ _ Hr2). }
  intros o ->. destruct (Z.leb_spec (max_sessions limits) (session_count st2)); [done|].
  destruct (Z.leb_spec (max_sessions_per_client limits) (count_client st2 (bi_open_client_id input))); [done|]. destruct (lease_checked_next _) as [proposed|] eqn:Hnext; [|done].
  destruct (checked_add64 (next_opening_id st2) 1) as [n|] eqn:Hn; [|done]. apply checked_add64_Some in Hn as [Hnx _].
  match type of Hb with context [insert_entry ?s ?e] => destruct (entry_inserted_ok limits _ _ s e
    (next_opening_ok limits _ _ st2 n Hok2 ltac:(lia))) as [Hins _] end; try done; [by apply eq_None_not_Some|].
  rewrite Hins, Ok_bind in Hb. injection Hb as <- <-. apply checked_add64_Some in Hnext as [-> _].
  split_and!; try done; simpl; [|by rewrite lookup_insert_eq|].
  - intros op c Hc Hpc. destruct (Z.leb_spec (co_expires_at_ms c) now); [done|]. destruct Hpath. exists op.
    apply (ri_paths _ (ro_inv _ _ _ _ Hok2)). exists c. split; [|done]. by apply (rt_live_create _ _ _ _ _ _ Hr2).
  - intros id e Hne He Hlt. rewrite lookup_insert_ne by done. by apply (rt_live _ _ _ _ _ _ Hr2).
Qed.

End theorems.

(** ** A registry in use *)

#[local] Transparent retire_expired_entries.

Fixpoint run_calls (limits : SessionLimits) (sys : System) (calls : list (Z * RegistryCall)) : step System :=
  match calls with
  | [] => Ok sys
  | (now, c) :: calls => sys ← call limits sys now c; run_calls limits sys calls
  end.

Lemma run_calls_reach limits sys calls sys' :
  registry_reach limits sys -> run_calls limits sys calls = Ok sys' -> registry_reach limits sys'.
Proof.
  revert sys. induction calls as [|[now c] calls IH]; intros sys Hr; simpl; [by intros [= <-]|].
  intros H. unbind H as sys1 Hc. eapply IH; [|done]. by econstructor.
Qed.

(** File 7 below directories 1 and 2 is opened by client 5, activated under lease
    epoch 3, and its first block is being allocated. *)
Definition sample_limits : SessionLimits := mk_SessionLimits 10 4 20 5 1000.
Definition session_layout : FileLayout := mk_FileLayout 4194304 DURABLE_PREFIX.
Definition sample_calls : list (Z * RegistryCall) :=
  [(100, BeginSessionAt (mk_BeginSessionInput "/a/f" 1 7 2 Append 5 session_layout [1; 2; 7]));
   (110, WriteOpeningActivate (mk_WriteOpening 7 1 3) 3 (mk_FileData session_layout 0 1 [] 0 3 None) None);
   (120, BeginAllocate 7 3 None)].
Definition sample_system : System := Eval vm_compute in
  match run_calls sample_limits System_init sample_calls with Ok sys => sys | _ => System_init end.
Definition sample_reservation : WriteTargetReservation :=
  mk_WriteTargetReservation 7 3 (mk_PendingAllocateBlock None) session_layout 5 0.
Definition sample_target : LocatedBlock :=
  mk_LocatedBlock (mk_BlockId 7 0) 0 4194304 [] (mk_FencingToken (mk_BlockId 7 0) 5 3) 0 4194304 DURABLE_PREFIX Hdd.

Lemma sample_system_reach : registry_reach sample_limits sample_system.
Proof.
  apply (run_calls_reach sample_limits System_init sample_calls); [constructor|]. by vm_compute.
Qed.

Lemma registry_never_panics_witness :
  limits_ok sample_limits = true /\ max_write_targets sample_limits <= u64_max /\
  exists sys', call sample_limits sample_system 130 (PublicationMarkSubmitted 1) = Ok sys'.
Proof.
  assert (limits_ok sample_limits = true) as Hl by reflexivity.
  assert (max_write_targets sample_limits <= u64_max) as Hm by (vm_compute; discriminate).
  split; [exact Hl|]. split; [exact Hm|].
  exact (proj2 (registry_never_panics sample_limits sample_system Hl Hm sample_system_reach) 130 (PublicationMarkSubmitted 1)).
Defined.

Lemma registry_limits_witness :
  size (entries (sy_state sample_system)) = 1%nat /\
  Z.of_nat (client_sessions (sy_state sample_system) 5) <= max_sessions_per_client sample_limits.
Proof.
  assert (limits_ok sample_limits = true) as Hl by reflexivity.
  assert (max_write_targets sample_limits <= u64_max) as Hm by (vm_compute; discriminate).
  split; [reflexivity|]. exact (proj1 (proj2 (registry_limits sample_limits sample_system Hl Hm sample_system_reach)) 5).
Defined.

Lemma active_write_under_exact_witness :
  (exists st' b, has_active_write_under_at (sy_state sample_system) 2 500 = Ok (st', b) /\
    (b = true <-> live_below (sy_state sample_system) 2 500)) /\
  (exists st', has_active_write_under_at (sy_state sample_system) 2 500 = Ok (st', true)) /\
  (exists st', has_active_write_under_at (sy_state sample_system) 2 1100 = Ok (st', false)) /\
  (exists st', has_active_write_under_at (sy_state sample_system) 3 500 = Ok (st', false)).
Proof.
  assert (limits_ok sample_limits = true) as Hl by reflexivity.
  assert (max_write_targets sample_limits <= u64_max) as Hm by (vm_compute; discriminate).
  split; [exact (active_write_under_exact sample_limits sample_system Hl Hm sample_system_reach 2 500)|].
  split; [|split]; eexists; vm_compute; reflexivity.
Defined.


Lemma begin_session_exclusive_witness :
  exists st' res,
    begin_session_at sample_limits (sy_state sample_system)
      (mk_BeginSessionInput "/a/f" 1 7 3 Append 6 session_layout [1; 2; 7]) 130 = Ok (st', res) /\
    (res = Err BSE_Busy \/ res = Err BSE_InvalidAncestorChain).
Proof.
  assert (limits_ok sample_limits = true) as Hl by reflexivity.
  assert (max_write_targets sample_limits <= u64_max) as Hm by (vm_compute; discriminate).
  destruct (begin_session_exclusive sample_limits sample_system Hl Hm sample_system_reach
    (mk_BeginSessionInput "/a/f" 1 7 3 Append 6 session_layout [1; 2; 7]) 130) as (st' & res & Hb & Hbusy & _).
  exists st', res. split; [exact Hb|].
  destruct (entries (sy_state sample_system) !! 7) as [e|] eqn:He; [|vm_compute in He; discriminate].
  apply (Hbusy e He). vm_compute in He. injection He as <-. reflexivity.
Defined.
