(* ===== verification/SessionFrame.v ===== *)
(** * What the registry methods leave alone

    The sessions of other writers, and what a method does to its own: the view
    of the registry that a client needs to reason about several writers at once. *)

From S2P Require Import Prelude Types Errors Inode Mount Store Namespace Session SessionInv SessionProps SessionSystem.
Local Open Scope Z_scope.

(** The same writer in the same stage, with possibly another lease deadline or
    another pending allocation. *)
Definition same_writer (s s' : WriteSession) : Prop :=
  ws_inode_id s' = ws_inode_id s /\ ws_lease_epoch s' = ws_lease_epoch s /\ ws_mode s' = ws_mode s /\
  ws_issued_targets s' = ws_issued_targets s /\ ws_active_publication s' = ws_active_publication s /\
  ws_publication_submitted s' = ws_publication_submitted s /\ ws_base_size s' = ws_base_size s /\
  ws_generation s' = ws_generation s /\ ws_layout s' = ws_layout s /\ ws_expires_at_ms s <= ws_expires_at_ms s'.

Lemma same_writer_refl s : same_writer s s.
Proof. split_and!; done || lia. Qed.

Lemma same_writer_trans a b c : same_writer a b -> same_writer b c -> same_writer a c.
Proof. intros Hab Hbc. destruct Hab as (?&?&?&?&?&?&?&?&?&?), Hbc as (?&?&?&?&?&?&?&?&?&?). split_and!; congruence || lia. Qed.

(** A method that neither admits a writer nor moves one to another stage: every
    writer was there before, only expired ones are gone, and no opening that was
    gone is back. *)
Record calm (now : Z) (st st' : SessionRegistryState) : Prop := {
  cm_back : forall id s', entries st' !! id = Some (Active s') ->
    exists s, entries st !! id = Some (Active s) /\ same_writer s s';
  cm_live : forall id s, entries st !! id = Some (Active s) -> now < retirement_at_ms (Active s) ->
    exists s', entries st' !! id = Some (Active s') /\ same_writer s s';
  cm_opening : forall id o, entries st' !! id = Some (Opening o) ->
    entries st !! id = Some (Opening o) \/ next_opening_id st <= os_opening_id o < next_opening_id st';
  cm_publication_id : next_publication_id st' = next_publication_id st;
  cm_opening_id : next_opening_id st <= next_opening_id st'
}.

Lemma calm_refl now st : calm now st st.
Proof. split; eauto using same_writer_refl; lia. Qed.

Lemma calm_trans now a b c : calm now a b -> calm now b c -> calm now a c.
Proof.
  intros [Hb1 Hl1 Ho1 Hp1 Hi1] [Hb2 Hl2 Ho2 Hp2 Hi2]. split; try lia.
  - intros id s' H. destruct (Hb2 _ _ H) as (s1 & H1 & E1). destruct (Hb1 _ _ H1) as (s & H0 & E0).
    eauto using same_writer_trans.
  - intros id s H Hlive. destruct (Hl1 _ _ H Hlive) as (s1 & H1 & E1). destruct (Hl2 _ _ H1) as (s2 & H2 & E2).
    + destruct E1 as (_ & _ & _ & _ & _ & Hsub & _ & _ & _ & Hexp). simpl in *. rewrite Hsub.
      destruct (ws_publication_submitted s); lia.
    + eauto using same_writer_trans.
  - intros id o H. destruct (Ho2 _ _ H) as [H1|H1]; [|right; lia]. destruct (Ho1 _ _ H1) as [H0|H0]; [by left|right; lia].
Qed.

(** Methods that only change indexes. *)
Lemma calm_same now st st' :
  entries st' = entries st -> next_publication_id st' = next_publication_id st -> next_opening_id st <= next_opening_id st' ->
  calm now st st'.
Proof. intros He Hp Ho. split; rewrite ?He; eauto using same_writer_refl. Qed.

Lemma calm_delete now st st' id :
  entries st' = delete id (entries st) -> same_counters st st' ->
  (forall s, entries st !! id = Some (Active s) -> retirement_at_ms (Active s) <= now) -> calm now st st'.
Proof.
  intros He [Ho Hp] Hex. split; rewrite ?He; try lia.
  - intros j s' [_ H]%lookup_delete_Some. eauto using same_writer_refl.
  - intros j s H Hlive. destruct (decide (j = id)) as [->|Hne]; [specialize (Hex _ H); lia|].
    rewrite lookup_delete_ne by done. eauto using same_writer_refl.
  - intros j o [_ H]%lookup_delete_Some. by left.
Qed.

Lemma calm_update now st st' id s s' :
  entries st !! id = Some (Active s) -> entries st' = <[id := Active s']> (entries st) -> same_counters st st' ->
  same_writer s s' -> calm now st st'.
Proof.
  intros Hs He [Ho Hp] Hw. split; rewrite ?He; try lia.
  - intros j t' [[<- [= <-]]|[_ H]]%lookup_insert_Some; eauto using same_writer_refl.
  - intros j t H _. destruct (decide (j = id)) as [->|Hne].
    + rewrite lookup_insert_eq. replace t with s by congruence. eauto.
    + rewrite lookup_insert_ne by done. eauto using same_writer_refl.
  - intros j o [[_ H]|[_ H]]%lookup_insert_Some; [done|by left].
Qed.

Lemma insert_entry_entries st e st' :
  insert_entry st e = Ok st' -> entries st' = <[entry_inode_id e := e]> (entries st) /\ same_counters st st'.
Proof.
  unfold insert_entry. intros H. unbind H as u Hu. unbind H as st1 H1. unbind H as u2 Hu2. unbind H as u3 Hu3. injection H as <-.
  assert (entries st1 = entries st /\ same_counters st st1) as [He [Ho Hp]].
  { destruct (create_operation e); [unbind H1 as u4 Hu4|]; injection H1 as <-; by destruct (is_opening e). }
  simpl. by rewrite He.
Qed.

Lemma insert_create_entries st o st' :
  insert_create_opening st o = Ok st' -> entries st' = entries st /\ same_counters st st'.
Proof.
  unfold insert_create_opening. intros H. unbind H as u1 H1. unbind H as u2 H2. unbind H as u3 H3. unbind H as u4 H4.
  unbind H as u5 H5. by injection H as <-.
Qed.

Lemma move_expiry_entries st id ancestors previous next st' :
  move_expiry_indexes st id ancestors previous next = Ok st' -> entries st' = entries st /\ same_counters st st'.
Proof. unfold move_expiry_indexes. intros H. unbind H as u1 H1. unbind H as a H2. by injection H as <-. Qed.

Section frame.
Context (limits : SessionLimits) (Hlimits : limits_ok limits = true) (next : Z) (unsubmitted : gset Z).
Implicit Types (st : SessionRegistryState).
Notation ok := (registry_ok limits next unsubmitted).
#[local] Opaque retire_expired_entries.

Lemma retired_calm now st st' : retired limits next unsubmitted now st st' -> calm now st st'.
Proof.
  intros [Hok [Ho Hp] He Hc Hl Hlc]. split; try lia.
  - intros id s' H. eauto using same_writer_refl, lookup_weaken.
  - intros id s H Hlive. eauto using same_writer_refl.
  - intros id o H. left. by eapply lookup_weaken.
Qed.

Lemma remove_create_calm now st op st' r :
  ok st -> remove_create_opening st op = Ok (st', r) -> calm now st st' /\ ok st'.
Proof.
  intros Hok H. destruct (create_openings st !! op) as [o|] eqn:Ho.
  - destruct (remove_create_ok st op o (ro_inv _ _ _ _ Hok) Ho) as (st1 & Hr & Hinv & Hc & He & Hcs & _).
    rewrite Hr in H. injection H as <- <-. split.
    + destruct Hc. apply calm_same; [done|done|lia].
    + apply (registry_ok_sub limits next unsubmitted st); rewrite ?He, ?Hcs; try done. apply delete_subseteq.
  - unfold remove_create_opening in H. rewrite Ho in H. injection H as <- <-. split; [apply calm_refl|done].
Qed.

(** ** Queries *)

Lemma retire_for_calm st id now st' :
  ok st -> retire_for st id now = Ok st' -> calm now st st' /\ ok st' /\ retired limits next unsubmitted now st st'.
Proof.
  intros Hok H. destruct (retire_for_ok limits next unsubmitted st id now Hok) as (st2 & H2 & Hr & _).
  rewrite H2 in H. injection H as <-. split_and!; [by apply retired_calm|by eapply rt_ok|done].
Qed.

Lemma get_session_calm st id now st' res :
  ok st -> get_session st id now = Ok (st', res) ->
  calm now st st' /\ forall s, res = Some s -> entries st' !! id = Some (Active s).
Proof.
  intros Hok H. unfold get_session in H. unbind H as st2 H2. injection H as <- <-. split.
  - by eapply retire_for_calm.
  - intros s. destruct (entries st2 !! id) as [[]|]; by intros [= <-].
Qed.

Lemma get_session_identity_calm st id now st' res :
  ok st -> get_session_identity st id now = Ok (st', res) ->
  calm now st st' /\ (res = None -> forall s, entries st' !! id <> Some (Active s)).
Proof.
  intros Hok H. unfold get_session_identity in H. unbind H as st2 H2. injection H as <- <-. split.
  - by eapply retire_for_calm.
  - destruct (entries st2 !! id) as [[]|]; naive_solver.
Qed.

Lemma retire_if_expired_calm st id now st' b : ok st -> retire_if_expired st id now = Ok (st', b) -> calm now st st' /\ ok st'.
Proof.
  intros Hok H. destruct (retire_if_expired_ok limits next unsubmitted st id now Hok) as (st2 & b2 & H2 & Hr).
  rewrite H2 in H. injection H as <- <-. split; [by apply retired_calm|by eapply rt_ok].
Qed.

Lemma validate_session_calm st id epoch now st' res :
  ok st -> validate_session st id epoch now = Ok (st', res) -> calm now st st'.
Proof.
  intros Hok H. unfold validate_session in H. unbind H as [st2 b] H2. injection H as <- <-.
  by apply retire_if_expired_calm in H2 as [? _].
Qed.

Lemma renew_session_calm st id epoch client now st' res :
  ok st -> renew_session_at limits st id epoch client now = Ok (st', res) -> calm now st st'.
Proof.
  intros Hok H. unfold renew_session_at in H. unbind H as [st2 b] H2. apply retire_if_expired_calm in H2 as [Hc Hok2]; [|done].
  destruct b; [by injection H as <- <-|]. destruct (entries st2 !! id) as [[|s]|] eqn:Hs; try by injection H as <- <-.
  case_bool_decide; [by injection H as <- <-|]. case_bool_decide; [by injection H as <- <-|].
  unbind H as st3 H3. injection H as <- <-. eapply calm_trans; [done|].
  assert (entries st3 = entries st2 /\ same_counters st2 st3) as [He [Ho Hp]].
  { destruct (ws_publication_submitted s); [by injection H3 as <-|by eapply move_expiry_entries]. }
  apply (calm_update now st2 _ id s (session_with_expiry s (Z.max (saturating_add64 now (session_ttl_ms limits)) (ws_expires_at_ms s))));
    [done|simpl; by rewrite He|done|].
  unfold same_writer. simpl. split_and!; done || lia.
Qed.

Lemma active_under_calm st id now st' res :
  ok st -> has_active_write_under_at st id now = Ok (st', res) -> calm now st st'.
Proof.
  intros Hok H. unfold has_active_write_under_at in H. unbind H as [st2 n] H2. injection H as <- <-.
  destruct (retire_expired_entries_ok limits next unsubmitted st now Hok) as (st3 & n3 & H3 & Hr). rewrite H2 in H3.
  injection H3 as <- <-. by apply retired_calm.
Qed.

Lemma revalidate_calm st id epoch n now st' res :
  ok st -> revalidate_publication st id epoch n now = Ok (st', res) ->
  calm now st st' /\ forall s, res = Ok s -> entries st' !! id = Some (Active s) /\ ws_lease_epoch s = epoch /\
    ws_active_publication s = Some n.
Proof.
  intros Hok H. unfold revalidate_publication in H. unbind H as st2 H2. injection H as <- <-. split.
  - by eapply retire_for_calm.
  - intros s. apply owned_publication_Ok.
Qed.

(** ** Openings *)

Lemma begin_session_calm st input now st' res :
  ok st -> begin_session_at limits st input now = Ok (st', res) ->
  calm now st st' /\ forall w, res = Ok w ->
    wo_inode_id w = bi_inode_id input /\ lease_checked_next (bi_current_lease_epoch input) = Some (wo_proposed_lease_epoch w) /\
    next_opening_id st <= wo_opening_id w /\
    exists o, entries st' !! bi_inode_id input = Some (Opening o) /\ os_opening_id o = wo_opening_id w /\
      os_proposed_lease_epoch o = wo_proposed_lease_epoch w /\ os_mode o = bi_mode input.
Proof.
  intros Hok H. unfold begin_session_at in H. destruct (negb _); [injection H as <- <-; split; [apply calm_refl|done]|].
  unbind H as st2 H2. apply retire_for_calm in H2 as (Hc & Hok2 & Hr); [|done].
  destruct (_ || _) eqn:Hbusy; [by injection H as <- <-|]. destruct (_ <=? _); [by injection H as <- <-|].
  destruct (_ <=? _); [by injection H as <- <-|]. destruct (lease_checked_next _) as [proposed|] eqn:Hp; [|by injection H as <- <-].
  destruct (checked_add64 _ _) as [n|] eqn:Hn; [|by injection H as <- <-]. apply checked_add64_Some in Hn as [-> _].
  unbind H as st3 H3. injection H as <- <-. apply insert_entry_entries in H3 as [He [Ho Hp3]]. simpl in He, Ho, Hp3.
  apply orb_false_iff in Hbusy as [Hbusy _]. bool_prop. apply eq_None_not_Some in Hbusy. destruct Hc as [Hb Hl Hop Hpub Hid]. split.
  - split; rewrite ?Ho, ?Hp3; try lia.
    + intros id s' H. rewrite He in H. apply lookup_insert_Some in H as [[_ ?]|[_ H]]; [done|]. by apply Hb.
    + intros id s Hs Hlive. destruct (Hl _ _ Hs Hlive) as (s' & Hs' & Hw). exists s'. split; [|done].
      rewrite He, lookup_insert_ne; [done|]. intros <-. congruence.
    + intros id o H. rewrite He in H. apply lookup_insert_Some in H as [[_ [= <-]]|[_ H]]; [right; simpl; lia|].
      destruct (Hop _ _ H) as [?|?]; [by left|right; lia].
  - intros w [= <-]. simpl. split_and!; try done. rewrite He, lookup_insert_eq. eauto.
Qed.

Lemma begin_create_calm st input now st' res :
  ok st -> begin_create_session_at limits st input now = Ok (st', res) -> calm now st st'.
Proof.
  intros Hok H. unfold begin_create_session_at in H. case_bool_decide; [injection H as <- <-; apply calm_refl|].
  destruct (negb _); [injection H as <- <-; apply calm_refl|]. unbind H as st1 H1.
  destruct (retire_create_for_operation_ok limits next unsubmitted st (bc_operation_id input) now Hok) as (st1' & H1' & Hr1).
  rewrite H1 in H1'. injection H1' as <-. unbind H as [st2 n2] H2.
  destruct (retire_expired_entries_ok limits next unsubmitted st1 now (rt_ok _ _ _ _ _ _ Hr1)) as (st2' & n2' & H2' & Hr2).
  rewrite H2 in H2'. injection H2' as <- <-.
  assert (calm now st st2) as Hc by (eapply calm_trans; by apply retired_calm).
  unbind H as existing Hex. destruct existing; [by injection H as <- <-|]. destruct (_ <=? _); [by injection H as <- <-|].
  destruct (_ <=? _); [by injection H as <- <-|]. destruct (checked_add64 _ _) as [n|] eqn:Hn; [|by injection H as <- <-].
  apply checked_add64_Some in Hn as [-> _]. unbind H as st3 H3. injection H as <- <-.
  apply insert_create_entries in H3 as [He [Ho Hp]]. simpl in He, Ho, Hp. eapply calm_trans; [done|].
  apply calm_same; [done|done|]. lia.
Qed.

Lemma cancel_opening_calm now st o st' : ok st -> cancel_opening st o = Ok st' -> calm now st st'.
Proof.
  intros Hok H. unfold cancel_opening in H. destruct (current_opening _ _ _) as [os|] eqn:Hc; [|injection H as <-; apply calm_refl].
  apply current_opening_Some in Hc as [Hs _].
  destruct (remove_entry_ok st _ _ (ro_inv _ _ _ _ Hok) Hs) as (st1 & Hr & _ & Hcs & He & _). rewrite Hr in H. injection H as <-.
  eapply calm_delete; [done|done|]. congruence.
Qed.

Lemma cancel_create_opening_calm now st o st' : ok st -> cancel_create_opening st o = Ok st' -> calm now st st'.
Proof.
  intros Hok H. unfold cancel_create_opening in H. destruct (create_openings st !! _); [|injection H as <-; apply calm_refl].
  case_bool_decide; [|injection H as <-; apply calm_refl]. unbind H as [st1 r] Hr. injection H as <-.
  by eapply remove_create_calm in Hr as [? _].
Qed.

(** The writer that an opening becomes. *)
Lemma write_opening_activate_effect st w epoch now file tail st' res :
  ok st -> write_opening_activate limits st w epoch now file tail = Ok (st', res) ->
  match res with
  | Ok s =>
      exists o, entries st !! wo_inode_id w = Some (Opening o) /\ os_opening_id o = wo_opening_id w /\
        entries st' = <[wo_inode_id w := Active s]> (entries st) /\ same_counters st st' /\
        s = mk_WriteSession (os_inode_id o) (os_mount_id o) epoch (fd_len file) (fd_generation file) (os_mode o)
              (os_open_client_id o) (os_layout o) (os_expires_at_ms o) (os_ancestor_inode_ids o) (option_list tail) ∅ None None
              false None /\ os_proposed_lease_epoch o = epoch /\ fd_lease_epoch file = epoch /\ fd_layout file = os_layout o
  | _ => calm now st st'
  end.
Proof.
  intros Hok H. unfold write_opening_activate in H. unbind H as [st1 r] Ha.
  destruct (activate_opening_ok limits Hlimits next unsubmitted st (wo_inode_id w) (wo_opening_id w) epoch now file tail Hok)
    as (st1' & r' & Ha' & Hok1). rewrite Ha in Ha'. injection Ha' as <- <-.
  unfold activate_opening in Ha. destruct (current_opening st _ _) as [o|] eqn:Ho;
    [|injection Ha as <- <-; injection H as <- <-; apply calm_refl]. apply current_opening_Some in Ho as [Hs Hid].
  destruct (_ <=? _).
  { unbind Ha as st2 H2. injection Ha as <- <-. injection H as <- <-.
    destruct (retire_entry_for_inode_ok limits next unsubmitted st (wo_inode_id w) now Hok) as (st2' & H2' & Hr & _).
    rewrite H2 in H2'. injection H2' as <-. by apply retired_calm. }
  case_bool_decide as Hep; [injection Ha as <- <-; unbind H as st2 H2; injection H as <- <-; by eapply cancel_opening_calm|].
  destruct (_ || _) eqn:Hf; [injection Ha as <- <-; injection H as <- <-; apply calm_refl|].
  destruct (_ && _); [injection Ha as <- <-; unbind H as st2 H2; injection H as <- <-; by eapply cancel_opening_calm|].
  unbind Ha as n Hn. unbind Ha as u Hu. injection Ha as <- <-. injection H as <- <-. bool_prop.
  exists o. simpl. split_and!; congruence || done.
Qed.

(** The writer that the creation of a file becomes. *)
Lemma create_opening_activate_effect st w id epoch expires layout generation now st' res :
  ok st -> create_opening_activate st w id epoch expires layout generation now = Ok (st', res) ->
  match res with
  | Ok s =>
      entries st !! id = None /\ entries st' = <[id := Active s]> (entries st) /\ same_counters st st' /\ now < expires /\
      ws_inode_id s = id /\ ws_lease_epoch s = epoch /\ ws_issued_targets s = [] /\ ws_active_publication s = None /\
      ws_publication_submitted s = false /\ ws_expires_at_ms s = expires /\ ws_mode s = Overwrite
  | _ => calm now st st'
  end.
Proof.
  intros Hok H. unfold create_opening_activate in H. unbind H as [st1 r] Ha.
  destruct (activate_create_ok limits Hlimits next unsubmitted st (cro_operation_id w) (cro_opening_id w) id epoch expires layout
    generation now Hok) as (st1' & r' & Ha' & Hok1). rewrite Ha in Ha'. injection Ha' as <- <-.
  assert (forall e, (st ← cancel_create_opening st1 w; Ok (st, r)) = Ok (st', res) -> r = Err e -> calm now st st1 ->
    match res with Ok _ => False | _ => calm now st st' end) as Hcancel.
  { intros e Hx -> Hc. unbind Hx as st2 H2. injection Hx as <- <-. eapply calm_trans; [done|]. by eapply cancel_create_opening_calm. }
  unfold activate_create_opening in Ha. destruct (create_openings st !! _) as [o|] eqn:Hco;
    [|injection Ha as <- <-; specialize (Hcancel _ H eq_refl (calm_refl _ _)); by destruct res].
  case_bool_decide; [injection Ha as <- <-; specialize (Hcancel _ H eq_refl (calm_refl _ _)); by destruct res|].
  destruct (_ || _) eqn:Hexp.
  { unbind Ha as [st2 rm] H2. injection Ha as <- <-. eapply remove_create_calm in H2 as [Hc _]; [|done].
    specialize (Hcancel _ H eq_refl Hc). by destruct res. }
  apply orb_false_iff in Hexp as [_ Hexp].
  destruct (_ || _) eqn:Hbad; [injection Ha as <- <-; specialize (Hcancel _ H eq_refl (calm_refl _ _)); by destruct res|].
  destruct (negb _); [injection Ha as <- <-; specialize (Hcancel _ H eq_refl (calm_refl _ _)); by destruct res|].
  unbind Ha as [st2 rm] H2. unbind Ha as o' Ho'. unbind Ha as st3 H3. injection Ha as <- <-. injection H as <- <-.
  assert (entries st2 = entries st /\ same_counters st st2) as [He2 [Ho2 Hp2]].
  { destruct (remove_create_ok st _ o (ro_inv _ _ _ _ Hok) Hco) as (st4 & Hr & _ & Hcs & He & _). rewrite H2 in Hr.
    by simplify_eq. }
  apply insert_entry_entries in H3 as [He3 [Ho3 Hp3]]. simpl in He3. rewrite He2 in He3.
  apply orb_false_iff in Hbad as [_ Hbad]. bool_prop.
  split_and!; try done; [by apply eq_None_not_Some|split; congruence].
Qed.

(** ** Write targets *)

Lemma cancel_locked_calm now st id epoch p st' b :
  cancel_write_target_locked st id epoch p = Ok (st', b) -> calm now st st'.
Proof.
  intros H. unfold cancel_write_target_locked in H. destruct (holds_pending st id epoch p) as [s|] eqn:Hh;
    [|injection H as <- <-; apply calm_refl].
  apply holds_pending_Some in Hh as (Hs & _ & _). unbind H as n1 H1. unbind H as n2 H2. unbind H as u Hu. injection H as <- <-.
  apply (calm_update now st _ id s (session_with_pending s None)); done.
Qed.

Lemma cancel_target_calm now st r st' : cancel_write_target st r = Ok st' -> calm now st st'.
Proof. intros H. unfold cancel_write_target in H. unbind H as [st1 b] H1. injection H as <-. by eapply cancel_locked_calm. Qed.

Lemma begin_allocate_calm st id epoch previous now st' res :
  ok st -> begin_allocate_block limits st id epoch previous now = Ok (st', res) ->
  calm now st st' /\ forall r, res = Ok (BAB_Reserved r) ->
    wr_inode_id r = id /\ wr_lease_epoch r = epoch /\
    exists s, entries st' !! id = Some (Active s) /\ ws_lease_epoch s = epoch.
Proof.
  intros Hok H. unfold begin_allocate_block in H. unbind H as st2 H2. apply retire_for_calm in H2 as (Hc & Hok2 & _); [|done].
  destruct (active_session st2 id) as [s|e|] eqn:Hs; cbn [map_err] in H; [rewrite Ok_bind in H|by injection H as <- <-|done].
  apply active_session_Ok in Hs.
  destruct (check_allocate limits s epoch previous) as [[t|[[layout client] offset]]|e|] eqn:Hca;
    [rewrite Ok_bind in H; by injection H as <- <-|rewrite Ok_bind in H|by injection H as <- <-|done].
  destruct (_ <=? _); [by injection H as <- <-|]. unbind H as u1 H1. unbind H as n1 Hn1. unbind H as n2 Hn2. unbind H as u2 Hu2.
  injection H as <- <-. apply check_allocate_new in Hca as (Hep & _). split.
  - eapply calm_trans; [done|].
    apply (calm_update now st2 _ id s (session_with_pending s (Some (mk_PendingAllocateBlock previous)))); done.
  - intros r [= <-]. simpl. split_and!; try done. rewrite lookup_insert_eq. eauto.
Qed.

Lemma complete_target_effect st r target now st' res :
  ok st -> reservation_complete st r target now = Ok (st', res) ->
  match res with
  | Ok _ =>
      exists st2 s, calm now st st2 /\ ok st2 /\ entries st2 !! wr_inode_id r = Some (Active s) /\
        ws_lease_epoch s = wr_lease_epoch r /\ ws_active_publication s = None /\
        lb_write_offset target = 0 /\ block_inode_id (lb_block_id target) = wr_inode_id r /\
        entries st' = <[wr_inode_id r := Active (completed s (wr_pending r) target)]> (entries st2) /\ same_counters st2 st'
  | _ => calm now st st'
  end.
Proof.
  intros Hok H. unfold reservation_complete, complete_write_target in H. unbind H as st2 H2.
  apply retire_for_calm in H2 as (Hc & Hok2 & _); [|done].
  destruct (holds_pending st2 _ _ _) as [s|] eqn:Hh; [|by injection H as <- <-].
  apply holds_pending_Some in Hh as (Hs & Hep & Hp).
  destruct (validate_write_target _ _ _) as [u|e|] eqn:Hv; [| |done].
  - unbind H as u1 H1. unbind H as n1 Hn1. unbind H as u2 Hu2. injection H as <- <-. exists st2, s.
    pose proof (ro_sessions _ _ _ _ Hok2 _ _ Hs) as Hso. destruct (so_pending _ _ _ _ Hso _ Hp) as [_ Hpub].
    pose proof (session_id limits next unsubmitted st2 _ s Hok2 Hs) as Hid.
    unfold validate_write_target in Hv. unbind Hv as v1 V1. unbind Hv as v2 V2. unbind Hv as off V3. unbind Hv as v4 V4.
    unbind Hv as sh V5. unbind Hv as sh2 V6. unbind Hv as v7 V7. clear V2 V4 V7. inv_ok. bool_prop. split_and!; congruence || done.
  - unbind H as [st3 b] H3. injection H as <- <-. eapply calm_trans; [done|]. by eapply cancel_locked_calm.
Qed.

(** ** Publications *)

Lemma begin_publication_effect st id epoch now st' res :
  ok st -> begin_publication st id epoch now = Ok (st', res) ->
  match res with
  | Ok p =>
      exists st2 s, calm now st st2 /\ ok st2 /\ entries st2 !! id = Some (Active s) /\ ws_inode_id s = id /\ ws_lease_epoch s = epoch /\
        ws_active_publication s = None /\ ws_publication_submitted s = false /\ wp_publication_id p = next /\ wp_submitted p = false /\
        wp_session p = session_with_publication s (Some next) false /\
        entries st' = <[id := Active (wp_session p)]> (entries st2) /\
        next_publication_id st' = next + 1 /\ next_opening_id st' = next_opening_id st2
  | _ => calm now st st'
  end.
Proof.
  intros Hok H. unfold begin_publication in H. unbind H as st2 H2. apply retire_for_calm in H2 as (Hc & Hok2 & _); [|done].
  match type of H with match ?r with Ok _ => _ | Err _ => _ | Panic => _ end = _ => destruct r as [s|e|] eqn:Hr end;
    [|by injection H as <- <-|done].
  unbind Hr as s0 Hs. unbind Hr as u1 H1. unbind Hr as u2 Hu2. unbind Hr as u3 H3. injection Hr as ->.
  destruct (active_session st2 id) as [s1|?|] eqn:Ha; try done. injection Hs as ->. apply active_session_Ok in Ha.
  destruct (checked_add64 _ _) as [n|] eqn:Hn; [|by injection H as <- <-]. apply checked_add64_Some in Hn as [-> _].
  unbind H as u4 H4. injection H as <- <-. clear Hu2. bool_prop.
  pose proof (ro_next _ _ _ _ Hok2) as Hnx. pose proof (ro_sessions _ _ _ _ Hok2 _ _ Ha) as Hso.
  assert (ws_active_publication s = None) as Hpub by done.
  pose proof (idle_not_submitted limits next unsubmitted s Hso Hpub) as Hidle.
  exists st2, s. simpl. rewrite Hnx, Hidle. split_and!; try done. by apply (session_id limits next unsubmitted st2).
Qed.

Lemma mark_submitted_effect st p now st' res :
  mark_submitted st p now = Ok (st', res) -> wp_submitted p = false ->
  let id := ws_inode_id (wp_session p) in
  match res with
  | Ok q =>
      q = mk_WritePublication (wp_session p) (wp_publication_id p) true /\
      lease_checked_next (ws_lease_epoch (wp_session p)) <> None /\
      exists s, entries st !! id = Some (Active s) /\ ws_lease_epoch s = ws_lease_epoch (wp_session p) /\
        ws_active_publication s = Some (wp_publication_id p) /\
        entries st' = <[id := Active (session_with_publication s (ws_active_publication s) true)]> (entries st) /\ same_counters st st'
  | _ => st' = st
  end.
Proof.
  intros H Hsub. simpl. unfold mark_submitted in H. rewrite Hsub in H. case_bool_decide; [by injection H as <- <-|].
  destruct (active_session st _) as [s|e|] eqn:Hs; [|by injection H as <- <-|done]. apply active_session_Ok in Hs.
  destruct (_ || _) eqn:Hbad; [by injection H as <- <-|]. unbind H as st2 H2. injection H as <- <-.
  apply move_expiry_entries in H2 as [He [Ho Hp]]. apply orb_false_iff in Hbad as [Hbad _]. bool_prop.
  split_and!; try done. by exists s.
Qed.

Lemma complete_commit_effect st p st' :
  ok st -> publication_complete_commit st p = Ok st' ->
  st' = st \/ exists s, entries st !! ws_inode_id (wp_session p) = Some (Active s) /\
    ws_lease_epoch s = ws_lease_epoch (wp_session p) /\ ws_active_publication s = Some (wp_publication_id p) /\
    entries st' = delete (ws_inode_id (wp_session p)) (entries st) /\ same_counters st st'.
Proof.
  intros Hok H. unfold publication_complete_commit, complete_commit_publication in H.
  destruct (owned_publication _ _ _ _) as [s|?|] eqn:Hs; [|left; by injection H as <-..].
  apply owned_publication_Ok in Hs as (Hs & Hep & Hpub). right. exists s.
  destruct (remove_entry_ok st _ _ (ro_inv _ _ _ _ Hok) Hs) as (st1 & Hr & _ & Hcs & He & _). rewrite Hr in H.
  injection H as <-. by split_and!.
Qed.

Lemma remove_session_effect st id epoch st' res :
  ok st -> remove_session_if_epoch st id epoch = Ok (st', res) ->
  st' = st \/ exists s, entries st !! id = Some (Active s) /\ ws_lease_epoch s = epoch /\
    entries st' = delete id (entries st) /\ same_counters st st'.
Proof.
  intros Hok H. unfold remove_session_if_epoch in H. destruct (entries st !! id) as [[|s]|] eqn:Hs; [left; by injection H as <-| |left; by injection H as <-].
  case_bool_decide; [|left; by injection H as <-]. right. exists s.
  destruct (remove_entry_ok st _ _ (ro_inv _ _ _ _ Hok) Hs) as (st1 & Hr & _ & Hcs & He & _). rewrite Hr in H.
  injection H as <- _. by split_and!.
Qed.

Lemma drop_publication_effect st p :
  wp_submitted p = false ->
  drop_publication st p = st \/ exists s, entries st !! ws_inode_id (wp_session p) = Some (Active s) /\
    ws_lease_epoch s = ws_lease_epoch (wp_session p) /\ ws_active_publication s = Some (wp_publication_id p) /\
    drop_publication st p = put_session st (ws_inode_id (wp_session p)) (session_with_publication s None (ws_publication_submitted s)).
Proof.
  intros Hsub. unfold drop_publication, cancel_publication. rewrite Hsub.
  destruct (owned_publication _ _ _ _) as [s|?|] eqn:Hs; [|by left..]. apply owned_publication_Ok in Hs as (Hs & Hep & Hpub).
  right. by exists s.
Qed.

(** What a completed SyncWrite leaves of the writer. *)
Definition synced (s s' : WriteSession) : Prop :=
  ws_inode_id s' = ws_inode_id s /\ ws_lease_epoch s' = ws_lease_epoch s /\ ws_mode s' = Append /\
  ws_active_publication s' = None /\ ws_publication_submitted s' = false /\ ws_expires_at_ms s' = ws_expires_at_ms s /\
  exists n, ws_issued_targets s' = take n (ws_issued_targets s).

Lemma release_sync_entries st id s st' :
  release_sync_publication st id = Ok st' -> entries st !! id = Some (Active s) ->
  entries st' = <[id := Active (session_with_publication s None false)]> (entries st) /\ same_counters st st'.
Proof.
  intros H Hs. unfold release_sync_publication in H. rewrite (proj2 (active_session_Ok st id s)) in H by done.
  destruct (ws_publication_submitted s); [|by injection H as <-]. by apply move_expiry_entries in H.
Qed.

Lemma complete_sync_effect st p generation size now st' res :
  ok st -> complete_sync_publication st (ws_inode_id (wp_session p)) (ws_lease_epoch (wp_session p)) (wp_publication_id p)
    generation size now = Ok (st', res) ->
  match res with
  | Ok _ =>
      exists st2 s s', calm now st st2 /\ ok st2 /\ entries st2 !! ws_inode_id (wp_session p) = Some (Active s) /\
        ws_lease_epoch s = ws_lease_epoch (wp_session p) /\ ws_active_publication s = Some (wp_publication_id p) /\
        entries st' = <[ws_inode_id (wp_session p) := Active s']> (entries st2) /\ same_counters st2 st' /\ synced s s'
  | _ => calm now st st'
  end.
Proof.
  intros Hok H. unfold complete_sync_publication in H. unbind H as st2 H2. apply retire_for_calm in H2 as (Hc & Hok2 & _); [|done].
  destruct (owned_publication _ _ _ _) as [s|?|] eqn:Hs; [|by injection H as <- <-|done].
  apply owned_publication_Ok in Hs as (Hs & Hep & Hpub). case_bool_decide.
  - case_bool_decide; [by injection H as <- <-|]. unbind H as st3 H3. injection H as <- <-.
    eapply release_sync_entries in H3 as [He Hcs]; [|simpl; by rewrite lookup_insert_eq]. simpl in He. rewrite insert_insert_eq in He.
    eexists st2, s, _. do 7 (split; [done|]). unfold synced. split_and!; try done. exists (length (ws_issued_targets s)). simpl. by rewrite take_ge.
  - destruct (generation_checked_next _); [|by injection H as <- <-]. case_bool_decide; [by injection H as <- <-|].
    unbind H as n Hn. unbind H as st3 H3. unbind H as u Hu. injection H as <- <-.
    eapply release_sync_entries in H3 as [He Hcs]; [|simpl; by rewrite lookup_insert_eq]. simpl in He. rewrite insert_insert_eq in He.
    eexists st2, s, _. do 7 (split; [done|]). unfold synced. split_and!; try done. eexists. simpl. done.
Qed.
End frame.

(** ** The methods answer

    The results inside the state change are answers or errors; the panics of the
    source are in the outer result. *)

Ltac res_cases :=
  repeat match goal with
  | H : Ok _ = Ok _ |- _ => injection H as H; subst
  | H : (_, _) = (_, _) |- _ => injection H as ? ?; subst
  | H : Err _ = _ |- _ => discriminate H
  | H : Panic = Ok _ |- _ => discriminate H
  | H : Ok _ = Panic |- _ => discriminate H
  | H : mbind _ _ = Ok _ |- _ => apply bind_Ok in H as (? & ? & H)
  | H : (let '(_, _) := ?x in _) = Ok _ |- _ => destruct x
  | H : match ?x with Ok _ => _ | Err _ => _ | Panic => _ end = Ok _ |- _ => destruct x eqn:?
  | H : match ?x with _ => _ end = Ok _ |- _ => destruct x
  | H : (if ?x then _ else _) = Ok _ |- _ => destruct x
  end.

Ltac res_panic := match goal with H : ?r = Panic |- _ => revert H; change (r <> Panic); no_panic end.

Lemma validate_session_res st id e now st' : validate_session st id e now <> Ok (st', Panic).
Proof. intros H. unfold validate_session in H. res_cases. res_panic. Qed.

Lemma renew_session_res limits st id e c now st' : renew_session_at limits st id e c now <> Ok (st', Panic).
Proof. intros H. unfold renew_session_at in H. res_cases. Qed.

Lemma begin_session_res limits st input now st' : begin_session_at limits st input now <> Ok (st', Panic).
Proof. intros H. unfold begin_session_at in H. res_cases. Qed.

Lemma begin_create_res limits st input now st' : begin_create_session_at limits st input now <> Ok (st', Panic).
Proof. intros H. unfold begin_create_session_at in H. res_cases. unfold existing_create in *. res_cases; repeat case_match; simplify_eq. Qed.

Lemma begin_publication_res st id e now st' : begin_publication st id e now <> Ok (st', Panic).
Proof.
  intros H. unfold begin_publication in H. res_cases; res_panic.
Qed.

Lemma begin_allocate_res limits st id e previous now st' : begin_allocate_block limits st id e previous now <> Ok (st', Panic).
Proof.
  intros H. unfold begin_allocate_block in H. res_cases; res_panic.
Qed.

Lemma complete_target_res st r target now st' : reservation_complete st r target now <> Ok (st', Panic).
Proof. intros H. unfold reservation_complete, complete_write_target in H. res_cases. Qed.

Lemma mark_submitted_res st p now st' : mark_submitted st p now <> Ok (st', Panic).
Proof. intros H. unfold mark_submitted in H. res_cases. Qed.

Lemma revalidate_res st p now st' : publication_revalidate st p now <> Ok (st', Panic).
Proof. intros H. unfold publication_revalidate, revalidate_publication in H. res_cases. by eapply np_owned_publication. Qed.

Lemma complete_sync_res st p generation size now st' : publication_complete_sync st p generation size now <> Ok (st', Panic).
Proof.
  intros H. unfold publication_complete_sync in H. apply bind_Ok in H as ([st1 res] & H1 & H). injection H as _ ->.
  unfold complete_sync_publication in H1. res_cases; done.
Qed.

Lemma write_activate_res limits st w e now file tail st' : write_opening_activate limits st w e now file tail <> Ok (st', Panic).
Proof.
  intros H. unfold write_opening_activate in H. apply bind_Ok in H as ([st1 res] & H1 & H). res_cases; try done.
  unfold activate_opening in H1. res_cases; done.
Qed.

Lemma create_activate_res st w id e x layout generation now st' :
  create_opening_activate st w id e x layout generation now <> Ok (st', Panic).
Proof.
  intros H. unfold create_opening_activate in H. apply bind_Ok in H as ([st1 res] & H1 & H). res_cases; try done.
  unfold activate_create_opening in H1. res_cases; done.
Qed.
