(* ===== verification/Fencing.v ===== *)
(** * Fencing

    What stays true of a file while the state machine goes on: identifiers are not
    reused, counters only grow, and a lease epoch that has passed does not come
    back. The answers of the state machine are evidence of such facts. *)

From S2P Require Import Prelude Types Errors Inode Mount Store Namespace Tree NamespaceInv.
From S2P Require Import WriteApply Reclaim ReclaimProps Apply NoPanic Reach NamespaceProps.
Local Open Scope Z_scope.

(** The identifier was handed out. *)
Definition allocated (s : Store) (id : InodeId) : Prop := exists n, s_next_inode_id s = Some n /\ id < n.

(** A later store of the same replica. *)
Definition store_le (s s' : Store) : Prop :=
  forall id, allocated s id -> allocated s' id /\
    forall f', lookup_file s' id = Some f' -> exists f, lookup_file s id = Some f /\ file_le f f'.

(** The lease of the file has reached [epoch], or the file is gone for good. *)
Definition reached (s : Store) (id : InodeId) (epoch : LeaseEpoch) : Prop :=
  allocated s id /\ forall f, lookup_file s id = Some f -> epoch <= fd_lease_epoch f.

(** No command of a writer at [epoch] can take effect any more. *)
Definition fenced (s : Store) (id : InodeId) (epoch : LeaseEpoch) : Prop := reached s id (epoch + 1).

Definition publication_of (c : Command) : option (InodeId * FilePublication) :=
  match c with
  | CommitFile _ id _ _ publication => Some (id, publication)
  | PublishFile _ id publication => Some (id, publication)
  | _ => None
  end.

(** The block identity was handed out. *)
Definition assigned (s : Store) (b : BlockId) : Prop :=
  allocated s (block_inode_id b) /\ forall f, lookup_file s (block_inode_id b) = Some f -> block_index b < fd_next_index f.
Definition visible (s : Store) (b : BlockId) : Prop :=
  exists f, lookup_file s (block_inode_id b) = Some f /\ b ∈ fd_blocks f.

Section order.
Implicit Types (s : Store).

Lemma file_le_refl f : file_le f f.
Proof. unfold file_le. split_and!; done || lia. Qed.
Lemma file_le_trans a b c : file_le a b -> file_le b c -> file_le a c.
Proof. unfold file_le. intros (?&?&?&?) (?&?&?&?). split_and!; congruence || lia. Qed.

Lemma store_le_refl s : store_le s s.
Proof. intros id Ha. split; [done|]. eauto using file_le_refl. Qed.

Lemma store_le_trans a b c : store_le a b -> store_le b c -> store_le a c.
Proof.
  intros Hab Hbc id Ha. destruct (Hab id Ha) as [Hb H1]. destruct (Hbc id Hb) as [Hc H2]. split; [done|].
  intros f' Hf'. destruct (H2 f' Hf') as (f1 & Hf1 & Hle1). destruct (H1 f1 Hf1) as (f & Hf & Hle).
  eauto using file_le_trans.
Qed.

Lemma reached_le s s' id epoch : reached s id epoch -> store_le s s' -> reached s' id epoch.
Proof.
  intros [Ha Hr] Hle. destruct (Hle id Ha) as [Ha' Hf]. split; [done|]. intros f' Hf'.
  destruct (Hf f' Hf') as (f & Hl & (_ & _ & _ & Hep)). specialize (Hr f Hl). lia.
Qed.

Lemma reached_weaken s id e e' : reached s id e -> e' <= e -> reached s id e'.
Proof. intros [Ha Hr] Hle. split; [done|]. intros f Hf. specialize (Hr f Hf). lia. Qed.

Lemma fenced_le s s' id epoch : fenced s id epoch -> store_le s s' -> fenced s' id epoch.
Proof. apply reached_le. Qed.

Lemma lookup_file_Some s id f :
  lookup_file s id = Some f <-> exists i, s_inodes s !! id = Some i /\ inode_kind i = KFile f.
Proof.
  unfold lookup_file. destruct (s_inodes s !! id) as [i|]; [|by split; [|intros (? & ? & _)]].
  destruct (inode_kind i) eqn:E; split; [intros [= <-]; eauto|intros (j & [= <-] & Hk); congruence|done|intros (j & [= <-] & Hk); congruence].
Qed.

Lemma tree_step_le n s s' : ready n s -> tree_step n s s' -> store_le s s'.
Proof.
  intros Hs (n' & Hle & Hs' & _ & Hin) id (m & Hm & Hlt). rewrite (rd_next _ _ Hs) in Hm. injection Hm as <-.
  split; [exists n'; split; [apply (rd_next _ _ Hs')|lia]|]. intros f' (i' & Hi' & Hk')%lookup_file_Some.
  destruct (Hin _ _ Hi') as [?|(i & Hi & Hile)]; [lia|]. unfold inode_le in Hile. rewrite Hk' in Hile.
  destruct (inode_kind i) as [f|] eqn:Hk; [|by destruct Hile]. exists f. split; [|by destruct Hile].
  apply lookup_file_Some. eauto.
Qed.

Lemma applied_le s rs : store_le s (commit_applied_state s rs).
Proof.
  intros id Ha. split; [by destruct s|]. intros f'. unfold lookup_file. rewrite commit_applied_inodes. eauto using file_le_refl.
Qed.
End order.

Section apply.
Context (raft_state_len : RaftState -> Z) (marker_len : DetachedRoot -> Z).
Context (raft_state_len_nonneg : forall rs, 0 <= raft_state_len rs).
Context (marker_len_nonneg : forall d, 0 <= marker_len d).
Implicit Types (s : Store) (c : Command) (rs : RaftState).
Notation run := (run_command raft_state_len marker_len).

Lemma run_le s c rs s' r : store_inv s -> admissible s c -> run s c rs = Ok (s', r) -> store_le s s'.
Proof.
  intros [[Hun|[n Hs]] _] Hadm H.
  - intros id (n & Hn & _). destruct Hun. congruence.
  - eapply tree_step_le; [done|]. by eapply run_ready.
Qed.

Lemma committed_le s c rs s' out :
  store_inv s -> admissible s c -> apply_committed raft_state_len marker_len s c rs = Ok (s', out) -> store_le s s'.
Proof.
  intros Hs Hadm [(r & Hr & _)|(e & j & _ & _ & -> & _)]%apply_committed_cases; [by eapply run_le|apply applied_le].
Qed.

(** ** Answers as evidence *)

Lemma store_inv_ready s id i : store_inv s -> s_inodes s !! id = Some i -> exists n, ready n s /\ id < n.
Proof.
  intros [[Hun|[n Hs]] _] Hi; [destruct Hun; by rewrite un_inodes, lookup_empty in Hi|].
  exists n. split; [done|]. destruct (ti_inode _ _ _ _ _ (rd_tree _ _ Hs) _ _ Hi) as (_ & ? & _). lia.
Qed.

Lemma reached_file s id i f e :
  store_inv s -> s_inodes s !! id = Some i -> inode_kind i = KFile f -> e <= fd_lease_epoch f -> reached s id e.
Proof.
  intros Hs Hi Hk Hle. destruct (store_inv_ready s id i Hs Hi) as (n & Hr & Hlt). split.
  - exists n. split; [apply (rd_next _ _ Hr)|done].
  - intros f' (i' & Hi' & Hk')%lookup_file_Some. congruence.
Qed.

Lemma resolve_commit_reached p i f client call g :
  inode_kind i = KFile f -> resolve_commit p i client call = Ok (Some g) -> fp_lease_epoch p + 1 <= fd_lease_epoch f.
Proof.
  intros Hk H. unfold resolve_commit, inode_file in H. rewrite Hk in H. simpl in H.
  destruct (fd_last_commit f) as [c|]; [|done]. destruct (_ || _); [done|]. unbind H as u Hu.
  apply orb_false_iff in Hu as [_ Hu]. destruct (_ || _) eqn:Hb in H; [done|]. destruct (lease_checked_next (fc_lease_epoch c)) as [e|] eqn:He; [|done].
  apply checked_add64_Some in He as [-> _]. do 4 apply orb_false_iff in Hb as [Hb _]. bool_prop. lia.
Qed.

Lemma ended_reached s c rs s' id epoch :
  store_inv s -> admissible s c -> run s c rs = Ok (s', WriteLeaseEnded id epoch) -> reached s' id epoch.
Proof.
  intros Hs Hadm H. destruct (run_store_inv _ _ raft_state_len_nonneg marker_len_nonneg s c rs _ _ Hs Hadm H) as [Hs' _].
  destruct c; simpl in H; try (by inv_run). unbind H as [s1 e] Hr. injection H as <- <- <-.
  apply apply_end_write_lease_Ok in Hr as (i & f & Hi & Hk & Hid & -> & Hmax & [[He ->]|[He ->]]).
  - apply (reached_file _ id0 i f); [done|by rewrite commit_applied_inodes|done|lia].
  - eapply (reached_file _ id0); [done|rewrite put_inode_atomic_inodes; simpl; rewrite Hid; apply lookup_insert_eq|done|simpl; lia].
Qed.

Lemma committed_reached s c rs s' id g epoch :
  store_inv s -> admissible s c -> run s c rs = Ok (s', FileCommitted id g epoch) -> reached s' id epoch.
Proof.
  intros Hs Hadm H. destruct (run_store_inv _ _ raft_state_len_nonneg marker_len_nonneg s c rs _ _ Hs Hadm H) as [Hs' _].
  destruct c; simpl in H; try (by inv_run). unbind H as ended He. unbind H as [s1 e] Hr. injection H as <- <- <- <-.
  apply checked_add64_Some in He as [-> _].
  apply apply_commit_file_Ok in Hr as (i & f & Hi & Hk & Hid & [[Hres ->]|(_ & _ & _ & i' & f' & ch & Hp & Hk' & ->)]).
  - apply (reached_file _ id0 i f); [done|by rewrite commit_applied_inodes|done|]. by eapply resolve_commit_reached.
  - assert (inode_id i' = id0) as Hid'.
    { apply (prepare_file_publication_Ok i f) in Hp as [_ [(_ & -> & _)|(_ & _ & _ & _ & _ & bl & _ & ->)]]; done. }
    eapply (reached_file _ id0); [done|rewrite put_inode_atomic_inodes; simpl; rewrite Hid'; apply lookup_insert_eq|done|simpl; lia].
Qed.
(** ** Leases, blocks and creations that an answer reports *)

Lemma acquired_reached s c rs s' id epoch :
  store_inv s -> admissible s c -> run s c rs = Ok (s', WriteLeaseAcquired id epoch) ->
  exists f, lookup_file s id = Some f /\ epoch = fd_lease_epoch f + 1.
Proof.
  intros Hs Hadm H. destruct c; simpl in H; try (by inv_run). unbind H as [s1 e] Hr. injection H as <- <- <-.
  apply apply_acquire_write_lease_Ok in Hr as (i & f & Hi & Hk & Hid & <- & -> & _). exists f. split; [|done].
  apply lookup_file_Some. eauto.
Qed.

Lemma block_fresh s c rs s' b :
  store_inv s -> admissible s c -> run s c rs = Ok (s', BlockAllocated b) -> ~ assigned s b.
Proof.
  intros Hs Hadm H [_ Ha]. destruct c; simpl in H; try (by inv_run). unbind H as [s1 e] Hr. injection H as <- <-.
  apply apply_allocate_block_Ok in Hr as (i & f & Hi & Hk & Hid & _ & _ & -> & _). simpl in Ha.
  specialize (Ha f (proj2 (lookup_file_Some _ _ _) (ex_intro _ i (conj Hi Hk)))). lia.
Qed.

Lemma replays_written s ops op rec :
  s_replays (write_batch s ops) !! op = Some rec -> s_replays s !! op = Some rec \/ PutReplay rec ∈ ops.
Proof.
  revert s. induction ops as [|o ops IH]; intros s H; [by left|]. change (write_batch s (o :: ops)) with (write_batch (write_op s o) ops) in H.
  destruct (IH _ H) as [Hs|?]; [|right; set_solver]. destruct o; try (left; by destruct s).
  - destruct s; simpl in Hs. apply lookup_insert_Some in Hs as [[_ <-]|[_ ?]]; [right; set_solver|by left].
  - destruct s; simpl in Hs. apply lookup_delete_Some in Hs as [_ ?]. by left.
Qed.

Lemma put_replay_only s r now ops rec :
  batch_put_create_file_replay s r now = Ok ops -> PutReplay rec ∈ ops -> rec = r.
Proof.
  unfold batch_put_create_file_replay. intros H Hin. unbind H as u1 H1. unbind H as u2 H2. unbind H as u3 H3. unbind H as [ev cnt] Hev.
  injection H as <-. apply elem_of_app in Hin as [Hin|Hin]; [|set_solver].
  case_bool_decide; [|injection Hev as <- <-; set_solver]. unbind Hev as ev' He. injection Hev as <- <-.
  unfold evict_expired in He. unbind He as [t op] Hf. unbind He as v1 V1. unbind He as v2 V2. unbind He as v3 V3. unbind He as v4 V4.
  unbind He as v5 V5. injection He as <-. set_solver.
Qed.

(** The replay records after CreateFile, and the one its answer reports. *)
Lemma create_records n s a now rs s' r :
  ready n s -> apply_create s a now rs = Ok (s', r) ->
  (exists op, s_replays s !! op = Some r /\ s_replays s' = s_replays s) \/
  (rr_inode_id r = n /\ reached s' n (rr_lease_epoch r) /\
   forall op rec, s_replays s' !! op = Some rec -> s_replays s !! op = Some rec \/ rec = r).
Proof.
  intros Hs H. destruct (s_replays s !! ca_operation_id a) as [r0|] eqn:Hrep.
  - left. unfold apply_create in H. unbind H as found Hf.
    unfold get_create_file_replay in Hf. rewrite Hrep in Hf. unbind Hf as [] Hop. injection Hf as <-.
    unbind H as [] Hsame. unbind H as [] Hval. injection H as <- <-. exists (ca_operation_id a). split; [done|]. by destruct s.
  - right. destruct Hs as [Hnext Hn HT]. apply apply_create_fresh in H
      as (pid & name & parent & n' & ops & Hres & _ & _ & _ & Hfree & Hnx & _ & _ & -> & Hops & ->); [|done].
    rewrite Hnext in Hnx. injection Hnx as <-. pose proof (alloc_fresh HT) as Hfresh.
    apply resolve_create_parent_Ok in Hres as (-> & Hp & Hdir & _).
    pose proof (batch_put_create_file_replay_ops _ _ _ _ Hops) as Hro.
    edestruct (create_batch_fields s) as (HI & HD & _ & HN); [exact Hro|]. split_and!; [done| |].
    + split; [exists (n + 1); split; [done|lia]|]. intros f (i & Hi & Hk)%lookup_file_Some. rewrite HI in Hi. simpl in Hi.
      rewrite lookup_insert_ne, lookup_insert_eq in Hi by (intros E; simpl in *; congruence). injection Hi as <-.
      injection Hk as <-. done.
    + intros op rec [?|Hin]%replays_written; [by left|right]. rewrite !elem_of_app in Hin.
      destruct Hin as [Hin|[Hin|[Hin|Hin]]]; [set_solver|set_solver| |set_solver]. by eapply put_replay_only.
Qed.

(** A replay record is an old one, or that of a file created by this command. *)
Lemma records_step s c rs s' r op rec :
  store_inv s -> run s c rs = Ok (s', r) -> s_replays s' !! op = Some rec ->
  s_replays s !! op = Some rec \/ (~ allocated s (rr_inode_id rec) /\ reached s' (rr_inode_id rec) (rr_lease_epoch rec)).
Proof.
  intros Hs H Hop. assert ((exists now a, c = CreateFile now a) \/ forall now a, c <> CreateFile now a)
    as [(now & a & ->)|Hc] by (destruct c; naive_solver).
  2:{ left. destruct (run_nonreplay _ _ _ _ _ _ _ Hc H) as [E _]. by rewrite <- E. }
  simpl in H. unbind H as [s1 rec'] Hr. injection H as <- <-. destruct Hs as [[Hun|[n Hs]] _].
  - exfalso. destruct Hun. unfold apply_create, get_create_file_replay, resolve_create_parent, get_mount in Hr.
    rewrite un_replays, un_mounts, !lookup_empty in Hr. simpl in Hr. by inv_run.
  - destruct (create_records _ _ _ _ _ _ _ Hs Hr) as [(op' & _ & E)|(Hn & Hre & Hall)]; [left; congruence|].
    destruct (Hall _ _ Hop) as [?| ->]; [by left|right]. rewrite Hn. split; [|done].
    intros (m & Hm & Hlt). rewrite (rd_next _ _ Hs) in Hm. injection Hm as <-. lia.
Qed.

(** A creation is answered from the record the store keeps. *)
Lemma created_record s c rs s' id layout e x g :
  store_inv s -> admissible s c -> run s c rs = Ok (s', FileCreated id layout e x g) ->
  exists op r, s_replays s' !! op = Some r /\ rr_inode_id r = id /\ rr_lease_epoch r = e /\ rr_expires_at_ms r = x.
Proof.
  intros Hs Hadm H. destruct c; simpl in H; try (by inv_run). unbind H as [s1 rec] Hr. injection H as <- <- <- <- <- <-.
  destruct Hs as [[Hun|[n Hs]] Hrp].
  - exfalso. destruct Hun. unfold apply_create, get_create_file_replay, resolve_create_parent, get_mount in Hr.
    rewrite un_replays, un_mounts, !lookup_empty in Hr. simpl in Hr. by inv_run.
  - eapply apply_create_replay_inv in Hr as [_ Hl]; [|done..]. by eexists _, _.
Qed.

(** ** Visible content *)

Lemma shape_content n s s' id f' :
  ready n s -> shape_step n s s' -> allocated s id -> lookup_file s' id = Some f' -> lookup_file s id = Some f'.
Proof.
  intros Hs (n' & _ & _ & _ & Hin) (m & Hm & Hlt) (i' & Hi' & Hk')%lookup_file_Some. rewrite (rd_next _ _ Hs) in Hm. injection Hm as <-.
  destruct (Hin _ _ Hi') as [?|(i & Hi & _ & Hk)]; [lia|]. apply lookup_file_Some. exists i. split; congruence.
Qed.

Lemma put_inode_file s i rs id f' :
  lookup_file (put_inode_atomic s i rs) id = Some f' ->
  (id = inode_id i /\ inode_kind i = KFile f') \/ (id <> inode_id i /\ lookup_file s id = Some f').
Proof.
  intros (j & Hj & Hk)%lookup_file_Some. rewrite put_inode_atomic_inodes in Hj.
  apply lookup_insert_Some in Hj as [[<- <-]|[? ?]]; [by left|right]. split; [done|]. apply lookup_file_Some. eauto.
Qed.

Lemma applied_file s rs id : lookup_file (commit_applied_state s rs) id = lookup_file s id.
Proof. unfold lookup_file. by rewrite commit_applied_inodes. Qed.

(** Commands that do not publish leave the blocks of every file alone. *)
Lemma content_kept s c rs s' r id f' :
  store_inv s -> admissible s c -> run s c rs = Ok (s', r) -> publication_of c = None ->
  allocated s id -> lookup_file s' id = Some f' -> exists f, lookup_file s id = Some f /\ fd_blocks f' = fd_blocks f.
Proof.
  intros [[Hun|[n Hs]] _] Hadm H Hpub Ha Hf'; [destruct Ha as (m & Hm & _); destruct Hun; congruence|].
  destruct (writes_file c) eqn:Hw.
  2:{ destruct (run_shape _ _ raft_state_len_nonneg marker_len_nonneg n s c rs s' r Hs Hadm H Hw) as [Hsh _]. exists f'. split; [by eapply shape_content|done]. }
  destruct c; try done; simpl in H.
  - unbind H as [s1 e] Hr. injection H as <- <-. apply apply_acquire_write_lease_Ok in Hr as (i & f & Hi & Hk & Hid & _ & _ & _ & ->).
    apply put_inode_file in Hf' as [[-> [= <-]]|[_ ?]]; [|eauto]. exists f. split; [|done]. simpl. rewrite Hid. apply lookup_file_Some. eauto.
  - unbind H as [s1 e] Hr. injection H as <- <-. apply apply_allocate_block_Ok in Hr as (i & f & Hi & Hk & Hid & _ & _ & _ & ->).
    apply put_inode_file in Hf' as [[-> [= <-]]|[_ ?]]; [|eauto]. exists f. split; [|done]. simpl. rewrite Hid. apply lookup_file_Some. eauto.
  - unbind H as [s1 e] Hr. injection H as <- <-. apply apply_end_write_lease_Ok in Hr as (i & f & Hi & Hk & Hid & _ & _ & [[_ ->]|[_ ->]]).
    + rewrite applied_file in Hf'. eauto.
    + apply put_inode_file in Hf' as [[-> [= <-]]|[_ ?]]; [|eauto]. exists f. split; [|done]. simpl. rewrite Hid. apply lookup_file_Some. eauto.
Qed.

(** The content that a publication leaves: what was there and what it brings, all
    of the former for an append. *)
Definition republished (pub : FilePublication) (old new : list BlockId) : Prop :=
  (forall b, b ∈ new -> b ∈ old \/ exists cb, cb ∈ fp_blocks pub /\ cb_block_id cb = b) /\
  (fp_mode pub = AppendIfUnchanged -> old ⊆ new).

Lemma merged_republished id p f bl :
  file_inv id f -> publication_typed p -> merged_blocks p id f = Ok bl -> republished p (fd_blocks f) bl.
Proof.
  intros Hf Hp H. pose proof (file_inv_typed _ _ Hf) as Ht.
  destruct (merged_blocks_Ok id p f bl Ht Hp H) as ([Hlay Hcount _ _ _] & start & Hs & -> & _ & _ & _ & _ & Hmode).
  split.
  - intros b [Hb|(cb & -> & Hb)%list_elem_of_fmap]%elem_of_app; [left; by eapply subseteq_take|right; eauto].
  - intros Hm. rewrite Hm in Hmode. destruct Hmode as [Hlen Hhead]. destruct Hp as [Hp1 Hp2], Ht as [Ht1 Ht2].
    apply start_index_Ok in Hs as (Hcap & _ & Hst & _ & Hmd); [|done..]. rewrite Hm in Hmd. destruct Hmd as [_ Hmd].
    assert (Z.of_nat (length (fd_blocks f)) <= start + 1) as Hle.
    { rewrite Hcount, Hlen. destruct Hmd as [(_ & <- & ->)| ->]; [lia|]. unfold ceil_div.
      assert (forall a k : Z, 0 < k -> (a + k - 1) / k <= a / k + 1) as Hd; [|by apply Hd].
      intros a k Hc. replace (a / k + 1) with ((a + k) / k); [apply Z.div_le_mono; lia|].
      replace (a + k) with (a + 1 * k) by lia. by rewrite Z.div_add by lia. }
    intros b [i Hi]%list_elem_of_lookup. pose proof (lookup_lt_Some _ _ _ Hi).
    apply (list_elem_of_lookup_2 _ i). rewrite take_app_lookup; [done|lia|done|]. intros ->. apply Hhead. lia.
Qed.

Lemma publication_content s c rs s' r id pub j f' :
  store_inv s -> admissible s c -> run s c rs = Ok (s', r) -> publication_of c = Some (id, pub) ->
  lookup_file s' j = Some f' ->
  exists f, lookup_file s j = Some f /\
    (fd_blocks f' = fd_blocks f \/
     (j = id /\ fd_lease_epoch f = fp_lease_epoch pub /\ republished pub (fd_blocks f) (fd_blocks f'))).
Proof.
  intros [[Hun|[n Hs]] _] [Hty _] H Hpub Hf'.
  { destruct Hun. assert (forall k, exists e, load_file s k = Err e) as Hl.
    { intros k. unfold load_file, get_inode. rewrite un_inodes, lookup_empty. eauto. }
    destruct c; try done; simpl in H; [unfold apply_publish_file in H|unfold apply_commit_file in H];
      destruct (Hl id0) as [e He]; rewrite He in H; by inv_run. }
  assert (publication_typed pub) as Hpt by (destruct c; try done; injection Hpub as <- <-; by destruct Hty).
  assert (forall i f i' f1 g ch now, s_inodes s !! id = Some i -> inode_kind i = KFile f -> inode_id i = id ->
    prepare_file_publication i pub now = Ok (i', g, ch) -> inode_kind i' = KFile f1 ->
    inode_id i' = id /\ lookup_file s id = Some f /\ fd_lease_epoch f = fp_lease_epoch pub /\ republished pub (fd_blocks f) (fd_blocks f1)) as Hprep.
  { intros i f i' f1 g ch now Hi Hk Hid Hp Hk'. apply (prepare_file_publication_Ok i f) in Hp as [He Hp]; [|done].
    assert (lookup_file s id = Some f) as Hlf by (apply lookup_file_Some; eauto).
    destruct Hp as [(_ & -> & _)|(_ & _ & _ & _ & _ & bl & Hm & ->)].
    - split_and!; try done. replace f1 with f by congruence. split; [auto|done].
    - split_and!; try done. injection Hk' as <-. simpl. eapply merged_republished; [|done|by rewrite Hid in Hm].
      eapply lookup_file_inv; [apply (rd_tree _ _ Hs)|done..]. }
  destruct c; try done; injection Hpub as <- <-; simpl in H.
  - unbind H as [s1 e] Hr. injection H as <- <-. apply apply_publish_file_Ok in Hr as (i & f & i' & ch & Hi & Hk & Hid & Hp & ->).
    destruct ch; [|rewrite applied_file in Hf'; eauto]. apply put_inode_file in Hf' as [[-> Hk']|[_ ?]]; [|eauto].
    destruct (Hprep _ _ _ _ _ _ _ Hi Hk Hid Hp Hk') as (-> & Hlf & He & Hre). exists f. split; [done|right; done].
  - unbind H as ended He. unbind H as [s1 e] Hr. injection H as <- <-.
    apply apply_commit_file_Ok in Hr as (i & f & Hi & Hk & Hid & [[_ ->]|(_ & _ & _ & i' & f1 & ch & Hp & Hk' & ->)]).
    { rewrite applied_file in Hf'. eauto. }
    destruct (Hprep _ _ _ _ _ _ _ Hi Hk Hid Hp Hk') as (Hid' & Hlf & Hep & Hre).
    apply put_inode_file in Hf' as [[-> [= <-]]|[_ ?]]; [|eauto]. simpl. rewrite Hid'. exists f. split; [done|right; done].
Qed.

(** ** One committed command *)

Record evolves (s s' : Store) (pub : option (InodeId * FilePublication)) : Prop := {
  ev_inv : store_inv s';
  ev_le : store_le s s';
  ev_records : forall op rec, s_replays s' !! op = Some rec ->
    s_replays s !! op = Some rec \/ (~ allocated s (rr_inode_id rec) /\ reached s' (rr_inode_id rec) (rr_lease_epoch rec));
  ev_content : forall j f', allocated s j -> lookup_file s' j = Some f' -> exists f, lookup_file s j = Some f /\
    (fd_blocks f' = fd_blocks f \/ exists p, pub = Some (j, p) /\ fd_lease_epoch f = fp_lease_epoch p /\
       republished p (fd_blocks f) (fd_blocks f'))
}.

Lemma committed_evolves s c rs s' out :
  store_inv s -> admissible s c -> apply_committed raft_state_len marker_len s c rs = Ok (s', out) ->
  evolves s s' (publication_of c).
Proof.
  intros Hs Hadm H. pose proof (committed_le s c rs s' out Hs Hadm H) as Hle.
  apply apply_committed_cases in H as [(r & H & _)|(e & j & _ & _ & -> & _)].
  - split; [by eapply run_store_inv|done| |].
    + intros op rec Hop. by eapply records_step.
    + intros j f' Ha Hf'. destruct (publication_of c) as [[id p]|] eqn:Hp.
      * destruct (publication_content _ _ _ _ _ _ _ _ _ Hs Hadm H Hp Hf') as (f & Hf & [?|(-> & ? & ?)]); exists f; eauto 10.
      * destruct (content_kept _ _ _ _ _ _ _ Hs Hadm H Hp Ha Hf') as (f & ? & ?). eauto.
  - split; [by apply store_inv_applied|done| |].
    + intros op rec. rewrite (proj1 (applied_replay s rs)). auto.
    + intros j' f' Ha. rewrite applied_file. eauto.
Qed.

(** What the answer to it is evidence of. *)
Definition evidence (s s' : Store) (r : ApplySuccess) : Prop :=
  match r with
  | WriteLeaseEnded id e | FileCommitted id _ e => reached s' id e
  | WriteLeaseAcquired id e => reached s' id e /\ exists f, lookup_file s id = Some f /\ e = fd_lease_epoch f + 1
  | BlockAllocated b => ~ assigned s b
  | FileCreated id _ e x _ =>
      exists op rec, s_replays s' !! op = Some rec /\ rr_inode_id rec = id /\ rr_lease_epoch rec = e /\ rr_expires_at_ms rec = x
  | _ => True
  end.

Lemma run_evidence s c rs s' r : store_inv s -> admissible s c -> run s c rs = Ok (s', r) -> evidence s s' r.
Proof.
  intros Hs Hadm H. destruct r; try done; simpl.
  - by eapply created_record.
  - split; [|by eapply acquired_reached]. destruct (run_store_inv _ _ raft_state_len_nonneg marker_len_nonneg s c rs _ _ Hs Hadm H) as [Hs' _].
    destruct c; simpl in H; try (by inv_run). unbind H as [s1 e] Hr. injection H as <- <- <-.
    apply apply_acquire_write_lease_Ok in Hr as (i & f & Hi & Hk & Hid & <- & -> & _ & ->).
    eapply reached_file; [done|rewrite put_inode_atomic_inodes; simpl; rewrite Hid; apply lookup_insert_eq|done|simpl; lia].
  - by eapply block_fresh.
  - by eapply ended_reached.
  - by eapply committed_reached.
Qed.
End apply.
