(* ===== verification/PathResolver.v ===== *)
(** * Path resolution ([beryl-metadata/src/path_resolver.rs])

    Normalisation of request paths, the choice of the longest mount prefix, and
    the walk over directory entries that yields the parent, the target and the
    chain of ancestors the session registry protects. *)

From S2P Require Import Prelude Types Errors Inode Mount Store Namespace Tree NamespaceInv WriteApply Samples Session.
Local Open Scope Z_scope.

(** [split('/').filter(|s| !s.is_empty())]. *)
Definition path_parts (s : string) : list string := filter (fun w => w <> EmptyString) (split_slash s).

Definition normalize (path : string) : MetadataResult string :=
  reject_if (bool_decide (path = EmptyString)) (InvalidArgument "Path cannot be empty");;
  reject_if (MAX_PATH_BYTES <? str_len path) (InvalidArgument "Path exceeds the byte limit");;
  reject_if (contains_char nul path) (InvalidArgument "Path cannot contain null byte");;
  let components := path_parts path in
  reject_if (MAX_PATH_COMPONENTS <? Z.of_nat (length components)) (InvalidArgument "Path exceeds the component limit");;
  reject_if (existsb (fun component => MAX_PATH_COMPONENT_BYTES <? str_len component) components)
    (InvalidArgument "Path component exceeds the byte limit");;
  if bool_decide (components = []) then Ok "/"%string
  else
    let normalized := String slash (join_slash components) in
    reject_if (MAX_PATH_BYTES <? str_len normalized) (InvalidArgument "Normalized path exceeds the byte limit");;
    Ok normalized.

Record MountContext := mk_MountContext {
  mc_mount_id : MountId;
  mc_mount_epoch : Z;
  mc_owner_group_name : GroupName;
  mc_root_inode_id : InodeId
}.

Record ResolvedPath := mk_ResolvedPath {
  rp_mount_ctx : MountContext;
  rp_relative_components : list string;
  rp_parent_inode_id : option InodeId;
  rp_name : option string;
  rp_inode_id : option InodeId;
  rp_ancestor_inode_ids : list InodeId
}.

(** The components below a matching prefix; indexing behind the path panics. *)
Definition relative_parts (prefix normalized : string) : MetadataResult (list string) :=
  if bool_decide (String.length prefix = String.length normalized) then Ok []
  else
    match str_drop (String.length prefix) normalized with
    | EmptyString => Panic
    | String c rest => Ok (if bool_decide (c = slash) then path_parts rest else path_parts (String c rest))
    end.

(** The loop of [resolve_mount] over the mounts in the order the table lists them. *)
Fixpoint resolve_mount_loop (normalized : string) (mounts : list MountEntry)
    (best_match : option (MountEntry * list string)) (best_prefix_len : nat)
  : MetadataResult (option (MountEntry * list string)) :=
  match mounts with
  | [] => Ok best_match
  | mount :: rest =>
      let prefix := mount_prefix mount in
      if mount_prefix_matches_path prefix normalized && (best_prefix_len <? String.length prefix)%nat
      then
        relative ← relative_parts prefix normalized;
        resolve_mount_loop normalized rest (Some (mount, relative)) (String.length prefix)
      else resolve_mount_loop normalized rest best_match best_prefix_len
  end.

Definition resolve_mount (table : MountTableState) (path : string) : MetadataResult (MountEntry * list string) :=
  normalized ← normalize path;
  best_match ← resolve_mount_loop normalized (mount_table_list table) None 0;
  ok_or best_match (NotFound "No mount found for path").

Definition mount_context (e : MountEntry) : MountContext :=
  mk_MountContext (mount_id e) (mount_epoch e) (namespace_owner_group_name e) (root_inode_id e).

Definition resolve_mount_components (table : MountTableState) (path : string)
  : MetadataResult (MountContext * list string) :=
  '(entry, components) ← resolve_mount table path;
  Ok (mount_context entry, components).

Fixpoint walk_dentry (s : Store) (current : InodeId) (components : list string) (ancestors : list InodeId)
  : MetadataResult (InodeId * list InodeId) :=
  match components with
  | [] => Ok (current, ancestors)
  | component :: rest =>
      child ← ok_or (get_dentry s current component) (NotFound "Entry not found");
      walk_dentry s child rest (ancestors ++ [child])
  end.

Definition resolve_path (table : MountTableState) (s : Store) (path : string) : MetadataResult ResolvedPath :=
  '(entry, components) ← resolve_mount table path;
  if bool_decide (components = [])
  then Ok (mk_ResolvedPath (mount_context entry) [] None None (Some (root_inode_id entry)) [root_inode_id entry])
  else
    let parent_components := removelast components in
    name ← expect (last components);
    let ancestors := [root_inode_id entry] in
    '(parent, ancestors) ←
      (if bool_decide (parent_components = []) then Ok (root_inode_id entry, ancestors)
       else walk_dentry s (root_inode_id entry) parent_components ancestors);
    parent_inode ← ok_or (get_inode s parent) (NotFound "Parent inode not found");
    reject_if (negb (is_dir parent_inode)) (NotDir "Parent is not a directory");;
    let inode := get_dentry s parent name in
    Ok (mk_ResolvedPath (mount_context entry) components (Some parent) (Some name) inode
          (ancestors ++ option_list inode)).

Definition resolve_rename (table : MountTableState) (s : Store) (src_path dst_path : string)
  : MetadataResult (ResolvedPath * ResolvedPath) :=
  src ← resolve_path table s src_path;
  dst ← resolve_path table s dst_path;
  reject_if (bool_decide (mc_mount_id (rp_mount_ctx src) <> mc_mount_id (rp_mount_ctx dst)))
    (CrossMountRename "Cross-mount rename not allowed");;
  Ok (src, dst).

(** ** Splitting and joining *)

Definition plain (w : string) : Prop := w <> EmptyString /\ contains_char slash w = false.

Lemma split_slash_cons s : exists w ws, split_slash s = w :: ws.
Proof.
  induction s as [|c s (w & ws & IH)]; simpl; [by eauto|]. rewrite IH. case_bool_decide; eauto.
Qed.

Lemma split_slash_plain s w : w ∈ split_slash s -> contains_char slash w = false.
Proof.
  revert w. induction s as [|c s IH]; intros w; simpl; [by intros ->%list_elem_of_singleton|].
  destruct (split_slash_cons s) as (v & vs & E). rewrite E in *. case_bool_decide as Hc.
  - intros [->|Hw]%elem_of_cons; [done|by apply IH].
  - intros [->|Hw]%elem_of_cons; [|apply IH; by right]. simpl. rewrite bool_decide_eq_false_2 by done. apply IH. by left.
Qed.

Lemma path_parts_plain s : Forall plain (path_parts s).
Proof.
  apply Forall_forall. intros w [Hne Hw]%list_elem_of_filter. split; [done|]. by eapply split_slash_plain.
Qed.

Lemma split_slash_word w s :
  contains_char slash w = false -> split_slash (w +:+ String slash s) = w :: split_slash s.
Proof.
  destruct (split_slash_cons s) as (v & vs & E). induction w as [|c w IH]; simpl.
  - by rewrite E.
  - rewrite orb_false_iff, bool_decide_eq_false. intros [Hc Hw]. rewrite IH by done. by rewrite bool_decide_eq_false_2.
Qed.

Lemma split_slash_last w : contains_char slash w = false -> split_slash w = [w].
Proof.
  induction w as [|c w IH]; simpl; [done|]. rewrite orb_false_iff, bool_decide_eq_false. intros [Hc Hw].
  rewrite IH by done. by rewrite bool_decide_eq_false_2.
Qed.

Lemma path_parts_slash s : path_parts (String slash s) = path_parts s.
Proof.
  unfold path_parts. simpl. destruct (split_slash_cons s) as (v & vs & E). rewrite E.
  rewrite filter_cons_False by naive_solver. done.
Qed.

Lemma path_parts_word w s : plain w -> path_parts (w +:+ String slash s) = w :: path_parts s.
Proof.
  intros [Hne Hw]. unfold path_parts. rewrite split_slash_word by done. by rewrite filter_cons_True.
Qed.

Lemma path_parts_join ws : Forall plain ws -> path_parts (join_slash ws) = ws.
Proof.
  induction 1 as [|w ws Hw Hws IH]; [done|]. destruct ws as [|v ws].
  - destruct Hw as [Hne Hw]. unfold path_parts. simpl. rewrite split_slash_last by done. by rewrite filter_cons_True.
  - change (join_slash (w :: v :: ws)) with (w +:+ String slash (join_slash (v :: ws))).
    rewrite path_parts_word by done. by rewrite IH.
Qed.

(** ** Normalisation *)

Lemma contains_app c a b : contains_char c (a +:+ b) = contains_char c a || contains_char c b.
Proof. induction a as [|x a IH]; simpl; [done|]. by rewrite IH, orb_assoc. Qed.

Lemma contains_join c ws :
  c <> slash -> Forall (fun w => contains_char c w = false) ws -> contains_char c (join_slash ws) = false.
Proof.
  intros Hc. induction 1 as [|w ws Hw Hws IH]; [done|]. destruct ws as [|v ws]; [done|].
  change (join_slash (w :: v :: ws)) with (w +:+ String slash (join_slash (v :: ws))).
  rewrite contains_app, Hw. simpl contains_char at 1. rewrite bool_decide_eq_false_2; [done|congruence].
Qed.

Lemma split_contains c s w : w ∈ split_slash s -> contains_char c s = false -> contains_char c w = false.
Proof.
  revert w. induction s as [|x s IH]; intros w; simpl; [by intros ->%list_elem_of_singleton|].
  destruct (split_slash_cons s) as (v & vs & E). rewrite E in *. rewrite orb_false_iff. case_bool_decide.
  - intros [->|Hw]%elem_of_cons [_ Hs]; [done|by apply IH].
  - intros [->|Hw]%elem_of_cons [Hx Hs]; [|apply IH; [by right|done]]. simpl. rewrite Hx. apply IH; [by left|done].
Qed.

(** A path whose components respect the limits. *)
Record acceptable (p : string) : Prop := {
  ac_nonempty : p <> EmptyString;
  ac_bytes : str_len p <= MAX_PATH_BYTES;
  ac_nul : contains_char nul p = false;
  ac_count : Z.of_nat (length (path_parts p)) <= MAX_PATH_COMPONENTS;
  ac_parts : Forall (fun w => str_len w <= MAX_PATH_COMPONENT_BYTES) (path_parts p);
  ac_normal : str_len (String slash (join_slash (path_parts p))) <= MAX_PATH_BYTES
}.

Lemma existsb_false {A} (f : A -> bool) l : existsb f l = false <-> Forall (fun a => f a = false) l.
Proof. induction l as [|a l IH]; simpl; [done|]. by rewrite orb_false_iff, IH, Forall_cons. Qed.

Lemma normalize_Ok p q :
  normalize p = Ok q <-> acceptable p /\ q = String slash (join_slash (path_parts p)).
Proof.
  unfold normalize. split.
  - intros H. unbind H as u1 H1. unbind H as u2 H2. unbind H as u3 H3. unbind H as u4 H4. unbind H as u5 H5. bool_prop.
    apply existsb_false in H5.
    assert (Forall (fun w => str_len w <= MAX_PATH_COMPONENT_BYTES) (path_parts p)) as Hparts.
    { eapply Forall_impl; [exact H5|]. simpl. intros w. rewrite Z.ltb_ge. done. }
    case_bool_decide as He.
    + injection H as <-. split; [|by rewrite He]. split; try done; [lia..|]. by rewrite He.
    + unbind H as u6 H6. bool_prop. injection H as <-. split; [|done]. split; try done; lia.
  - intros [[H1 H2 H3 H4 H5 H6] ->]. rewrite (bool_decide_eq_false_2 (p = EmptyString)) by done. apply Z.ltb_ge in H2, H4, H6.
    rewrite H2, H3, H4.
    rewrite (proj2 (existsb_false _ _)); [|eapply Forall_impl; [exact H5|]; simpl; intros w; by rewrite Z.ltb_ge].
    cbn [reject_if]. case_bool_decide as He; [by rewrite He|]. by rewrite H6.
Qed.

Lemma normal_parts p : path_parts (String slash (join_slash (path_parts p))) = path_parts p.
Proof. rewrite path_parts_slash. apply path_parts_join, path_parts_plain. Qed.

Lemma acceptable_normal p : acceptable p -> acceptable (String slash (join_slash (path_parts p))).
Proof.
  intros [H1 H2 H3 H4 H5 H6]. split; rewrite ?normal_parts; try done. simpl.
  apply contains_join; [done|]. apply Forall_forall. intros w [_ Hw]%list_elem_of_filter. by eapply split_contains.
Qed.

(** Normalisation accepts exactly the non-empty paths without null bytes
    whose bytes, components and component lengths respect the limits. Its result
    has the same components as the request, is itself a normal form, and two
    accepted paths get the same result exactly when they have the same
    components. *)
Theorem normalize_canonical p q :
  (normalize p = Ok q <-> acceptable p /\ q = String slash (join_slash (path_parts p))) /\
  (normalize p = Ok q ->
     normalize q = Ok q /\ path_parts q = path_parts p /\
     forall p', acceptable p' -> (normalize p' = Ok q <-> path_parts p' = path_parts p)).
Proof.
  split; [apply normalize_Ok|]. intros [Hp ->]%normalize_Ok. split_and!.
  - apply normalize_Ok. rewrite normal_parts. split; [by apply acceptable_normal|done].
  - apply normal_parts.
  - intros p' Hp'. rewrite normalize_Ok. split.
    + intros [_ E]. rewrite <- (normal_parts p'), <- E. apply normal_parts.
    + intros E. split; [done|]. by rewrite E.
Qed.

Lemma normalize_canonical_witness :
  normalize "//a/b///" = Ok "/a/b"%string /\ normalize "/a/b" = Ok "/a/b"%string.
Proof.
  assert (normalize "//a/b///" = Ok "/a/b"%string) as H by (vm_compute; reflexivity).
  split; [exact H|]. exact (proj1 (proj2 (normalize_canonical "//a/b///" "/a/b") H)).
Defined.

(** ** Mount prefixes *)

Lemma split_slash_app a b : split_slash (a +:+ String slash b) = split_slash a ++ split_slash b.
Proof.
  induction a as [|c a IH]; simpl.
  - destruct (split_slash_cons b) as (w & ws & ->). done.
  - rewrite IH. destruct (split_slash_cons a) as (w & ws & ->). simpl. by case_bool_decide.
Qed.

Lemma path_parts_app a b : path_parts (a +:+ String slash b) = path_parts a ++ path_parts b.
Proof. unfold path_parts. by rewrite split_slash_app, filter_app. Qed.

Lemma strip_prefix_Some p s r : strip_prefix p s = Some r -> s = p +:+ r.
Proof.
  revert s. induction p as [|a p IH]; intros [|b s]; simpl; try by intros [= <-]. case_bool_decide; [|done]. subst.
  by intros ->%IH.
Qed.

Lemma str_drop_app p r : str_drop (String.length p) (p +:+ r) = r.
Proof. induction p as [|a p IH]; simpl; [by destruct r|done]. Qed.

Lemma str_drop_all s : str_drop (String.length s) s = EmptyString.
Proof. by induction s. Qed.

Lemma str_length_app a b : String.length (a +:+ b) = (String.length a + String.length b)%nat.
Proof. induction a as [|c a IH]; [done|]. transitivity (S (String.length (a +:+ b))); [done|]. by rewrite IH. Qed.

(** What a matching prefix leaves. *)
Lemma prefix_matches_rest p s :
  mount_prefix_matches_path p s = true -> p <> EmptyString -> exists r, s = p +:+ r /\ path_parts s = path_parts p ++ path_parts r.
Proof.
  unfold mount_prefix_matches_path. intros H Hne. case_bool_decide as Hroot.
  - subst p. destruct s as [|c s]; [done|]. simpl in H. apply bool_decide_eq_true in H. subst c. exists s. split; [done|].
    by rewrite path_parts_slash.
  - apply orb_prop in H as [H|H]; [apply bool_decide_eq_true in H; subst s; exists EmptyString|].
    + split; [clear; induction p as [|c p IH]; [done|transitivity (String c (p +:+ EmptyString)); [by f_equal|done]]|]. change (path_parts EmptyString) with (@nil string).
      by rewrite app_nil_r.
    + destruct (strip_prefix p s) as [r|] eqn:Hs; [|done]. apply strip_prefix_Some in Hs as ->. exists r. split; [done|].
      destruct r as [|c r]; [done|]. simpl in H. apply bool_decide_eq_true in H. subst c.
      by rewrite path_parts_app, path_parts_slash.
Qed.

Lemma relative_parts_ok p s :
  mount_prefix_matches_path p s = true -> p <> EmptyString ->
  exists rel, relative_parts p s = Ok rel /\ path_parts s = path_parts p ++ rel.
Proof.
  intros H Hne. destruct (prefix_matches_rest p s H Hne) as (r & -> & Hparts). exists (path_parts r). split; [|done].
  unfold relative_parts. rewrite str_drop_app. case_bool_decide as Hlen.
  - assert (r = EmptyString) as ->; [|done]. rewrite str_length_app in Hlen. destruct r; [done|]. simpl in Hlen. lia.
  - destruct r as [|c r]; [|case_bool_decide; [subst c; by rewrite path_parts_slash|done]].
    destruct Hlen. rewrite str_length_app. simpl. lia.
Qed.

Lemma resolve_mount_loop_spec normalized mounts best len :
  (forall e rel, best = Some (e, rel) -> String.length (mount_prefix e) = len) ->
  exists r, resolve_mount_loop normalized mounts best len = Ok r /\
    (forall e, e ∈ mounts -> mount_prefix_matches_path (mount_prefix e) normalized = true ->
       (String.length (mount_prefix e) <= match r with Some (b, _) => String.length (mount_prefix b) | None => len end)%nat) /\
    (len <= match r with Some (b, _) => String.length (mount_prefix b) | None => len end)%nat /\
    (r = best \/ exists e rel, r = Some (e, rel) /\ e ∈ mounts /\ mount_prefix e <> EmptyString /\
       mount_prefix_matches_path (mount_prefix e) normalized = true /\ path_parts normalized = path_parts (mount_prefix e) ++ rel).
Proof.
  revert best len. induction mounts as [|e mounts IH]; intros best len Hbest; simpl.
  { exists best. split; [done|]. split; [set_solver|]. split; [|by left].
    destruct best as [[b rel]|]; [by rewrite (Hbest _ _ eq_refl)|done]. }
  destruct (mount_prefix_matches_path (mount_prefix e) normalized) eqn:Hm; simpl.
  - destruct (Nat.ltb_spec len (String.length (mount_prefix e))) as [Hlt|Hge].
    + assert (mount_prefix e <> EmptyString) as Hne by (intros E; rewrite E in Hlt; simpl in Hlt; lia).
      destruct (relative_parts_ok _ _ Hm Hne) as (rel & -> & Hparts). simpl.
      destruct (IH (Some (e, rel)) (String.length (mount_prefix e))) as (r & Hr & Hmax & Hle & Hcase); [naive_solver|].
      assert (exists b rel', r = Some (b, rel')) as (b & rel' & ->) by (destruct Hcase as [->|(? & ? & -> & _)]; eauto).
      exists (Some (b, rel')). split; [done|]. split; [intros e' [->|He']%elem_of_cons Hm'; [done|by apply (Hmax e')]|].
      split; [lia|]. right. destruct Hcase as [[= -> ->]|(? & ? & [= <- <-] & Hin & ?)]; [exists e, rel|exists b, rel']; set_solver.
    + destruct (IH best len Hbest) as (r & Hr & Hmax & Hle & Hcase). exists r. split; [done|].
      split; [intros e' [->|He']%elem_of_cons Hm'; [lia|auto]|]. split; [done|]. set_solver.
  - destruct (IH best len Hbest) as (r & Hr & Hmax & Hle & Hcase). exists r. split; [done|].
    split; [intros e' [->|He']%elem_of_cons Hm'; [congruence|auto]|]. split; [done|]. set_solver.
Qed.

(** The mount that owns a normalised path: the one with the longest prefix. *)
Record owns (table : MountTableState) (normalized : string) (e : MountEntry) (components : list string) : Prop := {
  ow_entry : mt_entries table !! mount_id e = Some e;
  ow_matches : mount_prefix_matches_path (mount_prefix e) normalized = true;
  ow_longest : forall id e', mt_entries table !! id = Some e' ->
    mount_prefix_matches_path (mount_prefix e') normalized = true ->
    (String.length (mount_prefix e') <= String.length (mount_prefix e))%nat;
  ow_parts : path_parts normalized = path_parts (mount_prefix e) ++ components
}.

Lemma elem_of_mount_table_list table e : e ∈ mount_table_list table <-> exists id, mt_entries table !! id = Some e.
Proof.
  unfold mount_table_list. rewrite list_elem_of_fmap. split.
  - intros ([id e'] & -> & H). exists id. by apply elem_of_map_to_list in H.
  - intros [id H]. exists (id, e). split; [done|]. by apply elem_of_map_to_list.
Qed.

Lemma resolve_mount_spec table path :
  mount_table_ok table ->
  match resolve_mount table path with
  | Ok (e, components) => exists normalized, normalize path = Ok normalized /\ owns table normalized e components
  | Err _ => (forall normalized, normalize path <> Ok normalized) \/
             exists normalized, normalize path = Ok normalized /\ forall id e, mt_entries table !! id = Some e ->
               mount_prefix e <> EmptyString -> mount_prefix_matches_path (mount_prefix e) normalized = false
  | Panic => False
  end.
Proof.
  intros [Hok _]. unfold resolve_mount. destruct (normalize path) as [normalized|e|] eqn:Hn; simpl.
  - destruct (resolve_mount_loop_spec normalized (mount_table_list table) None 0) as (r & -> & Hmax & _ & Hcase); [done|].
    simpl. destruct Hcase as [->|(e & rel & -> & Hin & Hne & Hm & Hparts)]; simpl.
    + right. exists normalized. split; [done|]. intros id e He Hne. destruct (mount_prefix_matches_path _ _) eqn:Hm; [|done].
      assert (String.length (mount_prefix e) <= 0)%nat; [|destruct (mount_prefix e); simpl in *; [done|lia]].
      apply Hmax; [|done]. apply elem_of_mount_table_list. eauto.
    + apply elem_of_mount_table_list in Hin as [id Hid]. destruct (Hok _ _ Hid) as [<- _].
      exists normalized. split; [done|]. split; try done.
      intros id' e' He' Hm'. apply Hmax; [|done]. apply elem_of_mount_table_list. eauto.
  - left. intros q. discriminate.
  - revert Hn. unfold normalize. by apply (np_bind _ _); [apply np_reject|]; intros; no_panic.
Qed.

(** ** Walking *)

(** The inodes a path of components visits below [p]. *)
Fixpoint visited (D : gmap (InodeId * string) InodeId) (p : InodeId) (components : list string) : list InodeId :=
  match components with
  | [] => []
  | c :: rest => match D !! (p, c) with Some q => q :: visited D q rest | None => [] end
  end.

Lemma walk_dentry_spec s p components ancestors :
  walk_dentry s p components ancestors =
  match lookup_path (s_dentries s) p components with
  | Some q => Ok (q, ancestors ++ visited (s_dentries s) p components)
  | None => Err (NotFound "Entry not found")
  end.
Proof.
  revert p ancestors. induction components as [|c rest IH]; intros p ancestors; simpl; [by rewrite app_nil_r|].
  unfold get_dentry. destruct (s_dentries s !! (p, c)) as [q|]; simpl; [|done]. rewrite IH. simpl.
  destruct (lookup_path _ q rest); [|done]. by rewrite <- app_assoc.
Qed.

Lemma lookup_path_snoc D p cs c : lookup_path D p (cs ++ [c]) = lookup_path D p cs ≫= fun q => D !! (q, c).
Proof.
  revert p. induction cs as [|d cs IH]; intros p; simpl; [by destruct (D !! (p, c))|]. destruct (D !! (p, d)); simpl; [apply IH|done].
Qed.

Lemma visited_snoc D p cs c q :
  lookup_path D p cs = Some q -> visited D p (cs ++ [c]) = visited D p cs ++ option_list (D !! (q, c)).
Proof.
  revert p. induction cs as [|d cs IH]; intros p; simpl; [intros [= ->]; by destruct (D !! (q, c))|].
  destruct (D !! (p, d)) as [r|]; simpl; [|done]. intros Hl. by rewrite IH.
Qed.

Lemma visited_length D p cs : (length (visited D p cs) <= length cs)%nat.
Proof. revert p. induction cs as [|c cs IH]; intros p; simpl; [done|]. destruct (D !! (p, c)) as [q|]; simpl; [specialize (IH q)|]; lia. Qed.

Lemma visited_last D p cs q : lookup_path D p cs = Some q -> last (p :: visited D p cs) = Some q.
Proof.
  revert p. induction cs as [|c cs IH]; intros p; simpl; [done|]. destruct (D !! (p, c)) as [r|]; simpl; [|done].
  intros Hl. specialize (IH r Hl). simpl in IH. done.
Qed.

Lemma visited_child D p cs i a b :
  (p :: visited D p cs) !! i = Some a -> (p :: visited D p cs) !! S i = Some b -> child D a b.
Proof.
  revert p i. induction cs as [|c cs IH]; intros p i; simpl; [by destruct i|].
  destruct (D !! (p, c)) as [q|] eqn:Hc; [|by destruct i]. destruct i as [|i]; simpl.
  - intros [= <-] [= <-]. by exists c.
  - intros Ha Hb. by apply (IH q i).
Qed.

(** A walk that starts where nothing leads to visits no inode twice. *)
Lemma walk_nodup (D : gmap (InodeId * string) InodeId) (l : list InodeId) root :
  (forall p nm p' nm' c, D !! (p, nm) = Some c -> D !! (p', nm') = Some c -> p = p' /\ nm = nm') ->
  (forall p, ~ child D p root) -> l !! 0%nat = Some root ->
  (forall i a b, l !! i = Some a -> l !! S i = Some b -> child D a b) -> NoDup l.
Proof.
  intros Huniq Hroot Hhead Hchain.
  assert (forall i j x, (i < j)%nat -> l !! i = Some x -> l !! j = Some x -> False) as Hlt.
  { induction i as [|i IH]; intros [|j] x Hij Hi Hj; try lia.
    - destruct (lookup_lt_is_Some_2 l j) as [y Hy]; [apply lookup_lt_Some in Hj; lia|].
      specialize (Hchain j y x Hy Hj). rewrite Hhead in Hi. injection Hi as <-. by eapply Hroot.
    - destruct (lookup_lt_is_Some_2 l j) as [y Hy]; [apply lookup_lt_Some in Hj; lia|].
      destruct (lookup_lt_is_Some_2 l i) as [z Hz]; [apply lookup_lt_Some in Hi; lia|].
      destruct (Hchain j y x Hy Hj) as [nm H1], (Hchain i z x Hz Hi) as [nm' H2].
      destruct (Huniq _ _ _ _ _ H1 H2) as [<- _]. apply (IH j y); [lia|done..]. }
  apply NoDup_alt. intros i j x Hi Hj. destruct (Nat.lt_total i j) as [?|[?|?]]; [|done|]; exfalso; eauto.
Qed.

Section chains.
Context (n : Z) (s : Store) (e : MountEntry) (cs : list string).
Context (HT : tree_of n s) (He : s_mounts s !! mount_id e = Some e).
Let l : list InodeId := root_inode_id e :: visited (s_dentries s) (root_inode_id e) cs.

Lemma chain_nodup : NoDup l.
Proof using HT He.
  apply (walk_nodup (s_dentries s) l (root_inode_id e)); [apply (ti_unique _ _ _ _ _ HT)| |done|].
  - apply (ti_mount _ _ _ _ _ HT _ _ He).
  - intros i a b. apply visited_child.
Qed.

Lemma chain_accepted q :
  lookup_path (s_dentries s) (root_inode_id e) cs = Some q -> Z.of_nat (length cs) <= MAX_PATH_COMPONENTS ->
  validate_ancestor_chain q l = Ok tt.
Proof using HT He.
  intros Hq Hlen. unfold validate_ancestor_chain. pose proof chain_nodup as Hnd.
  rewrite (bool_decide_eq_false_2 (l = [])) by done. simpl.
  rewrite (proj2 (Z.ltb_ge _ _)) by (pose proof (visited_length (s_dentries s) (root_inode_id e) cs); lia).
  rewrite (bool_decide_eq_false_2 (last l <> Some q)); [|intros Hn; apply Hn; by apply visited_last].
  rewrite (bool_decide_eq_true_2 (NoDup l)) by done. done.
Qed.

Lemma parent_chain_accepted :
  Z.of_nat (length cs) < MAX_PATH_COMPONENTS -> validate_parent_ancestor_chain l = Ok tt.
Proof using HT He.
  intros Hlen. unfold validate_parent_ancestor_chain. pose proof chain_nodup as Hnd.
  rewrite (bool_decide_eq_false_2 (l = [])) by done. simpl.
  rewrite (proj2 (Z.ltb_ge _ _)) by (pose proof (visited_length (s_dentries s) (root_inode_id e) cs); lia).
  rewrite (bool_decide_eq_true_2 (NoDup l)) by done. done.
Qed.
End chains.

Lemma validate_components_ok cs :
  Forall (fun c => plain c /\ contains_char nul c = false /\ str_len c <= MAX_PATH_COMPONENT_BYTES) cs ->
  validate_components cs = Ok tt.
Proof.
  induction 1 as [|c cs [[Hne Hs] [Hn Hl]] _ IH]; simpl; [done|]. rewrite bool_decide_eq_false_2 by done.
  rewrite Hs, Hn, (proj2 (Z.ltb_ge _ _)) by done. done.
Qed.

Lemma acceptable_parts p w :
  acceptable p -> w ∈ path_parts p -> plain w /\ contains_char nul w = false /\ str_len w <= MAX_PATH_COMPONENT_BYTES.
Proof.
  intros Hp Hw. split_and!.
  - by apply (proj1 (Forall_forall _ _) (path_parts_plain p)).
  - apply list_elem_of_filter in Hw as [_ Hw]. eapply split_contains; [done|apply (ac_nul _ Hp)].
  - by apply (proj1 (Forall_forall _ _) (ac_parts _ Hp)).
Qed.

Lemma components_accepted p before rel :
  acceptable p -> path_parts p = before ++ rel -> rel <> [] -> validate_relative_components rel = Ok tt.
Proof.
  intros Hp E Hne. unfold validate_relative_components. rewrite bool_decide_eq_false_2 by done.
  pose proof (ac_count _ Hp) as Hc. rewrite E, length_app in Hc. rewrite (proj2 (Z.ltb_ge _ _)) by lia. simpl.
  apply validate_components_ok. apply Forall_forall. intros w Hw. apply (acceptable_parts p); [done|]. rewrite E. set_solver.
Qed.

(** What resolution yields for a path below mount [e]. *)
Record resolves (s : Store) (e : MountEntry) (components : list string) (r : ResolvedPath) : Prop := {
  rv_mount : rp_mount_ctx r = mount_context e;
  rv_components : rp_relative_components r = components;
  rv_target : rp_inode_id r = lookup_path (s_dentries s) (root_inode_id e) components;
  rv_parent : components <> [] -> exists cs name p i,
    components = cs ++ [name] /\ rp_name r = Some name /\ rp_parent_inode_id r = Some p /\
    lookup_path (s_dentries s) (root_inode_id e) cs = Some p /\ get_inode s p = Some i /\ is_dir i = true /\
    validate_relative_components components = Ok tt;
  rv_root : components = [] -> rp_name r = None /\ rp_parent_inode_id r = None;
  rv_chain : match rp_inode_id r with
             | Some f => validate_ancestor_chain f (rp_ancestor_inode_ids r) = Ok tt
             | None => validate_parent_ancestor_chain (rp_ancestor_inode_ids r) = Ok tt
             end
}.

Lemma resolves_root s e n :
  tree_of n s -> s_mounts s !! mount_id e = Some e ->
  resolves s e [] (mk_ResolvedPath (mount_context e) [] None None (Some (root_inode_id e)) [root_inode_id e]).
Proof. intros HT He. split; try done. by apply (chain_accepted n s e []). Qed.

Lemma resolves_below s e n cs name p i :
  tree_of n s -> s_mounts s !! mount_id e = Some e -> lookup_path (s_dentries s) (root_inode_id e) cs = Some p ->
  get_inode s p = Some i -> is_dir i = true -> validate_relative_components (cs ++ [name]) = Ok tt ->
  Z.of_nat (length (cs ++ [name])) <= MAX_PATH_COMPONENTS ->
  resolves s e (cs ++ [name]) (mk_ResolvedPath (mount_context e) (cs ++ [name]) (Some p) (Some name) (get_dentry s p name)
    ((root_inode_id e :: visited (s_dentries s) (root_inode_id e) cs) ++ option_list (get_dentry s p name))).
Proof.
  intros HT He Hp Hi Hdir Hv Hlen. unfold get_dentry in *.
  assert (lookup_path (s_dentries s) (root_inode_id e) (cs ++ [name]) = s_dentries s !! (p, name)) as Hl
    by (by rewrite lookup_path_snoc, Hp).
  split; try done; cbn [rp_inode_id rp_ancestor_inode_ids rp_name rp_parent_inode_id].
  - intros _. by exists cs, name, p, i.
  - intros Hnil. by destruct cs.
  - pose proof (visited_snoc _ _ _ name _ Hp) as Hvis. destruct (s_dentries s !! (p, name)) as [f|] eqn:Hf.
    + pose proof (chain_accepted n s e (cs ++ [name]) HT He f Hl Hlen) as Hc. by rewrite Hvis in Hc.
    + simpl. rewrite app_nil_r. apply (parent_chain_accepted n s e cs HT He). rewrite length_app in Hlen. simpl in Hlen. lia.
Qed.

(** C39. On a consistent mount table and namespace, resolution never panics. It
    succeeds exactly when the path is acceptable, a mount owns it and its parent is
    a directory; it then reports the mount with the longest prefix, components
    that command validation accepts, the inode the path names, and an ancestor
    chain that the write session registry accepts. *)
Theorem resolve_path_spec n table s path :
  mount_table_ok table -> mt_entries table = s_mounts s -> tree_of n s ->
  match resolve_path table s path with
  | Ok r => exists normalized e components,
      normalize path = Ok normalized /\ owns table normalized e components /\ resolves s e components r
  | Err _ =>
      (forall normalized, normalize path <> Ok normalized) \/
      exists normalized, normalize path = Ok normalized /\
        ((forall id e, mt_entries table !! id = Some e -> mount_prefix e <> EmptyString ->
            mount_prefix_matches_path (mount_prefix e) normalized = false) \/
         exists e cs name, owns table normalized e (cs ++ [name]) /\
           forall p i, lookup_path (s_dentries s) (root_inode_id e) cs = Some p -> get_inode s p = Some i -> is_dir i = false)
  | Panic => False
  end.
Proof.
  intros Htab Hmem HT. unfold resolve_path. pose proof (resolve_mount_spec table path Htab) as Hm.
  destruct (resolve_mount table path) as [[e components]|err|]; [|destruct Hm as [?|(q & ? & ?)]; [by left|right; by eauto]|done].
  destruct Hm as (q & Hq & Hown). cbn [mbind result_bind]. pose proof (ow_entry _ _ _ _ Hown) as He. rewrite Hmem in He.
  case_bool_decide as Hnil.
  { subst components. exists q, e, []. split_and!; try done. by eapply resolves_root. }
  destruct (exists_last Hnil) as (cs & name & ->). rewrite removelast_last, last_snoc. simpl.
  assert (acceptable q) as Hacc by (apply normalize_Ok in Hq as [Hp ->]; by apply acceptable_normal).
  pose proof (components_accepted q _ _ Hacc (ow_parts _ _ _ _ Hown) Hnil) as Hv.
  assert (Z.of_nat (length (cs ++ [name])) <= MAX_PATH_COMPONENTS) as Hlen.
  { pose proof (ac_count _ Hacc) as Hc. rewrite (ow_parts _ _ _ _ Hown), length_app in Hc. lia. }
  assert ((if bool_decide (cs = []) then Ok (root_inode_id e, [root_inode_id e])
           else walk_dentry s (root_inode_id e) cs [root_inode_id e]) =
          walk_dentry s (root_inode_id e) cs [root_inode_id e]) as -> by (case_bool_decide; [by subst cs|done]).
  rewrite walk_dentry_spec. destruct (lookup_path (s_dentries s) (root_inode_id e) cs) as [p|] eqn:Hp; simpl.
  2:{ right. exists q. split; [done|]. right. exists e, cs, name. split; [done|]. intros p i. by rewrite Hp. }
  destruct (get_inode s p) as [i|] eqn:Hi; simpl.
  2:{ right. exists q. split; [done|]. right. exists e, cs, name. split; [done|]. intros p' i. rewrite Hp. intros [= <-]. by rewrite Hi. }
  destruct (is_dir i) eqn:Hdir; simpl.
  - exists q, e, (cs ++ [name]). split_and!; try done. by eapply resolves_below.
  - right. exists q. split; [done|]. right. exists e, cs, name. split; [done|]. intros p' i'. rewrite Hp. intros [= <-].
    rewrite Hi. by intros [= <-].
Qed.

(** The mount table of the sample namespace. *)
Definition sample_table : MountTableState :=
  mk_MountTableState {[1 := root_mount_entry "g"]} {["/"%string := 1]} 1.

Lemma sample_table_ok : mount_table_ok sample_table.
Proof.
  split; simpl.
  - intros id e [<- <-]%lookup_singleton_Some. split; [reflexivity|]. vm_compute. reflexivity.
  - intros p id [<- <-]%lookup_singleton_Some. exists (root_mount_entry "g"). split; reflexivity.
Qed.

Lemma resolve_path_spec_witness :
  exists r, resolve_path sample_table s_sub "//d/e/" = Ok r /\ rp_ancestor_inode_ids r = [1; 2; 4] /\
    exists normalized e components, normalize "//d/e/" = Ok normalized /\ owns sample_table normalized e components /\
      resolves s_sub e components r.
Proof.
  assert (mt_entries sample_table = s_mounts s_sub) as Hm by (vm_compute; reflexivity).
  pose proof (resolve_path_spec 5 sample_table s_sub "//d/e/" sample_table_ok Hm (rd_tree _ _ (proj1 s_sub_ready))) as H.
  destruct (resolve_path sample_table s_sub "//d/e/") as [r|e|] eqn:Hr; [|vm_compute in Hr; discriminate Hr..].
  exists r. split; [reflexivity|]. split; [|exact H]. vm_compute in Hr. injection Hr as <-. reflexivity.
Defined.
