(* ===== verification/Placement.v ===== *)
(** * Block placement ([beryl-metadata/src/placement.rs])

    The planner that picks the workers a block is read from or written to, from
    the membership view and the reported locations the metadata leader holds. *)

From S2P Require Import Prelude Types.
Local Open Scope Z_scope.

Definition WRITE_TIER_ORDER : list Tier := [Nvme; Ssd; Hdd].

Inductive PlacementOp := PO_Read | PO_Write.

(** [CallerContextFields]. *)
Record CallerContextFields := mk_CallerContextFields {
  cc_ip : option string;
  cc_host : option string;
  cc_az : option string;
  cc_rack : option string;
  cc_region : option string
}.

Record TierFree := mk_TierFree {
  tf_tier : Tier;
  tf_free_bytes : Z
}.

Record ReportedBlockLocation := mk_ReportedBlockLocation {
  rl_tier : Tier;
  rl_group_name : GroupName;
  rl_block_id : BlockId;
  rl_durable_len : Z;
  rl_worker_id : WorkerId;
  rl_worker_run_id : WorkerRunId
}.

Record PlacementRequest := mk_PlacementRequest {
  pr_group_name : GroupName;
  pr_op : PlacementOp;
  pr_block_id : BlockId;
  pr_visible_len : Z;
  pr_layout : FileLayout;
  pr_caller : option CallerContextFields;
  pr_existing : list ReportedBlockLocation;
  pr_exclude_workers : list WorkerId;
  pr_target_replicas : Z
}.

Record WorkerPlacementView := mk_WorkerPlacementView {
  pv_group_name : GroupName;
  pv_worker_id : WorkerId;
  pv_worker_run_id : option WorkerRunId;
  pv_endpoint : string;
  pv_worker_net_protocol : Z;
  pv_registered : bool;
  pv_lease_valid : bool;
  pv_ip : option string;
  pv_host : option string;
  pv_az : option string;
  pv_rack : option string;
  pv_region : option string;
  pv_tier_free : list TierFree;
  pv_supported_block_formats : list Z
}.

Record PlacementWorker := mk_PlacementWorker {
  pw_worker_id : WorkerId;
  pw_worker_run_id : WorkerRunId;
  pw_endpoint : string;
  pw_worker_net_protocol : Z;
  pw_tier : option Tier
}.

Inductive PlacementStatus :=
| PS_Ok | PS_NoLiveWorker | PS_NoEligibleWorker | PS_UnsupportedBlockFormat | PS_NoWritableTier
| PS_InsufficientCapacity | PS_NoLiveReplica | PS_NotEnoughReplicas.

Record PlacementStats := mk_PlacementStats {
  st_live_count : Z;
  st_group_count : Z;
  st_format_count : Z;
  st_tier_count : Z;
  st_capacity_count : Z;
  st_max_free_bytes : Z;
  st_max_free_worker_id : option WorkerId;
  st_max_free_tier : option Tier
}.

Definition stats_default : PlacementStats := mk_PlacementStats 0 0 0 0 0 0 None None.

Record PlacementPlan := mk_PlacementPlan {
  pp_group_name : GroupName;
  pp_op : PlacementOp;
  pp_workers : list PlacementWorker;
  pp_status : PlacementStatus;
  pp_stats : PlacementStats
}.

(** ** Ranking *)

Definition is_live (worker : WorkerPlacementView) : bool :=
  pv_registered worker && pv_lease_valid worker && bool_decide (is_Some (pv_worker_run_id worker)).

(** [Iterator::max] of the matching entries. *)
Definition tier_free_bytes (worker : WorkerPlacementView) (tier : Tier) : option Z :=
  foldr (fun entry acc => if bool_decide (tf_tier entry = tier)
                          then Some (match acc with Some b => Z.max (tf_free_bytes entry) b | None => tf_free_bytes entry end)
                          else acc) None (pv_tier_free worker).

Definition supports_block_format (worker : WorkerPlacementView) (format : Z) : bool :=
  bool_decide (format ∈ pv_supported_block_formats worker).

Definition matches_pair (left right : option string) : bool :=
  match left, right with Some a, Some b => bool_decide (a = b) | _, _ => false end.

Definition locality_rank (caller : CallerContextFields) (worker : WorkerPlacementView) : Z :=
  if matches_pair (cc_host caller) (pv_host worker) || matches_pair (cc_ip caller) (pv_ip worker) then 0
  else if matches_pair (cc_az caller) (pv_az worker) then 1
  else if matches_pair (cc_rack caller) (pv_rack worker) then 2
  else if matches_pair (cc_region caller) (pv_region worker) then 3
  else 4.

(** [u64] multiplication and rotation. *)
Definition wrapping_mul64 (a b : Z) : Z := (a * b) mod 2 ^ 64.
Definition rotate_left32 (v : Z) : Z := Z.lor (Z.shiftl v 32 mod 2 ^ 64) (Z.shiftr v 32).

(** One FNV step: [hash ^= value; hash = hash.wrapping_mul(prime)]. *)
Definition fnv_step (hash value : Z) : Z := wrapping_mul64 (Z.lxor hash value) 0x100000001b3.

Definition string_bytes (s : string) : list Z :=
  (fun c => Z.of_nat (nat_of_ascii c)) <$> String.list_ascii_of_string s.

Definition stable_order (group_name : GroupName) (block_id : BlockId) (worker_id : WorkerId) : Z :=
  let hash := foldl fnv_step 0xcbf29ce484222325 (string_bytes group_name) in
  foldl (fun hash value => fnv_step (fnv_step hash value) (rotate_left32 value)) hash
    [block_inode_id block_id; block_index block_id; worker_id].

Definition write_tier_rank (tier : Tier) : Z :=
  match tier with Nvme => 0 | Ssd => 1 | Hdd => 2 | Mem => 3 end.

(** [sort_by_key], a stable sort by keys in lexicographic order. *)
Fixpoint lex_le (a b : list Z) : bool :=
  match a, b with
  | [], _ => true
  | _ :: _, [] => false
  | x :: a, y :: b => (x <? y) || (bool_decide (x = y) && lex_le a b)
  end.

Fixpoint insert_by {A} (key : A -> list Z) (x : A) (l : list A) : list A :=
  match l with
  | [] => [x]
  | y :: l' => if lex_le (key x) (key y) then x :: l else y :: insert_by key x l'
  end.

Definition sort_by_key {A} (key : A -> list Z) (l : list A) : list A := foldr (insert_by key) [] l.

Section request.
Variable req : PlacementRequest.

Definition locality (worker : WorkerPlacementView) : Z :=
  match pr_caller req with Some caller => locality_rank caller worker | None => 0 end.

Definition worker_key (worker : WorkerPlacementView) : list Z :=
  [locality worker; stable_order (pr_group_name req) (pr_block_id req) (pv_worker_id worker); pv_worker_id worker].

Definition sort_workers (workers : list WorkerPlacementView) : list WorkerPlacementView := sort_by_key worker_key workers.

Definition candidate_key (candidate : WorkerPlacementView * Tier) : list Z :=
  write_tier_rank candidate.2 :: worker_key candidate.1.

Definition sort_write_candidates (candidates : list (WorkerPlacementView * Tier)) : list (WorkerPlacementView * Tier) :=
  sort_by_key candidate_key candidates.

(** ** Plans *)

Definition placement_worker (worker : WorkerPlacementView) (tier : option Tier) : option PlacementWorker :=
  run_id ← pv_worker_run_id worker;
  Some (mk_PlacementWorker (pv_worker_id worker) run_id (pv_endpoint worker) (pv_worker_net_protocol worker) tier).

Definition workers_from_views (workers : list WorkerPlacementView) : list PlacementWorker :=
  omap (fun worker => placement_worker worker None) workers.

Definition plan_with_stats (workers : list PlacementWorker) (status : PlacementStatus) (stats : PlacementStats)
  : PlacementPlan := mk_PlacementPlan (pr_group_name req) (pr_op req) workers status stats.

Definition plan_without_stats (workers : list PlacementWorker) (status : PlacementStatus) : PlacementPlan :=
  plan_with_stats workers status stats_default.

(** The loop of [choose_read] over the reported locations. *)
Fixpoint read_candidates (workers : list WorkerPlacementView) (seen : gset WorkerId) (existing : list ReportedBlockLocation)
  : list WorkerPlacementView :=
  match existing with
  | [] => []
  | location :: rest =>
      if bool_decide (rl_group_name location <> pr_group_name req) || bool_decide (rl_block_id location <> pr_block_id req)
         || (rl_durable_len location <? pr_visible_len req)
      then read_candidates workers seen rest
      else if bool_decide (rl_worker_id location ∈ seen) then read_candidates workers seen rest
      else
        let seen := {[rl_worker_id location]} ∪ seen in
        match List.find (fun worker => bool_decide (pv_group_name worker = pr_group_name req)
                                       && bool_decide (pv_worker_id worker = rl_worker_id location)) workers with
        | None => read_candidates workers seen rest
        | Some worker =>
            if is_live worker && bool_decide (pv_worker_run_id worker = Some (rl_worker_run_id location))
            then worker :: read_candidates workers seen rest
            else read_candidates workers seen rest
        end
  end.

Definition choose_read (workers : list WorkerPlacementView) : PlacementPlan :=
  let selected := workers_from_views (sort_workers (read_candidates workers ∅ (pr_existing req))) in
  plan_without_stats selected (if bool_decide (selected = []) then PS_NoLiveReplica else PS_Ok).

Definition record_max_free (stats : PlacementStats) (worker_id : WorkerId) (tier : option Tier) (free_bytes : Z)
  : PlacementStats :=
  if (st_max_free_bytes stats <? free_bytes) || bool_decide (st_max_free_worker_id stats = None)
  then mk_PlacementStats (st_live_count stats) (st_group_count stats) (st_format_count stats) (st_tier_count stats)
         (st_capacity_count stats) free_bytes (Some worker_id) tier
  else stats.

(** The first loop of [choose_write_targets]. *)
Definition record_free (stats : PlacementStats) (worker : WorkerPlacementView) : PlacementStats :=
  foldl (fun stats tier => match tier_free_bytes worker tier with
                           | Some free_bytes => record_max_free stats (pv_worker_id worker) (Some tier) free_bytes
                           | None => stats
                           end) stats WRITE_TIER_ORDER.

(** The first tier of a worker with room, and whether it has a persistent tier. *)
Fixpoint writable_tier (worker : WorkerPlacementView) (required_len : Z) (tiers : list Tier) (has_persistent_tier : bool)
  : option Tier * bool :=
  match tiers with
  | [] => (None, has_persistent_tier)
  | tier :: rest =>
      match tier_free_bytes worker tier with
      | None => writable_tier worker required_len rest has_persistent_tier
      | Some free_bytes =>
          if required_len <=? free_bytes then (Some tier, true) else writable_tier worker required_len rest true
      end
  end.

(** The selection loop: distinct workers, until [target] are selected. *)
Fixpoint select_targets (target : nat) (seen : gset WorkerId) (selected : list PlacementWorker)
    (candidates : list (WorkerPlacementView * Tier)) : list PlacementWorker :=
  match candidates with
  | [] => selected
  | (worker, tier) :: rest =>
      if bool_decide (pv_worker_id worker ∈ seen) then select_targets target seen selected rest
      else
        let seen := {[pv_worker_id worker]} ∪ seen in
        let selected := selected ++ option_list (placement_worker worker (Some tier)) in
        if bool_decide (length selected = target) then selected else select_targets target seen selected rest
  end.

Definition set_tier_count (stats : PlacementStats) (n : Z) : PlacementStats :=
  mk_PlacementStats (st_live_count stats) (st_group_count stats) (st_format_count stats) n (st_capacity_count stats)
    (st_max_free_bytes stats) (st_max_free_worker_id stats) (st_max_free_tier stats).
Definition set_capacity_count (stats : PlacementStats) (n : Z) : PlacementStats :=
  mk_PlacementStats (st_live_count stats) (st_group_count stats) (st_format_count stats) (st_tier_count stats) n
    (st_max_free_bytes stats) (st_max_free_worker_id stats) (st_max_free_tier stats).

Definition choose_write_targets (workers : list WorkerPlacementView) (target_replicas : Z) (stats : PlacementStats)
  : PlacementPlan :=
  let required_len := fl_block_size (pr_layout req) in
  let stats := foldl record_free stats workers in
  let scanned := (fun worker => (worker, writable_tier worker required_len WRITE_TIER_ORDER false)) <$> workers in
  let candidates := omap (fun e => tier ← e.2.1; Some (e.1, tier)) scanned in
  let stats := set_tier_count stats
                 (st_tier_count stats + Z.of_nat (length (filter (fun e => e.2.2 = true) scanned))) in
  if bool_decide (st_tier_count stats = 0) then plan_with_stats [] PS_NoWritableTier stats
  else
    let stats := set_capacity_count stats (Z.of_nat (length candidates)) in
    let candidates := sort_write_candidates candidates in
    if bool_decide (candidates = []) then plan_with_stats [] PS_InsufficientCapacity stats
    else
      let target := Z.to_nat (Z.max target_replicas 1) in
      let selected := select_targets target ∅ [] candidates in
      plan_with_stats selected (if (length selected <? target)%nat then PS_NotEnoughReplicas else PS_Ok) stats.

Definition choose_live_targets (workers : list WorkerPlacementView) (target_replicas : Z) : PlacementPlan :=
  let stats := stats_default in
  let live := filter (fun worker => bool_decide (pv_group_name worker = pr_group_name req) && is_live worker = true) workers in
  let stats := mk_PlacementStats (Z.of_nat (length live)) 0 0 0 0 0 None None in
  if bool_decide (live = []) then plan_with_stats [] PS_NoLiveWorker stats
  else
    let group := filter (fun worker => pv_worker_id worker ∉ pr_exclude_workers req) live in
    let stats := mk_PlacementStats (st_live_count stats) (Z.of_nat (length group)) 0 0 0 0 None None in
    if bool_decide (group = []) then plan_with_stats [] PS_NoEligibleWorker stats
    else
      let format := filter (fun worker => supports_block_format worker (fl_block_format_id (pr_layout req)) = true) group in
      let stats := mk_PlacementStats (st_live_count stats) (st_group_count stats) (Z.of_nat (length format)) 0 0 0 None None in
      if bool_decide (format = []) then plan_with_stats [] PS_UnsupportedBlockFormat stats
      else choose_write_targets format target_replicas stats.

Definition plan (workers : list WorkerPlacementView) : PlacementPlan :=
  match pr_op req with
  | PO_Read => choose_read workers
  | PO_Write => choose_live_targets workers (Z.max (pr_target_replicas req) 1)
  end.
End request.

(** ** Sorting by keys *)

Lemma lex_le_refl a : lex_le a a = true.
Proof. induction a as [|x a IH]; simpl; [done|]. rewrite bool_decide_eq_true_2, IH by done. by rewrite orb_true_r. Qed.

Lemma lex_le_cons x a y b : lex_le (x :: a) (y :: b) = true <-> x < y \/ (x = y /\ lex_le a b = true).
Proof. simpl. rewrite orb_true_iff, andb_true_iff, Z.ltb_lt, bool_decide_eq_true. done. Qed.

Lemma lex_le_total a b : lex_le a b = true \/ lex_le b a = true.
Proof.
  revert b. induction a as [|x a IH]; intros [|y b]; try (by left); try (by right). rewrite !lex_le_cons.
  destruct (Z.lt_trichotomy x y) as [?|[->|?]]; [by left; left| |by right; left]. destruct (IH b); [left|right]; by right.
Qed.

Lemma lex_le_trans a b c : lex_le a b = true -> lex_le b c = true -> lex_le a c = true.
Proof.
  revert b c. induction a as [|x a IH]; intros [|y b] [|z c]; try done. rewrite !lex_le_cons.
  intros [?|[-> ?]] [?|[-> ?]]; [left; lia|by left..|right]. split; [done|by eapply IH].
Qed.

Lemma lex_le_antisym a b : lex_le a b = true -> lex_le b a = true -> a = b.
Proof.
  revert b. induction a as [|x a IH]; intros [|y b]; try done. rewrite !lex_le_cons.
  intros [?|[-> H1]] [?|[? H2]]; try lia. f_equal. by apply IH.
Qed.

Section sort.
Context {A : Type} (key : A -> list Z).
Let R (a b : A) : Prop := lex_le (key a) (key b) = true.

Lemma insert_by_perm x l : insert_by key x l ≡ₚ x :: l.
Proof. induction l as [|y l IH]; simpl; [done|]. destruct (lex_le _ _); [done|]. rewrite IH. apply Permutation_swap. Qed.

Lemma sort_by_key_perm l : sort_by_key key l ≡ₚ l.
Proof. induction l as [|x l IH]; simpl; [done|]. rewrite insert_by_perm. by rewrite IH. Qed.

Lemma insert_by_sorted x l : StronglySorted R l -> StronglySorted R (insert_by key x l).
Proof.
  induction 1 as [|y l Hl IH Hy]; simpl; [by repeat constructor|]. destruct (lex_le (key x) (key y)) eqn:E.
  - constructor; [by constructor|]. constructor; [done|]. eapply Forall_impl; [exact Hy|]. intros z. by apply lex_le_trans.
  - constructor; [done|]. rewrite insert_by_perm. constructor; [|done]. unfold R. destruct (lex_le_total (key x) (key y)); congruence.
Qed.

Lemma sort_by_key_sorted l : StronglySorted R (sort_by_key key l).
Proof. induction l as [|x l IH]; simpl; [constructor|]. by apply insert_by_sorted. Qed.

(** With distinct keys the result does not depend on the order of the input. *)
Lemma sort_by_key_unique l l' :
  l ≡ₚ l' -> NoDup (key <$> l) -> sort_by_key key l = sort_by_key key l'.
Proof.
  intros Hp Hnd. apply (StronglySorted_unique_strong R); [|apply sort_by_key_sorted..|].
  - intros x y Hx Hy Hxy Hyx. rewrite sort_by_key_perm in Hx, Hy. rewrite <- Hp in Hy.
    apply list_elem_of_lookup in Hx as [i Hi], Hy as [j Hj].
    assert (i = j) as ->; [|congruence]. eapply (proj1 (NoDup_alt _) Hnd i j (key x)); rewrite list_lookup_fmap.
    + by rewrite Hi.
    + rewrite Hj. simpl. f_equal. by apply lex_le_antisym.
  - by rewrite !sort_by_key_perm.
Qed.
End sort.

(** ** Write targets *)

(** [w] may store a block of the request on tier [t], its fastest tier with room. *)
Record suitable (req : PlacementRequest) (w : WorkerPlacementView) (t : Tier) : Prop := {
  su_group : pv_group_name w = pr_group_name req;
  su_live : is_live w = true;
  su_allowed : pv_worker_id w ∉ pr_exclude_workers req;
  su_format : fl_block_format_id (pr_layout req) ∈ pv_supported_block_formats w;
  su_tier : t <> Mem;
  su_room : exists free, tier_free_bytes w t = Some free /\ fl_block_size (pr_layout req) <= free;
  su_fastest : forall t' free, write_tier_rank t' < write_tier_rank t -> tier_free_bytes w t' = Some free ->
    free < fl_block_size (pr_layout req)
}.

Lemma writable_tier_spec w size t :
  (writable_tier w size WRITE_TIER_ORDER false).1 = Some t <->
  t <> Mem /\ (exists free, tier_free_bytes w t = Some free /\ size <= free) /\
  (forall t' free, write_tier_rank t' < write_tier_rank t -> tier_free_bytes w t' = Some free -> free < size).
Proof.
  assert (forall t', match tier_free_bytes w t' with
                     | Some free => if size <=? free then exists f, tier_free_bytes w t' = Some f /\ size <= f
                                    else forall f, tier_free_bytes w t' = Some f -> f < size
                     | None => forall f, tier_free_bytes w t' = Some f -> f < size
                     end) as Hcase.
  { intros t'. destruct (tier_free_bytes w t') as [f|]; [|done]. destruct (Z.leb_spec size f); [by eauto|]. by intros ? [= <-]. }
  pose proof (Hcase Nvme) as H1. pose proof (Hcase Ssd) as H2. pose proof (Hcase Hdd) as H3. clear Hcase. simpl.
  assert (forall P : Tier -> Prop, P Nvme -> P Ssd -> P Hdd -> P Mem -> forall t', P t') as Hall by (intros P ? ? ? ? []; done).
  destruct (tier_free_bytes w Nvme) as [f1|] eqn:E1; [destruct (size <=? f1)|];
    destruct (tier_free_bytes w Ssd) as [f2|] eqn:E2; try destruct (size <=? f2);
    destruct (tier_free_bytes w Hdd) as [f3|] eqn:E3; try destruct (size <=? f3); simpl;
    destruct t; (split; [intros [=]; try congruence|intros (Hm & (free & Hf & Hle) & Hfast)]);
    try (split_and!; [done|naive_solver|intros [] free; simpl; try lia; naive_solver]); try done; exfalso;
    repeat match goal with
    | H : forall f, ?x = Some f -> f < size, H' : ?x = Some _ |- _ => specialize (H _ H'); lia
    | H : forall f, Some ?x = Some f -> f < size |- _ => specialize (H _ eq_refl)
    | H : exists f, _ |- _ => destruct H as (? & ? & ?)
    end; simplify_eq; try lia;
    try (specialize (Hfast Nvme); simpl in Hfast; specialize (Hfast _ ltac:(lia) E1); lia);
    try (specialize (Hfast Ssd); simpl in Hfast; specialize (Hfast _ ltac:(lia) E2); lia).
Qed.

Lemma writable_tier_persistent w size tiers b :
  (is_Some (writable_tier w size tiers b).1 -> (writable_tier w size tiers b).2 = true) /\
  (b = true -> (writable_tier w size tiers b).2 = true).
Proof.
  revert b. induction tiers as [|t tiers IH]; intros b; [split; [by intros []|done]|]. simpl.
  destruct (tier_free_bytes w t) as [f|]; [destruct (_ <=? _); [done|]|apply IH].
  split; [apply IH|]. intros _. by apply (IH true).
Qed.

#[local] Arguments writable_tier : simpl never.

(** The candidates of a request, in the order of the membership view. *)
Definition candidates_of (req : PlacementRequest) (workers : list WorkerPlacementView) : list (WorkerPlacementView * Tier) :=
  omap (fun w => tier ← (writable_tier w (fl_block_size (pr_layout req)) WRITE_TIER_ORDER false).1; Some (w, tier)) workers.

Lemma elem_of_candidates req workers w t :
  (w, t) ∈ candidates_of req workers <->
  w ∈ workers /\ (writable_tier w (fl_block_size (pr_layout req)) WRITE_TIER_ORDER false).1 = Some t.
Proof.
  unfold candidates_of. rewrite list_elem_of_omap. split.
  - intros (w' & Hw & H). destruct (writable_tier w' _ _ _).1 as [t'|] eqn:E; [|done]. simpl in H. by simplify_eq.
  - intros [Hw E]. exists w. by rewrite E.
Qed.

Lemma candidates_ids req workers :
  (fun c => pv_worker_id c.1) <$> candidates_of req workers `sublist_of` (pv_worker_id <$> workers).
Proof.
  unfold candidates_of. induction workers as [|w workers IH]; simpl; [done|].
  destruct (writable_tier w _ _ _).1; simpl; by constructor.
Qed.

Lemma scanned_candidates req workers :
  omap (fun e => tier ← e.2.1; Some (e.1, tier))
    ((fun w => (w, writable_tier w (fl_block_size (pr_layout req)) WRITE_TIER_ORDER false)) <$> workers)
  = candidates_of req workers.
Proof.
  unfold candidates_of. induction workers as [|w workers IH]; simpl; [done|].
  destruct (writable_tier w _ _ _).1; simpl; [f_equal|]; exact IH.
Qed.

(** Without a persistent tier there is no candidate. *)
Lemma no_tier_no_candidate req workers :
  filter (fun e => e.2.2 = true)
    ((fun w => (w, writable_tier w (fl_block_size (pr_layout req)) WRITE_TIER_ORDER false)) <$> workers) = [] ->
  candidates_of req workers = [].
Proof.
  intros Hf. apply elem_of_nil_inv. intros [w t] [Hw E]%elem_of_candidates.
  apply (not_elem_of_nil (w, writable_tier w (fl_block_size (pr_layout req)) WRITE_TIER_ORDER false)). rewrite <- Hf.
  apply list_elem_of_filter. split; [apply (proj1 (writable_tier_persistent w _ WRITE_TIER_ORDER false)); by rewrite E|]. apply list_elem_of_fmap. by exists w.
Qed.

(** Selecting among distinct workers takes the first ones. *)
Lemma select_targets_take target seen selected l :
  (length selected < target)%nat -> NoDup ((fun c => pv_worker_id c.1) <$> l) ->
  (forall c, c ∈ l -> pv_worker_id c.1 ∉ seen /\ is_Some (pv_worker_run_id c.1)) ->
  Some <$> select_targets target seen selected l =
  (Some <$> selected) ++ ((fun c => placement_worker c.1 (Some c.2)) <$> take (target - length selected) l).
Proof.
  revert seen selected. induction l as [|[w t] l IH]; intros seen selected Hlt Hnd Hl; simpl; [by rewrite take_nil, app_nil_r|].
  destruct (Hl (w, t) ltac:(by left)) as [Hseen [run Hrun]]. simpl in *. rewrite bool_decide_eq_false_2 by done.
  apply NoDup_cons in Hnd as [Hw Hnd]. destruct (target - length selected)%nat as [|k] eqn:Hk; [lia|]. simpl.
  destruct (placement_worker w (Some t)) as [pw|] eqn:Hpw; [|by unfold placement_worker in Hpw; rewrite Hrun in Hpw]. simpl.
  case_bool_decide as Hfull; rewrite length_app in Hfull; simpl in Hfull.
  - replace k with 0%nat by lia. simpl. by rewrite fmap_app.
  - rewrite IH; [|rewrite length_app; simpl; lia|done|].
    + rewrite fmap_app, <- app_assoc, length_app. simpl. by replace (target - (length selected + 1))%nat with k by lia.
    + intros c Hc. split; [|apply Hl; by right]. rewrite elem_of_union, elem_of_singleton. intros [E|Hin]; [|by apply (Hl c); [right|]].
      apply Hw. rewrite <- E. by apply (list_elem_of_fmap_2 (fun c => pv_worker_id c.1)).
Qed.

Lemma record_free_tier_count ws stats : st_tier_count (foldl record_free stats ws) = st_tier_count stats.
Proof.
  revert stats. induction ws as [|w ws IH]; intros stats; simpl; [done|]. rewrite IH. unfold record_free, WRITE_TIER_ORDER. simpl.
  assert (forall s t f, st_tier_count (record_max_free s (pv_worker_id w) t f) = st_tier_count s) as H.
  { intros s t f. unfold record_max_free. by destruct (_ || _). }
  repeat (destruct (tier_free_bytes w _); rewrite ?H); done.
Qed.

(** The ranking of a list of workers that passed the filters. *)
Definition ranked_targets (req : PlacementRequest) (ws : list WorkerPlacementView) : list (WorkerPlacementView * Tier) :=
  sort_write_candidates req (candidates_of req ws).

Lemma candidate_keys_distinct req ws :
  NoDup (pv_worker_id <$> ws) -> NoDup (candidate_key req <$> candidates_of req ws).
Proof.
  intros Hnd. assert (NoDup ((fun c => pv_worker_id c.1) <$> candidates_of req ws)) as Hids
    by (eapply sublist_NoDup; [done|apply candidates_ids]).
  apply (NoDup_fmap_1 (fun k => nth 3 k 0)). rewrite <- list_fmap_compose. exact Hids.
Qed.

Lemma ranked_ids req ws : NoDup (pv_worker_id <$> ws) -> NoDup ((fun c => pv_worker_id c.1) <$> ranked_targets req ws).
Proof.
  intros Hnd. unfold ranked_targets, sort_write_candidates. rewrite sort_by_key_perm.
  eapply sublist_NoDup; [done|apply candidates_ids].
Qed.

Lemma choose_write_spec req ws tr stats :
  st_tier_count stats = 0 -> NoDup (pv_worker_id <$> ws) -> Forall (fun w => is_live w = true) ws ->
  let p := choose_write_targets req ws tr stats in
  let target := Z.to_nat (Z.max tr 1) in
  Some <$> pp_workers p = (fun c => placement_worker c.1 (Some c.2)) <$> take target (ranked_targets req ws) /\
  (pp_status p = PS_Ok <-> (target <= length (ranked_targets req ws))%nat).
Proof.
  intros Hstats Hnd Hlive p target. assert (1 <= target)%nat as Htarget by (unfold target; lia).
  assert (length (ranked_targets req ws) = length (candidates_of req ws)) as Hlen
    by (apply Permutation_length, sort_by_key_perm).
  subst p. unfold choose_write_targets. rewrite scanned_candidates. fold target. cbn [st_tier_count set_tier_count].
  rewrite record_free_tier_count, Hstats.
  case_bool_decide as Hnone.
  { rewrite no_tier_no_candidate in Hlen by (apply length_zero_iff_nil; lia).
    destruct (ranked_targets req ws); [|done]. rewrite take_nil. simpl. split; [done|]. split; [done|lia]. }
  fold (ranked_targets req ws). case_bool_decide as Hemp.
  { rewrite Hemp, take_nil. simpl. split; [done|]. split; [done|lia]. }
  assert (Some <$> select_targets target ∅ [] (ranked_targets req ws)
          = (fun c => placement_worker c.1 (Some c.2)) <$> take target (ranked_targets req ws)) as Hsel.
  { rewrite select_targets_take; [by rewrite Nat.sub_0_r|simpl; lia|by apply ranked_ids|].
    intros [w t] Hc. split; [set_solver|]. unfold ranked_targets, sort_write_candidates in Hc. rewrite sort_by_key_perm in Hc.
    apply elem_of_candidates in Hc as [Hw _]. apply (proj1 (Forall_forall _ _) Hlive) in Hw. unfold is_live in Hw.
    apply andb_true_iff in Hw as [_ Hw]. by apply bool_decide_eq_true in Hw. }
  cbn [pp_workers pp_status plan_with_stats]. split; [done|]. apply (f_equal length) in Hsel. rewrite !length_fmap, length_take in Hsel.
  destruct (Nat.ltb_spec (length (select_targets target ∅ [] (ranked_targets req ws))) target); split; try done; lia.
Qed.

(** The workers that pass the filters of [choose_live_targets]. *)
Definition usable_workers (req : PlacementRequest) (workers : list WorkerPlacementView) : list WorkerPlacementView :=
  filter (fun w => supports_block_format w (fl_block_format_id (pr_layout req)) = true)
    (filter (fun w => pv_worker_id w ∉ pr_exclude_workers req)
      (filter (fun w => bool_decide (pv_group_name w = pr_group_name req) && is_live w = true) workers)).

Lemma elem_of_usable req workers w :
  w ∈ usable_workers req workers <->
  w ∈ workers /\ pv_group_name w = pr_group_name req /\ is_live w = true /\ pv_worker_id w ∉ pr_exclude_workers req /\
  fl_block_format_id (pr_layout req) ∈ pv_supported_block_formats w.
Proof.
  unfold usable_workers, supports_block_format. rewrite !list_elem_of_filter, bool_decide_eq_true, andb_true_iff, bool_decide_eq_true.
  naive_solver.
Qed.

Lemma filter_ids (P : WorkerPlacementView -> Prop) `{!forall w, Decision (P w)} ws :
  NoDup (pv_worker_id <$> ws) -> NoDup (pv_worker_id <$> filter P ws).
Proof. intros Hnd. eapply sublist_NoDup; [done|]. apply fmap_sublist, sublist_filter. Qed.

Lemma write_plan_spec req workers :
  pr_op req = PO_Write -> NoDup (pv_worker_id <$> workers) ->
  let target := Z.to_nat (Z.max (pr_target_replicas req) 1) in
  Some <$> pp_workers (plan req workers)
    = (fun c => placement_worker c.1 (Some c.2)) <$> take target (ranked_targets req (usable_workers req workers)) /\
  (pp_status (plan req workers) = PS_Ok <-> (target <= length (ranked_targets req (usable_workers req workers)))%nat).
Proof.
  intros Hop Hnd target. assert (1 <= target)%nat as Htarget by (unfold target; lia).
  unfold plan. rewrite Hop. unfold choose_live_targets, usable_workers.
  case_bool_decide as H1; [rewrite H1; cbn; rewrite take_nil; cbn; split; [done|split; [done|lia]]|].
  case_bool_decide as H2; [rewrite H2; cbn; rewrite take_nil; cbn; split; [done|split; [done|lia]]|].
  case_bool_decide as H3; [rewrite H3; cbn; rewrite take_nil; cbn; split; [done|split; [done|lia]]|].
  replace target with (Z.to_nat (Z.max (Z.max (pr_target_replicas req) 1) 1)) by (unfold target; lia).
  apply choose_write_spec; [done|by do 3 apply filter_ids|]. apply Forall_forall. intros w Hw. fold (usable_workers req workers) in Hw.
  apply elem_of_usable in Hw. naive_solver.
Qed.

Lemma usable_perm req workers workers' :
  workers ≡ₚ workers' -> usable_workers req workers ≡ₚ usable_workers req workers'.
Proof. intros Hp. unfold usable_workers. by rewrite Hp. Qed.

Lemma ranked_perm req ws ws' :
  ws ≡ₚ ws' -> NoDup (pv_worker_id <$> ws) -> ranked_targets req ws = ranked_targets req ws'.
Proof.
  intros Hp Hnd. apply sort_by_key_unique; [|by apply candidate_keys_distinct]. unfold candidates_of. by rewrite Hp.
Qed.

Lemma usable_ids req workers : NoDup (pv_worker_id <$> workers) -> NoDup (pv_worker_id <$> usable_workers req workers).
Proof. intros Hnd. by do 3 apply filter_ids. Qed.


(** ** Two workers and a block *)

Definition sample_view (id : WorkerId) (tier : Tier) (free : Z) : WorkerPlacementView :=
  mk_WorkerPlacementView "g" id (Some (100 + id)) "host:1" 1 true true None None None None None [mk_TierFree tier free] [2].
Definition sample_views : list WorkerPlacementView := [sample_view 1 Hdd 5000; sample_view 2 Ssd 4096; sample_view 3 Ssd 10].
Definition sample_write : PlacementRequest :=
  mk_PlacementRequest "g" PO_Write (mk_BlockId 7 0) 0 (mk_FileLayout 4096 2) None [] [] 2.


(** ** Read sources *)

(** [location] reports a copy of the block that covers what is visible. *)
Definition covers (req : PlacementRequest) (location : ReportedBlockLocation) : Prop :=
  rl_group_name location = pr_group_name req /\ rl_block_id location = pr_block_id req /\
  pr_visible_len req <= rl_durable_len location.

(** [w] is a live member whose current process reported a covering copy. *)
Definition serves (req : PlacementRequest) (existing : list ReportedBlockLocation) (w : WorkerPlacementView) : Prop :=
  pv_group_name w = pr_group_name req /\ is_live w = true /\
  exists location, location ∈ existing /\ covers req location /\ rl_worker_id location = pv_worker_id w /\
    pv_worker_run_id w = Some (rl_worker_run_id location).

Section read.
Context (req : PlacementRequest) (workers : list WorkerPlacementView) (Hids : NoDup (pv_worker_id <$> workers)).

Lemma find_worker id w :
  List.find (fun v => bool_decide (pv_group_name v = pr_group_name req) && bool_decide (pv_worker_id v = id)) workers = Some w <->
  w ∈ workers /\ pv_group_name w = pr_group_name req /\ pv_worker_id w = id.
Proof using Hids.
  split.
  - intros [Hin H]%find_some. apply list_elem_of_In in Hin. bool_prop. done.
  - intros (Hw & Hg & Hid). destruct (List.find _ workers) as [v|] eqn:Hf.
    + apply find_some in Hf as [Hv%list_elem_of_In H]. bool_prop. f_equal.
      apply list_elem_of_lookup in Hw as [i Hi], Hv as [j Hj].
      assert (i = j) as ->; [|congruence].
      eapply (proj1 (NoDup_alt _) Hids i j id); rewrite list_lookup_fmap; [by rewrite Hi; simpl; congruence|].
      rewrite Hj. simpl. congruence.
    + eapply find_none in Hf; [|by apply list_elem_of_In]. rewrite !bool_decide_eq_true_2 in Hf by done. done.
Qed.

Lemma read_candidates_spec seen existing :
  NoDup (rl_worker_id <$> existing) -> (forall l, l ∈ existing -> rl_worker_id l ∉ seen) ->
  (forall w, w ∈ read_candidates req workers seen existing <-> w ∈ workers /\ serves req existing w) /\
  NoDup (pv_worker_id <$> read_candidates req workers seen existing) .
Proof using Hids.
  revert seen. induction existing as [|l existing IH]; intros seen Hnd Hseen; simpl.
  { split; [intros w; split; [set_solver|intros (_ & _ & _ & l & Hl & _); set_solver]|constructor]. }
  apply NoDup_cons in Hnd as [Hl Hnd].
  assert (forall seen', (forall l', l' ∈ existing -> rl_worker_id l' ∉ seen') ->
    (forall w, w ∈ workers -> pv_group_name w = pr_group_name req -> pv_worker_id w = rl_worker_id l ->
       covers req l -> is_live w = true -> pv_worker_run_id w <> Some (rl_worker_run_id l)) ->
    (forall w, w ∈ read_candidates req workers seen' existing <-> w ∈ workers /\ serves req (l :: existing) w) /\
    NoDup (pv_worker_id <$> read_candidates req workers seen' existing)) as Hskip.
  { intros seen' Hs' Hno. destruct (IH seen' Hnd Hs') as [Hin Hd]. split; [|done]. intros w. rewrite Hin. unfold serves.
    split; [set_solver|]. intros (Hw & Hg & Hlive & l' & [->|Hl']%elem_of_cons & Hc & Hid & Hrun); [|set_solver].
    by destruct (Hno w Hw Hg (eq_sym Hid) Hc Hlive). }
  destruct (_ || _) eqn:Hcov.
  { apply Hskip; [set_solver|]. intros w _ _ _ (H1 & H2 & H3). rewrite !orb_true_iff in Hcov.
    rewrite !bool_decide_eq_true in Hcov. rewrite Z.ltb_lt in Hcov. destruct Hcov as [[?|?]|?]; try done. lia. }
  rewrite !orb_false_iff, !bool_decide_eq_false, Z.ltb_ge in Hcov. destruct Hcov as [[Hcg%dec_stable Hcb%dec_stable] Hcl].
  rewrite bool_decide_eq_false_2 by (apply Hseen; by left).
  assert (forall l', l' ∈ existing -> rl_worker_id l' ∉ {[rl_worker_id l]} ∪ seen) as Hseen'.
  { intros l' Hl'. rewrite elem_of_union, elem_of_singleton. intros [E|Hin]; [|by apply (Hseen l'); [right|]].
    apply Hl. rewrite <- E. by apply (list_elem_of_fmap_2 rl_worker_id). }
  destruct (List.find _ workers) as [w|] eqn:Hf.
  2:{ apply Hskip; [done|]. intros w Hw Hg Hid. rewrite (proj2 (find_worker (rl_worker_id l) w)) in Hf by done. done. }
  apply find_worker in Hf as (Hw & Hg & Hid). destruct (is_live w && _) eqn:Hlive.
  - apply andb_true_iff in Hlive as [Hlive Hrun%bool_decide_eq_true].
    destruct (IH _ Hnd Hseen') as [Hin Hd]. split.
    + intros v. rewrite elem_of_cons, Hin. unfold serves. split.
      * intros [->|(Hv & ? & ? & l' & ? & ?)]; [|set_solver]. split; [done|]. split_and!; try done. exists l.
        split; [by left|]. by split_and!.
      * intros (Hv & Hvg & Hvl & l' & [->|Hl']%elem_of_cons & Hc & Hvid & Hvrun); [left|right; set_solver].
        assert (Some v = Some w) as [= ->]; [|done].
        rewrite <- (proj2 (find_worker (rl_worker_id l) v)), <- (proj2 (find_worker (rl_worker_id l) w)) by done. done.
    + simpl. constructor; [|done]. intros (v & E & Hv)%list_elem_of_fmap. apply Hin in Hv as (_ & _ & _ & l' & Hl' & _ & Hid' & _).
      apply Hl. rewrite <- Hid, E, <- Hid'. by apply (list_elem_of_fmap_2 rl_worker_id).
  - apply Hskip; [done|]. intros v Hv Hvg Hvid _ Hvl Hvr. assert (Some v = Some w) as [= ->].
    { rewrite <- (proj2 (find_worker (rl_worker_id l) v)), <- (proj2 (find_worker (rl_worker_id l) w)) by done. done. }
    rewrite Hvl in Hlive. by rewrite bool_decide_eq_true_2 in Hlive.
Qed.
End read.

Lemma workers_from_live ws :
  Forall (fun w => is_live w = true) ws -> Some <$> workers_from_views ws = (fun w => placement_worker w None) <$> ws.
Proof.
  induction 1 as [|w ws Hw _ IH]; simpl; [done|]. unfold is_live in Hw. apply andb_true_iff in Hw as [_ Hw].
  apply bool_decide_eq_true in Hw as [run Hrun]. destruct (placement_worker w None) eqn:Hp;
    [simpl; f_equal; exact IH|by unfold placement_worker in Hp; rewrite Hrun in Hp].
Qed.

(** A read plan is exact: it lists every live member of the group whose current
    process reported a copy of the block that covers the visible length, each
    once, nearest to the caller first, and no other worker. *)
Lemma read_plan_spec req workers :
  pr_op req = PO_Read -> NoDup (pv_worker_id <$> workers) -> NoDup (rl_worker_id <$> pr_existing req) ->
  exists ranked,
    (forall w, w ∈ ranked <-> w ∈ workers /\ serves req (pr_existing req) w) /\
    NoDup (pv_worker_id <$> ranked) /\
    StronglySorted (fun a b => lex_le (worker_key req a) (worker_key req b) = true) ranked /\
    Some <$> pp_workers (plan req workers) = (fun w => placement_worker w None) <$> ranked /\
    pp_status (plan req workers) = if bool_decide (ranked = []) then PS_NoLiveReplica else PS_Ok.
Proof.
  intros Hop Hids Hloc. destruct (read_candidates_spec req workers Hids ∅ (pr_existing req) Hloc) as [Hin Hnd]; [set_solver|].
  exists (sort_workers req (read_candidates req workers ∅ (pr_existing req))). unfold plan. rewrite Hop.
  unfold choose_read, plan_without_stats, plan_with_stats. cbn [pp_workers pp_status]. unfold sort_workers.
  assert (Forall (fun w => is_live w = true) (sort_by_key (worker_key req) (read_candidates req workers ∅ (pr_existing req)))) as Hlive.
  { apply Forall_forall. intros w. rewrite sort_by_key_perm, Hin. by intros (_ & _ & ? & _). }
  pose proof (workers_from_live _ Hlive) as Hw. split_and!; try done.
  - intros w. by rewrite sort_by_key_perm.
  - by rewrite sort_by_key_perm.
  - apply sort_by_key_sorted.
  - apply (f_equal length) in Hw. rewrite !length_fmap in Hw.
    destruct (workers_from_views _) as [|? ?], (sort_by_key _ _) as [|? ?]; try done.
Qed.
