(* ===== verification/Workers.v ===== *)
(** * The worker manager ([beryl-metadata/src/worker/manager.rs])

    The leader's soft state about workers: descriptors, accepted process runs,
    heartbeats, and the block reports with the location index derived from them.
    The manager guards its maps by separate locks, so a method is a sequence of
    critical sections; each section is a definition of its own and a method
    composes them. Clock readings ([Instant::now] in milliseconds) are
    arguments. *)

From S2P Require Import Prelude Types Errors Inode Mount Store Session SessionInv Placement.
Local Open Scope Z_scope.

Definition WORKER_NET_PROTOCOL_GRPC : Z := 1.

(** ** Data *)

(** [WorkerRegistrationKey] and [BlockLocationKey]. *)
Notation WorkerKey := (GroupName * WorkerId)%type (only parsing).
Notation LocationKey := (GroupName * BlockId)%type (only parsing).

Record WorkerDescriptor := mk_WorkerDescriptor {
  wd_group_name : GroupName;
  wd_worker_id : WorkerId;
  wd_address : string;
  wd_worker_net_protocol : Z;
  wd_fault_domain : option string
}.

Record WorkerRuntime := mk_WorkerRuntime {
  wk_worker_run_id : WorkerRunId;
  wk_heartbeat_seq : Z;
  wk_last_seen_at : Z;
  wk_last_seen_ms : Z;
  wk_tier_free : list TierFree
}.

Record WorkerRegistrationState := mk_WorkerRegistrationState {
  rg_group_name : GroupName;
  rg_worker_id : WorkerId;
  rg_worker_run_id : WorkerRunId;
  rg_address : string;
  rg_worker_net_protocol : Z;
  rg_fault_domain : option string
}.

Record WorkerLiveState := mk_WorkerLiveState {
  wl_group_name : GroupName;
  wl_worker_id : WorkerId;
  wl_worker_run_id : WorkerRunId;
  wl_heartbeat_seq : Z;
  wl_last_seen_ms : Z
}.

Inductive HeartbeatRejectionReason := HR_NeedRegister | HR_WorkerRunMismatch.

Record HeartbeatRejectionState := mk_HeartbeatRejectionState {
  hr_worker_run_id : WorkerRunId;
  hr_reason : HeartbeatRejectionReason
}.

#[global] Instance HeartbeatRejectionReason_eq_dec : EqDecision HeartbeatRejectionReason.
Proof. solve_decision. Defined.
#[global] Instance HeartbeatRejectionState_eq_dec : EqDecision HeartbeatRejectionState.
Proof. solve_decision. Defined.

Inductive BlockReportBlockState := BR_Ready | BR_Corrupt | BR_Deleting.

#[global] Instance BlockReportBlockState_eq_dec : EqDecision BlockReportBlockState.
Proof. solve_decision. Defined.

Record BlockReportBlock := mk_BlockReportBlock {
  bb_tier : option Tier;
  bb_block_id : BlockId;
  bb_lease_epoch : Z;
  bb_block_state : BlockReportBlockState;
  bb_effective_len : Z
}.

Inductive BlockReportChange := BC_Upsert (block : BlockReportBlock) | BC_Remove (id : BlockId).

Definition change_id (change : BlockReportChange) : BlockId :=
  match change with BC_Upsert block => bb_block_id block | BC_Remove id => id end.

Record BlockReportApplyResult := mk_BlockReportApplyResult {
  ba_added_blocks : list BlockId;
  ba_removed_blocks : list BlockId;
  ba_next_batch_seq : Z;
  ba_baseline_published : bool
}.

Record ActiveBlockReport := mk_ActiveBlockReport {
  ab_baseline_seq : Z;
  ab_blocks : gmap BlockId BlockReportBlock;
  ab_ready_blocks : gset BlockId;
  ab_next_delta_batch_seq : Z
}.

Record StagingFullBlockReport := mk_StagingFullBlockReport {
  sf_baseline_seq : Z;
  sf_next_batch_seq : Z;
  sf_blocks : gmap BlockId BlockReportBlock
}.

Record WorkerBlockReportRuntime := mk_WorkerBlockReportRuntime {
  br_worker_run_id : WorkerRunId;
  br_baseline_high_watermark : option Z;
  br_active : option ActiveBlockReport;
  br_staging : option StagingFullBlockReport
}.

(** The manager's maps and the revision that wakes waiters. *)
Record WorkerManagerState := mk_WorkerManagerState {
  wm_descriptors : gmap WorkerKey WorkerDescriptor;
  wm_registrations : gmap WorkerKey WorkerRegistrationState;
  wm_runtime : gmap WorkerKey WorkerRuntime;
  wm_heartbeat_rejections : gmap WorkerKey HeartbeatRejectionState;
  wm_reports : gmap WorkerKey WorkerBlockReportRuntime;
  wm_locations : gmap LocationKey (gset WorkerKey);
  wm_revision : Z
}.

Definition worker_manager_new : WorkerManagerState := mk_WorkerManagerState ∅ ∅ ∅ ∅ ∅ ∅ 0.

Definition with_descriptors (st : WorkerManagerState) x : WorkerManagerState :=
  mk_WorkerManagerState x (wm_registrations st) (wm_runtime st) (wm_heartbeat_rejections st) (wm_reports st)
    (wm_locations st) (wm_revision st).
Definition with_runtime (st : WorkerManagerState) x : WorkerManagerState :=
  mk_WorkerManagerState (wm_descriptors st) (wm_registrations st) x (wm_heartbeat_rejections st) (wm_reports st)
    (wm_locations st) (wm_revision st).
Definition with_rejections (st : WorkerManagerState) x : WorkerManagerState :=
  mk_WorkerManagerState (wm_descriptors st) (wm_registrations st) (wm_runtime st) x (wm_reports st)
    (wm_locations st) (wm_revision st).
Definition with_registrations (st : WorkerManagerState) x : WorkerManagerState :=
  mk_WorkerManagerState (wm_descriptors st) x (wm_runtime st) (wm_heartbeat_rejections st) (wm_reports st)
    (wm_locations st) (wm_revision st).
(** The observations: reports and locations change under one lock. *)
Definition with_observations (st : WorkerManagerState) reports locations : WorkerManagerState :=
  mk_WorkerManagerState (wm_descriptors st) (wm_registrations st) (wm_runtime st) (wm_heartbeat_rejections st)
    reports locations (wm_revision st).

(** [notify_publication_observation_changed]. *)
Definition notify (st : WorkerManagerState) : WorkerManagerState :=
  mk_WorkerManagerState (wm_descriptors st) (wm_registrations st) (wm_runtime st) (wm_heartbeat_rejections st)
    (wm_reports st) (wm_locations st) ((wm_revision st + 1) mod 2 ^ 64).

(** ** The location index *)

Definition ready_block_ids (blocks : gmap BlockId BlockReportBlock) : gset BlockId :=
  list_to_set ((fun e => bb_block_id e.2) <$> filter (fun e => bb_block_state e.2 = BR_Ready) (map_to_list blocks)).

Definition add_location (key : WorkerKey) (locations : gmap LocationKey (gset WorkerKey)) (id : BlockId)
  : gmap LocationKey (gset WorkerKey) :=
  <[(key.1, id) := {[key]} ∪ default ∅ (locations !! (key.1, id))]> locations.

Definition add_worker_ready_locations (locations : gmap LocationKey (gset WorkerKey)) (key : WorkerKey)
    (ids : list BlockId) : gmap LocationKey (gset WorkerKey) :=
  foldl (add_location key) locations ids.

Definition remove_location (key : WorkerKey) (locations : gmap LocationKey (gset WorkerKey)) (id : BlockId)
  : gmap LocationKey (gset WorkerKey) :=
  match locations !! (key.1, id) with
  | None => locations
  | Some workers =>
      let workers := workers ∖ {[key]} in
      if bool_decide (workers = ∅) then delete (key.1, id) locations else <[(key.1, id) := workers]> locations
  end.

Definition remove_worker_ready_locations (locations : gmap LocationKey (gset WorkerKey)) (key : WorkerKey)
    (ids : list BlockId) : gmap LocationKey (gset WorkerKey) :=
  foldl (remove_location key) locations ids.

(** The order of [BlockId], in which a [BTreeSet] iterates. *)
Definition block_key (id : BlockId) : list Z := [block_inode_id id; block_index id].
Definition sorted_blocks (s : gset BlockId) : list BlockId := sort_by_key block_key (elements s).

(** Dropping the active baseline of a report from the index. *)
Definition remove_active (locations : gmap LocationKey (gset WorkerKey)) (key : WorkerKey)
    (report : WorkerBlockReportRuntime) : gmap LocationKey (gset WorkerKey) :=
  match br_active report with
  | Some active => remove_worker_ready_locations locations key (sorted_blocks (ab_ready_blocks active))
  | None => locations
  end.

Definition remove_worker_report (st : WorkerManagerState) (key : WorkerKey)
  : WorkerManagerState * option WorkerBlockReportRuntime :=
  match wm_reports st !! key with
  | None => (st, None)
  | Some report =>
      (with_observations st (delete key (wm_reports st)) (remove_active (wm_locations st) key report), Some report)
  end.

(** ** Membership *)

Section manager.
Variable heartbeat_timeout_ms : Z.

(** [now.duration_since(last_seen_at) < timeout]; the duration saturates at zero. *)
Definition seen_recently (now : Z) (r : WorkerRuntime) : bool :=
  Z.max 0 (now - wk_last_seen_at r) <? heartbeat_timeout_ms.

Definition expire_liveness (st : WorkerManagerState) (now : Z) : WorkerManagerState * list WorkerKey :=
  let expired := fst <$> filter (fun e => seen_recently now e.2 = false) (map_to_list (wm_runtime st)) in
  let st := with_runtime st (filter (fun e => seen_recently now e.2 = true) (wm_runtime st)) in
  (if bool_decide (expired = []) then st else notify st, expired).

Definition is_worker_live (st : WorkerManagerState) (key : WorkerKey) (now : Z) : bool :=
  match wm_runtime st !! key with Some r => seen_recently now r | None => false end.

Definition list_live_workers (st : WorkerManagerState) (now : Z) : list WorkerKey :=
  fst <$> filter (fun e => seen_recently now e.2 = true) (map_to_list (wm_runtime st)).

Definition list_live_workers_in_group (st : WorkerManagerState) (group : GroupName) (now : Z) : list WorkerId :=
  (fun e => e.1.2) <$> filter (fun e => e.1.1 = group /\ seen_recently now e.2 = true) (map_to_list (wm_runtime st)).

Definition list_registered_workers (st : WorkerManagerState) : list WorkerKey :=
  fst <$> map_to_list (wm_registrations st).

(** The section of [reset_worker_soft_state] under the registration and
    observation locks. *)
Definition clear_reports (st : WorkerManagerState) : WorkerManagerState :=
  with_observations (with_registrations st ∅) ∅ ∅.

Definition reset_worker_soft_state (st : WorkerManagerState) : WorkerManagerState :=
  let st := clear_reports st in
  let st := with_runtime st ∅ in
  let st := with_rejections st ∅ in
  notify st.

Definition upsert_descriptor (st : WorkerManagerState) (d : WorkerDescriptor) : WorkerManagerState :=
  notify (with_descriptors st (<[(wd_group_name d, wd_worker_id d) := d]> (wm_descriptors st))).

Definition load_registered_workers (st : WorkerManagerState) (workers : list WorkerInfo) : WorkerManagerState :=
  let descriptors := foldl (fun m w =>
    <[(wi_group_name w, wi_worker_id w) :=
        mk_WorkerDescriptor (wi_group_name w) (wi_worker_id w) (wi_address w) (wi_worker_net_protocol w)
          (wi_fault_domain w)]> m) ∅ workers in
  notify (mk_WorkerManagerState descriptors ∅ ∅ ∅ ∅ ∅ (wm_revision st)).

Definition get_descriptor (st : WorkerManagerState) (key : WorkerKey) : option WorkerDescriptor := wm_descriptors st !! key.
Definition get_registration (st : WorkerManagerState) (key : WorkerKey) : option WorkerRegistrationState :=
  wm_registrations st !! key.

Definition validate_same_run_descriptor (existing : WorkerRegistrationState) (address : string) (protocol : Z)
  : MetadataResult unit :=
  reject_if (negb (bool_decide (rg_address existing = address) && bool_decide (rg_worker_net_protocol existing = protocol)))
    (InvalidArgument "worker descriptor mismatch").

Definition validate_worker_registration_preflight (st : WorkerManagerState) (key : WorkerKey) (run : WorkerRunId)
    (address : string) (protocol now now' : Z) : WorkerManagerState * MetadataResult unit :=
  let '(st, _) := expire_liveness st now in
  (st,
   match wm_registrations st !! key with
   | None => Ok tt
   | Some existing =>
       let same_run := bool_decide (rg_worker_run_id existing = run) in
       let endpoint_changed := bool_decide (rg_address existing <> address)
                               || bool_decide (rg_worker_net_protocol existing <> protocol) in
       (if same_run then validate_same_run_descriptor existing address protocol else Ok tt);;
       reject_if (negb same_run && endpoint_changed && is_worker_live st key now')
         (ActiveWorkerConflict "worker_id is live at another endpoint")
   end).

Definition validate_worker_registration_for_apply (st : WorkerManagerState) (key : WorkerKey) (run : WorkerRunId)
    (address : string) (protocol : Z) : MetadataResult unit :=
  reject_if (bool_decide (key.2 = 0)) (InvalidArgument "worker_id must be non-zero for registration");;
  match wm_registrations st !! key with
  | None => Ok tt
  | Some existing =>
      reject_if (bool_decide (rg_group_name existing <> key.1) || bool_decide (rg_worker_id existing <> key.2))
        (Internal "worker registration key mismatch");;
      if bool_decide (rg_worker_run_id existing = run) then validate_same_run_descriptor existing address protocol
      else Ok tt
  end.

(** The section of [register_worker_run] under the registration and observation
    locks; it reports whether the same run was registered before. *)
Definition install_registration (st : WorkerManagerState) (key : WorkerKey) (address : string) (protocol : Z)
    (run : WorkerRunId) (fault_domain : option string) : WorkerManagerState * bool :=
  let same_registered_run :=
    match wm_registrations st !! key with
    | Some registration => bool_decide (rg_worker_run_id registration = run)
    | None => false
    end in
  let st := with_registrations st
              (<[key := mk_WorkerRegistrationState key.1 key.2 run address protocol fault_domain]> (wm_registrations st)) in
  (if same_registered_run then st else fst (remove_worker_report st key), same_registered_run).

Definition register_worker_run (st : WorkerManagerState) (key : WorkerKey) (address : string) (protocol : Z)
    (run : WorkerRunId) (fault_domain : option string) : WorkerManagerState * MetadataResult unit :=
  match validate_worker_registration_for_apply st key run address protocol with
  | Ok _ =>
      let st := upsert_descriptor st (mk_WorkerDescriptor key.1 key.2 address protocol fault_domain) in
      let '(st, same_registered_run) := install_registration st key address protocol run fault_domain in
      let st := with_rejections st (delete key (wm_heartbeat_rejections st)) in
      let st := if same_registered_run then st else with_runtime st (delete key (wm_runtime st)) in
      (notify st, Ok tt)
  | e => (st, e)
  end.

Definition mark_heartbeat_rejection_if_changed (st : WorkerManagerState) (key : WorkerKey) (run : WorkerRunId)
    (reason : HeartbeatRejectionReason) : WorkerManagerState * bool :=
  let current := mk_HeartbeatRejectionState run reason in
  (with_rejections st (<[key := current]> (wm_heartbeat_rejections st)),
   bool_decide (wm_heartbeat_rejections st !! key <> Some current)).

(** The section of [record_heartbeat_with_tier_free] under the runtime lock. *)
Definition record_runtime (st : WorkerManagerState) (key : WorkerKey) (run : WorkerRunId) (heartbeat_seq : Z)
    (tier_free : list TierFree) (now now_ms : Z) : WorkerManagerState * WorkerLiveState :=
  let fresh := mk_WorkerRuntime run heartbeat_seq now now_ms tier_free in
  let stored :=
    match wm_runtime st !! key with
    | Some existing =>
        if heartbeat_seq <=? wk_heartbeat_seq existing
        then mk_WorkerRuntime run (wk_heartbeat_seq existing) now now_ms (wk_tier_free existing)
        else fresh
    | None => fresh
    end in
  (with_runtime st (<[key := stored]> (wm_runtime st)),
   mk_WorkerLiveState key.1 key.2 run (wk_heartbeat_seq stored) now_ms).

Definition record_heartbeat_with_tier_free (st : WorkerManagerState) (key : WorkerKey) (run : WorkerRunId)
    (heartbeat_seq : Z) (endpoint : string) (protocol : Z) (tier_free : list TierFree) (now now' now_ms : Z)
  : WorkerManagerState * MetadataResult WorkerLiveState :=
  let '(st, _) := expire_liveness st now in
  match descriptor ← ok_or (wm_descriptors st !! key) (NotFound "worker descriptor not found");
        registration ← ok_or (wm_registrations st !! key) (NotFound "live worker registration not found");
        reject_if (bool_decide (rg_worker_run_id registration <> run)) (StaleState "worker_run_id mismatch");;
        reject_if (bool_decide (wd_address descriptor <> endpoint) || bool_decide (wd_worker_net_protocol descriptor <> protocol))
          (InvalidArgument "worker descriptor mismatch") with
  | Ok _ =>
      let '(st, live) := record_runtime st key run heartbeat_seq tier_free now' now_ms in
      let st := with_rejections st (delete key (wm_heartbeat_rejections st)) in
      (notify st, Ok live)
  | Err e => (st, Err e)
  | Panic => (st, Panic)
  end.

(** The section of [remove_dead_worker] under the registration and observation locks. *)
Definition forget_registration (st : WorkerManagerState) (key : WorkerKey)
  : WorkerManagerState * (bool * option WorkerBlockReportRuntime) :=
  let registration_removed := bool_decide (is_Some (wm_registrations st !! key)) in
  let st := with_registrations st (delete key (wm_registrations st)) in
  let '(st, report) := remove_worker_report st key in
  (st, (registration_removed || bool_decide (is_Some report), report)).

Definition remove_dead_worker (st : WorkerManagerState) (key : WorkerKey) : WorkerManagerState * (bool * list BlockId) :=
  let '(st, (removed, report)) := forget_registration st key in
  let affected := match report ≫= br_active with Some active => sorted_blocks (ab_ready_blocks active) | None => [] end in
  let removed := removed || bool_decide (is_Some (wm_runtime st !! key)) in
  let st := with_runtime st (delete key (wm_runtime st)) in
  (if removed then notify st else st, (removed, affected)).

(** ** Block reports *)

Definition validate_report_source (st : WorkerManagerState) (key : WorkerKey) (run : WorkerRunId) (now now' : Z)
  : WorkerManagerState * MetadataResult unit :=
  let '(st, _) := expire_liveness st now in
  (st,
   registration ← ok_or (get_registration st key) (NotFound "worker not registered");
   reject_if (bool_decide (rg_worker_run_id registration <> run)) (StaleState "worker_run_id mismatch");;
   reject_if (negb (is_worker_live st key now')) (NotFound "worker heartbeat readiness lease not found")).

Definition put_report (st : WorkerManagerState) (key : WorkerKey) (report : WorkerBlockReportRuntime)
    (locations : gmap LocationKey (gset WorkerKey)) : WorkerManagerState :=
  with_observations st (<[key := report]> (wm_reports st)) locations.

(** [registrations.get(&key).is_some_and(|r| r.worker_run_id.matches(run))]. *)
Definition registered_run (st : WorkerManagerState) (key : WorkerKey) (run : WorkerRunId) : bool :=
  match wm_registrations st !! key with
  | Some registration => bool_decide (rg_worker_run_id registration = run)
  | None => false
  end.

Definition active_ready (report : WorkerBlockReportRuntime) : list BlockId :=
  match br_active report with Some active => sorted_blocks (ab_ready_blocks active) | None => [] end.

(** A Full batch that belongs to [staging]; its blocks become part of it, and the
    last batch publishes it as the active baseline. *)
Definition stage_batch (st : WorkerManagerState) (key : WorkerKey) (report : WorkerBlockReportRuntime)
    (locations : gmap LocationKey (gset WorkerKey)) (removed : list BlockId) (staging : StagingFullBlockReport)
    (baseline_seq batch_seq : Z) (final_batch : bool) (blocks : list BlockReportBlock)
  : WorkerManagerState * MetadataResult BlockReportApplyResult :=
  let keep staging := mk_WorkerBlockReportRuntime (br_worker_run_id report) (br_baseline_high_watermark report)
                        (br_active report) staging in
  if negb (bool_decide (NoDup (bb_block_id <$> blocks)))
     || existsb (fun block => bool_decide (is_Some (sf_blocks staging !! bb_block_id block))) blocks
  then (put_report st key report locations, Err (InvalidArgument "full block report contains duplicate block_id"))
  else
    let staged := foldl (fun m block => <[bb_block_id block := block]> m) (sf_blocks staging) blocks in
    match checked_add64 batch_seq 1 with
    | None =>
        (put_report st key (keep (Some (mk_StagingFullBlockReport (sf_baseline_seq staging) (sf_next_batch_seq staging) staged)))
           locations, Err (InvalidArgument "full block report batch_seq overflow"))
    | Some next =>
        if negb final_batch
        then
          let st := put_report st key
                      (keep (Some (mk_StagingFullBlockReport (sf_baseline_seq staging) next staged))) locations in
          (if bool_decide (removed = []) then st else notify st, Ok (mk_BlockReportApplyResult [] removed next false))
        else
          let ready := ready_block_ids staged in
          let locations := add_worker_ready_locations locations key (sorted_blocks ready) in
          let report := mk_WorkerBlockReportRuntime (br_worker_run_id report) (br_baseline_high_watermark report)
                          (Some (mk_ActiveBlockReport baseline_seq staged ready 0)) None in
          (notify (put_report st key report locations), Ok (mk_BlockReportApplyResult (sorted_blocks ready) removed 0 true))
    end.

(** The section of [receive_full_block_report] under the locks. *)
Definition receive_full_locked (st : WorkerManagerState) (key : WorkerKey) (run : WorkerRunId) (baseline_seq batch_seq : Z)
    (final_batch : bool) (blocks : list BlockReportBlock) : WorkerManagerState * MetadataResult BlockReportApplyResult :=
  if negb (registered_run st key run) then (st, Err (StaleState "worker_run_id mismatch"))
  else
    let report := default (mk_WorkerBlockReportRuntime run None None None) (wm_reports st !! key) in
    let st := put_report st key report (wm_locations st) in
    if bool_decide (br_worker_run_id report <> run) then (st, Err (StaleState "worker_run_id mismatch"))
    else if bool_decide (ab_baseline_seq <$> br_active report = Some baseline_seq)
    then (st, Ok (mk_BlockReportApplyResult [] [] 0 true))
    else
      let continuing := bool_decide (sf_baseline_seq <$> br_staging report = Some baseline_seq) in
      if negb continuing
         && match br_baseline_high_watermark report with Some high => baseline_seq <=? high | None => false end
      then (st, Err (FullReportRequired "full report required: stale baseline_seq"))
      else if negb continuing && bool_decide (batch_seq <> 0)
      then (st, Err (FullReportRequired "full report required from batch_seq 0"))
      else
        let '(report, locations, removed) :=
          if continuing then (report, wm_locations st, [])
          else
            (mk_WorkerBlockReportRuntime (br_worker_run_id report) (Some baseline_seq) None
               (Some (mk_StagingFullBlockReport baseline_seq 0 ∅)),
             remove_active (wm_locations st) key report, active_ready report) in
        match br_staging report with
        | None => (st, Panic)
        | Some staging =>
            if batch_seq <? sf_next_batch_seq staging
            then (put_report st key report locations,
                  Ok (mk_BlockReportApplyResult [] removed (sf_next_batch_seq staging) false))
            else if sf_next_batch_seq staging <? batch_seq
            then
              (put_report st key (mk_WorkerBlockReportRuntime (br_worker_run_id report)
                                    (br_baseline_high_watermark report) (br_active report) None) locations,
               Err (FullReportRequired "full report required after batch gap"))
            else stage_batch st key report locations removed staging baseline_seq batch_seq final_batch blocks
        end.

Definition receive_full_block_report (st : WorkerManagerState) (key : WorkerKey) (run : WorkerRunId)
    (baseline_seq batch_seq : Z) (final_batch : bool) (blocks : list BlockReportBlock) (now now' : Z)
  : WorkerManagerState * MetadataResult BlockReportApplyResult :=
  match validate_report_source st key run now now' with
  | (st, Ok _) => receive_full_locked st key run baseline_seq batch_seq final_batch blocks
  | (st, Err e) => (st, Err e)
  | (st, Panic) => (st, Panic)
  end.

(** One change of a Delta batch. *)
Definition apply_change (key : WorkerKey)
    (acc : ActiveBlockReport * gmap LocationKey (gset WorkerKey) * list BlockId * list BlockId) (change : BlockReportChange)
  : ActiveBlockReport * gmap LocationKey (gset WorkerKey) * list BlockId * list BlockId :=
  let '(active, locations, added, removed) := acc in
  let id := change_id change in
  let was_ready := bool_decide (id ∈ ab_ready_blocks active) in
  let blocks := match change with
                | BC_Upsert block => <[id := block]> (ab_blocks active)
                | BC_Remove id => delete id (ab_blocks active)
                end in
  let is_ready := bool_decide (bb_block_state <$> blocks !! id = Some BR_Ready) in
  let next ready := mk_ActiveBlockReport (ab_baseline_seq active) blocks ready (ab_next_delta_batch_seq active) in
  match was_ready, is_ready with
  | false, true =>
      (next ({[id]} ∪ ab_ready_blocks active), add_worker_ready_locations locations key [id], added ++ [id], removed)
  | true, false =>
      (next (ab_ready_blocks active ∖ {[id]}), remove_worker_ready_locations locations key [id], added, removed ++ [id])
  | _, _ => (next (ab_ready_blocks active), locations, added, removed)
  end.

(** Giving up the active baseline: a gap makes a Full report necessary. *)
Definition drop_active (st : WorkerManagerState) (key : WorkerKey) (report : WorkerBlockReportRuntime) : WorkerManagerState :=
  notify (put_report st key (mk_WorkerBlockReportRuntime (br_worker_run_id report) (br_baseline_high_watermark report)
                               None (br_staging report)) (remove_active (wm_locations st) key report)).

(** The section of [apply_delta_block_report] under the locks. *)
Definition apply_delta_locked (st : WorkerManagerState) (key : WorkerKey) (run : WorkerRunId) (baseline_seq batch_seq : Z)
    (changes : list BlockReportChange) : WorkerManagerState * MetadataResult BlockReportApplyResult :=
  if negb (registered_run st key run) then (st, Err (StaleState "worker_run_id mismatch"))
  else
    match wm_reports st !! key with
    | None => (st, Err (FullReportRequired "full report required before delta"))
    | Some report =>
        if bool_decide (br_worker_run_id report <> run) then (st, Err (StaleState "worker_run_id mismatch"))
        else
          match br_active report with
          | None => (st, Err (FullReportRequired "full report required for current baseline"))
          | Some active =>
              if bool_decide (ab_baseline_seq active <> baseline_seq)
              then
                (if ab_baseline_seq active <? baseline_seq then drop_active st key report else st,
                 Err (FullReportRequired "full report required for baseline_seq"))
              else if batch_seq <? ab_next_delta_batch_seq active
              then (st, Ok (mk_BlockReportApplyResult [] [] (ab_next_delta_batch_seq active) false))
              else if ab_next_delta_batch_seq active <? batch_seq
              then (drop_active st key report, Err (FullReportRequired "full report required after delta gap"))
              else
                match checked_add64 batch_seq 1 with
                | None =>
                    (drop_active st key report, Err (FullReportRequired "full report required after delta batch sequence overflow"))
                | Some next =>
                    if negb (bool_decide (NoDup (change_id <$> changes)))
                    then (st, Err (InvalidArgument "delta block report contains duplicate block_id"))
                    else
                      let '(active, locations, added, removed) :=
                        foldl (apply_change key) (active, wm_locations st, [], []) changes in
                      let active := mk_ActiveBlockReport (ab_baseline_seq active) (ab_blocks active)
                                      (ab_ready_blocks active) next in
                      (notify (put_report st key (mk_WorkerBlockReportRuntime (br_worker_run_id report)
                                                    (br_baseline_high_watermark report) (Some active) (br_staging report))
                                 locations),
                       Ok (mk_BlockReportApplyResult added removed next false))
                end
          end
    end.

Definition apply_delta_block_report (st : WorkerManagerState) (key : WorkerKey) (run : WorkerRunId)
    (baseline_seq batch_seq : Z) (changes : list BlockReportChange) (now now' : Z)
  : WorkerManagerState * MetadataResult BlockReportApplyResult :=
  match validate_report_source st key run now now' with
  | (st, Ok _) => apply_delta_locked st key run baseline_seq batch_seq changes
  | (st, Err e) => (st, Err e)
  | (st, Panic) => (st, Panic)
  end.

(** ** Queries *)

(** [rsplit_once(':')] and [rsplit_once("://")]: the last occurrence splits. *)
Fixpoint rsplit_colon (s : string) : option (string * string) :=
  match s with
  | EmptyString => None
  | String c rest =>
      match rsplit_colon rest with
      | Some (a, b) => Some (String c a, b)
      | None => if bool_decide (c = ":"%char) then Some (EmptyString, rest) else None
      end
  end.

Fixpoint after_last_scheme (s : string) : option string :=
  match s with
  | EmptyString => None
  | String c rest =>
      match after_last_scheme rest with
      | Some r => Some r
      | None => strip_prefix "://" s
      end
  end.

Fixpoint trim_start (drop : ascii -> bool) (s : string) : string :=
  match s with
  | EmptyString => EmptyString
  | String c rest => if drop c then trim_start drop rest else s
  end.
Fixpoint trim_end (drop : ascii -> bool) (s : string) : string :=
  match s with
  | EmptyString => EmptyString
  | String c rest =>
      match trim_end drop rest with
      | EmptyString => if drop c then EmptyString else String c EmptyString
      | r => String c r
      end
  end.
Definition trim_both (drop : ascii -> bool) (s : string) : string := trim_end drop (trim_start drop s).

Definition is_bracket (c : ascii) : bool := bool_decide (c = "["%char \/ c = "]"%char).
(** The white space of ASCII; endpoints are ASCII. *)
Definition is_white (c : ascii) : bool :=
  let n := nat_of_ascii c in bool_decide ((9 <= n <= 13)%nat \/ n = 32%nat).

Definition endpoint_host (endpoint : string) : option string :=
  let without_scheme := default endpoint (after_last_scheme endpoint) in
  let host := match rsplit_colon without_scheme with Some (host, _) => host | None => without_scheme end in
  let host := trim_both is_white (trim_both is_bracket host) in
  if bool_decide (host = EmptyString) then None else Some host.

Definition placement_view (st : WorkerManagerState) (now : Z) (key : WorkerKey) (descriptor : WorkerDescriptor)
  : WorkerPlacementView :=
  let registration := wm_registrations st !! key in
  let live := wm_runtime st !! key in
  let registered := bool_decide (is_Some registration) in
  mk_WorkerPlacementView key.1 key.2 (rg_worker_run_id <$> registration) (wd_address descriptor)
    (wd_worker_net_protocol descriptor) registered
    (registered && match live with Some r => seen_recently now r | None => false end)
    (endpoint_host (wd_address descriptor)) (endpoint_host (wd_address descriptor)) None (wd_fault_domain descriptor) None
    (match live with Some r => wk_tier_free r | None => [] end) [DURABLE_PREFIX].

Definition collect_worker_placement_views (st : WorkerManagerState) (group : GroupName) (now : Z)
  : list WorkerPlacementView :=
  sort_by_key (fun v => [pv_worker_id v])
    ((fun e => placement_view st now e.1 e.2) <$> filter (fun e => e.1.1 = group) (map_to_list (wm_descriptors st))).

Definition get_block_locations (st : WorkerManagerState) (group : GroupName) (id : BlockId) (now : Z) : list WorkerId :=
  let live_set : gset WorkerId := list_to_set (list_live_workers_in_group st group now) in
  match wm_locations st !! (group, id) with
  | None => []
  | Some workers => snd <$> filter (fun key => key.1 = group /\ key.2 ∈ live_set) (elements workers)
  end.

Definition reported_location (st : WorkerManagerState) (group : GroupName) (id : BlockId) (key : WorkerKey)
  : option ReportedBlockLocation :=
  if bool_decide (key.1 <> group) then None
  else
    report ← wm_reports st !! key;
    active ← br_active report;
    block ← ab_blocks active !! id;
    if bool_decide (bb_block_state block <> BR_Ready) then None
    else
      tier ← bb_tier block;
      Some (mk_ReportedBlockLocation tier group id (bb_effective_len block) key.2 (br_worker_run_id report)).

Definition reported_block_locations (st : WorkerManagerState) (group : GroupName) (id : BlockId) : list ReportedBlockLocation :=
  match wm_locations st !! (group, id) with
  | None => []
  | Some keys => sort_by_key (fun l => [rl_worker_id l]) (omap (reported_location st group id) (elements keys))
  end.

Record ReplicaKey := mk_ReplicaKey {
  rk_group_name : GroupName;
  rk_worker_id : WorkerId;
  rk_worker_run_id : WorkerRunId;
  rk_block_id : BlockId
}.

Definition is_current_ready_replica (st : WorkerManagerState) (replica : ReplicaKey) : bool :=
  let key := (rk_group_name replica, rk_worker_id replica) in
  match wm_registrations st !! key, wm_reports st !! key with
  | Some registration, Some report =>
      bool_decide (rg_worker_run_id registration = rk_worker_run_id replica)
      && bool_decide (br_worker_run_id report = rk_worker_run_id replica)
      && match br_active report with
         | Some active => bool_decide (bb_block_state <$> ab_blocks active !! rk_block_id replica = Some BR_Ready)
         | None => false
         end
  | _, _ => false
  end.

(** ** Publication evidence *)

Record PublishReadyTarget := mk_PublishReadyTarget {
  pt_target : LocatedBlock;
  pt_effective_len : Z
}.

Inductive PublishReadyConflict :=
| PC_MissingWriteEndpoint (id : BlockId)
| PC_WorkerRunMismatch (id : BlockId) (worker : WorkerId) (expected : WorkerRunId) (current : option WorkerRunId)
| PC_EndpointMismatch (id : BlockId) (worker : WorkerId)
| PC_LeaseEpochMismatch (id : BlockId) (worker : WorkerId) (expected reported : Z)
| PC_UnreadableBlock (id : BlockId) (worker : WorkerId) (state : BlockReportBlockState).

Inductive PublishReadyStatus :=
| PR_Ready | PR_Pending (id : BlockId) | PR_Conflict (conflict : PublishReadyConflict).

(** What one endpoint contributes: it is ready, it conflicts, or nothing yet. *)
Inductive Evidence := EV_Ready | EV_Conflict (conflict : PublishReadyConflict) | EV_None.

Definition endpoint_evidence (st : WorkerManagerState) (group : GroupName) (expected : PublishReadyTarget) (now : Z)
    (endpoint : WorkerEndpointInfo) : Evidence :=
  let target := pt_target expected in
  let id := lb_block_id target in
  let worker := we_worker_id endpoint in
  let key := (group, worker) in
  match wm_registrations st !! key with
  | None => EV_Conflict (PC_WorkerRunMismatch id worker (we_worker_run_id endpoint) None)
  | Some registration =>
      if bool_decide (rg_worker_run_id registration <> we_worker_run_id endpoint)
      then EV_Conflict (PC_WorkerRunMismatch id worker (we_worker_run_id endpoint) (Some (rg_worker_run_id registration)))
      else if negb (match wm_descriptors st !! key with
                    | Some descriptor => bool_decide (wd_address descriptor = we_endpoint endpoint)
                                         && bool_decide (wd_worker_net_protocol descriptor = WORKER_NET_PROTOCOL_GRPC)
                    | None => false
                    end
                    && bool_decide (rg_address registration = we_endpoint endpoint)
                    && bool_decide (rg_worker_net_protocol registration = WORKER_NET_PROTOCOL_GRPC))
      then EV_Conflict (PC_EndpointMismatch id worker)
      else
        match wm_runtime st !! key, wm_reports st !! key with
        | Some runtime, Some report =>
            if bool_decide (wk_worker_run_id runtime <> we_worker_run_id endpoint) || negb (seen_recently now runtime)
            then EV_None
            else if bool_decide (br_worker_run_id report <> we_worker_run_id endpoint) then EV_None
            else
              match br_active report ≫= (fun active => ab_blocks active !! id) with
              | None => EV_None
              | Some block =>
                  let epoch := ft_epoch (lb_fencing_token target) in
                  if bb_lease_epoch block <? epoch then EV_None
                  else if epoch <? bb_lease_epoch block
                  then EV_Conflict (PC_LeaseEpochMismatch id worker epoch (bb_lease_epoch block))
                  else if bool_decide (bb_block_state block = BR_Ready) && (bb_effective_len block <? pt_effective_len expected)
                  then EV_None
                  else if bool_decide (bb_block_state block = BR_Ready) then EV_Ready
                  else EV_Conflict (PC_UnreadableBlock id worker (bb_block_state block))
              end
        | _, _ => EV_None
        end
  end.

(** The loop over the endpoints of a target: the first ready one decides, else the
    last conflict is reported. *)
Fixpoint endpoints_evidence (st : WorkerManagerState) (group : GroupName) (expected : PublishReadyTarget) (now : Z)
    (conflict : option PublishReadyConflict) (endpoints : list WorkerEndpointInfo) : PublishReadyStatus :=
  match endpoints with
  | [] => match conflict with Some c => PR_Conflict c | None => PR_Pending (lb_block_id (pt_target expected)) end
  | endpoint :: rest =>
      match endpoint_evidence st group expected now endpoint with
      | EV_Ready => PR_Ready
      | EV_Conflict c => endpoints_evidence st group expected now (Some c) rest
      | EV_None => endpoints_evidence st group expected now conflict rest
      end
  end.

Fixpoint check_publish_ready (st : WorkerManagerState) (group : GroupName) (now : Z) (targets : list PublishReadyTarget)
  : PublishReadyStatus :=
  match targets with
  | [] => PR_Ready
  | expected :: rest =>
      let target := pt_target expected in
      if bool_decide (lb_worker_endpoints target = []) then PR_Conflict (PC_MissingWriteEndpoint (lb_block_id target))
      else
        match endpoints_evidence st group expected now None (lb_worker_endpoints target) with
        | PR_Ready => check_publish_ready st group now rest
        | status => status
        end
  end.
End manager.

(** ** Pages of Ready replicas *)

Record ReadyReplicaCursor := mk_ReadyReplicaCursor {
  rc_worker_id : WorkerId;
  rc_block_id : option BlockId;
  rc_worker_end_block_id : option BlockId
}.

Record ReadyReplicaPage := mk_ReadyReplicaPage {
  pg_replicas : list ReplicaKey;
  pg_next_cursor : option ReadyReplicaCursor
}.

(** The reports of a group in key order, from [start] on. *)
Definition reports_from (st : WorkerManagerState) (group : GroupName) (start : WorkerId)
  : list (WorkerId * WorkerBlockReportRuntime) :=
  sort_by_key (fun e => [e.1])
    ((fun e => (e.1.2, e.2)) <$> filter (fun e => e.1.1 = group /\ start <= e.1.2) (map_to_list (wm_reports st))).

Definition ready_replica_scan_end (st : WorkerManagerState) (group : GroupName) : option WorkerId :=
  fst <$> last (reports_from st group 0).

(** A worker is passed: nothing of it is left for this scan. *)
Definition passed_worker (worker : WorkerId) : ReadyReplicaCursor := mk_ReadyReplicaCursor worker None None.

Definition block_lt (a b : BlockId) : bool := negb (lex_le (block_key b) (block_key a)).

Section page.
Variables (st : WorkerManagerState) (group : GroupName) (cursor : option ReadyReplicaCursor) (scan_end : WorkerId) (limit : Z).

(** The loop over the Ready blocks of one worker: a finished page, or the
    replicas and the work so far. *)
Fixpoint page_blocks (worker : WorkerId) (run : WorkerRunId) (active : ActiveBlockReport) (worker_end : BlockId)
    (ids : list BlockId) (replicas : list ReplicaKey) (visited : Z)
  : MetadataResult (ReadyReplicaPage + (list ReplicaKey * Z)) :=
  match ids with
  | [] => Ok (inr (replicas, visited))
  | id :: rest =>
      match ab_blocks active !! id with
      | None => Err (Internal "Ready block index is missing report state")
      | Some block =>
          reject_if (bool_decide (bb_block_state block <> BR_Ready))
            (Internal "Ready block index contains non-Ready report state");;
          let replicas := replicas ++ [mk_ReplicaKey group worker run id] in
          let visited := visited + 1 in
          if bool_decide (id = worker_end)
          then
            if bool_decide (worker = scan_end) then Ok (inl (mk_ReadyReplicaPage replicas None))
            else if bool_decide (visited = limit)
            then Ok (inl (mk_ReadyReplicaPage replicas (Some (passed_worker worker))))
            else Ok (inr (replicas, visited))
          else if bool_decide (visited = limit)
          then Ok (inl (mk_ReadyReplicaPage replicas (Some (mk_ReadyReplicaCursor worker (Some id) (Some worker_end)))))
          else page_blocks worker run active worker_end rest replicas visited
      end
  end.

(** [active.ready_blocks.range((after, Included(worker_end)))]; a range that
    starts after its end panics. *)
Definition ready_range (active : ActiveBlockReport) (after : option BlockId) (worker_end : BlockId) : list BlockId :=
  filter (fun id => match after with Some a => block_lt a id | None => true end && negb (block_lt worker_end id) = true)
    (sorted_blocks (ab_ready_blocks active)).

(** One worker of the page. *)
Definition page_worker (worker : WorkerId) (report : WorkerBlockReportRuntime) (replicas : list ReplicaKey) (visited : Z)
  : MetadataResult (ReadyReplicaPage + (list ReplicaKey * Z)) :=
  let at_cursor := match cursor with Some c => bool_decide (rc_worker_id c = worker) | None => false end in
  if match cursor with Some c => bool_decide (rc_worker_id c = worker /\ rc_block_id c = None) | None => false end
  then Ok (inr (replicas, visited))
  else
    let is_end := bool_decide (worker = scan_end) in
    if negb (registered_run st (group, worker) (br_worker_run_id report))
       || match br_active report with Some active => bool_decide (ab_ready_blocks active = ∅) | None => true end
    then
      let visited := visited + 1 in
      if is_end then Ok (inl (mk_ReadyReplicaPage replicas None))
      else if bool_decide (visited = limit) then Ok (inl (mk_ReadyReplicaPage replicas (Some (passed_worker worker))))
      else Ok (inr (replicas, visited))
    else
      active ← expect (br_active report);
      let worker_cursor := if at_cursor then cursor else None in
      let after := worker_cursor ≫= rc_block_id in
      worker_end ← expect (match worker_cursor ≫= rc_worker_end_block_id with
                           | Some id => Some id
                           | None => last (sorted_blocks (ab_ready_blocks active))
                           end);
      assert_that (match after with Some id => negb (block_lt worker_end id) | None => true end);;
      found ← page_blocks worker (br_worker_run_id report) active worker_end (ready_range active after worker_end)
                replicas visited;
      match found with
      | inl page => Ok (inl page)
      | inr (after_worker, visited) =>
          let empty := bool_decide (length after_worker = length replicas) in
          let visited := if empty then visited + 1 else visited in
          if empty && bool_decide (visited = limit) && negb is_end
          then Ok (inl (mk_ReadyReplicaPage after_worker (Some (passed_worker worker))))
          else if is_end then Ok (inl (mk_ReadyReplicaPage after_worker None))
          else Ok (inr (after_worker, visited))
      end.

Fixpoint page_workers (workers : list (WorkerId * WorkerBlockReportRuntime)) (replicas : list ReplicaKey) (visited : Z)
  : MetadataResult ReadyReplicaPage :=
  match workers with
  | [] => Ok (mk_ReadyReplicaPage replicas None)
  | (worker, report) :: rest =>
      if scan_end <? worker then Ok (mk_ReadyReplicaPage replicas None)
      else
        found ← page_worker worker report replicas visited;
        match found with
        | inl page => Ok page
        | inr (replicas, visited) => page_workers rest replicas visited
        end
  end.

Definition list_ready_replica_page : MetadataResult ReadyReplicaPage :=
  reject_if (limit =? 0) (InvalidArgument "ready replica page limit must be greater than zero");;
  if match cursor with
     | Some c => (scan_end <? rc_worker_id c) || bool_decide (rc_worker_id c = scan_end /\ rc_block_id c = None)
     | None => false
     end
  then Ok (mk_ReadyReplicaPage [] None)
  else
    reject_if (match cursor with
               | Some c => bool_decide (is_Some (rc_block_id c) /\ rc_worker_end_block_id c = None)
               | None => false
               end) (Internal "ready replica cursor is missing its worker block end");;
    page_workers (reports_from st group (match cursor with Some c => rc_worker_id c | None => 0 end)) [] 0.
End page.
