(* ===== verification/WorkersInv.v ===== *)
(** * The worker manager's index under every interleaving

    The critical sections as a step relation: between two sections of one call
    any sections of other calls may run. The location index always equals what
    the active reports determine, and every report belongs to the process run
    that is registered. *)

From S2P Require Import Prelude Types Errors Inode Mount Store Session SessionInv Placement Workers.
Local Open Scope Z_scope.

(** ** The index as a relation *)

Definition indexes (locations : gmap (GroupName * BlockId) (gset (GroupName * WorkerId)))
    (R : GroupName * WorkerId -> BlockId -> Prop) : Prop :=
  forall g id, match locations !! (g, id) with
               | Some ws => ws <> ∅ /\ forall key, key ∈ ws <-> key.1 = g /\ R key id
               | None => forall w, ~ R (g, w) id
               end.

Lemma indexes_ext l R R' : indexes l R -> (forall k b, R k b <-> R' k b) -> indexes l R'.
Proof.
  intros H E g id. specialize (H g id). destruct (l !! (g, id)); [|by intros w; rewrite <- E].
  destruct H as [? H]. split; [done|]. intros key. by rewrite <- E.
Qed.

Lemma add_location_ok l R key id :
  indexes l R -> indexes (add_location key l id) (fun k b => R k b \/ (k = key /\ b = id)).
Proof.
  intros H g b. specialize (H g b). unfold add_location. destruct (decide ((g, b) = (key.1, id))) as [[= -> ->]|Hne].
  - rewrite lookup_insert_eq. split; [set_solver|]. intros k. rewrite elem_of_union, elem_of_singleton.
    destruct (l !! (key.1, id)) as [ws|]; simpl; [destruct H as [_ H]; rewrite H; naive_solver|].
    split; [set_solver|]. intros [E [HR|[-> _]]]; [|by left]. destruct k as [kg kw]. simpl in E. subst kg. by destruct (H kw).
  - rewrite lookup_insert_ne by done. destruct (l !! (g, b)) as [ws|].
    + destruct H as [? H]. split; [done|]. intros k. rewrite H. split; [naive_solver|].
      intros [<- [?|[-> ->]]]; [done|]. by destruct Hne.
    + intros w [HR|[<- ->]]; [by apply (H w)|]. by apply Hne.
Qed.

Lemma remove_location_ok l R key id :
  indexes l R -> indexes (remove_location key l id) (fun k b => R k b /\ ~ (k = key /\ b = id)).
Proof.
  intros H g b. pose proof (H g b) as Hgb. unfold remove_location. destruct (l !! (key.1, id)) as [ws|] eqn:Hl.
  2:{ pose proof (H key.1 id) as Hk. rewrite Hl in Hk. destruct (l !! (g, b)) as [ws|].
      - destruct Hgb as [? Hgb]. split; [done|]. intros k. rewrite Hgb. split; [|naive_solver].
        intros [E HR]. split; [done|]. split; [done|]. intros [-> ->]. subst g. destruct key as [kg kw]. by apply (Hk kw).
      - intros w [HR _]. by apply (Hgb w). }
  pose proof (H key.1 id) as Hk. rewrite Hl in Hk. destruct Hk as [Hne Hk].
  destruct (decide ((g, b) = (key.1, id))) as [[= -> ->]|Hneq].
  - case_bool_decide as Hemp.
    + rewrite lookup_delete_eq. intros w [HR Hn]. assert ((key.1, w) ∈ ws ∖ {[key]}) as Hin; [|rewrite Hemp in Hin; set_solver].
      rewrite elem_of_difference, elem_of_singleton, Hk. split; [done|]. intros E. by apply Hn.
    + rewrite lookup_insert_eq. split; [done|]. intros k. rewrite elem_of_difference, elem_of_singleton, Hk. naive_solver.
  - assert ((if bool_decide (ws ∖ {[key]} = ∅) then delete (key.1, id) l else <[(key.1, id):=ws ∖ {[key]}]> l) !! (g, b)
            = l !! (g, b)) as -> by (case_bool_decide; [by rewrite lookup_delete_ne|by rewrite lookup_insert_ne]).
    destruct (l !! (g, b)) as [ws'|].
    + destruct Hgb as [? Hgb]. split; [done|]. intros k. rewrite Hgb. split; [|naive_solver]. intros [<- HR]. split; [done|].
      split; [done|]. intros [-> ->]. by apply Hneq.
    + intros w [HR _]. by apply (Hgb w).
Qed.

Lemma add_locations_ok l R key ids :
  indexes l R -> indexes (add_worker_ready_locations l key ids) (fun k b => R k b \/ (k = key /\ b ∈ ids)).
Proof.
  revert l R. induction ids as [|id ids IH]; intros l R H; simpl.
  - eapply indexes_ext; [done|]. set_solver.
  - eapply indexes_ext; [by apply IH, add_location_ok|]. set_solver.
Qed.

Lemma remove_locations_ok l R key ids :
  indexes l R -> indexes (remove_worker_ready_locations l key ids) (fun k b => R k b /\ ~ (k = key /\ b ∈ ids)).
Proof.
  revert l R. induction ids as [|id ids IH]; intros l R H; simpl.
  - eapply indexes_ext; [done|]. set_solver.
  - eapply indexes_ext; [by apply IH, remove_location_ok|]. set_solver.
Qed.

Lemma elem_of_sorted_blocks s id : id ∈ sorted_blocks s <-> id ∈ s.
Proof. unfold sorted_blocks. by rewrite sort_by_key_perm, elem_of_elements. Qed.

(** ** Well-formed reports *)

Record active_ok (a : ActiveBlockReport) : Prop := {
  ao_keys : forall id block, ab_blocks a !! id = Some block -> bb_block_id block = id;
  ao_ready : forall id, id ∈ ab_ready_blocks a <-> exists block, ab_blocks a !! id = Some block /\ bb_block_state block = BR_Ready
}.

Record report_ok (r : WorkerBlockReportRuntime) : Prop := {
  po_active : forall a, br_active r = Some a ->
    active_ok a /\ br_baseline_high_watermark r = Some (ab_baseline_seq a) /\ br_staging r = None;
  po_staging : forall s, br_staging r = Some s ->
    br_baseline_high_watermark r = Some (sf_baseline_seq s) /\
    forall id block, sf_blocks s !! id = Some block -> bb_block_id block = id
}.

(** The active report of [key] holds [id] as Ready. *)
Definition reported_ready (reports : gmap (GroupName * WorkerId) WorkerBlockReportRuntime)
    (key : GroupName * WorkerId) (id : BlockId) : Prop :=
  exists r a, reports !! key = Some r /\ br_active r = Some a /\ id ∈ ab_ready_blocks a.

Record manager_inv (st : WorkerManagerState) : Prop := {
  mi_index : indexes (wm_locations st) (reported_ready (wm_reports st));
  mi_reports : forall key r, wm_reports st !! key = Some r -> report_ok r;
  mi_runs : forall key r, wm_reports st !! key = Some r ->
    exists reg, wm_registrations st !! key = Some reg /\ rg_worker_run_id reg = br_worker_run_id r;
  mi_registrations : forall key reg, wm_registrations st !! key = Some reg ->
    rg_group_name reg = key.1 /\ rg_worker_id reg = key.2
}.

Lemma manager_new_inv : manager_inv worker_manager_new.
Proof.
  split; simpl; try (intros ? ?; by rewrite lookup_empty).
  intros g id. rewrite lookup_empty. intros w (r & a & Hr & _). by rewrite lookup_empty in Hr.
Qed.

(** Only these maps matter for the invariant. *)
Lemma manager_inv_ext st st' :
  wm_registrations st' = wm_registrations st -> wm_reports st' = wm_reports st -> wm_locations st' = wm_locations st ->
  manager_inv st -> manager_inv st'.
Proof. intros E1 E2 E3 []. split; rewrite ?E1, ?E2, ?E3; done. Qed.

Lemma ready_block_ids_ok blocks :
  (forall id block, blocks !! id = Some block -> bb_block_id block = id) ->
  forall id, id ∈ ready_block_ids blocks <-> exists block, blocks !! id = Some block /\ bb_block_state block = BR_Ready.
Proof.
  intros Hk id. unfold ready_block_ids. rewrite elem_of_list_to_set, list_elem_of_fmap. split.
  - intros ([k b] & -> & Hin). apply list_elem_of_filter in Hin as [Hs Hin%elem_of_map_to_list]. simpl in *.
    rewrite (Hk _ _ Hin). eauto.
  - intros (b & Hb & Hs). exists (id, b). simpl. split; [by rewrite (Hk _ _ Hb)|]. apply list_elem_of_filter. split; [done|].
    by apply elem_of_map_to_list.
Qed.

(** Replacing the report of a worker and giving up what its old one indexed. *)
Section put.
Context (st : WorkerManagerState) (key : GroupName * WorkerId) (Hinv : manager_inv st).

Lemma removed_index old :
  wm_reports st !! key = Some old ->
  indexes (remove_active (wm_locations st) key old) (fun k b => k <> key /\ reported_ready (wm_reports st) k b).
Proof using Hinv.
  intros Hold. unfold remove_active. destruct (br_active old) as [a|] eqn:Ha.
  - eapply indexes_ext; [apply remove_locations_ok, (mi_index _ Hinv)|]. intros k b. simpl. rewrite elem_of_sorted_blocks. split.
    + intros [HR Hn]. split; [|done]. intros ->. destruct HR as (r & a' & Hr & Ha' & Hb). apply Hn. split; [done|]. congruence.
    + intros [Hne HR]. split; [done|]. naive_solver.
  - eapply indexes_ext; [apply (mi_index _ Hinv)|]. intros k b. split; [|naive_solver]. intros HR. split; [|done].
    intros ->. destruct HR as (r & a & Hr & Ha' & _). congruence.
Qed.

Lemma put_report_inv r l reg :
  wm_registrations st !! key = Some reg -> rg_worker_run_id reg = br_worker_run_id r -> report_ok r ->
  indexes l (fun k b => (k <> key /\ reported_ready (wm_reports st) k b) \/
                        (k = key /\ exists a, br_active r = Some a /\ b ∈ ab_ready_blocks a)) ->
  manager_inv (put_report st key r l).
Proof using Hinv.
  intros Hreg Hrun Hr Hl. destruct Hinv as [_ H2 H3 H4]. split; simpl; [| | |done].
  - eapply indexes_ext; [done|]. intros k b. unfold reported_ready. destruct (decide (k = key)) as [->|Hne].
    + rewrite lookup_insert_eq. naive_solver.
    + rewrite lookup_insert_ne by done. naive_solver.
  - intros k r' [[<- <-]|[_ Hl']]%lookup_insert_Some; [done|by eapply H2].
  - intros k r' [[<- <-]|[_ Hl']]%lookup_insert_Some; [by eauto|by eapply H3].
Qed.
End put.

(** ** The sections *)

Lemma remove_worker_report_inv st key :
  manager_inv st -> manager_inv (fst (remove_worker_report st key)) /\
    wm_reports (fst (remove_worker_report st key)) = delete key (wm_reports st) /\
    wm_registrations (fst (remove_worker_report st key)) = wm_registrations st.
Proof.
  intros Hinv. unfold remove_worker_report. destruct (wm_reports st !! key) as [r|] eqn:Hr; simpl.
  2:{ split; [done|]. split; [|done]. by rewrite delete_id. }
  split; [|done]. pose proof (removed_index st key Hinv r Hr) as Hidx. destruct Hinv as [_ H2 H3 H4]. split; simpl; [| | |done].
  - eapply indexes_ext; [done|]. intros k b. unfold reported_ready. destruct (decide (k = key)) as [->|Hne].
    + rewrite lookup_delete_eq. naive_solver.
    + rewrite lookup_delete_ne by done. naive_solver.
  - intros k r' [_ Hl]%lookup_delete_Some. by eapply H2.
  - intros k r' [_ Hl]%lookup_delete_Some. by eapply H3.
Qed.

Lemma install_registration_inv st key address protocol run fault_domain :
  manager_inv st -> manager_inv (fst (install_registration st key address protocol run fault_domain)).
Proof.
  intros Hinv. unfold install_registration. set (reg := mk_WorkerRegistrationState _ _ _ _ _ _).
  set (same := match wm_registrations st !! key with Some _ => _ | None => _ end).
  destruct same eqn:Hsame; subst same; cbn [fst].
  - destruct (wm_registrations st !! key) as [old|] eqn:Hold; [|done]. apply bool_decide_eq_true in Hsame.
    destruct Hinv as [H1 H2 H3 H4]. split; simpl; try done.
    + intros k r Hr. destruct (H3 k r Hr) as (reg' & Hreg & Hrun). destruct (decide (k = key)) as [->|].
      * exists reg. rewrite lookup_insert_eq. split; [done|]. simpl. congruence.
      * exists reg'. by rewrite lookup_insert_ne.
    + intros k r [[<- <-]|[_ Hl]]%lookup_insert_Some; [done|by apply H4].
  - clear Hsame. pose proof (remove_worker_report_inv st key Hinv) as ([H1 H2 H3 H4] & Hreps & Hregs).
    assert (manager_inv (with_registrations (fst (remove_worker_report st key)) (<[key := reg]> (wm_registrations st)))) as H.
    { split; simpl; try done.
      - intros k r Hr. destruct (H3 k r Hr) as (reg' & Hreg & Hrun). rewrite Hreps in Hr. apply lookup_delete_Some in Hr as [Hne _].
        exists reg'. rewrite lookup_insert_ne by done. by rewrite <- Hregs.
      - intros k r [[<- <-]|[_ Hl]]%lookup_insert_Some; [done|]. rewrite <- Hregs in Hl. by apply H4. }
    eapply manager_inv_ext; [..|exact H]; unfold remove_worker_report; simpl; by destruct (wm_reports st !! key).
Qed.

Lemma forget_registration_inv st key : manager_inv st -> manager_inv (fst (forget_registration st key)).
Proof.
  intros Hinv. pose proof (remove_worker_report_inv st key Hinv) as ([H1 H2 H3 H4] & Hreps & Hregs).
  assert (manager_inv (with_registrations (fst (remove_worker_report st key)) (delete key (wm_registrations st)))) as H.
  { split; simpl; try done.
    - intros k r Hr. destruct (H3 k r Hr) as (reg' & Hreg & Hrun). rewrite Hreps in Hr. apply lookup_delete_Some in Hr as [Hne _].
      exists reg'. rewrite lookup_delete_ne by done. by rewrite <- Hregs.
    - intros k r [_ Hl]%lookup_delete_Some. rewrite <- Hregs in Hl. by apply H4. }
  unfold forget_registration. destruct (remove_worker_report (with_registrations st _) key) as [st' rep] eqn:E. cbn [fst].
  eapply manager_inv_ext; [..|exact H]; revert E; unfold remove_worker_report; simpl; destruct (wm_reports st !! key);
    by intros [= <- <-].
Qed.

Lemma registered_run_true st key run :
  registered_run st key run = true -> exists reg, wm_registrations st !! key = Some reg /\ rg_worker_run_id reg = run.
Proof. unfold registered_run. destruct (wm_registrations st !! key) as [reg|]; [|done]. rewrite bool_decide_eq_true. eauto. Qed.

Lemma fold_blocks_keys (m : gmap BlockId BlockReportBlock) blocks :
  (forall id b, m !! id = Some b -> bb_block_id b = id) ->
  forall id b, foldl (fun m block => <[bb_block_id block := block]> m) m blocks !! id = Some b -> bb_block_id b = id.
Proof.
  revert m. induction blocks as [|x blocks IH]; intros m Hm; simpl; [done|]. apply IH.
  intros id b [[<- <-]|[_ Hl]]%lookup_insert_Some; [done|by apply Hm].
Qed.

(** The report a Full batch works on is the stored one or an empty one. *)
Lemma opened_report_inv st key run reg :
  manager_inv st -> wm_registrations st !! key = Some reg -> rg_worker_run_id reg = run ->
  let report := default (mk_WorkerBlockReportRuntime run None None None) (wm_reports st !! key) in
  manager_inv (put_report st key report (wm_locations st)) /\ br_worker_run_id report = run /\ report_ok report.
Proof.
  intros Hinv Hreg Hrun. destruct (wm_reports st !! key) as [r|] eqn:Hr; simpl.
  - destruct (mi_runs _ Hinv _ _ Hr) as (reg' & Hreg' & E). split; [|split; [congruence|by apply (mi_reports _ Hinv key)]].
    eapply manager_inv_ext; [..|exact Hinv]; [done| |done]. simpl. by rewrite insert_id.
  - split; [|split; [done|by split]]. apply (put_report_inv st key Hinv _ _ reg); try done.
    eapply indexes_ext; [apply (mi_index _ Hinv)|]. intros k b. simpl. split; [|naive_solver].
    intros HR. left. split; [|done]. intros ->. destruct HR as (r & a & Hr' & _). congruence.
Qed.

(** What a later version of a worker's report may do to the state that [report] gave. *)
Lemma put_again st key r l r' l' :
  put_report (put_report st key r l) key r' l' = put_report st key r' l'.
Proof. unfold put_report, with_observations. simpl. by rewrite insert_insert_eq. Qed.

Lemma kept_active_inv st key r l r' :
  manager_inv (put_report st key r l) -> br_worker_run_id r' = br_worker_run_id r -> br_active r' = br_active r ->
  report_ok r' -> manager_inv (put_report st key r' l).
Proof.
  intros Hinv Hrun Ha Hr'. destruct (mi_runs _ Hinv key r) as (reg & Hreg & E); [simpl; by rewrite lookup_insert_eq|].
  rewrite <- (put_again st key r l r' l). apply (put_report_inv _ key Hinv _ _ reg); [done|congruence|done|].
  eapply indexes_ext; [apply (mi_index _ Hinv)|]. intros k b. rewrite Ha. simpl. unfold reported_ready. split.
  - intros (r0 & a & Hr & Ha' & Hb). destruct (decide (k = key)) as [->|Hne].
    + right. split; [done|]. rewrite lookup_insert_eq in Hr. naive_solver.
    + left. split; [done|]. eauto.
  - intros [[Hne HR]|[-> (a & Ha' & Hb)]]; [done|]. exists r, a. by rewrite lookup_insert_eq.
Qed.

Lemma stage_batch_inv st key report l removed staging baseline batch final blocks :
  manager_inv (put_report st key report l) -> report_ok report -> br_staging report = Some staging ->
  sf_baseline_seq staging = baseline ->
  manager_inv (fst (stage_batch st key report l removed staging baseline batch final blocks)) /\
  snd (stage_batch st key report l removed staging baseline batch final blocks) <> Panic.
Proof.
  intros Hinv Hok Hst Hbase. unfold stage_batch. destruct (po_staging _ Hok _ Hst) as [Hhigh Hkeys].
  assert (br_active report = None) as Hna.
  { destruct (br_active report) as [a|] eqn:Ha; [|done]. destruct (po_active _ Hok _ Ha) as (_ & _ & E). congruence. }
  destruct (_ || _); [by split|].
  set (staged := foldl _ (sf_blocks staging) blocks).
  assert (forall id b, staged !! id = Some b -> bb_block_id b = id) as Hskeys by (by apply fold_blocks_keys).
  assert (forall s, sf_baseline_seq s = baseline -> sf_blocks s = staged ->
    manager_inv (put_report st key (mk_WorkerBlockReportRuntime (br_worker_run_id report) (br_baseline_high_watermark report)
      (br_active report) (Some s)) l)) as Hkeep.
  { intros s E1 E2. apply (kept_active_inv st key report); try done. split; simpl; [rewrite Hna; done|].
    intros s' [= <-]. split; [congruence|]. by rewrite E2. }
  destruct (checked_add64 batch 1) as [nx|]; cbn [fst snd]; [|split; [by apply Hkeep|done]].
  destruct final; cbn [negb fst snd].
  - split; [|done]. set (a := mk_ActiveBlockReport baseline staged (ready_block_ids staged) 0).
    destruct (mi_runs _ Hinv key report) as (reg & Hreg & E); [simpl; by rewrite lookup_insert_eq|].
    eapply (manager_inv_ext (put_report (put_report st key report l) key
      (mk_WorkerBlockReportRuntime (br_worker_run_id report) (br_baseline_high_watermark report) (Some a) None)
      (add_worker_ready_locations l key (sorted_blocks (ready_block_ids staged))))); [done| |done|].
    { simpl. by rewrite insert_insert_eq. }
    apply (put_report_inv _ key Hinv _ _ reg); [done|done| |].
    + split; simpl; [|done]. intros a' [= <-]. split; [|split; [by rewrite Hhigh, Hbase|done]]. split; [done|]. by apply ready_block_ids_ok.
    + eapply indexes_ext; [apply add_locations_ok, (mi_index _ Hinv)|]. intros k b. simpl. rewrite elem_of_sorted_blocks. split.
      * intros [HR|[-> Hb]]; [left; split; [|done]|right; split; [done|by exists a]]. intros ->.
        destruct HR as (r & a' & Hr & Ha' & _). simpl in Hr. rewrite lookup_insert_eq in Hr. naive_solver.
      * intros [[_ HR]|[-> (a' & [= <-] & Hb)]]; [by left|right; done].
  - split; [|done]. case_bool_decide; [by apply Hkeep|]. eapply (manager_inv_ext (put_report st key _ l)); [done|done|done|by apply Hkeep].
Qed.

Lemma receive_full_inv st key run baseline batch final blocks :
  manager_inv st ->
  manager_inv (fst (receive_full_locked st key run baseline batch final blocks)) /\
  snd (receive_full_locked st key run baseline batch final blocks) <> Panic.
Proof.
  intros Hinv. unfold receive_full_locked. destruct (registered_run st key run) eqn:Hrun; [|by split].
  apply registered_run_true in Hrun as (reg & Hreg & Hrun). cbn [negb].
  destruct (opened_report_inv st key run reg Hinv Hreg Hrun) as (Hinv0 & Hr & Hok).
  set (report := default _ _) in *. rewrite bool_decide_eq_false_2 by (intros Hn; by apply Hn).
  case_bool_decide; [by split|]. case_bool_decide as Hcont; cbn [negb andb].
  - destruct (br_staging report) as [staging|] eqn:Hst; [|done]. simpl in Hcont. injection Hcont as Hcont.
    destruct (_ <? _); cbn [fst snd]; [by rewrite put_again|]. destruct (_ <? _); cbn [fst snd].
    + rewrite put_again. split; [|done]. apply (kept_active_inv st key report); try done. split; simpl; [|done].
      intros a Ha. destruct (po_active _ Hok _ Ha) as (? & ? & ?). done.
    + apply stage_batch_inv; [by rewrite put_again|done..].
  - destruct (match br_baseline_high_watermark report with Some _ => _ | None => _ end); [by split|].
    case_bool_decide as Hb0; [by split|]. cbn [br_staging sf_next_batch_seq].
    set (r' := mk_WorkerBlockReportRuntime _ (Some baseline) None _).
    assert (manager_inv (put_report st key r' (remove_active (wm_locations st) key report))) as Hinv1.
    { rewrite <- (put_again st key report (wm_locations st) r'). apply (put_report_inv _ key Hinv0 _ _ reg); [done|by simpl; congruence| |].
      - split; simpl; [done|]. intros s [= <-]. split; [done|]. intros id b. simpl. by rewrite lookup_empty.
      - eapply indexes_ext; [apply (removed_index (put_report st key report (wm_locations st)) key Hinv0 report); simpl; by rewrite lookup_insert_eq|].
        intros k b. simpl. naive_solver. }
    assert (report_ok r') as Hok'.
    { split; simpl; [done|]. intros s [= <-]. split; [done|]. intros id b. simpl. by rewrite lookup_empty. }
    destruct (_ <? _); cbn [fst snd]; [by rewrite put_again|]. destruct (_ <? _); cbn [fst snd].
    + rewrite put_again. split; [|done]. by apply (kept_active_inv st key r').
    + apply stage_batch_inv; [by rewrite put_again|done..].
Qed.

(** ** Deltas *)

(** The blocks after one change. *)
Definition changed (blocks : gmap BlockId BlockReportBlock) (change : BlockReportChange) : gmap BlockId BlockReportBlock :=
  match change with
  | BC_Upsert block => <[bb_block_id block := block]> blocks
  | BC_Remove id => delete id blocks
  end.

Lemma apply_change_ok key a l added removed change (P : GroupName * WorkerId -> BlockId -> Prop) :
  active_ok a -> indexes l (fun k b => (k <> key /\ P k b) \/ (k = key /\ b ∈ ab_ready_blocks a)) ->
  let '(a', l', _, _) := apply_change key (a, l, added, removed) change in
  active_ok a' /\ ab_blocks a' = changed (ab_blocks a) change /\ ab_baseline_seq a' = ab_baseline_seq a /\
  ab_next_delta_batch_seq a' = ab_next_delta_batch_seq a /\
  indexes l' (fun k b => (k <> key /\ P k b) \/ (k = key /\ b ∈ ab_ready_blocks a')).
Proof.
  intros [Hk Hr] Hl. unfold apply_change. set (id := change_id change).
  set (blocks := match change with BC_Upsert block => <[id := block]> (ab_blocks a) | BC_Remove i => delete i (ab_blocks a) end).
  assert (blocks = changed (ab_blocks a) change) as Hblocks by (by destruct change).
  assert (forall i, i <> id -> blocks !! i = ab_blocks a !! i) as Hother.
  { intros i Hne. unfold blocks, id in *. destruct change; simpl in *; [by rewrite lookup_insert_ne|by rewrite lookup_delete_ne]. }
  assert (forall i b, blocks !! i = Some b -> bb_block_id b = i) as Hkeys.
  { intros i b. unfold blocks, id. destruct change; simpl.
    - intros [[<- <-]|[_ ?]]%lookup_insert_Some; [done|by apply Hk].
    - intros [_ ?]%lookup_delete_Some. by apply Hk. }
  clearbody blocks id. subst blocks.
  assert (forall ready, (forall i, i <> id -> i ∈ ready <-> i ∈ ab_ready_blocks a) ->
    (id ∈ ready <-> bb_block_state <$> changed (ab_blocks a) change !! id = Some BR_Ready) ->
    active_ok (mk_ActiveBlockReport (ab_baseline_seq a) (changed (ab_blocks a) change) ready (ab_next_delta_batch_seq a))) as Hnext.
  { intros ready H1 H2. split; simpl; [done|]. intros i. destruct (decide (i = id)) as [->|Hne].
    - rewrite H2. destruct (changed (ab_blocks a) change !! id) as [b|]; simpl; [|split; [done|by intros (? & ? & _)]].
      split; [intros [= ?]; by eauto|intros (b' & [= <-] & ->); done].
    - rewrite H1, Hr, Hother by done. done. }
  case_bool_decide as Hwas; case_bool_decide as Hnow; (split; [|split; [done|]; split; [done|]; split; [done|]]); simpl.
  - by apply Hnext.
  - exact Hl.
  - apply Hnext; [intros i Hne; set_solver|]. clear -Hwas Hnow. set_solver.
  - eapply indexes_ext; [exact (remove_locations_ok _ _ key [id] Hl)|]. intros k b. clear. set_solver.
  - apply Hnext; [intros i Hne; clear -Hne; set_solver|]. clear -Hwas Hnow. set_solver.
  - eapply indexes_ext; [exact (add_locations_ok _ _ key [id] Hl)|]. intros k b. clear. set_solver.
  - by apply Hnext.
  - exact Hl.
Qed.

Lemma apply_changes_ok key a l added removed changes (P : GroupName * WorkerId -> BlockId -> Prop) :
  active_ok a -> indexes l (fun k b => (k <> key /\ P k b) \/ (k = key /\ b ∈ ab_ready_blocks a)) ->
  let '(a', l', _, _) := foldl (apply_change key) (a, l, added, removed) changes in
  active_ok a' /\ ab_blocks a' = foldl changed (ab_blocks a) changes /\ ab_baseline_seq a' = ab_baseline_seq a /\
  ab_next_delta_batch_seq a' = ab_next_delta_batch_seq a /\
  indexes l' (fun k b => (k <> key /\ P k b) \/ (k = key /\ b ∈ ab_ready_blocks a')).
Proof.
  revert a l added removed. induction changes as [|c changes IH]; intros a l added removed Ha Hl; cbn [foldl]; [done|].
  pose proof (apply_change_ok key a l added removed c P Ha Hl) as Hc.
  destruct (apply_change key (a, l, added, removed) c) as [[[a1 l1] added1] removed1]. destruct Hc as (Ha1 & Hb1 & Hs1 & Hn1 & Hl1).
  specialize (IH a1 l1 added1 removed1 Ha1 Hl1). destruct (foldl _ _ changes) as [[[a2 l2] ?] ?].
  destruct IH as (? & E & ? & ? & ?). split_and!; try done; [by rewrite E, Hb1|congruence..].
Qed.

(** The index seen from one worker. *)
Lemma index_split st key r :
  manager_inv st -> wm_reports st !! key = Some r ->
  indexes (wm_locations st) (fun k b => (k <> key /\ reported_ready (wm_reports st) k b) \/
                                        (k = key /\ exists a, br_active r = Some a /\ b ∈ ab_ready_blocks a)).
Proof.
  intros Hinv Hr. eapply indexes_ext; [apply (mi_index _ Hinv)|]. intros k b. unfold reported_ready.
  destruct (decide (k = key)) as [->|]; naive_solver.
Qed.

Lemma drop_active_inv st key r :
  manager_inv st -> wm_reports st !! key = Some r -> manager_inv (drop_active st key r).
Proof.
  intros Hinv Hr. destruct (mi_runs _ Hinv _ _ Hr) as (reg & Hreg & Hrun). pose proof (mi_reports _ Hinv _ _ Hr) as Hok.
  unfold drop_active. eapply (manager_inv_ext (put_report st key _ _)); [done|done|done|].
  apply (put_report_inv st key Hinv _ _ reg); [done|done| |].
  - split; simpl; [done|]. apply (po_staging _ Hok).
  - eapply indexes_ext; [by apply removed_index|]. intros k b. simpl. naive_solver.
Qed.

Lemma apply_delta_inv st key run baseline batch changes :
  manager_inv st ->
  manager_inv (fst (apply_delta_locked st key run baseline batch changes)) /\
  snd (apply_delta_locked st key run baseline batch changes) <> Panic.
Proof.
  intros Hinv. unfold apply_delta_locked. destruct (negb _); [by split|].
  destruct (wm_reports st !! key) as [r|] eqn:Hr; [|by split]. case_bool_decide; [by split|].
  destruct (br_active r) as [a|] eqn:Ha; [|by split].
  case_bool_decide; [split; [simpl; destruct (_ <? _); [by apply drop_active_inv|done]|done]|].
  destruct (batch <? _); [by split|]. destruct (_ <? batch); [split; [by apply drop_active_inv|done]|].
  destruct (checked_add64 batch 1) as [nx|]; [|split; [by apply drop_active_inv|done]]. destruct (negb _); [by split|].
  destruct (mi_runs _ Hinv _ _ Hr) as (reg & Hreg & Hrun). pose proof (mi_reports _ Hinv _ _ Hr) as Hok.
  destruct (po_active _ Hok _ Ha) as (Haok & Hhigh & Hst).
  assert (indexes (wm_locations st) (fun k b => (k <> key /\ reported_ready (wm_reports st) k b) \/ (k = key /\ b ∈ ab_ready_blocks a)))
    as Hidx by (eapply indexes_ext; [by apply (index_split st key r)|]; naive_solver).
  pose proof (apply_changes_ok key a (wm_locations st) [] [] changes _ Haok Hidx) as Hc.
  destruct (foldl _ _ changes) as [[[a' l'] added] removed]. destruct Hc as ([Hk' Hr'] & _ & Hseq & _ & Hl'). cbn [fst snd].
  split; [|done]. eapply (manager_inv_ext (put_report st key _ _)); [done|done|done|].
  apply (put_report_inv st key Hinv _ _ reg); [done|done| |].
  - split; simpl; [|by rewrite Hst]. intros a2 [= <-]. split; [by split|]. split; [simpl; congruence|done].
  - eapply indexes_ext; [exact Hl'|]. intros k b. simpl. split; [|naive_solver].
    intros [?|[-> Hb]]; [by left|right; split; [done|]; by eexists].
Qed.
