(* ===== verification/WorkersProps.v ===== *)
(** * What the worker manager guarantees

    The step relation of its critical sections, the methods as sequences of
    sections, and the theorems: the index is exact under every interleaving, the
    report protocol reconstructs what the worker sent, read plans name exactly
    the live holders of a block, publication needs evidence, and cleanup pages
    visit every replica. *)

From S2P Require Import Prelude Types Errors Inode Mount Store Session SessionInv Placement Workers WorkersInv.
Local Open Scope Z_scope.

(** The critical sections that carry no block report. Sections on the maps that
    carry no invariant may store anything. *)
Inductive wm_admin : WorkerManagerState -> WorkerManagerState -> Prop :=
| Sec_descriptors st m : wm_admin st (with_descriptors st m)
| Sec_runtime st m : wm_admin st (with_runtime st m)
| Sec_rejections st m : wm_admin st (with_rejections st m)
| Sec_notify st : wm_admin st (notify st)
| Sec_clear st : wm_admin st (clear_reports st)
| Sec_load st workers : wm_admin st (load_registered_workers st workers)
| Sec_install st key address protocol run fault_domain :
    wm_admin st (fst (install_registration st key address protocol run fault_domain))
| Sec_forget st key : wm_admin st (fst (forget_registration st key)).

(** One critical section. *)
Inductive wm_section : WorkerManagerState -> WorkerManagerState -> Prop :=
| Sec_admin st st' : wm_admin st st' -> wm_section st st'
| Sec_full st key run baseline batch final blocks :
    wm_section st (fst (receive_full_locked st key run baseline batch final blocks))
| Sec_delta st key run baseline batch changes :
    wm_section st (fst (apply_delta_locked st key run baseline batch changes)).

Lemma cleared_inv st : manager_inv (clear_reports st).
Proof.
  split; simpl; try (intros ? ?; by rewrite lookup_empty).
  intros g id. rewrite lookup_empty. intros w (r & a & Hr & _). by rewrite lookup_empty in Hr.
Qed.

Lemma wm_section_inv st st' : wm_section st st' -> manager_inv st -> manager_inv st'.
Proof.
  destruct 1 as [st st' []| |]; intros Hinv.
  - by eapply manager_inv_ext; [..|exact Hinv].
  - by eapply manager_inv_ext; [..|exact Hinv].
  - by eapply manager_inv_ext; [..|exact Hinv].
  - by eapply manager_inv_ext; [..|exact Hinv].
  - apply cleared_inv.
  - by eapply manager_inv_ext; [..|apply (cleared_inv st)].
  - by apply install_registration_inv.
  - by apply forget_registration_inv.
  - by apply receive_full_inv.
  - by apply apply_delta_inv.
Qed.

(** The states that interleaved calls reach. *)
Definition wm_reach (st : WorkerManagerState) : Prop := rtc wm_section worker_manager_new st.

Lemma wm_reach_inv st : wm_reach st -> manager_inv st.
Proof.
  unfold wm_reach. intros H. assert (manager_inv worker_manager_new -> manager_inv st) as Hi; [|apply Hi, manager_new_inv].
  induction H as [|a b c Hab _ IH]; [done|]. intros Ha. apply IH. by eapply wm_section_inv.
Qed.

(** ** Methods are sequences of sections *)

Section methods.
Context (timeout : Z).

Lemma expire_sections st now : rtc wm_section st (fst (expire_liveness timeout st now)).
Proof.
  unfold expire_liveness. cbn [fst]. case_bool_decide; [apply rtc_once, Sec_admin; constructor|].
  eapply rtc_l; [apply Sec_admin, (Sec_runtime st)|]. apply rtc_once, Sec_admin. constructor.
Qed.

Lemma register_sections st key address protocol run fault_domain :
  rtc wm_section st (fst (register_worker_run st key address protocol run fault_domain)).
Proof.
  unfold register_worker_run. destruct (validate_worker_registration_for_apply _ _ _ _ _); [|apply rtc_refl..].
  unfold upsert_descriptor.
  eapply rtc_l; [apply Sec_admin, (Sec_descriptors st)|]. eapply rtc_l; [apply Sec_admin, Sec_notify|].
  match goal with |- context [install_registration ?s key address protocol run fault_domain] =>
    eapply rtc_l; [apply Sec_admin, (Sec_install s key address protocol run fault_domain)|];
    destruct (install_registration s key address protocol run fault_domain) as [st1 same] end. cbn [fst].
  eapply rtc_l; [apply Sec_admin, (Sec_rejections st1)|]. destruct same; [apply rtc_once, Sec_admin; constructor|].
  eapply rtc_l; [apply Sec_admin, Sec_runtime|]. apply rtc_once, Sec_admin. constructor.
Qed.

Lemma heartbeat_sections st key run seq endpoint protocol tier_free now now' now_ms :
  rtc wm_section st (fst (record_heartbeat_with_tier_free timeout st key run seq endpoint protocol tier_free now now' now_ms)).
Proof.
  unfold record_heartbeat_with_tier_free. pose proof (expire_sections st now) as He.
  destruct (expire_liveness timeout st now) as [st1 l]. cbn [fst] in He.
  destruct (_ ≫= _); [|done..]. transitivity st1; [exact He|]. unfold record_runtime.
  eapply rtc_l; [apply Sec_admin, (Sec_runtime st1)|]. eapply rtc_l; [apply Sec_admin, Sec_rejections|]. apply rtc_once, Sec_admin. constructor.
Qed.

Lemma remove_dead_sections st key : rtc wm_section st (fst (remove_dead_worker st key)).
Proof.
  unfold remove_dead_worker. eapply rtc_l; [apply Sec_admin, (Sec_forget st key)|].
  destruct (forget_registration st key) as [st1 [b r]]. cbn [fst].
  eapply rtc_l; [apply Sec_admin, (Sec_runtime st1)|]. destruct (_ || _); [apply rtc_once, Sec_admin; constructor|apply rtc_refl].
Qed.

Lemma validate_source_sections st key run now now' :
  rtc wm_section st (fst (validate_report_source timeout st key run now now')).
Proof.
  unfold validate_report_source. pose proof (expire_sections st now) as He. by destruct (expire_liveness timeout st now).
Qed.

Lemma full_sections st key run baseline batch final blocks now now' :
  rtc wm_section st (fst (receive_full_block_report timeout st key run baseline batch final blocks now now')).
Proof.
  unfold receive_full_block_report. pose proof (validate_source_sections st key run now now') as Hv.
  destruct (validate_report_source timeout st key run now now') as [st1 [u|e|]]; [|done..].
  eapply rtc_r; [exact Hv|]. apply Sec_full.
Qed.

Lemma delta_sections st key run baseline batch changes now now' :
  rtc wm_section st (fst (apply_delta_block_report timeout st key run baseline batch changes now now')).
Proof.
  unfold apply_delta_block_report. pose proof (validate_source_sections st key run now now') as Hv.
  destruct (validate_report_source timeout st key run now now') as [st1 [u|e|]]; [|done..].
  eapply rtc_r; [exact Hv|]. apply Sec_delta.
Qed.

Lemma reset_sections st : rtc wm_section st (reset_worker_soft_state st).
Proof.
  unfold reset_worker_soft_state. eapply rtc_l; [apply Sec_admin, (Sec_clear st)|]. eapply rtc_l; [apply Sec_admin, Sec_runtime|].
  eapply rtc_l; [apply Sec_admin, Sec_rejections|]. apply rtc_once, Sec_admin. constructor.
Qed.
End methods.

(** ** The index *)

(** The replicas the manager would confirm. *)
Definition current_replica (st : WorkerManagerState) (key : GroupName * WorkerId) (id : BlockId) : Prop :=
  exists run, is_current_ready_replica st (mk_ReplicaKey key.1 key.2 run id) = true.

Lemma current_replica_spec st key id :
  manager_inv st -> current_replica st key id <-> reported_ready (wm_reports st) key id.
Proof.
  intros Hinv. unfold current_replica, is_current_ready_replica, reported_ready. destruct key as [g w]. cbn [fst snd rk_group_name
    rk_worker_id rk_worker_run_id rk_block_id]. split.
  - intros [run H]. destruct (wm_registrations st !! (g, w)), (wm_reports st !! (g, w)) as [r|] eqn:Hr; try done.
    rewrite !andb_true_iff in H. destruct H as [_ H]. destruct (br_active r) as [a|] eqn:Ha; [|done].
    apply bool_decide_eq_true in H. exists r, a. split_and!; try done.
    destruct (po_active _ (mi_reports _ Hinv _ _ Hr) _ Ha) as ([_ Hready] & _). apply Hready.
    destruct (ab_blocks a !! id) as [b|]; [|done]. simpl in H. injection H as H. eauto.
  - intros (r & a & Hr & Ha & Hid). destruct (mi_runs _ Hinv _ _ Hr) as (reg & Hreg & Hrun). exists (br_worker_run_id r).
    rewrite Hreg, Hr, Ha. rewrite !bool_decide_eq_true_2; [done| |done|done].
    destruct (po_active _ (mi_reports _ Hinv _ _ Hr) _ Ha) as ([_ Hready] & _). apply Hready in Hid as (b & Hb & Hs).
    by rewrite Hb, <- Hs.
Qed.

(** ** The methods as calls *)

(** A call of the manager with the clock readings it makes. *)
Inductive WorkerCall :=
| WC_Register (key : GroupName * WorkerId) (address : string) (protocol : Z) (run : WorkerRunId) (fault_domain : option string)
| WC_Heartbeat (key : GroupName * WorkerId) (run : WorkerRunId) (seq : Z) (endpoint : string) (protocol : Z)
    (tier_free : list TierFree) (now now' now_ms : Z)
| WC_RemoveDead (key : GroupName * WorkerId)
| WC_Full (key : GroupName * WorkerId) (run : WorkerRunId) (baseline batch : Z) (final : bool)
    (blocks : list BlockReportBlock) (now now' : Z)
| WC_Delta (key : GroupName * WorkerId) (run : WorkerRunId) (baseline batch : Z) (changes : list BlockReportChange) (now now' : Z)
| WC_Expire (now : Z)
| WC_Upsert (descriptor : WorkerDescriptor)
| WC_Load (workers : list WorkerInfo)
| WC_Reset.

Definition worker_call (timeout : Z) (call : WorkerCall) (st : WorkerManagerState) : WorkerManagerState :=
  match call with
  | WC_Register key address protocol run fd => fst (register_worker_run st key address protocol run fd)
  | WC_Heartbeat key run seq endpoint protocol tf now now' now_ms =>
      fst (record_heartbeat_with_tier_free timeout st key run seq endpoint protocol tf now now' now_ms)
  | WC_RemoveDead key => fst (remove_dead_worker st key)
  | WC_Full key run baseline batch final blocks now now' =>
      fst (receive_full_block_report timeout st key run baseline batch final blocks now now')
  | WC_Delta key run baseline batch changes now now' =>
      fst (apply_delta_block_report timeout st key run baseline batch changes now now')
  | WC_Expire now => fst (expire_liveness timeout st now)
  | WC_Upsert d => upsert_descriptor st d
  | WC_Load workers => load_registered_workers st workers
  | WC_Reset => reset_worker_soft_state st
  end.

Lemma worker_call_sections timeout call st : rtc wm_section st (worker_call timeout call st).
Proof.
  destruct call; cbn [worker_call];
    eauto using register_sections, heartbeat_sections, remove_dead_sections, full_sections, delta_sections, expire_sections,
      reset_sections.
  - unfold upsert_descriptor. eapply rtc_l; [apply Sec_admin, Sec_descriptors|]. apply rtc_once, Sec_admin. constructor.
  - apply rtc_once, Sec_admin. constructor.
Qed.

Lemma reports_no_panic timeout st key run baseline batch now now' :
  manager_inv st ->
  (forall final blocks, snd (receive_full_block_report timeout st key run baseline batch final blocks now now') <> Panic) /\
  (forall changes, snd (apply_delta_block_report timeout st key run baseline batch changes now now') <> Panic).
Proof.
  intros Hinv. unfold receive_full_block_report, apply_delta_block_report.
  pose proof (validate_source_sections timeout st key run now now') as Hs.
  assert (manager_inv (fst (validate_report_source timeout st key run now now'))) as Hinv'.
  { clear -Hs Hinv. induction Hs as [|a b c Hab _ IH]; [done|]. apply IH. by eapply wm_section_inv. }
  assert (snd (validate_report_source timeout st key run now now') <> Panic) as Hnp.
  { unfold validate_report_source. destruct (expire_liveness timeout st now). cbn [snd]. no_panic. }
  destruct (validate_report_source timeout st key run now now') as [st1 [u|e|]]; [|done..].
  split; intros; [by apply receive_full_inv|by apply apply_delta_inv].
Qed.

Lemma locations_spec st g w id :
  manager_inv st -> (g, w) ∈ default ∅ (wm_locations st !! (g, id)) <-> current_replica st (g, w) id.
Proof.
  intros Hinv. rewrite current_replica_spec by done. pose proof (mi_index _ Hinv g id) as H.
  destruct (wm_locations st !! (g, id)) as [ws|]; simpl.
  - destruct H as [_ H]. rewrite H. simpl. naive_solver.
  - split; [set_solver|]. intros HR. by destruct (H w).
Qed.

(** C19. Whatever registrations, heartbeats, removals, Full and Delta reports
    and resets run, and however their critical sections interleave: the location
    index names exactly the replicas that the current process of a registered
    worker reports Ready, with no empty entry left behind; every stored report
    belongs to the run that is registered; no report makes the manager panic; and
    every further method call stays inside these states. *)
Theorem worker_index_exact timeout st :
  wm_reach st ->
  (forall g w id, (g, w) ∈ default ∅ (wm_locations st !! (g, id)) <-> current_replica st (g, w) id) /\
  (forall loc ws, wm_locations st !! loc = Some ws -> ws <> ∅) /\
  (forall key r, wm_reports st !! key = Some r -> registered_run st key (br_worker_run_id r) = true) /\
  (forall key run baseline batch now now',
     (forall final blocks, snd (receive_full_block_report timeout st key run baseline batch final blocks now now') <> Panic) /\
     (forall changes, snd (apply_delta_block_report timeout st key run baseline batch changes now now') <> Panic)) /\
  (forall call, wm_reach (worker_call timeout call st)).
Proof.
  intros Hr. pose proof (wm_reach_inv _ Hr) as Hinv. split_and!.
  - intros. by apply locations_spec.
  - intros [g id] ws Hl. pose proof (mi_index _ Hinv g id) as H. rewrite Hl in H. apply H.
  - intros key r Hk. destruct (mi_runs _ Hinv _ _ Hk) as (reg & Hreg & Hrun). unfold registered_run. rewrite Hreg.
    by apply bool_decide_eq_true.
  - intros. by apply reports_no_panic.
  - intros call. unfold wm_reach. transitivity st; [exact Hr|]. apply worker_call_sections.
Qed.

(** A manager that has seen a registration, a heartbeat and a Full report. *)
Definition run_1 : WorkerRunId := 11.
Definition ready_block : BlockReportBlock := mk_BlockReportBlock (Some Ssd) (mk_BlockId 5 0) 1 BR_Ready 4096.
Definition corrupt_block : BlockReportBlock := mk_BlockReportBlock (Some Ssd) (mk_BlockId 5 1) 1 BR_Corrupt 4096.
Definition sample_worker_calls : list WorkerCall :=
  [WC_Register ("g", 7) "http://w7:9000" WORKER_NET_PROTOCOL_GRPC run_1 None;
   WC_Heartbeat ("g", 7) run_1 1 "http://w7:9000" WORKER_NET_PROTOCOL_GRPC [mk_TierFree Ssd 8192] 100 100 100;
   WC_Full ("g", 7) run_1 1 0 true [ready_block; corrupt_block] 110 110].
Definition run_worker_calls (calls : list WorkerCall) (st : WorkerManagerState) : WorkerManagerState :=
  foldl (fun st call => worker_call 1000 call st) st calls.
Definition sample_manager : WorkerManagerState := run_worker_calls sample_worker_calls worker_manager_new.

Lemma run_worker_calls_reach calls st : wm_reach st -> wm_reach (run_worker_calls calls st).
Proof.
  revert st. induction calls as [|c calls IH]; intros st H; simpl; [done|]. apply IH.
  unfold wm_reach. transitivity st; [exact H|]. apply worker_call_sections.
Qed.

Lemma worker_index_exact_witness :
  ("g", 7) ∈ default ∅ (wm_locations sample_manager !! ("g", mk_BlockId 5 0)) /\
  current_replica sample_manager ("g", 7) (mk_BlockId 5 0) /\ ~ current_replica sample_manager ("g", 7) (mk_BlockId 5 1).
Proof.
  destruct (worker_index_exact 1000 sample_manager) as (H & _); [apply run_worker_calls_reach, rtc_refl|].
  rewrite <- !H. split_and!; [by vm_compute|by vm_compute|].
  apply (bool_decide_eq_false_1 (("g", 7) ∈ default ∅ (wm_locations sample_manager !! ("g", mk_BlockId 5 1)))).
  by vm_compute.
Defined.

(** ** Where a block can be read *)

Lemma NoDup_fmap_omap {A B C} (f : A -> option B) (h : B -> C) l :
  NoDup l -> (forall x y a b, x ∈ l -> y ∈ l -> f x = Some a -> f y = Some b -> h a = h b -> x = y) -> NoDup (h <$> omap f l).
Proof.
  induction 1 as [|x l Hx _ IH]; intros Hinj; simpl; [constructor|].
  assert (NoDup (h <$> omap f l)) as Hnd by (apply IH; intros; eapply Hinj; eauto using list_elem_of_further).
  destruct (f x) as [b|] eqn:Hf; [|done]. simpl. constructor; [|done].
  intros (b' & E & (y & Hy & Hfy)%list_elem_of_omap)%list_elem_of_fmap.
  assert (x = y) as ->; [|done]. eapply (Hinj x y b b'); eauto using list_elem_of_here, list_elem_of_further.
Qed.

(** The active report of [w] holds a Ready copy of [id] on a known tier. *)
Definition ready_copy (st : WorkerManagerState) (g : GroupName) (id : BlockId) (w : WorkerId) (run : WorkerRunId)
    (tier : Tier) (len : Z) : Prop :=
  exists r a b, wm_reports st !! (g, w) = Some r /\ br_active r = Some a /\ ab_blocks a !! id = Some b /\
    bb_block_state b = BR_Ready /\ bb_tier b = Some tier /\ bb_effective_len b = len /\ br_worker_run_id r = run.

Lemma reported_location_spec st g id key l :
  reported_location st g id key = Some l <->
  key.1 = g /\ rl_group_name l = g /\ rl_block_id l = id /\ rl_worker_id l = key.2 /\
  ready_copy st g id key.2 (rl_worker_run_id l) (rl_tier l) (rl_durable_len l).
Proof.
  unfold reported_location, ready_copy. destruct key as [kg kw]. cbn [fst snd]. case_bool_decide as Hg; [naive_solver|].
  subst kg. destruct (wm_reports st !! (g, kw)) as [r|]; simpl; [|naive_solver].
  destruct (br_active r) as [a|] eqn:Ha; simpl; [|naive_solver]. destruct (ab_blocks a !! id) as [b|] eqn:Hb; simpl; [|naive_solver].
  case_bool_decide as Hs; [naive_solver|]. destruct (bb_tier b) as [t|] eqn:Ht; simpl; [|naive_solver].
  split; [intros [= <-]; simpl; naive_solver|]. intros (_ & E1 & E2 & E3 & r' & a' & b' & [= <-] & Ha' & Hb' & _ & Ht' & E4 & E5).
  assert (a' = a) as -> by congruence. assert (b' = b) as -> by congruence. destruct l; simpl in *. congruence.
Qed.

Lemma reported_locations_spec st g id :
  manager_inv st ->
  (forall l, l ∈ reported_block_locations st g id <->
     rl_group_name l = g /\ rl_block_id l = id /\
     ready_copy st g id (rl_worker_id l) (rl_worker_run_id l) (rl_tier l) (rl_durable_len l)) /\
  NoDup (rl_worker_id <$> reported_block_locations st g id).
Proof.
  intros Hinv. unfold reported_block_locations. pose proof (mi_index _ Hinv g id) as Hix.
  assert (forall w run t len, ready_copy st g id w run t len -> reported_ready (wm_reports st) (g, w) id) as Hrc.
  { intros w run t len (r & a & b & Hr & Ha & Hb & Hs & _). exists r, a. split_and!; try done.
    apply (ao_ready _ (proj1 (po_active _ (mi_reports _ Hinv _ _ Hr) _ Ha))). eauto. }
  destruct (wm_locations st !! (g, id)) as [keys|].
  - destruct Hix as [_ Hix]. split.
    + intros l. rewrite sort_by_key_perm, list_elem_of_omap. split.
      * intros (key & _ & (Hg & H1 & H2 & H3 & H4)%reported_location_spec). rewrite H3. done.
      * intros (H1 & H2 & H3). exists (g, rl_worker_id l). rewrite reported_location_spec. split; [|done].
        apply elem_of_elements, Hix. simpl. eauto.
    + rewrite sort_by_key_perm. apply NoDup_fmap_omap; [apply NoDup_elements|].
      intros x y a b _ _ (Hx & _ & _ & Hxw & _)%reported_location_spec (Hy & _ & _ & Hyw & _)%reported_location_spec E.
      destruct x, y; simpl in *; congruence.
  - split; [|constructor]. intros l. split; [set_solver|]. intros (_ & _ & H). by destruct (Hix (rl_worker_id l)); eauto.
Qed.

Lemma views_spec timeout st g now :
  (forall v, v ∈ collect_worker_placement_views timeout st g now <->
     exists w d, wm_descriptors st !! (g, w) = Some d /\ v = placement_view timeout st now (g, w) d) /\
  NoDup (pv_worker_id <$> collect_worker_placement_views timeout st g now).
Proof.
  unfold collect_worker_placement_views. split.
  - intros v. rewrite sort_by_key_perm, list_elem_of_fmap. split.
    + intros ([[kg kw] d] & -> & [Hg Hd%elem_of_map_to_list]%list_elem_of_filter). simpl in *. subst kg. eauto.
    + intros (w & d & Hd & ->). exists ((g, w), d). split; [done|]. apply list_elem_of_filter. split; [done|].
      by apply elem_of_map_to_list.
  - rewrite sort_by_key_perm, <- list_fmap_compose. apply NoDup_fmap_2_strong.
    + intros [[g1 w1] d1] [[g2 w2] d2] [Hg1 H1%elem_of_map_to_list]%list_elem_of_filter
        [Hg2 H2%elem_of_map_to_list]%list_elem_of_filter E. simpl in *. subst. congruence.
    + apply NoDup_filter, NoDup_map_to_list.
Qed.

(** [x] is a source the manager can vouch for: a registered live worker whose
    current process reports a Ready copy that covers [len] bytes. *)
Record vouched (timeout : Z) (st : WorkerManagerState) (g : GroupName) (id : BlockId) (len now : Z) (x : PlacementWorker) : Prop := {
  vo_run : registered_run st (g, pw_worker_id x) (pw_worker_run_id x) = true;
  vo_live : is_worker_live timeout st (g, pw_worker_id x) now = true;
  vo_copy : exists tier n, ready_copy st g id (pw_worker_id x) (pw_worker_run_id x) tier n /\ len <= n;
  vo_address : exists d, wm_descriptors st !! (g, pw_worker_id x) = Some d /\
    pw_endpoint x = wd_address d /\ pw_worker_net_protocol x = wd_worker_net_protocol d;
  vo_tier : pw_tier x = None
}.

Section read_targets.
Context (timeout : Z) (st : WorkerManagerState) (g : GroupName) (id : BlockId) (len now : Z).
Context (layout : FileLayout) (caller : option CallerContextFields) (replicas : Z) (usable : WorkerPlacementView -> bool).
Context (usable_endpoint : string -> Z -> bool).
Context (Husable : forall v, usable v = usable_endpoint (pv_endpoint v) (pv_worker_net_protocol v)).

Definition read_request : PlacementRequest :=
  mk_PlacementRequest g PO_Read id len layout caller (reported_block_locations st g id) [] replicas.
Definition read_views : list WorkerPlacementView :=
  filter (fun v => usable v = true) (collect_worker_placement_views timeout st g now).

Lemma serves_vouched v :
  manager_inv st -> v ∈ read_views /\ serves read_request (pr_existing read_request) v <->
  exists x, placement_worker v None = Some x /\ v = placement_view timeout st now (g, pw_worker_id x)
      (default (mk_WorkerDescriptor g 0 EmptyString 0 None) (wm_descriptors st !! (g, pw_worker_id x))) /\
    vouched timeout st g id len now x /\ usable_endpoint (pw_endpoint x) (pw_worker_net_protocol x) = true.
Proof using Husable.
  intros Hinv. destruct (reported_locations_spec st g id Hinv) as [Hloc _]. unfold read_views, serves, covers. split.
  - intros [[Hu (w & d & Hd & ->)%views_spec]%list_elem_of_filter (_ & Hl & l & Hin & (_ & _ & Hlen) & Hw & Hrun)].
    simpl in Hin, Hlen. apply Hloc in Hin as (_ & _ & Hcopy). rewrite Husable in Hu. simpl in Hw, Hrun, Hu.
    destruct (wm_registrations st !! (g, w)) as [reg|] eqn:Hreg; [|done]. simpl in Hrun. injection Hrun as Hrun.
    unfold is_live in Hl. rewrite !andb_true_iff in Hl. destruct Hl as ((_ & Hlive) & _). simpl in Hlive.
    apply andb_true_iff in Hlive as [_ Hlive]. unfold placement_worker, placement_view. cbn [pv_worker_run_id pv_worker_id
      pv_endpoint pv_worker_net_protocol]. cbn [snd]. rewrite Hreg. simpl. eexists. split_and!; [done|..]; simpl.
    + by rewrite Hd, Hreg.
    + split; simpl; eauto.
      * unfold registered_run. rewrite Hreg. by apply bool_decide_eq_true.
      * exists (rl_tier l), (rl_durable_len l). rewrite Hrun, <- Hw. done.
    + done.
  - intros (x & Hx & -> & [Hrun Hlive (tier & n & Hcopy & Hn) (d & Hd & Ha & Hp) Ht] & Hu). rewrite Hd in Hx |- *. cbn [default] in *.
    unfold registered_run in Hrun. destruct (wm_registrations st !! (g, pw_worker_id x)) as [reg|] eqn:Hreg; [|done].
    apply bool_decide_eq_true in Hrun. split.
    + apply list_elem_of_filter. split; [rewrite Husable; simpl; congruence|]. apply views_spec. eauto.
    + split; [done|]. split; [unfold is_live; simpl; rewrite Hreg; simpl; unfold is_worker_live in Hlive; by rewrite Hlive|].
      exists (mk_ReportedBlockLocation tier g id n (pw_worker_id x) (pw_worker_run_id x)). simpl. split_and!; try done.
      * by apply Hloc.
      * rewrite Hreg. simpl. congruence.
Qed.

(** The plan of a read names exactly the workers the manager can vouch for. *)
Lemma read_targets_spec :
  manager_inv st ->
  let p := plan read_request read_views in
  NoDup (pw_worker_id <$> pp_workers p) /\
  (forall x, x ∈ pp_workers p <->
     vouched timeout st g id len now x /\ usable_endpoint (pw_endpoint x) (pw_worker_net_protocol x) = true) /\
  (pp_status p = PS_NoLiveReplica <-> pp_workers p = []) /\ (pp_status p = PS_Ok <-> pp_workers p <> []).
Proof using Husable.
  intros Hinv p. destruct (reported_locations_spec st g id Hinv) as [_ Hlnd]. destruct (views_spec timeout st g now) as [_ Hvnd].
  destruct (read_plan_spec read_request read_views) as (ranked & Hin & Hnd & _ & Hp & Hs); [done|by apply filter_ids|done|].
  fold p in Hp, Hs.
  assert (forall x, x ∈ pp_workers p <-> exists v, v ∈ ranked /\ placement_worker v None = Some x) as Hel.
  { intros x. rewrite <- (list_elem_of_fmap_inj Some), Hp, list_elem_of_fmap. naive_solver. }
  split_and!.
  - apply (NoDup_fmap_1 Some). rewrite <- list_fmap_compose.
    assert ((Some ∘ pw_worker_id) <$> pp_workers p = (Some ∘ pv_worker_id) <$> ranked) as ->; [|].
    { transitivity (fmap (M := option) pw_worker_id <$> (Some <$> pp_workers p)); [by rewrite <- list_fmap_compose|].
      rewrite Hp, <- list_fmap_compose. apply list_fmap_ext.
      intros i v Hv. simpl. unfold placement_worker. destruct (Hin v) as [Hv' _].
      destruct Hv' as (_ & _ & _ & l & _ & _ & _ & Hrun); [by eapply list_elem_of_lookup_2|]. by rewrite Hrun. }
    rewrite list_fmap_compose. by apply NoDup_fmap_2; [apply _|].
  - intros x. rewrite Hel. split.
    + intros (v & Hv & Hx). apply Hin, serves_vouched in Hv as (x' & Hx' & _ & H); [|done]. congruence.
    + intros [Hvo Hu]. pose proof Hvo as [Hrun _ _ (d & Hd & Ha & Hpr) Ht].
      exists (placement_view timeout st now (g, pw_worker_id x) d).
      assert (placement_worker (placement_view timeout st now (g, pw_worker_id x) d) None = Some x) as Hx.
      { unfold placement_worker, placement_view. cbn [pv_worker_run_id pv_worker_id pv_endpoint pv_worker_net_protocol snd].
        unfold registered_run in Hrun. destruct (wm_registrations st !! _) as [reg|]; [|done]. apply bool_decide_eq_true in Hrun.
        simpl. destruct x; simpl in *. congruence. }
      split; [|done]. apply Hin, serves_vouched; [done|]. exists x. rewrite Hd. done.
  - rewrite Hs. apply (f_equal length) in Hp. rewrite !length_fmap in Hp. destruct (pp_workers p), ranked; simpl in *; naive_solver.
  - rewrite Hs. apply (f_equal length) in Hp. rewrite !length_fmap in Hp. destruct (pp_workers p), ranked; simpl in *; naive_solver.
Qed.
End read_targets.

(** ** Publication evidence *)

(** The manager has seen the endpoint finish the block of [expected]: the worker
    still runs the process and serves the address the block was given to, it is
    live, and its active report holds the block Ready, written under the same
    lease epoch and long enough. *)
Record proves (timeout : Z) (st : WorkerManagerState) (group : GroupName) (now : Z) (expected : PublishReadyTarget)
    (endpoint : WorkerEndpointInfo) : Prop := {
  pf_registration : exists reg d, wm_registrations st !! (group, we_worker_id endpoint) = Some reg /\
    rg_worker_run_id reg = we_worker_run_id endpoint /\ rg_address reg = we_endpoint endpoint /\
    rg_worker_net_protocol reg = WORKER_NET_PROTOCOL_GRPC /\
    wm_descriptors st !! (group, we_worker_id endpoint) = Some d /\ wd_address d = we_endpoint endpoint /\
    wd_worker_net_protocol d = WORKER_NET_PROTOCOL_GRPC;
  pf_live : exists rt, wm_runtime st !! (group, we_worker_id endpoint) = Some rt /\
    wk_worker_run_id rt = we_worker_run_id endpoint /\ seen_recently timeout now rt = true;
  pf_block : exists r a b, wm_reports st !! (group, we_worker_id endpoint) = Some r /\
    br_worker_run_id r = we_worker_run_id endpoint /\ br_active r = Some a /\
    ab_blocks a !! lb_block_id (pt_target expected) = Some b /\ bb_block_state b = BR_Ready /\
    bb_lease_epoch b = ft_epoch (lb_fencing_token (pt_target expected)) /\ pt_effective_len expected <= bb_effective_len b
}.

Lemma endpoint_evidence_spec timeout st group now expected endpoint :
  endpoint_evidence timeout st group expected now endpoint = EV_Ready <-> proves timeout st group now expected endpoint.
Proof.
  unfold endpoint_evidence. split.
  - destruct (wm_registrations st !! _) as [reg|] eqn:Hreg; [|done]. case_bool_decide as Hrun; [done|].
    destruct (negb _) eqn:Hep; [done|]. apply negb_false_iff in Hep. rewrite !andb_true_iff in Hep. destruct Hep as [[Hd Ha] Hp].
    destruct (wm_descriptors st !! _) as [d|] eqn:Hdl; [|done]. bool_prop.
    destruct (wm_runtime st !! _) as [rt|] eqn:Hrt; [|done]. destruct (wm_reports st !! _) as [r|] eqn:Hr; [|done].
    destruct (_ || _) eqn:Hlive; [done|]. apply orb_false_iff in Hlive as [Hl1 Hl2]. apply negb_false_iff in Hl2.
    apply bool_decide_eq_false in Hl1. apply dec_stable in Hl1. case_bool_decide as Hrr; [done|].
    destruct (br_active r) as [a|] eqn:Hac; [|done]. simpl. destruct (ab_blocks a !! _) as [b|] eqn:Hb; [|done].
    destruct (Z.ltb_spec (bb_lease_epoch b) (ft_epoch (lb_fencing_token (pt_target expected)))); [done|].
    destruct (Z.ltb_spec (ft_epoch (lb_fencing_token (pt_target expected))) (bb_lease_epoch b)); [done|].
    case_bool_decide as Hs; simpl; [|done]. destruct (Z.ltb_spec (bb_effective_len b) (pt_effective_len expected)); [done|].
    intros _. split; [by exists reg, d|by exists rt|exists r, a, b; split_and!; try done; lia].
  - intros [(reg & d & -> & Hrun & Ha & Hp & -> & Hda & Hdp) (rt & -> & Hrt & Hl) (r & a & b & -> & Hr & Hac & Hb & Hs & He & Hlen)].
    rewrite (bool_decide_eq_false_2 (rg_worker_run_id reg <> _)) by (intros H; by apply H).
    rewrite !(bool_decide_eq_true_2 (_ = we_endpoint endpoint)), !(bool_decide_eq_true_2 (_ = WORKER_NET_PROTOCOL_GRPC)) by done.
    cbn [andb negb]. rewrite Hl, (bool_decide_eq_false_2 (wk_worker_run_id rt <> _)) by (intros H; by apply H). cbn [orb negb].
    rewrite (bool_decide_eq_false_2 (br_worker_run_id r <> _)) by (intros H; by apply H). rewrite Hac. simpl. rewrite Hb, He, Z.ltb_irrefl.
    rewrite bool_decide_eq_true_2 by done. simpl. destruct (Z.ltb_spec (bb_effective_len b) (pt_effective_len expected)); [lia|done].
Qed.

Lemma endpoints_evidence_spec timeout st group now expected conflict endpoints :
  (endpoints_evidence timeout st group expected now conflict endpoints = PR_Ready <->
   Exists (proves timeout st group now expected) endpoints) /\
  (forall id, endpoints_evidence timeout st group expected now conflict endpoints = PR_Pending id ->
     id = lb_block_id (pt_target expected) /\ conflict = None /\
     Forall (fun e => endpoint_evidence timeout st group expected now e = EV_None) endpoints).
Proof.
  revert conflict. induction endpoints as [|e endpoints IH]; intros conflict; simpl.
  { split; [rewrite Exists_nil; by destruct conflict|]. intros id. destruct conflict; [done|]. by intros [= <-]. }
  rewrite Exists_cons, <- endpoint_evidence_spec. destruct (endpoint_evidence _ _ _ _ _ e) as [|c|] eqn:He.
  - split; [naive_solver|done].
  - destruct (IH (Some c)) as [H1 H2]. rewrite H1. split; [naive_solver|]. intros id Hid. by destruct (H2 _ Hid) as (_ & ? & _).
  - destruct (IH conflict) as [H1 H2]. rewrite H1. split; [naive_solver|]. intros id (? & ? & ?)%H2. split_and!; try done. by constructor.
Qed.

(** C20. A publication may become visible exactly when, for every block it
    contains, the manager has proof from one of the endpoints the block was
    written to: the same process is still registered at the same address and is
    live, and it reports the block Ready with the lease epoch of the writer and
    at least the published length. And it only stays pending on a block while no
    endpoint of that block contradicts the publication. *)
Theorem publish_ready_exact timeout st group now targets :
  (check_publish_ready timeout st group now targets = PR_Ready <->
   Forall (fun t => Exists (proves timeout st group now t) (lb_worker_endpoints (pt_target t))) targets) /\
  (forall id, check_publish_ready timeout st group now targets = PR_Pending id ->
     exists t, t ∈ targets /\ lb_block_id (pt_target t) = id /\
       Forall (fun e => endpoint_evidence timeout st group t now e = EV_None) (lb_worker_endpoints (pt_target t))).
Proof.
  induction targets as [|t targets [IH1 IH2]]; simpl; [by rewrite Forall_nil|].
  rewrite Forall_cons. case_bool_decide as He.
  { rewrite He, Exists_nil. naive_solver. }
  destruct (endpoints_evidence_spec timeout st group now t None (lb_worker_endpoints (pt_target t))) as [H1 H2].
  destruct (endpoints_evidence _ _ _ _ _ _ _) as [|id|c].
  - rewrite IH1. split; [naive_solver|]. intros id (t' & ? & ?)%IH2. exists t'. split; [by right|done].
  - split; [naive_solver|]. intros id' [= <-]. exists t. destruct (H2 id eq_refl) as (-> & _ & ?). split; [by left|done].
  - naive_solver.
Qed.
