(* ===== verification/WorkersReports.v ===== *)
(** * The block report protocol

    A worker process describes its blocks by numbered baselines: Full batches
    that together list the blocks, then Delta batches that change the list. The
    messages can be lost, repeated, delayed and reordered, and the process can
    restart. What the manager holds as the active report is always the complete
    baseline followed by the Delta batches it has acknowledged, and a fresh
    baseline delivered in order is taken over exactly. *)

From S2P Require Import Prelude Types Errors Inode Mount Store Session SessionInv Placement Workers WorkersInv WorkersProps.
Local Open Scope Z_scope.

Section protocol.
(** One process: its identity, the Full batches of each baseline and the Delta
    batches after it. *)
Context (k : GroupName * WorkerId) (run : WorkerRunId).
Context (full : Z -> list (list BlockReportBlock)) (delta : Z -> Z -> list BlockReportChange).

(** The critical sections when this process sends only what it holds; every other
    process sends whatever it likes. *)
Inductive honest_section : WorkerManagerState -> WorkerManagerState -> Prop :=
| HS_admin st st' : wm_admin st st' -> honest_section st st'
| HS_other_full st key run' baseline batch final blocks :
    (key, run') <> (k, run) ->
    honest_section st (fst (receive_full_locked st key run' baseline batch final blocks))
| HS_other_delta st key run' baseline batch changes :
    (key, run') <> (k, run) ->
    honest_section st (fst (apply_delta_locked st key run' baseline batch changes))
| HS_full st baseline (i : nat) blocks :
    full baseline !! i = Some blocks ->
    honest_section st (fst (receive_full_locked st k run baseline (Z.of_nat i)
                              (bool_decide (S i = length (full baseline))) blocks))
| HS_delta st baseline n :
    honest_section st (fst (apply_delta_locked st k run baseline n (delta baseline n))).

Definition insert_blocks (m : gmap BlockId BlockReportBlock) (blocks : list BlockReportBlock) : gmap BlockId BlockReportBlock :=
  foldl (fun m block => <[bb_block_id block := block]> m) m blocks.

(** The blocks of the first [n] Full batches, and of a baseline with its first
    [n] Delta batches. *)
Definition full_content (baseline : Z) (n : nat) : gmap BlockId BlockReportBlock :=
  foldl insert_blocks ∅ (take n (full baseline)).
Definition report_content (baseline n : Z) : gmap BlockId BlockReportBlock :=
  foldl (foldl changed) (full_content baseline (length (full baseline))) (delta baseline <$> seqZ 0 n).

Record content_ok (r : WorkerBlockReportRuntime) : Prop := {
  co_staging : forall s, br_staging r = Some s -> exists n,
    sf_next_batch_seq s = Z.of_nat n /\ sf_blocks s = full_content (sf_baseline_seq s) n;
  co_active : forall a, br_active r = Some a ->
    0 <= ab_next_delta_batch_seq a /\ ab_blocks a = report_content (ab_baseline_seq a) (ab_next_delta_batch_seq a)
}.

Definition content (st : WorkerManagerState) : Prop :=
  forall r, wm_reports st !! k = Some r -> br_worker_run_id r = run -> content_ok r.

Lemma full_content_S baseline n blocks :
  full baseline !! n = Some blocks -> full_content baseline (S n) = insert_blocks (full_content baseline n) blocks.
Proof. intros H. unfold full_content. by rewrite (take_S_r _ _ _ H), foldl_app. Qed.

Lemma report_content_S baseline n :
  0 <= n -> report_content baseline (n + 1) = foldl changed (report_content baseline n) (delta baseline n).
Proof.
  intros H. unfold report_content. rewrite seqZ_app by lia. rewrite fmap_app, foldl_app. simpl.
  replace (0 + n) with n by lia. done.
Qed.

Lemma content_put st r l : content_ok r -> content (put_report st k r l).
Proof. intros H r' Hr' _. simpl in Hr'. rewrite lookup_insert_eq in Hr'. congruence. Qed.

Lemma content_reports st st' : wm_reports st' = wm_reports st -> content st -> content st'.
Proof. intros E H r. rewrite E. apply H. Qed.

Lemma content_lookup st st' : wm_reports st' !! k = wm_reports st !! k \/ wm_reports st' !! k = None -> content st -> content st'.
Proof. intros [E|E] H r; rewrite E; [apply H|done]. Qed.

(** A section for another worker, or for another process of this one, cannot
    touch a report of this process. *)
Definition frame (key : GroupName * WorkerId) (st st' : WorkerManagerState) : Prop :=
  wm_registrations st' = wm_registrations st /\ forall k', k' <> key -> wm_reports st' !! k' = wm_reports st !! k'.

Lemma frame_put st key r l : frame key st (put_report st key r l).
Proof. split; [done|]. intros k' Hne. simpl. by rewrite lookup_insert_ne. Qed.

Lemma frame_put_again st key r l r' l' : frame key st (put_report (put_report st key r l) key r' l').
Proof. rewrite put_again. apply frame_put. Qed.

Lemma frame_notify st key st' : frame key st st' -> frame key st (notify st').
Proof. done. Qed.

#[local] Hint Resolve frame_put frame_put_again frame_notify : frames.

Ltac frames := cbn [fst]; solve [auto with frames].

Lemma full_frame st key run' baseline batch final blocks :
  frame key st (fst (receive_full_locked st key run' baseline batch final blocks)).
Proof.
  unfold receive_full_locked, stage_batch. destruct (registered_run st key run'); cbn [negb]; [|by split]. set (report := default _ _). clearbody report.
  case_bool_decide; [frames|]. case_bool_decide; [frames|].
  case_bool_decide; cbn [negb andb].
  - destruct (br_staging report); [|frames]. repeat case_match; frames.
  - destruct (match br_baseline_high_watermark report with Some _ => _ | None => _ end); [frames|].
    case_bool_decide; [frames|]. cbn [br_staging]. repeat case_match; frames.
Qed.

Lemma delta_frame st key run' baseline batch changes :
  frame key st (fst (apply_delta_locked st key run' baseline batch changes)).
Proof.
  unfold apply_delta_locked, drop_active. destruct (registered_run st key run'); cbn [negb]; [|by split]. destruct (wm_reports st !! key); [|by split].
  case_bool_decide; [by split|]. destruct (br_active _); [|by split].
  case_bool_decide; [cbn [fst]; destruct (_ <? _); [frames|by split]|].
  destruct (_ <? _); [by split|]. destruct (_ <? _); [frames|].
  destruct (checked_add64 _ _); [|frames]. destruct (negb _); [by split|].
  destruct (foldl _ _ changes) as [[[? ?] ?] ?]. frames.
Qed.

(** A section of another sender. *)
Lemma other_content st st' key run' :
  (key, run') <> (k, run) -> frame key st st' -> manager_inv st' -> (registered_run st key run' = true \/ st' = st) ->
  content st -> content st'.
Proof.
  intros Hne [Hreg Hrep] Hinv [Hr| ->] Hc; [|done]. destruct (decide (k = key)) as [<-|Hk].
  - intros r Hr' E. destruct (mi_runs _ Hinv _ _ Hr') as (reg & Hreg' & E'). rewrite Hreg in Hreg'.
    apply registered_run_true in Hr as (reg0 & Hreg0 & E0). congruence.
  - apply (content_lookup st); [left; by apply Hrep|done].
Qed.

Lemma admin_content st st' : wm_admin st st' -> content st -> content st'.
Proof.
  destruct 1; try (by apply content_reports).
  - intros _. by apply (content_lookup (clear_reports st)); [left|intros ?].
  - intros _ r Hr. done.
  - apply content_lookup. unfold install_registration, remove_worker_report. cbn [fst].
    destruct (match wm_registrations st !! key with Some _ => _ | None => _ end); [by left|]. simpl.
    destruct (wm_reports st !! key); simpl; [|by left]. destruct (decide (k = key)) as [->|]; [right; apply lookup_delete_eq|left].
    by rewrite lookup_delete_ne.
  - apply content_lookup. unfold forget_registration, remove_worker_report. simpl. destruct (wm_reports st !! key); simpl; [|by left].
    destruct (decide (k = key)) as [->|]; [right; apply lookup_delete_eq|left]. by rewrite lookup_delete_ne.
Qed.

Hypothesis Hshort : forall baseline, Z.of_nat (length (full baseline)) < 2 ^ 64.

Lemma stage_content st r l removed s baseline (i : nat) blocks :
  content_ok r -> br_staging r = Some s -> sf_baseline_seq s = baseline -> sf_next_batch_seq s = Z.of_nat i ->
  full baseline !! i = Some blocks ->
  content (fst (stage_batch st k r l removed s baseline (Z.of_nat i) (bool_decide (S i = length (full baseline))) blocks)).
Proof using Hshort.
  intros Hr Hs Hb Hn Hi. unfold stage_batch. destruct (_ || _); [by apply content_put|].
  destruct (co_staging _ Hr _ Hs) as (n & Hn' & Hsf). assert (n = i) as -> by lia.
  fold (insert_blocks (sf_blocks s) blocks). rewrite Hsf, Hb, <- (full_content_S _ _ _ Hi).
  pose proof (lookup_lt_Some _ _ _ Hi) as Hlt. pose proof (Hshort baseline) as Hsh.
  assert (checked_add64 (Z.of_nat i) 1 = Some (Z.of_nat (S i))) as ->.
  { apply checked_add64_Some. unfold u64_max. lia. }
  case_bool_decide as Hf; cbn [negb fst].
  - apply (content_put st). split; cbn [br_staging br_active]; [done|]. intros a [= <-].
    cbn [ab_next_delta_batch_seq ab_blocks ab_baseline_seq]. split; [lia|]. by rewrite Hf.
  - match goal with |- content (if _ then ?x else _) => apply (content_reports x); [by case_bool_decide|] end. apply content_put. split; cbn [br_staging br_active].
    + intros s' [= <-]. eauto.
    + intros a Ha. by apply (co_active _ Hr).
Qed.

Lemma full_content_step st baseline (i : nat) blocks :
  manager_inv st -> full baseline !! i = Some blocks -> content st ->
  content (fst (receive_full_locked st k run baseline (Z.of_nat i) (bool_decide (S i = length (full baseline))) blocks)).
Proof using Hshort.
  intros Hinv Hi Hc. unfold receive_full_locked. destruct (registered_run st k run) eqn:Hrun; cbn [negb]; [|done].
  apply registered_run_true in Hrun as (reg & Hreg & Hrun).
  destruct (opened_report_inv st k run reg Hinv Hreg Hrun) as (_ & Hr & _).
  assert (content_ok (default (mk_WorkerBlockReportRuntime run None None None) (wm_reports st !! k))) as Hok.
  { destruct (wm_reports st !! k) as [r|] eqn:E; [by apply Hc|]. by split. }
  set (report := default _ _) in *. clearbody report. rewrite bool_decide_eq_false_2 by (intros Hn; by apply Hn).
  case_bool_decide; [by apply content_put|]. case_bool_decide as Hcont; cbn [negb andb].
  - destruct (br_staging report) as [s|] eqn:Hs; [|by apply content_put]. simpl in Hcont. injection Hcont as Hcont.
    destruct (Z.ltb_spec (Z.of_nat i) (sf_next_batch_seq s)); [by apply content_put|].
    destruct (Z.ltb_spec (sf_next_batch_seq s) (Z.of_nat i)).
    + apply content_put. split; cbn [br_staging br_active]; [done|]. apply (co_active _ Hok).
    + apply stage_content; try done. lia.
  - destruct (match br_baseline_high_watermark report with Some _ => _ | None => _ end); [by apply content_put|].
    case_bool_decide as H0; [by apply content_put|]. cbn [br_staging sf_next_batch_seq].
    destruct (Z.ltb_spec (Z.of_nat i) 0); [lia|]. destruct (Z.ltb_spec 0 (Z.of_nat i)); [lia|].
    apply stage_content; cbn [br_staging sf_baseline_seq sf_next_batch_seq]; try done. split; cbn [br_staging br_active]; [|done].
    intros s [= <-]. by exists 0%nat.
Qed.

Lemma delta_content_step st baseline n :
  manager_inv st -> content st -> content (fst (apply_delta_locked st k run baseline n (delta baseline n))).
Proof.
  intros Hinv Hc. unfold apply_delta_locked. destruct (registered_run st k run); cbn [negb]; [|done].
  destruct (wm_reports st !! k) as [r|] eqn:Hr; [|done]. case_bool_decide as Hrun; [done|]. specialize (Hc r Hr Hrun) as Hok.
  destruct (br_active r) as [a|] eqn:Ha; [|done].
  assert (content (drop_active st k r)) as Hdrop.
  { unfold drop_active. match goal with |- content (notify ?x) => apply (content_reports x); [done|] end.
    apply content_put. split; cbn [br_staging br_active]; [|done]. apply (co_staging _ Hok). }
  case_bool_decide as Hb; [cbn [fst]; by destruct (_ <? _)|]. destruct (Z.ltb_spec n (ab_next_delta_batch_seq a)); [done|].
  destruct (Z.ltb_spec (ab_next_delta_batch_seq a) n); [done|]. destruct (checked_add64 n 1) as [nx|] eqn:Hnx; [|done].
  apply checked_add64_Some in Hnx as [-> _]. destruct (negb _); [done|].
  pose proof (apply_changes_ok k a (wm_locations st) [] [] (delta baseline n) (reported_ready (wm_reports st))) as Hch.
  destruct (foldl _ _ (delta baseline n)) as [[[a' l'] added] removed]. cbn [fst].
  destruct Hch as (_ & Hblocks & Hseq & _ & _).
  { by apply (po_active _ (mi_reports _ Hinv _ _ Hr)). }
  { eapply indexes_ext; [by apply (index_split st k r)|]. rewrite Ha. clear. naive_solver. }
  match goal with |- content (notify ?x) => apply (content_reports x); [done|] end. apply content_put.
  destruct (co_active _ Hok _ Ha) as [Hpos Hcon]. assert (n = ab_next_delta_batch_seq a) as -> by lia.
  split; cbn [br_staging br_active]; [apply (co_staging _ Hok)|]. intros a2 [= <-].
  cbn [ab_next_delta_batch_seq ab_blocks ab_baseline_seq]. split; [lia|].
  rewrite Hblocks, Hcon, Hseq, Hb, report_content_S by done. done.
Qed.

Lemma honest_section_ok st st' : honest_section st st' -> manager_inv st /\ content st -> manager_inv st' /\ content st'.
Proof using Hshort.
  intros H [Hinv Hc]. split.
  - destruct H; eapply wm_section_inv; try exact Hinv; by econstructor.
  - destruct H as [? ? Hadm|st key run' b n f bl Hne|st key run' b n cs Hne|st b i bl Hi|st b n].
    + by eapply admin_content.
    + eapply (other_content st _ key run' Hne); [apply full_frame|by apply receive_full_inv| |done].
      unfold receive_full_locked. destruct (registered_run st key run'); [by left|by right].
    + eapply (other_content st _ key run' Hne); [apply delta_frame|by apply apply_delta_inv| |done].
      unfold apply_delta_locked. destruct (registered_run st key run'); [by left|by right].
    + by apply full_content_step.
    + by apply delta_content_step.
Qed.

Lemma honest_reach_ok st : rtc honest_section worker_manager_new st -> manager_inv st /\ content st.
Proof using Hshort.
  intros H. assert (manager_inv worker_manager_new /\ content worker_manager_new) as H0 by (split; [apply manager_new_inv|done]).
  induction H as [|a b c Hab _ IH]; [done|]. apply IH. by eapply honest_section_ok.
Qed.

(** ** Delivery in order *)

(** [baseline] is newer than every baseline the manager has seen of the process. *)
Definition fresh (st : WorkerManagerState) (baseline : Z) : Prop :=
  registered_run st k run = true /\
  forall r high, wm_reports st !! k = Some r -> br_baseline_high_watermark r = Some high -> high < baseline.

(** The manager waits for Full batch [i] of [baseline], or for Delta batch [n]. *)
Definition awaits_full (st : WorkerManagerState) (baseline : Z) (i : nat) : Prop :=
  registered_run st k run = true /\
  exists r s, wm_reports st !! k = Some r /\ br_staging r = Some s /\ sf_baseline_seq s = baseline /\
    sf_next_batch_seq s = Z.of_nat i.
Definition awaits_delta (st : WorkerManagerState) (baseline n : Z) : Prop :=
  registered_run st k run = true /\
  exists r a, wm_reports st !! k = Some r /\ br_active r = Some a /\ ab_baseline_seq a = baseline /\
    ab_next_delta_batch_seq a = n.

Definition unique_ids (baseline : Z) : Prop := NoDup (bb_block_id <$> concat (full baseline)).

Lemma insert_blocks_dom m blocks id :
  is_Some (insert_blocks m blocks !! id) -> is_Some (m !! id) \/ id ∈ bb_block_id <$> blocks.
Proof.
  revert m. induction blocks as [|b blocks IH]; intros m; simpl; [by left|]. intros H. apply IH in H as [H|H]; [|right; by right].
  destruct (decide (bb_block_id b = id)) as [<-|Hne]; [right; by left|]. rewrite lookup_insert_ne in H by done. by left.
Qed.

Lemma full_content_dom baseline n id :
  is_Some (full_content baseline n !! id) -> id ∈ bb_block_id <$> concat (take n (full baseline)).
Proof.
  unfold full_content. generalize (take n (full baseline)). intros bss. revert id. induction bss as [|bs bss IH] using rev_ind; intros id.
  { simpl. rewrite lookup_empty. by intros []. }
  rewrite foldl_app, concat_app, fmap_app, elem_of_app. simpl. rewrite app_nil_r. intros [H|H]%insert_blocks_dom; [|by right].
  left. by apply IH.
Qed.

Lemma no_duplicate baseline (i : nat) blocks :
  unique_ids baseline -> full baseline !! i = Some blocks ->
  negb (bool_decide (NoDup (bb_block_id <$> blocks)))
    || existsb (fun block => bool_decide (is_Some (full_content baseline i !! bb_block_id block))) blocks = false.
Proof.
  unfold unique_ids. intros Hnd Hi. pose proof (take_drop_middle _ _ _ Hi) as E. rewrite <- E, concat_app, fmap_app in Hnd.
  simpl in Hnd. rewrite fmap_app in Hnd. apply NoDup_app in Hnd as (_ & Hdis & (Hb & _ & _)%NoDup_app).
  apply orb_false_iff. rewrite bool_decide_eq_true_2 by done. split; [done|].
  apply not_true_is_false. intros (b & Hin & Hs%bool_decide_eq_true)%existsb_exists.
  apply full_content_dom, Hdis in Hs. apply Hs. rewrite elem_of_app. left. apply (list_elem_of_fmap_2 bb_block_id).
  by apply list_elem_of_In.
Qed.

Lemma stage_delivers st r l removed s baseline (i : nat) blocks :
  registered_run st k run = true -> content_ok r -> br_staging r = Some s -> sf_baseline_seq s = baseline ->
  sf_next_batch_seq s = Z.of_nat i -> full baseline !! i = Some blocks -> unique_ids baseline ->
  let st' := fst (stage_batch st k r l removed s baseline (Z.of_nat i) (bool_decide (S i = length (full baseline))) blocks) in
  if bool_decide (S i = length (full baseline)) then awaits_delta st' baseline 0 else awaits_full st' baseline (S i).
Proof using Hshort.
  intros Hreg Hr Hs Hb Hn Hi Hu. unfold stage_batch.
  destruct (co_staging _ Hr _ Hs) as (n & Hn' & Hsf). assert (n = i) as -> by lia. rewrite Hsf, Hb, no_duplicate by done.
  pose proof (lookup_lt_Some _ _ _ Hi) as Hlt. pose proof (Hshort baseline) as Hsh.
  assert (checked_add64 (Z.of_nat i) 1 = Some (Z.of_nat (S i))) as -> by (apply checked_add64_Some; unfold u64_max; lia).
  case_bool_decide as Hf; cbn [negb fst].
  - split; [done|]. eexists _, _. split_and!; [apply lookup_insert_eq|done|done|done].
  - match goal with |- context [if bool_decide (removed = []) then ?x else notify ?x] =>
      assert (awaits_full x baseline (S i)) as Hx; [|by case_bool_decide] end.
    split; [done|]. eexists _, _. split_and!; [apply lookup_insert_eq|done|done|done].
Qed.

Definition send_full (baseline : Z) (st : WorkerManagerState) (i : nat) : WorkerManagerState :=
  fst (receive_full_locked st k run baseline (Z.of_nat i) (bool_decide (S i = length (full baseline))) (full baseline !!! i)).
Definition send_delta (baseline : Z) (st : WorkerManagerState) (n : Z) : WorkerManagerState :=
  fst (apply_delta_locked st k run baseline n (delta baseline n)).

Lemma full_delivers st baseline (i : nat) :
  manager_inv st -> content st -> (i < length (full baseline))%nat -> unique_ids baseline ->
  (i = 0%nat /\ fresh st baseline \/ awaits_full st baseline i) ->
  if bool_decide (S i = length (full baseline)) then awaits_delta (send_full baseline st i) baseline 0
  else awaits_full (send_full baseline st i) baseline (S i).
Proof using Hshort.
  intros Hinv Hc Hlt Hu Hst. unfold send_full. destruct (lookup_lt_is_Some_2 _ _ Hlt) as [blocks Hi].
  rewrite (list_lookup_total_correct _ _ _ Hi). set (final := bool_decide (S i = _)).
  assert (registered_run st k run = true) as Hreg by (by destruct Hst as [[_ []]|[]]).
  unfold receive_full_locked. rewrite Hreg. cbn [negb]. pose proof Hreg as (reg & Hregl & Hrun)%registered_run_true.
  destruct (opened_report_inv st k run reg Hinv Hregl Hrun) as (_ & Hr & Hok).
  assert (content_ok (default (mk_WorkerBlockReportRuntime run None None None) (wm_reports st !! k))) as Hcon.
  { destruct (wm_reports st !! k) as [r|] eqn:E; [by apply Hc|]. by split. }
  rewrite bool_decide_eq_false_2 by (intros Hn; by apply Hn).
  destruct Hst as [[-> [_ Hfresh]]|(_ & r & s & Hl & Hs & Hb & Hn)].
  - assert (forall high, br_baseline_high_watermark (default (mk_WorkerBlockReportRuntime run None None None) (wm_reports st !! k))
      = Some high -> high < baseline) as Hhigh by (destruct (wm_reports st !! k); simpl; [intros high; by apply Hfresh|done]).
    clear Hfresh. set (report := default _ _) in *. clearbody report.
    rewrite bool_decide_eq_false_2; cycle 1.
    { destruct (br_active report) as [a|] eqn:Ha; [|done]. destruct (po_active _ Hok _ Ha) as (_ & E & _).
      specialize (Hhigh _ E). simpl. intros [= ?]. lia. }
    rewrite (bool_decide_eq_false_2 (sf_baseline_seq <$> br_staging report = Some baseline)); cycle 1.
    { destruct (br_staging report) as [s|] eqn:Hs; [|done]. destruct (po_staging _ Hok _ Hs) as (E & _).
      specialize (Hhigh _ E). simpl. intros [= ?]. lia. }
    cbn [negb andb].
    assert (match br_baseline_high_watermark report with Some high => baseline <=? high | None => false end = false) as ->.
    { destruct (br_baseline_high_watermark report) as [h|]; [|done]. specialize (Hhigh _ eq_refl). lia. }
    rewrite bool_decide_eq_false_2 by (intros H; by apply H). cbn [br_staging sf_next_batch_seq]. cbn [Z.of_nat Z.ltb Z.compare].
    apply (stage_delivers _ _ _ _ _ _ 0); try done. split; cbn [br_staging br_active]; [|done]. intros s [= <-]. by exists 0%nat.
  - rewrite Hl in *. unfold id in *. cbn [from_option] in *. rewrite bool_decide_eq_false_2; cycle 1.
    { destruct (br_active r) as [a|] eqn:Ha; [|done]. destruct (po_active _ Hok _ Ha) as (_ & _ & E). congruence. }
    rewrite bool_decide_eq_true_2 by (by rewrite Hs; simpl; congruence). cbn [negb andb]. rewrite Hs, Hn, Z.ltb_irrefl.
    by apply stage_delivers.
Qed.

Lemma delta_delivers st baseline n :
  manager_inv st -> n < u64_max -> NoDup (change_id <$> delta baseline n) -> awaits_delta st baseline n ->
  awaits_delta (send_delta baseline st n) baseline (n + 1).
Proof.
  intros Hinv Hn Hnd (Hreg & r & a & Hr & Ha & Hb & Hnx). unfold send_delta, apply_delta_locked. rewrite Hreg, Hr. cbn [negb].
  destruct (mi_runs _ Hinv _ _ Hr) as (reg & Hregl & Hrun). apply registered_run_true in Hreg as Hreg'.
  destruct Hreg' as (reg' & Hregl' & Hrun'). rewrite bool_decide_eq_false_2 by (intros H; apply H; congruence).
  rewrite Ha, bool_decide_eq_false_2 by (intros H; by apply H). rewrite Hnx, Z.ltb_irrefl.
  assert (checked_add64 n 1 = Some (n + 1)) as -> by (apply checked_add64_Some; lia). rewrite bool_decide_eq_true_2 by done. cbn [negb].
  pose proof (apply_changes_ok k a (wm_locations st) [] [] (delta baseline n) (reported_ready (wm_reports st))) as Hch.
  destruct (foldl _ _ (delta baseline n)) as [[[a' l'] added] removed]. cbn [fst]. destruct Hch as (_ & _ & Hseq & _).
  { by apply (po_active _ (mi_reports _ Hinv _ _ Hr)). }
  { eapply indexes_ext; [by apply (index_split st k r)|]. rewrite Ha. clear. naive_solver. }
  split; [done|]. eexists _, _. split_and!; [apply lookup_insert_eq|done|simpl; congruence|done].
Qed.

Lemma send_full_section baseline st i : (i < length (full baseline))%nat -> honest_section st (send_full baseline st i).
Proof.
  intros [blocks Hi]%lookup_lt_is_Some_2. unfold send_full. rewrite (list_lookup_total_correct _ _ _ Hi). by apply HS_full.
Qed.

(** The first [n] Full batches of a fresh baseline, in order. *)
Lemma fulls_delivered st baseline n :
  rtc honest_section worker_manager_new st -> fresh st baseline -> unique_ids baseline -> (0 < n <= length (full baseline))%nat ->
  let st' := foldl (send_full baseline) st (seq 0 n) in
  rtc honest_section worker_manager_new st' /\
  if bool_decide (n = length (full baseline)) then awaits_delta st' baseline 0 else awaits_full st' baseline n.
Proof using Hshort.
  intros Hst Hf Hu. induction n as [|n IH]; intros Hn; [lia|]. rewrite seq_S, foldl_app. cbn [foldl]. simpl.
  assert (rtc honest_section worker_manager_new (foldl (send_full baseline) st (seq 0 n)) /\
    (n = 0%nat /\ fresh (foldl (send_full baseline) st (seq 0 n)) baseline \/
     awaits_full (foldl (send_full baseline) st (seq 0 n)) baseline n)) as [Hr Hw].
  { destruct n as [|n]; [split; [done|left; done]|]. destruct IH as [Hr Hw]; [lia|]. split; [done|right].
    rewrite bool_decide_eq_false_2 in Hw by lia. done. }
  destruct (honest_reach_ok _ Hr) as [Hinv Hc]. split; [|apply full_delivers; try done; lia].
  eapply rtc_r; [exact Hr|]. apply send_full_section. lia.
Qed.

Lemma deltas_delivered st baseline m :
  rtc honest_section worker_manager_new st -> awaits_delta st baseline 0 -> Z.of_nat m <= u64_max ->
  (forall n, NoDup (change_id <$> delta baseline n)) ->
  let st' := foldl (send_delta baseline) st (seqZ 0 (Z.of_nat m)) in
  rtc honest_section worker_manager_new st' /\ awaits_delta st' baseline (Z.of_nat m).
Proof using Hshort.
  intros Hst Hw Hm Hnd. induction m as [|m IH]; [done|]. rewrite seqZ_S, foldl_app. cbn [foldl]. rewrite Z.add_0_l.
  destruct IH as [Hr Hw']; [lia|]. destruct (honest_reach_ok _ Hr) as [Hinv _]. split.
  - eapply rtc_r; [exact Hr|]. apply HS_delta.
  - rewrite Nat2Z.inj_succ. apply delta_delivers; try done. lia.
Qed.
End protocol.

(** C18. The block report protocol is faithful. Let a process send only the
    Full batches [full b] and Delta batches [delta b] of its baselines, while
    messages get lost, repeated, delayed and reordered and other processes and
    registrations interfere at will. Then the active report the manager holds
    for the process is always some complete baseline followed by exactly the
    Delta batches acknowledged so far. And if a newer baseline and [m] of its
    Delta batches arrive in order, the manager holds exactly that baseline with
    those [m] batches applied. *)
Theorem report_protocol k run full delta st :
  (forall baseline, Z.of_nat (length (full baseline)) < 2 ^ 64) ->
  rtc (honest_section k run full delta) worker_manager_new st ->
  (forall r a, wm_reports st !! k = Some r -> br_worker_run_id r = run -> br_active r = Some a ->
     ab_blocks a = report_content full delta (ab_baseline_seq a) (ab_next_delta_batch_seq a)) /\
  (forall baseline m, fresh k run st baseline -> full baseline <> [] -> unique_ids full baseline ->
     (forall n, NoDup (change_id <$> delta baseline n)) -> Z.of_nat m <= u64_max ->
     let st1 := foldl (send_full k run full baseline) st (seq 0 (length (full baseline))) in
     let st2 := foldl (send_delta k run delta baseline) st1 (seqZ 0 (Z.of_nat m)) in
     exists r a, wm_reports st2 !! k = Some r /\ br_active r = Some a /\ ab_baseline_seq a = baseline /\
       ab_next_delta_batch_seq a = Z.of_nat m /\ ab_blocks a = report_content full delta baseline (Z.of_nat m)).
Proof.
  intros Hshort Hst. destruct (honest_reach_ok k run full delta Hshort st Hst) as [_ Hc]. split.
  - intros r a Hr Hrun Ha. by apply (co_active _ _ _ (Hc r Hr Hrun)).
  - intros baseline m Hf Hne Hu Hnd Hm st1 st2.
    destruct (fulls_delivered k run full delta Hshort st baseline (length (full baseline)) Hst Hf Hu) as [H1 Hw1].
    { destruct (full baseline); [done|simpl; lia]. }
    rewrite bool_decide_eq_true_2 in Hw1 by done.
    destruct (deltas_delivered k run full delta Hshort _ baseline m H1 Hw1 Hm Hnd) as [H2 (Hreg & r & a & Hr & Ha & Hb & Hn)].
    exists r, a. split_and!; try done. destruct (honest_reach_ok k run full delta Hshort _ H2) as [Hinv2 Hc2].
    destruct (mi_runs _ Hinv2 _ _ Hr) as (reg & Hregl & Hrun). apply registered_run_true in Hreg as (reg' & Hregl' & Hrun').
    assert (br_worker_run_id r = run) as Hr' by congruence.
    destruct (co_active _ _ _ (Hc2 r Hr Hr') _ Ha) as [_ E]. congruence.
Qed.

Definition sample_full (baseline : Z) : list (list BlockReportBlock) :=
  if bool_decide (baseline = 2) then [[ready_block]; [corrupt_block]] else [].
Definition sample_delta (baseline n : Z) : list BlockReportChange := [BC_Remove (bb_block_id corrupt_block)].
Definition registered_manager : WorkerManagerState :=
  fst (install_registration worker_manager_new ("g", 7) "http://w7:9000" WORKER_NET_PROTOCOL_GRPC run_1 None).

Lemma report_protocol_witness :
  let st1 := foldl (send_full ("g", 7) run_1 sample_full 2) registered_manager (seq 0 2) in
  let st2 := foldl (send_delta ("g", 7) run_1 sample_delta 2) st1 (seqZ 0 1) in
  exists r a, wm_reports st2 !! ("g", 7) = Some r /\ br_active r = Some a /\
    ab_blocks a = {[bb_block_id ready_block := ready_block]}.
Proof.
  destruct (report_protocol ("g", 7) run_1 sample_full sample_delta registered_manager) as [_ H].
  - intros b. unfold sample_full. case_bool_decide; simpl; lia.
  - apply rtc_once, HS_admin. constructor.
  - destruct (H 2 1%nat) as (r & a & Hr & Ha & _ & _ & Hb).
    + split; [reflexivity|]. intros r high Hr. vm_compute in Hr. done.
    + done.
    + apply (bool_decide_eq_true_1 (unique_ids sample_full 2)). by vm_compute.
    + intros n. apply NoDup_singleton.
    + by vm_compute.
    + exists r, a. split; [exact Hr|]. split; [exact Ha|]. rewrite Hb. vm_compute. reflexivity.
Defined.
