(* ===== verification/WorkersScan.v ===== *)
(** * The cleanup scan over Ready replicas

    Cleanup walks through the replicas of a group page by page while reports keep
    changing. No page is an error, each is bounded and makes progress, and a
    replica that stays Ready during the whole scan is on one of its pages. *)

From S2P Require Import Prelude Types Errors Inode Mount Store Session SessionInv Placement Workers WorkersInv WorkersProps.
Local Open Scope Z_scope.

(** ** Block order *)

Lemma block_key_inj a b : block_key a = block_key b -> a = b.
Proof. destruct a, b. unfold block_key. simpl. by intros [= -> ->]. Qed.

Lemma block_lt_irrefl a : block_lt a a = false.
Proof. unfold block_lt. by rewrite lex_le_refl. Qed.

Lemma block_not_lt a b : block_lt a b = false <-> lex_le (block_key b) (block_key a) = true.
Proof. unfold block_lt. by rewrite negb_false_iff. Qed.

Lemma block_lt_le a b : block_lt a b = true -> lex_le (block_key a) (block_key b) = true.
Proof. unfold block_lt. intros H%negb_true_iff. destruct (lex_le_total (block_key a) (block_key b)); [done|congruence]. Qed.

Lemma block_le_lt a b : lex_le (block_key a) (block_key b) = true -> a <> b -> block_lt a b = true.
Proof.
  intros H Hne. unfold block_lt. apply negb_true_iff, not_true_is_false. intros H'. apply Hne, block_key_inj. by apply lex_le_antisym.
Qed.

Lemma block_lt_trans a b c : block_lt a b = true -> block_lt b c = true -> block_lt a c = true.
Proof.
  intros H1 H2. apply block_le_lt; [eapply lex_le_trans; by apply block_lt_le|]. intros ->.
  apply block_lt_le in H2. unfold block_lt in H1. by rewrite H2 in H1.
Qed.

Lemma sorted_blocks_lt s : StronglySorted (fun a b => block_lt a b = true) (sorted_blocks s).
Proof.
  assert (NoDup (sorted_blocks s)) as Hnd by (unfold sorted_blocks; rewrite sort_by_key_perm; apply NoDup_elements).
  pose proof (sort_by_key_sorted block_key (elements s)) as Hs. fold (sorted_blocks s) in Hs.
  induction Hs as [|a l Hs IH Ha]; [constructor|]. apply NoDup_cons in Hnd as [Hn Hnd]. constructor; [by apply IH|].
  rewrite Forall_forall in Ha |- *. intros b Hb. apply block_le_lt; [by apply Ha|]. intros ->. done.
Qed.

Lemma sorted_filter {A} (R : A -> A -> Prop) (P : A -> Prop) `{!forall x, Decision (P x)} l :
  StronglySorted R l -> StronglySorted R (filter P l).
Proof.
  induction 1 as [|a l _ IH Ha]; [constructor|]. rewrite filter_cons. case_decide; [|done]. constructor; [done|].
  rewrite Forall_forall in Ha |- *. intros x [_ Hx]%list_elem_of_filter. by apply Ha.
Qed.

Lemma ready_range_sorted active after e : StronglySorted (fun a b => block_lt a b = true) (ready_range active after e).
Proof. apply sorted_filter, sorted_blocks_lt. Qed.

Lemma elem_of_ready_range active after e id :
  id ∈ ready_range active after e <->
  id ∈ ab_ready_blocks active /\ match after with Some a => block_lt a id = true | None => True end /\ block_lt e id = false.
Proof.
  unfold ready_range. rewrite list_elem_of_filter, elem_of_sorted_blocks, andb_true_iff, negb_true_iff. destruct after; naive_solver.
Qed.

Lemma last_sorted {A} (R : A -> A -> Prop) l e :
  StronglySorted R l -> last l = Some e -> forall x, x ∈ l -> x = e \/ R x e.
Proof.
  induction 1 as [|a l Hs IH Ha]; intros He x Hx; [by apply elem_of_nil in Hx|]. destruct l as [|b l].
  - simpl in He. injection He as ->. apply list_elem_of_singleton in Hx. by left.
  - rewrite last_cons_cons in He. apply elem_of_cons in Hx as [->|Hx]; [|by apply IH].
    right. rewrite Forall_forall in Ha. apply Ha. rewrite last_Some in He. destruct He as [l' He]. rewrite He. set_solver.
Qed.

(** ** One page *)

(** [cursor] has not passed block [id] of [worker]. *)
Definition ahead (cursor : option ReadyReplicaCursor) (worker : WorkerId) (id : BlockId) : Prop :=
  match cursor with
  | None => True
  | Some c => rc_worker_id c < worker \/
      (rc_worker_id c = worker /\ exists b e, rc_block_id c = Some b /\ rc_worker_end_block_id c = Some e /\
         block_lt b id = true /\ block_lt e id = false)
  end.

(** A cursor as pages return it: between two workers, or inside one. *)
Definition cursor_ok (cursor : option ReadyReplicaCursor) : Prop :=
  match cursor with
  | None => True
  | Some c => 0 <= rc_worker_id c /\
      match rc_block_id c with
      | None => True
      | Some b => exists e, rc_worker_end_block_id c = Some e /\ block_lt b e = true
      end
  end.

(** [next] is strictly after [cursor]. *)
Definition advances (cursor : option ReadyReplicaCursor) (next : ReadyReplicaCursor) : Prop :=
  match cursor with
  | None => True
  | Some c => rc_worker_id c < rc_worker_id next \/
      (rc_worker_id c = rc_worker_id next /\ exists b, rc_block_id c = Some b /\
         match rc_block_id next with None => True | Some b' => block_lt b b' = true end)
  end.

Section page_proofs.
Context (st : WorkerManagerState) (group : GroupName) (cursor : option ReadyReplicaCursor) (scan_end : WorkerId) (limit : Z).
Context (Hinv : manager_inv st) (Hcur : cursor_ok cursor).

(** Where a page may stop inside a worker: [post] is what it leaves. *)
Definition stops (worker : WorkerId) (worker_end : BlockId) (pre post : list BlockId) (next : option ReadyReplicaCursor) : Prop :=
  (post = [] /\ worker = scan_end /\ next = None) \/ (post = [] /\ next = Some (passed_worker worker)) \/
  (exists id, last pre = Some id /\ id <> worker_end /\ next = Some (mk_ReadyReplicaCursor worker (Some id) (Some worker_end))).

Lemma page_blocks_spec worker run active e ids replicas visited :
  active_ok active -> (forall id, id ∈ ids -> id ∈ ab_ready_blocks active) ->
  StronglySorted (fun a b => block_lt a b = true) ids -> (forall id, id ∈ ids -> block_lt e id = false) -> visited < limit ->
  exists r, page_blocks group scan_end limit worker run active e ids replicas visited = Ok r /\
  match r with
  | inr (replicas', visited') =>
      replicas' = replicas ++ (mk_ReplicaKey group worker run <$> ids) /\
      visited' = visited + Z.of_nat (length ids) /\ visited' < limit
  | inl page => exists pre post, ids = pre ++ post /\ pg_replicas page = replicas ++ (mk_ReplicaKey group worker run <$> pre) /\
      visited + Z.of_nat (length pre) <= limit /\ stops worker e pre post (pg_next_cursor page)
  end.
Proof using.
  clear Hinv Hcur.
  intros Ha Hids Hs He. revert replicas visited. induction Hs as [|id ids Hs IH Hlt]; intros replicas visited Hv; simpl.
  { eexists. split; [done|]. split; [by rewrite app_nil_r|lia]. }
  destruct (ao_ready _ Ha id) as [Hr _]. destruct Hr as (block & Hb & Hstate); [apply Hids; by left|]. rewrite Hb.
  rewrite (bool_decide_eq_false_2 (bb_block_state block <> BR_Ready)) by (intros H; by apply H). simpl. case_bool_decide as Hide.
  - assert (ids = []) as ->.
    { destruct ids as [|x ids]; [done|]. rewrite Forall_cons in Hlt. destruct Hlt as [Hlt _]. subst id.
      rewrite (He x) in Hlt by set_solver. done. }
    case_bool_decide; [|case_bool_decide]; eexists; (split; [done|]); simpl.
    + exists [id], []. split_and!; try done; [simpl; lia|]. by left.
    + exists [id], []. split_and!; try done; [simpl; lia|]. right. by left.
    + split_and!; [done|simpl; lia..].
  - case_bool_decide as Hlim.
    + eexists. split; [done|]. exists [id], ids. split_and!; try done; [simpl; lia|]. right. right. exists id. done.
    + destruct (IH (fun x Hx => Hids x (list_elem_of_further _ _ _ Hx)) (fun x Hx => He x (list_elem_of_further _ _ _ Hx))
        (replicas ++ [mk_ReplicaKey group worker run id]) (visited + 1)) as (r & -> & Hr); [lia|].
      exists r. split; [done|]. destruct r as [page|[r' v']].
      * destruct Hr as (pre & post & -> & Hp & Hl & Hst). exists (id :: pre), post. rewrite <- app_assoc in Hp. split_and!; try done; [simpl; lia|].
        destruct Hst as [?|[?|(y & Hy & ?)]]; [by left|by right; left|]. right. right. exists y. split; [|done].
        destruct pre as [|z pre]; [done|]. by rewrite last_cons_cons.
      * destruct Hr as (-> & -> & ?). rewrite <- app_assoc. simpl. split_and!; [done|lia..].
Qed.

(** The cursor's position inside [worker], if it is there. *)
Definition cursor_at (worker : WorkerId) : option ReadyReplicaCursor :=
  if match cursor with Some c => bool_decide (rc_worker_id c = worker) | None => false end then cursor else None.

Definition passed (worker : WorkerId) : Prop :=
  exists c, cursor = Some c /\ rc_worker_id c = worker /\ rc_block_id c = None.

(** The last block of [worker] that belongs to this scan. *)
Definition end_of (worker : WorkerId) (active : ActiveBlockReport) : option BlockId :=
  match cursor_at worker ≫= rc_worker_end_block_id with
  | Some id => Some id
  | None => last (sorted_blocks (ab_ready_blocks active))
  end.

(** [id] is left for this scan in the report of [worker]. *)
Definition todo (worker : WorkerId) (report : WorkerBlockReportRuntime) (id : BlockId) : Prop :=
  ~ passed worker /\ registered_run st (group, worker) (br_worker_run_id report) = true /\
  exists active e, br_active report = Some active /\ end_of worker active = Some e /\
    id ∈ ready_range active (cursor_at worker ≫= rc_block_id) e.

Definition emitted (worker : WorkerId) (report : WorkerBlockReportRuntime) (id : BlockId) : ReplicaKey :=
  mk_ReplicaKey group worker (br_worker_run_id report) id.

Lemma passed_spec worker :
  match cursor with Some c => bool_decide (rc_worker_id c = worker /\ rc_block_id c = None) | None => false end = true <-> passed worker.
Proof. unfold passed. destruct cursor as [c|]; [rewrite bool_decide_eq_true|]; naive_solver. Qed.

(** What one worker does to a page: it adds the blocks [ids] and goes on, or it
    closes the page after some of them. *)
Definition closes (worker : WorkerId) (report : WorkerBlockReportRuntime) (replicas : list ReplicaKey) (ids : list BlockId)
    (page : ReadyReplicaPage) : Prop :=
  ~ passed worker /\ exists pre post e, ids = pre ++ post /\
    pg_replicas page = replicas ++ (emitted worker report <$> pre) /\
    Z.of_nat (length (pg_replicas page)) <= limit /\ stops worker e pre post (pg_next_cursor page) /\
    StronglySorted (fun a b => block_lt a b = true) ids /\ (forall id, id ∈ ids -> block_lt e id = false).

Definition outcome (worker : WorkerId) (report : WorkerBlockReportRuntime) (replicas : list ReplicaKey) (ids : list BlockId)
    (r : ReadyReplicaPage + (list ReplicaKey * Z)) : Prop :=
  match r with
  | inr (replicas', visited') =>
      replicas' = replicas ++ (emitted worker report <$> ids) /\ Z.of_nat (length replicas') <= visited' < limit
  | inl page => closes worker report replicas ids page
  end.

(** A worker without anything to emit. *)
Lemma empty_outcome worker report replicas visited r :
  ~ passed worker -> visited < limit -> Z.of_nat (length replicas) <= visited ->
  (if bool_decide (worker = scan_end) then inl (mk_ReadyReplicaPage replicas None)
   else if bool_decide (visited + 1 = limit) then inl (mk_ReadyReplicaPage replicas (Some (passed_worker worker)))
   else inr (replicas, visited + 1)) = r -> outcome worker report replicas [] r.
Proof using.
  clear Hinv Hcur.
  intros Hp Hv Hl <-. case_bool_decide; [|case_bool_decide]; simpl.
  - split; [done|]. exists [], [], (mk_BlockId 0 0). simpl. rewrite app_nil_r.
    split_and!; [done|done|lia|by left|constructor|set_solver].
  - split; [done|]. exists [], [], (mk_BlockId 0 0). simpl. rewrite app_nil_r.
    split_and!; [done|done|lia|by right; left|constructor|set_solver].
  - rewrite app_nil_r. split; [done|lia].
Qed.

Lemma end_of_some worker active : ab_ready_blocks active <> ∅ -> is_Some (end_of worker active).
Proof using.
  clear Hinv Hcur.
  intros Hact. unfold end_of. destruct (_ ≫= _); [done|]. destruct (last _) as [e|] eqn:Hl; [done|]. apply last_None in Hl.
  destruct Hact. apply elem_of_equiv_empty_L. intros x. rewrite <- elem_of_sorted_blocks, Hl. set_solver.
Qed.

Lemma range_not_empty worker active e :
  end_of worker active = Some e ->
  match cursor_at worker ≫= rc_block_id with Some id => negb (block_lt e id) | None => true end = true.
Proof using Hcur.
  unfold end_of, cursor_at. destruct cursor as [c|]; [|done]. case_bool_decide; [|done]. simpl in *. intros He.
  destruct Hcur as [_ Hc]. destruct (rc_block_id c) as [b|]; [|done]. destruct Hc as (e' & Hc & Hlt). rewrite Hc in He. injection He as ->.
  apply negb_true_iff, block_not_lt. by apply block_lt_le.
Qed.

Lemma page_worker_spec worker report replicas visited :
  report_ok report -> visited < limit -> Z.of_nat (length replicas) <= visited ->
  exists r ids, page_worker st group cursor scan_end limit worker report replicas visited = Ok r /\
  (forall id, id ∈ ids <-> todo worker report id) /\ outcome worker report replicas ids r.
Proof using Hcur.
  clear Hinv.
  intros Hok Hv Hlen. unfold page_worker.
  destruct (match cursor with Some c => bool_decide (_ /\ _) | None => false end) eqn:Hp.
  { apply passed_spec in Hp. eexists _, []. split; [done|]. split; [|simpl; rewrite app_nil_r; done].
    intros id. split; [set_solver|]. by intros [? _]. }
  assert (~ passed worker) as Hnp by (rewrite <- passed_spec; congruence). clear Hp.
  destruct (_ || _) eqn:Hskip.
  { eexists _, []. split; [|split; [|by apply (empty_outcome worker report replicas visited)]].
    - by case_bool_decide; [|case_bool_decide].
    - intros id. split; [set_solver|]. intros (_ & Hreg & active & e & Ha & _ & (Hid & _)%elem_of_ready_range).
      rewrite Hreg, Ha in Hskip. simpl in Hskip. apply bool_decide_eq_true in Hskip. set_solver. }
  apply orb_false_iff in Hskip as [Hreg%negb_false_iff Hact]. destruct (br_active report) as [active|] eqn:Ha; [|done].
  apply bool_decide_eq_false in Hact. destruct (po_active _ Hok _ Ha) as (Haok & _ & _). simpl.
  fold (cursor_at worker). fold (end_of worker active). destruct (end_of_some worker active Hact) as [e He]. rewrite He. simpl.
  rewrite (range_not_empty worker active e He). simpl. set (ids := ready_range active (cursor_at worker ≫= rc_block_id) e).
  assert (forall id, id ∈ ids <-> todo worker report id) as Htodo.
  { intros id. unfold todo. split; [naive_solver|]. intros (_ & _ & a' & e' & Ha' & He' & H).
    assert (a' = active) as -> by congruence. assert (e' = e) as -> by congruence. exact H. }
  assert (forall id, id ∈ ids -> id ∈ ab_ready_blocks active /\ block_lt e id = false) as Hids.
  { intros id (? & _ & ?)%elem_of_ready_range. done. }
  destruct (page_blocks_spec worker (br_worker_run_id report) active e ids replicas visited) as (r & -> & Hr);
    [done|intros; by apply Hids|apply ready_range_sorted|intros; by apply Hids|done|]. simpl.
  assert (StronglySorted (fun a b => block_lt a b = true) ids) as Hsort by apply ready_range_sorted. clearbody ids.
  destruct r as [page|[reps' v']].
  - exists (inl page), ids. split; [done|]. split; [done|]. split; [done|]. destruct Hr as (pre & post & E & Hpg & Hl & Hst).
    exists pre, post, e. split_and!; try done; [|intros; by apply Hids]. rewrite Hpg, length_app, length_fmap. lia.
  - destruct Hr as (-> & -> & Hlim). rewrite length_app, length_fmap. destruct ids as [|id ids].
    + rewrite bool_decide_eq_true_2 by (simpl; lia). eexists _, []. split; [|split; [done|by apply (empty_outcome worker report replicas visited)]].
      simpl. rewrite Z.add_0_r, app_nil_r. by case_bool_decide; case_bool_decide.
    + rewrite bool_decide_eq_false_2 by (simpl; lia). cbn [andb]. case_bool_decide.
      * eexists _, _. split; [done|]. split; [done|]. split; [done|]. exists (id :: ids), [], e.
        split_and!; [by rewrite app_nil_r|done| |by left|done|intros; by apply Hids].
        cbn [pg_replicas]. rewrite length_app, length_fmap. lia.
      * eexists _, _. split; [done|]. split; [done|]. split; [done|]. rewrite length_app, length_fmap. lia.
Qed.

(** What the worker at hand leaves is ahead of the cursor the page returns. *)
Lemma closes_ahead worker report replicas ids page id :
  closes worker report replicas ids page -> id ∈ ids ->
  emitted worker report id ∈ pg_replicas page \/
  exists c, pg_next_cursor page = Some c /\ ahead (Some c) worker id.
Proof using.
  clear Hinv Hcur.
  intros (_ & pre & post & e & -> & Hpg & _ & Hst & Hs & He) Hid. rewrite Hpg, elem_of_app. apply elem_of_app in Hid as [Hid|Hid].
  { left. right. by apply (list_elem_of_fmap_2 (emitted worker report)). }
  right. destruct Hst as [(-> & _)|[(-> & _)|(x & Hx & Hxe & Hn)]]; [set_solver..|]. eexists. split; [exact Hn|]. right. split; [done|].
  exists x, e. split_and!; [done|done| |apply He; set_solver]. apply last_Some in Hx as [l ->]. rewrite <- app_assoc in Hs.
  clear -Hs Hid. induction l as [|y l IH]; simpl in Hs.
  - apply StronglySorted_inv in Hs as [_ Hs]. rewrite Forall_forall in Hs. by apply Hs.
  - apply StronglySorted_inv in Hs as [Hs _]. by apply IH.
Qed.

Lemma closes_cursor worker report replicas ids page c :
  closes worker report replicas ids page -> (forall id, id ∈ ids -> todo worker report id) -> 0 <= worker ->
  (forall c0, cursor = Some c0 -> rc_worker_id c0 <= worker) ->
  pg_next_cursor page = Some c ->
  rc_worker_id c = worker /\ (forall b, rc_block_id c = Some b -> todo worker report b) /\ cursor_ok (Some c) /\ advances cursor c.
Proof using.
  clear Hinv Hcur.
  intros (Hnp & pre & post & e & -> & _ & _ & Hst & Hs & He) Htodo H0 Hle Hc.
  assert (rc_block_id c = None \/ exists x, x ∈ pre /\ x <> e /\ rc_block_id c = Some x /\ rc_worker_end_block_id c = Some e) as Hb.
  { destruct Hst as [(_ & _ & E)|[(_ & E)|(x & Hx & Hxe & E)]]; rewrite E in Hc; [done|injection Hc as <-; by left|].
    injection Hc as <-. right. exists x. apply last_Some in Hx as [l ->]. set_solver. }
  assert (rc_worker_id c = worker) as Hw.
  { destruct Hst as [(_ & _ & E)|[(_ & E)|(x & _ & _ & E)]]; rewrite E in Hc; by simplify_eq. }
  split; [done|]. split; [intros b Hcb; apply Htodo; destruct Hb as [?|(x & ? & _ & ? & _)]; simplify_eq; set_solver|]. split.
  - split; [lia|]. destruct Hb as [->|(x & Hx & Hxe & -> & ->)]; [done|]. eexists. split; [done|].
    apply block_le_lt; [|done]. apply block_not_lt, He. set_solver.
  - unfold advances. destruct cursor as [c0|] eqn:Ecur; [|done]. specialize (Hle _ eq_refl). rewrite Hw.
    destruct (decide (rc_worker_id c0 = worker)) as [E|]; [right|left; lia]. split; [done|].
    destruct (rc_block_id c0) as [b|] eqn:Eb; [|by destruct Hnp; exists c0]. exists b. split; [done|].
    destruct Hb as [->|(x & Hx & _ & -> & _)]; [done|]. destruct (Htodo x) as (_ & _ & a & e' & _ & _ & Hr); [set_solver|].
    apply elem_of_ready_range in Hr as (_ & Hr & _). unfold cursor_at in Hr. rewrite Ecur, bool_decide_eq_true_2 in Hr by done.
    simpl in Hr. by rewrite Eb in Hr.
Qed.

Definition page_ok (ws : list (WorkerId * WorkerBlockReportRuntime)) (replicas : list ReplicaKey) (page : ReadyReplicaPage) : Prop :=
  Z.of_nat (length (pg_replicas page)) <= limit /\
  (forall x, x ∈ replicas -> x ∈ pg_replicas page) /\
  (forall w r id, (w, r) ∈ ws -> w <= scan_end -> todo w r id ->
     emitted w r id ∈ pg_replicas page \/ exists c, pg_next_cursor page = Some c /\ ahead (Some c) w id) /\
  (forall x, x ∈ pg_replicas page -> x ∈ replicas \/ exists w r id, (w, r) ∈ ws /\ todo w r id /\ x = emitted w r id) /\
  (forall c, pg_next_cursor page = Some c -> cursor_ok (Some c) /\ advances cursor c /\
     exists w r, (w, r) ∈ ws /\ rc_worker_id c = w /\ forall b, rc_block_id c = Some b -> todo w r b).

Lemma closed_page_ok w r ws replicas ids page :
  closes w r replicas ids page -> (forall id, id ∈ ids <-> todo w r id) -> 0 <= w ->
  (forall c0, cursor = Some c0 -> rc_worker_id c0 <= w) -> Forall (fun e => w < e.1) ws ->
  page_ok ((w, r) :: ws) replicas page.
Proof using.
  clear Hinv Hcur.
  intros Hcl Hids H0 Hle Hlt. assert (forall id, id ∈ ids -> todo w r id) as Hids1 by (intros; by apply Hids).
  pose proof Hcl as (_ & pre & post & e & E & Hpg & Hlen & Hst & _). split_and!; [done| | | |].
  - intros x Hx. rewrite Hpg. set_solver.
  - intros w' r' id [[= -> ->]|Hin]%elem_of_cons Hend Ht; [eapply closes_ahead; [exact Hcl|by apply Hids]|].
    right. rewrite Forall_forall in Hlt. specialize (Hlt _ Hin). simpl in Hlt.
    destruct (pg_next_cursor page) as [c|] eqn:Hn.
    + exists c. split; [done|]. left. destruct (closes_cursor _ _ _ _ _ _ Hcl Hids1 H0 Hle Hn) as [-> _]. done.
    + destruct Hst as [(_ & -> & _)|[(_ & ?)|(x & _ & _ & ?)]]; [lia|done..].
  - intros x. rewrite Hpg, elem_of_app. intros [Hx|(id & -> & Hid)%list_elem_of_fmap]; [by left|]. right.
    exists w, r, id. split; [by left|]. split; [|done]. apply Hids. set_solver.
  - intros c Hc. destruct (closes_cursor _ _ _ _ _ _ Hcl Hids1 H0 Hle Hc) as (? & ? & ? & ?). split_and!; try done. exists w, r. set_solver.
Qed.

Lemma page_workers_spec ws replicas visited :
  StronglySorted (fun a b => a.1 < b.1) ws ->
  Forall (fun e => report_ok e.2 /\ 0 <= e.1 /\ forall c0, cursor = Some c0 -> rc_worker_id c0 <= e.1) ws ->
  visited < limit -> Z.of_nat (length replicas) <= visited ->
  exists page, page_workers st group cursor scan_end limit ws replicas visited = Ok page /\ page_ok ws replicas page.
Proof using Hcur.
  clear Hinv.
  intros Hs Hws. revert replicas visited. induction Hs as [|[w r] ws Hs IH Hlt]; intros replicas visited Hv Hl; simpl.
  { eexists. split; [done|]. split_and!; simpl; [lia|done|set_solver|by left|done]. }
  apply Forall_cons in Hws as [(Hok & H0 & Hle) Hws]. simpl in Hok, H0, Hle, Hlt.
  destruct (Z.ltb_spec scan_end w).
  { eexists. split; [done|]. split_and!; simpl; [lia|done| |by left|done].
    intros w' r' id [[= -> ->]|Hin]%elem_of_cons Hend; [lia|]. rewrite Forall_forall in Hlt. specialize (Hlt _ Hin). simpl in Hlt. lia. }
  destruct (page_worker_spec w r replicas visited Hok Hv Hl) as (x & ids & -> & Hids & Hx). simpl.
  destruct x as [page|[reps' v']]; simpl in Hx.
  - exists page. split; [done|]. by eapply closed_page_ok.
  - destruct Hx as (-> & Hv'). destruct (IH Hws (replicas ++ (emitted w r <$> ids)) v') as (page & -> & H1 & H2 & H3 & H4 & H5); [lia..|].
    exists page. split; [done|]. split_and!; try done.
    + intros y Hy. apply H2. set_solver.
    + intros w' r' id [[= -> ->]|Hin]%elem_of_cons Hend Ht; [|by apply H3]. left. apply H2, elem_of_app. right.
      apply (list_elem_of_fmap_2 (emitted w r)). by apply Hids.
    + intros y [[Hy|(id & -> & Hid)%list_elem_of_fmap]%elem_of_app|(w' & r' & id & Hin & ? & ?)]%H4; [by left|right..].
      * exists w, r, id. split; [by left|]. split; [by apply Hids|done].
      * exists w', r', id. split; [by right|done].
    + intros c (? & ? & w' & r' & Hin & ?)%H5. split_and!; try done. exists w', r'. split; [by right|done].
Qed.
End page_proofs.

(** ** Pages against the manager's state *)

Lemma elem_of_reports_from st g start w r :
  (w, r) ∈ reports_from st g start <-> wm_reports st !! (g, w) = Some r /\ start <= w.
Proof.
  unfold reports_from. rewrite sort_by_key_perm, list_elem_of_fmap. split.
  - intros ([[kg kw] r'] & [= -> ->] & [[Hg Hs] Hin%elem_of_map_to_list]%list_elem_of_filter). simpl in *. by subst.
  - intros [Hr Hs]. exists ((g, w), r). split; [done|]. apply list_elem_of_filter. split; [done|]. by apply elem_of_map_to_list.
Qed.

Lemma reports_from_sorted st g start : StronglySorted (fun a b => a.1 < b.1) (reports_from st g start).
Proof.
  assert (NoDup (fst <$> reports_from st g start)) as Hnd.
  { unfold reports_from. rewrite sort_by_key_perm, <- list_fmap_compose. apply NoDup_fmap_2_strong.
    - intros [[g1 w1] r1] [[g2 w2] r2] [[Hg1 _] H1%elem_of_map_to_list]%list_elem_of_filter
        [[Hg2 _] H2%elem_of_map_to_list]%list_elem_of_filter E. simpl in *. subst. congruence.
    - apply NoDup_filter, NoDup_map_to_list. }
  pose proof (sort_by_key_sorted (fun e : WorkerId * WorkerBlockReportRuntime => [e.1])
    ((fun e => (e.1.2, e.2)) <$> filter (fun e => e.1.1 = g /\ start <= e.1.2) (map_to_list (wm_reports st)))) as Hs.
  fold (reports_from st g start) in Hs. induction Hs as [|a l Hs IH Ha]; [constructor|]. apply NoDup_cons in Hnd as [Hn Hnd].
  constructor; [by apply IH|]. rewrite Forall_forall in Ha |- *. intros b Hb. specialize (Ha b Hb). apply lex_le_cons in Ha as [?|[E _]]; [done|].
  destruct Hn. rewrite E. by apply (list_elem_of_fmap_2 fst).
Qed.

(** Worker ids are unsigned. *)
Definition worker_ids_ok (st : WorkerManagerState) : Prop := forall key r, wm_reports st !! key = Some r -> 0 <= key.2.

Section pages.
Context (st : WorkerManagerState) (g : GroupName) (cursor : option ReadyReplicaCursor).
Context (Hinv : manager_inv st) (Hcur : cursor_ok cursor).

Lemma todo_current w r id :
  wm_reports st !! (g, w) = Some r -> todo st g cursor w r id -> is_current_ready_replica st (emitted g w r id) = true.
Proof using Hinv.
  intros Hr (_ & Hreg & a & e & Ha & _ & (Hid & _)%elem_of_ready_range). unfold is_current_ready_replica. simpl.
  apply registered_run_true in Hreg as (reg & -> & E). rewrite Hr, Ha, E, !bool_decide_eq_true_2; [done| |done..].
  apply (ao_ready _ (proj1 (po_active _ (mi_reports _ Hinv _ _ Hr) _ Ha))) in Hid as (b & -> & Hs). simpl. by rewrite Hs.
Qed.

Lemma current_todo w run id :
  is_current_ready_replica st (mk_ReplicaKey g w run id) = true -> ahead cursor w id ->
  exists r, wm_reports st !! (g, w) = Some r /\ br_worker_run_id r = run /\ todo st g cursor w r id.
Proof using Hinv.
  clear Hcur.
  unfold is_current_ready_replica. simpl. intros H Hah. destruct (wm_registrations st !! (g, w)) as [reg|] eqn:Hreg; [|done].
  destruct (wm_reports st !! (g, w)) as [r|] eqn:Hr; [|done]. destruct (br_active r) as [a|] eqn:Ha; [|by rewrite andb_false_r in H].
  bool_prop. exists r. split; [done|]. split; [done|].
  destruct (po_active _ (mi_reports _ Hinv _ _ Hr) _ Ha) as (Haok & _ & _).
  assert (id ∈ ab_ready_blocks a) as Hid.
  { apply (ao_ready _ Haok). destruct (ab_blocks a !! id) as [b|]; [|done]. simplify_eq/=. eauto. }
  split; [|split].
  - intros (c & -> & E & Eb). destruct Hah as [?|(_ & b & e & Eb' & _)]; [lia|congruence].
  - unfold registered_run. rewrite Hreg. apply bool_decide_eq_true. congruence.
  - destruct (end_of_some cursor w a) as [e He]; [set_solver|]. exists a, e. split_and!; try done. apply elem_of_ready_range.
    split; [done|]. unfold end_of, cursor_at, ahead in *. destruct cursor as [c|]; simpl in *.
    + case_bool_decide as Hw; simpl in *.
      * destruct Hah as [?|(_ & b & e' & Hb & He' & ? & ?)]; [lia|]. rewrite He' in He. rewrite Hb. by simplify_eq.
      * split; [done|]. destruct (last_sorted _ _ _ (sorted_blocks_lt _) He id) as [->|Hlt]; [by apply elem_of_sorted_blocks|apply block_lt_irrefl|].
        by apply block_not_lt, block_lt_le.
    + split; [done|]. destruct (last_sorted _ _ _ (sorted_blocks_lt _) He id) as [->|Hlt]; [by apply elem_of_sorted_blocks|apply block_lt_irrefl|].
      by apply block_not_lt, block_lt_le.
Qed.

(** A page is never an error; it is bounded, sound and advances, and what it
    leaves out is ahead of the cursor it returns. *)
Lemma list_page_spec scan_end limit :
  worker_ids_ok st -> 0 < limit ->
  exists page, list_ready_replica_page st g cursor scan_end limit = Ok page /\
    Z.of_nat (length (pg_replicas page)) <= limit /\
    (forall w run id, is_current_ready_replica st (mk_ReplicaKey g w run id) = true -> w <= scan_end -> ahead cursor w id ->
       mk_ReplicaKey g w run id ∈ pg_replicas page \/ exists c, pg_next_cursor page = Some c /\ ahead (Some c) w id) /\
    (forall x, x ∈ pg_replicas page -> rk_group_name x = g /\ is_current_ready_replica st x = true) /\
    (forall c, pg_next_cursor page = Some c -> cursor_ok (Some c) /\ advances cursor c /\
       exists r, wm_reports st !! (g, rc_worker_id c) = Some r /\
         forall b, rc_block_id c = Some b -> todo st g cursor (rc_worker_id c) r b).
Proof using Hinv Hcur.
  intros Hids Hlim. unfold list_ready_replica_page. rewrite (proj2 (Z.eqb_neq limit 0)) by lia. simpl.
  destruct (match cursor with Some c => _ || _ | None => _ end) eqn:Hdone.
  { eexists. split; [done|]. simpl. split_and!; [lia| |set_solver|done]. intros w run id _ Hw Hah. destruct cursor as [c|]; [|done].
    apply orb_true_iff in Hdone as [?%Z.ltb_lt|[? E]%bool_decide_eq_true]; destruct Hah as [?|(? & b & e & ? & _)]; try lia. congruence. }
  assert (match cursor with Some c => bool_decide (is_Some (rc_block_id c) /\ rc_worker_end_block_id c = None) | None => false end = false) as ->.
  { destruct cursor as [c|]; [|done]. apply bool_decide_eq_false. intros [[b Hb] He]. destruct Hcur as [_ Hc]. rewrite Hb in Hc.
    destruct Hc as (e & ? & _). congruence. }
  simpl. set (start := match cursor with Some c => rc_worker_id c | None => 0 end).
  assert (forall c0, cursor = Some c0 -> start = rc_worker_id c0) as Hstart by (by intros c0 E; unfold start; rewrite E).
  destruct (page_workers_spec st g cursor scan_end limit Hcur (reports_from st g start) [] 0) as (page & -> & H1 & _ & H3 & H4 & H5);
    [apply reports_from_sorted| |lia|simpl; lia|].
  { apply Forall_forall. intros [w r] [Hr Hs]%elem_of_reports_from. simpl. split_and!; [by apply (mi_reports _ Hinv (g, w))|by apply (Hids (g, w) r)|].
    intros c0 E. rewrite <- (Hstart _ E). done. }
  exists page. split; [done|]. split_and!; [done| | |].
  - intros w run id Hc Hw Hah. destruct (current_todo w run id Hc Hah) as (r & Hr & <- & Ht). apply (H3 w r id); try done.
    apply elem_of_reports_from. split; [done|]. unfold start. destruct cursor as [c|]; [|by apply (Hids (g, w) r)].
    destruct Hah as [?|[? _]]; lia.
  - intros x [?|(w & r & id & [Hr _]%elem_of_reports_from & Ht & ->)]%H4; [set_solver|]. split; [done|]. by apply todo_current.
  - intros c (? & ? & w & r & [Hr _]%elem_of_reports_from & <- & ?)%H5. split; [done|]. split; [done|]. eauto.
Qed.
End pages.

(** ** Whole scans *)

(** A scan: each page is taken from the state the manager has by then, starting at
    the cursor the page before returned, until a page returns none. *)
Inductive scan (g : GroupName) (scan_end : WorkerId) (limit : Z)
  : option ReadyReplicaCursor -> list WorkerManagerState -> list ReplicaKey -> Prop :=
| scan_last st cursor page :
    list_ready_replica_page st g cursor scan_end limit = Ok page -> pg_next_cursor page = None ->
    scan g scan_end limit cursor [st] (pg_replicas page)
| scan_more st cursor page c sts replicas :
    list_ready_replica_page st g cursor scan_end limit = Ok page -> pg_next_cursor page = Some c ->
    scan g scan_end limit (Some c) sts replicas ->
    scan g scan_end limit cursor (st :: sts) (pg_replicas page ++ replicas).

Lemma scan_finds g scan_end limit cursor sts replicas x :
  0 < limit -> scan g scan_end limit cursor sts replicas -> cursor_ok cursor ->
  Forall (fun st => manager_inv st /\ worker_ids_ok st /\ is_current_ready_replica st x = true) sts ->
  rk_group_name x = g -> rk_worker_id x <= scan_end -> ahead cursor (rk_worker_id x) (rk_block_id x) -> x ∈ replicas.
Proof.
  intros Hlim Hscan. induction Hscan as [st cursor page Hp Hn|st cursor page c sts reps Hp Hn Hscan IH]; intros Hok Hall Hg Hw Hah;
    apply Forall_cons in Hall as [(Hinv & Hids & Hc) Hall];
    destruct (list_page_spec st g cursor Hinv Hok scan_end limit Hids Hlim) as (page' & Hp' & _ & Hfind & _ & Hnext);
    (assert (page' = page) as -> by congruence);
    destruct x as [xg xw xr xb]; simpl in *; subst xg;
    (destruct (Hfind xw xr xb Hc Hw Hah) as [Hin|(c' & Hc' & Hah')]; [try done; apply elem_of_app; by left|]).
  - congruence.
  - apply elem_of_app. right. assert (c' = c) as -> by congruence. apply IH; try done. by apply Hnext.
Qed.

(** Positions a scan of one state can stop at, and what is left after a cursor. *)
Definition positions (st : WorkerManagerState) (g : GroupName) : list ReadyReplicaCursor :=
  mjoin ((fun e => passed_worker e.1 ::
             ((fun b => mk_ReadyReplicaCursor e.1 (Some b) None) <$>
                sorted_blocks (default ∅ (ab_ready_blocks <$> br_active e.2)))) <$> reports_from st g 0).

#[local] Instance advances_dec cursor c : Decision (advances cursor c).
Proof.
  unfold advances. destruct cursor as [c0|]; [|apply _]. destruct (decide (rc_worker_id c0 < rc_worker_id c)); [left; by left|].
  destruct (decide (rc_worker_id c0 = rc_worker_id c)); [|right; by intros [?|[? _]]].
  destruct (rc_block_id c0) as [b|]; [|right; by intros [?|(_ & ? & ? & _)]].
  destruct (rc_block_id c) as [b'|]; [|left; right; eauto].
  destruct (block_lt b b') eqn:E; [left; right; eauto|right]. intros [?|(_ & ? & [= <-] & ?)]; [done|congruence].
Defined.

Definition left_after (st : WorkerManagerState) (g : GroupName) (cursor : option ReadyReplicaCursor) : nat :=
  length (filter (advances cursor) (positions st g)).

Lemma advances_trans cursor c c' : advances cursor c -> advances (Some c) c' -> advances cursor c'.
Proof.
  unfold advances. destruct cursor as [c0|]; [|done]. intros [H1|(H1 & b & Hb & Hc)] [H2|(H2 & b' & Hb' & Hc')]; [left; lia..|].
  right. split; [lia|]. exists b. split; [done|]. rewrite Hb' in Hc. destruct (rc_block_id c'); [|done]. by eapply block_lt_trans.
Qed.

Lemma filter_shorter {A} (P Q : A -> Prop) `{!forall x, Decision (P x)} `{!forall x, Decision (Q x)} l x :
  (forall y, P y -> Q y) -> x ∈ l -> Q x -> ~ P x -> (length (filter P l) < length (filter Q l))%nat.
Proof.
  intros Himp Hx HQ HP.
  assert (forall l', (length (filter P l') <= length (filter Q l'))%nat) as Hle.
  { induction l' as [|y l' IH]; [done|]. rewrite !filter_cons. destruct (decide (P y)); [rewrite decide_True by auto; simpl; lia|].
    case_decide; simpl; lia. }
  apply list_elem_of_split in Hx as (l1 & l2 & ->). rewrite !filter_app, !filter_cons, !length_app.
  rewrite (decide_False (P := P x)), (decide_True (P := Q x)) by done. simpl. pose proof (Hle l1). pose proof (Hle l2). lia.
Qed.

Lemma next_closer st g cursor c r :
  worker_ids_ok st -> manager_inv st -> wm_reports st !! (g, rc_worker_id c) = Some r ->
  (forall b, rc_block_id c = Some b -> todo st g cursor (rc_worker_id c) r b) -> advances cursor c ->
  (left_after st g (Some c) < left_after st g cursor)%nat.
Proof.
  intros Hids Hinv Hr Hb Hadv. unfold left_after.
  apply (filter_shorter _ _ _ (mk_ReadyReplicaCursor (rc_worker_id c) (rc_block_id c) None)).
  - intros y. by apply advances_trans.
  - unfold positions. apply list_elem_of_join. eexists. split; cycle 1.
    { apply list_elem_of_fmap. exists (rc_worker_id c, r). split; [done|]. apply elem_of_reports_from. split; [done|]. by apply (Hids (g, rc_worker_id c) r). }
    simpl. destruct (rc_block_id c) as [b|]; [|by left]. right. apply (list_elem_of_fmap_2 (fun b => mk_ReadyReplicaCursor _ (Some b) None)).
    destruct (Hb b eq_refl) as (_ & _ & a & e & -> & _ & (Hin & _)%elem_of_ready_range). simpl. by apply elem_of_sorted_blocks.
  - unfold advances in *. destruct cursor; [|done]. simpl. done.
  - unfold advances. simpl. intros [?|(_ & b & Hcb & Hlt)]; [lia|]. rewrite Hcb, block_lt_irrefl in Hlt. done.
Qed.

Lemma scan_terminates st g scan_end limit cursor :
  0 < limit -> manager_inv st -> worker_ids_ok st -> cursor_ok cursor ->
  exists n replicas, (n <= left_after st g cursor)%nat /\ scan g scan_end limit cursor (replicate (S n) st) replicas.
Proof.
  intros Hlim Hinv Hids. remember (left_after st g cursor) as m eqn:Hm. revert cursor Hm.
  induction m as [m IH] using lt_wf_ind. intros cursor -> Hok.
  destruct (list_page_spec st g cursor Hinv Hok scan_end limit Hids Hlim) as (page & Hp & _ & _ & _ & Hnext).
  destruct (pg_next_cursor page) as [c|] eqn:Hn.
  - destruct (Hnext c eq_refl) as (Hcok & Hadv & r & Hr & Hb). pose proof (next_closer st g cursor c r Hids Hinv Hr Hb Hadv) as Hlt.
    destruct (IH _ Hlt (Some c) eq_refl Hcok) as (n & reps & Hle & Hs). exists (S n), (pg_replicas page ++ reps). split; [lia|].
    by eapply scan_more.
  - exists 0%nat, (pg_replicas page). split; [lia|]. by apply scan_last.
Qed.

Lemma scan_end_spec st g e w r :
  worker_ids_ok st -> ready_replica_scan_end st g = Some e -> wm_reports st !! (g, w) = Some r -> w <= e.
Proof.
  unfold ready_replica_scan_end. intros Hids He Hr. destruct (last (reports_from st g 0)) as [[e' r']|] eqn:Hl; [|done].
  simpl in He. injection He as ->.
  destruct (last_sorted _ _ _ (reports_from_sorted st g 0) Hl (w, r)) as [[= -> _]|Hlt]; [|lia|simpl in Hlt; lia].
  apply elem_of_reports_from. split; [done|]. by apply (Hids (g, w) r).
Qed.

Lemma current_report st x :
  is_current_ready_replica st x = true -> exists r, wm_reports st !! (rk_group_name x, rk_worker_id x) = Some r.
Proof. unfold is_current_ready_replica. destruct (wm_registrations st !! _), (wm_reports st !! _); eauto; done. Qed.

(** The scan of one group as cleanup runs it: the end is captured from [st0], the
    pages come from whatever states follow. *)
Definition stays_ready (x : ReplicaKey) (st : WorkerManagerState) : Prop :=
  wm_reach st /\ worker_ids_ok st /\ is_current_ready_replica st x = true.

(** C21. The cleanup scan misses nothing. A replica that is Ready when the scan
    captures its end and stays Ready while the pages are taken is on one of them,
    however registrations and reports change in between. Every page succeeds,
    holds at most [limit] replicas, all of them current, and moves the cursor
    strictly forward; and on reports that no longer change the scan ends. *)
Theorem scan_complete g limit :
  0 < limit ->
  (forall st0 sts scan_end replicas x, ready_replica_scan_end st0 g = Some scan_end -> scan g scan_end limit None sts replicas ->
     rk_group_name x = g -> Forall (stays_ready x) (st0 :: sts) -> x ∈ replicas) /\
  (forall st cursor scan_end, wm_reach st -> worker_ids_ok st -> cursor_ok cursor ->
     exists page, list_ready_replica_page st g cursor scan_end limit = Ok page /\
       Z.of_nat (length (pg_replicas page)) <= limit /\
       (forall x, x ∈ pg_replicas page -> rk_group_name x = g /\ is_current_ready_replica st x = true) /\
       (forall c, pg_next_cursor page = Some c -> cursor_ok (Some c) /\ advances cursor c)) /\
  (forall st scan_end, wm_reach st -> worker_ids_ok st ->
     exists n replicas, (n <= left_after st g None)%nat /\ scan g scan_end limit None (replicate (S n) st) replicas).
Proof.
  intros Hlim. split_and!.
  - intros st0 sts e reps x He Hs Hg Hall. pose proof Hall as [(Hr0 & Hi0 & Hc0) Hall']%Forall_cons.
    apply (scan_finds g e limit None sts reps x Hlim Hs I); [|done| |done].
    + eapply Forall_impl; [exact Hall'|]. intros st (? & ? & ?). split; [by apply wm_reach_inv|done].
    + destruct (current_report _ _ Hc0) as [r Hr]. subst g. by eapply scan_end_spec.
  - intros st cursor e Hr Hi Hc.
    destruct (list_page_spec st g cursor (wm_reach_inv _ Hr) Hc e limit Hi Hlim) as (page & Hp & Hl & _ & Hx & Hn).
    exists page. split; [done|]. split; [done|]. split; [done|]. intros c (? & ? & _)%Hn. done.
  - intros st e Hr Hi. apply scan_terminates; try done. by apply wm_reach_inv.
Qed.

Lemma scan_complete_witness :
  exists replicas, scan "g" 7 1 None [sample_manager] replicas /\
    mk_ReplicaKey "g" 7 run_1 (mk_BlockId 5 0) ∈ replicas.
Proof.
  destruct (scan_complete "g" 1) as (Hfind & _); [lia|].
  eexists. assert (scan "g" 7 1 None [sample_manager] [mk_ReplicaKey "g" 7 run_1 (mk_BlockId 5 0)]) as Hs.
  { eapply (scan_last "g" 7 1 sample_manager None (mk_ReadyReplicaPage _ None)); by vm_compute. }
  split; [exact Hs|]. apply (Hfind sample_manager [sample_manager] 7 _ (mk_ReplicaKey "g" 7 run_1 (mk_BlockId 5 0)) eq_refl Hs eq_refl).
  assert (stays_ready (mk_ReplicaKey "g" 7 run_1 (mk_BlockId 5 0)) sample_manager) as Hx; [|constructor; [exact Hx|constructor; [exact Hx|constructor]]].
  split; [apply run_worker_calls_reach, rtc_refl|]. split; [|by vm_compute].
  assert (map_Forall (fun key (_ : WorkerBlockReportRuntime) => 0 <= key.2) (wm_reports sample_manager)) as Hm.
  { apply (bool_decide_eq_true_1 (map_Forall _ (wm_reports sample_manager))). by vm_compute. }
  exact Hm.
Defined.
