(* ===== verification/Cleanup.v ===== *)
(** * Cleanup of replicas that metadata no longer references

    The coordinator of maintenance/cleanup.rs. It scans the reported Ready
    replicas page by page, keeps those that no visible file references as
    candidates, and hands them to their workers with heartbeats once a grace
    period is over. It reads the leadership, the session registry, the store and
    the worker manager while all of them keep changing, and its own state is
    shared between the scan loop and the heartbeat handlers. *)

From S2P Require Import Prelude Types Errors Inode Mount Store Session SessionInv Placement Workers WorkersInv WorkersProps WorkersScan.
Local Open Scope Z_scope.

#[global] Instance ReplicaKey_eq_dec : EqDecision ReplicaKey.
Proof. solve_decision. Defined.
#[global] Instance ReplicaKey_countable : Countable ReplicaKey.
Proof.
  refine (inj_countable' (fun k => (rk_group_name k, rk_worker_id k, rk_worker_run_id k, rk_block_id k))
                         (fun p => mk_ReplicaKey p.1.1.1 p.1.1.2 p.1.2 p.2) _).
  by intros [].
Defined.

Inductive CleanupDecision := CD_Keep | CD_Wait | CD_Reclaimable.

Record CleanupEntry := mk_CleanupEntry {
  ce_first_seen : Z;
  ce_not_before : Z;
  ce_next_attempt_at : Z;
  ce_attempts : Z;
  ce_verified_term : Z
}.

Definition is_due (entry : CleanupEntry) (term now : Z) : bool :=
  bool_decide (ce_verified_term entry = term) && (ce_not_before entry <=? now) && (ce_next_attempt_at entry <=? now).

Record CleanupScanCycle := mk_CleanupScanCycle {
  cy_leader_term : Z;
  cy_scan_end_worker_id : option WorkerId;
  cy_next_cursor : option ReadyReplicaCursor;
  cy_seen_existing : gset ReplicaKey;
  cy_pending_new : gset ReplicaKey
}.

Definition cycle_new (leader_term : Z) (scan_end_worker_id : option WorkerId) : CleanupScanCycle :=
  mk_CleanupScanCycle leader_term scan_end_worker_id None ∅ ∅.

Record CleanupState := mk_CleanupState {
  cs_entries : gmap ReplicaKey CleanupEntry;
  cs_active_cycle : option CleanupScanCycle
}.

Definition cleanup_state_default : CleanupState := mk_CleanupState ∅ None.

(** The configuration of [BlockCleanupCoordinator]; durations in milliseconds. *)
Record CleanupConfig := mk_CleanupConfig {
  cf_group_name : GroupName;
  cf_reclaim_grace : Z;
  cf_max_replicas_per_scan : Z;
  cf_max_candidates : Z;
  cf_enabled : bool;
  cf_max_commands_per_heartbeat : Z;
  cf_retry_initial_backoff : Z;
  cf_retry_max_backoff : Z
}.

(** What the coordinator finds around it at one moment: the term it leads in, the
    result of a linearizable read barrier, the session registry and its clock, the
    store and whether reading it fails, and the worker manager. *)
Record World := mk_World {
  wo_leader_term : option Z;
  wo_barrier : MetadataResult unit;
  wo_registry : SessionRegistryState;
  wo_now_ms : Z;
  wo_store : Store;
  wo_read_error : option MetadataError;
  wo_workers : WorkerManagerState
}.

Definition lift_step {A} (m : result Empty_set A) : MetadataResult A :=
  match m with Ok x => Ok x | Err e => match e with end | Panic => Panic end.

(** ** Classification *)

Definition classify_authority (world : World) (replica : ReplicaKey) : MetadataResult CleanupDecision :=
  let id := block_inode_id (rk_block_id replica) in
  match wo_read_error world with
  | Some e => Err e
  | None =>
      match get_inode (wo_store world) id with
      | None => Ok CD_Reclaimable
      | Some inode =>
          if bool_decide (inode_id inode <> id) then Ok CD_Wait
          else
            match inode_kind inode with
            | KDir => Ok CD_Wait
            | KFile file =>
                match file_validate file id with
                | Err _ => Ok CD_Wait
                | Panic => Panic
                | Ok _ =>
                    if bool_decide (rk_block_id replica ∈ fd_blocks file) then Ok CD_Keep
                    else if fd_next_index file <=? block_index (rk_block_id replica) then Ok CD_Wait
                    else Ok CD_Reclaimable
                end
            end
      end
  end.

(** The session is read at one moment, the authority at a later one. *)
Definition revalidate_reclaimable (first second : World) (replica : ReplicaKey) : MetadataResult CleanupDecision :=
  found ← lift_step (get_session_identity (wo_registry first) (block_inode_id (rk_block_id replica)) (wo_now_ms first));
  match snd found with
  | Some _ => Ok CD_Wait
  | None => classify_authority second replica
  end.

(** [classify] at the moments [n], [n + 1] and [n + 2]. *)
Definition classify (world : nat -> World) (n : nat) (replica : ReplicaKey) : MetadataResult CleanupDecision :=
  decision ← classify_authority (world n) replica;
  match decision with
  | CD_Reclaimable => revalidate_reclaimable (world (S n)) (world (S (S n))) replica
  | other => Ok other
  end.

Fixpoint classify_replicas (world : nat -> World) (n : nat) (replicas : list ReplicaKey)
  : MetadataResult (list (ReplicaKey * CleanupDecision)) :=
  match replicas with
  | [] => Ok []
  | replica :: rest =>
      decision ← match classify world n replica with Err _ => Ok CD_Wait | m => m end;
      classified ← classify_replicas world (3 + n) rest;
      Ok ((replica, decision) :: classified)
  end.

Section coordinator.
Variable config : CleanupConfig.

(** ** Candidates *)

Definition retry_backoff (attempts : Z) : Z :=
  let multiplier := 2 ^ Z.min (Z.max 0 (attempts - 1)) 63 in
  let delay := Z.min (cf_retry_initial_backoff config * multiplier) (2 ^ 128 - 1) in
  Z.min delay (cf_retry_max_backoff config).

Definition observe_candidate (replica : ReplicaKey) (term now : Z) (entries : gmap ReplicaKey CleanupEntry)
  : gmap ReplicaKey CleanupEntry :=
  match entries !! replica with
  | Some entry =>
      <[replica := mk_CleanupEntry (ce_first_seen entry) (ce_not_before entry) (ce_next_attempt_at entry)
                     (ce_attempts entry) term]> entries
  | None =>
      if cf_max_candidates config <=? Z.of_nat (size entries) then entries
      else <[replica := mk_CleanupEntry now (now + cf_reclaim_grace config) now 0 term]> entries
  end.

(** One classified replica of a page. *)
Definition merge_decision (acc : gmap ReplicaKey CleanupEntry * (gset ReplicaKey * gset ReplicaKey))
    (classified : ReplicaKey * CleanupDecision) : gmap ReplicaKey CleanupEntry * (gset ReplicaKey * gset ReplicaKey) :=
  let '(entries, (seen, pending)) := acc in
  let '(replica, decision) := classified in
  match decision with
  | CD_Keep | CD_Wait => (delete replica entries, (seen, pending ∖ {[replica]}))
  | CD_Reclaimable =>
      if bool_decide (is_Some (entries !! replica)) then (entries, ({[replica]} ∪ seen, pending))
      else if bool_decide (replica ∈ pending) then (entries, (seen, pending))
      else if Z.of_nat (size entries) + Z.of_nat (size pending) <? cf_max_candidates config
      then (entries, (seen, {[replica]} ∪ pending))
      else (entries, (seen, pending))
  end.

Definition verify (term : Z) (entry : CleanupEntry) : CleanupEntry :=
  mk_CleanupEntry (ce_first_seen entry) (ce_not_before entry) (ce_next_attempt_at entry) (ce_attempts entry) term.

(** [order] is the order in which the hash set of new replicas iterates. *)
Definition apply_scan_page (order : gset ReplicaKey -> list ReplicaKey) (classified : list (ReplicaKey * CleanupDecision))
    (scan_term : Z) (scan_end : option WorkerId) (next_cursor : option ReadyReplicaCursor) (now : Z) (st : CleanupState)
  : CleanupState * bool :=
  let cycle := default (cycle_new scan_term scan_end) (cs_active_cycle st) in
  if bool_decide (cy_leader_term cycle <> scan_term) || bool_decide (cy_scan_end_worker_id cycle <> scan_end)
  then (mk_CleanupState (cs_entries st) None, false)
  else
    let '(entries, (seen, pending)) :=
      foldl merge_decision (cs_entries st, (cy_seen_existing cycle, cy_pending_new cycle)) classified in
    match next_cursor with
    | Some _ =>
        (mk_CleanupState entries (Some (mk_CleanupScanCycle (cy_leader_term cycle) (cy_scan_end_worker_id cycle)
                                          next_cursor seen pending)), false)
    | None =>
        let kept := verify scan_term <$> filter (fun e => e.1 ∈ seen) entries in
        (mk_CleanupState (foldl (fun m replica => observe_candidate replica scan_term now m) kept (order pending)) None, true)
    end.

(** ** The scan loop *)

(** The world at each moment of a call, and what other threads do to the shared
    state before the call takes its lock for the [n]-th time. *)
Variable world : nat -> World.
Variable others : nat -> CleanupState -> CleanupState.
Variable order : gset ReplicaKey -> list ReplicaKey.

Definition leads (n : nat) (term : Z) : bool := bool_decide (wo_leader_term (world n) = Some term).

Definition drop_cycle (st : CleanupState) : CleanupState := mk_CleanupState (cs_entries st) None.

(** Reading the range of the active cycle; a cycle of another term is dropped. *)
Definition active_range (term : Z) (st : CleanupState)
  : CleanupState * option (option ReadyReplicaCursor * option WorkerId) :=
  let st := match cs_active_cycle st with
            | Some cycle => if bool_decide (cy_leader_term cycle <> term) then drop_cycle st else st
            | None => st
            end in
  (st, (fun cycle => (cy_next_cursor cycle, cy_scan_end_worker_id cycle)) <$> cs_active_cycle st).

Definition scan_once (now : Z) (st : CleanupState) : CleanupState * MetadataResult unit :=
  if negb (cf_enabled config) then (st, Ok tt)
  else
    match wo_leader_term (world 0) with
    | None => (drop_cycle (others 0 st), Ok tt)
    | Some term =>
        match wo_barrier (world 1) with
        | Err e => (cleanup_state_default, Err e)
        | Panic => (st, Panic)
        | Ok _ =>
            if negb (leads 2 term) then (drop_cycle (others 0 st), Ok tt)
            else
              let '(st, range) := active_range term (others 0 st) in
              let '(cursor, scan_end) :=
                default (None, ready_replica_scan_end (wo_workers (world 3)) (cf_group_name config)) range in
              let page :=
                match scan_end with
                | Some scan_end =>
                    list_ready_replica_page (wo_workers (world 4)) (cf_group_name config) cursor scan_end
                      (cf_max_replicas_per_scan config)
                | None => Ok (mk_ReadyReplicaPage [] None)
                end in
              match page with
              | Err e => (cleanup_state_default, Err e)
              | Panic => (st, Panic)
              | Ok page =>
                  match classify_replicas world 5 (pg_replicas page) with
                  | Err e => (st, Err e)
                  | Panic => (st, Panic)
                  | Ok classified =>
                      let n := (5 + 3 * length (pg_replicas page))%nat in
                      if negb (leads n term) then (drop_cycle (others 1 st), Ok tt)
                      else
                        let '(st, _) := apply_scan_page order classified term scan_end (pg_next_cursor page) now (others 1 st) in
                        if negb (leads (S n) term) then (cleanup_state_default, Ok tt) else (st, Ok tt)
                  end
              end
        end
    end.

(** ** Commands with heartbeats *)

Definition due_key (attempts : Z) (key : ReplicaKey) : list Z :=
  [attempts; rk_worker_id key; block_inode_id (rk_block_id key); block_index (rk_block_id key)].

Definition due_candidates (worker : WorkerId) (run : WorkerRunId) (term now : Z) (st : CleanupState) : list ReplicaKey :=
  snd <$> sort_by_key (fun e => due_key e.1 e.2)
    ((fun e => (ce_attempts e.2, e.1)) <$>
       filter (fun e => rk_group_name e.1 = cf_group_name config /\ rk_worker_id e.1 = worker /\ rk_worker_run_id e.1 = run /\
                        is_due e.2 term now = true) (map_to_list (cs_entries st))).

Definition forget (key : ReplicaKey) (st : CleanupState) : CleanupState :=
  mk_CleanupState (delete key (cs_entries st)) (cs_active_cycle st).

Definition u32_max : Z := 2 ^ 32 - 1.

(** The last section of a dispatch: the entry is charged with one more attempt,
    unless it went away or is no longer due. *)
Definition charge (key : ReplicaKey) (term now : Z) (st : CleanupState) : option CleanupState :=
  entry ← cs_entries st !! key;
  if is_due entry term now
  then
    let attempts := Z.min (ce_attempts entry + 1) u32_max in
    Some (mk_CleanupState
            (<[key := mk_CleanupEntry (ce_first_seen entry) (ce_not_before entry) (now + retry_backoff attempts) attempts
                        (ce_verified_term entry)]> (cs_entries st)) (cs_active_cycle st))
  else None.

(** The loop over the due candidates; [n] counts the moments, [l] the locks. The
    leadership can be lost on the way. *)
Fixpoint dispatch (term now : Z) (due : list ReplicaKey) (n l : nat) (commands : list BlockId) (st : CleanupState)
  : MetadataResult (CleanupState * list BlockId) :=
  let finish st :=
    if leads n term then Ok (st, commands)
    else Ok (mk_CleanupState ∅ (cs_active_cycle (others l st)), []) in
  match due with
  | [] => finish st
  | key :: rest =>
      if Z.of_nat (length commands) =? cf_max_commands_per_heartbeat config then finish st
      else
        match revalidate_reclaimable (world n) (world (1 + n)) key with
        | Panic => Panic
        | Ok CD_Reclaimable =>
            if negb (leads (2 + n) term) then Ok (mk_CleanupState ∅ (cs_active_cycle (others l st)), [])
            else if negb (is_current_ready_replica (wo_workers (world (3 + n))) key)
            then dispatch term now rest (4 + n) (S l) commands (forget key (others l st))
            else
              match charge key term now (others l st) with
              | None => dispatch term now rest (4 + n) (S l) commands (others l st)
              | Some st => dispatch term now rest (4 + n) (S l) (commands ++ [rk_block_id key]) st
              end
        | _ => dispatch term now rest (4 + n) (S l) commands (forget key (others l st))
        end
  end.

Definition commands_for_heartbeat (group : GroupName) (worker : WorkerId) (run : WorkerRunId) (now : Z) (st : CleanupState)
  : MetadataResult (CleanupState * list BlockId) :=
  if negb (cf_enabled config) || bool_decide (group <> cf_group_name config) then Ok (st, [])
  else
    match wo_leader_term (world 0) with
    | None => Ok (st, [])
    | Some term =>
        let st := others 0 st in
        dispatch term now (due_candidates worker run term now st) 1 1 [] st
    end.
End coordinator.

(** Candidates, those ready for dispatch, and the age of the oldest one. *)
Definition candidate_metrics (st : CleanupState) (term now : Z) (ready_authorized : bool) : Z * Z * Z :=
  let entries := snd <$> map_to_list (cs_entries st) in
  (Z.of_nat (size (cs_entries st)),
   if ready_authorized
   then Z.of_nat (length (filter (fun e => ce_verified_term e = term /\ ce_not_before e <= now) entries)) else 0,
   foldl Z.max 0 ((fun e => Z.max 0 (now - ce_first_seen e)) <$> entries)).
