(* ===== verification/CleanupProps.v ===== *)
(** * What block cleanup guarantees

    Candidates are bounded and come only from complete scans, and a worker is
    told to delete a replica only when nothing references it: no live write
    session of its file, and afterwards no visible block list. *)

From S2P Require Import Prelude Types Errors Inode Mount Store Session SessionInv SessionProps SessionSystem NoPanic Placement Workers WorkersInv WorkersProps WorkersScan Cleanup.
Local Open Scope Z_scope.

(** ** Critical sections with the scans so far *)

(** What a page classified, and the complete scans: their term, when they ended
    and everything they classified. *)
Notation Classified := (list (ReplicaKey * CleanupDecision)) (only parsing).
Notation Scans := (list (Z * Z * list (ReplicaKey * CleanupDecision))) (only parsing).

Section sections.
Context (config : CleanupConfig) (order : gset ReplicaKey -> list ReplicaKey).
Context (Horder : forall s, order s ≡ₚ elements s) (Hcap : 0 <= cf_max_candidates config).

(** The pages of the running scan; without one, a new scan begins. *)
Definition so_far (st : CleanupState) (current : list (ReplicaKey * CleanupDecision)) : list (ReplicaKey * CleanupDecision) :=
  match cs_active_cycle st with Some _ => current | None => [] end.

Inductive cleanup_reach : CleanupState -> list (ReplicaKey * CleanupDecision) ->
    list (Z * Z * list (ReplicaKey * CleanupDecision)) -> Prop :=
| CR_init : cleanup_reach cleanup_state_default [] []
| CR_clear st current scans : cleanup_reach st current scans -> cleanup_reach cleanup_state_default current scans
| CR_clear_entries st current scans :
    cleanup_reach st current scans -> cleanup_reach (mk_CleanupState ∅ (cs_active_cycle st)) current scans
| CR_drop_cycle st current scans : cleanup_reach st current scans -> cleanup_reach (drop_cycle st) current scans
| CR_forget st current scans key : cleanup_reach st current scans -> cleanup_reach (forget key st) current scans
| CR_charge st current scans key term now st' :
    cleanup_reach st current scans -> charge config key term now st = Some st' -> cleanup_reach st' current scans
| CR_page st current scans classified term scan_end cursor now :
    cleanup_reach st current scans -> cursor <> None -> cursor_ok cursor ->
    cleanup_reach (fst (apply_scan_page config order classified term scan_end cursor now st)) (so_far st current ++ classified) scans
| CR_last_page st current scans classified term scan_end now :
    cleanup_reach st current scans ->
    cleanup_reach (fst (apply_scan_page config order classified term scan_end None now st)) current
      (if snd (apply_scan_page config order classified term scan_end None now st)
       then (term, now, so_far st current ++ classified) :: scans else scans).

(** The scan of [scans] that ended at [at_] in [term] found [key] reclaimable. *)
Definition found (scans : list (Z * Z * list (ReplicaKey * CleanupDecision))) (term at_ : Z) (key : ReplicaKey) : Prop :=
  exists classified, (term, at_, classified) ∈ scans /\ (key, CD_Reclaimable) ∈ classified.

Record cleanup_inv (st : CleanupState) (current : list (ReplicaKey * CleanupDecision))
    (scans : list (Z * Z * list (ReplicaKey * CleanupDecision))) : Prop := {
  ci_bound : Z.of_nat (size (cs_entries st)) <= cf_max_candidates config;
  ci_entries : forall key e, cs_entries st !! key = Some e ->
    ce_not_before e = ce_first_seen e + cf_reclaim_grace config /\
    (exists term, found scans term (ce_first_seen e) key) /\ (exists at_, found scans (ce_verified_term e) at_ key);
  ci_cycle : forall cycle, cs_active_cycle st = Some cycle -> forall key,
    key ∈ cy_seen_existing cycle \/ key ∈ cy_pending_new cycle -> (key, CD_Reclaimable) ∈ current;
  ci_cursor : forall cycle, cs_active_cycle st = Some cycle -> cursor_ok (cy_next_cursor cycle)
}.

Lemma found_mono scan scans term at_ key : found scans term at_ key -> found (scan :: scans) term at_ key.
Proof. intros (c & Hc & Hk). exists c. split; [by right|done]. Qed.

(** Merging a page. *)
Lemma merge_decisions_ok entries seen pending pages classified :
  Z.of_nat (size entries) <= cf_max_candidates config ->
  (forall key, key ∈ seen \/ key ∈ pending -> (key, CD_Reclaimable) ∈ pages) ->
  let '(entries', (seen', pending')) := foldl (merge_decision config) (entries, (seen, pending)) classified in
  entries' ⊆ entries /\ Z.of_nat (size entries') <= cf_max_candidates config /\
  (forall key, key ∈ seen' \/ key ∈ pending' -> (key, CD_Reclaimable) ∈ pages ++ classified).
Proof using.
  clear Horder Hcap order. revert entries seen pending pages. induction classified as [|[r d] classified IH]; intros entries seen pending pages Hs Hp; cbn [foldl].
  { rewrite app_nil_r. done. }
  rewrite (cons_middle (r, d) pages classified).
  assert (forall entries1 seen1 pending1, entries1 ⊆ entries -> (forall key, key ∈ seen1 \/ key ∈ pending1 -> (key, CD_Reclaimable) ∈ pages ++ [(r, d)]) ->
    let '(entries', (seen', pending')) := foldl (merge_decision config) (entries1, (seen1, pending1)) classified in
    entries' ⊆ entries /\ Z.of_nat (size entries') <= cf_max_candidates config /\
    (forall key, key ∈ seen' \/ key ∈ pending' -> (key, CD_Reclaimable) ∈ pages ++ [(r, d)] ++ classified)) as Hstep.
  { intros e1 s1 p1 Hsub H1. assert (Z.of_nat (size e1) <= cf_max_candidates config) as Hs1.
    { pose proof (map_subseteq_size _ _ Hsub). lia. }
    specialize (IH e1 s1 p1 (pages ++ [(r, d)]) Hs1 H1). destruct (foldl _ _ classified) as [e' [s' p']]. destruct IH as (? & ? & H3).
    split; [by etrans|]. split; [done|]. intros key Hk. specialize (H3 key Hk). by rewrite <- app_assoc in H3. }
  unfold merge_decision at 2. destruct d.
  - apply Hstep; [apply delete_subseteq|]. intros key Hk. apply elem_of_app. left. apply Hp. set_solver.
  - apply Hstep; [apply delete_subseteq|]. intros key Hk. apply elem_of_app. left. apply Hp. set_solver.
  - case_bool_decide; [|case_bool_decide; [|destruct (_ <? _)]]; apply Hstep; try done; intros key Hk; apply elem_of_app.
    + destruct (decide (key = r)) as [->|]; [right; by left|left; apply Hp; set_solver].
    + left. by apply Hp.
    + destruct (decide (key = r)) as [->|]; [right; by left|left; apply Hp; set_solver].
    + left. by apply Hp.
Qed.

(** Adding the new candidates of a complete scan. *)
Lemma observe_all_ok (P : ReplicaKey -> CleanupEntry -> Prop) entries news term now :
  Z.of_nat (size entries) <= cf_max_candidates config ->
  (forall key e, entries !! key = Some e -> P key e) ->
  (forall key e, key ∈ news -> P key e -> P key (verify term e)) ->
  (forall key, key ∈ news -> P key (mk_CleanupEntry now (now + cf_reclaim_grace config) now 0 term)) ->
  let entries' := foldl (fun m replica => observe_candidate config replica term now m) entries news in
  Z.of_nat (size entries') <= cf_max_candidates config /\ forall key e, entries' !! key = Some e -> P key e.
Proof using.
  clear Horder Hcap order. revert entries. induction news as [|r news IH]; intros entries Hs Hp Hv Hn; cbn [foldl]; [done|].
  apply IH; [| |intros; apply Hv; [by right|done]|intros; apply Hn; by right]; unfold observe_candidate.
  - destruct (entries !! r) as [e|] eqn:He; [by rewrite map_size_insert_Some by eauto|].
    destruct (Z.leb_spec (cf_max_candidates config) (Z.of_nat (size entries))); [done|]. rewrite map_size_insert_None by done. lia.
  - intros key e. destruct (entries !! r) as [e0|] eqn:He.
    + intros [[<- <-]|[_ ?]]%lookup_insert_Some; [|by apply Hp]. apply (Hv _ e0); [by left|by apply Hp].
    + destruct (_ <=? _); [apply Hp|]. intros [[<- <-]|[_ ?]]%lookup_insert_Some; [apply Hn; by left|by apply Hp].
Qed.

Lemma last_page_inv st current scans classified term scan_end now :
  cleanup_inv st current scans ->
  cleanup_inv (fst (apply_scan_page config order classified term scan_end None now st)) current
    (if snd (apply_scan_page config order classified term scan_end None now st)
     then (term, now, so_far st current ++ classified) :: scans else scans).
Proof using Horder.
  clear Hcap. intros [Hb He Hc Hcu]. unfold apply_scan_page. set (cycle := default _ _).
  assert (forall key, key ∈ cy_seen_existing cycle \/ key ∈ cy_pending_new cycle -> (key, CD_Reclaimable) ∈ so_far st current) as Hcyc.
  { intros key Hk. unfold so_far, cycle in *. destruct (cs_active_cycle st) as [c|]; [by apply (Hc c)|simpl in Hk; set_solver]. }
  clearbody cycle. destruct (_ || _); cbn [fst snd]; [by split|].
  pose proof (merge_decisions_ok (cs_entries st) (cy_seen_existing cycle) (cy_pending_new cycle) (so_far st current) classified Hb Hcyc) as Hm.
  destruct (foldl (merge_decision config) _ classified) as [entries' [seen' pending']]. destruct Hm as (Hsub & Hs & Hf). cbn [fst snd].
  set (pages := so_far st current ++ classified) in *. set (scans' := (term, now, pages) :: scans).
  assert (forall key, key ∈ seen' \/ key ∈ pending' -> found scans' term now key) as Hnow.
  { intros key Hk. exists pages. split; [by left|by apply Hf]. }
  destruct (observe_all_ok (fun key e => ce_not_before e = ce_first_seen e + cf_reclaim_grace config /\
      (exists t, found scans' t (ce_first_seen e) key) /\ (exists a, found scans' (ce_verified_term e) a key))
    (verify term <$> filter (fun e => e.1 ∈ seen') entries') (order pending') term now) as [Hsize Hall].
  - rewrite map_size_fmap. pose proof (map_subseteq_size _ _ (map_filter_subseteq (fun e => e.1 ∈ seen') entries')). lia.
  - intros key e Hl. rewrite lookup_fmap in Hl. apply fmap_Some in Hl as (e0 & Hl & ->). apply map_lookup_filter_Some in Hl as [Hl Hin].
    destruct (He key e0) as (H1 & (t & H2) & _); [by eapply lookup_weaken|]. split; [done|]. split; [exists t; by apply found_mono|].
    exists now. apply Hnow. by left.
  - intros key e Hin (H1 & H2 & _). split; [done|]. split; [done|]. exists now. apply Hnow. right. rewrite Horder in Hin. by apply elem_of_elements.
  - intros key Hin. rewrite Horder in Hin. apply elem_of_elements in Hin. split; [done|]. split; eexists; apply Hnow; by right.
  - split; [done|exact Hall|done|done].
Qed.

Lemma page_inv st current scans classified term scan_end c now :
  cleanup_inv st current scans -> cursor_ok (Some c) ->
  cleanup_inv (fst (apply_scan_page config order classified term scan_end (Some c) now st)) (so_far st current ++ classified) scans.
Proof using.
  clear Horder Hcap.
  intros [Hb He Hc Hcu] Hok. unfold apply_scan_page. set (cycle := default _ _).
  assert (forall key, key ∈ cy_seen_existing cycle \/ key ∈ cy_pending_new cycle -> (key, CD_Reclaimable) ∈ so_far st current) as Hcyc.
  { intros key Hk. unfold so_far, cycle in *. destruct (cs_active_cycle st) as [c0|]; [by apply (Hc c0)|simpl in Hk; set_solver]. }
  clearbody cycle. destruct (_ || _); cbn [fst]; [by split|].
  pose proof (merge_decisions_ok (cs_entries st) (cy_seen_existing cycle) (cy_pending_new cycle) (so_far st current) classified Hb Hcyc) as Hm.
  destruct (foldl (merge_decision config) _ classified) as [entries' [seen' pending']]. destruct Hm as (Hsub & Hs & Hf). cbn [fst].
  split; simpl; [done| | |].
  - intros key e Hk. apply He. by eapply lookup_weaken.
  - intros c' [= <-] key. simpl. apply Hf.
  - by intros c' [= <-].
Qed.

Lemma charge_spec key term now st st' :
  charge config key term now st = Some st' ->
  exists e, cs_entries st !! key = Some e /\ is_due e term now = true /\ cs_active_cycle st' = cs_active_cycle st /\
    exists next attempts, cs_entries st' =
      <[key := mk_CleanupEntry (ce_first_seen e) (ce_not_before e) next attempts (ce_verified_term e)]> (cs_entries st).
Proof using.
  clear. unfold charge. destruct (cs_entries st !! key) as [e|]; [|done]. simpl. destruct (is_due e term now) eqn:Hd; [|done].
  intros [= <-]. simpl. exists e. split_and!; eauto.
Qed.

Lemma cleanup_reach_inv st current scans : cleanup_reach st current scans -> cleanup_inv st current scans.
Proof using Horder Hcap.
  induction 1 as [|st current scans _ IH|st current scans _ IH|st current scans _ IH|st current scans key _ IH
                  |st current scans key term now st' _ IH Hc|st current scans cl term e c now _ IH Hc Hcok|st current scans cl term e now _ IH].
  - by split.
  - by split.
  - destruct IH. by split.
  - destruct IH. by split.
  - destruct IH as [Hb He Hc Hcu]. split; simpl; [|intros k e [_ Hk]%lookup_delete_Some; by apply He|done|done].
    pose proof (map_subseteq_size _ _ (delete_subseteq (cs_entries st) key)). lia.
  - apply charge_spec in Hc as (e & Hk & _ & Hcy & next & attempts & Hes). destruct IH as [Hb He Hc Hcu]. split.
    + rewrite Hes, map_size_insert_Some by eauto. done.
    + intros k e'. rewrite Hes. intros [[<- <-]|[_ ?]]%lookup_insert_Some; [simpl|by apply He]. by apply He.
    + intros c. rewrite Hcy. apply Hc.
    + intros c. rewrite Hcy. apply Hcu.
  - destruct c as [c|]; [|done]. by apply page_inv.
  - by apply last_page_inv.
Qed.
End sections.

(** ** Calls *)

(** The states other components can be in. *)
Record world_ok (limits : SessionLimits) (w : World) : Prop := {
  wk_registry : exists sys, registry_reach limits sys /\ sy_state sys = wo_registry w;
  wk_workers : wm_reach (wo_workers w);
  wk_ids : worker_ids_ok (wo_workers w);
  wk_barrier : wo_barrier w <> Panic
}.

(** No write session of [id] is alive at [now]. *)
Definition no_session (st : SessionRegistryState) (id : InodeId) (now : Z) : Prop :=
  forall session, entries st !! id = Some (Active session) -> retirement_at_ms (Active session) <= now.

(** [b] was allocated, if its file still exists, and no visible file holds it. *)
Definition unreferenced (s : Store) (b : BlockId) : Prop :=
  match get_inode s (block_inode_id b) with
  | None => True
  | Some inode => exists file, inode_kind inode = KFile file /\ inode_id inode = block_inode_id b /\
      file_validate file (block_inode_id b) = Ok tt /\ b ∉ fd_blocks file /\ block_index b < fd_next_index file
  end.

Section calls.
Context (limits : SessionLimits) (Hlimits : limits_ok limits = true) (Hmax : max_write_targets limits <= u64_max).

Lemma session_identity_spec w id :
  world_ok limits w -> exists st' res, get_session_identity (wo_registry w) id (wo_now_ms w) = Ok (st', res) /\
    (res = None -> no_session (wo_registry w) id (wo_now_ms w)).
Proof using Hlimits Hmax.
  intros Hw. destruct (wk_registry _ _ Hw) as (sys & Hreach & <-).
  pose proof (sk_registry _ _ (system_reach_ok limits Hlimits sys Hmax Hreach)) as Hok. unfold get_session_identity.
  destruct (retire_for_ok limits _ _ (sy_state sys) id (wo_now_ms w) Hok) as (st2 & -> & Hr2 & _). rewrite Ok_bind.
  eexists _, _. split; [done|]. intros Hnone session Hs. destruct (Z.le_gt_cases (retirement_at_ms (Active session)) (wo_now_ms w)); [done|].
  rewrite (rt_live _ _ _ _ _ _ Hr2 _ _ Hs) in Hnone by lia. done.
Qed.

Lemma classify_authority_spec w key :
  classify_authority w key <> Panic /\
  (classify_authority w key = Ok CD_Reclaimable -> wo_read_error w = None /\ unreferenced (wo_store w) (rk_block_id key)).
Proof using.
  clear. unfold classify_authority, unreferenced. destruct (wo_read_error w); [done|].
  destruct (get_inode (wo_store w) (block_inode_id (rk_block_id key))) as [inode|]; [|done].
  case_bool_decide as Hid; [done|]. destruct (inode_kind inode) as [file|] eqn:Hk; [|done].
  destruct (file_validate file (block_inode_id (rk_block_id key))) as [u|e|] eqn:Hv; [|done|by destruct (np_file_validate _ _ Hv)].
  case_bool_decide as Hin; [done|]. destruct (Z.leb_spec (fd_next_index file) (block_index (rk_block_id key))); [done|].
  split; [done|]. intros _. split; [done|]. exists file. destruct u. done.
Qed.

Lemma revalidate_spec first second key :
  world_ok limits first ->
  revalidate_reclaimable first second key <> Panic /\
  (revalidate_reclaimable first second key = Ok CD_Reclaimable ->
   no_session (wo_registry first) (block_inode_id (rk_block_id key)) (wo_now_ms first) /\
   unreferenced (wo_store second) (rk_block_id key)).
Proof using Hlimits Hmax.
  intros Hw. unfold revalidate_reclaimable.
  destruct (session_identity_spec first (block_inode_id (rk_block_id key)) Hw) as (st' & res & -> & Hnone). simpl.
  destruct res; [done|]. destruct (classify_authority_spec second key) as [Hnp Hr]. split; [done|]. intros H. split; [by apply Hnone|by apply Hr].
Qed.

Lemma classify_replicas_spec world n replicas :
  (forall m, world_ok limits (world m)) -> exists classified, classify_replicas world n replicas = Ok classified.
Proof using Hlimits Hmax.
  intros Hw. revert n. induction replicas as [|r replicas IH]; intros n; simpl; [eauto|].
  assert (classify world n r <> Panic) as Hnp.
  { unfold classify. destruct (classify_authority_spec (world n) r) as [H1 _].
    destruct (classify_authority (world n) r) as [d|e|]; [|done..]. simpl. destruct d; [done..|]. by apply revalidate_spec. }
  destruct (IH (S (S (S n)))) as [cl Hcl]. destruct (classify world n r) as [d|e|]; [| |done]; simpl; rewrite Hcl; simpl; eauto.
Qed.

Context (config : CleanupConfig) (order : gset ReplicaKey -> list ReplicaKey).
Context (Horder : forall s, order s ≡ₚ elements s) (Hcap : 0 <= cf_max_candidates config).
Context (world : nat -> World) (Hworld : forall n, world_ok limits (world n)).
Context (others : nat -> CleanupState -> CleanupState).

(** A state of the coordinator: some history of sections explains it. *)
Definition legit (st : CleanupState) : Prop := exists current scans, cleanup_reach config order st current scans.

Context (Hothers : forall n st, legit st -> legit (others n st)).

Lemma active_range_spec term st st' range :
  legit st -> active_range term st = (st', range) ->
  legit st' /\ forall cursor scan_end, range = Some (cursor, scan_end) -> cursor_ok cursor.
Proof using Horder Hcap.
  intros (cur & scans & Hr) H. assert (legit st') as Hl.
  { unfold active_range in H. destruct (cs_active_cycle st) as [c|] eqn:Hc; [case_bool_decide|]; injection H as <- _; eexists _, _; try done.
    by eapply CR_drop_cycle. }
  split; [done|]. intros cursor scan_end ->. destruct Hl as (cur' & scans' & Hl).
  pose proof (cleanup_reach_inv config order Horder Hcap _ _ _ Hl) as Hinv. unfold active_range in H.
  injection H as E1 E2. rewrite E1 in E2. destruct (cs_active_cycle st') as [c|] eqn:Hc; [|done]. injection E2 as <- _.
  by apply (ci_cursor _ _ _ _ Hinv).
Qed.

Lemma scan_page_legit st classified term scan_end cursor now :
  legit st -> cursor_ok cursor -> legit (fst (apply_scan_page config order classified term scan_end cursor now st)).
Proof using.
  clear. intros (cur & scans & Hr) Hc. destruct cursor as [c|]; eexists _, _; [by eapply CR_page|by eapply CR_last_page].
Qed.

Lemma scan_once_ok now st :
  legit st -> 0 < cf_max_replicas_per_scan config ->
  legit (fst (scan_once config world others order now st)) /\
  snd (scan_once config world others order now st) <> Panic /\
  (forall e, snd (scan_once config world others order now st) = Err e -> wo_barrier (world 1) = Err e).
Proof using Hlimits Hmax Horder Hcap Hworld Hothers.
  intros Hst Hlim. pose proof Hst as (cur & scans & Hr).
  assert (legit cleanup_state_default) as Hdef by (eexists _, _; by eapply CR_clear).
  assert (forall n s, legit s -> legit (drop_cycle (others n s))) as Hdrop.
  { intros n s Hs. destruct (Hothers n s Hs) as (? & ? & ?). eexists _, _. by eapply CR_drop_cycle. }
  unfold scan_once. destruct (cf_enabled config); cbn [negb]; [|done]. destruct (wo_leader_term (world 0)) as [term|]; [|by split; [apply Hdrop|]].
  pose proof (wk_barrier _ _ (Hworld 1)) as Hbar. destruct (wo_barrier (world 1)) as [u|e|] eqn:Hb; [|by split_and!; naive_solver|done].
  destruct (leads world 2 term); cbn [negb]; [|by split; [apply Hdrop|]].
  destruct (active_range term (others 0 st)) as [st1 range] eqn:Har. destruct (active_range_spec _ _ _ _ (Hothers 0%nat _ Hst) Har) as [Hst1 Hcur].
  destruct (default _ range) as [cursor scan_end] eqn:Hdefr.
  assert (cursor_ok cursor) as Hcok by (destruct range as [[c e]|]; [injection Hdefr as -> ->; by eapply Hcur|by injection Hdefr as <- _]).
  set (pg := match scan_end with Some e => list_ready_replica_page _ _ cursor e _ | None => _ end).
  assert (exists page, pg = Ok page /\ forall c, pg_next_cursor page = Some c -> cursor_ok (Some c)) as (page & -> & Hnext).
  { unfold pg. destruct scan_end as [e|]; [|by eexists].
    destruct (list_page_spec (wo_workers (world 4)) (cf_group_name config) cursor (wm_reach_inv _ (wk_workers _ _ (Hworld 4%nat))) Hcok e
      (cf_max_replicas_per_scan config) (wk_ids _ _ (Hworld 4%nat)) Hlim) as (page & Hp & _ & _ & _ & Hn).
    exists page. split; [done|]. intros c Hc. by destruct (Hn c Hc). }
  assert (cursor_ok (pg_next_cursor page)) as Hnok by (destruct (pg_next_cursor page) eqn:E; [by apply Hnext|done]).
  destruct (classify_replicas_spec world 5 (pg_replicas page) Hworld) as [classified ->].
  destruct (leads world _ term); cbn [negb]; [|by split; [apply Hdrop|]].
  pose proof (scan_page_legit (others 1 st1) classified term scan_end (pg_next_cursor page) now (Hothers 1%nat _ Hst1) Hnok) as Hap.
  destruct (apply_scan_page _ _ _ _ _ _ _ _) as [st2 complete]. by destruct (leads world _ term).
Qed.

(** What stands behind a command to delete [b], decided before moment [m]: no
    session of the file, later no visible block list with [b], the leadership
    still held, the replica still reported by that very process; and the
    candidate was confirmed by a complete scan of this term and was first found by
    a complete scan that is at least the grace period old. *)
Definition evidence (worker : WorkerId) (run : WorkerRunId) (term now : Z) (m : nat) (b : BlockId) : Prop :=
  let key := mk_ReplicaKey (cf_group_name config) worker run b in
  exists n, (3 + n < m)%nat /\
    no_session (wo_registry (world n)) (block_inode_id b) (wo_now_ms (world n)) /\
    unreferenced (wo_store (world (1 + n)%nat)) b /\ leads world (2 + n) term = true /\
    is_current_ready_replica (wo_workers (world (3 + n)%nat)) key = true /\
    exists st current scans, cleanup_reach config order st current scans /\ is_Some (cs_entries st !! key) /\
      (exists at_, found scans term at_ key) /\
      (exists first term', found scans term' first key /\ first + cf_reclaim_grace config <= now).

Lemma evidence_mono worker run term now m m' b :
  (m <= m')%nat -> evidence worker run term now m b -> evidence worker run term now m' b.
Proof using. clear. intros Hle (n & Hn & H). exists n. split; [lia|done]. Qed.

Lemma charge_evidence worker run term now n b st st' :
  legit st -> charge config (mk_ReplicaKey (cf_group_name config) worker run b) term now st = Some st' ->
  no_session (wo_registry (world n)) (block_inode_id b) (wo_now_ms (world n)) ->
  unreferenced (wo_store (world (1 + n)%nat)) b -> leads world (2 + n) term = true ->
  is_current_ready_replica (wo_workers (world (3 + n)%nat)) (mk_ReplicaKey (cf_group_name config) worker run b) = true ->
  evidence worker run term now (4 + n) b.
Proof using Horder Hcap.
  intros (cur & scans & Hr) (e & He & Hdue & _)%charge_spec Hs Hu Hl Hc. exists n. split; [lia|]. split_and!; try done.
  exists st, cur, scans. split; [done|]. split; [eauto|].
  destruct (ci_entries _ _ _ _ (cleanup_reach_inv config order Horder Hcap _ _ _ Hr) _ _ He) as (Hnb & (t & Hf) & (a & Hv)).
  unfold is_due in Hdue. rewrite !andb_true_iff, bool_decide_eq_true, !Z.leb_le in Hdue. destruct Hdue as [[Ht Hn] _].
  rewrite Ht in Hv. split; [by exists a|]. exists (ce_first_seen e), t. split; [done|]. lia.
Qed.

Lemma dispatch_ok worker run term now due n l commands st :
  legit st -> 0 <= cf_max_commands_per_heartbeat config ->
  Forall (fun key => key = mk_ReplicaKey (cf_group_name config) worker run (rk_block_id key)) due ->
  NoDup (commands ++ (rk_block_id <$> due)) -> Forall (evidence worker run term now n) commands ->
  Z.of_nat (length commands) <= cf_max_commands_per_heartbeat config ->
  exists st' cmds m, dispatch config world others term now due n l commands st = Ok (st', cmds) /\ legit st' /\
    Z.of_nat (length cmds) <= cf_max_commands_per_heartbeat config /\ NoDup cmds /\
    Forall (evidence worker run term now m) cmds /\ (cmds = [] \/ leads world m term = true).
Proof using Hlimits Hmax Horder Hcap Hworld Hothers.
  intros Hst H0. revert n l commands st Hst.
  assert (forall l st, legit st -> legit (mk_CleanupState ∅ (cs_active_cycle (others l st)))) as Hclear.
  { intros l st (cur & scans & Hr)%(Hothers l). eexists _, _. by eapply CR_clear_entries. }
  assert (forall key l st, legit st -> legit (forget key (others l st))) as Hforget.
  { intros key l st (cur & scans & Hr)%(Hothers l). eexists _, _. by eapply CR_forget. }
  assert (forall n l commands st, legit st -> NoDup commands -> Forall (evidence worker run term now n) commands ->
    Z.of_nat (length commands) <= cf_max_commands_per_heartbeat config ->
    exists st' cmds m, (if leads world n term then Ok (st, commands) else Ok (mk_CleanupState ∅ (cs_active_cycle (others l st)), []))
      = Ok (E := MetadataError) (st', cmds) /\ legit st' /\ Z.of_nat (length cmds) <= cf_max_commands_per_heartbeat config /\ NoDup cmds /\
      Forall (evidence worker run term now m) cmds /\ (cmds = [] \/ leads world m term = true)) as Hfinish.
  { intros n l commands st Hst Hnd Hev Hlen. destruct (leads world n term) eqn:Hl.
    - exists st, commands, n. split_and!; try done. by right.
    - eexists _, [], n. split_and!; [done|by apply Hclear|simpl; lia|constructor|constructor|by left]. }
  induction due as [|key due IH]; intros n l commands st Hst Hkeys Hnd Hev Hlen; cbn [dispatch].
  { apply Hfinish; try done. by rewrite app_nil_r in Hnd. }
  apply Forall_cons in Hkeys as [Hkey Hkeys].
  assert (NoDup (commands ++ (rk_block_id <$> due)) /\ NoDup ((commands ++ [rk_block_id key]) ++ (rk_block_id <$> due))) as [Hnd1 Hnd2].
  { rewrite <- app_assoc. split; [|done]. eapply sublist_NoDup; [exact Hnd|]. apply sublist_app; [done|]. by apply sublist_cons. }
  assert (Forall (evidence worker run term now (4 + n)) commands) as Hev4.
  { eapply Forall_impl; [exact Hev|]. intros b. apply evidence_mono. lia. }
  destruct (Z.eqb_spec (Z.of_nat (length commands)) (cf_max_commands_per_heartbeat config)) as [|Hne].
  { apply Hfinish; try done. by apply NoDup_app in Hnd as [? _]. }
  destruct (revalidate_spec (world n) (world (1 + n)) key (Hworld n)) as [Hnp Hrec].
  destruct (revalidate_reclaimable (world n) (world (1 + n)) key) as [d|e|]; [|by apply IH; eauto|done].
  destruct d; [by apply IH; eauto..|]. destruct (Hrec eq_refl) as [Hses Hun].
  destruct (leads world (2 + n) term) eqn:Hl; cbn [negb].
  2:{ eexists _, [], n. split_and!; [done|by apply Hclear|simpl; lia|constructor|constructor|by left]. }
  destruct (is_current_ready_replica (wo_workers (world (3 + n))) key) eqn:Hcur; cbn [negb]; [|by apply IH; eauto].
  destruct (charge config key term now (others l st)) as [st1|] eqn:Hch; [|by apply IH; eauto].
  apply IH; try done.
  - destruct (Hothers l st Hst) as (cur & scans & Hr). eexists _, _. by eapply CR_charge.
  - apply Forall_app. split; [done|]. apply Forall_singleton. rewrite Hkey in Hch, Hcur. by eapply charge_evidence; [by apply (Hothers l st)|..].
  - rewrite length_app. simpl. lia.
Qed.

Lemma due_candidates_spec worker run term now st :
  Forall (fun key => key = mk_ReplicaKey (cf_group_name config) worker run (rk_block_id key)) (due_candidates config worker run term now st) /\
  NoDup (rk_block_id <$> due_candidates config worker run term now st).
Proof using.
  clear. assert (forall key, key ∈ due_candidates config worker run term now st -> key = mk_ReplicaKey (cf_group_name config) worker run (rk_block_id key)) as Hk.
  { intros key. unfold due_candidates. rewrite list_elem_of_fmap. intros (e & -> & He). rewrite sort_by_key_perm in He.
    apply list_elem_of_fmap in He as ([key' e'] & -> & [(Hg & Hw & Hr & _) _]%list_elem_of_filter). simpl in *. destruct key'. simpl in *. congruence. }
  split; [by apply Forall_forall|]. apply NoDup_fmap_2_strong.
  - intros x y Hx%Hk Hy%Hk E. rewrite Hx, Hy. congruence.
  - unfold due_candidates. rewrite sort_by_key_perm, <- list_fmap_compose. apply NoDup_fmap_2_strong.
    + intros [k1 e1] [k2 e2] [_ H1%elem_of_map_to_list]%list_elem_of_filter [_ H2%elem_of_map_to_list]%list_elem_of_filter E. simpl in E. congruence.
    + apply NoDup_filter, NoDup_map_to_list.
Qed.


(** A scan page never panics and fails only with the read barrier;
    and whatever sections of scans and heartbeats have run, the candidates stay
    within their configured number, and each one was found by a complete scan
    when it was first seen and by a complete scan of the term it is verified for. *)
Theorem cleanup_candidates_verified now st :
  legit st -> 0 < cf_max_replicas_per_scan config ->
  let st' := fst (scan_once config world others order now st) in
  snd (scan_once config world others order now st) <> Panic /\
  (forall e, snd (scan_once config world others order now st) = Err e -> wo_barrier (world 1) = Err e) /\
  legit st' /\ Z.of_nat (size (cs_entries st')) <= cf_max_candidates config /\
  exists current scans, cleanup_reach config order st' current scans /\
    forall key e, cs_entries st' !! key = Some e ->
      ce_not_before e = ce_first_seen e + cf_reclaim_grace config /\
      (exists term, found scans term (ce_first_seen e) key) /\ (exists at_, found scans (ce_verified_term e) at_ key).
Proof using Hlimits Hmax Horder Hcap Hworld Hothers.
  intros Hst Hlim st'. destruct (scan_once_ok now st Hst Hlim) as (Hl & Hnp & Herr). split; [done|]. split; [done|]. split; [done|].
  destruct Hl as (cur & scans & Hr). pose proof (cleanup_reach_inv config order Horder Hcap _ _ _ Hr) as Hinv.
  split; [apply (ci_bound _ _ _ _ Hinv)|]. exists cur, scans. split; [done|]. apply (ci_entries _ _ _ _ Hinv).
Qed.
End calls.

(** A leader whose store has lost inode 5, whose worker 7 still reports a block of it. *)
Definition cleanup_config : CleanupConfig := mk_CleanupConfig "g" 100 16 10 true 4 50 1000.
Definition sample_world (n : nat) : World :=
  mk_World (Some 3) (Ok tt) registry_default 0 empty_store None sample_manager.
Definition alone (n : nat) (st : CleanupState) : CleanupState := st.
Definition scanned : CleanupState := fst (scan_once cleanup_config sample_world alone elements 0 cleanup_state_default).

Lemma sample_world_ok n : world_ok sample_limits (sample_world n).
Proof.
  split; [|apply run_worker_calls_reach, rtc_refl| |done].
  - exists System_init. split; [constructor|done].
  - assert (map_Forall (fun key (_ : WorkerBlockReportRuntime) => 0 <= key.2) (wm_reports sample_manager)) as Hm; [|exact Hm].
    apply (bool_decide_eq_true_1 (map_Forall _ (wm_reports sample_manager))). by vm_compute.
Qed.

Lemma scanned_legit : legit cleanup_config elements scanned.
Proof.
  apply (scan_once_ok sample_limits eq_refl ltac:(done) cleanup_config elements (fun s => reflexivity _) ltac:(done)
    sample_world sample_world_ok alone (fun n st H => H)); [|done].
  eexists _, _. apply CR_init.
Qed.


Lemma cleanup_candidates_verified_witness :
  snd (scan_once cleanup_config sample_world alone elements 0 scanned) <> Panic /\
  size (cs_entries (fst (scan_once cleanup_config sample_world alone elements 0 scanned))) = 1%nat.
Proof.
  destruct (cleanup_candidates_verified sample_limits eq_refl ltac:(done) cleanup_config elements (fun s => reflexivity _) ltac:(done)
    sample_world sample_world_ok alone (fun n st H => H) 0 scanned scanned_legit ltac:(done)) as (H & _).
  split; [exact H|by vm_compute].
Defined.
