(* ===== verification/Maintenance.v ===== *)
(** * Background maintenance

    Proposals to the Raft node (raft/node.rs), the reclaimer of detached roots
    (maintenance/detached_root.rs) and the cleanup of lost workers
    (maintenance/lost_worker.rs). *)

From S2P Require Import Prelude Types Errors Inode Mount Store Namespace Tree NamespaceInv WriteApply Samples Reclaim ReclaimProps Apply Session SessionInv Placement Workers WorkersInv WorkersProps.
Local Open Scope Z_scope.

(** ** Proposals *)

Definition MAX_COMMAND_BYTES : Z := 4 * 1024 * 1024.

(** What [client_write] of the consensus library answers. *)
Inductive ClientWrite :=
| CW_Committed (data : result ApplyRejection ApplySuccess)
| CW_ForwardToLeader (leader_id : option Z)
| CW_ChangeMembership
| CW_Fatal.

(** What the proposer makes of the answer. *)
Definition write_outcome (outcome : ClientWrite) : MetadataResult ApplySuccess :=
  match outcome with
  | CW_Committed (Ok success) => Ok success
  | CW_Committed (Err rejection) => Err (into_metadata_error rejection)
  | CW_Committed Panic => Panic
  | CW_ForwardToLeader (Some _) => Err (LeaderChanged "Leader is another node")
  | CW_ForwardToLeader None => Err (LeaderChanged "Leader unknown")
  | CW_ChangeMembership => Err (Internal "Membership change error")
  | CW_Fatal => Err (Internal "Fatal Raft error")
  end.

Section node.
(** The length of the serialized command, if it can be serialized, and the
    consensus library: it commits a command to the log, applies it and answers. *)
Variable command_len : Command -> option Z.
Variable client_write : Store -> Command -> Store * ClientWrite.

Definition propose (s : Store) (command : Command) : Store * MetadataResult ApplySuccess :=
  match command_len command with
  | None => (s, Err (Internal "Failed to serialize Raft command"))
  | Some bytes =>
      if MAX_COMMAND_BYTES <? bytes then (s, Err (ResourceExhausted "Raft command exceeds the maximum size"))
      else
        let '(s, outcome) := client_write s command in
        (s, write_outcome outcome)
  end.

(** ** Detached roots *)

Record NamespaceDeleteConfig := mk_NamespaceDeleteConfig {
  nd_scan_interval_ms : Z;
  nd_max_candidates : Z;
  nd_max_entries : Z;
  nd_max_batch_bytes : Z;
  nd_retry_initial_backoff_ms : Z;
  nd_retry_max_backoff_ms : Z
}.

Inductive DetachedRootReclaimPass :=
| RP_NotLeader | RP_InFlight | RP_Idle | RP_Applied (result : DetachedRootReclaimResult).

Variable config : NamespaceDeleteConfig.

(** [leader] and [still_leader] are what the two leadership checks see, [free]
    whether no other pass holds the proposal slot. *)
Definition reclaim_once (leader free still_leader : bool) (s : Store) : Store * MetadataResult DetachedRootReclaimPass :=
  if negb leader then (s, Ok RP_NotLeader)
  else if negb free then (s, Ok RP_InFlight)
  else if negb still_leader then (s, Ok RP_NotLeader)
  else
    match list_detached_roots s (Z.to_nat (nd_max_candidates config)) with
    | Err e => (s, Err e)
    | Panic => (s, Panic)
    | Ok (roots, _) =>
        if bool_decide (roots = []) then (s, Ok RP_Idle)
        else
          let '(s, response) := propose s (ReclaimDetachedRoots (fst <$> roots) (nd_max_entries config)
                                             (nd_max_batch_bytes config)) in
          (s, success ← response;
              match success with
              | DetachedRootsReclaimed r => Ok (RP_Applied r)
              | _ => Err (Internal "detached-root Raft command returned unexpected result")
              end)
    end.

(** The delay before the next pass and the delay after the next failure. *)
Definition next_delay (passed : bool) (retry_delay : Z) : Z * Z :=
  if passed then (nd_scan_interval_ms config, nd_retry_initial_backoff_ms config)
  else (retry_delay, Z.min (retry_delay * 2) (nd_retry_max_backoff_ms config)).

(** [n] passes of the leader, one after the other. *)
Fixpoint passes (n : nat) (s : Store) : Store :=
  match n with O => s | S n => passes n (fst (reclaim_once true true true s)) end.
End node.

(** ** Lost workers *)

Record LostWorkerCleanupOutcome := mk_LostWorkerCleanupOutcome {
  lo_removed_workers : Z;
  lo_affected_blocks : Z
}.

Definition remove_lost (acc : WorkerManagerState * LostWorkerCleanupOutcome) (key : GroupName * WorkerId)
  : WorkerManagerState * LostWorkerCleanupOutcome :=
  let '(st, outcome) := acc in
  let '(st, (removed, affected)) := remove_dead_worker st key in
  (st, if removed : bool
       then mk_LostWorkerCleanupOutcome (lo_removed_workers outcome + 1)
              (lo_affected_blocks outcome + Z.of_nat (length affected))
       else outcome).

Definition lost_worker_run_once (heartbeat_timeout_ms : Z) (leader : bool) (now : Z) (st : WorkerManagerState)
  : WorkerManagerState * LostWorkerCleanupOutcome :=
  if negb leader then (st, mk_LostWorkerCleanupOutcome 0 0)
  else
    let live : gset (GroupName * WorkerId) := list_to_set (list_live_workers heartbeat_timeout_ms st now) in
    let dead := filter (fun key => key ∉ live) (list_registered_workers st) in
    foldl remove_lost (st, mk_LostWorkerCleanupOutcome 0 0) dead.

(** ** Reclamation drains the detached roots *)

(** Work left: every dentry can leave one marker behind. *)
Definition reclaim_work (s : Store) : nat := 2 * size (s_dentries s) + size (s_detached s).

Lemma NoDup_fmap_via {A B C} (f : A -> B) (g : A -> C) l :
  NoDup (g <$> l) -> (forall x y, x ∈ l -> y ∈ l -> f x = f y -> g x = g y) -> NoDup (f <$> l).
Proof.
  induction l as [|x l IH]; csimpl; [constructor|]. intros [Hx Hnd]%NoDup_cons Hfg. apply NoDup_cons. split.
  - intros (y & E & Hy)%list_elem_of_fmap. apply Hx. rewrite (Hfg x y (list_elem_of_here _ _) (list_elem_of_further _ _ _ Hy) E).
    by apply (list_elem_of_fmap_2 g).
  - apply IH; [done|]. intros a b Ha Hb. apply Hfg; by right.
Qed.

Lemma entries_sizes s es :
  NoDup ((fun e => (re_parent_inode_id e, re_name e)) <$> es) ->
  Forall (fun e => is_Some (s_dentries s !! (re_parent_inode_id e, re_name e))) es ->
  (size (s_dentries (after_entries s es)) + length es = size (s_dentries s))%nat /\
  (size (s_detached (after_entries s es)) <= size (s_detached s) + length es)%nat.
Proof.
  revert s. induction es as [|e es IH]; intros s Hnd Hin.
  { change (after_entries s []) with s. change (length (@nil DetachedRootReclaimEntry)) with 0%nat. lia. }
  csimpl in Hnd. apply NoDup_cons in Hnd as [Hne Hnd]. apply Forall_cons in Hin as [He Hin].
  set (s1 := write_batch s (reclaim_entry_batch e)).
  assert (after_entries s (e :: es) = after_entries s1 es) as ->.
  { unfold after_entries, s1. by rewrite <- write_batch_app. }
  assert (s_dentries s1 = delete (re_parent_inode_id e, re_name e) (s_dentries s)) as Hd.
  { unfold s1, reclaim_entry_batch. by destruct s, (re_child_detached_root e). }
  assert (size (s_detached s1) <= S (size (s_detached s)))%nat as Hm.
  { unfold s1, reclaim_entry_batch. destruct s, (re_child_detached_root e); simpl; [|lia].
    rewrite map_size_insert. unfold id. case_match; lia. }
  destruct (IH s1 Hnd) as [H1 H2].
  - rewrite Forall_forall in Hin |- *. intros e' He'. rewrite Hd, lookup_delete_ne; [by apply Hin|]. intros E. apply Hne.
    rewrite E. by apply (list_elem_of_fmap_2 (fun e => (re_parent_inode_id e, re_name e))).
  - rewrite Hd, map_size_delete in H1. destruct He as [c Hc]. rewrite Hc in H1. simpl.
    assert (size (s_dentries s) <> 0%nat); [|lia]. intros E%map_size_empty_iff. by rewrite E, lookup_empty in Hc.
Qed.

Lemma completed_sizes s cs :
  NoDup cs -> Forall (fun r => is_Some (s_detached s !! r)) cs ->
  s_dentries (after_completed s cs) = s_dentries s /\
  (size (s_detached (after_completed s cs)) + length cs = size (s_detached s))%nat.
Proof.
  revert s. induction cs as [|r cs IH]; intros s Hnd Hin.
  { change (after_completed s []) with s. change (length (@nil InodeId)) with 0%nat. split; [done|lia]. }
  apply NoDup_cons in Hnd as [Hne Hnd]. apply Forall_cons in Hin as [Hr Hin].
  set (s1 := write_batch s (reclaim_completed_batch r)).
  assert (after_completed s (r :: cs) = after_completed s1 cs) as ->.
  { unfold after_completed, s1. by rewrite <- write_batch_app. }
  assert (s_detached s1 = delete r (s_detached s) /\ s_dentries s1 = s_dentries s) as [Hd He] by (unfold s1; by destruct s).
  destruct (IH s1 Hnd) as [H1 H2].
  - rewrite Forall_forall in Hin |- *. intros r' Hr'. rewrite Hd, lookup_delete_ne; [by apply Hin|]. by intros ->.
  - split; [congruence|]. rewrite Hd, map_size_delete in H2. destruct Hr as [c Hc]. rewrite Hc in H2. simpl.
    assert (size (s_detached s) <> 0%nat); [|lia]. intros E%map_size_empty_iff. by rewrite E, lookup_empty in Hc.
Qed.

Section drain.
Context (raft_state_len : RaftState -> Z) (marker_len : DetachedRoot -> Z).
Context (Hlen : forall rs, 0 <= raft_state_len rs) (Hmarker : forall d, 0 <= marker_len d <= 18).

(** A reclamation finishes work for everything it reports. *)
Lemma reclaim_reduces n s cands max_entries max_bytes rs s' r :
  ready n s -> 0 <= max_entries ->
  apply_reclaim_detached_roots raft_state_len marker_len s cands max_entries max_bytes rs = Ok (s', r) ->
  Z.of_nat (reclaim_work s') + rs_processed_entries r + rs_completed_roots r <= Z.of_nat (reclaim_work s).
Proof using Hlen Hmarker.
  intros [Hnext Hn HT] Hme H. apply apply_reclaim_Ok in H as (st & Hinv & -> & -> & _); [|done|intros; apply Hmarker|done].
  pose proof (reclaim_store s (rc_update st) rs) as (_ & E2 & _ & E4 & _).
  destruct (reclaim_effect _ _ n s rs max_entries max_bytes st HT Hinv) as (Heff & _).
  pose proof (ri_valid _ _ _ _ _ _ _ Hinv) as Hv. rewrite Forall_forall in Hv.
  destruct (entries_sizes s (ru_entries (rc_update st))) as [Hs1 Hs2].
  - apply (NoDup_fmap_via _ re_inode_id); [apply (ri_nodup _ _ _ _ _ _ _ Hinv)|].
    intros x y Hx%Hv Hy%Hv [= E1 E3]. destruct Hx as [Hx _], Hy as [Hy _]. congruence.
  - apply Forall_forall. intros e He. destruct (Hv e He) as [Hd _]. eauto.
  - destruct (completed_sizes (after_entries s (ru_entries (rc_update st))) (ru_completed (rc_update st))) as [Hc1 Hc2].
    + apply (ri_cnodup _ _ _ _ _ _ _ Hinv).
    + eapply Forall_impl; [apply (ri_completed _ _ _ _ _ _ _ Hinv)|]. intros k [Hk _]. by apply (ee_detached _ _ _ _ Heff).
    + unfold reclaim_work. rewrite E2, E4, Hc1. simpl. rewrite (ri_processed _ _ _ _ _ _ _ Hinv). lia.
Qed.

Context (command_len : Command -> option Z) (client_write : Store -> Command -> Store * ClientWrite).
Context (config : NamespaceDeleteConfig).

(** A proposal to the leader is committed and applied at the next log position. *)
Definition commits : Prop :=
  forall s c, exists rs, forall s' ca, apply_committed raft_state_len marker_len s c rs = Ok (s', ca) ->
    client_write s c = (s', CW_Committed (ca_response ca)).

(** The configuration stays inside what the command accepts, its encoding inside
    the size limit, and one entry always fits beside the Raft state. *)
Record config_ok : Prop := {
  ck_candidates : 0 < nd_max_candidates config <= MAX_RECLAIM_DETACHED_ROOT_CANDIDATES;
  ck_entries : 0 < nd_max_entries config <= MAX_RECLAIM_DETACHED_ROOT_ENTRIES;
  ck_bytes : MIN_RECLAIM_DETACHED_ROOT_BATCH_BYTES <= nd_max_batch_bytes config <= MAX_RECLAIM_DETACHED_ROOT_BATCH_BYTES;
  ck_room : forall rs, raft_state_key_len + raft_state_len rs + 296 <= nd_max_batch_bytes config;
  ck_encoded : forall candidates, Z.of_nat (length candidates) <= MAX_RECLAIM_DETACHED_ROOT_CANDIDATES ->
    exists bytes, command_len (ReclaimDetachedRoots candidates (nd_max_entries config) (nd_max_batch_bytes config)) = Some bytes /\
      bytes <= MAX_COMMAND_BYTES
}.

Lemma decode_markers_total n s l :
  tree_of n s -> (forall k d, (k, d) ∈ l -> s_detached s !! k = Some d) ->
  decode_markers l = Ok l /\ existsb (fun id => bool_decide (id = 0)) (fst <$> l) = false.
Proof.
  intros HT. induction l as [|[k d] l IH]; intros Hin; [done|]. simpl.
  destruct (ti_detached _ _ _ _ _ HT k d) as ((i & Hi & _ & Hm) & _); [apply Hin; by left|].
  destruct (ti_inode _ _ _ _ _ HT _ _ Hi) as (_ & Hk & _ & [e He]). destruct (ti_mount _ _ _ _ _ HT _ _ He) as (_ & Hnz & _).
  rewrite (bool_decide_eq_false_2 (k = 0)) by lia. rewrite (bool_decide_eq_false_2 (dr_mount_id d = 0)) by congruence. simpl.
  destruct IH as [E1 E2]; [intros; apply Hin; by right|]. rewrite E1. simpl. split; [done|exact E2].
Qed.

Lemma list_detached_total n s (m : nat) :
  tree_of n s -> m <> 0%nat -> exists roots more, list_detached_roots s m = Ok (roots, more) /\
    (length roots <= m)%nat /\ existsb (fun id => bool_decide (id = 0)) (fst <$> roots) = false /\
    (forall k d, (k, d) ∈ roots -> s_detached s !! k = Some d) /\ (roots = [] <-> s_detached s = ∅).
Proof.
  intros HT Hm. unfold list_detached_roots. rewrite (bool_decide_eq_false_2 (m = 0%nat)) by done. simpl.
  set (all := merge_sort detached_key_le (map_to_list (s_detached s))).
  assert (forall k d, (k, d) ∈ all <-> s_detached s !! k = Some d) as Hall.
  { intros k d. unfold all. by rewrite merge_sort_Permutation, elem_of_map_to_list. }
  assert (forall k d, (k, d) ∈ take m all -> s_detached s !! k = Some d) as Hin.
  { intros k d Hk. apply Hall. by apply subseteq_take in Hk. }
  destruct (decode_markers_total n s (take m all) HT Hin) as [-> Hz]. simpl. eexists _, _. split; [done|].
  split; [rewrite length_take; lia|]. split; [done|]. split; [done|]. split.
  - intros E. apply map_eq. intros k. rewrite lookup_empty. destruct (s_detached s !! k) as [d|] eqn:Hd; [|done].
    apply Hall in Hd. destruct all; [by apply elem_of_nil in Hd|by destruct m].
  - intros E. destruct (take m all) as [|[k d] l] eqn:Et; [done|]. specialize (Hin k d (list_elem_of_here _ _)). by rewrite E in Hin.
Qed.

Section passes.
Context (Hcommits : commits) (Hconfig : config_ok).

(** One pass of the leader: it is idle exactly when nothing is detached, and
    otherwise finishes some work. *)
Lemma pass_spec n s :
  ready n s -> exists s' pass, reclaim_once command_len client_write config true true true s = (s', Ok pass) /\
    if bool_decide (s_detached s = ∅) then s' = s /\ pass = RP_Idle
    else (exists n', ready n' s') /\ (reclaim_work s' < reclaim_work s)%nat.
Proof using Hlen Hmarker Hcommits Hconfig.
  intros Hr. pose proof Hr as [Hnext Hn HT]. destruct Hconfig as [Hc He Hb Hroom Henc]. unfold reclaim_once. cbn [negb].
  destruct (list_detached_total n s (Z.to_nat (nd_max_candidates config)) HT) as (roots & more & -> & Hlen' & Hz & Hin & Hemp); [lia|].
  case_bool_decide as Hroots; [eexists _, _; split; [done|]; by rewrite bool_decide_eq_true_2 by (by apply Hemp)|].
  rewrite bool_decide_eq_false_2 by (intros E; by apply Hroots, Hemp).
  assert (Z.of_nat (length (fst <$> roots)) <= MAX_RECLAIM_DETACHED_ROOT_CANDIDATES) as Hl by (rewrite length_fmap; lia).
  unfold propose. destruct (Henc _ Hl) as (bytes & -> & Hbytes). rewrite (proj2 (Z.ltb_ge _ _)) by lia.
  assert (validate_detached_root_reclaim_command (fst <$> roots) (nd_max_entries config) (nd_max_batch_bytes config) = Ok tt) as Hval.
  { unfold validate_detached_root_reclaim_command. rewrite Hz, (bool_decide_eq_false_2 (fst <$> roots = [])) by (by destruct roots).
    rewrite (proj2 (Z.ltb_ge _ _) Hl), (bool_decide_eq_false_2 (nd_max_entries config = 0)) by lia. simpl.
    rewrite (proj2 (Z.ltb_ge MAX_RECLAIM_DETACHED_ROOT_ENTRIES _)), (proj2 (Z.ltb_ge (nd_max_batch_bytes config) _)), (proj2 (Z.ltb_ge MAX_RECLAIM_DETACHED_ROOT_BATCH_BYTES _)) by lia.
    done. }
  destruct (Hcommits s (ReclaimDetachedRoots (fst <$> roots) (nd_max_entries config) (nd_max_batch_bytes config))) as [rs Hcw].
  destruct (reclaim_progress raft_state_len marker_len n s (fst <$> roots) (nd_max_entries config) (nd_max_batch_bytes config) rs Hlen Hmarker Hr Hval ltac:(lia) (Hroom rs)) as (s' & r & Happ & Hprog).
  pose proof (reclaim_reduces n s (fst <$> roots) (nd_max_entries config) (nd_max_batch_bytes config) rs s' r Hr ltac:(lia) Happ) as Hred.
  destruct (apply_reclaim_step raft_state_len marker_len Hlen (fun d => proj1 (Hmarker d)) n s (fst <$> roots) (nd_max_entries config) (nd_max_batch_bytes config) rs s' r Hr ltac:(lia) Happ) as ((n' & _ & Hr' & _) & _).
  rewrite (Hcw s' (committed_apply_new RI_None (Ok (DetachedRootsReclaimed r)))); cycle 1.
  { unfold apply_committed, run_command. by rewrite Happ. }
  eexists _, _. split; [done|]. split; [by exists n'|].
  destruct roots as [|[k d] roots]; [done|].
  assert (1 <= rs_processed_entries r + rs_completed_roots r); [|lia]. apply Hprog.
  exists k. split; [by left|]. rewrite (Hin k d (list_elem_of_here _ _)). eauto.
Qed.

Lemma passes_ready n s j : ready n s -> exists n', ready n' (passes command_len client_write config j s).
Proof using Hlen Hmarker Hcommits Hconfig.
  revert n s. induction j as [|j IH]; intros n s Hr; [by exists n|]. cbn [passes].
  destruct (pass_spec n s Hr) as (s' & pass & -> & Hp). cbn [fst]. case_bool_decide.
  - destruct Hp as [-> _]. by eapply IH.
  - destruct Hp as [[n' Hr'] _]. by eapply IH.
Qed.

End passes.
End drain.

(** A single node that commits at a fixed Raft state. *)
Definition local_write (s : Store) (c : Command) : Store * ClientWrite :=
  match apply_committed sample_state_len sample_marker_len s c rs0 with
  | Ok (s', ca) => (s', CW_Committed (ca_response ca))
  | _ => (s, CW_Fatal)
  end.
Definition delete_config : NamespaceDeleteConfig := mk_NamespaceDeleteConfig 1000 64 256 4096 1000 60000.


(** ** Lost workers are forgotten *)

(** What [remove_dead_worker] does to the workers. *)
Lemma remove_dead_effect st key :
  let '(st', (removed, _)) := remove_dead_worker st key in
  (is_Some (wm_registrations st !! key) -> removed = true) /\
  wm_registrations st' !! key = None /\ wm_reports st' !! key = None /\
  forall k, k <> key -> wm_registrations st' !! k = wm_registrations st !! k /\ wm_reports st' !! k = wm_reports st !! k /\
    wm_runtime st' !! k = wm_runtime st !! k.
Proof.
  unfold remove_dead_worker, forget_registration, remove_worker_report. simpl.
  destruct (wm_reports st !! key) as [r|] eqn:Hr; simpl.
  - rewrite orb_true_r. simpl.
    split; [done|]. rewrite !lookup_delete_eq. split; [done|]. split; [done|]. intros k Hk. by rewrite !lookup_delete_ne.
  - set (b := _ || _). assert (is_Some (wm_registrations st !! key) -> b = true) as Hb.
    { intros H. unfold b. by rewrite bool_decide_eq_true_2. }
    clearbody b. split; [done|]. destruct b; simpl; rewrite lookup_delete_eq; (split; [done|]; split; [done|]); intros k Hk;
      by rewrite !lookup_delete_ne.
Qed.

Lemma remove_lost_all dead acc :
  NoDup dead -> Forall (fun key => is_Some (wm_registrations (fst acc) !! key)) dead ->
  let acc' := foldl remove_lost acc dead in
  rtc wm_section (fst acc) (fst acc') /\
  lo_removed_workers (snd acc') = lo_removed_workers (snd acc) + Z.of_nat (length dead) /\
  (forall k, k ∈ dead -> wm_registrations (fst acc') !! k = None /\ wm_reports (fst acc') !! k = None) /\
  (forall k, k ∉ dead -> wm_registrations (fst acc') !! k = wm_registrations (fst acc) !! k /\
     wm_reports (fst acc') !! k = wm_reports (fst acc) !! k /\ wm_runtime (fst acc') !! k = wm_runtime (fst acc) !! k).
Proof.
  revert acc. induction dead as [|key dead IH]; intros [st o] Hnd Hin; cbn [foldl fst snd].
  { split_and!; [apply rtc_refl|simpl; lia|set_solver|done]. }
  apply NoDup_cons in Hnd as [Hne Hnd]. apply Forall_cons in Hin as [Hk Hin]. cbn [fst] in Hk, Hin.
  unfold remove_lost at 2 4 6 8 10 12 14. pose proof (remove_dead_effect st key) as He. pose proof (remove_dead_sections st key) as Hs.
  destruct (remove_dead_worker st key) as [st1 [removed affected]]. destruct He as (Hrem & Hreg & Hrep & Hoth). rewrite (Hrem Hk).
  set (o1 := mk_LostWorkerCleanupOutcome _ _). destruct (IH (st1, o1) Hnd) as (H1 & H2 & H3 & H4).
  { rewrite Forall_forall in Hin |- *. intros k Hkd. cbn [fst]. destruct (Hoth k) as [-> _]; [by intros ->|by apply Hin]. }
  cbn [fst snd] in *. split_and!.
  - by transitivity st1.
  - rewrite H2. unfold o1. simpl. lia.
  - intros k [->|Hkd]%elem_of_cons; [|by apply H3]. destruct (H4 key Hne) as (-> & -> & _). done.
  - intros k Hnk. destruct (H4 k) as (-> & -> & ->); [set_solver|]. apply Hoth. set_solver.
Qed.

(** A cleanup of lost workers on the leader leaves exactly the live ones
    registered: every registered worker whose heartbeat timed out loses its
    registration and its block report, so that no location refers to it any more,
    and nothing changes for a live worker. *)
Theorem lost_workers_removed timeout now st :
  wm_reach st ->
  let '(st', outcome) := lost_worker_run_once timeout true now st in
  wm_reach st' /\
  (forall key, is_Some (wm_registrations st' !! key) <->
     is_Some (wm_registrations st !! key) /\ is_worker_live timeout st key now = true) /\
  (forall key, is_worker_live timeout st key now = true ->
     wm_registrations st' !! key = wm_registrations st !! key /\ wm_reports st' !! key = wm_reports st !! key /\
     wm_runtime st' !! key = wm_runtime st !! key) /\
  (forall g w id, (g, w) ∈ default ∅ (wm_locations st' !! (g, id)) -> is_worker_live timeout st (g, w) now = true) /\
  0 <= lo_removed_workers outcome <= Z.of_nat (size (wm_registrations st)).
Proof.
  intros Hreach. unfold lost_worker_run_once. cbn [negb].
  set (live := list_to_set _ : gset (GroupName * WorkerId)). set (dead := filter _ _).
  assert (forall key, key ∈ live <-> is_worker_live timeout st key now = true) as Hlive.
  { intros key. unfold live, list_live_workers, is_worker_live. rewrite elem_of_list_to_set, list_elem_of_fmap. split.
    - intros ([k r] & -> & [Hs Hr%elem_of_map_to_list]%list_elem_of_filter). simpl in *. by rewrite Hr.
    - destruct (wm_runtime st !! key) as [r|] eqn:Hr; [|done]. intros Hs. exists (key, r). split; [done|].
      apply list_elem_of_filter. split; [done|]. by apply elem_of_map_to_list. }
  assert (forall key, key ∈ dead <-> is_Some (wm_registrations st !! key) /\ is_worker_live timeout st key now <> true) as Hdead.
  { intros key. unfold dead. rewrite list_elem_of_filter, Hlive. unfold list_registered_workers. rewrite list_elem_of_fmap. split.
    - intros [Hn ([k r] & -> & Hr%elem_of_map_to_list)]. simpl in *. eauto.
    - intros [[r Hr] Hn]. split; [done|]. exists (key, r). split; [done|]. by apply elem_of_map_to_list. }
  destruct (remove_lost_all dead (st, mk_LostWorkerCleanupOutcome 0 0)) as (Hs & Ho & Hd & Hk).
  { unfold dead, list_registered_workers. apply NoDup_filter, NoDup_fst_map_to_list. }
  { apply Forall_forall. intros key [? _]%Hdead. done. }
  assert (length dead <= size (wm_registrations st))%nat as Hsize.
  { unfold dead, list_registered_workers. etrans; [apply length_filter|]. rewrite length_fmap, length_map_to_list. done. }
  destruct (foldl _ _ dead) as [st' o]. cbn [fst snd lo_removed_workers] in *.
  assert (wm_reach st') as Hreach' by (unfold wm_reach; by transitivity st). split; [done|].
  assert (forall key, is_worker_live timeout st key now = true -> key ∉ dead) as Hnd by (intros key Hl [_ Hn]%Hdead; done).
  assert (forall key, is_Some (wm_registrations st' !! key) <->
     is_Some (wm_registrations st !! key) /\ is_worker_live timeout st key now = true) as Hiff.
  { intros key. destruct (decide (key ∈ dead)) as [Hin|Hnin].
    - destruct (Hd key Hin) as [-> _]. split; [by intros []|]. intros [_ Hl]. by destruct (Hnd key Hl).
    - destruct (Hk key Hnin) as (-> & _). split; [|tauto]. intros Hsome. split; [done|].
      destruct (is_worker_live timeout st key now) eqn:E; [done|]. destruct Hnin. apply Hdead. by rewrite E. }
  split; [exact Hiff|]. split; [intros key Hl; by apply Hk, Hnd|]. split; [|lia].
  intros g w id Hin. apply (locations_spec st' g w id (wm_reach_inv _ Hreach')) in Hin as [run Hrun].
  apply Hiff. unfold is_current_ready_replica in Hrun. simpl in Hrun. destruct (wm_registrations st' !! (g, w)); [eauto|done].
Qed.

Lemma lost_workers_removed_witness :
  let '(st', outcome) := lost_worker_run_once 1000 true 5000 sample_manager in
  lo_removed_workers outcome = 1 /\ forall g w id, (g, w) ∉ default ∅ (wm_locations st' !! (g, id)).
Proof.
  pose proof (lost_workers_removed 1000 5000 sample_manager) as H.
  assert (lo_removed_workers (snd (lost_worker_run_once 1000 true 5000 sample_manager)) = 1) as Ho by by vm_compute.
  destruct (lost_worker_run_once 1000 true 5000 sample_manager) as [st' outcome].
  destruct H as (_ & _ & _ & Hloc & _); [apply run_worker_calls_reach, rtc_refl|]. split; [exact Ho|].
  intros g w id Hin. apply Hloc in Hin. unfold is_worker_live in Hin.
  destruct (wm_runtime sample_manager !! (g, w)) as [r|] eqn:Hr; [|done].
  assert (map_Forall (fun (_ : GroupName * WorkerId) r => seen_recently 1000 5000 r = false) (wm_runtime sample_manager)) as Hm.
  { apply (bool_decide_eq_true_1 (map_Forall _ (wm_runtime sample_manager))). by vm_compute. }
  apply Hm in Hr. simpl in Hr. congruence.
Defined.
