(* ===== verification/Server.v ===== *)
(** * The metadata process as its request handlers see it

    The state the handlers of service/filesystem share (database, mount table,
    Raft node, session registry, worker manager, namespace lock, clocks,
    proposals in flight), with the dependencies runtime.rs gives the service,
    and the programs they are: sequences of calls into
    these components, between which other handlers run. A program can also be
    abandoned where the source awaits, when its caller goes away; the owners it
    holds are then dropped. *)

From S2P Require Import Prelude Types Errors Inode Mount Store Apply Session SessionInv PathResolver Placement Workers Maintenance.
Local Open Scope Z_scope.

(** What the Raft node answers to queries: its role, the leader it knows, the
    members of the applied state, the last applied log id, the route epoch of the
    read view, and whether a read barrier succeeds. *)
Record RaftNode := mk_RaftNode {
  rn_is_leader : bool;
  rn_leader_id : option Z;
  rn_members : list (Z * string);
  rn_last_applied : option RaftLogId;
  rn_route_epoch : Z;
  rn_linearizable : bool
}.

(** The state of [namespace_topology]. *)
Record TopologyLock := mk_TopologyLock {
  tl_readers : nat;
  tl_writer : bool
}.

Record Server := mk_Server {
  sv_store : Store;
  sv_read_error : option MetadataError;
  sv_mounts : MountTableState;
  sv_ready : bool;
  sv_node : RaftNode;
  sv_registry : SessionRegistryState;
  sv_workers : WorkerManagerState;
  sv_now_ms : Z;
  sv_instant : Z;
  sv_topology : TopologyLock;
  sv_proposals : gmap nat Command;
  sv_answers : gmap nat ClientWrite;
  sv_next_ticket : nat
}.

Definition with_registry (sv : Server) (x : SessionRegistryState) : Server :=
  mk_Server (sv_store sv) (sv_read_error sv) (sv_mounts sv) (sv_ready sv) (sv_node sv) x (sv_workers sv)
    (sv_now_ms sv) (sv_instant sv) (sv_topology sv) (sv_proposals sv) (sv_answers sv) (sv_next_ticket sv).
Definition with_topology (sv : Server) (x : TopologyLock) : Server :=
  mk_Server (sv_store sv) (sv_read_error sv) (sv_mounts sv) (sv_ready sv) (sv_node sv) (sv_registry sv)
    (sv_workers sv) (sv_now_ms sv) (sv_instant sv) x (sv_proposals sv) (sv_answers sv) (sv_next_ticket sv).
Definition with_proposals (sv : Server) (x : gmap nat Command) (a : gmap nat ClientWrite) (n : nat) : Server :=
  mk_Server (sv_store sv) (sv_read_error sv) (sv_mounts sv) (sv_ready sv) (sv_node sv) (sv_registry sv)
    (sv_workers sv) (sv_now_ms sv) (sv_instant sv) (sv_topology sv) x a n.
Definition with_store (sv : Server) (x : Store) : Server :=
  mk_Server x (sv_read_error sv) (sv_mounts sv) (sv_ready sv) (sv_node sv) (sv_registry sv)
    (sv_workers sv) (sv_now_ms sv) (sv_instant sv) (sv_topology sv) (sv_proposals sv) (sv_answers sv) (sv_next_ticket sv).

(** ** Programs

    [Step kind run] is one call: [run] gives the rest of the program and the new
    state, or nothing while the call has to wait. Where the source awaits, other
    programs may run, and the program may be abandoned: [cancel] is what dropping
    it there does to the state, [None] in a task that nobody abandons. *)

Inductive kind := Sync | Await (cancel : option (Server -> Server)).

Inductive prog (A : Type) : Type :=
| Return (a : A)
| Crash
| Step (k : kind) (run : Server -> option (prog A * Server)).
Global Arguments Return {_} _.
Global Arguments Crash {_}.
Global Arguments Step {_} _ _.

#[global] Instance prog_ret : MRet prog := fun A a => Return a.
#[global] Instance prog_bind : MBind prog := fun A B f =>
  fix bind (p : prog A) : prog B :=
    match p with
    | Return a => f a
    | Crash => Crash
    | Step k run => Step k (fun sv => match run sv with Some (p', sv') => Some (bind p', sv') | None => None end)
    end.

(** A synchronous call. *)
Definition call {A} (f : Server -> A * Server) : prog A :=
  Step Sync (fun sv => let '(a, sv') := f sv in Some (Return a, sv')).
Definition look {A} (f : Server -> A) : prog A := call (fun sv => (f sv, sv)).

(** An awaited call, which nothing but the caller's own owners depends on. *)
Definition await {A} (f : Server -> option (A * Server)) : prog A :=
  Step (Await (Some (fun sv => sv))) (fun sv => match f sv with Some (a, sv') => Some (Return a, sv') | None => None end).

(** A method of the session registry, under its lock. *)
Definition registry {A} (f : SessionRegistryState -> Z -> result Empty_set (SessionRegistryState * A)) : prog A :=
  Step Sync (fun sv => match f (sv_registry sv) (sv_now_ms sv) with
                       | Ok (st, a) => Some (Return a, with_registry sv st)
                       | _ => Some (Crash, sv)
                       end).

(** Dropping the owner of something in the registry. *)
Definition release (f : SessionRegistryState -> result Empty_set SessionRegistryState) (sv : Server) : Server :=
  match f (sv_registry sv) with Ok st => with_registry sv st | _ => sv end.

(** [p] while an owner is held, whose drop is [drop]: abandoning [p] drops it. *)
Fixpoint owning {A} (drop : Server -> Server) (p : prog A) : prog A :=
  match p with
  | Return a => Return a
  | Crash => Crash
  | Step k run =>
      Step match k with Await (Some c) => Await (Some (fun sv => drop (c sv))) | k => k end
        (fun sv => match run sv with Some (p', sv') => Some (owning drop p', sv') | None => None end)
  end.

(** ** Runs

    A program runs from one await to the next without interruption: [settle] makes
    its synchronous calls, [resume] also the await it stands at. *)

Fixpoint settle {A} (p : prog A) (sv : Server) : prog A * Server :=
  match p with
  | Step Sync run => match run sv with Some (p', sv') => settle p' sv' | None => (p, sv) end
  | _ => (p, sv)
  end.

Definition resume {A} (p : prog A) (sv : Server) : option (prog A * Server) :=
  match p with
  | Step (Await _) run => '(p', sv') ← run sv; Some (settle p' sv')
  | _ => None
  end.

(** A program that runs alone, through at most [fuel] awaits. *)
Fixpoint run_alone {A} (fuel : nat) (p : prog A) (sv : Server) : prog A * Server :=
  let '(p, sv) := settle p sv in
  match fuel with
  | O => (p, sv)
  | S fuel => match resume p sv with Some (p', sv') => run_alone fuel p' sv' | None => (p, sv) end
  end.

(** Induction over the calls a program can still make. *)
Lemma prog_ind' {A} (P : prog A -> Prop) :
  (forall a, P (Return a)) -> P Crash ->
  (forall k run, (forall sv p' sv', run sv = Some (p', sv') -> P p') -> P (Step k run)) -> forall p, P p.
Proof.
  intros Hret Hcrash Hstep. fix IH 1. intros [a| |k run]; [apply Hret|apply Hcrash|]. apply Hstep. intros sv p' sv' E.
  destruct (run sv) as [[q sv'']|]; [|discriminate E]. injection E as <- _. apply IH.
Qed.
