(* ===== verification/Service.v ===== *)
(** * Filesystem service: requests, failures, guards and proposals

    service/filesystem/mod.rs, guard.rs and command.rs. Logging and metrics are
    left out. A handler is a program that returns a success or a failure; the [?]
    of the source and its early returns are the bind of [fs]. *)

From S2P Require Import Prelude Types Errors Inode Mount Store Apply Session SessionInv PathResolver Placement Workers Maintenance Server.
Local Open Scope Z_scope.

Definition SUPPORTED_REPLICA_COUNT : Z := 1.

(** ** Requests *)

Record GroupStateWatermark := mk_GroupStateWatermark {
  gw_group_name : GroupName;
  gw_state_id : RaftLogId
}.

(** The fields of [RequestHeader] the handlers read. *)
Record RequestHeader := mk_RequestHeader {
  rq_call_id : CallId;
  rq_client_id : ClientId;
  rq_group_name : option GroupName;
  rq_mount_epoch : option Z;
  rq_state : list GroupStateWatermark;
  rq_deadline : Z;
  rq_caller_context : option string
}.

Record RequestContext := mk_RequestContext {
  rc_caller : RequestHeader;
  rc_route_epoch : option Z
}.

Record Freshness := mk_Freshness {
  fr_mount_epoch : option Z;
  fr_route_epoch : option Z
}.

Record FileRange := mk_FileRange {
  rg_offset : Z;
  rg_len : Z
}.

Record WriteHandle := mk_WriteHandle {
  wh_inode_id : InodeId;
  wh_lease_epoch : LeaseEpoch
}.

(** [Deadline::has_passed] at a moment of the wall clock. *)
Definition has_passed (deadline now_ms : Z) : bool := deadline <=? now_ms.

(** [str::split] at a character. *)
Fixpoint split_at (c : ascii) (s : string) : list string :=
  match s with
  | EmptyString => [EmptyString]
  | String x rest =>
      if bool_decide (x = c) then EmptyString :: split_at c rest
      else match split_at c rest with w :: ws => String x w :: ws | [] => [String x EmptyString] end
  end.

(** [str::split_once]. *)
Fixpoint split_once (c : ascii) (s : string) : option (string * string) :=
  match s with
  | EmptyString => None
  | String x rest =>
      if bool_decide (x = c) then Some (EmptyString, rest)
      else '(a, b) ← split_once c rest; Some (String x a, b)
  end.

(** The first value of a field wins. *)
Definition set_caller_field (fields : CallerContextFields) (key value : string) : CallerContextFields :=
  let first (old : option string) := match old with Some v => Some v | None => Some value end in
  if bool_decide (key = "ip"%string) then mk_CallerContextFields (first (cc_ip fields)) (cc_host fields) (cc_az fields) (cc_rack fields) (cc_region fields)
  else if bool_decide (key = "host"%string) then mk_CallerContextFields (cc_ip fields) (first (cc_host fields)) (cc_az fields) (cc_rack fields) (cc_region fields)
  else if bool_decide (key = "az"%string) then mk_CallerContextFields (cc_ip fields) (cc_host fields) (first (cc_az fields)) (cc_rack fields) (cc_region fields)
  else if bool_decide (key = "rack"%string) then mk_CallerContextFields (cc_ip fields) (cc_host fields) (cc_az fields) (first (cc_rack fields)) (cc_region fields)
  else if bool_decide (key = "region"%string) then mk_CallerContextFields (cc_ip fields) (cc_host fields) (cc_az fields) (cc_rack fields) (first (cc_region fields))
  else fields.

Definition parse_caller_pair (fields : CallerContextFields) (pair : string) : CallerContextFields :=
  match split_once "="%char pair with
  | None => fields
  | Some (key, value) =>
      let key := trim_both is_white key in
      let value := trim_both is_white value in
      if bool_decide (key = EmptyString) || bool_decide (value = EmptyString) then fields
      else set_caller_field fields key value
  end.

Definition parse_caller_context (context : string) : CallerContextFields :=
  foldl parse_caller_pair (mk_CallerContextFields None None None None None) (split_at ","%char context).

Definition caller_context_fields (ctx : RequestContext) : option CallerContextFields :=
  parse_caller_context <$> rq_caller_context (rc_caller ctx).

(** ** Results *)

Record FsSuccess (T : Type) := mk_FsSuccess {
  fs_payload : T;
  fs_group_name : option GroupName;
  fs_mount_epoch : option Z;
  fs_route_epoch : option Z;
  fs_state : list GroupStateWatermark
}.
Global Arguments mk_FsSuccess {_} _ _ _ _ _.
Global Arguments fs_payload {_} _.
Global Arguments fs_group_name {_} _.
Global Arguments fs_mount_epoch {_} _.
Global Arguments fs_route_epoch {_} _.
Global Arguments fs_state {_} _.

Record FsFailure := mk_FsFailure {
  ff_error : RpcErrorDetail;
  ff_group_name : option GroupName;
  ff_mount_epoch : option Z;
  ff_route_epoch : option Z;
  ff_state : list GroupStateWatermark
}.

Definition fs (A : Type) : Type := prog (result FsFailure A).

#[global] Instance fs_ret : MRet fs := fun A a => Return (Ok a).
#[global] Instance fs_bind : MBind fs := fun A B k m =>
  mbind (M := prog) (fun r => match r with Ok a => k a | Err e => Return (Err e) | Panic => Crash end) m.

(** A call that cannot fail, inside a handler. *)
Definition lift {A} (p : prog A) : fs A := mbind (M := prog) (fun a => Return (Ok a)) p.
Definition give {A} (r : result FsFailure A) : fs A :=
  match r with Ok a => Return (Ok a) | Err e => Return (Err e) | Panic => Crash end.

(** The part of a handler that holds an owner: an early return drops it, and so
    does abandoning the handler. *)
Definition guarded {A} (drop : Server -> Server) (body : fs A) : fs A :=
  mbind (M := prog)
    (fun r => match r with
              | Err e => mbind (M := prog) (fun _ => Return (Err e)) (call (fun sv => (tt, drop sv)))
              | r => Return r
              end)
    (owning drop body).

(** The part of a handler that holds a guard dropped in either case. *)
Definition scoped {A} (drop : Server -> Server) (body : fs A) : fs A :=
  mbind (M := prog) (fun r => mbind (M := prog) (fun _ => Return r) (call (fun sv => (tt, drop sv)))) (owning drop body).

(** ** Failures *)

Definition or_else {A} (a b : option A) : option A := match a with Some x => Some x | None => b end.

Definition fs_failure_from_rpc_error (ctx : RequestContext) (err : RpcErrorDetail) (group_name : option GroupName)
    (mount_epoch route_epoch : option Z) : FsFailure :=
  mk_FsFailure err (or_else group_name (rq_group_name (rc_caller ctx))) mount_epoch route_epoch [].

(** [Panic] if the error is one that [to_rpc_error] does not map. *)
Definition fs_failure_from_metadata_error {A} (ctx : RequestContext) (err : MetadataError) (group_name : option GroupName)
    (mount_epoch route_epoch : option Z) : result FsFailure A :=
  match to_rpc_error err with
  | Ok rpc => Err (fs_failure_from_rpc_error ctx rpc group_name mount_epoch route_epoch)
  | _ => Panic
  end.

Definition refresh_metadata_fs_failure (ctx : RequestContext) (kind : ErrorKind) (message : string)
    (group_name : option GroupName) (mount_epoch route_epoch : option Z) (hint : option RefreshHint) : FsFailure :=
  fs_failure_from_rpc_error ctx (rpc_refresh_metadata kind (default refresh_hint_default hint) message) group_name mount_epoch
    route_epoch.

Definition failure_from_error_with_route_epoch {A} (ctx : RequestContext) (err : MetadataError)
    (group_name : option GroupName) (mount_epoch route_epoch : option Z) : fs A :=
  give (fs_failure_from_metadata_error ctx err group_name mount_epoch route_epoch).

Definition failure_from_error {A} (ctx : RequestContext) (err : MetadataError) (group_name : option GroupName)
    (mount_epoch : option Z) : fs A :=
  failure_from_error_with_route_epoch ctx err group_name mount_epoch None.

(** [match r { Ok(a) => a, Err(err) => return self.failure_from_error(...) }]. *)
Definition or_fail {A} (r : MetadataResult A) (ctx : RequestContext) (group_name : option GroupName)
    (mount_epoch : option Z) : fs A :=
  match r with
  | Ok a => Return (Ok a)
  | Err err => failure_from_error ctx err group_name mount_epoch
  | Panic => Crash
  end.

Definition or_fail_with_route_epoch {A} (r : MetadataResult A) (ctx : RequestContext) (group_name : option GroupName)
    (mount_epoch route_epoch : option Z) : fs A :=
  match r with
  | Ok a => Return (Ok a)
  | Err err => failure_from_error_with_route_epoch ctx err group_name mount_epoch route_epoch
  | Panic => Crash
  end.

Definition session_terminal_failure {A} (ctx : RequestContext) (kind : ErrorKind) (message : string)
    (group_name : option GroupName) (mount_epoch : option Z) : fs A :=
  Return (Err (mk_FsFailure (rpc_reopen_write_session kind refresh_hint_default message)
                 (or_else group_name (rq_group_name (rc_caller ctx))) mount_epoch None [])).

(** [get_or_insert_with]: a hint is made when there is a field to put into it. *)
Definition hint_with (f : RefreshHint -> RefreshHint) (hint : option RefreshHint) : option RefreshHint :=
  Some (f (default refresh_hint_default hint)).

Definition refresh_metadata_failure_with_hint (ctx : RequestContext) (kind : ErrorKind) (message : string)
    (group_name : option GroupName) (mount_epoch route_epoch : option Z) (hint : option RefreshHint) : FsFailure :=
  let hint := match group_name with
              | Some g => hint_with (fun h => mk_RefreshHint (rh_leader_endpoint h) (Some g) (rh_mount_epoch h) (rh_mount_prefix h)
                                               (rh_route_epoch h) (rh_worker_endpoints h) (rh_worker_resolve_required h)) hint
              | None => hint
              end in
  let hint := match mount_epoch with
              | Some e => hint_with (fun h => mk_RefreshHint (rh_leader_endpoint h) (rh_group_name h) (Some e) (rh_mount_prefix h)
                                               (rh_route_epoch h) (rh_worker_endpoints h) (rh_worker_resolve_required h)) hint
              | None => hint
              end in
  let hint := match route_epoch with
              | Some e => hint_with (fun h => mk_RefreshHint (rh_leader_endpoint h) (rh_group_name h) (rh_mount_epoch h)
                                               (rh_mount_prefix h) (Some e) (rh_worker_endpoints h) (rh_worker_resolve_required h)) hint
              | None => hint
              end in
  refresh_metadata_fs_failure ctx kind message group_name mount_epoch route_epoch hint.

(** ** Admission: guard.rs *)

Record AdmissionFailure := mk_AdmissionFailure {
  af_err : RpcErrorDetail;
  af_group_name : option GroupName;
  af_mount_epoch : option Z
}.

Definition from_rpc_metadata_error {A} (err : MetadataError) : result AdmissionFailure A :=
  match to_rpc_error err with Ok rpc => Err (mk_AdmissionFailure rpc None None) | _ => Panic end.

Inductive DataIoOp := DIO_Read | DIO_Write.

Definition check_readiness (sv : Server) : result AdmissionFailure unit :=
  if sv_ready sv then Ok tt else from_rpc_metadata_error (ServiceUnavailable "root mount not ready").

(** [get_membership] is [None] before any node is a member. *)
Definition leader_endpoint (node : RaftNode) : option string :=
  leader_id ← rn_leader_id node;
  found ← list_find (fun member => member.1 = leader_id) (rn_members node);
  Some found.2.2.

Definition check_leadership (sv : Server) (ctx : RequestContext) : result AdmissionFailure unit :=
  if rn_is_leader (sv_node sv) then Ok tt
  else
    Err (mk_AdmissionFailure
           (rpc_refresh_metadata (EK_Metadata MEK_NotLeader)
              (mk_RefreshHint (leader_endpoint (sv_node sv)) (rq_group_name (rc_caller ctx)) None None None [] false)
              "not leader") None None).

Definition check_data_io_policy (sv : Server) (mount : MountId) (op : DataIoOp) : result AdmissionFailure unit :=
  match mount_table_get (sv_mounts sv) mount with
  | None => from_rpc_metadata_error (NotFound "Mount not found")
  | Some entry =>
      if bool_decide (data_io_policy entry <> Forbid) then Ok tt
      else Err (mk_AdmissionFailure (rpc_fail (EK_Protocol PEK_Unsupported) "MountDataIoForbidden")
                  (Some (namespace_owner_group_name entry)) (Some (mount_epoch entry)))
  end.

Definition check_meta_read (sv : Server) : result AdmissionFailure unit := check_readiness sv.
Definition check_meta_write (sv : Server) (ctx : RequestContext) : result AdmissionFailure unit :=
  check_readiness sv;; check_leadership sv ctx.
Definition check_data_read (sv : Server) (mount : MountId) : result AdmissionFailure unit :=
  check_readiness sv;; check_data_io_policy sv mount DIO_Read.
Definition check_data_write (sv : Server) (ctx : RequestContext) (mount : MountId) : result AdmissionFailure unit :=
  check_readiness sv;; check_leadership sv ctx;; check_data_io_policy sv mount DIO_Write.

Definition failure_from_admission (failure : AdmissionFailure) : FsFailure :=
  mk_FsFailure (af_err failure) (af_group_name failure) (af_mount_epoch failure) None [].

(** [if let Err(failure) = self.admission.check(...) { return self.failure_from_admission(failure) }]. *)
Definition require_admission (check : Server -> result AdmissionFailure unit) : fs unit :=
  r ← lift (look check);
  match r with
  | Ok _ => Return (Ok tt)
  | Err failure => Return (Err (failure_from_admission failure))
  | Panic => Crash
  end.

(** ** Storage, routing and success *)

Definition stored {A} (sv : Server) (a : A) : MetadataResult A :=
  match sv_read_error sv with Some e => Err e | None => Ok a end.

Definition read_inode (sv : Server) (id : InodeId) : MetadataResult (option Inode) :=
  stored sv (get_inode (sv_store sv) id).
Definition read_dentry (sv : Server) (parent : InodeId) (name : string) : MetadataResult (option InodeId) :=
  stored sv (get_dentry (sv_store sv) parent name).
Definition read_layout (sv : Server) (id : InodeId) : MetadataResult FileLayout :=
  s ← stored sv (sv_store sv);
  get_layout s id.

(** The path resolver over this process's mount table and database. The mount
    root itself is resolved without a read. *)
Definition resolve (sv : Server) (path : string) : MetadataResult ResolvedPath :=
  match sv_read_error sv with
  | None => resolve_path (sv_mounts sv) (sv_store sv) path
  | Some e =>
      '(_, components) ← resolve_mount (sv_mounts sv) path;
      if bool_decide (components = []) then resolve_path (sv_mounts sv) (sv_store sv) path else Err e
  end.

Definition response_state_for_success (sv : Server) (group_name : option GroupName) : list GroupStateWatermark :=
  match group_name with
  | None => []
  | Some g =>
      if negb (rn_is_leader (sv_node sv)) then []
      else option_list (mk_GroupStateWatermark g <$> rn_last_applied (sv_node sv))
  end.

Definition success_with_route_epoch {T} (payload : T) (group_name : option GroupName) (mount_epoch route_epoch : option Z)
  : fs (FsSuccess T) :=
  lift (look (fun sv => mk_FsSuccess payload group_name mount_epoch route_epoch (response_state_for_success sv group_name))).

Definition success {T} (payload : T) (group_name : option GroupName) (mount_epoch : option Z) : fs (FsSuccess T) :=
  success_with_route_epoch payload group_name mount_epoch None.

(** The same response with another payload. *)
Definition map_payload {T U} (f : T -> U) (s : FsSuccess T) : FsSuccess U :=
  mk_FsSuccess (f (fs_payload s)) (fs_group_name s) (fs_mount_epoch s) (fs_route_epoch s) (fs_state s).

Definition failure_from_resolved_path_error {A} (ctx : RequestContext) (err : MetadataError) (mount_ctx : option MountContext)
  : fs A :=
  failure_from_error ctx err (mc_owner_group_name <$> mount_ctx) (mc_mount_epoch <$> mount_ctx).

Definition failure_from_path_error {A} (ctx : RequestContext) (path : string) (err : MetadataError) : fs A :=
  mount_ctx ← lift (look (fun sv => match resolve_mount_components (sv_mounts sv) path with
                                    | Ok (mount_ctx, _) => Some mount_ctx
                                    | _ => None
                                    end));
  failure_from_resolved_path_error ctx err mount_ctx.

(** [match resolver(path) { Ok(a) => a, Err(err) => return self.failure_from_path_error(ctx, path, err) }]. *)
Definition or_path_error {A} (r : MetadataResult A) (ctx : RequestContext) (path : string) : fs A :=
  match r with
  | Ok a => Return (Ok a)
  | Err err => failure_from_path_error ctx path err
  | Panic => Crash
  end.

Definition missing_resolved_target_error (resolved : ResolvedPath) : MetadataError :=
  match rp_parent_inode_id resolved, rp_name resolved with
  | Some _, Some _ => NotFound "Entry not found"
  | _, _ => NotFound "resolved path has no target"
  end.

Definition require_worker_lookup_group (ctx : RequestContext) (group_name : option GroupName)
    (mount_epoch route_epoch : option Z) : fs GroupName :=
  match group_name with
  | Some g => Return (Ok g)
  | None =>
      failure_from_error_with_route_epoch ctx (Internal "worker lookup requires authoritative metadata group") None
        mount_epoch route_epoch
  end.

(** The wire form of a run id parses back to it. *)
Definition worker_endpoint_info_from_parts (worker : WorkerId) (endpoint : string) (run : WorkerRunId)
  : result string WorkerEndpointInfo :=
  reject_if (bool_decide (worker = 0)) "WorkerEndpointInfoProto.worker_id must be non-zero"%string;;
  reject_if (bool_decide (endpoint = EmptyString)) "WorkerEndpointInfoProto.endpoint must not be empty"%string;;
  Ok (mk_WorkerEndpointInfo worker endpoint run).

Definition worker_endpoint_from_parts (worker : WorkerId) (endpoint : string) (protocol : Z) (run : WorkerRunId)
  : MetadataResult WorkerEndpointInfo :=
  reject_if (bool_decide (protocol <> 1)) (InvalidArgument "unsupported persisted worker network protocol");;
  map_err InvalidArgument (worker_endpoint_info_from_parts worker endpoint run).

Definition validate_active_write_layout (layout : FileLayout) : MetadataResult unit :=
  map_err (fun _ => InvalidArgument "invalid file layout") (layout_validate layout).

(** ** Freshness: guard.rs *)

Inductive StaleStateStatus := SSS_Ready | SSS_UnknownLastApplied.

(** [StateStore::get_route_epoch]: a read on the leader. *)
Definition current_route_epoch (sv : Server) : MetadataResult Z :=
  if rn_is_leader (sv_node sv) then Ok (rn_route_epoch (sv_node sv)) else Err (LeaderChanged "Node is not the leader").

Definition authoritative_route_epoch (sv : Server) : MetadataResult Z := current_route_epoch sv.

Definition mount_hints_for_mount (sv : Server) (mount : MountId) : option GroupName * option Z :=
  match mount_table_get (sv_mounts sv) mount with
  | Some entry => (Some (namespace_owner_group_name entry), Some (mount_epoch entry))
  | None => (None, None)
  end.

Definition validate_mount_epoch (sv : Server) (ctx : RequestContext) (freshness : Freshness) (mount : MountId)
  : result FsFailure (option GroupName * option Z) :=
  let '(group_name, server_epoch) := mount_hints_for_mount sv mount in
  match or_else (fr_mount_epoch freshness) (rq_mount_epoch (rc_caller ctx)), server_epoch with
  | Some client, Some server =>
      if bool_decide (client <> server)
      then Err (refresh_metadata_fs_failure ctx (EK_Metadata MEK_MountEpochMismatch) "mount_epoch mismatch" group_name
                  (Some server) None
                  (Some (mk_RefreshHint None group_name (Some server) None None [] false)))
      else Ok (group_name, server_epoch)
  | _, _ => Ok (group_name, server_epoch)
  end.

Definition validate_route_epoch (sv : Server) (ctx : RequestContext) (freshness : Freshness) (group_name : option GroupName)
    (mount_epoch : option Z) : result FsFailure (option Z) :=
  match current_route_epoch sv with
  | Err err => fs_failure_from_metadata_error ctx err group_name mount_epoch None
  | Panic => Panic
  | Ok server =>
      match or_else (fr_route_epoch freshness) (rc_route_epoch ctx) with
      | Some client =>
          if bool_decide (client <> server)
          then Err (refresh_metadata_fs_failure ctx (EK_Metadata MEK_RouteEpochMismatch) "route_epoch mismatch" group_name
                      mount_epoch (Some server)
                      (Some (mk_RefreshHint None group_name mount_epoch None (Some server) [] false)))
          else Ok (Some server)
      | None => Ok (Some server)
      end
  end.

Definition validate_stale_state (ctx : RequestContext) (last_applied : option RaftLogId) (group_name : option GroupName)
    (mount_epoch : option Z) : result FsFailure StaleStateStatus :=
  match group_name with
  | None => Ok SSS_Ready
  | Some g =>
      match list_find (fun w => gw_group_name w = g) (rq_state (rc_caller ctx)) with
      | None => Ok SSS_Ready
      | Some (_, watermark) =>
          match last_applied with
          | None => Ok SSS_UnknownLastApplied
          | Some applied =>
              if negb (has_reached applied (gw_state_id watermark))
              then Err (refresh_metadata_fs_failure ctx (EK_Metadata MEK_StaleState) "Stale state" (Some g) mount_epoch
                          None None)
              else Ok SSS_Ready
          end
      end
  end.

(** ** Proposals: command.rs and [propose] of raft/node.rs *)

Record RoutedFsWriteCtx := mk_RoutedFsWriteCtx {
  rt_mount_id : MountId;
  rt_mount_root_inode_id : InodeId;
  rt_group_name : GroupName;
  rt_mount_epoch : Z
}.

(** The other parents of a command must be in the mount of the first. *)
Fixpoint same_mount (sv : Server) (mount : MountId) (parents : list InodeId) : MetadataResult unit :=
  match parents with
  | [] => Ok tt
  | other :: rest =>
      found ← read_inode sv other;
      inode ← ok_or found (NotFound "Parent inode not found");
      reject_if (bool_decide (inode_mount_id inode <> mount)) (CrossMountRename "cross-mount operation is not allowed");;
      same_mount sv mount rest
  end.

Definition route_fs_write_ctx (sv : Server) (parents : list InodeId) : MetadataResult RoutedFsWriteCtx :=
  parent ← ok_or (head parents) (InvalidArgument "No parent inode provided");
  found ← read_inode sv parent;
  inode ← ok_or found (NotFound "Parent inode not found");
  same_mount sv (inode_mount_id inode) (tail parents);;
  entry ← ok_or (mount_table_get (sv_mounts sv) (inode_mount_id inode)) (NotFound "Mount not found");
  Ok (mk_RoutedFsWriteCtx (inode_mount_id inode) (root_inode_id entry) (namespace_owner_group_name entry) (mount_epoch entry)).

Definition route_ctx_for_write_with_error_hints (ctx : RequestContext) (parents : list InodeId) (freshness : Freshness)
    (error_group_name : option GroupName) (error_mount_epoch : option Z) : fs RoutedFsWriteCtx :=
  found ← lift (look (fun sv => route_fs_write_ctx sv parents));
  routed ← or_fail found ctx error_group_name error_mount_epoch;
  valid ← lift (look (fun sv => validate_mount_epoch sv ctx freshness (rt_mount_id routed)));
  _ ← give valid;
  Return (Ok routed).

Definition route_ctx_for_write (ctx : RequestContext) (parents : list InodeId) (freshness : Freshness) : fs RoutedFsWriteCtx :=
  route_ctx_for_write_with_error_hints ctx parents freshness None None.

Definition unexpected_raft_apply_success : MetadataError := Internal "Raft command returned unexpected success".

(** A task of its own: it is scheduled like any other, it is not abandoned with its
    caller, and a panic inside it is an error of the caller. *)
Fixpoint detached {A} (p : prog (MetadataResult A)) : prog (MetadataResult A) :=
  match p with
  | Return a => Return a
  | Crash => Return (Err (Internal "file publication task failed"))
  | Step k run =>
      Step match k with Await _ => Await None | Sync => Sync end
        (fun sv => match run sv with Some (p', sv') => Some (detached p', sv') | None => None end)
  end.
Definition spawned {A} (p : prog (MetadataResult A)) : prog (MetadataResult A) :=
  Step (Await None) (fun sv => Some (detached p, sv)).

(** [Some(a) >= b], with [None] below every epoch. *)
Definition at_least (a : LeaseEpoch) (b : option LeaseEpoch) : bool :=
  match b with Some b => b <=? a | None => true end.

Section service.
Variable command_len : Command -> option Z.
Variable limits : SessionLimits.

(** Entering the log of the Raft leader. *)
Definition submit (command : Command) (sv : Server) : nat * Server :=
  (sv_next_ticket sv,
   with_proposals sv (<[sv_next_ticket sv := command]> (sv_proposals sv)) (sv_answers sv) (S (sv_next_ticket sv))).

Definition propose_write_command (command : Command) : prog (MetadataResult ApplySuccess) :=
  match command_len command with
  | None => Return (Err (Internal "Failed to serialize Raft command"))
  | Some bytes =>
      if MAX_COMMAND_BYTES <? bytes then Return (Err (ResourceExhausted "Raft command exceeds the maximum size"))
      else
        ticket ← call (submit command);
        answer ← await (fun sv => answer ← sv_answers sv !! ticket; Some (answer, sv));
        Return (write_outcome answer)
  end.

Definition propose_fs_write_command {T} (command : Command) (decode_success : ApplySuccess -> MetadataResult T)
  : prog (MetadataResult T) :=
  response ← propose_write_command command;
  Return (success ← response; decode_success success).

Definition propose_block_allocation (id : InodeId) (lease_epoch : LeaseEpoch) : prog (MetadataResult BlockId) :=
  response ← propose_write_command (AllocateBlock id lease_epoch);
  Return (success ← response;
          match success with
          | BlockAllocated block =>
              if bool_decide (block_inode_id block = id) then Ok block else Err unexpected_raft_apply_success
          | _ => Err unexpected_raft_apply_success
          end).

(** The generation a publication's answer shows. *)
Definition publication_answer (id : InodeId) (ended_epoch : option LeaseEpoch) (closes : bool)
    (response : MetadataResult ApplySuccess) : MetadataResult ContentGeneration :=
  success ← response;
  match success with
  | FileCommitted returned generation ended =>
      if closes && bool_decide (returned = id) && bool_decide (Some ended = ended_epoch)
      then Ok generation else Err unexpected_raft_apply_success
  | FilePublished returned generation =>
      if negb closes && bool_decide (returned = id) then Ok generation else Err unexpected_raft_apply_success
  | _ => Err unexpected_raft_apply_success
  end.

(** The task of [propose_file_publication]. *)
Definition publication_task (command fence : Command) (id : InodeId) (ended_epoch : option LeaseEpoch) (file_size : Z)
    (closes : bool) (publication : WritePublication) : prog (MetadataResult ContentGeneration) :=
  response ← propose_write_command command;
  match publication_answer id ended_epoch closes response with
  | Panic => Crash
  | Ok generation =>
      if closes
      then
        _ ← registry (fun st _ => st ← publication_complete_commit st publication; Ok (st, tt));
        Return (Ok generation)
      else
        r ← registry (fun st now => publication_complete_sync st publication generation file_size now);
        Return (map_err Internal (_ ← r; Ok generation))
  | Err error =>
      fenced ← propose_write_command fence;
      match fenced with
      | Ok (WriteLeaseEnded returned ended) =>
          if bool_decide (returned = id) && at_least ended ended_epoch
          then
            _ ← registry (fun st _ => st ← publication_complete_commit st publication; Ok (st, tt));
            Return (Err error)
          else Return (Err error)
      | _ => Return (Err error)
      end
  end.

Definition publication_facts (command : Command) : option (InodeId * LeaseEpoch * Z * bool) :=
  match command with
  | CommitFile _ id _ _ publication => Some (id, fp_lease_epoch publication, fp_target_size publication, true)
  | PublishFile _ id publication => Some (id, fp_lease_epoch publication, fp_target_size publication, false)
  | _ => None
  end.

Definition propose_file_publication (command : Command) (publication : WritePublication) : prog (MetadataResult ContentGeneration) :=
  match publication_facts command with
  | None => Crash
  | Some (id, lease_epoch, file_size, closes) =>
      marked ← registry (fun st now => mark_submitted st publication now);
      match marked with
      | Panic => Crash
      | Err message =>
          _ ← call (fun sv => (tt, with_registry sv (drop_publication (sv_registry sv) publication)));
          Return (Err (Again message))
      | Ok publication =>
          now ← look sv_now_ms;
          spawned (publication_task command (EndWriteLease now id lease_epoch) id (lease_checked_next lease_epoch) file_size
                     closes publication)
      end
  end.

(** [raft.read(true, ...)] up to its closure. *)
Definition read_barrier : prog (MetadataResult unit) :=
  await (fun sv => Some (if rn_linearizable (sv_node sv) then Ok tt else Err (Internal "Failed to ensure linearizability"), sv)).
End service.
