(* ===== verification/ServiceRead.v ===== *)
(** * Filesystem service: reads

    service/filesystem/read.rs: status of a path, pages of a directory, and the
    layout and block locations of a file. *)

From S2P Require Import Prelude Types Errors Inode Mount Store Apply Session SessionInv PathResolver Placement Workers Maintenance Server Service.
Local Open Scope Z_scope.

Inductive FileType := FT_File | FT_Dir.

Definition file_type (i : Inode) : FileType := if is_file i then FT_File else FT_Dir.

Record GetAttrOutput := mk_GetAttrOutput {
  ga_kind : FileType;
  ga_attrs : InodeAttrs;
  ga_len : Z
}.

Record ReadDirEntry := mk_ReadDirEntry {
  rd_name : string;
  rd_kind : FileType;
  rd_attrs : InodeAttrs;
  rd_len : Z
}.

(** A missing cursor is the empty key of the source. *)
Record ReadDirOutput := mk_ReadDirOutput {
  ro_entries : list ReadDirEntry;
  ro_next_cursor : option (InodeId * string);
  ro_eof : bool
}.

Record FileBlockLocation := mk_FileBlockLocation {
  bl_block_id : BlockId;
  bl_file_offset : Z;
  bl_len : Z;
  bl_workers : list WorkerEndpointInfo;
  bl_block_format_id : Z;
  bl_block_size : Z;
  bl_chunk_size : Z;
  bl_effective_len : Z
}.

Record GetFileLayoutOutput := mk_GetFileLayoutOutput {
  gl_file_size : Z;
  gl_generation : option ContentGeneration;
  gl_locations : list FileBlockLocation
}.

Record OpenFileOutput := mk_OpenFileOutput {
  of_inode_id : InodeId;
  of_file_size : Z;
  of_generation : option ContentGeneration
}.

Record GetBlockLocationsOutput := mk_GetBlockLocationsOutput {
  gb_inode_id : InodeId;
  gb_file_size : Z;
  gb_generation : option ContentGeneration;
  gb_locations : list FileBlockLocation
}.

Inductive BlockLocationsTarget := BT_Path (path : string) | BT_InodeId (id : InodeId).

(** ** Freshness of a read *)

Definition validate_read_freshness_for_mount (ctx : RequestContext) (freshness : Freshness) (mount : MountId)
  : fs (option GroupName * option Z * option Z) :=
  hints ← lift (look (fun sv => validate_mount_epoch sv ctx freshness mount));
  '(group_name, mount_epoch) ← give hints;
  route ← lift (look (fun sv => validate_route_epoch sv ctx freshness group_name mount_epoch));
  route_epoch ← give route;
  stale ← lift (look (fun sv => validate_stale_state ctx (rn_last_applied (sv_node sv)) group_name mount_epoch));
  status ← give stale;
  match status with
  | SSS_Ready => Return (Ok (group_name, mount_epoch, route_epoch))
  | SSS_UnknownLastApplied =>
      Return (Err (refresh_metadata_fs_failure ctx (EK_Metadata MEK_StaleState)
                     "local applied state is unavailable for read freshness validation" group_name mount_epoch
                     route_epoch None))
  end.

(** The inode under its own key. *)
Definition inode_authority (ctx : RequestContext) (id : InodeId) (missing : string) : fs Inode :=
  found ← lift (look (fun sv => read_inode sv id));
  found ← or_fail found ctx None None;
  inode ← or_fail (ok_or found (NotFound missing)) ctx None None;
  or_fail (reject_if (bool_decide (inode_id inode <> id)) (Internal "inode authority is corrupt")) ctx None None;;
  Return (Ok inode).

(** ** Status *)

Definition get_attr_resolved (ctx : RequestContext) (id : InodeId) (freshness : Freshness) : fs (FsSuccess GetAttrOutput) :=
  inode ← inode_authority ctx id "Inode not found";
  '(group_name, mount_epoch, route_epoch) ← validate_read_freshness_for_mount ctx freshness (inode_mount_id inode);
  success_with_route_epoch (mk_GetAttrOutput (file_type inode) (inode_attrs inode) (inode_len inode)) group_name mount_epoch
    route_epoch.

(** A path and the inode it names. *)
Definition existing_target (ctx : RequestContext) (path : string) : fs (ResolvedPath * InodeId) :=
  found ← lift (look (fun sv => resolve sv path));
  resolved ← or_path_error found ctx path;
  match rp_inode_id resolved with
  | Some id => Return (Ok (resolved, id))
  | None => failure_from_resolved_path_error ctx (missing_resolved_target_error resolved) (Some (rp_mount_ctx resolved))
  end.

Definition get_status (ctx : RequestContext) (path : string) (freshness : Freshness) : fs (FsSuccess GetAttrOutput) :=
  require_admission check_meta_read;;
  '(_, id) ← existing_target ctx path;
  get_attr_resolved ctx id freshness.

(** ** Directories *)

(** Each entry is joined with the inode it names, at a moment of its own. *)
Fixpoint join_entries (ctx : RequestContext) (group_name : option GroupName) (mount_epoch route_epoch : option Z)
    (entries : list (string * InodeId)) : fs (list ReadDirEntry) :=
  match entries with
  | [] => Return (Ok [])
  | (name, child) :: rest =>
      found ← lift (look (fun sv => read_inode sv child));
      found ← or_fail_with_route_epoch found ctx group_name mount_epoch route_epoch;
      inode ← or_fail_with_route_epoch (ok_or found (NotFound "Directory dentry points to missing inode")) ctx group_name
                mount_epoch route_epoch;
      or_fail_with_route_epoch
        (reject_if (bool_decide (inode_id inode <> child)) (Internal "child inode authority is corrupt")) ctx group_name
        mount_epoch route_epoch;;
      joined ← join_entries ctx group_name mount_epoch route_epoch rest;
      Return (Ok (mk_ReadDirEntry name (file_type inode) (inode_attrs inode) (inode_len inode) :: joined))
  end.

Definition read_dir_resolved (ctx : RequestContext) (parent : InodeId) (cursor : option Cursor) (max_entries : nat)
    (freshness : Freshness) : fs (FsSuccess ReadDirOutput) :=
  inode ← inode_authority ctx parent "Parent inode not found";
  or_fail (reject_if (negb (is_dir inode)) (InvalidArgument "Parent is not a directory")) ctx None None;;
  '(group_name, mount_epoch, route_epoch) ← validate_read_freshness_for_mount ctx freshness (inode_mount_id inode);
  page ← lift (look (fun sv => s ← stored sv (sv_store sv); list_dentries_with_cursor s parent cursor max_entries));
  '(entries, next_cursor, eof) ← or_fail page ctx group_name mount_epoch;
  joined ← join_entries ctx group_name mount_epoch route_epoch entries;
  success_with_route_epoch (mk_ReadDirOutput joined next_cursor eof) group_name mount_epoch route_epoch.

Definition list_status (ctx : RequestContext) (path : string) (cursor : option Cursor) (max_entries : nat)
    (freshness : Freshness) : fs (FsSuccess ReadDirOutput) :=
  require_admission check_meta_read;;
  '(_, id) ← existing_target ctx path;
  read_dir_resolved ctx id cursor max_entries freshness.

(** ** Locations *)

Definition has_usable_read_endpoint (worker : WorkerPlacementView) : bool :=
  match pv_worker_run_id worker with
  | None => false
  | Some run => is_ok (worker_endpoint_from_parts (pv_worker_id worker) (pv_endpoint worker) (pv_worker_net_protocol worker) run)
  end.

Definition classify_unavailable_read_location (reported : list ReportedBlockLocation) (views : list WorkerPlacementView)
  : ErrorKind :=
  if existsb (fun location =>
       existsb (fun worker => bool_decide (pv_worker_id worker = rl_worker_id location)
                              && match pv_worker_run_id worker with
                                 | Some run => bool_decide (run <> rl_worker_run_id location)
                                 | None => false
                                 end) views) reported
  then EK_Worker WEK_RunMismatch else EK_Worker WEK_BlockLocationUnavailable.

(** The endpoints of a plan; workers whose endpoint does not convert are left out. *)
Definition plan_endpoints (workers : list PlacementWorker) : list WorkerEndpointInfo :=
  omap (fun w => match worker_endpoint_from_parts (pw_worker_id w) (pw_endpoint w) (pw_worker_net_protocol w) (pw_worker_run_id w) with
                 | Ok endpoint => Some endpoint
                 | _ => None
                 end) workers.

Definition in_range (range_start range_end file_offset effective_len : Z) : bool :=
  negb (bool_decide (range_start = range_end) || (range_end <=? file_offset) || (file_offset + effective_len <=? range_start)).

Section read.
Variable heartbeat_timeout_ms : Z.

(** The workers that can serve the visible prefix of one block. *)
Definition locate_block (ctx : RequestContext) (group : GroupName) (block : BlockId) (effective_len : Z) (layout : FileLayout)
    (group_name : option GroupName) (mount_epoch route_epoch : option Z) : fs (list WorkerEndpointInfo) :=
  reported ← lift (look (fun sv => reported_block_locations (sv_workers sv) group block));
  views ← lift (look (fun sv => filter (fun v => has_usable_read_endpoint v = true)
                                  (collect_worker_placement_views heartbeat_timeout_ms (sv_workers sv) group (sv_instant sv))));
  let p := plan (mk_PlacementRequest group PO_Read block effective_len layout (caller_context_fields ctx) reported []
                   SUPPORTED_REPLICA_COUNT) views in
  match pp_status p with
  | PS_NoLiveReplica =>
      Return (Err (refresh_metadata_failure_with_hint ctx (classify_unavailable_read_location reported views)
                     "no live replica holds the visible prefix of block" group_name mount_epoch route_epoch
                     (Some (mk_RefreshHint None None None None None [] true))))
  | _ => Return (Ok (plan_endpoints (pp_workers p)))
  end.

(** The loop over the blocks of the file, from [ordinal] on. *)
Fixpoint locate_blocks (ctx : RequestContext) (group : option GroupName) (file : FileData) (chunk_size range_start range_end : Z)
    (group_name : option GroupName) (mount_epoch route_epoch : option Z) (ordinal : nat) (blocks : list BlockId)
  : fs (list FileBlockLocation) :=
  match blocks with
  | [] => Return (Ok [])
  | block :: rest =>
      let file_offset := Z.of_nat ordinal * fl_block_size (fd_layout file) in
      let effective_len := block_len file (Z.of_nat ordinal) in
      if negb (in_range range_start range_end file_offset effective_len)
      then locate_blocks ctx group file chunk_size range_start range_end group_name mount_epoch route_epoch (S ordinal) rest
      else
        workers ← match group with
                  | Some g => locate_block ctx g block effective_len (fd_layout file) group_name mount_epoch route_epoch
                  | None => Return (Ok [])
                  end;
        located ← locate_blocks ctx group file chunk_size range_start range_end group_name mount_epoch route_epoch (S ordinal) rest;
        Return (Ok (mk_FileBlockLocation block file_offset effective_len workers (fl_block_format_id (fd_layout file))
                      (fl_block_size (fd_layout file)) chunk_size effective_len :: located))
  end.

Definition get_file_layout_resolved (ctx : RequestContext) (id : InodeId) (range : option FileRange) (freshness : Freshness)
  : fs (FsSuccess GetFileLayoutOutput) :=
  inode ← inode_authority ctx id "Inode not found";
  or_fail (reject_if (negb (is_file inode)) (IsDir "Inode is not a file")) ctx None None;;
  '(group_name, mount_epoch, route_epoch) ← validate_read_freshness_for_mount ctx freshness (inode_mount_id inode);
  match inode_kind inode with
  | KDir => Crash
  | KFile file =>
      or_fail_with_route_epoch (file_validate file id) ctx group_name mount_epoch route_epoch;;
      match block_format_spec (fl_block_format_id (fd_layout file)) with
      | Ok chunk_size =>
          '(range_start, range_end) ←
            match range with
            | Some r =>
                or_fail_with_route_epoch
                  (range_end ← ok_or (checked_add64 (rg_offset r) (rg_len r)) (InvalidArgument "range end overflows");
                   Ok (rg_offset r, range_end)) ctx group_name mount_epoch route_epoch
            | None => Return (Ok (0, fd_len file))
            end;
          worker_group ←
            (if negb (bool_decide (fd_blocks file = [])) && (range_start <? range_end)
             then
               g ← require_worker_lookup_group ctx group_name mount_epoch route_epoch;
               Return (Ok (Some g))
             else Return (Ok None));
          locations ← locate_blocks ctx worker_group file chunk_size range_start range_end group_name mount_epoch route_epoch 0
                        (fd_blocks file);
          success_with_route_epoch (mk_GetFileLayoutOutput (inode_len inode) (Some (fd_generation file)) locations) group_name
            mount_epoch route_epoch
      | _ => Crash
      end
  end.

Definition open_file (ctx : RequestContext) (path : string) (freshness : Freshness) : fs (FsSuccess OpenFileOutput) :=
  require_admission check_meta_read;;
  '(resolved, id) ← existing_target ctx path;
  require_admission (fun sv => check_data_read sv (mc_mount_id (rp_mount_ctx resolved)));;
  layout ← get_file_layout_resolved ctx id None freshness;
  Return (Ok (map_payload (fun l => mk_OpenFileOutput id (gl_file_size l) (gl_generation l)) layout)).

Definition plan_inode_mount (ctx : RequestContext) (id : InodeId) : fs MountId :=
  inode ← inode_authority ctx id "Inode not found";
  or_fail (reject_if (negb (is_file inode)) (IsDir "Inode is not a file")) ctx None None;;
  Return (Ok (inode_mount_id inode)).

(** [get_block_locations] of the service. *)
Definition get_file_block_locations (ctx : RequestContext) (target : BlockLocationsTarget) (range : option FileRange)
    (freshness : Freshness) : fs (FsSuccess GetBlockLocationsOutput) :=
  require_admission check_meta_read;;
  id ← match target with
       | BT_Path path =>
           '(resolved, id) ← existing_target ctx path;
           require_admission (fun sv => check_data_read sv (mc_mount_id (rp_mount_ctx resolved)));;
           Return (Ok id)
       | BT_InodeId id =>
           mount ← plan_inode_mount ctx id;
           require_admission (fun sv => check_data_read sv mount);;
           Return (Ok id)
       end;
  layout ← get_file_layout_resolved ctx id range freshness;
  Return (Ok (map_payload (fun l => mk_GetBlockLocationsOutput id (gl_file_size l) (gl_generation l) (gl_locations l)) layout)).
End read.
