(* ===== verification/ServiceWrite.v ===== *)
(** * Filesystem service: write sessions

    service/filesystem/write.rs: opening a file for writing, allocating blocks,
    authorizing the streams of a writer, renewing and aborting its lease. *)

From S2P Require Import Prelude Types Errors Inode Mount Store Apply Session SessionInv PathResolver Placement Workers Maintenance Server Service.
Local Open Scope Z_scope.

Definition MEK (k : MetadataErrorKind) : ErrorKind := EK_Metadata k.

(** A part of a handler whose errors are not responses yet. *)
Definition meta (A : Type) : Type := prog (MetadataResult A).
#[global] Instance meta_bind : MBind meta := fun A B k m =>
  mbind (M := prog) (fun r => match r with Ok a => k a | Err e => Return (Err e) | Panic => Crash end) m.
Definition ask {A} (p : prog A) : meta A := mbind (M := prog) (fun a => Return (Ok a)) p.
Definition yield {A} (r : MetadataResult A) : meta A := Return r.

Record AuthorizeBlockWriteArgs := mk_AuthorizeBlockWriteArgs {
  aw_group_name : GroupName;
  aw_worker_id : WorkerId;
  aw_worker_run_id : WorkerRunId;
  aw_fencing_token : FencingToken;
  aw_write_offset : Z;
  aw_shape : BlockShape;
  aw_tier : Tier
}.

Record OpenWriteOutput := mk_OpenWriteOutput {
  ow_inode_id : InodeId;
  ow_lease_epoch : LeaseEpoch;
  ow_layout : FileLayout;
  ow_base_size : Z;
  ow_expires_at_ms : Z;
  ow_generation : ContentGeneration;
  ow_tail_block : option LocatedBlock
}.

Definition open_write_output (session : WriteSession) : OpenWriteOutput :=
  mk_OpenWriteOutput (ws_inode_id session) (ws_lease_epoch session) (ws_layout session) (ws_base_size session)
    (ws_expires_at_ms session) (ws_generation session)
    (target ← head (ws_issued_targets session); if 0 <? lb_write_offset target then Some target else None).

(** ** The namespace lock *)

Definition acquire_shared (sv : Server) : option (unit * Server) :=
  if tl_writer (sv_topology sv) then None
  else Some (tt, with_topology sv (mk_TopologyLock (S (tl_readers (sv_topology sv))) false)).
Definition release_shared (sv : Server) : Server :=
  with_topology sv (mk_TopologyLock (pred (tl_readers (sv_topology sv))) (tl_writer (sv_topology sv))).

Definition with_shared_topology {A} (body : fs A) : fs A :=
  lift (await acquire_shared);; scoped release_shared body.

(** ** Admission of session requests *)

Definition session_write_admission (ctx : RequestContext) (id : InodeId) : fs unit :=
  session ← lift (registry (fun st now => get_session_identity st id now));
  match session with
  | Some session => require_admission (fun sv => check_data_write sv ctx (wi_mount_id session))
  | None => require_admission (fun sv => check_meta_write sv ctx)
  end.

Section write.
Variable command_len : Command -> option Z.
Variable limits : SessionLimits.
Variable heartbeat_timeout_ms : Z.

(** ** Authorization of a stream *)

(** The worker of a stream is live in the run the stream names. *)
Definition stream_worker_live (sv : Server) (args : AuthorizeBlockWriteArgs) : bool :=
  existsb (fun v => bool_decide (pv_worker_id v = aw_worker_id args)
                    && bool_decide (pv_worker_run_id v = Some (aw_worker_run_id args)) && pv_lease_valid v)
    (collect_worker_placement_views heartbeat_timeout_ms (sv_workers sv) (aw_group_name args) (sv_instant sv)).

(** The stream continues the target it was issued for. *)
Definition stream_matches (target : LocatedBlock) (args : AuthorizeBlockWriteArgs) : bool :=
  bool_decide (lb_fencing_token target = aw_fencing_token args)
  && bool_decide (lb_block_size target = bs_block_size (aw_shape args))
  && bool_decide (lb_block_format_id target = bs_block_format_id (aw_shape args))
  && bool_decide (lb_chunk_size target = bs_chunk_size (aw_shape args))
  && bool_decide (lb_tier target = aw_tier args)
  && (lb_write_offset target <=? aw_write_offset args) && (aw_write_offset args <? lb_block_size target).

Definition visible_len_of (file : FileData) (block : BlockId) : Z :=
  match list_find (fun b => b = block) (fd_blocks file) with
  | Some (ordinal, _) => block_len file (Z.of_nat ordinal)
  | None => 0
  end.

Definition authorize_stream (ctx : RequestContext) (args : AuthorizeBlockWriteArgs) : meta Z :=
  let token := aw_fencing_token args in
  let id := block_inode_id (ft_block_id token) in
  let invalid := PermissionDenied "block writer is no longer authorized" in
  barrier ← ask read_barrier;
  _ ← yield barrier;
  found ← ask (registry (fun st now => get_session st id now));
  session ← yield (ok_or found invalid);
  valid ← ask (registry (fun st now => validate_session st id (ft_epoch token) now));
  _ ← yield (map_err (fun _ => invalid) valid);
  _ ← yield (reject_if (bool_decide (ws_open_client_id session <> ft_owner token)
                        || bool_decide (ws_lease_epoch session <> ft_epoch token)) invalid);
  found ← ask (look (fun sv => read_inode sv id));
  found ← yield found;
  inode ← yield (ok_or found invalid);
  mount ← ask (look (fun sv => mount_table_get (sv_mounts sv) (inode_mount_id inode)));
  mount ← yield (ok_or mount invalid);
  _ ← yield (reject_if (bool_decide (namespace_owner_group_name mount <> aw_group_name args)
                        || bool_decide (rq_group_name (rc_caller ctx) <> Some (aw_group_name args))) invalid);
  file ← yield (inode_file inode);
  _ ← yield (file_validate file id);
  _ ← yield (reject_if (bool_decide (fd_lease_epoch file <> ws_lease_epoch session)) invalid);
  target ← yield (ok_or (snd <$> list_find (fun t => lb_block_id t = ft_block_id token) (ws_issued_targets session)) invalid);
  _ ← yield (reject_if (negb (stream_matches target args)) invalid);
  _ ← yield (reject_if (negb (existsb (fun e => bool_decide (we_worker_id e = aw_worker_id args)
                                               && bool_decide (we_worker_run_id e = aw_worker_run_id args))
                               (lb_worker_endpoints target))) invalid);
  live ← ask (look (fun sv => stream_worker_live sv args));
  _ ← yield (reject_if (negb live) invalid);
  let visible_len := visible_len_of file (ft_block_id token) in
  _ ← yield (reject_if (aw_write_offset args <? visible_len) invalid);
  yield (Ok visible_len).

Definition authorize_block_write (ctx : RequestContext) (args : AuthorizeBlockWriteArgs) : fs (FsSuccess Z) :=
  session_write_admission ctx (block_inode_id (ft_block_id (aw_fencing_token args)));;
  result ← lift (authorize_stream ctx args);
  visible_len ← or_fail result ctx (Some (aw_group_name args)) None;
  success visible_len (Some (aw_group_name args)) None.

(** ** Abort *)

(** The mount of a session the caller owns; after a restart the replay record of
    the file's creation stands in for the session, and without either there is
    nothing to abort. *)
Definition abort_mount (ctx : RequestContext) (id : InodeId) (lease_epoch : LeaseEpoch) : fs (option MountId) :=
  session ← lift (registry (fun st now => get_session_identity st id now));
  match session with
  | Some session =>
      if bool_decide (wi_open_client_id session <> rq_client_id (rc_caller ctx))
      then session_terminal_failure ctx (MEK MEK_SessionInvalid) "AbortFileWrite client does not own inode_id" None None
      else if bool_decide (lease_epoch <> wi_lease_epoch session)
      then session_terminal_failure ctx (MEK MEK_SessionInvalid) "write handle epoch mismatch" None None
      else Return (Ok (Some (wi_mount_id session)))
  | None =>
      replay ← lift (look (fun sv => s ← stored sv (sv_store sv); get_create_file_replay_for_inode s id));
      replay ← or_fail replay ctx None None;
      Return (Ok (record ← replay;
                  if bool_decide (op_client_id (rr_operation_id record) = rq_client_id (rc_caller ctx))
                     && bool_decide (rr_lease_epoch record = lease_epoch)
                  then Some (rr_mount_id record) else None))
  end.

Definition decode_ended (id : InodeId) (next_epoch : option LeaseEpoch) (success : ApplySuccess) : MetadataResult unit :=
  match success with
  | WriteLeaseEnded returned ended =>
      if bool_decide (returned = id) && bool_decide (Some ended = next_epoch) then Ok tt else Err unexpected_raft_apply_success
  | _ => Err unexpected_raft_apply_success
  end.

(** Both epochs of a request against the current authority. *)
Definition validate_epochs (ctx : RequestContext) (freshness : Freshness) (mount : MountId)
  : fs (option GroupName * option Z * option Z) :=
  hints ← lift (look (fun sv => validate_mount_epoch sv ctx freshness mount));
  '(group_name, mount_epoch) ← give hints;
  route ← lift (look (fun sv => validate_route_epoch sv ctx freshness group_name mount_epoch));
  route_epoch ← give route;
  Return (Ok (group_name, mount_epoch, route_epoch)).

Definition remove_session (id : InodeId) (lease_epoch : LeaseEpoch) : prog (option WriteSession) :=
  registry (fun st _ => remove_session_if_epoch st id lease_epoch).

Definition abort_session (ctx : RequestContext) (id : InodeId) (lease_epoch : LeaseEpoch) (freshness : Freshness)
  : fs (FsSuccess unit) :=
  mount ← abort_mount ctx id lease_epoch;
  match mount with
  | None => success tt None None
  | Some mount =>
      '(group_name, mount_epoch, route_epoch) ← validate_epochs ctx freshness mount;
      now ← lift (look sv_now_ms);
      ended ← lift (propose_fs_write_command command_len (EndWriteLease now id lease_epoch)
                      (decode_ended id (lease_checked_next lease_epoch)));
      _ ← or_fail ended ctx group_name mount_epoch;
      _ ← lift (remove_session id lease_epoch);
      success_with_route_epoch tt group_name mount_epoch route_epoch
  end.

Definition abort_file_write (ctx : RequestContext) (handle : WriteHandle) (freshness : Freshness) : fs (FsSuccess unit) :=
  session_write_admission ctx (wh_inode_id handle);;
  abort_session ctx (wh_inode_id handle) (wh_lease_epoch handle) freshness.

(** ** Renewal *)

(** A session of the caller. *)
Definition owned_session (ctx : RequestContext) (id : InodeId) (foreign : string) : fs WriteSessionIdentity :=
  session ← lift (registry (fun st now => get_session_identity st id now));
  match session with
  | None => session_terminal_failure ctx (MEK MEK_SessionInvalid) "write session not found" None None
  | Some session =>
      if bool_decide (wi_open_client_id session <> rq_client_id (rc_caller ctx))
      then session_terminal_failure ctx (MEK MEK_SessionInvalid) foreign None None
      else Return (Ok session)
  end.

Definition renew_session (ctx : RequestContext) (id : InodeId) (lease_epoch : LeaseEpoch) (freshness : Freshness)
  : fs (FsSuccess Z) :=
  session ← owned_session ctx id "RenewLease client does not own inode_id";
  hints ← lift (look (fun sv => validate_mount_epoch sv ctx freshness (wi_mount_id session)));
  '(group_name, mount_epoch) ← give hints;
  if bool_decide (lease_epoch <> wi_lease_epoch session)
  then session_terminal_failure ctx (MEK MEK_SessionInvalid) "write handle epoch mismatch" group_name mount_epoch
  else
    renewed ← lift (registry (fun st now => renew_session_at limits st id lease_epoch (rq_client_id (rc_caller ctx)) now));
    match renewed with
    | Panic => Crash
    | Err WSE_Expired =>
        session_terminal_failure ctx (MEK MEK_SessionExpired) "lease renewal rejected; write lease expired" group_name mount_epoch
    | Err _ =>
        session_terminal_failure ctx (MEK MEK_SessionInvalid) "write session renewal rejected" group_name mount_epoch
    | Ok expires_at_ms =>
        route ← lift (look authoritative_route_epoch);
        route_epoch ← or_fail route ctx group_name mount_epoch;
        success_with_route_epoch expires_at_ms group_name mount_epoch (Some route_epoch)
    end.

Definition renew_lease (ctx : RequestContext) (handle : WriteHandle) (freshness : Freshness) : fs (FsSuccess Z) :=
  session_write_admission ctx (wh_inode_id handle);;
  with_shared_topology (renew_session ctx (wh_inode_id handle) (wh_lease_epoch handle) freshness).

(** ** Opening *)

Definition begin_session_error (err : BeginSessionError) : MetadataError :=
  match err with
  | BSE_Busy => Busy "File already has an opening or active write session"
  | BSE_LimitExceeded _ _ => WriteSessionLimitExceeded "limit reached"
  | BSE_LeaseEpochExhausted => ResourceExhausted "write lease epoch exhausted"
  | BSE_OpeningIdExhausted => ResourceExhausted "leader-local write opening identity exhausted"
  | BSE_InvalidAncestorChain => Internal "validated write session ancestor chain was rejected"
  end.

(** The existing tail on a live replica, without a new block identity. *)
Definition tail_location (group : GroupName) (file : FileData) (owner : ClientId) (epoch : LeaseEpoch)
    (reported : list ReportedBlockLocation) (views : list WorkerPlacementView) : MetadataResult LocatedBlock :=
  block ← ok_or (last (fd_blocks file)) (Internal "partial file has no tail");
  let ordinal := Z.of_nat (length (fd_blocks file)) - 1 in
  let len := block_len file ordinal in
  let p := plan (mk_PlacementRequest group PO_Read block len (fd_layout file) None reported [] SUPPORTED_REPLICA_COUNT) views in
  match pp_status p with
  | PS_Ok =>
      tier ← ok_or (worker ← head (pp_workers p);
                    found ← list_find (fun l => rl_worker_id l = pw_worker_id worker /\ rl_worker_run_id l = pw_worker_run_id worker)
                              reported;
                    Some (rl_tier found.2))
               (ServiceUnavailable "tail placement has no tier");
      endpoints ← mapM (fun w => worker_endpoint_from_parts (pw_worker_id w) (pw_endpoint w) (pw_worker_net_protocol w)
                                   (pw_worker_run_id w)) (pp_workers p);
      chunk_size ← map_err (fun _ => Internal "unknown block format") (block_format_spec (fl_block_format_id (fd_layout file)));
      Ok (mk_LocatedBlock block (ordinal * fl_block_size (fd_layout file)) (fl_block_size (fd_layout file)) endpoints
            (mk_FencingToken block owner epoch) len chunk_size (fl_block_format_id (fd_layout file)) tier)
  | _ => Err (ServiceUnavailable "placement failed")
  end.

Definition locate_append_tail (group : GroupName) (file : FileData) (owner : ClientId) (epoch : LeaseEpoch)
  : meta LocatedBlock :=
  block ← yield (ok_or (last (fd_blocks file)) (Internal "partial file has no tail"));
  reported ← ask (look (fun sv => reported_block_locations (sv_workers sv) group block));
  views ← ask (look (fun sv => collect_worker_placement_views heartbeat_timeout_ms (sv_workers sv) group (sv_instant sv)));
  yield (tail_location group file owner epoch reported views).

Definition decode_acquired (id : InodeId) (lease_epoch : LeaseEpoch) (success : ApplySuccess) : MetadataResult unit :=
  match success with
  | WriteLeaseAcquired returned acquired =>
      if bool_decide (returned = id) && bool_decide (acquired = lease_epoch) then Ok tt else Err unexpected_raft_apply_success
  | _ => Err unexpected_raft_apply_success
  end.

(** From the opening to its activation: the new lease is made durable, and the
    visible file is read only after that. *)
Definition acquire_opened (ctx : RequestContext) (id : InodeId) (base_epoch lease_epoch : LeaseEpoch) (mode : WriteMode)
    (group_name : option GroupName) (mount_epoch route_epoch : option Z) : fs (FileData * option LocatedBlock) :=
  now ← lift (look sv_now_ms);
  acquired ← lift (propose_fs_write_command command_len (AcquireWriteLease now id base_epoch) (decode_acquired id lease_epoch));
  _ ← or_fail acquired ctx group_name mount_epoch;
  found ← lift (look (fun sv => read_inode sv id));
  file ← or_fail (found ← found;
                  inode ← ok_or found (NotFound "opened file disappeared");
                  file ← inode_file inode;
                  file_validate file id;;
                  Ok file) ctx group_name mount_epoch;
  if bool_decide (fd_lease_epoch file <> lease_epoch)
  then session_terminal_failure ctx (MEK MEK_SessionInvalid) "opened writer was fenced" group_name mount_epoch
  else if bool_decide (mode = Append) && negb (bool_decide (fd_len file mod fl_block_size (fd_layout file) = 0))
  then
    group ← require_worker_lookup_group ctx group_name mount_epoch route_epoch;
    tail ← lift (locate_append_tail group file (rq_client_id (rc_caller ctx)) lease_epoch);
    tail ← or_fail tail ctx group_name mount_epoch;
    Return (Ok (file, Some tail))
  else Return (Ok (file, None)).

Definition open_write_inode (ctx : RequestContext) (normalized_path : string) (id : InodeId) (ancestors : list InodeId)
    (mode : WriteMode) (freshness : Freshness) : fs (FsSuccess OpenWriteOutput) :=
  or_fail (map_err Internal (validate_ancestor_chain id ancestors)) ctx None None;;
  found ← lift (look (fun sv => read_inode sv id));
  found ← or_fail found ctx None None;
  inode ← or_fail (ok_or found (NotFound "Inode not found")) ctx None None;
  or_fail (reject_if (bool_decide (inode_id inode <> id)) (Internal "inode authority is corrupt for OpenWrite")) ctx None None;;
  or_fail (reject_if (negb (is_file inode)) (IsDir "Inode is not a file")) ctx None None;;
  '(group_name, mount_epoch, route_epoch) ← validate_epochs ctx freshness (inode_mount_id inode);
  layout ← lift (look (fun sv => read_layout sv id));
  layout ← or_fail layout ctx group_name mount_epoch;
  or_fail (validate_active_write_layout layout) ctx group_name mount_epoch;;
  base ← or_fail (inode_file inode) ctx group_name mount_epoch;
  begun ← lift (registry (fun st now =>
                  begin_session_at limits st
                    (mk_BeginSessionInput normalized_path (inode_mount_id inode) id (fd_lease_epoch base) mode
                       (rq_client_id (rc_caller ctx)) layout ancestors) now));
  opening ← or_fail (map_err begin_session_error begun) ctx group_name mount_epoch;
  let lease_epoch := wo_proposed_lease_epoch opening in
  '(file, tail) ← guarded (release (fun st => cancel_opening st opening))
                    (acquire_opened ctx id (fd_lease_epoch base) lease_epoch mode group_name mount_epoch route_epoch);
  activated ← lift (registry (fun st now => write_opening_activate limits st opening lease_epoch now file tail));
  match activated with
  | Panic => Crash
  | Err WOE_TargetLimit =>
      failure_from_error ctx (GlobalWriteTargetLimitExceeded "opening a tail exceeds the target limit") group_name mount_epoch
  | Err WOE_Expired | Err WOE_NotCurrent =>
      session_terminal_failure ctx (MEK MEK_SessionExpired) "write opening expired before activation" group_name mount_epoch
  | Err (WOE_LeaseEpochMismatch _ _) =>
      failure_from_error ctx (Internal "write opening epoch mismatch after Raft apply") group_name mount_epoch
  | Ok session => success_with_route_epoch (open_write_output session) group_name mount_epoch route_epoch
  end.

(** Revalidates the path before the new session is exposed: a topology change that
    was submitted earlier may have been applied meanwhile. *)
Definition topology_unchanged (sv : Server) (open_path : string) (resolved : ResolvedPath) (id : InodeId) : bool :=
  match resolve sv open_path with
  | Ok current =>
      bool_decide (mc_mount_id (rp_mount_ctx current) = mc_mount_id (rp_mount_ctx resolved))
      && bool_decide (mc_mount_epoch (rp_mount_ctx current) = mc_mount_epoch (rp_mount_ctx resolved))
      && bool_decide (mc_owner_group_name (rp_mount_ctx current) = mc_owner_group_name (rp_mount_ctx resolved))
      && bool_decide (mc_root_inode_id (rp_mount_ctx current) = mc_root_inode_id (rp_mount_ctx resolved))
      && bool_decide (rp_inode_id current = Some id)
      && bool_decide (rp_ancestor_inode_ids current = rp_ancestor_inode_ids resolved)
  | _ => false
  end.

Definition finish_open_write (ctx : RequestContext) (open_path : string) (resolved : ResolvedPath)
    (opened : FsSuccess OpenWriteOutput) : fs (FsSuccess OpenWriteOutput) :=
  unchanged ← lift (look (fun sv => topology_unchanged sv open_path resolved (ow_inode_id (fs_payload opened))));
  if negb unchanged
  then
    _ ← lift (remove_session (ow_inode_id (fs_payload opened)) (ow_lease_epoch (fs_payload opened)));
    failure_from_error ctx (Again "namespace topology changed during OpenWrite") (fs_group_name opened) (fs_mount_epoch opened)
  else Return (Ok opened).

Definition open_write (ctx : RequestContext) (path : string) (mode : WriteMode) (freshness : Freshness)
  : fs (FsSuccess OpenWriteOutput) :=
  require_admission (fun sv => check_meta_write sv ctx);;
  with_shared_topology (
    open_path ← or_path_error (normalize path) ctx path;
    found ← lift (look (fun sv => resolve sv open_path));
    resolved ← or_path_error found ctx path;
    id ← match rp_inode_id resolved with
         | Some id => Return (Ok id)
         | None =>
             failure_from_resolved_path_error ctx (missing_resolved_target_error resolved) (Some (rp_mount_ctx resolved))
         end;
    require_admission (fun sv => check_data_write sv ctx (mc_mount_id (rp_mount_ctx resolved)));;
    opened ← open_write_inode ctx open_path id (rp_ancestor_inode_ids resolved) mode freshness;
    finish_open_write ctx open_path resolved opened).

(** ** Allocation *)

Definition begin_allocate_failure {A} (ctx : RequestContext) (err : BeginAllocateBlockError) (group_name : option GroupName)
    (mount_epoch : option Z) : fs A :=
  match err with
  | BAE_Session _ =>
      session_terminal_failure ctx (MEK MEK_SessionExpired) "AllocateBlock session is no longer current" group_name mount_epoch
  | BAE_Internal _ => failure_from_error ctx (Internal "AllocateBlock replay state is inconsistent") group_name mount_epoch
  | BAE_InvalidArgument _ => failure_from_error ctx (InvalidArgument "AllocateBlock rejected") group_name mount_epoch
  | BAE_Pending => failure_from_error ctx (Again "AllocateBlock is already pending") group_name mount_epoch
  | BAE_PublicationInProgress =>
      failure_from_error ctx (Again "AllocateBlock cannot allocate while file publication is in progress") group_name mount_epoch
  | BAE_LimitExceeded WTL_Global _ =>
      failure_from_error ctx (GlobalWriteTargetLimitExceeded "global limit reached") group_name mount_epoch
  | BAE_LimitExceeded WTL_PerSession _ =>
      failure_from_error ctx (ResourceExhausted "write session target limit reached") group_name mount_epoch
  end.

(** The endpoints of a write plan and its first tier. *)
Definition write_endpoints (workers : list PlacementWorker) : MetadataResult (list WorkerEndpointInfo * option Tier) :=
  endpoints ← mapM (fun w => worker_endpoint_from_parts (pw_worker_id w) (pw_endpoint w) (pw_worker_net_protocol w)
                               (pw_worker_run_id w)) workers;
  Ok (endpoints, head (omap pw_tier workers)).

(** A target for the reserved step: a durable block identity, placed on workers. *)
Definition allocate_target (ctx : RequestContext) (id : InodeId) (lease_epoch : LeaseEpoch) (reservation : WriteTargetReservation)
    (group_name : option GroupName) (mount_epoch route_epoch : option Z) : fs LocatedBlock :=
  let layout := wr_layout reservation in
  chunk_size ← or_fail (map_err (fun _ => Internal "active write layout has an unknown block format")
                          (block_format_spec (fl_block_format_id layout))) ctx group_name mount_epoch;
  allocated ← lift (propose_block_allocation command_len id lease_epoch);
  block ← or_fail allocated ctx group_name mount_epoch;
  group ← require_worker_lookup_group ctx group_name mount_epoch route_epoch;
  views ← lift (look (fun sv => collect_worker_placement_views heartbeat_timeout_ms (sv_workers sv) group (sv_instant sv)));
  let p := plan (mk_PlacementRequest group PO_Write block 0 layout (caller_context_fields ctx) [] [] SUPPORTED_REPLICA_COUNT) views in
  workers ← or_fail match pp_status p with
                    | PS_Ok => Ok (pp_workers p)
                    | _ => Err (ServiceUnavailable "Failed to select write placement")
                    end ctx group_name mount_epoch;
  '(endpoints, selected) ← or_fail (write_endpoints workers) ctx group_name mount_epoch;
  tier ← or_fail (ok_or selected (ServiceUnavailable "selected write placement is missing storage tier")) ctx group_name mount_epoch;
  or_fail (reject_if (bool_decide (endpoints = [])) (ServiceUnavailable "selected placement has no live worker endpoints")) ctx
    group_name mount_epoch;;
  Return (Ok (mk_LocatedBlock block (wr_file_offset reservation) (fl_block_size layout) endpoints
                (mk_FencingToken block (wr_open_client_id reservation) lease_epoch) 0 chunk_size (fl_block_format_id layout) tier)).

Definition allocate_block_session (ctx : RequestContext) (id : InodeId) (lease_epoch : LeaseEpoch) (previous : option BlockId)
    (freshness : Freshness) : fs (FsSuccess LocatedBlock) :=
  session ← owned_session ctx id "AllocateBlock client does not own inode_id";
  '(group_name, mount_epoch, route_epoch) ← validate_epochs ctx freshness (wi_mount_id session);
  if bool_decide (lease_epoch <> wi_lease_epoch session)
  then session_terminal_failure ctx (MEK MEK_SessionInvalid) "write handle epoch mismatch" group_name mount_epoch
  else
    valid ← lift (registry (fun st now => validate_session st id lease_epoch now));
    if negb (is_ok valid)
    then
      session_terminal_failure ctx (MEK MEK_SessionExpired) "lease validation rejected; reopen before AllocateBlock" group_name
        mount_epoch
    else
      begun ← lift (registry (fun st now => begin_allocate_block limits st id lease_epoch previous now));
      match begun with
      | Panic => Crash
      | Err err => begin_allocate_failure ctx err group_name mount_epoch
      | Ok (BAB_Replay target) => success_with_route_epoch target group_name mount_epoch route_epoch
      | Ok (BAB_Reserved reservation) =>
          target ← guarded (release (fun st => cancel_write_target st reservation))
                     (allocate_target ctx id lease_epoch reservation group_name mount_epoch route_epoch);
          completed ← lift (registry (fun st now => reservation_complete st reservation target now));
          match completed with
          | Panic => Crash
          | Err CTE_NotCurrent =>
              session_terminal_failure ctx (MEK MEK_SessionExpired) "write session expired before AllocateBlock completed"
                group_name mount_epoch
          | Err (CTE_InvalidTarget _) => failure_from_error ctx (InvalidArgument "AllocateBlock rejected") group_name mount_epoch
          | Ok target => success_with_route_epoch target group_name mount_epoch route_epoch
          end
      end.

Definition allocate_block (ctx : RequestContext) (handle : WriteHandle) (previous : option BlockId) (freshness : Freshness)
  : fs (FsSuccess LocatedBlock) :=
  session_write_admission ctx (wh_inode_id handle);;
  allocate_block_session ctx (wh_inode_id handle) (wh_lease_epoch handle) previous freshness.
End write.
