(* ===== verification/ServicePublish.v ===== *)
(** * Filesystem service: publication

    service/filesystem/publish.rs: SyncWrite and CommitFile make the blocks of a
    writer visible once its workers have reported them ready. *)

From S2P Require Import Prelude Types Errors Inode Mount Store Apply Session SessionInv PathResolver Placement Workers Maintenance Server Service ServiceWrite.
Local Open Scope Z_scope.

Record CloseWriteIntent := mk_CloseWriteIntent {
  ci_committed_blocks : list CommittedBlock;
  ci_final_size : Z;
  ci_expected_file_size : Z
}.

(** [CloseWriteIntent::publication]. *)
Definition intent_publication (intent : CloseWriteIntent) (lease_epoch : LeaseEpoch) (generation : ContentGeneration)
    (mode : PublishMode) : FilePublication :=
  mk_FilePublication (ci_committed_blocks intent) (ci_final_size intent) generation (ci_expected_file_size intent) lease_epoch mode.

Record SyncWriteOutput := mk_SyncWriteOutput {
  so_synced_size : Z;
  so_generation : option ContentGeneration
}.

(** [CommitFileArgs] and [SyncWriteArgs]. *)
Record PublishArgs := mk_PublishArgs {
  pa_handle : WriteHandle;
  pa_committed_blocks : list CommittedBlock;
  pa_target_size : Z;
  pa_freshness : Freshness;
  pa_expected_generation : ContentGeneration;
  pa_expected_file_size : Z;
  pa_publish_mode : PublishMode
}.

Definition args_intent (args : PublishArgs) : CloseWriteIntent :=
  mk_CloseWriteIntent (pa_committed_blocks args) (pa_target_size args) (pa_expected_file_size args).

Definition publish_mode_for_session (session : WriteSession) : PublishMode :=
  match ws_mode session with Overwrite => ReplaceIfUnchanged | Append => AppendIfUnchanged end.

(** ** Sessions of a publication *)

Definition active_publish_session (ctx : RequestContext) (id : InodeId) (lease_epoch : LeaseEpoch) : fs (option WriteSession) :=
  found ← lift (registry (fun st now => get_session st id now));
  match found with
  | None => Return (Ok None)
  | Some session =>
      if bool_decide (ws_open_client_id session <> rq_client_id (rc_caller ctx))
      then session_terminal_failure ctx (MEK MEK_SessionInvalid) "client does not own inode_id" None None
      else if bool_decide (ws_lease_epoch session <> lease_epoch)
      then session_terminal_failure ctx (MEK MEK_SessionInvalid) "publish precondition does not match the active session" None None
      else Return (Ok (Some session))
  end.

Definition begin_publication_failure {A} (ctx : RequestContext) (err : BeginWritePublicationError) : fs A :=
  match err with
  | BPE_Session _ =>
      session_terminal_failure ctx (MEK MEK_SessionInvalid) "write session is no longer current" None None
  | BPE_AllocateBlockPending => failure_from_error ctx (Again "cannot freeze while AllocateBlock is pending") None None
  | BPE_PublicationInProgress => failure_from_error ctx (Again "another file publication is already in progress") None None
  | BPE_PublicationIdExhausted => failure_from_error ctx (Internal "write publication identity exhausted") None None
  end.

(** Dropping the owner of a publication. *)
Definition abandon (publication : WritePublication) : Server -> Server :=
  release (fun st => Ok (drop_publication st publication)).

Definition begin_write_publication (ctx : RequestContext) (id : InodeId) (lease_epoch : LeaseEpoch) (publish_mode : PublishMode)
  : fs WritePublication :=
  begun ← lift (registry (fun st now => begin_publication st id lease_epoch now));
  match begun with
  | Panic => Crash
  | Err err => begin_publication_failure ctx err
  | Ok publication =>
      let session := wp_session publication in
      guarded (abandon publication)
        (if bool_decide (ws_open_client_id session <> rq_client_id (rc_caller ctx))
            || bool_decide (publish_mode_for_session session <> publish_mode)
         then
           session_terminal_failure ctx (MEK MEK_SessionInvalid) "publish precondition does not match the active session" None None
         else Return (Ok publication))
  end.

(** ** Recovery of a finished SyncWrite *)

(** The mount and generation at which the requested content is already visible. *)
Definition resolve_synced_state (sv : Server) (id : InodeId) (lease_epoch : LeaseEpoch) (intent : CloseWriteIntent)
    (expected_generation : ContentGeneration) (mode : PublishMode) : MetadataResult (option (MountId * ContentGeneration)) :=
  found ← read_inode sv id;
  inode ← ok_or found (NotFound "inode");
  reject_if (bool_decide (inode_id inode <> id)) (Internal "inode key mismatch");;
  file ← inode_file inode;
  file_validate file id;;
  reject_if (bool_decide (fd_lease_epoch file <> lease_epoch)
             && bool_decide (lease_checked_next lease_epoch <> Some (fd_lease_epoch file)))
    (LeaseFenced (fd_lease_epoch file) lease_epoch);;
  let payload := intent_publication intent lease_epoch expected_generation mode in
  same ← matches_visible payload file;
  if same && (bool_decide (generation_checked_next expected_generation = Some (fd_generation file))
              || (bool_decide (fd_generation file = expected_generation) && bool_decide (fp_blocks payload = [])))
  then Ok (Some (inode_mount_id inode, fd_generation file))
  else
    reject_if (bool_decide (fd_generation file <> expected_generation)) (Again "content generation changed");;
    Ok None.

(** ** Evidence *)

(** The issued targets by block; a later target of a block replaces an earlier one. *)
Definition issued_targets_map (session : WriteSession) : gmap BlockId LocatedBlock :=
  foldl (fun m target => <[lb_block_id target := target]> m) ∅ (ws_issued_targets session).

Definition ready_target (session : WriteSession) (block : CommittedBlock) : MetadataResult PublishReadyTarget :=
  target ← ok_or (issued_targets_map session !! cb_block_id block) (InvalidArgument "block was not issued to this writer");
  reject_if (bool_decide (ft_epoch (lb_fencing_token target) <> ws_lease_epoch session))
    (InvalidArgument "target writer epoch mismatch");;
  Ok (mk_PublishReadyTarget target (cb_len block)).

Definition publication_ready_targets (sv : Server) (session : WriteSession) (blocks : list CommittedBlock)
    (expected_generation : ContentGeneration) : MetadataResult (list PublishReadyTarget) :=
  found ← read_inode sv (ws_inode_id session);
  inode ← ok_or found (NotFound "inode missing");
  file ← inode_file inode;
  reject_if (bool_decide (fd_generation file <> expected_generation)) (StaleState "content generation changed");;
  mapM (ready_target session) blocks.

Definition publish_ready_refresh_failure (ctx : RequestContext) (kind : ErrorKind) (message : string) (group : GroupName)
    (mount_epoch route_epoch : option Z) (worker_resolve_required : bool) : FsFailure :=
  refresh_metadata_failure_with_hint ctx kind message (Some group) mount_epoch route_epoch
    (Some (mk_RefreshHint None None None None None [] worker_resolve_required)).

Definition publish_ready_conflict_failure (ctx : RequestContext) (conflict : PublishReadyConflict) (group : GroupName)
    (mount_epoch route_epoch : option Z) : FsFailure :=
  match conflict with
  | PC_MissingWriteEndpoint _ =>
      publish_ready_refresh_failure ctx (EK_Worker WEK_BlockLocationUnavailable)
        "block has no metadata-authorized write endpoint" group mount_epoch route_epoch true
  | PC_WorkerRunMismatch _ _ _ _ =>
      publish_ready_refresh_failure ctx (EK_Worker WEK_RunMismatch) "worker run changed before publishing block" group
        mount_epoch route_epoch true
  | PC_EndpointMismatch _ _ =>
      publish_ready_refresh_failure ctx (EK_Worker WEK_BlockLocationUnavailable) "worker endpoint changed before publishing block"
        group mount_epoch route_epoch true
  | PC_LeaseEpochMismatch _ _ _ _ =>
      publish_ready_refresh_failure ctx (EK_Worker WEK_Fencing) "worker reported the wrong writer epoch for block" group
        mount_epoch route_epoch false
  | PC_UnreadableBlock _ _ _ =>
      publish_ready_refresh_failure ctx (EK_Worker WEK_Corrupt) "worker reported an unreadable block before publication" group
        mount_epoch route_epoch false
  end.

Section publish.
Variable command_len : Command -> option Z.
Variable limits : SessionLimits.
Variable heartbeat_timeout_ms : Z.

Definition ready_status (sv : Server) (group : GroupName) (targets : list PublishReadyTarget) : PublishReadyStatus :=
  check_publish_ready heartbeat_timeout_ms (sv_workers sv) group (sv_instant sv) targets.

(** Each round of the loop checks the evidence; without a decision it waits for the
    next change, at most until the deadline. *)
Definition wait_for_publish_ready (ctx : RequestContext) (group : GroupName) (mount_epoch route_epoch : option Z)
    (targets : list PublishReadyTarget) : fs unit :=
  if bool_decide (length targets = 0%nat) then Return (Ok tt)
  else
    status ← lift (await (fun sv =>
               let status := ready_status sv group targets in
               match status with
               | PR_Pending _ => if has_passed (rq_deadline (rc_caller ctx)) (sv_now_ms sv) then Some (status, sv) else None
               | _ => Some (status, sv)
               end));
    match status with
    | PR_Ready => Return (Ok tt)
    | PR_Conflict conflict => Return (Err (publish_ready_conflict_failure ctx conflict group mount_epoch route_epoch))
    | PR_Pending _ =>
        Return (Err (publish_ready_refresh_failure ctx (EK_Worker WEK_BlockLocationUnavailable)
                       "deadline expired while waiting for Ready report" group mount_epoch route_epoch false))
    end.

Definition require_publish_ready (ctx : RequestContext) (group : GroupName) (mount_epoch route_epoch : option Z)
    (targets : list PublishReadyTarget) : fs unit :=
  if bool_decide (length targets = 0%nat) then Return (Ok tt)
  else
    status ← lift (look (fun sv => ready_status sv group targets));
    match status with
    | PR_Ready => Return (Ok tt)
    | PR_Pending _ =>
        Return (Err (publish_ready_refresh_failure ctx (EK_Worker WEK_BlockLocationUnavailable)
                       "Ready evidence changed before publishing block" group mount_epoch route_epoch false))
    | PR_Conflict conflict => Return (Err (publish_ready_conflict_failure ctx conflict group mount_epoch route_epoch))
    end.

Definition require_publish_deadline (ctx : RequestContext) (group_name : option GroupName) (mount_epoch route_epoch : option Z)
  : fs unit :=
  passed ← lift (look (fun sv => has_passed (rq_deadline (rc_caller ctx)) (sv_now_ms sv)));
  if negb passed then Return (Ok tt)
  else
    match group_name with
    | Some group =>
        Return (Err (publish_ready_refresh_failure ctx (EK_Worker WEK_BlockLocationUnavailable)
                       "deadline expired before file publication" group mount_epoch route_epoch false))
    | None =>
        failure_from_error_with_route_epoch ctx (Again "deadline expired before file publication") None mount_epoch route_epoch
    end.

(** The session of a publication after the wait, unchanged in what the publication
    was checked against. *)
Definition revalidate_publish_session (ctx : RequestContext) (publication : WritePublication) (publish_mode : PublishMode)
  : fs WriteSession :=
  let expected := wp_session publication in
  session_write_admission ctx (ws_inode_id expected);;
  current ← lift (registry (fun st now => publication_revalidate st publication now));
  match current with
  | Panic => Crash
  | Err _ =>
      session_terminal_failure ctx (MEK MEK_SessionInvalid) "write publication changed while waiting for Ready block reports"
        None None
  | Ok current =>
      if bool_decide (ws_open_client_id current <> rq_client_id (rc_caller ctx))
         || bool_decide (publish_mode_for_session current <> publish_mode)
      then
        session_terminal_failure ctx (MEK MEK_SessionInvalid) "publish precondition does not match the active session" None None
      else if bool_decide (ws_inode_id current <> ws_inode_id expected) || bool_decide (ws_mount_id current <> ws_mount_id expected)
              || bool_decide (ws_base_size current <> ws_base_size expected)
              || bool_decide (ws_generation current <> ws_generation expected)
      then
        session_terminal_failure ctx (MEK MEK_SessionInvalid) "write session changed while waiting for Ready block reports" None None
      else
        valid ← lift (registry (fun st now => validate_session st (ws_inode_id current) (ws_lease_epoch current) now));
        if negb (is_ok valid)
        then
          session_terminal_failure ctx (MEK MEK_SessionExpired) "lease expired while waiting for Ready block reports" None None
        else Return (Ok current)
  end.

(** ** The blocks of a request *)

(** The loop of [validate_committed_blocks]; [seen] are the blocks before [index]. *)
Fixpoint committed_blocks_in_order (session : WriteSession) (final_size capacity : Z) (index : Z) (seen : gset BlockId)
    (blocks : list CommittedBlock) : MetadataResult unit :=
  match blocks with
  | [] => Ok tt
  | block :: rest =>
      target ← ok_or (issued_targets_map session !! cb_block_id block) (InvalidArgument "block was not issued to this writer");
      let offset := index * capacity in
      let len := Z.min (final_size - offset) capacity in
      reject_if (bool_decide (block_inode_id (cb_block_id block) <> ws_inode_id session) || bool_decide (cb_block_id block ∈ seen)
                 || bool_decide (lb_file_offset target <> offset) || bool_decide (cb_len block <> len))
        (InvalidArgument "invalid ordered publication block");;
      committed_blocks_in_order session final_size capacity (index + 1) ({[cb_block_id block]} ∪ seen) rest
  end.

Definition validate_committed_blocks (intent : CloseWriteIntent) (session : WriteSession) : MetadataResult (list CommittedBlock) :=
  reject_if (bool_decide (ci_expected_file_size intent <> ws_base_size session))
    (InvalidArgument "expected file size does not match session");;
  let capacity := fl_block_size (ws_layout session) in
  count ← block_count (ci_final_size intent) capacity;
  let start :=
    if bool_decide (ws_mode session = Overwrite) then 0
    else if bool_decide (ci_final_size intent = ws_base_size session) && bool_decide (ci_committed_blocks intent = [])
    then count
    else ws_base_size session / capacity in
  reject_if ((bool_decide (ws_mode session = Append) && (ci_final_size intent <? ws_base_size session))
             || (count <? start) || bool_decide (Z.of_nat (length (ci_committed_blocks intent)) <> count - start))
    (InvalidArgument "publication does not cover the target length");;
  committed_blocks_in_order session (ci_final_size intent) capacity start ∅ (ci_committed_blocks intent);;
  Ok (ci_committed_blocks intent).

(** An error of the checks above becomes an invalid argument with its message. *)
Definition invalid_publication {A} (r : MetadataResult A) (ctx : RequestContext) (group_name : option GroupName)
    (mount_epoch : option Z) : fs A :=
  match r with
  | Ok a => Return (Ok a)
  | Err _ => failure_from_error ctx (InvalidArgument "invalid publication") group_name mount_epoch
  | Panic => Crash
  end.

(** ** From a frozen session to a proposal *)

(** What SyncWrite and CommitFile check while they hold the publication: the request
    against the session, the authority and the evidence of every changed block,
    the last three once more after the wait. *)
Definition ready_publication (ctx : RequestContext) (lease_epoch : LeaseEpoch) (intent : CloseWriteIntent) (freshness : Freshness)
    (expected_generation : ContentGeneration) (publish_mode : PublishMode) (check_blocks : bool) (publication : WritePublication)
  : fs (WriteSession * list CommittedBlock * RoutedFsWriteCtx * option Z) :=
  let session := wp_session publication in
  if bool_decide (ws_generation session <> expected_generation)
  then session_terminal_failure ctx (MEK MEK_SessionInvalid) "publish precondition does not match the active session" None None
  else
    '(group_name, mount_epoch, route_epoch) ← validate_epochs ctx freshness (ws_mount_id session);
    or_fail_with_route_epoch
      (reject_if (check_blocks && existsb (fun b => bool_decide (block_inode_id (cb_block_id b) <> ws_inode_id session))
                                    (ci_committed_blocks intent))
         (InvalidArgument "committed block inode_id does not match write handle inode_id")) ctx group_name mount_epoch route_epoch;;
    if bool_decide (lease_epoch <> ws_lease_epoch session)
    then session_terminal_failure ctx (MEK MEK_SessionInvalid) "write handle epoch mismatch" group_name mount_epoch
    else
      valid ← lift (registry (fun st now => validate_session st (ws_inode_id session) lease_epoch now));
      if negb (is_ok valid)
      then session_terminal_failure ctx (MEK MEK_SessionExpired) "lease validation rejected" group_name mount_epoch
      else
        blocks ← invalid_publication (validate_committed_blocks intent session) ctx group_name mount_epoch;
        group ← require_worker_lookup_group ctx group_name mount_epoch route_epoch;
        targets ← lift (look (fun sv => publication_ready_targets sv session (ci_committed_blocks intent) expected_generation));
        targets ← invalid_publication targets ctx group_name mount_epoch;
        wait_for_publish_ready ctx group mount_epoch route_epoch targets;;
        let revalidated := mk_Freshness mount_epoch route_epoch in
        hints ← lift (look (fun sv => validate_mount_epoch sv ctx revalidated (ws_mount_id session)));
        '(group_name', mount_epoch') ← give hints;
        or_fail_with_route_epoch
          (reject_if (bool_decide (group_name' <> Some group) || bool_decide (mount_epoch' <> mount_epoch))
             (StaleState "mount authority changed during Ready wait")) ctx group_name' mount_epoch' route_epoch;;
        route ← lift (look (fun sv => validate_route_epoch sv ctx revalidated group_name mount_epoch));
        route_epoch ← give route;
        session ← revalidate_publish_session ctx publication publish_mode;
        require_publish_ready ctx group mount_epoch route_epoch targets;;
        routed ← route_ctx_for_write_with_error_hints ctx [ws_inode_id session] revalidated group_name mount_epoch;
        require_publish_deadline ctx (Some group) (Some (rt_mount_epoch routed)) route_epoch;;
        Return (Ok (session, blocks, routed, route_epoch)).

(** ** SyncWrite *)

(** The requested content is visible already: the session learns about it. *)
Definition replay_sync (ctx : RequestContext) (id : InodeId) (lease_epoch : LeaseEpoch) (intent : CloseWriteIntent)
    (freshness : Freshness) (expected_generation : ContentGeneration) (session : option WriteSession) (mount : MountId)
    (generation : ContentGeneration) : fs (FsSuccess SyncWriteOutput) :=
  let answer group_name mount_epoch route_epoch :=
    success_with_route_epoch (mk_SyncWriteOutput (ci_final_size intent) (Some generation)) group_name mount_epoch route_epoch in
  match session with
  | None =>
      '(group_name, mount_epoch, route_epoch) ← validate_epochs ctx freshness mount;
      answer group_name mount_epoch route_epoch
  | Some session =>
      publication ← begin_write_publication ctx id lease_epoch (publish_mode_for_session session);
      let current := ws_generation (wp_session publication) in
      '(group_name, mount_epoch, route_epoch) ←
        guarded (abandon publication)
          (if bool_decide (current <> expected_generation) && bool_decide (current <> generation)
           then
             session_terminal_failure ctx (MEK MEK_SessionInvalid)
               "SyncWrite content generation does not match the active session" None None
           else validate_epochs ctx freshness mount);
      completed ← lift (registry (fun st now => publication_complete_sync st publication generation (ci_final_size intent) now));
      _ ← or_fail (map_err Internal completed) ctx group_name mount_epoch;
      answer group_name mount_epoch route_epoch
  end.

Definition sync_write_session (ctx : RequestContext) (handle : WriteHandle) (intent : CloseWriteIntent) (freshness : Freshness)
    (expected_generation : ContentGeneration) (publish_mode : PublishMode) : fs (FsSuccess SyncWriteOutput) :=
  let id := wh_inode_id handle in
  let lease_epoch := wh_lease_epoch handle in
  session ← active_publish_session ctx id lease_epoch;
  synced ← lift (look (fun sv => resolve_synced_state sv id lease_epoch intent expected_generation publish_mode));
  synced ← or_fail synced ctx None None;
  match synced, session with
  | Some (mount, generation), _ =>
      replay_sync ctx id lease_epoch intent freshness expected_generation session mount generation
  | None, None => session_terminal_failure ctx (MEK MEK_SessionInvalid) "write session not found" None None
  | None, Some _ =>
      publication ← begin_write_publication ctx id lease_epoch publish_mode;
      '(session, blocks, routed, route_epoch) ←
        guarded (abandon publication)
          (ready_publication ctx lease_epoch intent freshness expected_generation publish_mode true publication);
      now ← lift (look sv_now_ms);
      published ← lift (propose_file_publication command_len
                          (PublishFile now (ws_inode_id session)
                             (mk_FilePublication blocks (ci_final_size intent) expected_generation (ci_expected_file_size intent)
                                lease_epoch publish_mode)) publication);
      generation ← or_fail published ctx (Some (rt_group_name routed)) (Some (rt_mount_epoch routed));
      success_with_route_epoch (mk_SyncWriteOutput (ci_final_size intent) (Some generation)) (Some (rt_group_name routed))
        (Some (rt_mount_epoch routed)) route_epoch
  end.

Definition foreign_blocks (args : PublishArgs) : bool :=
  existsb (fun b => bool_decide (block_inode_id (cb_block_id b) <> wh_inode_id (pa_handle args))) (pa_committed_blocks args).

Definition sync_write (ctx : RequestContext) (args : PublishArgs) : fs (FsSuccess SyncWriteOutput) :=
  session_write_admission ctx (wh_inode_id (pa_handle args));;
  or_fail (reject_if (foreign_blocks args) (InvalidArgument "committed block inode_id does not match request")) ctx None None;;
  sync_write_session ctx (pa_handle args) (args_intent args) (pa_freshness args) (pa_expected_generation args) (pa_publish_mode args).

(** ** CommitFile *)

(** The receipt of a commit that ran already, read before any session state. *)
Definition completed_commit (ctx : RequestContext) (id : InodeId) (payload : FilePublication) : meta (option MountId) :=
  barrier ← ask read_barrier;
  _ ← yield barrier;
  found ← ask (look (fun sv => read_inode sv id));
  found ← yield found;
  inode ← yield (ok_or found (NotFound "Inode not found"));
  _ ← yield (reject_if (bool_decide (inode_id inode <> id)) (Internal "CommitFile inode authority is corrupt"));
  generation ← yield (resolve_commit payload inode (rq_client_id (rc_caller ctx)) (rq_call_id (rc_caller ctx)));
  yield (Ok (_ ← generation; Some (inode_mount_id inode))).

Definition close_write_session (ctx : RequestContext) (handle : WriteHandle) (intent : CloseWriteIntent) (freshness : Freshness)
    (expected_generation : ContentGeneration) (publish_mode : PublishMode) : fs (FsSuccess Z) :=
  let id := wh_inode_id handle in
  let lease_epoch := wh_lease_epoch handle in
  let payload := intent_publication intent lease_epoch expected_generation publish_mode in
  resolved ← lift (completed_commit ctx id payload);
  resolved ← or_fail resolved ctx None None;
  match resolved with
  | Some mount =>
      '(group_name, mount_epoch, route_epoch) ← validate_epochs ctx freshness mount;
      _ ← lift (remove_session id lease_epoch);
      success_with_route_epoch (ci_final_size intent) group_name mount_epoch route_epoch
  | None =>
      session ← active_publish_session ctx id lease_epoch;
      match session with
      | None => session_terminal_failure ctx (MEK MEK_SessionInvalid) "write session not found" None None
      | Some _ =>
          publication ← begin_write_publication ctx id lease_epoch publish_mode;
          '(_, blocks, routed, route_epoch) ←
            guarded (abandon publication)
              (ready_publication ctx lease_epoch intent freshness expected_generation publish_mode false publication);
          now ← lift (look sv_now_ms);
          committed ← lift (propose_file_publication command_len
                              (CommitFile now id (rq_client_id (rc_caller ctx)) (rq_call_id (rc_caller ctx))
                                 (mk_FilePublication blocks (fp_target_size payload) (fp_expected_generation payload)
                                    (fp_expected_file_size payload) (fp_lease_epoch payload) (fp_mode payload))) publication);
          _ ← or_fail committed ctx (Some (rt_group_name routed)) (Some (rt_mount_epoch routed));
          success_with_route_epoch (ci_final_size intent) (Some (rt_group_name routed)) (Some (rt_mount_epoch routed)) route_epoch
      end
  end.

Definition commit_file (ctx : RequestContext) (args : PublishArgs) : fs (FsSuccess Z) :=
  session_write_admission ctx (wh_inode_id (pa_handle args));;
  or_fail (reject_if (foreign_blocks args) (InvalidArgument "committed block inode_id does not match request")) ctx None None;;
  close_write_session ctx (pa_handle args) (args_intent args) (pa_freshness args) (pa_expected_generation args) (pa_publish_mode args).
End publish.
