(* ===== verification/ServiceNamespace.v ===== *)
(** * Filesystem service: the namespace

    service/filesystem/namespace.rs: creating directories and files, renaming and
    deleting. Changes of the topology hold the namespace lock exclusively, so that
    no session is opened between their check for writers and their proposal. *)

From S2P Require Import Prelude Types Errors Inode Mount Store Namespace Apply Session SessionInv PathResolver Placement Workers Maintenance Server Service ServiceWrite.
Local Open Scope Z_scope.

Definition acquire_exclusive (sv : Server) : option (unit * Server) :=
  if tl_writer (sv_topology sv) || bool_decide (tl_readers (sv_topology sv) <> 0%nat) then None
  else Some (tt, with_topology sv (mk_TopologyLock 0 true)).
Definition release_exclusive (sv : Server) : Server :=
  with_topology sv (mk_TopologyLock (tl_readers (sv_topology sv)) false).

Definition with_exclusive_topology {A} (body : fs A) : fs A :=
  lift (await acquire_exclusive);; scoped release_exclusive body.

Record CreatedFileOutput := mk_CreatedFileOutput {
  cf_inode_id : InodeId;
  cf_lease_epoch : LeaseEpoch;
  cf_layout : FileLayout;
  cf_expires_at_ms : Z;
  cf_generation : ContentGeneration
}.

Definition created_output (session : WriteSession) : CreatedFileOutput :=
  mk_CreatedFileOutput (ws_inode_id session) (ws_lease_epoch session) (ws_layout session) (ws_expires_at_ms session)
    (ws_generation session).

(** The parent and name of a path below the mount root. *)
Definition parent_and_name (ctx : RequestContext) (resolved : ResolvedPath) (root : string) : fs (InodeId * string) :=
  match rp_parent_inode_id resolved, rp_name resolved with
  | Some parent, Some name => Return (Ok (parent, name))
  | _, _ => failure_from_resolved_path_error ctx (InvalidArgument root) (Some (rp_mount_ctx resolved))
  end.

Section namespace.
Variable command_len : Command -> option Z.
Variable limits : SessionLimits.
Variable file_create_layout : FileLayout.

(** ** Directories *)

Definition decode_ensured (success : ApplySuccess) : MetadataResult (InodeId * InodeAttrs) :=
  match success with DirectoryEnsured id attrs => Ok (id, attrs) | _ => Err unexpected_raft_apply_success end.

Definition execute_create_directory (ctx : RequestContext) (command : Command) (freshness : Freshness)
  : fs (FsSuccess (InodeId * InodeAttrs)) :=
  match command with
  | CreateDirectory _ root _ _ _ =>
      routed ← route_ctx_for_write ctx [root] freshness;
      ensured ← lift (propose_fs_write_command command_len command decode_ensured);
      created ← or_fail ensured ctx (Some (rt_group_name routed)) (Some (rt_mount_epoch routed));
      success created (Some (rt_group_name routed)) (Some (rt_mount_epoch routed))
  | _ => Crash
  end.

Definition create_directory_once (ctx : RequestContext) (path : string) (freshness : Freshness)
  : fs (FsSuccess (InodeId * InodeAttrs)) :=
  found ← lift (look (fun sv => resolve sv path));
  resolved ← or_path_error found ctx path;
  '(parent, name) ← parent_and_name ctx resolved "Cannot operate on mount root";
  now ← lift (look sv_now_ms);
  execute_create_directory ctx (CreateDirectory now parent [name] attrs_new false) freshness.

Definition create_directory_recursive (ctx : RequestContext) (path : string) (freshness : Freshness)
  : fs (FsSuccess (InodeId * InodeAttrs)) :=
  found ← lift (look (fun sv => resolve_mount_components (sv_mounts sv) path));
  '(mount_ctx, components) ← or_path_error found ctx path;
  if bool_decide (components = [])
  then failure_from_resolved_path_error ctx (InvalidArgument "Cannot operate on mount root") (Some mount_ctx)
  else
    now ← lift (look sv_now_ms);
    execute_create_directory ctx (CreateDirectory now (mc_root_inode_id mount_ctx) components attrs_new true) freshness.

Definition create_directory (ctx : RequestContext) (path : string) (recursive : bool) (freshness : Freshness)
  : fs (FsSuccess (InodeId * InodeAttrs)) :=
  require_admission (fun sv => check_meta_write sv ctx);;
  with_shared_topology (
    path ← or_path_error (normalize path) ctx path;
    if recursive then create_directory_recursive ctx path freshness else create_directory_once ctx path freshness).

(** ** Renaming *)

Definition routed_unit_result (ctx : RequestContext) (routed : RoutedFsWriteCtx) (result : MetadataResult unit)
  : fs (FsSuccess unit) :=
  or_fail result ctx (Some (rt_group_name routed)) (Some (rt_mount_epoch routed));;
  success tt (Some (rt_group_name routed)) (Some (rt_mount_epoch routed)).

Definition busy_below (id : InodeId) : prog bool := registry (fun st now => has_active_write_under_at st id now).
Definition busy_file (id : InodeId) : prog bool := registry (fun st now => has_active_write st id now).

(** The overwritten target must not contain a writer. *)
Definition rename_target_busy (routed : RoutedFsWriteCtx) (ctx : RequestContext) (dst_parent : InodeId) (dst_name : string)
  : fs bool :=
  let group := Some (rt_group_name routed) in
  let epoch := Some (rt_mount_epoch routed) in
  dentry ← lift (look (fun sv => read_dentry sv dst_parent dst_name));
  dentry ← or_fail dentry ctx group epoch;
  match dentry with
  | None => Return (Ok false)
  | Some dst =>
      found ← lift (look (fun sv => read_inode sv dst));
      found ← or_fail found ctx group epoch;
      match found with
      | None => Return (Ok false)
      | Some inode => if is_file inode then lift (busy_file dst) else lift (busy_below dst)
      end
  end.

(** A parent of the rename. *)
Definition rename_parent (ctx : RequestContext) (id : InodeId) (missing : string) : fs Inode :=
  found ← lift (look (fun sv => read_inode sv id));
  found ← or_fail found ctx None None;
  or_fail (ok_or found (NotFound missing)) ctx None None.

Definition decode_renamed (success : ApplySuccess) : MetadataResult unit :=
  match success with RenameApplied => Ok tt | _ => Err unexpected_raft_apply_success end.

Definition execute_rename (ctx : RequestContext) (now : Z) (args : RenameArgs) (freshness : Freshness) : fs (FsSuccess unit) :=
  or_fail (reject_if (bool_decide (Z.ldiff (ra_flags args) 1 <> 0)) (NotSupported "Unsupported rename flags")) ctx None None;;
  src_parent ← rename_parent ctx (ra_src_parent args) "Source parent inode not found";
  dst_parent ← rename_parent ctx (ra_dst_parent args) "Destination parent inode not found";
  if bool_decide (inode_mount_id src_parent <> inode_mount_id dst_parent)
  then
    '(group_name, mount_epoch) ← lift (look (fun sv => mount_hints_for_mount sv (inode_mount_id src_parent)));
    failure_from_error ctx (CrossMountRename "Cross-mount rename not allowed") group_name mount_epoch
  else
    routed ← route_ctx_for_write ctx [ra_src_parent args; ra_dst_parent args] freshness;
    source_busy ← lift (busy_below (ra_expected_src args));
    or_fail (reject_if source_busy (Busy "Rename source contains an active write lease")) ctx (Some (rt_group_name routed))
      (Some (rt_mount_epoch routed));;
    target_busy ← rename_target_busy routed ctx (ra_dst_parent args) (ra_dst args);
    or_fail (reject_if target_busy (Busy "Rename target contains an active write lease")) ctx (Some (rt_group_name routed))
      (Some (rt_mount_epoch routed));;
    renamed ← lift (propose_fs_write_command command_len (Rename now args) decode_renamed);
    routed_unit_result ctx routed renamed.

(** [resolve_rename] over this process's mount table and database. *)
Definition resolve_both (sv : Server) (src dst : string) : MetadataResult (ResolvedPath * ResolvedPath) :=
  src ← resolve sv src;
  dst ← resolve sv dst;
  reject_if (bool_decide (mc_mount_id (rp_mount_ctx src) <> mc_mount_id (rp_mount_ctx dst)))
    (CrossMountRename "Cross-mount rename not allowed");;
  Ok (src, dst).

(** The lease epoch of the file that a rename replaces. *)
Definition target_lease_epoch (ctx : RequestContext) (resolved : ResolvedPath) : fs (option LeaseEpoch) :=
  match rp_inode_id resolved with
  | None => Return (Ok None)
  | Some dst =>
      found ← lift (look (fun sv => read_inode sv dst));
      match found with
      | Ok found =>
          Return (Ok (inode ← found; match inode_kind inode with KFile file => Some (fd_lease_epoch file) | KDir => None end))
      | Err err => failure_from_resolved_path_error ctx err (Some (rp_mount_ctx resolved))
      | Panic => Crash
      end
  end.

Definition rename (ctx : RequestContext) (src_path dst_path : string) (flags : Z) (freshness : Freshness) : fs (FsSuccess unit) :=
  require_admission (fun sv => check_meta_write sv ctx);;
  with_exclusive_topology (
    src_path ← or_path_error (normalize src_path) ctx src_path;
    dst_path ← or_path_error (normalize dst_path) ctx dst_path;
    found ← lift (look (fun sv => resolve_both sv src_path dst_path));
    '(src, dst) ← or_fail found ctx None None;
    '(src_parent, src_name) ← parent_and_name ctx src "Cannot rename a mount root";
    expected_src ← match rp_inode_id src with
                   | Some id => Return (Ok id)
                   | None => failure_from_resolved_path_error ctx (NotFound "Source not found") (Some (rp_mount_ctx src))
                   end;
    '(dst_parent, dst_name) ← parent_and_name ctx dst "Cannot rename to a mount root";
    expected_dst_epoch ← target_lease_epoch ctx dst;
    now ← lift (look sv_now_ms);
    execute_rename ctx now
      (mk_RenameArgs src_parent src_name expected_src dst_parent dst_name (rp_inode_id dst) expected_dst_epoch flags) freshness).

(** ** Creating files *)

Definition begin_create_error (err : BeginCreateSessionError) : MetadataError :=
  match err with
  | BCE_Pending => Again "the same CreateFile operation is still pending"
  | BCE_PathBusy => Again "another CreateFile operation is pending for this path"
  | BCE_IdentityMismatch => InvalidArgument "CreateFile operation identity was reused for another request"
  | BCE_LimitExceeded _ _ => WriteSessionLimitExceeded "limit reached"
  | BCE_OpeningIdExhausted => ResourceExhausted "leader-local write opening identity exhausted"
  | BCE_InvalidAncestorChain => Internal "validated CreateFile parent chain was rejected"
  end.

Definition replay_output (r : CreateSessionReplay) : CreatedFileOutput :=
  mk_CreatedFileOutput (cs_inode_id r) (cs_lease_epoch r) (cs_layout r) (cs_expires_at_ms r) (cs_generation r).

Definition decode_created (success : ApplySuccess) : MetadataResult (InodeId * FileLayout * LeaseEpoch * Z * ContentGeneration) :=
  match success with
  | FileCreated id layout lease_epoch expires_at_ms generation => Ok (id, layout, lease_epoch, expires_at_ms, generation)
  | _ => Err unexpected_raft_apply_success
  end.

Definition create_opening_error (err : WriteOpeningError) : MetadataError :=
  match err with
  | WOE_LeaseEpochMismatch _ _ => Internal "CreateFile opening epoch mismatch"
  | _ => Again "CreateFile committed but its local write opening expired"
  end.

(** Reserve a session, commit the file, activate the exact reservation. *)
Definition create_resolved (ctx : RequestContext) (normalized_path : string) (components : list string) (parent : InodeId)
    (parent_ancestors : list InodeId) (freshness : Freshness) : fs (FsSuccess CreatedFileOutput) :=
  or_fail (validate_active_write_layout file_create_layout) ctx None None;;
  routed ← route_ctx_for_write ctx [parent] freshness;
  let group := Some (rt_group_name routed) in
  let epoch := Some (rt_mount_epoch routed) in
  let operation := mk_OperationId (rq_client_id (rc_caller ctx)) (rq_call_id (rc_caller ctx)) in
  let deadline := rq_deadline (rc_caller ctx) in
  or_fail (reject_if (deadline <? 0) (InvalidArgument "CreateFile deadline must be non-negative")) ctx group epoch;;
  begun ← lift (registry (fun st now =>
                  begin_create_session_at limits st
                    (mk_BeginCreateSessionInput operation deadline normalized_path (rt_mount_id routed) (rt_mount_epoch routed)
                       (rt_mount_root_inode_id routed) (rq_client_id (rc_caller ctx)) parent_ancestors) now));
  begun ← or_fail (map_err begin_create_error begun) ctx group epoch;
  match begun with
  | BCS_Replay replay => success (replay_output replay) group epoch
  | BCS_Reserved opening =>
      '(id, layout, lease_epoch, expires_at_ms, generation) ←
        guarded (release (fun st => cancel_create_opening st opening))
          (now ← lift (look sv_now_ms);
           created ← lift (propose_fs_write_command command_len
                             (CreateFile now
                                (mk_CreateFileArgs operation deadline (cro_expires_at_ms opening) normalized_path
                                   (rt_mount_id routed) (rt_mount_epoch routed) (rt_mount_root_inode_id routed) components
                                   attrs_new file_create_layout)) decode_created);
           or_fail created ctx group epoch);
      activated ← lift (registry (fun st now =>
                          create_opening_activate st opening id lease_epoch expires_at_ms layout generation now));
      session ← or_fail (map_err create_opening_error activated) ctx group epoch;
      success (created_output session) group epoch
  end.

Definition create_file (ctx : RequestContext) (path : string) (freshness : Freshness) : fs (FsSuccess CreatedFileOutput) :=
  require_admission (fun sv => check_meta_write sv ctx);;
  with_shared_topology (
    passed ← lift (look (fun sv => has_passed (rq_deadline (rc_caller ctx)) (sv_now_ms sv)));
    or_path_error (reject_if passed (InvalidArgument "CreateFile request deadline has expired")) ctx path;;
    path ← or_path_error (normalize path) ctx path;
    found ← lift (look (fun sv => resolve sv path));
    resolved ← or_path_error found ctx path;
    '(parent, _) ← parent_and_name ctx resolved "Cannot operate on mount root";
    require_admission (fun sv => check_data_write sv ctx (mc_mount_id (rp_mount_ctx resolved)));;
    let ancestors := match rp_inode_id resolved with
                     | Some _ => removelast (rp_ancestor_inode_ids resolved)
                     | None => rp_ancestor_inode_ids resolved
                     end in
    or_fail (reject_if (bool_decide (last ancestors <> Some parent)) (Internal "CreateFile resolved parent chain is inconsistent"))
      ctx (Some (mc_owner_group_name (rp_mount_ctx resolved))) (Some (mc_mount_epoch (rp_mount_ctx resolved)));;
    create_resolved ctx path (rp_relative_components resolved) parent ancestors freshness).

(** ** Deleting *)

Definition file_lease_epoch (inode : Inode) : LeaseEpoch :=
  match inode_kind inode with KFile file => fd_lease_epoch file | KDir => 0 end.

Definition decode_deleted (success : ApplySuccess) : MetadataResult unit :=
  match success with DeleteApplied => Ok tt | _ => Err unexpected_raft_apply_success end.

Definition delete_resolved (ctx : RequestContext) (parent : InodeId) (components : list string) (expected : InodeId)
    (recursive : bool) (freshness : Freshness) : fs (FsSuccess unit) :=
  routed ← route_ctx_for_write ctx [parent] freshness;
  let group := Some (rt_group_name routed) in
  let epoch := Some (rt_mount_epoch routed) in
  busy ← lift (busy_below expected);
  or_fail (reject_if busy (Busy "Delete target contains an active write lease")) ctx group epoch;;
  found ← lift (look (fun sv => read_inode sv expected));
  found ← or_fail found ctx group epoch;
  inode ← or_fail (ok_or found (NotFound "Delete target inode not found")) ctx group epoch;
  let expected_epoch := if is_file inode then Some (file_lease_epoch inode) else None in
  now ← lift (look sv_now_ms);
  deleted ← lift (propose_fs_write_command command_len
                    (Delete now (mk_DeleteArgs (rt_mount_id routed) (rt_mount_epoch routed) (rt_mount_root_inode_id routed)
                                   components expected expected_epoch recursive)) decode_deleted);
  routed_unit_result ctx routed deleted.

Definition delete_path (ctx : RequestContext) (path : string) (recursive : bool) (freshness : Freshness) : fs (FsSuccess unit) :=
  require_admission (fun sv => check_meta_write sv ctx);;
  with_exclusive_topology (
    path ← or_path_error (normalize path) ctx path;
    found ← lift (look (fun sv => resolve sv path));
    resolved ← or_path_error found ctx path;
    '(parent, _) ← parent_and_name ctx resolved "Cannot operate on mount root";
    target ← match rp_inode_id resolved with
             | Some id => Return (Ok id)
             | None => failure_from_resolved_path_error ctx (NotFound "Entry not found") (Some (rp_mount_ctx resolved))
             end;
    delete_resolved ctx parent (rp_relative_components resolved) target recursive freshness).
End namespace.
