(* ===== verification/ServiceEffects.v ===== *)
(** * What a request can change

    The handlers of the filesystem service change the session registry, the
    namespace lock and the proposals, at every call and when they are abandoned.
    The database, the mounts, the worker manager and the answers change only
    outside of them: metadata changes through the log alone. *)

From S2P Require Import Prelude Types Errors Inode Mount Store Apply Session SessionInv PathResolver Placement Workers Maintenance Server.
From S2P Require Import Service ServiceRead ServiceWrite ServicePublish ServiceNamespace.
Local Open Scope Z_scope.

Record untouched (sv sv' : Server) : Prop := {
  ut_store : sv_store sv' = sv_store sv;
  ut_mounts : sv_mounts sv' = sv_mounts sv;
  ut_node : sv_node sv' = sv_node sv;
  ut_workers : sv_workers sv' = sv_workers sv;
  ut_answers : sv_answers sv' = sv_answers sv;
  ut_now : sv_now_ms sv' = sv_now_ms sv
}.

#[global] Instance untouched_preorder : PreOrder untouched.
Proof. split; [by split|]. intros a b c [] []. split; congruence. Qed.

Fixpoint keeps {A} (p : prog A) : Prop :=
  match p with
  | Return _ | Crash => True
  | Step k run =>
      (forall cancel sv, k = Await (Some cancel) -> untouched sv (cancel sv)) /\
      forall sv, match run sv with Some (p', sv') => untouched sv sv' /\ keeps p' | None => True end
  end.

Lemma keeps_settle {A} (p : prog A) : forall sv, keeps p -> keeps (settle p sv).1 /\ untouched sv (settle p sv).2.
Proof.
  induction p as [a| |k run IH] using @prog_ind'; intros sv Hp; [by split|by split|]. destruct k as [|cancel]; [|by split].
  pose proof (proj2 Hp sv) as Hs. simpl. destruct (run sv) as [[p' sv']|] eqn:E; [|by split].
  destruct (IH _ _ _ E sv' (proj2 Hs)) as [? ?]. split; [done|]. by etrans; [apply Hs|].
Qed.

Lemma keeps_resume {A} (p : prog A) sv p' sv' : keeps p -> resume p sv = Some (p', sv') -> keeps p' /\ untouched sv sv'.
Proof.
  intros Hp H. destruct p as [a| |[|cancel] run]; try done. pose proof (proj2 Hp sv) as Hs. simpl in H.
  destruct (run sv) as [[q sv2]|]; [|done]. injection H as H. pose proof (keeps_settle q sv2 (proj2 Hs)) as [Hq Hu]. rewrite H in Hq, Hu.
  split; [done|]. by etrans; [apply Hs|].
Qed.

(** ** The parts of a program *)

Lemma keeps_bind {A B} (p : prog A) (f : A -> prog B) : keeps p -> (forall a, keeps (f a)) -> keeps (mbind (M := prog) f p).
Proof.
  intros Hp Hf. induction p as [a| |k run IH] using @prog_ind'; [apply Hf|done|]. destruct Hp as [Hc Hr]. split; [done|].
  intros sv. specialize (Hr sv). specialize (IH sv). simpl. destruct (run sv) as [[p' sv']|]; [|done]. split; [apply Hr|]. by eapply IH, Hr.
Qed.

Lemma keeps_owning {A} drop (p : prog A) : (forall sv, untouched sv (drop sv)) -> keeps p -> keeps (owning drop p).
Proof.
  intros Hd. induction p as [a| |k run IH] using @prog_ind'; intros Hp; [done|done|]. destruct Hp as [Hc Hr]. split.
  - intros cancel sv E. destruct k as [|[c|]]; try done. injection E as <-. etrans; [by apply Hc|apply Hd].
  - intros sv. specialize (Hr sv). specialize (IH sv). simpl. destruct (run sv) as [[p' sv']|]; [|done]. split; [apply Hr|]. by eapply IH, Hr.
Qed.

Lemma keeps_detached {A} (p : prog (MetadataResult A)) : keeps p -> keeps (detached p).
Proof.
  induction p as [a| |k run IH] using @prog_ind'; intros Hp; [done|done|]. destruct Hp as [Hc Hr]. split; [by destruct k|].
  intros sv. specialize (Hr sv). specialize (IH sv). simpl. destruct (run sv) as [[p' sv']|]; [|done]. split; [apply Hr|]. by eapply IH, Hr.
Qed.

Lemma keeps_call {A} (f : Server -> A * Server) : (forall sv, untouched sv (f sv).2) -> keeps (call f).
Proof. intros Hf. split; [done|]. intros sv. simpl. specialize (Hf sv). by destruct (f sv). Qed.

Lemma keeps_look {A} (f : Server -> A) : keeps (look f).
Proof. by apply keeps_call. Qed.

Lemma keeps_await {A} (f : Server -> option (A * Server)) :
  (forall sv a sv', f sv = Some (a, sv') -> untouched sv sv') -> keeps (await f).
Proof. intros Hf. split; [by intros cancel sv [= <-]|]. intros sv. simpl. destruct (f sv) as [[a sv']|] eqn:E; [|done]. split; [by eapply Hf|done]. Qed.

Lemma keeps_registry {A} (f : SessionRegistryState -> Z -> result Empty_set (SessionRegistryState * A)) : keeps (registry f).
Proof. split; [done|]. intros sv. simpl. by destruct (f _ _) as [[st a]|[]|]. Qed.

Lemma keeps_spawned {A} (p : prog (MetadataResult A)) : keeps p -> keeps (spawned p).
Proof. intros Hp. split; [done|]. intros sv. split; [done|]. by apply keeps_detached. Qed.

Lemma untouched_release f sv : untouched sv (release f sv).
Proof. unfold release. by destruct (f _). Qed.

Lemma keeps_guarded {A} drop (body : fs A) : (forall sv, untouched sv (drop sv)) -> keeps body -> keeps (guarded drop body).
Proof.
  intros Hd Hb. apply keeps_bind; [by apply keeps_owning|]. intros [a|e|]; [done| |done]. apply keeps_bind; [by apply keeps_call|done].
Qed.

Lemma keeps_scoped {A} drop (body : fs A) : (forall sv, untouched sv (drop sv)) -> keeps body -> keeps (scoped drop body).
Proof. intros Hd Hb. apply keeps_bind; [by apply keeps_owning|]. intros r. apply keeps_bind; [by apply keeps_call|done]. Qed.

Create HintDb keeps.

(** One step into a program: through its calls, choices and definitions. *)
Ltac keeps_step :=
  lazymatch goal with
  | |- keeps (mbind _ _) => apply keeps_bind; [|intros ?]
  | |- keeps (Return _) => exact I
  | |- keeps Crash => exact I
  | |- keeps (look _) => apply keeps_look
  | |- keeps (registry _) => apply keeps_registry
  | |- keeps (call _) => apply keeps_call; done
  | |- keeps (await _) => apply keeps_await; intros ? ? ?
  | |- keeps (guarded _ _) => apply keeps_guarded; [intros ?; apply untouched_release|]
  | |- keeps (scoped _ _) => apply keeps_scoped; [done|]
  | |- keeps (spawned _) => apply keeps_spawned
  | |- keeps (match ?x with _ => _ end) => destruct x
  | |- keeps ?p => first [solve [eauto with keeps] | let h := get_head p in unfold h]
  end.
Ltac keeps := repeat (keeps_step; cbv beta).

Section requests.
Context (command_len : Command -> option Z) (limits : SessionLimits) (heartbeat : Z) (layout : FileLayout).

Lemma keeps_propose c : keeps (propose_write_command command_len c).
Proof.
  unfold propose_write_command. keeps.
  destruct (sv_answers _ !! _); [|done]. intros [= _ <-]. done.
Qed.

Lemma keeps_shared {A} (body : fs A) : keeps body -> keeps (with_shared_topology body).
Proof.
  intros Hb. apply keeps_bind; [|intros []; [by apply keeps_scoped|done..]]. keeps. unfold acquire_shared. destruct (tl_writer _); by intros; simplify_eq.
Qed.

Lemma keeps_exclusive {A} (body : fs A) : keeps body -> keeps (with_exclusive_topology body).
Proof.
  intros Hb. apply keeps_bind; [|intros []; [by apply keeps_scoped|done..]]. keeps. unfold acquire_exclusive. destruct (_ || _); by intros; simplify_eq.
Qed.

Lemma keeps_barrier : keeps read_barrier.
Proof. apply keeps_await. by intros ? ? ? [= _ <-]. Qed.
#[local] Hint Resolve keeps_propose keeps_barrier : keeps.
#[local] Hint Extern 1 (keeps (with_shared_topology _)) => apply keeps_shared; keeps : keeps.
#[local] Hint Extern 1 (keeps (with_exclusive_topology _)) => apply keeps_exclusive; keeps : keeps.

Lemma keeps_join_entries ctx group epoch route entries : keeps (join_entries ctx group epoch route entries).
Proof. induction entries as [|[name child] rest IH]; cbn [join_entries]; keeps. Qed.

Lemma keeps_locate_blocks ctx group file chunk lo hi group_name epoch route blocks : forall ordinal,
  keeps (locate_blocks heartbeat ctx group file chunk lo hi group_name epoch route ordinal blocks).
Proof. induction blocks as [|b rest IH]; intros ordinal; cbn [locate_blocks]; keeps. Qed.

Lemma keeps_wait_ready ctx group epoch route targets : keeps (wait_for_publish_ready heartbeat ctx group epoch route targets).
Proof. unfold wait_for_publish_ready. keeps. destruct (ready_status _ _ _ _); [|destruct (has_passed _ _)|]; by intros [= _ <-]. Qed.
#[local] Hint Resolve keeps_join_entries keeps_locate_blocks keeps_wait_ready : keeps.

Lemma keeps_get_status ctx path freshness : keeps (get_status ctx path freshness).
Proof. keeps. Qed.
Lemma keeps_list_status ctx path cursor max freshness : keeps (list_status ctx path cursor max freshness).
Proof. keeps. Qed.
Lemma keeps_open_file ctx path freshness : keeps (open_file heartbeat ctx path freshness).
Proof. keeps. Qed.
Lemma keeps_block_locations ctx target range freshness : keeps (get_file_block_locations heartbeat ctx target range freshness).
Proof. keeps. Qed.
Lemma keeps_create_directory ctx path recursive freshness : keeps (create_directory command_len ctx path recursive freshness).
Proof. keeps. Qed.
Lemma keeps_rename ctx src dst flags freshness : keeps (rename command_len ctx src dst flags freshness).
Proof. keeps. Qed.
Lemma keeps_delete_path ctx path recursive freshness : keeps (delete_path command_len ctx path recursive freshness).
Proof. keeps. Qed.
Lemma keeps_create_file ctx path freshness : keeps (create_file command_len limits layout ctx path freshness).
Proof. keeps. Qed.
Lemma keeps_authorize ctx args : keeps (authorize_block_write heartbeat ctx args).
Proof. keeps. Qed.
Lemma keeps_renew ctx handle freshness : keeps (renew_lease limits ctx handle freshness).
Proof. keeps. Qed.
Lemma keeps_abort ctx handle freshness : keeps (abort_file_write command_len ctx handle freshness).
Proof. keeps. Qed.
Lemma keeps_open_write ctx path mode freshness : keeps (open_write command_len limits heartbeat ctx path mode freshness).
Proof. keeps. Qed.
Lemma keeps_allocate ctx handle previous freshness : keeps (allocate_block command_len limits heartbeat ctx handle previous freshness).
Proof. keeps. Qed.
Lemma keeps_sync ctx args : keeps (sync_write command_len heartbeat ctx args).
Proof. keeps. Qed.
Lemma keeps_commit ctx args : keeps (commit_file command_len heartbeat ctx args).
Proof. keeps. Qed.
End requests.
