(* ===== verification/Writers.v ===== *)
(** * Writers: the invariant behind the write protocol

    The requests of one metadata process run interleaved, share the session
    registry and propose commands whose answers may come late or never. Ghost
    tokens record what a running request relies on: the publication it has frozen a
    session for, the block identity it waits for, the opening it waits to activate.
    [sound] is the invariant of the shared state under all tokens. *)

From S2P Require Import Prelude Types Errors Inode Mount Store Namespace Tree NamespaceInv.
From S2P Require Import WriteApply Reclaim Apply Reach Fencing Session SessionInv SessionProps SessionSystem SessionFrame.
From S2P Require Import PathResolver Placement Workers Maintenance Server Service ServicePublish.
Local Open Scope Z_scope.

(** ** Tokens *)

(** How far a publication got: its session is frozen; the freeze is durable until
    an answer; its command has a ticket. *)
Inductive stage := Held | Marked | Proposed (ticket : nat).

Record pin := mk_pin {
  pn_id : InodeId;
  pn_epoch : LeaseEpoch;
  pn_targets : list LocatedBlock;
  pn_mode : WriteMode;
  pn_stage : stage
}.

Inductive token :=
| TPin (p : pin)
| TAlloc (id : InodeId) (epoch : LeaseEpoch)
| TOpen (id : InodeId) (epoch : LeaseEpoch) (opening : Z) (mode : WriteMode).

(** By publication identity, or by the ticket of the proposal waited for. *)
Notation tokens := (@gmap (Z + nat) sum_eq_dec sum_countable token).

Definition is_held (k : Z + nat) (t : token) : option Z :=
  match k, t with
  | inl n, TPin p => match pn_stage p with Held => Some n | _ => None end
  | _, _ => None
  end.
Definition held (H : tokens) : gset Z := list_to_set (omap (fun e => is_held e.1 e.2) (map_to_list H)).

Lemma elem_of_held H n : n ∈ held H <-> exists p, H !! inl n = Some (TPin p) /\ pn_stage p = Held.
Proof.
  unfold held. rewrite elem_of_list_to_set, list_elem_of_omap. split.
  - intros ([k t] & Hin & Hk). apply elem_of_map_to_list in Hin. destruct k as [m|]; [|done].
    destruct t as [p| |]; try done. simpl in Hk. destruct (pn_stage p) eqn:E; simplify_eq. eauto.
  - intros (p & Hl & Hs). exists (inl n, TPin p). rewrite elem_of_map_to_list. split; [done|]. simpl. by rewrite Hs.
Qed.

(** ** The invariant *)

Definition pinned (p : pin) (s : WriteSession) : Prop :=
  ws_inode_id s = pn_id p /\ ws_lease_epoch s = pn_epoch p /\ ws_issued_targets s = pn_targets p /\ ws_mode s = pn_mode p /\
  (ws_publication_submitted s = true <-> pn_stage p <> Held).

Definition issued (s : WriteSession) : list BlockId := lb_block_id <$> ws_issued_targets s.

(** The publication was checked against the session that the pin describes. *)
Definition carries (p : pin) (pub : FilePublication) : Prop :=
  pn_epoch p = fp_lease_epoch pub /\ (forall b, b ∈ fp_blocks pub -> cb_block_id b ∈ (lb_block_id <$> pn_targets p)) /\
  fp_mode pub = match pn_mode p with Overwrite => ReplaceIfUnchanged | Append => AppendIfUnchanged end.

Definition answered (sv : Server) (t : nat) (success : ApplySuccess) : Prop :=
  sv_answers sv !! t = Some (CW_Committed (Ok success)).

Definition writer (sv : Server) (id : InodeId) (s : WriteSession) : Prop := entries (sv_registry sv) !! id = Some (Active s).

Definition idle (sv : Server) (id : InodeId) (epoch : LeaseEpoch) : Prop :=
  forall s, writer sv id s -> ws_lease_epoch s <> epoch.

(** A creation the process may be told about: by an answer, or by a replay record
    that a repeated request finds. *)
Definition creation (sv : Server) (id : InodeId) (epoch : LeaseEpoch) (expires : Z) : Prop :=
  (exists t layout g, answered sv t (FileCreated id layout epoch expires g)) \/
  (exists op r, s_replays (sv_store sv) !! op = Some r /\ rr_inode_id r = id /\ rr_lease_epoch r = epoch /\
     rr_expires_at_ms r = expires).

Section invariant.
Context (limits : SessionLimits).
Implicit Types (H : tokens) (U : gset (InodeId * LeaseEpoch)) (W : gset BlockId) (sv : Server).

(** Store, clock and proposals. [U] are the writer epochs that were ever active
    here, [W] the blocks that are watched for becoming visible. *)
Record backed H U W sv : Prop := {
  bk_store : store_inv (sv_store sv);
  bk_clock : 0 <= sv_now_ms sv < u64_max;
  bk_token : forall t k, H !! inr t = Some k -> (t < sv_next_ticket sv)%nat;
  bk_proposal : forall t c, sv_proposals sv !! t = Some c -> (t < sv_next_ticket sv)%nat;
  bk_answer : forall t a, sv_answers sv !! t = Some a -> (t < sv_next_ticket sv)%nat;
  bk_answered : forall t r, sv_answers sv !! t = Some (CW_Committed r) -> sv_proposals sv !! t = None /\ r <> Panic;
  bk_ended : forall t id e, answered sv t (WriteLeaseEnded id e) -> reached (sv_store sv) id e;
  bk_committed : forall t id g e, answered sv t (FileCommitted id g e) -> reached (sv_store sv) id e;
  bk_leased : forall t id e, answered sv t (WriteLeaseAcquired id e) -> reached (sv_store sv) id e;
  bk_used : forall id e, (id, e) ∈ U -> reached (sv_store sv) id e;
  bk_created : forall id e x, creation sv id e x -> reached (sv_store sv) id e;
  bk_creations : forall id e x e' x', creation sv id e x -> creation sv id e' x' -> e' = e /\ x' = x;
  bk_acquired : forall id e x t e', creation sv id e x -> answered sv t (WriteLeaseAcquired id e') -> e < e';
  bk_watched : forall b, b ∈ W -> assigned (sv_store sv) b
}.

(** Sessions and the publications they are frozen for. *)
Record frozen H sv : Prop := {
  fz_registry : registry_ok limits (next_publication_id (sv_registry sv)) (held H) (sv_registry sv);
  fz_token : forall n k, H !! inl n = Some k -> n < next_publication_id (sv_registry sv);
  fz_pinned : forall id s n p, writer sv id s -> ws_active_publication s = Some n -> H !! inl n = Some (TPin p) -> pinned p s;
  fz_marked : forall n p, H !! inl n = Some (TPin p) -> pn_stage p <> Held ->
    fenced (sv_store sv) (pn_id p) (pn_epoch p) \/ exists s, writer sv (pn_id p) s /\ ws_active_publication s = Some n;
  fz_flight : forall t c id pub, sv_proposals sv !! t = Some c -> publication_of c = Some (id, pub) ->
    fenced (sv_store sv) id (fp_lease_epoch pub) \/
    exists n p, H !! inl n = Some (TPin p) /\ pn_stage p = Proposed t /\ pn_id p = id /\ carries p pub
}.

(** Sessions and the block identities they were given. *)
Record issuing H U W sv : Prop := {
  is_used : forall id s, writer sv id s -> (id, ws_lease_epoch s) ∈ U;
  is_opening : forall id o, entries (sv_registry sv) !! id = Some (Opening o) -> os_opening_id o < next_opening_id (sv_registry sv);
  is_alloc : forall t id e, H !! inr t = Some (TAlloc id e) -> (id, e) ∈ U /\
    forall b, answered sv t (BlockAllocated b) -> block_inode_id b = id -> b ∈ W ->
      idle sv id e \/ fenced (sv_store sv) id e;
  is_open : forall t id e oid mode, H !! inr t = Some (TOpen id e oid mode) -> oid < next_opening_id (sv_registry sv) /\
    forall o, entries (sv_registry sv) !! id = Some (Opening o) -> os_opening_id o = oid -> (id, e) ∉ U /\ os_mode o = mode;
  is_lived : forall id e x s, creation sv id e x -> writer sv id s -> ws_lease_epoch s = e -> x <= ws_expires_at_ms s;
  is_expired : forall id e x, creation sv id e x -> (id, e) ∈ U -> idle sv id e ->
    fenced (sv_store sv) id e \/ x <= sv_now_ms sv;
  is_watched : forall b s, b ∈ W -> writer sv (block_inode_id b) s -> b ∈ issued s ->
    fenced (sv_store sv) (block_inode_id b) (ws_lease_epoch s) \/ (visible (sv_store sv) b /\ ws_mode s = Append)
}.

Record sound H U W sv : Prop := {
  sd_backed : backed H U W sv;
  sd_frozen : frozen H sv;
  sd_issuing : issuing H U W sv
}.

(** Only the registry changed. *)
Lemma backed_registry H H' U U' W sv st :
  backed H U W sv -> (forall t k, H' !! inr t = Some k -> (t < sv_next_ticket sv)%nat) ->
  (forall id e, (id, e) ∈ U' -> (id, e) ∈ U \/ reached (sv_store sv) id e) -> backed H' U' W (with_registry sv st).
Proof. intros [] Ht HU. split; try done. intros id e [?|?]%HU; simpl; auto. Qed.

(** ** Calm methods *)

Lemma same_writer_pinned p s s' : same_writer s s' -> pinned p s -> pinned p s'.
Proof. intros (?&?&?&?&?&?&?&?&?&?) (?&?&?&?&?). unfold pinned. split_and!; congruence. Qed.

Lemma frozen_calm H sv st :
  frozen H sv -> sv_now_ms sv < u64_max -> calm (sv_now_ms sv) (sv_registry sv) st ->
  registry_ok limits (next_publication_id (sv_registry sv)) (held H) st -> frozen H (with_registry sv st).
Proof.
  intros [Hr Ht Hp Hm Hf] Hnow Hc Hok. pose proof (cm_publication_id _ _ _ Hc) as Hn. split; simpl; rewrite ?Hn; try done.
  - intros id s' n p Hs Ha Htok. apply (cm_back _ _ _ Hc) in Hs as (s & Hs & Hw). eapply same_writer_pinned; [done|].
    eapply Hp; [done| |done]. destruct Hw as (_&_&_&_&E&_). congruence.
  - intros n p Htok Hst. destruct (Hm n p Htok Hst) as [?|(s & Hs & Ha)]; [by left|right].
    destruct (cm_live _ _ _ Hc _ _ Hs) as (s' & Hs' & Hw).
    + destruct (Hp _ _ _ _ Hs Ha Htok) as (_ & _ & _ & _ & Hsub). simpl. by rewrite (proj2 Hsub Hst).
    + exists s'. split; [done|]. destruct Hw as (_&_&_&_&E&_). congruence.
Qed.

Lemma calm_idle sv st id e : calm (sv_now_ms sv) (sv_registry sv) st -> idle sv id e -> idle (with_registry sv st) id e.
Proof. intros Hc Hi s' Hs'. apply (cm_back _ _ _ Hc) in Hs' as (s & Hs & Hw). destruct Hw as (_ & -> & _). by apply Hi. Qed.

(** A writer that a calm method lost had expired. *)
Lemma calm_lost sv st id e :
  calm (sv_now_ms sv) (sv_registry sv) st -> idle (with_registry sv st) id e -> sv_now_ms sv < u64_max ->
  idle sv id e \/ exists s, writer sv id s /\ ws_lease_epoch s = e /\ ws_expires_at_ms s <= sv_now_ms sv.
Proof.
  intros Hc Hi Hnow. destruct (entries (sv_registry sv) !! id) as [[o|s]|] eqn:Hs.
  - left. intros s Hw. unfold writer in Hw. congruence.
  - destruct (decide (ws_lease_epoch s = e)) as [He|He].
    + right. exists s. split_and!; try done. destruct (decide (sv_now_ms sv < retirement_at_ms (Active s))) as [Hl|Hl].
      * destruct (cm_live _ _ _ Hc _ _ Hs Hl) as (s' & Hs' & Hw). destruct (Hi s' Hs'). destruct Hw as (_ & -> & _). done.
      * simpl in Hl. destruct (ws_publication_submitted s); lia.
    + left. intros s' Hw. unfold writer in Hw. congruence.
  - left. intros s Hw. unfold writer in Hw. congruence.
Qed.

Lemma issuing_calm H U W sv st :
  issuing H U W sv -> sv_now_ms sv < u64_max -> calm (sv_now_ms sv) (sv_registry sv) st -> issuing H U W (with_registry sv st).
Proof.
  intros [Hu Ho Ha Hop Hl He Hw] Hnow Hc. pose proof (cm_opening_id _ _ _ Hc). split; simpl.
  - intros id s' Hs'. apply (cm_back _ _ _ Hc) in Hs' as (s & Hs & Hsw). destruct Hsw as (_ & -> & _). by apply Hu.
  - intros id o Hid. destruct (cm_opening _ _ _ Hc _ _ Hid) as [Hold|?]; [|lia]. specialize (Ho _ _ Hold). lia.
  - intros t id e Ht. destruct (Ha _ _ _ Ht) as [HU HB]. split; [done|]. intros b Hans Hb Hin.
    destruct (HB b Hans Hb Hin) as [Hi|?]; [left; by apply calm_idle|by right].
  - intros t id e oid mode Ht. destruct (Hop _ _ _ _ _ Ht) as [Hlt HB]. split; [lia|]. intros o Hid Heq.
    destruct (cm_opening _ _ _ Hc _ _ Hid) as [Hold|?]; [eauto|lia].
  - intros id e x s' Hcr Hs' Heq. apply (cm_back _ _ _ Hc) in Hs' as (s & Hs & Hsw).
    destruct Hsw as (_ & E & _ & _ & _ & _ & _ & _ & _ & Hx). specialize (Hl id e x s Hcr Hs). rewrite E in Heq. specialize (Hl Heq). lia.
  - intros id e x Hcr HU Hi. destruct (calm_lost _ _ _ _ Hc Hi Hnow) as [Hi0|(s & Hs & Heq & Hx)]; [by eapply He|].
    right. specialize (Hl _ _ _ _ Hcr Hs Heq). lia.
  - intros b s' Hb Hs' Hin. apply (cm_back _ _ _ Hc) in Hs' as (s & Hs & Hsw). destruct Hsw as (_ & -> & -> & Ht & _).
    unfold issued in Hin. rewrite Ht in Hin. by apply Hw.
Qed.

Lemma sound_calm H U W sv st :
  sound H U W sv -> calm (sv_now_ms sv) (sv_registry sv) st ->
  registry_ok limits (next_publication_id (sv_registry sv)) (held H) st -> sound H U W (with_registry sv st).
Proof.
  intros [Hb Hf Hi] Hc Hok. destruct (bk_clock _ _ _ _ Hb). split.
  - eapply backed_registry; [done|apply Hb|auto].
  - by apply frozen_calm.
  - by apply issuing_calm.
Qed.

(** ** A writer in another stage *)

Lemma writer_insert sv st id s0 j s :
  entries st = <[id := Active s0]> (entries (sv_registry sv)) -> writer (with_registry sv st) j s ->
  (j = id /\ s = s0) \/ (j <> id /\ writer sv j s).
Proof. unfold writer. simpl. intros -> [[<- [= <-]]|[? ?]]%lookup_insert_Some; auto. Qed.

Lemma writer_inserted sv st id s0 : entries st = <[id := Active s0]> (entries (sv_registry sv)) -> writer (with_registry sv st) id s0.
Proof. unfold writer. simpl. intros ->. apply lookup_insert_eq. Qed.

Lemma writer_kept sv st id s0 j s :
  entries st = <[id := Active s0]> (entries (sv_registry sv)) -> j <> id -> writer sv j s -> writer (with_registry sv st) j s.
Proof. unfold writer. simpl. intros -> ? ?. by rewrite lookup_insert_ne. Qed.

Lemma issuing_update H H' U W sv st id s s' :
  issuing H U W sv -> writer sv id s -> entries st = <[id := Active s']> (entries (sv_registry sv)) ->
  next_opening_id st = next_opening_id (sv_registry sv) -> (forall t, H' !! inr t = H !! inr t) ->
  ws_lease_epoch s' = ws_lease_epoch s -> ws_expires_at_ms s <= ws_expires_at_ms s' ->
  (forall b, b ∈ W -> block_inode_id b = id -> b ∈ issued s' ->
     fenced (sv_store sv) id (ws_lease_epoch s) \/ (b ∈ issued s /\ (ws_mode s = Append -> ws_mode s' = Append))) ->
  issuing H' U W (with_registry sv st).
Proof.
  intros [Hu Ho Ha Hop Hl He Hw] Hs Hent Hno HH Hep Hex Hiss.
  assert (forall j e, idle sv j e <-> idle (with_registry sv st) j e) as Hidle.
  { intros j e. split; intros Hi t Ht.
    - destruct (writer_insert _ _ _ _ _ _ Hent Ht) as [[-> ->]|[_ ?]]; [rewrite Hep|]; eauto.
    - destruct (decide (j = id)) as [->|Hne].
      + assert (t = s) as -> by (unfold writer in *; congruence). rewrite <- Hep. by apply Hi, writer_inserted.
      + by eapply Hi, writer_kept. }
  assert (forall j o, entries st !! j = Some (Opening o) -> entries (sv_registry sv) !! j = Some (Opening o)) as Hopen.
  { intros j o. rewrite Hent. intros [[_ ?]|[_ ?]]%lookup_insert_Some; done. }
  split; simpl; rewrite ?Hno.
  - intros j t Ht. destruct (writer_insert _ _ _ _ _ _ Hent Ht) as [[-> ->]|[_ ?]]; [rewrite Hep|]; eauto.
  - eauto.
  - intros t j e Ht. rewrite HH in Ht. destruct (Ha _ _ _ Ht) as [? HB]. split; [done|]. intros b. rewrite <- Hidle. by apply HB.
  - intros t j e oid mode Ht. rewrite HH in Ht. destruct (Hop _ _ _ _ _ Ht) as [? HB]. split; [done|]. eauto.
  - intros j e x t Hc Ht Heq. destruct (writer_insert _ _ _ _ _ _ Hent Ht) as [[-> ->]|[_ Ht0]]; [|by eapply Hl].
    specialize (Hl _ _ _ _ Hc Hs). rewrite Hep in Heq. specialize (Hl Heq). lia.
  - intros j e x Hc HU Hi. apply Hidle in Hi. by eapply He.
  - intros b t Hb Ht Hin. destruct (writer_insert _ _ _ _ _ _ Hent Ht) as [[Hj ->]|[_ Ht0]]; [|by apply Hw].
    destruct (Hiss b Hb Hj Hin) as [?|[Hold Hmode]]; [left; by rewrite Hj, Hep|]. rewrite Hj, Hep. rewrite <- Hj in Hs.
    destruct (Hw b s Hb Hs Hold) as [?|[? ?]]; [left; congruence|right; auto].
Qed.

Lemma frozen_update H H' sv st id s s' n :
  frozen H sv -> writer sv id s -> entries st = <[id := Active s']> (entries (sv_registry sv)) ->
  registry_ok limits (next_publication_id st) (held H') st ->
  (forall m k, H' !! inl m = Some k -> m < next_publication_id st) ->
  (forall m, m <> n -> H' !! inl m = H !! inl m) ->
  (forall j t, writer sv j t -> ws_active_publication t = Some n -> j = id) ->
  (forall m p, ws_active_publication s' = Some m -> H' !! inl m = Some (TPin p) -> pinned p s') ->
  (forall m, ws_active_publication s = Some m -> m = n) ->
  (forall p, H' !! inl n = Some (TPin p) -> pn_stage p <> Held -> pn_id p = id /\ ws_active_publication s' = Some n) ->
  (forall p t, H !! inl n = Some (TPin p) -> pn_stage p = Proposed t -> is_Some (sv_proposals sv !! t) -> H' !! inl n = Some (TPin p)) ->
  frozen H' (with_registry sv st).
Proof.
  intros [Hr Ht Hp Hm Hf] Hs Hent Hok Htok HH Hone Hpin Hact Hmark Hback. split; simpl; try done.
  - intros j t m p Hw Ha Hm'. destruct (writer_insert _ _ _ _ _ _ Hent Hw) as [[-> ->]|[Hne Hw0]]; [by eapply Hpin|].
    eapply Hp; [done..|]. rewrite <- HH; [done|]. intros ->. by eapply Hne, Hone.
  - intros m p Hm' Hst. destruct (decide (m = n)) as [->|Hne].
    + right. destruct (Hmark p Hm' Hst) as [-> ?]. exists s'. split; [by eapply writer_inserted|done].
    + rewrite HH in Hm' by done. destruct (Hm m p Hm' Hst) as [?|(t & Hw & Ha)]; [by left|right].
      exists t. split; [|done]. eapply writer_kept; [done| |done]. intros E. apply Hne, Hact.
      assert (t = s) as -> by (unfold writer in *; congruence). done.
  - intros t c j pub Hprop Hpub. destruct (Hf _ _ _ _ Hprop Hpub) as [?|(m & p & Hm' & Hst & ?)]; [by left|right].
    exists m, p. split; [|done]. destruct (decide (m = n)) as [->|Hne]; [|by rewrite HH]. by eapply Hback.
Qed.

(** Only one session carries a given publication identity. *)
Lemma pinned_once H sv n p id s j t :
  frozen H sv -> H !! inl n = Some (TPin p) -> writer sv id s -> ws_active_publication s = Some n ->
  writer sv j t -> ws_active_publication t = Some n -> j = id.
Proof.
  intros Hf Hn Hs Ha Ht Hb. destruct (fz_pinned _ _ Hf _ _ _ _ Hs Ha Hn) as [E _].
  destruct (fz_pinned _ _ Hf _ _ _ _ Ht Hb Hn) as [E' _].
  rewrite <- (session_id _ _ _ _ _ _ (fz_registry _ _ Hf) Hs), <- (session_id _ _ _ _ _ _ (fz_registry _ _ Hf) Ht). congruence.
Qed.

Lemma active_below H sv id s n : frozen H sv -> writer sv id s -> ws_active_publication s = Some n -> n < next_publication_id (sv_registry sv).
Proof. intros Hf Hs Ha. by destruct (so_publication _ _ _ _ (ro_sessions _ _ _ _ (fz_registry _ _ Hf) _ _ Hs) _ Ha). Qed.

(** ** Tokens come and go *)

Definition pin_of (s : WriteSession) (g : stage) : pin :=
  mk_pin (ws_inode_id s) (ws_lease_epoch s) (ws_issued_targets s) (ws_mode s) g.

Lemma held_insert H n p m : m ∈ held (<[inl n := TPin p]> H) -> (m = n /\ pn_stage p = Held) \/ (m <> n /\ m ∈ held H).
Proof. rewrite !elem_of_held. intros (q & [[[= <-] [= <-]]|[Hne Hl]]%lookup_insert_Some & Hs); [by left|right]. split; [congruence|eauto]. Qed.

Lemma held_delete H k : held (delete k H) ⊆ held H.
Proof. intros m. rewrite !elem_of_held. intros (q & [_ Hl]%lookup_delete_Some & Hs). eauto. Qed.

Lemma held_ticket H t k : held (<[inr t := k]> H) ⊆ held H.
Proof. intros m. rewrite !elem_of_held. intros (q & [[? _]|[_ Hl]]%lookup_insert_Some & Hs); [done|eauto]. Qed.

Lemma backed_pin H n k U W sv : backed H U W sv -> backed (<[inl n := k]> H) U W sv.
Proof. intros []. split; try done. intros t k' [[? _]|[_ Hl]]%lookup_insert_Some; [done|eauto]. Qed.

Lemma backed_forget H k U W sv : backed H U W sv -> backed (delete k H) U W sv.
Proof. intros []. split; try done. intros t k' [_ Hl]%lookup_delete_Some. eauto. Qed.

(** A token for a wait that is over. *)
Lemma sound_forget_ticket H t U W sv : sound H U W sv -> sound (delete (inr t) H) U W sv.
Proof.
  intros [Hb [Hr Ht Hp Hm Hf] [? ? Ha Ho ? ? ?]]. split; [by apply backed_forget| |].
  - split; try done.
    + eapply registry_ok_weaken; [done|apply held_delete].
    + intros n k [_ ?]%lookup_delete_Some. eauto.
    + intros id s n p ? ? [_ ?]%lookup_delete_Some. eauto.
    + intros n p [_ ?]%lookup_delete_Some. eauto.
    + intros t' c id pub Hprop Hpub. destruct (Hf _ _ _ _ Hprop Hpub) as [?|(n & p & Hn & ?)]; [by left|right].
      exists n, p. split; [|done]. by rewrite lookup_delete_ne.
  - split; try done.
    + intros t' id e [_ ?]%lookup_delete_Some. eauto.
    + intros t' id e oid mode [_ ?]%lookup_delete_Some. eauto.
Qed.

(** ** Publications *)

Lemma sound_begin_publication H U W sv id e :
  limits_ok limits = true -> sound H U W sv ->
  exists st res, begin_publication (sv_registry sv) id e (sv_now_ms sv) = Ok (st, res) /\
    match res with
    | Ok p =>
        H !! inl (wp_publication_id p) = None /\ wp_submitted p = false /\ ws_inode_id (wp_session p) = id /\
        ws_lease_epoch (wp_session p) = e /\
        sound (<[inl (wp_publication_id p) := TPin (pin_of (wp_session p) Held)]> H) U W (with_registry sv st)
    | _ => sound H U W (with_registry sv st)
    end.
Proof.
  intros Hlim Hsd. pose proof (fz_registry _ _ (sd_frozen _ _ _ _ Hsd)) as Hr.
  destruct (begin_publication_ok limits _ _ (sv_registry sv) id e (sv_now_ms sv) Hr) as (st & res & Hb & Hok).
  pose proof (begin_publication_effect limits _ _ _ _ _ _ _ _ Hr Hb) as He. exists st, res. split; [done|].
  destruct res as [p| |]; [|by apply sound_calm..]. destruct He as (st2 & s & Hc & Hok2 & Hs & Hid & Hep & Ha & Hsub & Hn & Hps & Hses & Hent & Hnx & Hno).
  destruct Hok as (_ & _ & Hok). set (n := next_publication_id (sv_registry sv)) in *.
  apply sound_calm with (st := st2) in Hsd; [|done..]. clear Hc Hr Hb. destruct Hsd as [Hbk Hfz Hiss]. rewrite Hn.
  pose proof (ro_next _ _ _ _ Hok2) as Hn2.
  assert (H !! inl n = None) as Hfresh.
  { destruct (H !! inl n) eqn:E; [|done]. pose proof (fz_token _ _ Hfz _ _ E) as Hlt. simpl in Hlt. lia. }
  rewrite Hses in *. split_and!; try done.
  change (with_registry sv st) with (with_registry (with_registry sv st2) st). split.
  - apply backed_pin. eapply backed_registry; [done|apply Hbk|auto].
  - eapply (frozen_update H _ (with_registry sv st2) st id s _ n); [done|done|by simpl; rewrite Hent| | | | | | | |].
    + rewrite Hnx. eapply registry_ok_weaken; [done|]. intros m Hm. apply held_insert in Hm. set_solver.
    + intros m k [[[= <-] _]|[_ Hl]]%lookup_insert_Some; [lia|]. pose proof (fz_token _ _ Hfz _ _ Hl) as Hlt. simpl in Hlt. lia.
    + intros m Hm. rewrite lookup_insert_ne; [done|]. congruence.
    + intros j t Hw Hat. pose proof (active_below _ _ _ _ _ Hfz Hw Hat) as Hlt. simpl in Hlt. lia.
    + intros m p' [= <-]. rewrite lookup_insert_eq. intros [= <-]. split_and!; done.
    + congruence.
    + intros p'. rewrite lookup_insert_eq. by intros [= <-].
    + congruence.
  - eapply (issuing_update H _ U W (with_registry sv st2) st id s); try done; [|eauto].
    intros t. by rewrite lookup_insert_ne.
Qed.

Definition holds (H : tokens) (p : WritePublication) (g : stage) : Prop :=
  H !! inl (wp_publication_id p) = Some (TPin (pin_of (wp_session p) g)).

Lemma with_registry_id sv : with_registry sv (sv_registry sv) = sv.
Proof. by destruct sv. Qed.

Lemma sound_mark_submitted H U W sv p :
  limits_ok limits = true -> sound H U W sv -> holds H p Held -> wp_submitted p = false ->
  exists st res, mark_submitted (sv_registry sv) p (sv_now_ms sv) = Ok (st, res) /\
    match res with
    | Ok q =>
        q = mk_WritePublication (wp_session p) (wp_publication_id p) true /\
        lease_checked_next (ws_lease_epoch (wp_session p)) <> None /\
        sound (<[inl (wp_publication_id p) := TPin (pin_of (wp_session p) Marked)]> H) U W (with_registry sv st)
    | _ => sound H U W (with_registry sv st)
    end.
Proof.
  intros Hlim Hsd Hh Hsub. pose proof (fz_registry _ _ (sd_frozen _ _ _ _ Hsd)) as Hr. unfold holds in Hh.
  destruct (mark_submitted_ok limits Hlim _ _ (sv_registry sv) p (sv_now_ms sv) Hr) as (st & res & Hb & Hok).
  { intros _. apply elem_of_held. by eexists. }
  pose proof (mark_submitted_effect _ _ _ _ _ Hb Hsub) as He. exists st, res. split; [done|].
  destruct res as [q| |]; [|by rewrite He, with_registry_id..]. destruct He as (-> & Hnx & s & Hs & Hep & Ha & Hent & [Hno Hnp]).
  destruct Hok as (_ & _ & Hok). simpl in *. destruct Hsd as [Hbk Hfz Hiss].
  set (id := ws_inode_id (wp_session p)) in *. set (n := wp_publication_id p) in *.
  pose proof (fz_pinned _ _ Hfz id s n _ Hs Ha Hh) as Hpin. split_and!; [done|done|]. split.
  - apply backed_pin. eapply backed_registry; [done|apply Hbk|auto].
  - eapply (frozen_update H _ sv st id s _ n); [done|done|done| | | | | | | |].
    + rewrite <- Hnp in *. eapply registry_ok_weaken; [done|]. intros m Hm. apply held_insert in Hm as [[_ ?]|[? ?]]; [done|set_solver].
    + intros m k. rewrite Hnp. intros [[[= <-] _]|[_ Hl]]%lookup_insert_Some; eapply (fz_token _ _ Hfz); eauto.
    + intros m Hm. rewrite lookup_insert_ne; [done|]. congruence.
    + intros j t Hw Hat. by eapply pinned_once.
    + intros m p'. simpl. rewrite Ha. intros [= <-]. rewrite lookup_insert_eq. intros [= <-].
      destruct Hpin as (?&?&?&?&_). by split_and!.
    + congruence.
    + intros p'. rewrite lookup_insert_eq. by intros [= <-].
    + intros p' t. rewrite Hh. by intros [= <-].
  - eapply (issuing_update H _ U W sv st id s); try done; [|eauto]. intros t. by rewrite lookup_insert_ne.
Qed.

(** The session is thawed; its token is gone. *)
Lemma sound_thaw H U W sv st id s s' n p :
  sound H U W sv -> H !! inl n = Some (TPin p) -> writer sv id s -> ws_active_publication s = Some n ->
  (forall t, pn_stage p = Proposed t -> sv_proposals sv !! t = None) ->
  entries st = <[id := Active s']> (entries (sv_registry sv)) -> same_counters (sv_registry sv) st ->
  registry_ok limits (next_publication_id (sv_registry sv)) (held H) st ->
  ws_active_publication s' = None -> ws_lease_epoch s' = ws_lease_epoch s -> ws_expires_at_ms s <= ws_expires_at_ms s' ->
  (forall b, b ∈ issued s' -> b ∈ issued s) -> (ws_mode s = Append -> ws_mode s' = Append) ->
  sound (delete (inl n) H) U W (with_registry sv st).
Proof.
  intros [Hbk Hfz Hiss] Hn Hs Ha Hdone Hent [Hno Hnp] Hok Ha' Hep Hex Hsubset Hmode. split.
  - apply backed_forget. eapply backed_registry; [done|apply Hbk|auto].
  - eapply (frozen_update H _ sv st id s s' n); [done|done|done| | | | | | | |].
    + rewrite Hnp. eapply registry_ok_weaken; [done|apply held_delete].
    + intros m k [_ Hl]%lookup_delete_Some. rewrite Hnp. by eapply (fz_token _ _ Hfz).
    + intros m Hm. rewrite lookup_delete_ne; [done|]. congruence.
    + intros j t Hw Hat. by eapply pinned_once.
    + congruence.
    + congruence.
    + intros p'. by rewrite lookup_delete_eq.
    + intros p' t. rewrite Hn. intros [= <-] Hst. rewrite (Hdone t Hst). by intros [? ?].
  - eapply (issuing_update H _ U W sv st id s); try done; [|auto]. intros t. by rewrite lookup_delete_ne.
Qed.

(** A token whose publication was given up. *)
Lemma sound_forget_pin H n p U W sv :
  sound H U W sv -> H !! inl n = Some (TPin p) -> (forall t, pn_stage p = Proposed t -> sv_proposals sv !! t = None) ->
  sound (delete (inl n) H) U W sv.
Proof.
  intros [Hb [Hr Ht Hp Hmk Hf] [? ? Ha Ho ? ? ?]] Hn Hdone. split; [by apply backed_forget| |].
  - split; try done.
    + eapply registry_ok_weaken; [done|apply held_delete].
    + intros m k [_ ?]%lookup_delete_Some. eauto.
    + intros id s m q ? ? [_ ?]%lookup_delete_Some. eauto.
    + intros m q [_ ?]%lookup_delete_Some. eauto.
    + intros t' c id pub Hprop Hpub. destruct (Hf _ _ _ _ Hprop Hpub) as [?|(m & q & Hm & Hst & ?)]; [by left|right].
      exists m, q. split; [|done]. rewrite lookup_delete_ne; [done|]. intros [= <-]. rewrite Hn in Hm. injection Hm as <-.
      rewrite (Hdone _ Hst) in Hprop. done.
  - split; try done.
    + intros t' id e [_ ?]%lookup_delete_Some. eauto.
    + intros t' id e oid mode [_ ?]%lookup_delete_Some. eauto.
Qed.

Lemma sound_drop_publication H U W sv p :
  sound H U W sv -> holds H p Held -> wp_submitted p = false ->
  sound (delete (inl (wp_publication_id p)) H) U W (with_registry sv (drop_publication (sv_registry sv) p)).
Proof.
  intros Hsd Hh Hsub. pose proof (fz_registry _ _ (sd_frozen _ _ _ _ Hsd)) as Hr. unfold holds in Hh.
  assert (wp_submitted p = false -> wp_publication_id p ∈ held H) as Hin by (intros _; apply elem_of_held; by eexists).
  pose proof (drop_publication_ok limits _ _ (sv_registry sv) p Hr Hin) as Hok.
  destruct (drop_publication_effect (sv_registry sv) p Hsub) as [->|(s & Hs & Hep & Ha & He)].
  - rewrite with_registry_id. by eapply sound_forget_pin.
  - eapply sound_thaw; [done|done|exact Hs|done|done|by rewrite He|by rewrite He|done|done|done|done|done|done].
Qed.

Lemma sound_complete_sync H U W sv p g generation size :
  sound H U W sv -> holds H p g -> (wp_submitted p = false <-> g = Held) ->
  (forall t, g = Proposed t -> sv_proposals sv !! t = None) ->
  exists st res, publication_complete_sync (sv_registry sv) p generation size (sv_now_ms sv) = Ok (st, res) /\ res <> Panic /\
    sound (delete (inl (wp_publication_id p)) H) U W (with_registry sv st).
Proof.
  intros Hsd Hh Hg Hdone. pose proof (fz_registry _ _ (sd_frozen _ _ _ _ Hsd)) as Hr. unfold publication_complete_sync.
  destruct (complete_sync_ok limits _ _ (sv_registry sv) (ws_inode_id (wp_session p)) (ws_lease_epoch (wp_session p))
    (wp_publication_id p) generation size (sv_now_ms sv) Hr) as (st & res & Hc & Hok). rewrite Hc, Ok_bind.
  pose proof (complete_sync_effect limits _ _ _ _ _ _ _ _ _ Hr Hc) as He. eexists _, _. split; [done|].
  assert (res <> Panic) as Hnp.
  { intros ->. unfold complete_sync_publication in Hc. unbind Hc as st2 H2.
    destruct (owned_publication _ _ _ _) as [s|?|] eqn:Ho; [|done|by apply np_owned_publication in Ho].
    case_bool_decide; [case_bool_decide; [done|]; unbind Hc as st3 H3; done|]. destruct (generation_checked_next _); [|done].
    case_bool_decide; [done|]. unbind Hc as n Hn. unbind Hc as st3 H3. by unbind Hc as u Hu. }
  split; [done|]. destruct res as [x|e|]; [simpl|simpl|done].
  - destruct He as (st2 & s & s' & Hcalm & Hok2 & Hs & Hep & Ha & Hent & Hcs & (Hid & Hep' & Hm & Ha' & Hsub & Hex & k & Ht)).
    apply sound_calm with (st := st2) in Hsd; [|done..].
    change (with_registry sv st) with (with_registry (with_registry sv st2) st).
    eapply (sound_thaw _ _ _ (with_registry sv st2) st _ s s'); try done; simpl.
    + by rewrite (ro_next _ _ _ _ Hok2).
    + lia.
    + intros b. unfold issued. rewrite Ht. intros (l & -> & Hl)%list_elem_of_fmap. apply list_elem_of_fmap. exists l. split; [done|].
      by eapply subseteq_take.
  - apply sound_calm with (st := st) in Hsd; [|done..]. change (with_registry sv (drop_publication st p)) with
      (with_registry (with_registry sv st) (drop_publication (sv_registry (with_registry sv st)) p)).
    destruct (wp_submitted p) eqn:Hsub.
    + unfold drop_publication. rewrite Hsub. simpl. by eapply sound_forget_pin.
    + apply sound_drop_publication; [done| |done]. by rewrite (proj1 Hg eq_refl) in Hh.
Qed.

(** ** A session ends *)

Lemma writer_delete sv st id j s :
  entries st = delete id (entries (sv_registry sv)) -> writer (with_registry sv st) j s <-> j <> id /\ writer sv j s.
Proof. unfold writer. simpl. intros ->. rewrite lookup_delete_Some. naive_solver. Qed.

(** It is fenced, or no publication of it is in flight and it does not come from a
    creation that could be answered again. *)
Lemma sound_remove H U W sv st id s :
  sound H U W sv -> writer sv id s -> entries st = delete id (entries (sv_registry sv)) -> same_counters (sv_registry sv) st ->
  registry_ok limits (next_publication_id (sv_registry sv)) (held H) st ->
  fenced (sv_store sv) id (ws_lease_epoch s) \/
    (ws_publication_submitted s = false /\ forall x, ~ creation sv id (ws_lease_epoch s) x) ->
  sound H U W (with_registry sv st).
Proof.
  intros [Hbk Hfz [Hu Ho Ha Hop Hl He Hw]] Hs Hent [Hno Hnp] Hok Hend.
  assert (forall j e, idle sv j e -> idle (with_registry sv st) j e) as Hidle.
  { intros j e Hi t Ht. apply (writer_delete _ _ _ _ _ Hent) in Ht as [_ Ht]. by apply Hi. }
  assert (forall j o, entries st !! j = Some (Opening o) -> entries (sv_registry sv) !! j = Some (Opening o)) as Hopen.
  { intros j o. rewrite Hent. by intros [_ ?]%lookup_delete_Some. }
  split; [eapply backed_registry; [done|apply Hbk|auto]| |].
  - destruct Hfz as [Hr Ht Hp Hm Hf]. split; simpl; rewrite ?Hnp; try done.
    + intros j t n p Hj. apply (writer_delete _ _ _ _ _ Hent) in Hj as [_ Hj]. by eapply Hp.
    + intros n p Hn Hst. destruct (Hm n p Hn Hst) as [?|(t & Hwt & Hat)]; [by left|]. destruct (decide (pn_id p = id)) as [E|Hne].
      * rewrite E in Hwt. assert (t = s) as -> by (unfold writer in *; congruence).
        destruct (Hp _ _ _ _ Hs Hat Hn) as (_ & Hep & _ & _ & Hsub).
        destruct Hend as [?|[Hns _]]; [left; by rewrite E, <- Hep|]. rewrite (proj2 Hsub Hst) in Hns. done.
      * right. exists t. split; [|done]. by eapply writer_delete.
  - split; simpl; rewrite ?Hno; eauto.
    + intros j t Hj. apply (writer_delete _ _ _ _ _ Hent) in Hj as [_ Hj]. by apply Hu.
    + intros t j e Ht. destruct (Ha _ _ _ Ht) as [? HB]. split; [done|]. intros b Hans Hb Hin. destruct (HB b Hans Hb Hin); auto.
    + intros t j e oid mode Ht. destruct (Hop _ _ _ _ _ Ht) as [? HB]. split; [done|]. eauto.
    + intros j e x t Hc Hj. apply (writer_delete _ _ _ _ _ Hent) in Hj as [_ Hj]. by eapply Hl.
    + intros j e x Hc HU Hi. destruct (decide (j = id /\ e = ws_lease_epoch s)) as [[-> ->]|Hne].
      * destruct Hend as [?|[_ Hno']]; [by left|]. by destruct (Hno' x).
      * apply (He j e x Hc HU). intros t Ht <-. destruct (decide (j = id)) as [->|Hj].
        -- assert (t = s) as -> by (unfold writer in *; congruence). by apply Hne.
        -- by apply (Hi t); [eapply writer_delete|].
    + intros b t Hb Hj. apply (writer_delete _ _ _ _ _ Hent) in Hj as [_ Hj]. by apply Hw.
Qed.

Lemma sound_complete_commit H U W sv p :
  limits_ok limits = true -> sound H U W sv ->
  fenced (sv_store sv) (ws_inode_id (wp_session p)) (ws_lease_epoch (wp_session p)) ->
  exists st, publication_complete_commit (sv_registry sv) p = Ok st /\ sound H U W (with_registry sv st).
Proof.
  intros Hlim Hsd Hfen. pose proof (fz_registry _ _ (sd_frozen _ _ _ _ Hsd)) as Hr.
  destruct (complete_commit_ok limits _ _ (sv_registry sv) (ws_inode_id (wp_session p)) (ws_lease_epoch (wp_session p))
    (wp_publication_id p) Hr) as (st & Hc & Hok). exists st. split; [done|].
  destruct (complete_commit_effect limits _ _ _ _ _ Hr Hc) as [->|(s & Hs & Hep & _ & Hent & Hcs)].
  - by rewrite with_registry_id.
  - eapply sound_remove; try done. left. by rewrite Hep.
Qed.

Lemma sound_remove_session H U W sv id e :
  limits_ok limits = true -> sound H U W sv ->
  fenced (sv_store sv) id e \/
    (forall s, writer sv id s -> ws_lease_epoch s = e -> ws_publication_submitted s = false /\ forall x, ~ creation sv id e x) ->
  exists st res, remove_session_if_epoch (sv_registry sv) id e = Ok (st, res) /\ sound H U W (with_registry sv st).
Proof.
  intros Hlim Hsd Hend. pose proof (fz_registry _ _ (sd_frozen _ _ _ _ Hsd)) as Hr.
  destruct (remove_session_ok limits _ _ (sv_registry sv) id e Hr) as (st & res & Hc & Hok). exists st, res. split; [done|].
  destruct (remove_session_effect limits _ _ _ _ _ _ _ Hr Hc) as [->|(s & Hs & Hep & Hent & Hcs)].
  - by rewrite with_registry_id.
  - eapply sound_remove; try done. rewrite Hep. destruct Hend as [?|Hend]; [by left|right]. by eapply Hend.
Qed.

(** ** A session begins *)

Lemma sound_activate H U W sv st id s :
  sound H U W sv -> (forall t, ~ writer sv id t) -> entries st = <[id := Active s]> (entries (sv_registry sv)) ->
  same_counters (sv_registry sv) st -> registry_ok limits (next_publication_id (sv_registry sv)) (held H) st ->
  ws_active_publication s = None -> reached (sv_store sv) id (ws_lease_epoch s) ->
  ((id, ws_lease_epoch s) ∈ U -> fenced (sv_store sv) id (ws_lease_epoch s)) ->
  (forall x, creation sv id (ws_lease_epoch s) x -> x <= ws_expires_at_ms s) ->
  (forall b, b ∈ W -> block_inode_id b = id -> b ∈ issued s -> visible (sv_store sv) b /\ ws_mode s = Append) ->
  sound H ({[(id, ws_lease_epoch s)]} ∪ U) W (with_registry sv st).
Proof.
  intros [Hbk [Hr Ht Hp Hm Hf] [Hu Ho Ha Hop Hl He Hw]] Hnone Hent [Hno Hnp] Hok Hact Hre HU Hx Hb.
  assert (forall j t, writer sv j t -> j <> id /\ writer (with_registry sv st) j t) as Hkeep.
  { intros j t Hj. assert (j <> id) by (intros ->; by eapply Hnone). split; [done|]. by eapply writer_kept. }
  assert (forall j o, entries st !! j = Some (Opening o) -> j <> id /\ entries (sv_registry sv) !! j = Some (Opening o)) as Hopen.
  { intros j o. rewrite Hent. intros [[_ ?]|[? ?]]%lookup_insert_Some; done. }
  split.
  - eapply backed_registry; [done|apply Hbk|]. intros j e [[= -> ->]%elem_of_singleton|?]%elem_of_union; auto.
  - split; simpl; rewrite ?Hnp; try done.
    + intros j t n p Hj Hat. destruct (writer_insert _ _ _ _ _ _ Hent Hj) as [[-> ->]|[_ ?]]; [congruence|by eapply Hp].
    + intros n p Hn Hst. destruct (Hm n p Hn Hst) as [?|(t & Hj & ?)]; [by left|right]. exists t. split; [|done]. by apply Hkeep.
  - split; simpl; rewrite ?Hno.
    + intros j t Hj. destruct (writer_insert _ _ _ _ _ _ Hent Hj) as [[-> ->]|[_ Hj0]]; [set_solver|]. apply elem_of_union_r. by apply Hu.
    + intros j o [_ Hj]%Hopen. eauto.
    + intros t j e Htok. destruct (Ha _ _ _ Htok) as [HUj HB]. split; [set_solver|]. intros b Hans Hbj Hin.
      destruct (HB b Hans Hbj Hin) as [Hi|?]; [|by right]. destruct (decide ((j, e) = (id, ws_lease_epoch s))) as [[= -> ->]|Hne]; [right; auto|].
      left. intros t' Hj <-. destruct (writer_insert _ _ _ _ _ _ Hent Hj) as [[-> ->]|[_ Hj0]]; [done|]. by eapply Hi.
    + intros t j e oid mode Htok. destruct (Hop _ _ _ _ _ Htok) as [? HB]. split; [done|]. intros o [Hne Hj]%Hopen Hoid.
      destruct (HB o Hj Hoid). split; [|done]. set_solver.
    + intros j e x t Hc Hj Heq. destruct (writer_insert _ _ _ _ _ _ Hent Hj) as [[-> ->]|[_ Hj0]]; [subst e; by apply Hx|by eapply Hl].
    + intros j e x Hc HUj Hi. apply (He j e x Hc).
      * apply elem_of_union in HUj as [[= -> ->]%elem_of_singleton|?]; [|done]. destruct (Hi s); [by eapply writer_inserted|done].
      * intros t Hj. apply Hi. by apply Hkeep.
    + intros b t Hin Hj Hiss. destruct (writer_insert _ _ _ _ _ _ Hent Hj) as [[Hid ->]|[_ Hj0]]; [right|by apply Hw]. by apply Hb.
Qed.

Lemma sound_write_activate H U W sv w t oid mode file tail :
  limits_ok limits = true -> sound H U W sv ->
  H !! inr t = Some (TOpen (wo_inode_id w) (fd_lease_epoch file) oid mode) -> wo_opening_id w = oid ->
  answered sv t (WriteLeaseAcquired (wo_inode_id w) (fd_lease_epoch file)) ->
  lookup_file (sv_store sv) (wo_inode_id w) = Some file ->
  (forall b, tail = Some b -> mode = Append /\ lb_block_id b ∈ fd_blocks file) ->
  exists st res, write_opening_activate limits (sv_registry sv) w (fd_lease_epoch file) (sv_now_ms sv) file tail = Ok (st, res) /\
    match res with
    | Ok s =>
        ws_inode_id s = wo_inode_id w /\ ws_lease_epoch s = fd_lease_epoch file /\ ws_publication_submitted s = false /\
        writer (with_registry sv st) (wo_inode_id w) s /\ sound H ({[(wo_inode_id w, fd_lease_epoch file)]} ∪ U) W (with_registry sv st)
    | _ => sound H U W (with_registry sv st)
    end.
Proof.
  intros Hlim Hsd Htok Hoid Hans Hfile Htail. pose proof (fz_registry _ _ (sd_frozen _ _ _ _ Hsd)) as Hr.
  destruct (write_opening_activate_ok limits Hlim _ _ (sv_registry sv) w (fd_lease_epoch file) (sv_now_ms sv) file tail Hr)
    as (st & res & Hc & Hok). exists st, res. split; [done|].
  pose proof (write_opening_activate_effect limits Hlim _ _ _ _ _ _ _ _ _ _ Hr Hc) as He.
  destruct res as [s| |]; [|by apply sound_calm..]. destruct He as (o & Ho & Hid & Hent & Hcs & Hs & _ & _ & _).
  pose proof (ri_entries _ (ro_inv _ _ _ _ Hr) _ _ Ho) as Hoi. simpl in Hoi.
  destruct (is_open _ _ _ _ (sd_issuing _ _ _ _ Hsd) _ _ _ _ _ Htok) as [_ HB]. destruct (HB o Ho) as [Hnot Hmode]; [congruence|].
  subst s. simpl. split_and!; try done; [by eapply writer_inserted|].
  match type of Hent with entries st = <[_ := Active ?s0]> _ =>
    change (fd_lease_epoch file) with (ws_lease_epoch s0) end.
  apply sound_activate; simpl; try done.
  - intros t0 Hw. unfold writer in Hw. congruence.
  - destruct (proj1 (lookup_file_Some _ _ _) Hfile) as (i & Hi & Hk). eapply reached_file; [apply Hsd|done..|lia].
  - intros x Hcr. pose proof (bk_acquired _ _ _ _ (sd_backed _ _ _ _ Hsd) _ _ _ _ _ Hcr Hans). lia.
  - intros b _ Hb. unfold issued. simpl. intros (l & -> & Hl)%list_elem_of_fmap. destruct tail as [b0|]; [|by apply elem_of_nil in Hl]. apply list_elem_of_singleton in Hl as ->.
    destruct (Htail _ eq_refl) as [-> Hin]. split; [|congruence]. exists file. by rewrite Hb.
Qed.

Lemma sound_create_activate H U W sv w t id e x layout layout' generation generation' :
  limits_ok limits = true -> sound H U W sv -> answered sv t (FileCreated id layout' e x generation') ->
  exists st res, create_opening_activate (sv_registry sv) w id e x layout generation (sv_now_ms sv) = Ok (st, res) /\
    match res with
    | Ok s => sound H ({[(id, e)]} ∪ U) W (with_registry sv st)
    | _ => sound H U W (with_registry sv st)
    end.
Proof.
  intros Hlim Hsd Hans. pose proof (fz_registry _ _ (sd_frozen _ _ _ _ Hsd)) as Hr.
  destruct (create_opening_activate_ok limits Hlim _ _ (sv_registry sv) w id e x layout generation (sv_now_ms sv) Hr)
    as (st & res & Hc & Hok). exists st, res. split; [done|].
  pose proof (create_opening_activate_effect limits Hlim _ _ _ _ _ _ _ _ _ _ _ _ Hr Hc) as He.
  destruct res as [s| |]; [|by apply sound_calm..].
  destruct He as (Hnone & Hent & Hcs & Hnow & Hid & Hep & Hiss & Ha & _ & Hex & _).
  assert (creation sv id e x) as Hcr by (left; eauto).
  assert (forall t, ~ writer sv id t) as Hno by (intros t0 Hw; unfold writer in Hw; congruence).
  rewrite <- Hep. apply sound_activate; try done; rewrite ?Hep.
  - by eapply (bk_created _ _ _ _ (sd_backed _ _ _ _ Hsd)).
  - intros HU. destruct (is_expired _ _ _ _ (sd_issuing _ _ _ _ Hsd) id e x Hcr HU) as [?|?]; [|done|lia].
    intros t0 Hw. by destruct (Hno t0).
  - intros x' Hcr'. destruct (bk_creations _ _ _ _ (sd_backed _ _ _ _ Hsd) _ _ _ _ _ Hcr Hcr') as [_ ->]. lia.
  - intros b _ _. unfold issued. rewrite Hiss. by intros ?%elem_of_nil.
Qed.

(** ** A block for a session *)

Lemma sound_complete_target H U W sv r t target :
  limits_ok limits = true -> sound H U W sv -> H !! inr t = Some (TAlloc (wr_inode_id r) (wr_lease_epoch r)) ->
  answered sv t (BlockAllocated (lb_block_id target)) ->
  exists st res, reservation_complete (sv_registry sv) r target (sv_now_ms sv) = Ok (st, res) /\ res <> Panic /\
    sound H U W (with_registry sv st).
Proof.
  intros Hlim Hsd Htok Hans. pose proof (fz_registry _ _ (sd_frozen _ _ _ _ Hsd)) as Hr. unfold reservation_complete in *.
  destruct (complete_target_ok limits _ _ (sv_registry sv) (wr_inode_id r) (wr_lease_epoch r) (wr_pending r) target (sv_now_ms sv) Hr)
    as (st & res & Hc & Hok & _). exists st, res. split; [done|].
  pose proof (complete_target_effect limits _ _ _ _ _ _ _ _ Hr Hc) as He. split.
  { intros ->. eapply complete_target_res, Hc. }
  destruct res as [x| |]; [|by apply sound_calm..].
  destruct He as (st2 & s & Hcalm & Hok2 & Hs & Hep & Ha & _ & Hbi & Hent & [Hno Hnp]).
  apply sound_calm with (st := st2) in Hsd; [|done..]. change (with_registry sv st) with (with_registry (with_registry sv st2) st).
  destruct Hsd as [Hbk Hfz Hiss]. set (id := wr_inode_id r) in *. split.
  - eapply backed_registry; [done|apply Hbk|auto].
  - eapply (frozen_update H H (with_registry sv st2) st id s _ (next_publication_id st2)); try done; simpl; try congruence.
    + rewrite Hnp, (ro_next _ _ _ _ Hok2). done.
    + intros m k Hm. rewrite Hnp. by apply (fz_token _ _ Hfz m k).
    + intros j t0 Hj Hat. pose proof (active_below _ _ _ _ _ Hfz Hj Hat) as Hlt. simpl in Hlt. lia.
    + intros p Hm. pose proof (fz_token _ _ Hfz _ _ Hm) as Hlt. simpl in Hlt. lia.
  - eapply (issuing_update H H U W (with_registry sv st2) st id s); try done. simpl.
    intros b HbW Hb. unfold issued. simpl. rewrite fmap_app, elem_of_app. intros [?|Heq]; [|apply list_elem_of_singleton in Heq as ->]; [right; split; [done|auto]|].
    left. destruct (is_alloc _ _ _ _ Hiss _ _ _ Htok) as [_ HB]. destruct (HB _ Hans Hb HbW) as [Hi|?]; [|by rewrite Hep].
    by destruct (Hi s Hs).
Qed.

(** ** Proposals *)

Definition submitted (c : Command) (sv : Server) : Server := (submit c sv).2.

Lemma fresh_ticket H U W sv :
  backed H U W sv -> H !! inr (sv_next_ticket sv) = None /\ sv_proposals sv !! sv_next_ticket sv = None /\
    sv_answers sv !! sv_next_ticket sv = None.
Proof.
  intros Hb. split_and!; apply eq_None_not_Some; intros [k Hk];
    [apply (bk_token _ _ _ _ Hb) in Hk|apply (bk_proposal _ _ _ _ Hb) in Hk|apply (bk_answer _ _ _ _ Hb) in Hk]; lia.
Qed.

Lemma backed_submit H U W sv c : backed H U W sv -> backed H U W (submitted c sv).
Proof.
  intros Hb. destruct (fresh_ticket _ _ _ _ Hb) as (_ & _ & Hna). destruct Hb as [? ? Ht Hp Ha Han ? ? ? ? ? ? ? ?].
  split; simpl; try done.
  - intros t k Hk. apply Ht in Hk. lia.
  - intros t c' [[<- _]|[_ Hl]]%lookup_insert_Some; [lia|]. apply Hp in Hl. lia.
  - intros t a Hl. apply Ha in Hl. lia.
  - intros t r Hl. destruct (Han t r Hl) as [? ?]. split; [|done]. rewrite lookup_insert_ne; [done|]. intros <-. congruence.
Qed.

Lemma sound_submit H U W sv c : sound H U W sv -> publication_of c = None -> sound H U W (submitted c sv).
Proof.
  intros [Hb [Hr Ht Hp Hm Hf] []] Hc. split; [by apply backed_submit| |by split].
  split; try done. simpl. intros t c' id pub [[_ <-]|[_ Hl]]%lookup_insert_Some Hpub; [congruence|]. by eapply Hf.
Qed.

Lemma sound_submit_publication H U W sv n p c id pub :
  sound H U W sv -> H !! inl n = Some (TPin p) -> pn_stage p = Marked -> publication_of c = Some (id, pub) ->
  pn_id p = id -> carries p pub ->
  sound (<[inl n := TPin (mk_pin (pn_id p) (pn_epoch p) (pn_targets p) (pn_mode p) (Proposed (sv_next_ticket sv)))]> H) U W
    (submitted c sv).
Proof.
  intros [Hb [Hr Ht Hp Hm Hf] [? ? Ha Ho ? ? ?]] Hn Hst Hc Hid Hcar. split; [by apply backed_pin, backed_submit| |].
  - split; simpl.
    + eapply registry_ok_weaken; [done|]. intros m Hin. by apply held_insert in Hin as [[_ ?]|[_ ?]].
    + intros m k [[[= <-] _]|[_ Hl]]%lookup_insert_Some; eauto.
    + intros j s m q Hj Hact [[[= <-] [= <-]]|[_ Hl]]%lookup_insert_Some; [|by eapply Hp].
      destruct (Hp _ _ _ _ Hj Hact Hn) as (?&?&?&?&Hsub). split_and!; try done. rewrite Hsub, Hst. done.
    + intros m q [[[= <-] [= <-]]|[_ Hl]]%lookup_insert_Some Hq; [|by eapply Hm]. eapply (Hm n p Hn). by rewrite Hst.
    + intros t c' j pub' [[<- <-]|[Hne Hl]]%lookup_insert_Some Hpub.
      * rewrite Hc in Hpub. injection Hpub as <- <-. right. eexists n, _. rewrite lookup_insert_eq. split_and!; done.
      * destruct (Hf _ _ _ _ Hl Hpub) as [?|(m & q & Hm' & Hq & ?)]; [by left|right]. exists m, q. split; [|done].
        rewrite lookup_insert_ne; [done|]. intros [= <-]. congruence.
  - split; try done; simpl.
    + intros t j e [[? _]|[_ Hl]]%lookup_insert_Some; [done|]. by eapply Ha.
    + intros t j e oid mode [[? _]|[_ Hl]]%lookup_insert_Some; [done|]. by eapply Ho.
Qed.

Lemma frozen_ticket H sv t k : frozen H sv -> frozen (<[inr t := k]> H) sv.
Proof.
  intros [Hr Ht Hp Hm Hf]. split.
  - eapply registry_ok_weaken; [done|apply held_ticket].
  - intros n k' [[? _]|[_ ?]]%lookup_insert_Some; [done|eauto].
  - intros id s n p ? ? [[? _]|[_ ?]]%lookup_insert_Some; [done|eauto].
  - intros n p [[? _]|[_ ?]]%lookup_insert_Some; [done|eauto].
  - intros t' c id pub Hprop Hpub. destruct (Hf _ _ _ _ Hprop Hpub) as [?|(n & p & Hn & ?)]; [by left|right].
    exists n, p. split; [|done]. by rewrite lookup_insert_ne.
Qed.

Lemma backed_ticket H U W sv t k : backed H U W sv -> (t < sv_next_ticket sv)%nat -> backed (<[inr t := k]> H) U W sv.
Proof. intros [] Hlt. split; try done. intros t' k' [[[= <-] _]|[_ Hl]]%lookup_insert_Some; [done|eauto]. Qed.

Lemma sound_wait_alloc H U W sv t id e :
  sound H U W sv -> (t < sv_next_ticket sv)%nat -> sv_answers sv !! t = None -> (id, e) ∈ U -> sound (<[inr t := TAlloc id e]> H) U W sv.
Proof.
  intros [Hb Hf [? ? Ha Ho ? ? ?]] Hlt Hna HU. split; [by apply backed_ticket|by apply frozen_ticket|]. split; try done.
  - intros t' j e' [[[= <-] [= <- <-]]|[_ Hl]]%lookup_insert_Some; [|by eapply Ha]. split; [done|]. intros b Hans. unfold answered in Hans. congruence.
  - intros t' j e' oid mode [[_ ?]|[_ Hl]]%lookup_insert_Some; [done|]. by eapply Ho.
Qed.

Lemma sound_wait_open H U W sv t id e oid mode :
  sound H U W sv -> (t < sv_next_ticket sv)%nat -> oid < next_opening_id (sv_registry sv) ->
  (forall o, entries (sv_registry sv) !! id = Some (Opening o) -> os_opening_id o = oid -> (id, e) ∉ U /\ os_mode o = mode) ->
  sound (<[inr t := TOpen id e oid mode]> H) U W sv.
Proof.
  intros [Hb Hf [? ? Ha Ho ? ? ?]] Hlt Hoid HU. split; [by apply backed_ticket|by apply frozen_ticket|]. split; try done.
  - intros t' j e' [[_ ?]|[_ Hl]]%lookup_insert_Some; [done|]. by eapply Ha.
  - intros t' j e' oid' mode' [[[= <-] [= <- <- <- <-]]|[_ Hl]]%lookup_insert_Some; [done|]. by eapply Ho.
Qed.
End invariant.
