(* ===== verification/WritersEnv.v ===== *)
(** * Writers: what happens around a request

    The invariant of Writers.v while the state machine applies commands, answers
    arrive or get lost, the clock moves and the background tasks run. *)

From S2P Require Import Prelude Types Errors Inode Mount Store Namespace Tree NamespaceInv.
From S2P Require Import WriteApply Reclaim Apply NoPanic Reach Fencing Session SessionInv SessionProps SessionSystem SessionFrame.
From S2P Require Import PathResolver Placement Workers Maintenance Server Service ServicePublish Writers.
Local Open Scope Z_scope.

Section environment.
Context (limits : SessionLimits).
Implicit Types (H : tokens) (U : gset (InodeId * LeaseEpoch)) (W : gset BlockId) (sv : Server).
Notation sound := (sound limits).
Notation frozen := (frozen limits).

Lemma assigned_le s s' b : assigned s b -> store_le s s' -> assigned s' b.
Proof.
  intros [Ha Hx] Hle. destruct (Hle _ Ha) as [Ha' Hf]. split; [done|]. intros f' Hf'.
  destruct (Hf f' Hf') as (f & Hl & (_ & _ & Hix & _)). specialize (Hx f Hl). lia.
Qed.

(** An unfenced publication finds the session that it was checked against. *)
Lemma flight_session H sv id pub f :
  frozen H sv -> lookup_file (sv_store sv) id = Some f -> fd_lease_epoch f = fp_lease_epoch pub ->
  (fenced (sv_store sv) id (fp_lease_epoch pub) \/
   exists t n p, H !! inl n = Some (TPin p) /\ pn_stage p = Proposed t /\ pn_id p = id /\ carries p pub) ->
  exists s, writer sv id s /\ ws_lease_epoch s = fp_lease_epoch pub /\
    (forall b, b ∈ fp_blocks pub -> cb_block_id b ∈ issued s) /\ publish_mode_for_session s = fp_mode pub.
Proof.
  intros Hfz Hf He [[_ Hfen]|(t & n & p & Hn & Hst & Hid & Hep & Hb & Hmode)]; [specialize (Hfen f Hf); lia|].
  destruct (fz_marked _ _ _ Hfz n p Hn) as [[_ Hfen]|(s & Hs & Ha)]; [by rewrite Hst| |].
  - rewrite Hid in Hfen. specialize (Hfen f Hf). lia.
  - destruct (fz_pinned _ _ _ Hfz _ _ _ _ Hs Ha Hn) as (_ & E1 & E2 & E3 & _). exists s. rewrite <- Hid.
    unfold issued, publish_mode_for_session. rewrite E1, E2, E3, Hmode. done.
Qed.

(** Tickets in flight back the publications of a command that is being applied. *)
Definition in_flight H sv (pub : option (InodeId * FilePublication)) : Prop :=
  forall id p, pub = Some (id, p) -> fenced (sv_store sv) id (fp_lease_epoch p) \/
    exists t n q, H !! inl n = Some (TPin q) /\ pn_stage q = Proposed t /\ pn_id q = id /\ carries q p.

Lemma flight_in_flight H sv t c : frozen H sv -> sv_proposals sv !! t = Some c -> in_flight H sv (publication_of c).
Proof. intros Hf Hp id p Hpub. destruct (fz_flight _ _ _ Hf _ _ _ _ Hp Hpub) as [?|(n & q & ?)]; [by left|right; eauto]. Qed.

(** A watched block that a live session was given stays as visible as it was. *)
Lemma visible_evolves H U W sv s' pub b s :
  sound H U W sv -> evolves (sv_store sv) s' pub -> in_flight H sv pub -> b ∈ W ->
  writer sv (block_inode_id b) s -> visible (sv_store sv) b -> ws_mode s = Append ->
  fenced s' (block_inode_id b) (ws_lease_epoch s) \/ visible s' b.
Proof.
  intros Hsd [Hinv Hle _ Hcont] Hfl Hb Hs (f & Hf & Hin) Hm.
  destruct (bk_watched _ _ _ _ (sd_backed _ _ _ _ _ Hsd) b Hb) as [Ha _].
  destruct (lookup_file s' (block_inode_id b)) as [f'|] eqn:Hf'.
  2:{ left. split; [by apply Hle|]. by rewrite Hf'. }
  right. exists f'. split; [done|]. destruct (Hcont _ _ Ha Hf') as (f0 & Hf0 & Hc). rewrite Hf in Hf0. injection Hf0 as <-.
  destruct Hc as [->|(p & -> & He & _ & Hkeep)]; [done|]. apply Hkeep; [|done].
  destruct (flight_session H sv _ p f (sd_frozen _ _ _ _ _ Hsd) Hf He (Hfl _ _ eq_refl)) as (s1 & Hs1 & _ & _ & Hmode).
  assert (s1 = s) as -> by (unfold writer in *; congruence). unfold publish_mode_for_session in Hmode. by rewrite Hm in Hmode.
Qed.

(** A watched block that is not visible does not become so. *)
Lemma invisible_evolves H U W sv s' pub b :
  sound H U W sv -> evolves (sv_store sv) s' pub -> in_flight H sv pub -> b ∈ W -> ~ visible (sv_store sv) b -> ~ visible s' b.
Proof.
  intros Hsd [Hinv Hle _ Hcont] Hfl Hb Hnv (f' & Hf' & Hin).
  destruct (bk_watched _ _ _ _ (sd_backed _ _ _ _ _ Hsd) b Hb) as [Ha _].
  destruct (Hcont _ _ Ha Hf') as (f & Hf & [E|(p & -> & He & Hsub & _)]).
  { apply Hnv. exists f. split; [done|]. by rewrite <- E. }
  destruct (Hsub b Hin) as [?|(cb & Hcb & Hid)]; [apply Hnv; by exists f|].
  destruct (flight_session H sv _ p f (sd_frozen _ _ _ _ _ Hsd) Hf He (Hfl _ _ eq_refl)) as (s & Hs & Hep & Hiss & _).
  specialize (Hiss cb Hcb). rewrite Hid in Hiss.
  destruct (is_watched _ _ _ _ (sd_issuing _ _ _ _ _ Hsd) b s Hb Hs Hiss) as [[_ Hfen]|[? _]]; [|done].
  specialize (Hfen f Hf). lia.
Qed.

Lemma creation_evolves sv s' pub id e x :
  evolves (sv_store sv) s' pub -> creation (with_store sv s') id e x ->
  creation sv id e x \/ (~ allocated (sv_store sv) id /\ reached s' id e /\
    exists op r, s_replays s' !! op = Some r /\ rr_inode_id r = id /\ rr_lease_epoch r = e /\ rr_expires_at_ms r = x).
Proof.
  intros Hev [?|(op & r & Hop & <- & <- & <-)]; [left; by left|]. destruct (ev_records _ _ _ Hev _ _ Hop) as [?|[? ?]].
  - left. right. eauto 10.
  - right. eauto 10.
Qed.

Lemma record_unique s op op' r r' :
  store_inv s -> s_replays s !! op = Some r -> s_replays s !! op' = Some r' -> rr_inode_id r = rr_inode_id r' -> r = r'.
Proof.
  intros [_ Hrp] H1 H2 E. destruct (rp_record _ Hrp _ _ H1) as (_ & I1 & _). destruct (rp_record _ Hrp _ _ H2) as (_ & I2 & _).
  rewrite E in I1. congruence.
Qed.

(** ** The store moves on *)

Lemma backed_evolves H U W sv s' pub :
  backed H U W sv -> evolves (sv_store sv) s' pub -> backed H U W (with_store sv s').
Proof.
  intros [Hs ? ? ? ? ? Hen Hco Hle Hus Hcr Huq Hac Hwa] Hev. pose proof (ev_le _ _ _ Hev) as Hsl.
  assert (forall id e, reached (sv_store sv) id e -> reached s' id e) as Hre by (intros; by eapply reached_le).
  assert (forall id e, reached (sv_store sv) id e -> allocated (sv_store sv) id) as Hal by (by intros ? ? [? _]).
  split; simpl; try done; eauto.
  - by apply Hev.
  - intros id e x [Hc|(_ & ? & _)]%(creation_evolves _ _ _ _ _ _ Hev); eauto.
  - intros id e x e' x' [Hc|(Hn & _ & op & r & Hop & Ei & Ee & Ex)]%(creation_evolves _ _ _ _ _ _ Hev)
      [Hc'|(Hn' & _ & op' & r' & Hop' & Ei' & Ee' & Ex')]%(creation_evolves _ _ _ _ _ _ Hev).
    + eauto.
    + destruct Hn'. eauto.
    + destruct Hn. eauto.
    + assert (r = r') as -> by (eapply (record_unique s'); [apply Hev|done..|congruence]). split; congruence.
  - intros id e x t e' [Hc|(Hn & _)]%(creation_evolves _ _ _ _ _ _ Hev) Hans; [by eapply Hac|]. destruct Hn. eauto.
  - intros b Hb. eapply assigned_le; eauto.
Qed.

Lemma frozen_evolves H sv s' pub : frozen H sv -> evolves (sv_store sv) s' pub -> frozen H (with_store sv s').
Proof.
  intros [? ? ? Hm Hf] Hev. pose proof (ev_le _ _ _ Hev) as Hsl. split; try done; simpl.
  - intros n p Hn Hst. destruct (Hm n p Hn Hst) as [?|?]; [left; by eapply fenced_le|by right].
  - intros t c id p Hp Hpub. destruct (Hf t c id p Hp Hpub) as [?|?]; [left; by eapply fenced_le|by right].
Qed.

Lemma issuing_evolves H U W sv s' pub :
  sound H U W sv -> evolves (sv_store sv) s' pub -> in_flight H sv pub -> issuing H U W (with_store sv s').
Proof.
  intros Hsd Hev Hfl. pose proof (ev_le _ _ _ Hev) as Hsl. destruct (sd_issuing _ _ _ _ _ Hsd) as [Hu Ho Ha Hop Hl He Hw].
  pose proof (bk_used _ _ _ _ (sd_backed _ _ _ _ _ Hsd)) as Hus. split; simpl; try done.
  - intros t id e Ht. destruct (Ha t id e Ht) as [? HB]. split; [done|]. intros b Hans Hb Hin.
    destruct (HB b Hans Hb Hin) as [?|?]; [by left|right; by eapply fenced_le].
  - intros id e x s [Hc|(Hn & _)]%(creation_evolves _ _ _ _ _ _ Hev) Hs Hep; [by eapply Hl|].
    destruct Hn. by destruct (Hus _ _ (Hu _ _ Hs)).
  - intros id e x [Hc|(Hn & _)]%(creation_evolves _ _ _ _ _ _ Hev) HU Hi; [|destruct Hn; by destruct (Hus _ _ HU)].
    destruct (He id e x Hc HU Hi) as [?|?]; [left; by eapply fenced_le|by right].
  - intros b s Hb Hs Hin. destruct (Hw b s Hb Hs Hin) as [?|[? ?]]; [left; by eapply fenced_le|].
    destruct (visible_evolves _ _ _ _ _ _ _ _ Hsd Hev Hfl Hb Hs) as [?|?]; auto.
Qed.

Lemma sound_evolves H U W sv s' pub :
  sound H U W sv -> evolves (sv_store sv) s' pub -> in_flight H sv pub -> sound H U W (with_store sv s').
Proof.
  intros Hsd Hev Hfl. split; [eapply backed_evolves; [apply Hsd|done]|eapply frozen_evolves; [apply Hsd|done]|by eapply issuing_evolves].
Qed.

(** ** Answers *)

(** The answer to a proposal that leaves the log, unless the caller was told something
    already. *)
Definition deliver (t : nat) (a : ClientWrite) (sv : Server) : Server :=
  with_proposals sv (delete t (sv_proposals sv)) match sv_answers sv !! t with Some _ => sv_answers sv | None => <[t := a]> (sv_answers sv) end
    (sv_next_ticket sv).

Lemma answered_deliver t a sv t' r :
  answered (deliver t a sv) t' r -> answered sv t' r \/ (t' = t /\ a = CW_Committed (Ok r)).
Proof.
  unfold answered, deliver. simpl. destruct (sv_answers sv !! t); [by left|].
  intros [[<- <-]|[_ ?]]%lookup_insert_Some; [by right|by left].
Qed.

Lemma frozen_forget H sv t answers n :
  frozen H sv -> frozen H (with_proposals sv (delete t (sv_proposals sv)) answers n).
Proof. intros [? ? ? ? Hf]. split; try done. simpl. intros t' c id pub [_ ?]%lookup_delete_Some. by eapply Hf. Qed.

Lemma creation_deliver t a sv id e x :
  (forall id layout e x g, a = CW_Committed (Ok (FileCreated id layout e x g)) -> exists op rec,
     s_replays (sv_store sv) !! op = Some rec /\ rr_inode_id rec = id /\ rr_lease_epoch rec = e /\ rr_expires_at_ms rec = x) ->
  creation (deliver t a sv) id e x -> creation sv id e x.
Proof.
  intros Hrec [(t' & layout & g & [?|[-> ->]]%answered_deliver)|?].
  - left. eauto.
  - right. by eapply Hrec.
  - by right.
Qed.

(** What an answer must show to be delivered. *)
Definition sound_answer U W sv (a : ClientWrite) : Prop :=
  match a with
  | CW_Committed (Ok r) =>
      match r with
      | WriteLeaseEnded id e | FileCommitted id _ e => reached (sv_store sv) id e
      | WriteLeaseAcquired id e => reached (sv_store sv) id e /\ forall e' x, creation sv id e' x -> e' < e
      | BlockAllocated b => b ∉ W
      | FileCreated id _ e x _ => exists op rec,
          s_replays (sv_store sv) !! op = Some rec /\ rr_inode_id rec = id /\ rr_lease_epoch rec = e /\ rr_expires_at_ms rec = x
      | _ => True
      end
  | CW_Committed r => r <> Panic
  | _ => True
  end.

Lemma sound_deliver H U W sv t a :
  sound H U W sv -> (t < sv_next_ticket sv)%nat -> sound_answer U W sv a -> sound H U W (deliver t a sv).
Proof.
  intros [[Hs Hn Ht Hp Han Had Hen Hco Hle Hus Hcr Huq Hac Hwa] Hfz [Hu Ho Ha Hop Hl He Hw]] Hlt Hok.
  assert (forall id e x, creation (deliver t a sv) id e x -> creation sv id e x) as Hcre.
  { intros id e x. apply creation_deliver. intros ? ? ? ? ? ->. apply Hok. }
  split; [|by apply frozen_forget|].
  - split; simpl; try done; eauto.
    + intros t' c [_ ?]%lookup_delete_Some. eauto.
    + intros t' a'. destruct (sv_answers sv !! t); [eauto|]. intros [[<- _]|[_ ?]]%lookup_insert_Some; eauto.
    + intros t' r Hr. assert ((sv_answers sv !! t' = Some (CW_Committed r)) \/ (t' = t /\ a = CW_Committed r)) as [Hr'|[-> ->]].
      { destruct (sv_answers sv !! t); [by left|]. apply lookup_insert_Some in Hr as [[<- <-]|[_ ?]]; [by right|by left]. }
      * destruct (Had t' r Hr') as [E ?]. split; [|done]. rewrite lookup_delete. by case_decide.
      * split; [apply lookup_delete_eq|]. by destruct r.
    + intros t' id e [?|[_ ->]]%answered_deliver; [eauto|done].
    + intros t' id g e [?|[_ ->]]%answered_deliver; [eauto|done].
    + intros t' id e [?|[_ ->]]%answered_deliver; [eauto|apply Hok].
    + intros id e x t' e' Hc [?|[_ ->]]%answered_deliver; [eauto|by eapply Hok, Hcre].
  - split; simpl; try done.
    + intros t' id e Htok. destruct (Ha t' id e Htok) as [? HB]. split; [done|]. intros b [?|[_ ->]]%answered_deliver Hb Hin; [by apply (HB b)|done].
    + intros id e x s Hc. eauto.
    + intros id e x Hc. eauto.
Qed.

(** The proposal is answered without having been applied, and stays in the log, or
    it leaves the log without an answer. *)
Definition refuse (t : nat) (a : ClientWrite) (sv : Server) : Server :=
  with_proposals sv (sv_proposals sv) match sv_answers sv !! t with Some _ => sv_answers sv | None => <[t := a]> (sv_answers sv) end
    (sv_next_ticket sv).
Definition lose (t : nat) (sv : Server) : Server :=
  with_proposals sv (delete t (sv_proposals sv)) (sv_answers sv) (sv_next_ticket sv).

Lemma sound_refuse H U W sv t a :
  sound H U W sv -> (t < sv_next_ticket sv)%nat -> (forall r, a <> CW_Committed r) -> sound H U W (refuse t a sv).
Proof.
  intros [[Hs Hn Ht Hp Han Had Hen Hco Hle Hus Hcr Huq Hac Hwa] [] [Hu Ho Ha Hop Hl He Hw]] Hlt Hno.
  assert (forall t' r, sv_answers (refuse t a sv) !! t' = Some (CW_Committed r) -> sv_answers sv !! t' = Some (CW_Committed r)) as Hans.
  { intros t' r. unfold refuse. simpl. destruct (sv_answers sv !! t); [done|].
    intros [[_ ->]|[_ ?]]%lookup_insert_Some; [|done]. by destruct (Hno r). }
  assert (forall id e x, creation (refuse t a sv) id e x -> creation sv id e x) as Hcre.
  { intros id e x [(t' & layout & g & ?%Hans)|?]; [left; eauto|by right]. }
  split; [|by split|].
  - split; simpl; try done; eauto.
    + intros t' a'. destruct (sv_answers sv !! t); [eauto|]. intros [[<- _]|[_ ?]]%lookup_insert_Some; eauto.
    + intros t' id e ?%Hans. eauto.
    + intros t' id g e ?%Hans. eauto.
    + intros t' id e ?%Hans. eauto.
    + intros id e x t' e' Hc ?%Hans. eauto.
  - split; simpl; try done.
    + intros t' id e Htok. destruct (Ha t' id e Htok) as [? HB]. split; [done|]. intros b ?%Hans. by apply (HB b).
    + intros id e x s Hc. eauto.
    + intros id e x Hc. eauto.
Qed.

Lemma sound_lose H U W sv t : sound H U W sv -> sound H U W (lose t sv).
Proof.
  intros [[Hs Hn Ht Hp Han Had] Hfz []]. split; [|by apply frozen_forget|by split]. split; simpl; try done.
  - intros t' c [_ ?]%lookup_delete_Some. eauto.
  - intros t' r Hr. destruct (Had t' r Hr) as [E ?]. split; [|done]. rewrite lookup_delete. by case_decide.
Qed.

(** ** Commands *)

Lemma evidence_answer H U W sv s' pub r :
  sound H U W sv -> evolves (sv_store sv) s' pub -> evidence (sv_store sv) s' r -> sound_answer U W (with_store sv s') (CW_Committed (Ok r)).
Proof.
  intros Hsd Hev Hr. destruct r; simpl in *; try done.
  - destruct Hr as (Hre & f & Hf & ->). split; [done|]. intros e' x [Hc|(Hn & _)]%(creation_evolves _ _ _ _ _ _ Hev).
    + destruct (bk_created _ _ _ _ (sd_backed _ _ _ _ _ Hsd) _ _ _ Hc) as [_ Hle]. specialize (Hle f Hf). lia.
    + destruct Hn. apply lookup_file_Some in Hf as (i & Hi & _).
      destruct (store_inv_ready (sv_store sv) id i) as (n & Hn & ?); [apply Hsd|done|]. exists n. split; [apply (rd_next _ _ Hn)|done].
  - intros Hin. apply Hr. by apply (bk_watched _ _ _ _ (sd_backed _ _ _ _ _ Hsd)).
Qed.

Section committed.
Context (raft_state_len : RaftState -> Z) (marker_len : DetachedRoot -> Z).
Context (raft_state_len_nonneg : forall rs, 0 <= raft_state_len rs).
Context (marker_len_nonneg : forall d, 0 <= marker_len d).
Notation apply_committed := (apply_committed raft_state_len marker_len).

(** A proposal is committed and applied; its proposer is answered. *)
Lemma sound_commit H U W sv t c rs s' out :
  sound H U W sv -> sv_proposals sv !! t = Some c -> admissible (sv_store sv) c ->
  apply_committed (sv_store sv) c rs = Ok (s', out) ->
  sound H U W (deliver t (CW_Committed (ca_response out)) (with_store sv s')).
Proof.
  intros Hsd Hp Hadm Happ. assert (store_inv (sv_store sv)) as Hs by apply Hsd.
  pose proof (committed_evolves _ _ raft_state_len_nonneg marker_len_nonneg _ _ _ _ _ Hs Hadm Happ) as Hev.
  assert (in_flight H sv (publication_of c)) as Hfl by (eapply flight_in_flight; [apply Hsd|done]).
  apply sound_deliver.
  - by eapply sound_evolves.
  - simpl. by eapply (bk_proposal _ _ _ _ (sd_backed _ _ _ _ _ Hsd)).
  - apply apply_committed_cases in Happ as [(r & Hr & ->)|(e & j & _ & _ & _ & ->)]; [|done].
    eapply evidence_answer; [done|done|]. by eapply run_evidence.
Qed.

(** A command of a background task. *)
Lemma sound_background H U W sv c rs s' out :
  sound H U W sv -> publication_of c = None -> admissible (sv_store sv) c ->
  apply_committed (sv_store sv) c rs = Ok (s', out) -> sound H U W (with_store sv s').
Proof.
  intros Hsd Hp Hadm Happ. assert (store_inv (sv_store sv)) as Hs by apply Hsd.
  pose proof (committed_evolves _ _ raft_state_len_nonneg marker_len_nonneg _ _ _ _ _ Hs Hadm Happ) as Hev.
  eapply sound_evolves; [done|done|]. rewrite Hp. by intros ? ?.
Qed.
End committed.

(** ** Clock, components the writers do not depend on, expiry *)

(** The wall clock advances; the monotonic clock, routing, Raft role, worker
    reports and the database's health change in any way. *)
Definition surroundings (sv : Server) (now : Z) (read_error : option MetadataError) (mounts : MountTableState) (ready : bool)
    (node : RaftNode) (workers : WorkerManagerState) (instant : Z) : Server :=
  mk_Server (sv_store sv) read_error mounts ready node (sv_registry sv) workers now instant (sv_topology sv) (sv_proposals sv)
    (sv_answers sv) (sv_next_ticket sv).

Lemma sound_surroundings H U W sv now read_error mounts ready node workers instant :
  sound H U W sv -> sv_now_ms sv <= now < u64_max ->
  sound H U W (surroundings sv now read_error mounts ready node workers instant).
Proof.
  intros [[? []] [] [? ? ? ? ? He ?]] ?. split; [split; try done; simpl; lia|by split|].
  split; try done. intros id e x Hc HU Hi. simpl. destruct (He id e x Hc HU Hi); [by left|right; lia].
Qed.

Lemma sound_topology H U W sv x : sound H U W sv -> sound H U W (with_topology sv x).
Proof. intros [[] [] []]. by split. Qed.

Lemma sound_sweep H U W sv :
  sound H U W sv -> exists st n, retire_expired_batch (sv_registry sv) (sv_now_ms sv) = Ok (st, n) /\ sound H U W (with_registry sv st).
Proof.
  intros Hsd. pose proof (fz_registry _ _ _ (sd_frozen _ _ _ _ _ Hsd)) as Hr.
  destruct (retire_expired_entries_ok limits _ _ _ (sv_now_ms sv) Hr) as (st & n & He & Hret). exists st, n. split; [done|].
  apply sound_calm; [done|by eapply retired_calm|apply (rt_ok _ _ _ _ _ _ Hret)].
Qed.

(** ** The beginning, and a block to watch *)

Lemma sound_watch H U W sv b :
  sound H U W sv -> assigned (sv_store sv) b -> (forall s, ~ writer sv (block_inode_id b) s) -> sound H U ({[b]} ∪ W) sv.
Proof.
  intros [[] Hf [? ? Ha ? ? ? Hw]] Hb Hno. split; [|done|].
  - split; try done. intros b' [->%elem_of_singleton|?]%elem_of_union; eauto.
  - split; try done.
    + intros t id e Ht. destruct (Ha t id e Ht) as [? HB]. split; [done|].
      intros b' Hans Hid [->%elem_of_singleton|?]%elem_of_union; [|by apply (HB b')]. left. intros s Hs. subst id. by destruct (Hno s).
    + intros b' s [->%elem_of_singleton|?]%elem_of_union Hs; [by destruct (Hno s)|by apply Hw].
Qed.

Definition records_reached (s : Store) : Prop :=
  forall op r, s_replays s !! op = Some r -> reached s (rr_inode_id r) (rr_lease_epoch r).

Lemma sound_init sv :
  max_write_targets limits <= u64_max -> limits_ok limits = true ->
  store_inv (sv_store sv) -> records_reached (sv_store sv) -> 0 <= sv_now_ms sv < u64_max ->
  sv_registry sv = registry_default -> sv_proposals sv = ∅ -> sv_answers sv = ∅ -> sound ∅ ∅ ∅ sv.
Proof.
  intros Hmax Hlim Hs Hrec Hnow Hreg Hp Ha.
  assert (forall t a, sv_answers sv !! t <> Some a) as Hna by (intros t a; by rewrite Ha, lookup_empty).
  assert (forall id s, ~ writer sv id s) as Hno by (intros id s; unfold writer; rewrite Hreg; simpl; by rewrite lookup_empty).
  split; split; rewrite ?Hp, ?Hreg; try done; try (intros *; rewrite lookup_empty; done).
  all: try (intros * HH; unfold answered in HH; by destruct (Hna _ _ HH)).
  all: try (intros * HH; by destruct (Hno _ _ HH)).
  - intros id e x [(t & l & g & Hans)|(op & r & Hop & <- & <- & _)]; [by destruct (Hna _ _ Hans)|by eapply Hrec].
  - intros id e x e' x' [(t & l & g & Hans)|(op & r & Hop & Ei & <- & <-)]; [by destruct (Hna _ _ Hans)|].
    intros [(t & l & g & Hans)|(op' & r' & Hop' & Ei' & <- & <-)]; [by destruct (Hna _ _ Hans)|].
    by rewrite (record_unique (sv_store sv) op op' r r' Hs Hop Hop') by congruence.
  - intros id e x t e' _ Hans. by destruct (Hna _ _ Hans).
  - by apply registry_default_ok.
  - intros id e x s _ Hw. by destruct (Hno _ _ Hw).
Qed.

Lemma records_reached_step s s' pub : records_reached s -> evolves s s' pub -> records_reached s'.
Proof.
  intros Hr Hev op r Hop. destruct (ev_records _ _ _ Hev _ _ Hop) as [?|[_ ?]]; [|done].
  eapply reached_le; [by eapply Hr|apply Hev].
Qed.
End environment.
