(* ===== verification/Safety.v ===== *)
(** * Safety of programs under interference

    A program runs safely when it keeps the invariant of Writers.v at every call,
    whatever other programs do while it waits, owns the tokens it relies on, can be
    abandoned at every await that allows it, and never panics. [wp] defines this,
    with the rules for the constructs of Server.v and Service.v. *)

From S2P Require Import Prelude Types Errors Inode Mount Store Namespace.
From S2P Require Import Apply Reach Fencing Session SessionInv SessionProps SessionFrame.
From S2P Require Import PathResolver Placement Workers Maintenance Server Service ServiceWrite Writers.
Local Open Scope Z_scope.

(** A program's own tokens, those of all others, the ghosts and the state. *)
Record world := mk_world {
  w_own : tokens;
  w_others : tokens;
  w_used : gset (InodeId * LeaseEpoch);
  w_watch : gset BlockId;
  w_sv : Server
}.

Definition at_state (w : world) (sv : Server) : world := mk_world (w_own w) (w_others w) (w_used w) (w_watch w) sv.

Section wp.
Context (limits : SessionLimits).
Implicit Types (w : world).

Definition good w : Prop := w_own w ##ₘ w_others w /\ sound limits (w_own w ∪ w_others w) (w_used w) (w_watch w) (w_sv w).

(** A step of the program to a new state: others' tokens and the watched blocks
    stay. *)
Definition after w w' (sv : Server) : Prop :=
  w_others w' = w_others w /\ w_watch w' = w_watch w /\ w_sv w' = sv /\ good w'.

Fixpoint wp {A} (C : world -> Prop) (p : prog A) (Q : A -> world -> Prop) (w : world) : Prop :=
  match p with
  | Return a => Q a w
  | Crash => False
  | Step Sync run =>
      match run (w_sv w) with
      | Some (p', sv') => exists w', after w w' sv' /\ wp C p' Q w'
      | None => False
      end
  | Step (Await cancel) run =>
      forall w1, w_own w1 = w_own w -> good w1 ->
        (forall d, cancel = Some d -> C (at_state w1 (d (w_sv w1)))) /\
        match run (w_sv w1) with
        | Some (p', sv') => exists w', after w1 w' sv' /\ wp C p' Q w'
        | None => True
        end
  end.

(** Abandoning is safe when some tokens still make sense of the state. *)
Definition abandoned w : Prop := exists w', after w w' (w_sv w).

Lemma wp_mono {A} (p : prog A) (C C' : world -> Prop) (Q Q' : A -> world -> Prop) w :
  wp C p Q w -> good w -> (forall w, C w -> C' w) -> (forall a w, good w -> Q a w -> Q' a w) -> wp C' p Q' w.
Proof.
  intros Hp Hw HC HQ. revert w Hp Hw. induction p as [a| |k run IH] using @prog_ind'; intros w Hp Hw; [by apply HQ|done|].
  destruct k as [|cancel]; simpl in *.
  - destruct (run (w_sv w)) as [[p' sv']|] eqn:E; [|done]. destruct Hp as (w' & Ha & Hp). exists w'. split; [done|].
    eapply IH; [done..|]. apply Ha.
  - intros w1 Ho Hg. destruct (Hp w1 Ho Hg) as [Hc Hr]. split; [eauto|].
    destruct (run (w_sv w1)) as [[p' sv']|] eqn:E; [|done]. destruct Hr as (w' & Ha & Hp'). exists w'. split; [done|].
    eapply IH; [done..|]. apply Ha.
Qed.

Lemma wp_bind {A B} (p : prog A) (f : A -> prog B) C Q w :
  good w -> wp C p (fun a w => good w -> wp C (f a) Q w) w -> wp C (mbind (M := prog) f p) Q w.
Proof.
  intros Hg Hp. revert w Hg Hp. induction p as [a| |k run IH] using @prog_ind'; intros w Hg Hp; [by apply Hp|done|].
  destruct k as [|cancel]; simpl in *.
  - destruct (run (w_sv w)) as [[p' sv']|] eqn:E; [|done]. destruct Hp as (w' & Ha & Hp). exists w'. split; [done|].
    eapply IH; [done| |done]. apply Ha.
  - intros w1 Ho Hg1. destruct (Hp w1 Ho Hg1) as [Hc Hr]. split; [done|].
    destruct (run (w_sv w1)) as [[p' sv']|] eqn:E; [|done]. destruct Hr as (w' & Ha & Hp'). exists w'. split; [done|].
    eapply IH; [done| |done]. apply Ha.
Qed.

Lemma wp_owning {A} (p : prog A) drop C Q w :
  wp (fun w => C (at_state w (drop (w_sv w)))) p Q w -> wp C (owning drop p) Q w.
Proof.
  revert w. induction p as [a| |k run IH] using @prog_ind'; intros w Hp; [done|done|]. destruct k as [|cancel]; simpl in *.
  - destruct (run (w_sv w)) as [[p' sv']|] eqn:E; [|done]. destruct Hp as (w' & Ha & Hp). exists w'. split; [done|]. by eapply IH.
  - assert (forall w1, w_own w1 = w_own w -> good w1 ->
      match match run (w_sv w1) with Some (p', sv') => Some (owning drop p', sv') | None => None end with
      | Some (p', sv') => exists w', after w1 w' sv' /\ wp C p' Q w'
      | None => True
      end) as Hrun.
    { intros w1 Ho Hg. destruct (Hp w1 Ho Hg) as [_ Hr]. destruct (run (w_sv w1)) as [[p' sv']|] eqn:E; [|done].
      destruct Hr as (w' & Ha & Hp'). exists w'. split; [done|]. by eapply IH. }
    destruct cancel as [c|]; intros w1 Ho Hg; (split; [|by apply Hrun]); [|done].
    intros d [= <-]. destruct (Hp w1 Ho Hg) as [Hc _]. by apply (Hc c).
Qed.

Lemma wp_detached {A} (p : prog (MetadataResult A)) C C' Q w : wp C p Q w -> wp C' (detached p) Q w.
Proof.
  revert w. induction p as [a| |k run IH] using @prog_ind'; intros w Hp; [done|done|]. destruct k as [|cancel]; simpl in *.
  - destruct (run (w_sv w)) as [[p' sv']|] eqn:E; [|done]. destruct Hp as (w' & Ha & Hp). exists w'. split; [done|]. by eapply IH.
  - intros w1 Ho Hg. split; [done|]. destruct (Hp w1 Ho Hg) as [_ Hr]. destruct (run (w_sv w1)) as [[p' sv']|] eqn:E; [|done].
    destruct Hr as (w' & Ha & Hp'). exists w'. split; [done|]. by eapply IH.
Qed.

(** The spawned task starts in a later state. *)
Lemma wp_spawned {A} (p : prog (MetadataResult A)) C Q w :
  (forall w', w_own w' = w_own w -> good w' -> wp abandoned p Q w') -> wp C (spawned p) Q w.
Proof.
  intros Hp w1 Ho Hg. split; [done|]. exists w1. split; [by split_and!|]. eapply wp_detached. by apply Hp.
Qed.

(** ** Calls *)

Lemma wp_look {A} (f : Server -> A) C Q w : good w -> Q (f (w_sv w)) w -> wp C (look f) Q w.
Proof. intros Hg HQ. exists w. split; [by split_and!|done]. Qed.

Lemma wp_call {A} (f : Server -> A * Server) C Q w w' :
  after w w' (f (w_sv w)).2 -> Q (f (w_sv w)).1 w' -> wp C (call f) Q w.
Proof. intros Ha HQ. unfold call. simpl. destruct (f (w_sv w)). by exists w'. Qed.

Lemma wp_registry {A} (f : SessionRegistryState -> Z -> result Empty_set (SessionRegistryState * A)) C Q w st a w' :
  f (sv_registry (w_sv w)) (sv_now_ms (w_sv w)) = Ok (st, a) -> after w w' (with_registry (w_sv w) st) -> Q a w' ->
  wp C (registry f) Q w.
Proof. intros Hf Ha HQ. unfold registry. simpl. rewrite Hf. by exists w'. Qed.

Lemma wp_await {A} (f : Server -> option (A * Server)) C Q w :
  (forall w1, w_own w1 = w_own w -> good w1 -> C w1 /\
     forall a sv', f (w_sv w1) = Some (a, sv') -> exists w', after w1 w' sv' /\ Q a w') ->
  wp C (await f) Q w.
Proof.
  intros Hp w1 Ho Hg. destruct (Hp w1 Ho Hg) as [Hc Hr]. split.
  - intros d [= <-]. by destruct w1.
  - destruct (f (w_sv w1)) as [[a sv']|]; [|done]. by apply Hr.
Qed.

Lemma after_refl w : good w -> after w w (w_sv w).
Proof. intros Hg. by split_and!. Qed.

(** A step that no token depends on. *)
Lemma after_same w sv : good w -> (forall H U W, sound limits H U W (w_sv w) -> sound limits H U W sv) -> after w (at_state w sv) sv.
Proof. intros [? ?] Hs. split_and!; try done. split; [done|]. by apply Hs. Qed.

(** ** Guards *)

Lemma wp_guarded {A} drop (body : fs A) C Q w :
  good w ->
  wp (fun w => C (at_state w (drop (w_sv w)))) body
    (fun r w => match r with Err e => exists w', after w w' (drop (w_sv w)) /\ Q (Err e) w' | r => Q r w end) w ->
  wp C (guarded drop body) Q w.
Proof.
  intros Hg Hp. apply wp_bind; [done|]. apply wp_owning. eapply wp_mono; [done|done|done|]. intros r w1 Hg1 HQ _.
  destruct r as [a|e|]; [done| |done]. destruct HQ as (w' & Ha & HQ). exists w'. by split.
Qed.

Lemma wp_scoped {A} drop (body : fs A) C Q w :
  good w ->
  wp (fun w => C (at_state w (drop (w_sv w)))) body (fun r w => exists w', after w w' (drop (w_sv w)) /\ Q r w') w ->
  wp C (scoped drop body) Q w.
Proof.
  intros Hg Hp. apply wp_bind; [done|]. apply wp_owning. eapply wp_mono; [done|done|done|]. intros r w1 Hg1 (w' & Ha & HQ) _.
  exists w'. by split.
Qed.

(** ** Programs that no token depends on

    [mild p Φ]: [p] runs safely in every world, returns with the tokens it was given,
    holding at most more of them while it waits, and with a value that satisfies
    [Φ]. *)

Definition mild {A} (p : prog A) (Φ : A -> Prop) : Prop :=
  forall C Q w, good w -> (forall w', w_own w ⊆ w_own w' -> good w' -> C w') ->
    (forall a w', w_own w' = w_own w -> good w' -> Φ a -> Q a w') -> wp C p Q w.

Lemma mild_ret {A} (a : A) (Φ : A -> Prop) : Φ a -> mild (Return a) Φ.
Proof. intros HΦ C Q w Hg HC HQ. by apply HQ. Qed.

Lemma mild_bind {A B} (p : prog A) (f : A -> prog B) Φ Ψ :
  mild p Φ -> (forall a, Φ a -> mild (f a) Ψ) -> mild (mbind (M := prog) f p) Ψ.
Proof.
  intros Hp Hf C Q w Hg HC HQ. apply wp_bind; [done|]. apply Hp; [done|done|]. intros a w' Ho Hg' HΦ _.
  apply (Hf a HΦ); [done| |].
  - intros w2 Ho2. apply HC. by rewrite <- Ho.
  - intros b w2 Ho2. apply HQ. congruence.
Qed.

Lemma mild_weaken {A} (p : prog A) (Φ Ψ : A -> Prop) : mild p Φ -> (forall a, Φ a -> Ψ a) -> mild p Ψ.
Proof. intros Hp Hw C Q w Hg HC HQ. apply Hp; [done|done|]. intros a w' Ho Hg' HΦ. apply HQ; auto. Qed.

Lemma mild_look {A} (f : Server -> A) (Φ : A -> Prop) : (forall w, good w -> Φ (f (w_sv w))) -> mild (look f) Φ.
Proof. intros Hf C Q w Hg HC HQ. apply wp_look; [done|]. apply HQ; auto. Qed.

(** A change that keeps the invariant whatever the tokens are. *)
Definition invisible (f : Server -> Server) : Prop :=
  forall H U W sv, sound limits H U W sv -> sound limits H U W (f sv).

Lemma mild_do (f : Server -> Server) : invisible f -> mild (call (fun sv => (tt, f sv))) (fun _ => True).
Proof.
  intros Hf C Q w Hg HC HQ. eapply (wp_call _ _ _ _ (at_state w (f (w_sv w)))); [apply after_same; [done|]; intros; by apply Hf|].
  apply HQ; [done| |done]. split; [apply Hg|]. apply Hf, Hg.
Qed.

Lemma mild_await {A} (f : Server -> option (A * Server)) (Φ : A -> Prop) :
  (forall w a sv', good w -> f (w_sv w) = Some (a, sv') -> Φ a /\ forall H U W, sound limits H U W (w_sv w) -> sound limits H U W sv') ->
  mild (await f) Φ.
Proof.
  intros Hf C Q w Hg HC HQ. apply wp_await. intros w1 Ho Hg1. split; [apply HC; [by rewrite Ho|done]|]. intros a sv' E.
  destruct (Hf w1 a sv' Hg1 E) as [HΦ Hs]. pose proof (after_same w1 sv' Hg1 (fun H U W => Hs H U W)) as Ha.
  exists (at_state w1 sv'). split; [done|]. apply HQ; [done|apply Ha|done].
Qed.

Definition harmless {A} (f : SessionRegistryState -> Z -> result Empty_set (SessionRegistryState * A)) (Φ : A -> Prop) : Prop :=
  forall H U W sv, sound limits H U W sv -> exists st a,
    f (sv_registry sv) (sv_now_ms sv) = Ok (st, a) /\ (sound limits H U W (with_registry sv st)) /\ Φ a.

Lemma mild_registry {A} (f : SessionRegistryState -> Z -> result Empty_set (SessionRegistryState * A)) (Φ : A -> Prop) :
  harmless f Φ -> mild (registry f) Φ.
Proof.
  intros Hf C Q w Hg HC HQ. pose proof Hg as [Hd Hs]. destruct (Hf _ _ _ _ Hs) as (st & a & E & Hs' & HΦ).
  eapply (wp_registry _ _ _ _ st a (at_state w (with_registry (w_sv w) st))); [done| |apply HQ; [done| |done]; by split].
  by split_and!.
Qed.

Lemma mild_owning {A} (p : prog A) drop Φ : invisible drop -> mild p Φ -> mild (owning drop p) Φ.
Proof.
  intros Hd Hp C Q w Hg HC HQ. apply wp_owning, Hp; [done| |done]. intros w' Ho Hg'. apply HC; [done|].
  split; [apply Hg'|]. apply Hd, Hg'.
Qed.

(** ** Handlers *)

Definition fine {E A} (Φ : A -> Prop) (r : result E A) : Prop :=
  match r with Ok a => Φ a | Err _ => True | Panic => False end.

Notation safe m Φ := (mild m (fine Φ)).

Lemma safe_bind {A B} (m : fs A) (k : A -> fs B) Φ Ψ :
  safe m Φ -> (forall a, Φ a -> safe (k a) Ψ) -> safe (mbind (M := fs) k m) Ψ.
Proof.
  intros Hm Hk. apply (mild_bind m _ (fine Φ)); [done|]. intros [a|e|] Hr; [by apply Hk|by apply mild_ret|done].
Qed.

Lemma safe_meta_bind {A B} (m : meta A) (k : A -> meta B) Φ Ψ :
  safe m Φ -> (forall a, Φ a -> safe (k a) Ψ) -> safe (mbind (M := meta) k m) Ψ.
Proof.
  intros Hm Hk. apply (mild_bind m _ (fine Φ)); [done|]. intros [a|e|] Hr; [by apply Hk|by apply mild_ret|done].
Qed.

Lemma safe_lift {A} (p : prog A) Φ : mild p Φ -> safe (lift p) Φ.
Proof. intros Hp. eapply mild_bind; [done|]. intros a HΦ. by apply mild_ret. Qed.

Lemma safe_ask {A} (p : prog A) Φ : mild p Φ -> safe (ask p) Φ.
Proof. intros Hp. eapply mild_bind; [done|]. intros a HΦ. by apply mild_ret. Qed.

Lemma safe_give {A} (r : result FsFailure A) Φ : fine Φ r -> safe (give r) Φ.
Proof. intros Hr. destruct r; [by apply mild_ret|by apply mild_ret|done]. Qed.

Lemma safe_yield {A} (r : MetadataResult A) Φ : fine Φ r -> safe (yield r) Φ.
Proof. intros Hr. by apply mild_ret. Qed.

Lemma safe_failure {A} ctx err group epoch route Φ : safe (failure_from_error_with_route_epoch (A := A) ctx err group epoch route) Φ.
Proof.
  unfold failure_from_error_with_route_epoch, fs_failure_from_metadata_error. destruct (to_rpc_error_total err) as (rpc & -> & _).
  by apply mild_ret.
Qed.

Lemma safe_or_fail {A} (r : MetadataResult A) ctx group epoch Φ : fine Φ r -> safe (or_fail r ctx group epoch) Φ.
Proof. intros Hr. destruct r as [a|e|]; [by apply mild_ret|apply safe_failure|done]. Qed.

Lemma safe_or_fail_route {A} (r : MetadataResult A) ctx group epoch route Φ :
  fine Φ r -> safe (or_fail_with_route_epoch r ctx group epoch route) Φ.
Proof. intros Hr. destruct r as [a|e|]; [by apply mild_ret|apply safe_failure|done]. Qed.

Lemma safe_terminal {A} ctx kind message group epoch Φ : safe (session_terminal_failure (A := A) ctx kind message group epoch) Φ.
Proof. by apply mild_ret. Qed.

Lemma safe_scoped {A} drop (body : fs A) Φ : invisible drop -> safe body Φ -> safe (scoped drop body) Φ.
Proof.
  intros Hd Hb. eapply mild_bind; [by apply mild_owning|]. intros r Hr. eapply mild_bind; [by apply mild_do|].
  intros _ _. by apply mild_ret.
Qed.

Lemma safe_guarded {A} drop (body : fs A) Φ : invisible drop -> safe body Φ -> safe (guarded drop body) Φ.
Proof.
  intros Hd Hb. eapply mild_bind; [by apply mild_owning|]. intros [a|e|] Hr; [by apply mild_ret| |done].
  eapply mild_bind; [by apply mild_do|]. intros _ _. by apply mild_ret.
Qed.

Lemma fine_weaken {E A} (Φ Ψ : A -> Prop) (r : result E A) : fine Φ r -> (forall a, Φ a -> Ψ a) -> fine Ψ r.
Proof. destruct r; naive_solver. Qed.

Lemma fine_not_panic {E A} (r : result E A) : r <> Panic -> fine (fun _ => True) r.
Proof. by destruct r. Qed.

Lemma fine_ok {E A} (r : result E A) : r <> Panic -> fine (fun a => r = Ok a) r.
Proof. by destruct r. Qed.

(** ** Handlers that rely on tokens *)

Lemma wp_fs_bind {A B} (m : fs A) (k : A -> fs B) C Q w :
  good w ->
  wp C m (fun r w => good w -> match r with Ok a => wp C (k a) Q w | Err e => Q (Err e) w | Panic => False end) w ->
  wp C (mbind (M := fs) k m) Q w.
Proof.
  intros Hg Hm. apply (wp_bind m); [done|]. eapply wp_mono; [done|done|done|]. intros [a|e|] w' Hg' HQ _; by apply HQ.
Qed.

Lemma wp_meta_bind {A B} (m : meta A) (k : A -> meta B) C Q w :
  good w ->
  wp C m (fun r w => good w -> match r with Ok a => wp C (k a) Q w | Err e => Q (Err e) w | Panic => False end) w ->
  wp C (mbind (M := meta) k m) Q w.
Proof.
  intros Hg Hm. apply (wp_bind m); [done|]. eapply wp_mono; [done|done|done|]. intros [a|e|] w' Hg' HQ _; by apply HQ.
Qed.

Lemma wp_ask {A} (p : prog A) C Q w : good w -> wp C p (fun a w => Q (Ok a) w) w -> wp C (ask p) Q w.
Proof. intros Hg Hp. apply wp_bind; [done|]. eapply wp_mono; [done|done|done|]. by intros a w' Hg' HQ _. Qed.

Lemma wp_lift {A} (p : prog A) C Q w : good w -> wp C p (fun a w => Q (Ok a) w) w -> wp C (lift p) Q w.
Proof. intros Hg Hp. apply wp_bind; [done|]. eapply wp_mono; [done|done|done|]. by intros a w' Hg' HQ _. Qed.

Lemma wp_failure {A} ctx err group epoch route C (Q : result FsFailure A -> world -> Prop) w :
  (forall f, Q (Err f) w) -> wp C (failure_from_error_with_route_epoch ctx err group epoch route) Q w.
Proof.
  intros HQ. unfold failure_from_error_with_route_epoch, fs_failure_from_metadata_error.
  destruct (to_rpc_error_total err) as (rpc & -> & _). apply HQ.
Qed.

Lemma wp_or_fail {A} (r : MetadataResult A) ctx group epoch C (Q : result FsFailure A -> world -> Prop) w :
  r <> Panic -> (forall f, Q (Err f) w) -> (forall a, r = Ok a -> Q (Ok a) w) -> wp C (or_fail r ctx group epoch) Q w.
Proof. intros Hr Herr Hok. destruct r as [a|e|]; [by apply Hok|by apply wp_failure|done]. Qed.

(** A mild program in a context that relies on more than its result. *)
Lemma wp_mild {A} (p : prog A) Φ C Q w :
  mild p Φ -> good w -> (forall w', w_own w ⊆ w_own w' -> good w' -> C w') ->
  (forall a w', w_own w' = w_own w -> good w' -> Φ a -> Q a w') -> wp C p Q w.
Proof. intros Hp. apply Hp. Qed.

(** A proposal: the caller may take a token for the wait. *)
Lemma wp_propose command_len c C Q w :
  good w -> (forall err, Q (Err err) w) ->
  (exists w1, after w w1 (submitted c (w_sv w)) /\ forall w2, w_own w2 = w_own w1 -> good w2 ->
     C w2 /\ forall a, sv_answers (w_sv w2) !! sv_next_ticket (w_sv w) = Some a -> Q (write_outcome a) w2) ->
  wp C (propose_write_command command_len c) Q w.
Proof.
  intros Hg Herr (w1 & Ha & Hw). unfold propose_write_command. destruct (command_len c); [|apply Herr]. destruct (_ <? _); [apply Herr|].
  apply wp_bind; [done|]. eapply (wp_call _ _ _ _ w1); [done|]. intros Hg1. change (submit c (w_sv w)).1 with (sv_next_ticket (w_sv w)).
  apply wp_bind; [done|]. apply wp_await. intros w2 Ho Hg2. destruct (Hw w2 Ho Hg2) as [HC HQ]. split; [done|]. intros a sv' E.
  destruct (sv_answers (w_sv w2) !! sv_next_ticket (w_sv w)) as [a'|] eqn:Ea; [|done]. injection E as <- <-.
  exists w2. split; [by apply after_refl|]. intros _. by apply HQ.
Qed.
End wp.
