(* ===== verification/ServiceSafe.v ===== *)
(** * The filesystem service runs safely: queries and the namespace

    The handlers of read.rs and namespace.rs, and what write.rs and publish.rs share
    with them, keep the invariant of the writers and never panic. *)

From S2P Require Import Prelude Types Errors Inode Mount Store Namespace NamespaceInv.
From S2P Require Import WriteApply Apply NoPanic Reach Fencing Session SessionInv SessionProps SessionSystem SessionFrame.
From S2P Require Import PathResolver Placement Workers Maintenance Server Service ServiceRead ServiceWrite ServicePublish ServiceNamespace.
From S2P Require Import Writers WritersEnv Safety.
Local Open Scope Z_scope.

(** ** Pure parts that answer *)

Lemma np_normalize path : normalize path <> Panic.
Proof. unfold normalize. no_panic. Qed.
#[export] Hint Resolve np_normalize : np.

Lemma np_mount_loop normalized mounts best len : resolve_mount_loop normalized mounts best len <> Panic.
Proof.
  revert best len. induction mounts as [|m mounts IH]; intros best len; simpl; [done|]. destruct (_ && _) eqn:Hm; [|apply IH].
  apply andb_true_iff in Hm as [Hm Hlen]. apply Nat.ltb_lt in Hlen.
  destruct (relative_parts_ok (mount_prefix m) normalized) as (rel & -> & _); [done|by destruct (mount_prefix m); simpl in *; [lia|]|].
  simpl. apply IH.
Qed.
#[export] Hint Resolve np_mount_loop : np.

Lemma np_resolve_mount table path : resolve_mount table path <> Panic.
Proof. unfold resolve_mount. no_panic. Qed.
#[export] Hint Resolve np_resolve_mount : np.

Lemma np_resolve_mount_components table path : resolve_mount_components table path <> Panic.
Proof. unfold resolve_mount_components. no_panic. Qed.

Lemma np_walk_dentry s current components ancestors : walk_dentry s current components ancestors <> Panic.
Proof. revert current ancestors. induction components; intros; simpl; no_panic; auto. Qed.
#[export] Hint Resolve np_resolve_mount_components np_walk_dentry : np.

Lemma np_resolve_path table s path : resolve_path table s path <> Panic.
Proof.
  unfold resolve_path. no_panic. bool_prop. destruct (last l) eqn:E; [done|]. by apply last_None in E.
Qed.
#[export] Hint Resolve np_resolve_path : np.

Lemma np_resolve sv path : resolve sv path <> Panic.
Proof. unfold resolve. no_panic. Qed.

Lemma np_stored {A} sv (a : A) : stored sv a <> Panic.
Proof. unfold stored. no_panic. Qed.
#[export] Hint Resolve np_resolve np_stored : np.

Lemma np_read_inode sv id : read_inode sv id <> Panic.
Proof. unfold read_inode. no_panic. Qed.
Lemma np_read_dentry sv parent name : read_dentry sv parent name <> Panic.
Proof. unfold read_dentry. no_panic. Qed.
Lemma np_read_layout sv id : read_layout sv id <> Panic.
Proof. unfold read_layout. no_panic. Qed.
#[export] Hint Resolve np_read_inode np_read_dentry np_read_layout : np.

Lemma np_same_mount sv mount parents : same_mount sv mount parents <> Panic.
Proof. induction parents; simpl; no_panic; auto. Qed.
#[export] Hint Resolve np_same_mount : np.

Lemma np_route_fs_write_ctx sv parents : route_fs_write_ctx sv parents <> Panic.
Proof. unfold route_fs_write_ctx. no_panic. Qed.
#[export] Hint Resolve np_route_fs_write_ctx : np.

Lemma np_validate_mount_epoch sv ctx freshness mount : validate_mount_epoch sv ctx freshness mount <> Panic.
Proof. unfold validate_mount_epoch. no_panic. Qed.

Lemma np_metadata_failure {A} ctx err group epoch route : fs_failure_from_metadata_error (A := A) ctx err group epoch route <> Panic.
Proof. unfold fs_failure_from_metadata_error. by destruct (to_rpc_error_total err) as (rpc & -> & _). Qed.
#[export] Hint Resolve np_validate_mount_epoch np_metadata_failure : np.

Lemma np_validate_route_epoch sv ctx freshness group epoch : validate_route_epoch sv ctx freshness group epoch <> Panic.
Proof. unfold validate_route_epoch, current_route_epoch. destruct (rn_is_leader _); no_panic. Qed.
Lemma np_validate_stale_state ctx applied group epoch : validate_stale_state ctx applied group epoch <> Panic.
Proof. unfold validate_stale_state. no_panic. Qed.
Lemma np_admission {A} err : from_rpc_metadata_error (A := A) err <> Panic.
Proof. unfold from_rpc_metadata_error. by destruct (to_rpc_error_total err) as (rpc & -> & _). Qed.
#[export] Hint Resolve np_validate_route_epoch np_validate_stale_state np_admission : np.

Lemma np_check_readiness sv : check_readiness sv <> Panic.
Proof. unfold check_readiness. no_panic. Qed.
Lemma np_check_leadership sv ctx : check_leadership sv ctx <> Panic.
Proof. unfold check_leadership. no_panic. Qed.
Lemma np_check_policy sv mount op : check_data_io_policy sv mount op <> Panic.
Proof. unfold check_data_io_policy. no_panic. Qed.
#[export] Hint Resolve np_check_readiness np_check_leadership np_check_policy : np.
Lemma np_check_meta_read sv : check_meta_read sv <> Panic.
Proof. unfold check_meta_read. no_panic. Qed.
Lemma np_check_meta_write sv ctx : check_meta_write sv ctx <> Panic.
Proof. unfold check_meta_write. no_panic. Qed.
Lemma np_check_data_read sv mount : check_data_read sv mount <> Panic.
Proof. unfold check_data_read. no_panic. Qed.
Lemma np_check_data_write sv ctx mount : check_data_write sv ctx mount <> Panic.
Proof. unfold check_data_write. no_panic. Qed.
#[export] Hint Resolve np_check_meta_read np_check_meta_write np_check_data_read np_check_data_write : np.

Lemma np_endpoint worker endpoint protocol run : worker_endpoint_from_parts worker endpoint protocol run <> Panic.
Proof. unfold worker_endpoint_from_parts, worker_endpoint_info_from_parts. no_panic. apply np_map_err. no_panic. Qed.
#[export] Hint Resolve np_endpoint : np.

Lemma np_mapM {E A B} (f : A -> result E B) l : (forall a, f a <> Panic) -> mapM f l <> Panic.
Proof. intros Hf. induction l; simpl; no_panic; auto. Qed.

Lemma np_write_endpoints workers : write_endpoints workers <> Panic.
Proof. unfold write_endpoints. no_panic. apply np_mapM. intros. apply np_endpoint. Qed.

Lemma np_tail_location group file owner epoch reported views : tail_location group file owner epoch reported views <> Panic.
Proof. unfold tail_location. no_panic; [apply np_mapM; intros; apply np_endpoint|apply np_map_err, np_block_format_spec]. Qed.
#[export] Hint Resolve np_write_endpoints np_tail_location : np.

Section safe.
Context (limits : SessionLimits) (Hlimits : limits_ok limits = true) (Hmax : max_write_targets limits <= u64_max).
Notation harmless := (harmless limits).
Notation mild := (mild limits).
Notation invisible := (invisible limits).
Notation good := (good limits).
Notation safe m Φ := (mild m (fine Φ)).
#[local] Opaque retire_expired_entries.

(** ** The registry *)

Lemma harmless_calm {A} (f : SessionRegistryState -> Z -> result Empty_set (SessionRegistryState * A)) (Φ : A -> Prop) :
  (forall n U st now, registry_ok limits n U st -> exists st' a, f st now = Ok (st', a) /\ registry_ok limits n U st') ->
  (forall n U st now st' a, registry_ok limits n U st -> f st now = Ok (st', a) -> calm now st st' /\ Φ a) -> harmless f Φ.
Proof.
  intros Hok Hcalm H U W sv Hsd. pose proof (fz_registry _ _ _ (sd_frozen _ _ _ _ _ Hsd)) as Hr.
  destruct (Hok _ _ _ (sv_now_ms sv) Hr) as (st & a & E & Hok'). destruct (Hcalm _ _ _ _ _ _ Hr E) as [Hc HΦ].
  exists st, a. split_and!; [done| |done]. by apply sound_calm.
Qed.

Lemma harmless_identity id : harmless (fun st now => get_session_identity st id now) (fun _ => True).
Proof.
  apply harmless_calm.
  - intros n U st now Hok. by apply get_session_identity_ok.
  - intros n U st now st' a Hok E. by eapply get_session_identity_calm in E as [? _].
Qed.

Lemma harmless_get id : harmless (fun st now => get_session st id now) (fun _ => True).
Proof.
  apply harmless_calm.
  - intros n U st now Hok. by apply get_session_ok.
  - intros n U st now st' a Hok E. by eapply get_session_calm in E as [? _].
Qed.

Lemma harmless_validate id e : harmless (fun st now => validate_session st id e now) (fun r => r <> Panic).
Proof.
  apply harmless_calm.
  - intros n U st now Hok. by apply validate_session_ok.
  - intros n U st now st' a Hok E. split; [by eapply validate_session_calm|]. intros ->. by eapply validate_session_res.
Qed.

Lemma harmless_renew id e client : harmless (fun st now => renew_session_at limits st id e client now) (fun r => r <> Panic).
Proof.
  apply harmless_calm.
  - intros n U st now Hok. by apply renew_session_ok.
  - intros n U st now st' a Hok E. split; [by eapply renew_session_calm|]. intros ->. by eapply renew_session_res.
Qed.

Lemma harmless_under id : harmless (fun st now => has_active_write_under_at st id now) (fun _ => True).
Proof.
  apply harmless_calm.
  - intros n U st now Hok. by apply active_under_ok.
  - intros n U st now st' a Hok E. split; [by eapply active_under_calm|done].
Qed.

Lemma harmless_active id : harmless (fun st now => has_active_write st id now) (fun _ => True).
Proof. apply harmless_under. Qed.

Lemma harmless_begin_create input : harmless (fun st now => begin_create_session_at limits st input now) (fun r => r <> Panic).
Proof.
  apply harmless_calm.
  - intros n U st now Hok. by apply begin_create_session_ok.
  - intros n U st now st' a Hok E. split; [by eapply begin_create_calm|]. intros ->. by eapply begin_create_res.
Qed.

Lemma harmless_revalidate p : harmless (fun st now => publication_revalidate st p now) (fun r => r <> Panic).
Proof.
  apply harmless_calm.
  - intros n U st now Hok. by apply revalidate_ok.
  - intros n U st now st' a Hok E. split; [by eapply revalidate_calm in E as [? _]|]. intros ->. by eapply revalidate_res.
Qed.

Lemma invisible_release (f : SessionRegistryState -> result Empty_set SessionRegistryState) :
  (forall n U st, registry_ok limits n U st -> exists st', f st = Ok st' /\ registry_ok limits n U st') ->
  (forall n U st now st', registry_ok limits n U st -> f st = Ok st' -> calm now st st') -> invisible (release f).
Proof.
  intros Hok Hcalm H U W sv Hsd. pose proof (fz_registry _ _ _ (sd_frozen _ _ _ _ _ Hsd)) as Hr.
  destruct (Hok _ _ _ Hr) as (st & E & Hok'). unfold release. rewrite E. apply sound_calm; [done|by eapply Hcalm|done].
Qed.

Lemma invisible_cancel_opening o : invisible (release (fun st => cancel_opening st o)).
Proof.
  apply invisible_release.
  - intros n U st Hok. by apply cancel_opening_ok.
  - intros n U st now st' Hok E. by eapply cancel_opening_calm.
Qed.

Lemma invisible_cancel_create o : invisible (release (fun st => cancel_create_opening st o)).
Proof.
  apply invisible_release.
  - intros n U st Hok. by apply cancel_create_opening_ok.
  - intros n U st now st' Hok E. by eapply cancel_create_opening_calm.
Qed.

Lemma invisible_cancel_target r : invisible (release (fun st => cancel_write_target st r)).
Proof.
  apply invisible_release.
  - intros n U st Hok. by apply cancel_target_ok.
  - intros n U st now st' Hok E. by eapply cancel_target_calm.
Qed.

Lemma invisible_shared : invisible release_shared.
Proof. intros H U W sv Hsd. by apply sound_topology. Qed.
Lemma invisible_exclusive : invisible release_exclusive.
Proof. intros H U W sv Hsd. by apply sound_topology. Qed.

(** ** Walking through a handler *)

Lemma safe_look {A} (f : Server -> A) : safe (lift (look f)) (fun a => exists w, good w /\ a = f (w_sv w)).
Proof. apply safe_lift, mild_look. eauto. Qed.

Lemma safe_ask_look {A} (f : Server -> A) : safe (ask (look f)) (fun a => exists w, good w /\ a = f (w_sv w)).
Proof. apply safe_ask, mild_look. eauto. Qed.

Lemma safe_success {T} (payload : T) group epoch route :
  safe (success_with_route_epoch payload group epoch route) (fun _ => True).
Proof. eapply mild_weaken; [apply safe_look|]. intros [a|e|]; naive_solver. Qed.

Lemma safe_path_error {A} ctx path err Φ : safe (failure_from_path_error (A := A) ctx path err) Φ.
Proof. eapply safe_bind; [apply safe_look|]. intros a _. apply safe_failure. Qed.

Lemma safe_or_path_error {A} (r : MetadataResult A) ctx path Φ : fine Φ r -> safe (or_path_error r ctx path) Φ.
Proof. intros Hr. destruct r as [a|e|]; [by apply mild_ret|apply safe_path_error|done]. Qed.

Lemma safe_admission check : (forall sv, check sv <> Panic) -> safe (require_admission check) (fun _ => True).
Proof.
  intros Hc. eapply safe_bind; [apply safe_look|]. intros r (w & _ & ->). specialize (Hc (w_sv w)).
  destruct (check (w_sv w)); [by apply mild_ret|by apply mild_ret|done].
Qed.

Lemma safe_require_group ctx group epoch route : safe (require_worker_lookup_group ctx group epoch route) (fun _ => True).
Proof. destruct group; [by apply mild_ret|apply safe_failure]. Qed.
End safe.

(** [safe_step] walks over one call of a handler; values that were read keep the
    moment they were read at. *)
Ltac safe_panic :=
  first [assumption | solve [auto with np] | solve [no_panic; auto with np] | idtac].

Create HintDb safe.
#[export] Hint Resolve safe_success safe_failure safe_terminal safe_path_error safe_require_group
  harmless_identity harmless_get harmless_validate harmless_renew harmless_under harmless_active harmless_begin_create
  harmless_revalidate : safe.

Ltac safe_call :=
  lazymatch goal with
  | |- mild _ (mbind (M := fs) _ (lift (look _))) _ =>
      eapply safe_bind; [apply safe_look|let r := fresh "r" in let w := fresh "w" in let Hw := fresh "Hw" in intros r (w & Hw & ->)]
  | |- mild _ (mbind (M := meta) _ (ask (look _))) _ =>
      eapply safe_meta_bind; [apply safe_ask_look|let r := fresh "r" in let w := fresh "w" in let Hw := fresh "Hw" in intros r (w & Hw & ->)]
  | |- mild _ (mbind (M := fs) _ (or_fail ?r _ _ _)) _ =>
      eapply safe_bind; [apply safe_or_fail, fine_ok; safe_panic|intros ? ?]
  | |- mild _ (mbind (M := fs) _ (or_fail_with_route_epoch ?r _ _ _ _)) _ =>
      eapply safe_bind; [apply safe_or_fail_route, fine_ok; safe_panic|intros ? ?]
  | |- mild _ (mbind (M := fs) _ (or_path_error ?r _ _)) _ =>
      eapply safe_bind; [apply safe_or_path_error, fine_ok; safe_panic|intros ? ?]
  | |- mild _ (mbind (M := fs) _ (give ?r)) _ =>
      eapply safe_bind; [apply safe_give, fine_ok; safe_panic|intros ? ?]
  | |- mild _ (mbind (M := meta) _ (yield ?r)) _ =>
      eapply safe_meta_bind; [apply safe_yield, fine_ok; safe_panic|intros ? ?]
  | |- mild _ (mbind (M := fs) _ (lift (registry _))) _ =>
      eapply safe_bind; [apply safe_lift, mild_registry; eauto with safe|intros ? ?]
  | |- mild _ (mbind (M := meta) _ (ask (registry _))) _ =>
      eapply safe_meta_bind; [apply safe_ask, mild_registry; eauto with safe|intros ? ?]
  | |- mild _ (mbind (M := fs) _ (require_admission _)) _ =>
      eapply safe_bind; [apply safe_admission; intros; safe_panic|intros _ _]
  | |- mild _ (mbind (M := fs) _ _) _ => eapply (safe_bind _ _ _ (fun _ => True)); [|intros ? _]
  | |- mild _ (mbind (M := meta) _ _) _ => eapply (safe_meta_bind _ _ _ (fun _ => True)); [|intros ? _]
  | |- mild _ (Return _) _ => apply mild_ret; first [done | simpl; safe_panic]
  | |- mild _ (or_fail _ _ _ _) _ => apply safe_or_fail, fine_not_panic; safe_panic
  | |- mild _ Crash _ => solve [exfalso; congruence]
  | |- mild _ (yield _) _ => apply safe_yield, fine_not_panic; safe_panic
  | |- mild _ (or_fail_with_route_epoch _ _ _ _ _) _ => apply safe_or_fail_route, fine_not_panic; safe_panic
  | |- mild _ (require_admission _) _ => apply safe_admission; intros; safe_panic
  | |- mild _ (lift (registry _)) _ => apply safe_lift, mild_registry; eauto with safe
  | |- mild _ (let '(_, _) := ?x in _) _ => destruct x
  | |- mild _ (match ?x with _ => _ end) _ => destruct x eqn:?
  | |- mild _ (if ?x then _ else _) _ => destruct x eqn:?
  | |- mild _ _ _ => solve [eauto with safe]
  end.
Ltac safe_step := safe_call; cbv beta in *.
Ltac safe_steps := repeat safe_step.

Section reads.
Context (limits : SessionLimits) (Hlimits : limits_ok limits = true) (heartbeat : Z).
Notation safe m Φ := (mild limits m (fine Φ)).

Lemma safe_freshness ctx freshness mount : safe (validate_read_freshness_for_mount ctx freshness mount) (fun _ => True).
Proof. unfold validate_read_freshness_for_mount. safe_steps. Qed.

Lemma safe_inode_authority ctx id missing : safe (inode_authority ctx id missing) (fun _ => True).
Proof. unfold inode_authority. safe_steps. Qed.

Lemma safe_existing_target ctx path : safe (existing_target ctx path) (fun _ => True).
Proof. unfold existing_target, failure_from_resolved_path_error, failure_from_error. safe_steps. Qed.
End reads.
#[export] Hint Resolve safe_freshness safe_inode_authority safe_existing_target : safe.

Section reads.
Context (limits : SessionLimits) (Hlimits : limits_ok limits = true) (heartbeat : Z).
Notation safe m Φ := (mild limits m (fine Φ)).

Lemma safe_get_attr ctx id freshness : safe (get_attr_resolved ctx id freshness) (fun _ => True).
Proof. unfold get_attr_resolved. safe_steps. Qed.

Lemma safe_get_status ctx path freshness : safe (get_status ctx path freshness) (fun _ => True).
Proof. unfold get_status. safe_steps. apply safe_get_attr. Qed.

Lemma safe_join_entries ctx group epoch route entries : safe (join_entries ctx group epoch route entries) (fun _ => True).
Proof. induction entries as [|[name child] rest IH]; cbn [join_entries]; safe_steps. Qed.

Lemma safe_list_status ctx path cursor max freshness : safe (list_status ctx path cursor max freshness) (fun _ => True).
Proof. unfold list_status, read_dir_resolved. safe_steps. apply safe_join_entries. Qed.

Lemma safe_locate_block ctx group block len layout group_name epoch route :
  safe (locate_block heartbeat ctx group block len layout group_name epoch route) (fun _ => True).
Proof. unfold locate_block. safe_steps. Qed.

Lemma safe_locate_blocks ctx group file chunk lo hi group_name epoch route ordinal blocks :
  safe (locate_blocks heartbeat ctx group file chunk lo hi group_name epoch route ordinal blocks) (fun _ => True).
Proof. revert ordinal. induction blocks as [|b rest IH]; intros ordinal; cbn [locate_blocks]; safe_steps; auto using safe_locate_block. Qed.

(** A validated file has a known block format. *)
Lemma validated_format f id : file_validate f id = Ok tt -> exists chunk, block_format_spec (fl_block_format_id (fd_layout f)) = Ok chunk.
Proof.
  unfold file_validate. intros H. unbind H as u Hl. unfold layout_validate in Hl. unbind Hl as spec Hs. eauto.
Qed.

Lemma safe_file_layout ctx id range freshness :
  safe (get_file_layout_resolved heartbeat ctx id range freshness) (fun _ => True).
Proof.
  unfold get_file_layout_resolved. safe_step. { apply safe_inode_authority. } safe_step. safe_step. { apply safe_freshness. }
  safe_step. safe_step. destruct (inode_kind _) as [f|] eqn:Hk.
  2:{ exfalso. unfold is_file in *. rewrite Hk in *. done. }
  safe_step. match goal with H : file_validate _ _ = Ok ?u |- _ => destruct u; destruct (validated_format _ _ H) as [chunk ->] end.
  safe_steps; apply safe_locate_blocks.
Qed.

Lemma safe_open_file ctx path freshness : safe (open_file heartbeat ctx path freshness) (fun _ => True).
Proof. unfold open_file. safe_steps. apply safe_file_layout. Qed.

Lemma safe_block_locations ctx target range freshness :
  safe (get_file_block_locations heartbeat ctx target range freshness) (fun _ => True).
Proof. unfold get_file_block_locations, plan_inode_mount. safe_steps; apply safe_file_layout. Qed.
End reads.

(** ** Proposals and the namespace *)

Section namespace.
Context (limits : SessionLimits) (Hlimits : limits_ok limits = true) (command_len : Command -> option Z).
Notation safe m Φ := (mild limits m (fine Φ)).
Notation good := (good limits).

Lemma answer_outcome w t a : good w -> sv_answers (w_sv w) !! t = Some a -> write_outcome a <> Panic.
Proof.
  intros [_ Hs] Ha. destruct a as [r| [] | |]; try done. destruct (bk_answered _ _ _ _ (sd_backed _ _ _ _ _ Hs) _ _ Ha) as [_ Hr].
  by destruct r.
Qed.

Lemma mild_submit c : publication_of c = None -> mild limits (call (submit c)) (fun _ => True).
Proof.
  intros Hc C Q w Hg HC HQ. pose proof Hg as [Hd Hs].
  assert (after limits w (at_state w (submitted c (w_sv w))) (submitted c (w_sv w))) as Ha.
  { apply after_same; [done|]. intros. by apply sound_submit. }
  apply (wp_call _ _ _ _ _ (at_state w (submitted c (w_sv w)))); [done|]. apply HQ; [done|apply Ha|done].
Qed.

Lemma mild_propose c : publication_of c = None -> mild limits (propose_write_command command_len c) (fun r => r <> Panic).
Proof.
  intros Hc. unfold propose_write_command. destruct (command_len c); [|by apply mild_ret]. destruct (_ <? _); [by apply mild_ret|].
  eapply mild_bind; [by apply mild_submit|]. intros t _.
  eapply (mild_bind _ _ _ (fun a => write_outcome a <> Panic)); [apply mild_await|intros a Ha; by apply mild_ret].
  intros w a sv' Hg Ha. destruct (sv_answers (w_sv w) !! t) as [a'|] eqn:E; [|done]. injection Ha as <- <-.
  split; [|done]. by eapply answer_outcome.
Qed.

Lemma mild_propose_fs {T} c (decode : ApplySuccess -> MetadataResult T) :
  publication_of c = None -> (forall s, decode s <> Panic) ->
  mild limits (propose_fs_write_command command_len c decode) (fun r => r <> Panic).
Proof.
  intros Hc Hd. eapply mild_bind; [by apply mild_propose|]. intros r Hr. apply mild_ret. destruct r; [apply Hd|done|done].
Qed.

Lemma safe_propose {T} c (decode : ApplySuccess -> MetadataResult T) :
  publication_of c = None -> (forall s, decode s <> Panic) ->
  safe (lift (propose_fs_write_command command_len c decode)) (fun r => r <> Panic).
Proof. intros Hc Hd. by apply safe_lift, mild_propose_fs. Qed.

Lemma safe_shared {A} (body : fs A) Φ : safe body Φ -> safe (with_shared_topology body) Φ.
Proof.
  intros Hb. eapply safe_bind; [apply safe_lift, (mild_await _ _ (fun _ => True))|intros _ _; apply safe_scoped; [apply invisible_shared|done]].
  intros w a sv' Hg. unfold acquire_shared. destruct (tl_writer _); [done|]. intros [= <- <-]. split; [done|]. intros. by apply sound_topology.
Qed.

Lemma safe_exclusive {A} (body : fs A) Φ : safe body Φ -> safe (with_exclusive_topology body) Φ.
Proof.
  intros Hb. eapply safe_bind; [apply safe_lift, (mild_await _ _ (fun _ => True))|intros _ _; apply safe_scoped; [apply invisible_exclusive|done]].
  intros w a sv' Hg. unfold acquire_exclusive. destruct (_ || _); [done|]. intros [= <- <-]. split; [done|]. intros. by apply sound_topology.
Qed.

Lemma safe_route ctx parents freshness group epoch :
  safe (route_ctx_for_write_with_error_hints ctx parents freshness group epoch) (fun _ => True).
Proof. unfold route_ctx_for_write_with_error_hints. safe_steps. Qed.

Lemma safe_parent_and_name ctx resolved root : safe (parent_and_name ctx resolved root) (fun _ => True).
Proof. unfold parent_and_name, failure_from_resolved_path_error, failure_from_error. safe_steps. Qed.
End namespace.
#[export] Hint Resolve safe_route safe_parent_and_name : safe.

(** Walking over a proposal of a command that publishes nothing. *)
Ltac safe_proposal :=
  eapply safe_bind; [apply safe_propose; [done|intros []; simpl; no_panic]|intros ? ?].

Section namespace.
Context (limits : SessionLimits) (Hlimits : limits_ok limits = true) (command_len : Command -> option Z).
Notation safe m Φ := (mild limits m (fine Φ)).

Lemma safe_execute_create_directory ctx now root components attrs recursive freshness :
  safe (execute_create_directory command_len ctx (CreateDirectory now root components attrs recursive) freshness) (fun _ => True).
Proof. unfold execute_create_directory, route_ctx_for_write, success. safe_step. { apply safe_route. } safe_proposal. safe_steps. Qed.

Lemma safe_create_directory ctx path recursive freshness : safe (create_directory command_len ctx path recursive freshness) (fun _ => True).
Proof.
  unfold create_directory. safe_step. apply safe_shared. safe_step. destruct recursive.
  - unfold create_directory_recursive, failure_from_resolved_path_error, failure_from_error. safe_steps. apply safe_execute_create_directory.
  - unfold create_directory_once. safe_steps. apply safe_execute_create_directory.
Qed.

Lemma safe_routed_unit ctx routed r : r <> Panic -> safe (routed_unit_result ctx routed r) (fun _ => True).
Proof. intros Hr. unfold routed_unit_result, success. safe_steps. Qed.

Lemma safe_busy_below id : mild limits (busy_below id) (fun _ => True).
Proof. apply mild_registry. by apply harmless_under. Qed.
Lemma safe_busy_file id : mild limits (busy_file id) (fun _ => True).
Proof. apply mild_registry. by apply harmless_active. Qed.

Lemma safe_rename_target_busy routed ctx parent name : safe (rename_target_busy routed ctx parent name) (fun _ => True).
Proof. unfold rename_target_busy. safe_steps; apply safe_lift; [apply safe_busy_file|apply safe_busy_below]. Qed.

Lemma safe_rename_parent ctx id missing : safe (rename_parent ctx id missing) (fun _ => True).
Proof. unfold rename_parent. safe_steps. Qed.

Lemma safe_execute_rename ctx now args freshness : safe (execute_rename command_len ctx now args freshness) (fun _ => True).
Proof.
  unfold execute_rename. safe_step. safe_step. { apply safe_rename_parent. } safe_step. { apply safe_rename_parent. }
  safe_step. { unfold failure_from_error. safe_steps. } unfold route_ctx_for_write. safe_step. { apply safe_route. }
  safe_step. { apply safe_lift, safe_busy_below. } safe_step. safe_step. { apply safe_rename_target_busy. } safe_step.
  safe_proposal. by apply safe_routed_unit.
Qed.

Lemma safe_target_lease_epoch ctx resolved : safe (target_lease_epoch ctx resolved) (fun _ => True).
Proof.
  unfold target_lease_epoch, failure_from_resolved_path_error, failure_from_error. safe_steps.
  exfalso. eapply np_read_inode. eassumption.
Qed.

Lemma np_resolve_both sv src dst : resolve_both sv src dst <> Panic.
Proof. unfold resolve_both. no_panic. Qed.

Lemma safe_rename ctx src dst flags freshness : safe (rename command_len ctx src dst flags freshness) (fun _ => True).
Proof.
  unfold rename. safe_step. apply safe_exclusive. safe_step. safe_step. safe_step. safe_step. { apply np_resolve_both. }
  unfold failure_from_resolved_path_error, failure_from_error.
  safe_steps. { apply safe_target_lease_epoch. } apply safe_execute_rename.
Qed.

Lemma safe_delete_path ctx path recursive freshness : safe (delete_path command_len ctx path recursive freshness) (fun _ => True).
Proof.
  unfold delete_path. safe_step. apply safe_exclusive. unfold failure_from_resolved_path_error, failure_from_error. safe_steps.
  unfold delete_resolved, route_ctx_for_write. safe_step. { apply safe_route. } safe_step. { apply safe_lift, safe_busy_below. }
  safe_step. safe_step. safe_step. safe_step. safe_step. safe_proposal. by apply safe_routed_unit.
Qed.
End namespace.

(** ** Creating a file *)

Section create.
Context (limits : SessionLimits) (Hlimits : limits_ok limits = true) (command_len : Command -> option Z) (layout : FileLayout).
Notation safe m Φ := (mild limits m (fine Φ)).
Notation good := (good limits).
Notation wp := (wp limits).

Lemma good_own w sv U :
  good w -> sound limits (w_own w ∪ w_others w) U (w_watch w) sv -> after limits w (mk_world (w_own w) (w_others w) U (w_watch w) sv) sv.
Proof. intros [Hd _] Hs. by split_and!. Qed.

(** The answer of a creation activates the reserved session. *)
Lemma safe_create_reserved ctx group epoch opening (c : Z -> Command) :
  (forall now, publication_of (c now) = None) ->
  safe ('(id, layout, lease_epoch, expires_at_ms, generation) ←
          guarded (release (fun st => cancel_create_opening st opening))
            (now ← lift (look sv_now_ms);
             created ← lift (propose_fs_write_command command_len (c now) decode_created);
             or_fail created ctx group epoch);
        activated ← lift (registry (fun st now =>
                            create_opening_activate st opening id lease_epoch expires_at_ms layout generation now));
        session ← or_fail (map_err create_opening_error activated) ctx group epoch;
        success (created_output session) group epoch) (fun _ => True).
Proof.
  intros Hc C Q w Hg HC HQ. apply wp_fs_bind; [done|]. apply wp_guarded; [done|].
  assert (forall w', w_own w ⊆ w_own w' -> good w' -> C (at_state w' (release (fun st => cancel_create_opening st opening) (w_sv w')))) as HC'.
  { intros w' Ho Hg'. apply HC; [done|]. split; [apply Hg'|]. by eapply invisible_cancel_create, Hg'. }
  assert (forall e w', w_own w' = w_own w -> good w' -> exists w2,
    after limits w' w2 (release (fun st => cancel_create_opening st opening) (w_sv w')) /\ (good w2 -> Q (Err e) w2)) as HE.
  { intros e w' Ho Hg'. eexists. split; [apply good_own; [done|]; by eapply invisible_cancel_create, Hg'|]. intros Hg2. by apply HQ. }
  apply wp_fs_bind; [done|]. apply wp_lift; [done|]. apply wp_look; [done|]. intros _.
  apply wp_fs_bind; [done|]. apply wp_lift; [done|]. apply wp_bind; [done|]. apply wp_propose; [done| |].
  { intros err _ _. apply wp_failure. intros f. by apply HE. }
  exists (at_state w (submitted (c (sv_now_ms (w_sv w))) (w_sv w))).
  split; [apply after_same; [done|]; intros; by apply sound_submit|].
  intros w2 Ho Hg2. split; [apply HC'; [by rewrite Ho|done]|]. intros a Ha _ _. pose proof (answer_outcome _ _ _ _ Hg2 Ha) as Hout.
  apply wp_or_fail; [destruct (write_outcome a) as [[]| |]; done|intros f; by apply HE|].
  intros [[[[id lay] e] x] g] Hok _. cbv beta iota.
  assert (answered (w_sv w2) (sv_next_ticket (w_sv w)) (FileCreated id lay e x g)) as Hans.
  { unfold answered. rewrite Ha. destruct a as [[s| |]|[]| |]; try done. cbn in Hok. destruct s; try done. cbn in Hok. by injection Hok as -> -> -> -> ->. }
  pose proof Hg2 as [Hd2 Hs2]. destruct (sound_create_activate _ _ _ _ _ opening _ _ _ _ lay _ g _ Hlimits Hs2 Hans) as (st & res & E & Hres).
  apply wp_fs_bind; [done|]. apply wp_lift; [done|].
  assert (exists U, sound limits (w_own w2 ∪ w_others w2) U (w_watch w2) (with_registry (w_sv w2) st)) as [U HsU] by (destruct res; eauto).
  eapply wp_registry; [exact E|by apply good_own|]. intros Hg3.
  assert (res <> Panic) as Hnp by (intros ->; by eapply create_activate_res).
  apply (wp_mild _ _ (fine (fun _ => True))); [|done|intros w3 Ho3 Hg4; apply HC; [simpl in *; by rewrite <- Ho|done]|intros r w3 Ho3 Hg4 Hr; apply HQ; [simpl in *; congruence|done|done]].
  unfold success. safe_steps.
Qed.

Lemma safe_create_file ctx path freshness : safe (create_file command_len limits layout ctx path freshness) (fun _ => True).
Proof.
  unfold create_file. safe_step. apply safe_shared. safe_steps. unfold create_resolved, route_ctx_for_write, success. safe_step.
  { apply np_map_err, np_layout_validate. } safe_step. { apply safe_route. } safe_step. safe_step. safe_step.
  safe_step; [safe_steps|]. by apply safe_create_reserved.
Qed.
End create.
