(* ===== verification/ServiceSafeWrite.v ===== *)
(** * The filesystem service runs safely: write sessions

    The handlers of write.rs keep the invariant of the writers and never panic. *)

From S2P Require Import Prelude Types Errors Inode Mount Store Namespace NamespaceInv.
From S2P Require Import WriteApply Apply NoPanic Reach Fencing Session SessionInv SessionProps SessionSystem SessionFrame.
From S2P Require Import PathResolver Placement Workers Maintenance Server Service ServiceRead ServiceWrite ServicePublish ServiceNamespace.
From S2P Require Import Writers WritersEnv Safety ServiceSafe.
Local Open Scope Z_scope.

Section write.
Context (limits : SessionLimits) (Hlimits : limits_ok limits = true) (Hmax : max_write_targets limits <= u64_max).
Context (command_len : Command -> option Z) (heartbeat : Z).
Notation safe m Φ := (mild limits m (fine Φ)).
Notation good := (good limits).
Notation wp := (wp limits).
Notation after := (after limits).

Lemma safe_session_admission ctx id : safe (session_write_admission ctx id) (fun _ => True).
Proof. unfold session_write_admission. safe_steps. Qed.

Lemma mild_barrier : mild limits read_barrier (fun r => r <> Panic).
Proof. apply mild_await. intros w a sv' Hg [= <- <-]. split; [by destruct (rn_linearizable _)|done]. Qed.

Lemma safe_epochs ctx freshness mount : safe (validate_epochs ctx freshness mount) (fun _ => True).
Proof. unfold validate_epochs. safe_steps. Qed.

(** ** Streams and renewal *)

Lemma safe_authorize_stream ctx args : mild limits (authorize_stream heartbeat ctx args) (fun r => r <> Panic).
Proof.
  apply (mild_weaken _ _ (fine (fun _ => True))); [|by intros [] ?]. unfold authorize_stream.
  eapply safe_meta_bind; [apply safe_ask, mild_barrier|intros r Hr]. safe_steps.
Qed.

Lemma safe_authorize ctx args : safe (authorize_block_write heartbeat ctx args) (fun _ => True).
Proof.
  unfold authorize_block_write, success. safe_step. { apply safe_session_admission. }
  eapply safe_bind; [apply safe_lift, safe_authorize_stream|intros r Hr]. safe_steps.
Qed.

Lemma safe_owned_session ctx id foreign : safe (owned_session ctx id foreign) (fun _ => True).
Proof. unfold owned_session. safe_steps. Qed.

Lemma safe_renew ctx handle freshness : safe (renew_lease limits ctx handle freshness) (fun _ => True).
Proof.
  unfold renew_lease. safe_step. { apply safe_session_admission. } apply safe_shared. unfold renew_session. safe_step. { apply safe_owned_session. }
  safe_steps. unfold authoritative_route_epoch, current_route_epoch. no_panic.
Qed.

(** ** Abort *)

(** What follows a proposal in the state in which its answer was read. *)
Lemma safe_propose_then {T B} c decode (k : MetadataResult T -> fs B) Φ :
  publication_of c = None -> (forall s, decode s <> Panic) -> (forall e, safe (k (Err e)) Φ) ->
  (forall t s a C Q w, good w -> answered (w_sv w) t s -> decode s = Ok a -> (forall w', w_own w ⊆ w_own w' -> good w' -> C w') ->
     (forall r w', w_own w' = w_own w -> good w' -> fine Φ r -> Q r w') -> wp C (k (Ok a)) Q w) ->
  safe (mbind (M := fs) k (lift (propose_fs_write_command command_len c decode))) Φ.
Proof.
  intros Hc Hd Herr Hok C Q w Hg HC HQ. apply wp_fs_bind; [done|]. apply wp_lift; [done|]. apply wp_bind; [done|].
  assert (forall e w2, w_own w2 = w_own w -> good w2 -> wp C (k (Err e)) Q w2) as HE.
  { intros e w2 Ho Hg2. apply (Herr e); [done|by rewrite Ho|by rewrite Ho]. }
  apply wp_propose; [done| |].
  { intros err _ _. by apply HE. }
  exists (at_state w (submitted c (w_sv w))). split; [apply after_same; [done|]; intros; by apply sound_submit|].
  intros w2 Ho Hg2. simpl in Ho. split; [apply HC; [by rewrite Ho|done]|]. intros a Ha _ _.
  pose proof (answer_outcome _ _ _ _ Hg2 Ha) as Hout. destruct (write_outcome a) as [s|e|] eqn:Ea; [|by apply HE|done].
  assert (answered (w_sv w2) (sv_next_ticket (w_sv w)) s) as Hans.
  { unfold answered. rewrite Ha. by destruct a as [[]|[]| |]; simplify_eq/=. }
  cbn [mbind result_bind]. specialize (Hd s). destruct (decode s) as [x|e|] eqn:Es; [|by apply HE|done].
  eapply Hok; [done|done|done|by rewrite Ho|by rewrite Ho].
Qed.

Lemma ended_fenced sv t id e s H U W :
  sound limits H U W sv -> answered sv t s -> decode_ended id (lease_checked_next e) s = Ok tt -> fenced (sv_store sv) id e.
Proof.
  intros Hs Ha Hd. unfold decode_ended in Hd. destruct s; try done. destruct (_ && _) eqn:Hb; [|done]. bool_prop. subst.
  match goal with H : Some _ = lease_checked_next _ |- _ => symmetry in H; apply checked_add64_Some in H as [-> _] end.
  by eapply (bk_ended _ _ _ _ (sd_backed _ _ _ _ _ Hs)).
Qed.

Lemma wp_remove_session id e C Q w :
  good w -> fenced (sv_store (w_sv w)) id e -> (forall r w', w_own w' = w_own w -> good w' -> Q r w') -> wp C (remove_session id e) Q w.
Proof.
  intros Hg Hf HQ. pose proof Hg as [Hd Hs].
  destruct (sound_remove_session _ _ _ _ _ id e Hlimits Hs (or_introl Hf)) as (st & res & E & Hs').
  pose proof (good_own _ _ _ _ Hg Hs') as Ha. eapply wp_registry; [exact E|exact Ha|]. by apply HQ, Ha.
Qed.

Lemma safe_abort_mount ctx id e : safe (abort_mount ctx id e) (fun _ => True).
Proof. unfold abort_mount. safe_steps. Qed.

Lemma safe_abort ctx handle freshness : safe (abort_file_write command_len ctx handle freshness) (fun _ => True).
Proof.
  unfold abort_file_write. safe_step. { apply safe_session_admission. } unfold abort_session, success. safe_step. { apply safe_abort_mount. }
  safe_step; [|safe_steps]. safe_step. { apply safe_epochs. } safe_step. safe_step. safe_step. apply safe_propose_then; [done|..].
  - intros []; simpl; no_panic.
  - intros e. safe_step. simplify_eq.
  - intros t s [] C Q w0 Hg Hans Hd HC HQ. cbn [or_fail]. apply wp_fs_bind; [done|]. intros _. apply wp_fs_bind; [done|].
    apply wp_lift; [done|]. apply wp_remove_session; [done|by eapply ended_fenced; [apply Hg|..]|]. intros r w' Ho Hg' _.
    eapply wp_mild; [apply safe_success|done|by rewrite Ho|by rewrite Ho].
Qed.

(** ** Waiting with a token *)

Definition with_token (w : world) (t : nat) (k : token) : world :=
  mk_world (<[inr t := k]> (w_own w)) (w_others w) (w_used w) (w_watch w) (w_sv w).

(** The ticket of a proposal is new to everyone. *)
Lemma ticket_free w : good w -> w_own w !! inr (sv_next_ticket (w_sv w)) = None /\ w_others w !! inr (sv_next_ticket (w_sv w)) = None.
Proof.
  intros [_ Hs]. destruct (fresh_ticket _ _ _ _ (sd_backed _ _ _ _ _ Hs)) as [Hn _]. by apply lookup_union_None in Hn.
Qed.

Lemma after_wait w c k :
  good w -> publication_of c = None ->
  (forall H, sound limits H (w_used w) (w_watch w) (submitted c (w_sv w)) ->
     sound limits (<[inr (sv_next_ticket (w_sv w)) := k]> H) (w_used w) (w_watch w) (submitted c (w_sv w))) ->
  after w (with_token (at_state w (submitted c (w_sv w))) (sv_next_ticket (w_sv w)) k) (submitted c (w_sv w)).
Proof.
  intros Hg Hc Hk. destruct (ticket_free w Hg) as [Ho Hf]. destruct Hg as [Hd Hs]. split_and!; try done. split; simpl.
  - by apply map_disjoint_insert_l_2.
  - rewrite <- insert_union_l. by apply Hk, sound_submit.
Qed.

(** The wait is over. *)
Lemma good_forget own F U W sv t k :
  own !! inr t = None -> good (mk_world (<[inr t := k]> own) F U W sv) -> good (mk_world own F U W sv).
Proof.
  intros Ho [Hd Hs]. simpl in *. apply map_disjoint_insert_l in Hd as [Hf Hd]. split; [done|]. simpl.
  apply (sound_forget_ticket _ _ t) in Hs. rewrite <- insert_union_l, delete_insert_id in Hs; [done|]. by apply lookup_union_None.
Qed.

(** The world of [w'] with the tokens of [w]. *)
Definition restored (w w' : world) (sv : Server) : world := mk_world (w_own w) (w_others w') (w_used w') (w_watch w') sv.

(** [w'] holds the tokens of [w], and perhaps one for a proposal made in [w]. *)
Definition waiting (w w' : world) (k : token) : Prop :=
  w_own w' = w_own w \/ w_own w' = <[inr (sv_next_ticket (w_sv w)) := k]> (w_own w).

Lemma waiting_restored w w' k : good w -> waiting w w' k -> good w' -> good (restored w w' (w_sv w')).
Proof.
  intros Hg Hw Hg'. destruct (ticket_free w Hg) as [Ho _]. destruct w' as [own F U W sv]. unfold restored. simpl in *.
  destruct Hw as [Hw|Hw]; simpl in Hw; subst own; [done|]. by eapply good_forget.
Qed.

Lemma waiting_sub w w' k : good w -> waiting w w' k -> w_own w ⊆ w_own w'.
Proof. intros Hg [-> | ->]; [done|]. apply insert_subseteq, (ticket_free w Hg). Qed.

(** ** Opening *)

Lemma last_block file b : last (fd_blocks file) = Some b -> b ∈ fd_blocks file.
Proof. intros [l ->]%last_Some. set_solver. Qed.

Lemma tail_location_block group file owner e reported views b :
  tail_location group file owner e reported views = Ok b -> lb_block_id b ∈ fd_blocks file.
Proof.
  unfold tail_location. intros H. unbind H as blk Hb. destruct (pp_status _); try done. unbind H as tier Ht. unbind H as eps He.
  unbind H as chunk Hc. injection H as <-. by apply last_block.
Qed.

(** From an opening to the file its session will start from. *)
Lemma wp_acquire_opened ctx id base e oid mode group mount_epoch route C Q w :
  good w -> oid < next_opening_id (sv_registry (w_sv w)) ->
  (forall o, entries (sv_registry (w_sv w)) !! id = Some (Opening o) -> os_opening_id o = oid -> (id, e) ∉ w_used w /\ os_mode o = mode) ->
  (forall w', w_own w ⊆ w_own w' -> good w' -> C w') ->
  (forall f w', waiting w w' (TOpen id e oid mode) -> good w' -> Q (Err f) w') ->
  (forall file tail w', w_own w' = <[inr (sv_next_ticket (w_sv w)) := TOpen id e oid mode]> (w_own w) -> good w' ->
     answered (w_sv w') (sv_next_ticket (w_sv w)) (WriteLeaseAcquired id e) -> lookup_file (sv_store (w_sv w')) id = Some file ->
     fd_lease_epoch file = e -> (forall b, tail = Some b -> mode = Append /\ lb_block_id b ∈ fd_blocks file) -> Q (Ok (file, tail)) w') ->
  wp C (acquire_opened command_len heartbeat ctx id base e mode group mount_epoch route) Q w.
Proof.
  intros Hg Hoid Hop HC Herr Hok. unfold acquire_opened. apply wp_fs_bind; [done|]. apply wp_lift; [done|]. apply wp_look; [done|]. intros _.
  apply wp_fs_bind; [done|]. apply wp_lift; [done|]. apply wp_bind; [done|]. apply wp_propose; [done| |].
  { intros err _ _. apply wp_fs_bind; [done|]. apply wp_failure. intros f _. apply Herr; [by left|done]. }
  set (t := sv_next_ticket (w_sv w)) in *. set (c := AcquireWriteLease _ _ _).
  exists (with_token (at_state w (submitted c (w_sv w))) t (TOpen id e oid mode)). split.
  { apply after_wait; [done|done|]. intros H Hs. apply sound_wait_open; [done|simpl; lia|done|done]. }
  intros w2 Ho Hg2. simpl in Ho. assert (waiting w w2 (TOpen id e oid mode)) as Hw by (by right).
  split; [by apply HC; [eapply waiting_sub|]|]. intros a Ha _ _. pose proof (answer_outcome _ _ _ _ Hg2 Ha) as Hout.
  assert (forall f, good w2 -> Q (Err f) w2) as HE by auto.
  apply wp_fs_bind; [done|]. apply wp_or_fail; [destruct (write_outcome a) as [[]| |]; simpl; no_panic|by auto|].
  intros [] Hdec _. assert (answered (w_sv w2) t (WriteLeaseAcquired id e)) as Hans.
  { unfold answered. rewrite Ha. destruct a as [[s| |]|[]| |]; try done. cbn in Hdec. destruct s; try done. cbn in Hdec.
    destruct (_ && _) eqn:Hb; [|done]. by bool_prop; subst. }
  apply wp_fs_bind; [done|]. apply wp_lift; [done|]. apply wp_look; [done|]. intros _.
  apply wp_fs_bind; [done|]. apply wp_or_fail; [no_panic|by auto|]. intros file Hfile _.
  unbind Hfile as found Hf. unbind Hfile as i Hi. unbind Hfile as f0 Hk. unbind Hfile as u Hv. injection Hfile as <-.
  assert (lookup_file (sv_store (w_sv w2)) id = Some f0) as Hl.
  { unfold read_inode, stored in Hf. destruct (sv_read_error _); [done|]. injection Hf as <-. unfold inode_file in Hk.
    destruct (inode_kind i) eqn:Hik; [|done]. injection Hk as ->. apply lookup_file_Some. eauto. }
  case_bool_decide as He; [by apply HE|]. destruct (_ && _) eqn:Hm.
  - apply andb_true_iff in Hm as [Hm _]. apply bool_decide_eq_true in Hm.
    apply wp_fs_bind; [done|]. unfold require_worker_lookup_group. destruct group as [g|]; [intros _|apply wp_failure; auto].
    apply wp_fs_bind; [done|]. apply wp_lift; [done|]. unfold locate_append_tail.
    apply wp_meta_bind; [done|]. unfold yield at 1. destruct (last (fd_blocks f0)) as [blk|] eqn:Hlast; cbn [ok_or];
      [intros _|intros _ _; apply wp_fs_bind; [done|]; by apply wp_failure].
    apply wp_meta_bind; [done|]. apply wp_ask; [done|]. apply wp_look; [done|]. intros _.
    apply wp_meta_bind; [done|]. apply wp_ask; [done|]. apply wp_look; [done|]. intros _ _.
    apply wp_fs_bind; [done|]. apply wp_or_fail; [apply np_tail_location|by auto|]. intros b Hb _.
    apply Hok; try done. intros b' [= <-]. split; [done|]. by eapply tail_location_block.
  - by apply Hok.
Qed.

Lemma wp_epochs ctx freshness mount C Q w : good w -> (forall r, r <> Panic -> Q r w) -> wp C (validate_epochs ctx freshness mount) Q w.
Proof.
  intros Hg HQ. unfold validate_epochs. apply wp_fs_bind; [done|]. apply wp_lift; [done|]. apply wp_look; [done|]. intros _.
  pose proof (np_validate_mount_epoch (w_sv w) ctx freshness mount) as Hm. apply wp_fs_bind; [done|].
  destruct (validate_mount_epoch _ _ _ _) as [[g e]|err|]; [intros _|intros _; by apply HQ|done].
  apply wp_fs_bind; [done|]. apply wp_lift; [done|]. apply wp_look; [done|]. intros _.
  pose proof (np_validate_route_epoch (w_sv w) ctx freshness g e) as Hr. apply wp_fs_bind; [done|].
  destruct (validate_route_epoch _ _ _ _ _) as [x|err|]; [intros _; by apply HQ|intros _; by apply HQ|done].
Qed.

(** A session that may still be removed: nothing of it is in flight, and no creation
    answers with its epoch. *)
Definition removable (sv : Server) (id : InodeId) (e : LeaseEpoch) : Prop :=
  forall s, writer sv id s -> ws_lease_epoch s = e -> ws_publication_submitted s = false /\ forall x, ~ creation sv id e x.

Lemma wp_begin_session input base C Q w :
  good w -> lookup_file (sv_store (w_sv w)) (bi_inode_id input) = Some base -> bi_current_lease_epoch input = fd_lease_epoch base ->
  (forall e w', w_own w' = w_own w -> good w' -> Q (Err e) w') ->
  (forall o w', w_own w' = w_own w -> good w' -> wo_inode_id o = bi_inode_id input ->
     wo_opening_id o < next_opening_id (sv_registry (w_sv w')) ->
     (forall os, entries (sv_registry (w_sv w')) !! bi_inode_id input = Some (Opening os) -> os_opening_id os = wo_opening_id o ->
        (bi_inode_id input, wo_proposed_lease_epoch o) ∉ w_used w' /\ os_mode os = bi_mode input) -> Q (Ok o) w') ->
  wp C (registry (fun st now => begin_session_at limits st input now)) Q w.
Proof.
  intros Hg Hf Hbase Herr Hok. pose proof Hg as [Hd Hs]. pose proof (fz_registry _ _ _ (sd_frozen _ _ _ _ _ Hs)) as Hr.
  destruct (begin_session_ok limits _ _ _ input (sv_now_ms (w_sv w)) Hr) as (st & res & E & Hok').
  destruct (begin_session_calm limits _ _ _ _ _ _ _ Hr E) as [Hc Hfacts].
  pose proof (sound_calm _ _ _ _ _ _ Hs Hc Hok') as Hs'. pose proof (good_own _ _ _ _ Hg Hs') as Ha.
  eapply wp_registry; [exact E|exact Ha|]. destruct res as [o|e|]; [|by apply Herr, Ha|by apply begin_session_res in E].
  destruct (Hfacts o eq_refl) as (Hid & Hnext & Hlt & os & Hos & Hoid & Hep & Hmode).
  apply Hok; [done|apply Ha|done| |]; simpl.
  - rewrite <- Hoid. by eapply (is_opening _ _ _ _ (sd_issuing _ _ _ _ _ Hs')).
  - intros os' Hos' _. rewrite Hos in Hos'. injection Hos' as <-. split; [|done]. intros HU.
    destruct (bk_used _ _ _ _ (sd_backed _ _ _ _ _ Hs) _ _ HU) as [_ Hle]. specialize (Hle base Hf).
    apply checked_add64_Some in Hnext as [Hn _]. lia.
Qed.

(** The answer of the acquisition activates the opening. *)
Lemma wp_activate_opened opening t mode file tail C Q w w0 :
  good w0 -> w_own w = <[inr (sv_next_ticket (w_sv w0)) := TOpen (wo_inode_id opening) (fd_lease_epoch file) (wo_opening_id opening) mode]> (w_own w0) ->
  t = sv_next_ticket (w_sv w0) -> good w -> answered (w_sv w) t (WriteLeaseAcquired (wo_inode_id opening) (fd_lease_epoch file)) ->
  lookup_file (sv_store (w_sv w)) (wo_inode_id opening) = Some file ->
  (forall b, tail = Some b -> mode = Append /\ lb_block_id b ∈ fd_blocks file) ->
  (forall e w', w_own w' = w_own w0 -> good w' -> Q (Err e) w') ->
  (forall s w', w_own w' = w_own w0 -> good w' -> removable (w_sv w') (ws_inode_id s) (ws_lease_epoch s) -> Q (Ok s) w') ->
  wp C (registry (fun st now => write_opening_activate limits st opening (fd_lease_epoch file) now file tail)) Q w.
Proof.
  intros Hg0 Ho -> Hg Hans Hfile Htail Herr Hok. pose proof Hg as [Hd Hs]. destruct (ticket_free w0 Hg0) as [Hfree _].
  set (t := sv_next_ticket (w_sv w0)) in *.
  assert ((w_own w ∪ w_others w) !! inr t = Some (TOpen (wo_inode_id opening) (fd_lease_epoch file) (wo_opening_id opening) mode)) as Htok.
  { apply lookup_union_Some_l. by rewrite Ho, lookup_insert_eq. }
  destruct (sound_write_activate _ _ _ _ _ opening t _ mode file tail Hlimits Hs Htok eq_refl Hans Hfile Htail) as (st & res & E & Hres).
  assert (forall U, sound limits (w_own w ∪ w_others w) U (w_watch w) (with_registry (w_sv w) st) ->
    after w (mk_world (w_own w0) (w_others w) U (w_watch w) (with_registry (w_sv w) st)) (with_registry (w_sv w) st)) as Hafter.
  { intros U HsU. split_and!; try done. eapply (good_forget _ _ _ _ _ t); [done|]. rewrite <- Ho. by split. }
  destruct res as [s|e|]; [|eapply wp_registry; [exact E|by apply Hafter|]; apply Herr; [done|by apply Hafter]|by apply write_activate_res in E].
  destruct Hres as (Hid & Hep & Hsub & Hw & HsU). eapply wp_registry; [exact E|by apply Hafter|].
  apply Hok; [done|by apply Hafter|]. intros s' Hs' _. simpl in Hs'. rewrite Hid in Hs'.
  assert (s' = s) as -> by (unfold writer in *; simpl in *; congruence). split; [done|]. rewrite Hid, Hep. intros x Hc.
  assert (creation (w_sv w) (wo_inode_id opening) (fd_lease_epoch file) x) as Hc' by done.
  pose proof (bk_acquired _ _ _ _ (sd_backed _ _ _ _ _ Hs) _ _ _ _ _ Hc' Hans). lia.
Qed.

Definition opened_result (r : result FsFailure (FsSuccess OpenWriteOutput)) (sv : Server) : Prop :=
  match r with
  | Ok s => removable sv (ow_inode_id (fs_payload s)) (ow_lease_epoch (fs_payload s))
  | Err _ => True
  | Panic => False
  end.

Lemma wp_open_write_inode ctx path id ancestors mode freshness C Q w :
  good w -> (forall w', w_own w ⊆ w_own w' -> good w' -> C w') ->
  (forall r w', w_own w' = w_own w -> good w' -> opened_result r (w_sv w') -> Q r w') ->
  wp C (open_write_inode command_len limits heartbeat ctx path id ancestors mode freshness) Q w.
Proof.
  intros Hg HC HQ. assert (forall f w', w_own w' = w_own w -> good w' -> Q (Err f) w') as HE by (intros; by apply HQ).
  unfold open_write_inode.
  apply wp_fs_bind; [done|]. apply wp_or_fail; [apply np_map_err; unfold validate_ancestor_chain; no_panic|by auto|]. intros _ _ _.
  apply wp_fs_bind; [done|]. apply wp_lift; [done|]. apply wp_look; [done|]. intros _.
  apply wp_fs_bind; [done|]. apply wp_or_fail; [apply np_read_inode|by auto|]. intros found Hfound _.
  apply wp_fs_bind; [done|]. apply wp_or_fail; [no_panic|by auto|]. intros inode Hinode _.
  apply wp_fs_bind; [done|]. apply wp_or_fail; [no_panic|by auto|]. intros _ _ _.
  apply wp_fs_bind; [done|]. apply wp_or_fail; [no_panic|by auto|]. intros _ _ _.
  apply wp_fs_bind; [done|]. apply wp_epochs; [done|]. intros [[[group mepoch] route]|f|] Hr; [intros _|by auto|done].
  apply wp_fs_bind; [done|]. apply wp_lift; [done|]. apply wp_look; [done|]. intros _.
  apply wp_fs_bind; [done|]. apply wp_or_fail; [apply np_read_layout|by auto|]. intros lay Hlay _.
  apply wp_fs_bind; [done|]. apply wp_or_fail; [apply np_map_err, np_layout_validate|by auto|]. intros _ _ _.
  apply wp_fs_bind; [done|]. apply wp_or_fail; [apply np_inode_file|by auto|]. intros base Hbase _.
  assert (lookup_file (sv_store (w_sv w)) id = Some base) as Hl.
  { apply ok_or_Ok in Hinode as ->. unfold read_inode, stored in Hfound. destruct (sv_read_error _); [done|]. injection Hfound as Hfound.
    unfold inode_file in Hbase. destruct (inode_kind inode) eqn:Hik; [|done]. injection Hbase as ->. apply lookup_file_Some. eauto. }
  apply wp_fs_bind; [done|]. apply wp_lift; [done|].
  eapply (wp_begin_session (mk_BeginSessionInput _ _ id _ _ _ _ _)); [done|exact Hl|done| |].
  { intros e w' Ho Hg' _. apply wp_fs_bind; [done|]. apply wp_failure. by auto. }
  cbn [bi_inode_id bi_mode]. intros opening w1 Ho1 Hg1 Hid Hoid Hop _. cbn [map_err or_fail].
  apply wp_fs_bind; [done|]. intros _. apply wp_fs_bind; [done|]. apply wp_guarded; [done|].
  set (drop := release (fun st => cancel_opening st opening)).
  assert (forall w', good w' -> good (at_state w' (drop (w_sv w')))) as Hdrop.
  { intros w' [Hd Hs]. split; [done|]. by eapply invisible_cancel_opening. }
  rewrite <- Hid in *. eapply wp_acquire_opened; [done|exact Hoid|exact Hop| | |].
  - intros w' Ho Hg'. apply HC; [by rewrite <- Ho1|]. by apply Hdrop.
  - intros f w' Hw Hg'. exists (restored w1 w' (drop (w_sv w'))). split.
    + split_and!; try done. apply (waiting_restored w1 (at_state w' (drop (w_sv w'))) (TOpen (wo_inode_id opening) (wo_proposed_lease_epoch opening) (wo_opening_id opening) mode)); [done|done|by apply Hdrop].
    + intros Hg''. by apply HE.
  - intros file tail w' Ho Hg' Hans Hfile Hep Htail _. cbv beta iota. rewrite <- Hep in *.
    apply wp_fs_bind; [done|]. apply wp_lift; [done|]. eapply (wp_activate_opened opening _ mode file tail _ _ w' w1); try done.
    + intros err w2 Ho2 Hg2 _. assert (w_own w2 = w_own w) as Ho2' by congruence.
      destruct err; [apply wp_failure; by auto|apply HE; done..|apply wp_failure; by auto].
    + intros s w2 Ho2 Hg2 Hrem _. apply wp_lift; [done|]. apply wp_look; [done|]. apply HQ; [congruence|done|done].
Qed.

Lemma wp_remove_removable id e C Q w :
  good w -> removable (w_sv w) id e -> (forall r w', w_own w' = w_own w -> good w' -> Q r w') -> wp C (remove_session id e) Q w.
Proof.
  intros Hg Hf HQ. pose proof Hg as [Hd Hs].
  destruct (sound_remove_session _ _ _ _ _ id e Hlimits Hs (or_intror Hf)) as (st & res & E & Hs').
  pose proof (good_own _ _ _ _ Hg Hs') as Ha. eapply wp_registry; [exact E|exact Ha|]. by apply HQ, Ha.
Qed.

Lemma safe_open_write ctx path mode freshness : safe (open_write command_len limits heartbeat ctx path mode freshness) (fun _ => True).
Proof.
  unfold open_write. safe_step. apply safe_shared. unfold failure_from_resolved_path_error, failure_from_error. safe_step. safe_step. safe_step.
  safe_step. { safe_steps. } safe_step. intros C Q w0 Hg HC HQ. apply wp_fs_bind; [done|]. apply wp_open_write_inode; [done|done|].
  intros [opened|f|] w1 Ho Hg1 Hres; [intros _|intros _; by apply HQ|done]. unfold finish_open_write.
  apply wp_fs_bind; [done|]. apply wp_lift; [done|]. apply wp_look; [done|]. intros _. destruct (negb _); [|by apply HQ].
  apply wp_fs_bind; [done|]. apply wp_lift; [done|]. apply wp_remove_removable; [done|done|]. intros r w2 Ho2 Hg2 _.
  apply wp_failure. intros f. apply HQ; [congruence|done|done].
Qed.

(** ** Allocation *)

Lemma wp_begin_allocate id e previous C Q w :
  good w -> (forall r w', w_own w' = w_own w -> good w' -> r <> Panic -> (forall v, r <> Ok (BAB_Reserved v)) -> Q r w') ->
  (forall v w', w_own w' = w_own w -> good w' -> wr_inode_id v = id -> wr_lease_epoch v = e -> (id, e) ∈ w_used w' ->
     Q (Ok (BAB_Reserved v)) w') ->
  wp C (registry (fun st now => begin_allocate_block limits st id e previous now)) Q w.
Proof.
  intros Hg HQ Hok. pose proof Hg as [Hd Hs]. pose proof (fz_registry _ _ _ (sd_frozen _ _ _ _ _ Hs)) as Hr.
  destruct (begin_allocate_ok limits _ _ _ id e previous (sv_now_ms (w_sv w)) Hmax Hr) as (st & res & E & Hok').
  destruct (begin_allocate_calm limits _ _ _ _ _ _ _ _ _ Hr E) as [Hc Hfacts].
  pose proof (sound_calm _ _ _ _ _ _ Hs Hc Hok') as Hs'. pose proof (good_own _ _ _ _ Hg Hs') as Ha.
  eapply wp_registry; [exact E|exact Ha|]. assert (res <> Panic) as Hnp by (intros ->; by apply begin_allocate_res in E).
  destruct res as [[b|v]|err|]; [apply HQ; done || apply Ha| |apply HQ; done || apply Ha|done].
  destruct (Hfacts v eq_refl) as (Hid & Hep & s & Hw & Hse). apply Hok; [done|apply Ha|done|done|]. simpl.
  rewrite <- Hse. by eapply (is_used _ _ _ _ (sd_issuing _ _ _ _ _ Hs')).
Qed.

Lemma wp_allocate_target ctx id e reservation group mount_epoch route C Q w :
  good w -> (id, e) ∈ w_used w ->
  (forall w', w_own w ⊆ w_own w' -> good w' -> C w') ->
  (forall f w', waiting w w' (TAlloc id e) -> good w' -> Q (Err f) w') ->
  (forall target w', w_own w' = <[inr (sv_next_ticket (w_sv w)) := TAlloc id e]> (w_own w) -> good w' ->
     answered (w_sv w') (sv_next_ticket (w_sv w)) (BlockAllocated (lb_block_id target)) -> Q (Ok target) w') ->
  wp C (allocate_target command_len heartbeat ctx id e reservation group mount_epoch route) Q w.
Proof.
  intros Hg HU HC Herr Hok. unfold allocate_target.
  apply wp_fs_bind; [done|]. apply wp_or_fail; [apply np_map_err, np_block_format_spec|intros f _; apply Herr; [by left|done]|]. intros chunk Hchunk _.
  apply wp_fs_bind; [done|]. apply wp_lift; [done|]. apply wp_bind; [done|]. apply wp_propose; [done| |].
  { intros err _ _. apply wp_fs_bind; [done|]. apply wp_failure. intros f _. apply Herr; [by left|done]. }
  set (t := sv_next_ticket (w_sv w)) in *. set (c := AllocateBlock _ _).
  destruct (fresh_ticket _ _ _ _ (sd_backed _ _ _ _ _ (proj2 Hg))) as (_ & _ & Hna).
  exists (with_token (at_state w (submitted c (w_sv w))) t (TAlloc id e)). split.
  { apply after_wait; [done|done|]. intros H Hs. apply sound_wait_alloc; [done|simpl; lia|done|done]. }
  intros w2 Ho Hg2. simpl in Ho. assert (waiting w w2 (TAlloc id e)) as Hw by (by right).
  split; [by apply HC; [eapply waiting_sub|]|]. intros a Ha _ _. pose proof (answer_outcome _ _ _ _ Hg2 Ha) as Hout.
  assert (forall f, good w2 -> Q (Err f) w2) as HE by auto.
  apply wp_fs_bind; [done|]. apply wp_or_fail; [destruct (write_outcome a) as [[]| |]; simpl; no_panic|by auto|].
  intros block Hdec _. assert (answered (w_sv w2) t (BlockAllocated block)) as Hans.
  { unfold answered. rewrite Ha. destruct a as [[s| |]|[]| |]; try done. cbn in Hdec. destruct s; try done. cbn in Hdec.
    destruct (bool_decide _); [|done]. by injection Hdec as ->. }
  apply wp_fs_bind; [done|]. unfold require_worker_lookup_group. destruct group as [g|]; [intros _|apply wp_failure; auto].
  apply wp_fs_bind; [done|]. apply wp_lift; [done|]. apply wp_look; [done|]. intros _.
  apply wp_fs_bind; [done|]. apply wp_or_fail; [destruct (pp_status _); done|by auto|]. intros workers Hworkers _.
  apply wp_fs_bind; [done|]. apply wp_or_fail; [apply np_write_endpoints|by auto|]. intros [endpoints selected] Hends _.
  apply wp_fs_bind; [done|]. apply wp_or_fail; [no_panic|by auto|]. intros tier Htier _.
  apply wp_fs_bind; [done|]. apply wp_or_fail; [no_panic|by auto|]. intros _ _ _. by apply Hok.
Qed.

Lemma wp_complete_target r target C Q w w0 :
  good w0 -> w_own w = <[inr (sv_next_ticket (w_sv w0)) := TAlloc (wr_inode_id r) (wr_lease_epoch r)]> (w_own w0) -> good w ->
  answered (w_sv w) (sv_next_ticket (w_sv w0)) (BlockAllocated (lb_block_id target)) ->
  (forall res w', w_own w' = w_own w0 -> good w' -> res <> Panic -> Q res w') ->
  wp C (registry (fun st now => reservation_complete st r target now)) Q w.
Proof.
  intros Hg0 Ho Hg Hans HQ. pose proof Hg as [Hd Hs].
  destruct (sound_complete_target _ _ _ _ _ r (sv_next_ticket (w_sv w0)) target Hlimits Hs) as (st & res & E & Hres & Hs'); [|done|].
  { rewrite Ho. apply lookup_union_Some_l, lookup_insert_eq. }
  assert (good (restored w0 (at_state w (with_registry (w_sv w) st)) (with_registry (w_sv w) st))) as Hg'.
  { eapply (waiting_restored w0 (at_state w (with_registry (w_sv w) st))); [done|by right|by split]. }
  assert (after w (restored w0 (at_state w (with_registry (w_sv w) st)) (with_registry (w_sv w) st)) (with_registry (w_sv w) st)) as Ha by by split_and!.
  eapply wp_registry; [exact E|exact Ha|by apply HQ].
Qed.

Lemma safe_begin_allocate_failure {A} ctx err group epoch Φ : safe (begin_allocate_failure (A := A) ctx err group epoch) Φ.
Proof. unfold begin_allocate_failure, failure_from_error. safe_steps. Qed.

Lemma safe_allocate_block ctx handle previous freshness :
  safe (allocate_block command_len limits heartbeat ctx handle previous freshness) (fun _ => True).
Proof.
  unfold allocate_block. safe_step. { apply safe_session_admission. } unfold allocate_block_session. safe_step. { apply safe_owned_session. }
  safe_step. { apply safe_epochs. } safe_step. safe_step. safe_step; [safe_steps|]. safe_step. safe_step; [safe_steps|].
  intros C Q w Hg HC HQ. apply wp_fs_bind; [done|]. apply wp_lift; [done|]. apply wp_begin_allocate; [done| |].
  { intros r w' Ho Hg' Hr Hnr _. destruct r as [[b|v]|err|]; [| | |done].
    - eapply wp_mild; [apply safe_success|done|by rewrite Ho|rewrite Ho; exact HQ].
    - by destruct (Hnr v).
    - eapply wp_mild; [apply safe_begin_allocate_failure|done|by rewrite Ho|rewrite Ho; exact HQ]. }
  intros v w1 Ho Hg1 <- <- HU _. apply wp_fs_bind; [done|]. apply wp_guarded; [done|]. apply wp_allocate_target; [done|done| | |].
  - intros w' Hsub Hg'. apply HC; [by rewrite <- Ho|]. split; [apply Hg'|]. by eapply invisible_cancel_target, Hg'.
  - intros f w' Hw Hg'. set (drop := release _). exists (restored w1 w' (drop (w_sv w'))). split; [|by intros; apply HQ].
    split_and!; try done. eapply (waiting_restored w1 (at_state w' (drop (w_sv w')))); [done|exact Hw|].
    split; [apply Hg'|]. by eapply invisible_cancel_target, Hg'.
  - intros target w2 Ho2 Hg2 Hans _. apply wp_fs_bind; [done|]. apply wp_lift; [done|].
    eapply wp_complete_target; [exact Hg1|exact Ho2|done|done|]. intros res w3 Ho3 Hg3 Hres _. rewrite Ho in Ho3.
    destruct res as [x|[]|]; [| | |done].
    + eapply wp_mild; [apply safe_success|done|by rewrite Ho3|rewrite Ho3; exact HQ].
    + unfold session_terminal_failure. by apply HQ.
    + apply wp_failure. intros f. by apply HQ.
Qed.
End write.
