(* ===== verification/ServiceSafePublish.v ===== *)
(** * The filesystem service runs safely: publication

    The handlers of publish.rs keep the invariant of the writers and never panic. A
    publication that leaves its handler carries only blocks issued to the frozen
    session, in its epoch and mode. *)

From S2P Require Import Prelude Types Errors Inode Mount Store Namespace NamespaceInv.
From S2P Require Import WriteApply Apply NoPanic Reach Fencing Session SessionInv SessionProps SessionSystem SessionFrame.
From S2P Require Import PathResolver Placement Workers Maintenance Server Service ServiceRead ServiceWrite ServicePublish ServiceNamespace.
From S2P Require Import Writers WritersEnv Safety ServiceSafe ServiceSafeWrite.
Local Open Scope Z_scope.

(** ** The blocks of a request *)

Lemma issued_targets_map_lookup s b t : issued_targets_map s !! b = Some t -> t ∈ ws_issued_targets s /\ lb_block_id t = b.
Proof.
  unfold issued_targets_map. assert (forall l (m : gmap BlockId LocatedBlock),
    foldl (fun m target => <[lb_block_id target := target]> m) m l !! b = Some t -> (t ∈ l /\ lb_block_id t = b) \/ m !! b = Some t) as Hf.
  { induction l as [|x l IH]; intros m Hl; [by right|]. destruct (IH _ Hl) as [[? ?]|[[<- <-]|[_ ?]]%lookup_insert_Some]; set_solver. }
  intros [?|?]%Hf; [done|]. by rewrite lookup_empty in *.
Qed.

Lemma blocks_in_order_issued s final capacity l : forall index seen,
  committed_blocks_in_order s final capacity index seen l = Ok tt -> forall b, b ∈ l -> cb_block_id b ∈ issued s.
Proof.
  induction l as [|x l IH]; intros index seen H b Hb; [set_solver|]. cbn in H. unbind H as target Ht.
  unbind H as u Hu. apply list_elem_of_In in Hb as [<-|Hb]; [|apply list_elem_of_In in Hb; by eapply IH].
  apply issued_targets_map_lookup in Ht as [Ht <-]. by apply list_elem_of_fmap_2.
Qed.

Lemma validated_blocks_issued intent s blocks :
  validate_committed_blocks intent s = Ok blocks ->
  blocks = ci_committed_blocks intent /\ forall b, b ∈ blocks -> cb_block_id b ∈ issued s.
Proof.
  intros H. unfold validate_committed_blocks in H. unbind H as u1 H1. unbind H as count H2. unbind H as u2 H3. unbind H as u3 Hio.
  injection H as <-. split; [done|]. destruct u3. by eapply blocks_in_order_issued.
Qed.

Lemma np_blocks_in_order s final capacity l : forall index seen, committed_blocks_in_order s final capacity index seen l <> Panic.
Proof. induction l; intros; simpl; no_panic. Qed.

Lemma np_validate_committed_blocks intent s : validate_committed_blocks intent s <> Panic.
Proof. unfold validate_committed_blocks, block_count. no_panic. apply np_blocks_in_order. Qed.

Lemma np_resolve_synced sv id e intent generation mode : resolve_synced_state sv id e intent generation mode <> Panic.
Proof. unfold resolve_synced_state, matches_visible, block_count. no_panic. Qed.

Lemma np_ready_targets sv s blocks generation : publication_ready_targets sv s blocks generation <> Panic.
Proof. unfold publication_ready_targets. no_panic. apply np_mapM. intros b. unfold ready_target. no_panic. Qed.
#[export] Hint Resolve np_validate_committed_blocks np_resolve_synced np_ready_targets : np.

Section publish.
Context (limits : SessionLimits) (Hlimits : limits_ok limits = true) (Hmax : max_write_targets limits <= u64_max).
Context (command_len : Command -> option Z) (heartbeat : Z).
Notation safe m Φ := (mild limits m (fine Φ)).
Notation good := (good limits).
Notation wp := (wp limits).
Notation after := (after limits).
Notation abandoned := (abandoned limits).

Lemma safe_invalid {A} (r : MetadataResult A) ctx group epoch : r <> Panic -> safe (invalid_publication r ctx group epoch) (fun a => r = Ok a).
Proof. intros Hr. unfold invalid_publication, failure_from_error. destruct r; [apply mild_ret; by simpl|apply safe_failure|done]. Qed.

Lemma safe_wait_ready ctx group epoch route targets : safe (wait_for_publish_ready heartbeat ctx group epoch route targets) (fun _ => True).
Proof.
  unfold wait_for_publish_ready. safe_step; [by apply mild_ret|]. eapply safe_bind; [apply safe_lift, (mild_await _ _ (fun _ => True))|].
  - intros w a sv' _ E. destruct (ready_status _ _ _ _); [|destruct (has_passed _ _)|]; by simplify_eq.
  - intros [] _; by apply mild_ret.
Qed.

Lemma safe_require_ready ctx group epoch route targets : safe (require_publish_ready heartbeat ctx group epoch route targets) (fun _ => True).
Proof. unfold require_publish_ready. safe_steps. Qed.

Lemma safe_deadline ctx group epoch route : safe (require_publish_deadline ctx group epoch route) (fun _ => True).
Proof. unfold require_publish_deadline. safe_steps. Qed.

Lemma safe_revalidate_session ctx p mode :
  safe (revalidate_publish_session ctx p mode) (fun s => ws_inode_id s = ws_inode_id (wp_session p)).
Proof.
  unfold revalidate_publish_session. safe_step. { apply safe_session_admission. } safe_steps. bool_prop. congruence.
Qed.

(** What the handlers know of a publication that passed the checks. *)
Definition checked (p : WritePublication) (e : LeaseEpoch) (intent : CloseWriteIntent)
    (r : WriteSession * list CommittedBlock * RoutedFsWriteCtx * option Z) : Prop :=
  ws_inode_id (r.1.1.1) = ws_inode_id (wp_session p) /\ e = ws_lease_epoch (wp_session p) /\
  validate_committed_blocks intent (wp_session p) = Ok (r.1.1.2).

Lemma safe_ready_publication ctx e intent freshness generation mode check p :
  safe (ready_publication heartbeat ctx e intent freshness generation mode check p) (checked p e intent).
Proof.
  unfold ready_publication. safe_step; [safe_steps|]. eapply safe_bind; [apply safe_epochs|intros [[group epoch] route] _].
  safe_step. safe_step; [safe_steps|]. safe_step. safe_step; [safe_steps|].
  eapply safe_bind; [apply safe_invalid; auto with np|intros blocks Hblocks]. safe_step; [eauto with safe|]. safe_step.
  eapply safe_bind; [apply safe_invalid; auto with np|intros targets Htargets].
  eapply safe_bind; [apply safe_wait_ready|intros _ _]. safe_step. safe_step. safe_step. safe_step. safe_step. safe_step.
  eapply safe_bind; [apply safe_revalidate_session|intros s Hs]. eapply safe_bind; [apply safe_require_ready|intros _ _].
  eapply safe_bind; [eauto with safe|intros routed _]. eapply safe_bind; [apply safe_deadline|intros _ _]. apply mild_ret.
  bool_prop. by split_and!.
Qed.

(** ** The token of a publication *)

Definition holding (w : world) (p : WritePublication) (g : stage) : Prop := holds (w_own w) p g.

Lemma holding_all w p g : good w -> holding w p g -> holds (w_own w ∪ w_others w) p g.
Proof. intros _ Hh. by apply lookup_union_Some_l. Qed.

(** The steps that set or drop the token of a publication. *)
Lemma after_pin w n k sv :
  good w -> (exists k', w_own w !! inl n = Some k') \/ w_others w !! inl n = None ->
  sound limits (<[inl n := k]> (w_own w ∪ w_others w)) (w_used w) (w_watch w) sv ->
  after w (mk_world (<[inl n := k]> (w_own w)) (w_others w) (w_used w) (w_watch w) sv) sv.
Proof.
  intros [Hd _] Hn Hs. split_and!; try done. split; simpl.
  - apply map_disjoint_insert_l_2; [|done]. destruct Hn as [[k' Hk]|?]; [|done]. by eapply map_disjoint_Some_l.
  - by rewrite <- insert_union_l.
Qed.

Lemma after_unpin w n k sv :
  good w -> w_own w !! inl n = Some k -> sound limits (delete (inl n) (w_own w ∪ w_others w)) (w_used w) (w_watch w) sv ->
  after w (mk_world (delete (inl n) (w_own w)) (w_others w) (w_used w) (w_watch w) sv) sv.
Proof.
  intros [Hd _] Hn Hs. split_and!; try done. split; simpl; [by apply map_disjoint_delete_l|].
  rewrite delete_union, (delete_id (w_others w)) in Hs; [done|]. by eapply map_disjoint_Some_l.
Qed.

Lemma good_abandoned w : good w -> abandoned w.
Proof. intros Hg. exists w. by split_and!. Qed.

Lemma drop_pin w p :
  good w -> holding w p Held -> wp_submitted p = false -> exists w', after w w' (abandon p (w_sv w)).
Proof.
  intros Hg Hh Hs. eexists. eapply after_unpin; [done|exact Hh|]. unfold abandon, release. simpl.
  apply sound_drop_publication; [apply Hg|by apply holding_all|done].
Qed.

(** A request that holds a publication while it checks. *)
Lemma wp_guarded_pin {A} p (body : fs A) Φ Q w :
  good w -> holding w p Held -> wp_submitted p = false -> safe body Φ -> (forall f w', good w' -> Q (Err f) w') ->
  (forall a w', good w' -> holding w' p Held -> Φ a -> Q (Ok a) w') -> wp abandoned (guarded (abandon p) body) Q w.
Proof.
  intros Hg Hh Hs Hb Herr Hok. apply wp_guarded; [done|]. apply Hb; [done| |].
  - intros w' Hsub Hg'. apply (drop_pin w' p); [done|by eapply lookup_weaken|done].
  - intros r w' Ho Hg' Hr. assert (holding w' p Held) as Hh' by (unfold holding; by rewrite Ho).
    destruct r as [a|f|]; [by apply Hok| |done]. destruct (drop_pin w' p Hg' Hh' Hs) as (w2 & Ha). exists w2. split; [done|]. by apply Herr, Ha.
Qed.

Lemma safe_begin_publication_failure {A} ctx err Φ : safe (begin_publication_failure (A := A) ctx err) Φ.
Proof. unfold begin_publication_failure, failure_from_error. safe_steps. Qed.

Lemma wp_begin_write_publication ctx id e mode Q w :
  good w -> (forall f w', good w' -> Q (Err f) w') ->
  (forall p w', good w' -> holding w' p Held -> wp_submitted p = false -> ws_inode_id (wp_session p) = id ->
     ws_lease_epoch (wp_session p) = e -> publish_mode_for_session (wp_session p) = mode -> Q (Ok p) w') ->
  wp abandoned (begin_write_publication ctx id e mode) Q w.
Proof.
  intros Hg Herr Hok. unfold begin_write_publication. apply wp_fs_bind; [done|]. apply wp_lift; [done|].
  destruct (sound_begin_publication _ _ _ _ _ id e Hlimits (proj2 Hg)) as (st & res & E & Hres).
  assert (res <> Panic) as Hnp by (intros ->; by apply begin_publication_res in E).
  destruct res as [p|err|]; [| |done].
  - destruct Hres as (Hn & Hsub & Hid & Hep & Hs). apply lookup_union_None in Hn as [Ho Hf].
    pose proof (after_pin _ _ _ _ Hg (or_intror Hf) Hs) as Ha. eapply wp_registry; [exact E|exact Ha|]. destruct Ha as (_ & _ & _ & Hg1). intros _.
    eapply (wp_guarded_pin _ _ (fun q => q = p /\ publish_mode_for_session (wp_session p) = mode)); [done|apply lookup_insert_eq|done| |done|].
    + safe_step; [safe_steps|]. apply mild_ret. bool_prop. by split.
    + intros q w' Hg' Hh [-> Hm]. by apply Hok.
  - pose proof (good_own _ _ _ _ Hg Hres) as Ha. eapply wp_registry; [exact E|exact Ha|]. intros _.
    eapply (safe_begin_publication_failure _ _ (fun _ => False)); [apply Ha|intros; by apply good_abandoned|].
    intros [a|f|] w' _ Hg' Hr; [done|by apply Herr|done].
Qed.

(** ** The task of a publication *)

Lemma wp_complete_commit {A} p (k : prog A) C Q w :
  good w -> fenced (sv_store (w_sv w)) (ws_inode_id (wp_session p)) (ws_lease_epoch (wp_session p)) ->
  (forall w', good w' -> wp C k Q w') ->
  wp C (_ ← registry (fun st _ => st ← publication_complete_commit st p; Ok (st, tt)); k) Q w.
Proof.
  intros Hg Hf HQ. apply wp_bind; [done|]. destruct (sound_complete_commit _ _ _ _ _ p Hlimits (proj2 Hg) Hf) as (st & E & Hs).
  pose proof (good_own _ _ _ _ Hg Hs) as Ha. eapply (wp_registry _ _ _ _ _ st); [by rewrite E|exact Ha|]. intros Hg'. by apply HQ.
Qed.

Lemma answer_committed a s : write_outcome a = Ok s -> a = CW_Committed (Ok s).
Proof. destruct a as [[]|[]| |]; try done. intros [= ->]. done. Qed.

(** The fence after a publication without a usable answer. *)
Lemma wp_fence {A} p now (error : MetadataError) Q w :
  let id := ws_inode_id (wp_session p) in
  let e := ws_lease_epoch (wp_session p) in
  good w -> lease_checked_next e <> None -> (forall w', good w' -> Q (Err error) w') ->
  wp abandoned (fenced ← propose_write_command command_len (EndWriteLease now id e);
      match fenced with
      | Ok (WriteLeaseEnded returned ended) =>
          if bool_decide (returned = id) && at_least ended (lease_checked_next e)
          then
            _ ← registry (fun st _ => st ← publication_complete_commit st p; Ok (st, tt));
            Return (Err error)
          else Return (Err error)
      | _ => Return (A := MetadataResult A) (Err error)
      end) Q w.
Proof.
  intros id e Hg Hnext HQ. apply wp_bind; [done|]. apply wp_propose; [done|intros err _; by apply HQ|]. eexists. split.
  { apply good_own; [done|]. apply sound_submit; [apply Hg|done]. }
  intros w2 Ho Hg2. split; [by apply good_abandoned|]. intros a Ha _. destruct (write_outcome a) as [s| |] eqn:Hw; [|by apply HQ..].
  destruct s; try by apply HQ. destruct (_ && _) eqn:Hb; [|by apply HQ]. apply andb_true_iff in Hb as [Hid Hat]. bool_prop. subst.
  apply wp_complete_commit; [done| |intros w' Hg'; by apply HQ]. apply answer_committed in Hw as ->. fold id e.
  pose proof (bk_ended _ _ _ _ (sd_backed _ _ _ _ _ (proj2 Hg2)) _ _ _ Ha) as Hr. eapply reached_weaken; [exact Hr|].
  destruct (lease_checked_next e) as [e'|] eqn:He; [|done]. apply checked_add64_Some in He as [-> _]. unfold at_least in Hat. lia.
Qed.

Lemma wp_publication_task c id pub size closes p now Q w :
  publication_of c = Some (id, pub) -> publication_facts c = Some (id, fp_lease_epoch pub, size, closes) -> good w -> holding w p Marked ->
  wp_submitted p = true -> ws_inode_id (wp_session p) = id -> carries (pin_of (wp_session p) Marked) pub ->
  lease_checked_next (ws_lease_epoch (wp_session p)) <> None -> (forall r w', good w' -> r <> Panic -> Q r w') ->
  wp abandoned (publication_task command_len c (EndWriteLease now id (fp_lease_epoch pub)) id (lease_checked_next (fp_lease_epoch pub))
    size closes p) Q w.
Proof.
  intros Hc Hfacts Hg Hh Hsub <- Hcar Hnext HQ. pose proof Hcar as [He _]. cbn [pin_of pn_epoch] in He. rewrite <- He in *. unfold publication_task.
  apply wp_bind; [done|]. apply wp_propose; [done| |].
  { intros err _. apply wp_fence; [done|done|intros w' Hg'; by apply HQ]. }
  pose proof (holding_all _ _ _ Hg Hh) as Hall. set (t := sv_next_ticket (w_sv w)) in *.
  pose proof (sound_submit_publication _ _ _ _ _ _ _ _ _ _ (proj2 Hg) Hall eq_refl Hc eq_refl Hcar) as Hs.
  eexists. split; [eapply after_pin; [done|left; by eexists|exact Hs]|]. intros w2 Ho Hg2. split; [by apply good_abandoned|].
  intros a Ha _. assert (holding w2 p (Proposed t)) as Hh2 by (unfold holding, holds; rewrite Ho; apply lookup_insert_eq).
  destruct (publication_answer _ _ _ (write_outcome a)) as [generation|error|] eqn:Hans.
  - assert (exists s, a = CW_Committed (Ok s) /\ (closes = true ->
      exists g e, s = FileCommitted (ws_inode_id (wp_session p)) g e /\ Some e = lease_checked_next (ws_lease_epoch (wp_session p)))) as (s & -> & Hcl).
    { unfold publication_answer in Hans. unbind Hans as s Hw. exists s. split; [by apply answer_committed|]. intros ->.
      destruct s; try done. destruct (_ && _) eqn:Hb; [|done]. bool_prop. subst. by eexists _, _. }
    destruct closes.
    + destruct Hcl as (g & e & -> & Hee); [done|]. symmetry in Hee. apply checked_add64_Some in Hee as [-> _].
      apply wp_complete_commit; [done| |intros w' Hg'; by apply HQ].
      by eapply (bk_committed _ _ _ _ (sd_backed _ _ _ _ _ (proj2 Hg2))).
    + apply wp_bind; [done|].
      destruct (sound_complete_sync _ _ _ _ _ p (Proposed t) generation size (proj2 Hg2) (holding_all _ _ _ Hg2 Hh2)) as (st & res & E & Hres & Hs').
      * by rewrite Hsub.
      * intros t' [= <-]. by apply (bk_answered _ _ _ _ (sd_backed _ _ _ _ _ (proj2 Hg2)) _ _ Ha).
      * pose proof (after_unpin _ _ _ _ Hg2 Hh2 Hs') as Hafter. eapply wp_registry; [exact E|exact Hafter|]. intros Hg3.
        apply HQ; [done|]. by destruct res.
  - apply wp_fence; [done|done|intros w' Hg'; by apply HQ].
  - exfalso. pose proof (answer_outcome _ _ _ _ Hg2 Ha) as Hnp. unfold publication_answer in Hans.
    destruct (write_outcome a) as [[]| |]; try done; cbn in Hans; by destruct (_ && _).
Qed.

Lemma wp_propose_file_publication c id pub size closes p Q w :
  publication_of c = Some (id, pub) -> publication_facts c = Some (id, fp_lease_epoch pub, size, closes) -> good w -> holding w p Held ->
  wp_submitted p = false -> ws_inode_id (wp_session p) = id -> carries (pin_of (wp_session p) Marked) pub ->
  (forall r w', good w' -> r <> Panic -> Q r w') -> wp abandoned (propose_file_publication command_len c p) Q w.
Proof.
  intros Hc Hfacts Hg Hh Hsub Hid Hcar HQ. unfold propose_file_publication. rewrite Hfacts. apply wp_bind; [done|].
  destruct (sound_mark_submitted _ _ _ _ _ p Hlimits (proj2 Hg) (holding_all _ _ _ Hg Hh) Hsub) as (st & res & E & Hres).
  destruct res as [q|message|].
  - destruct Hres as (-> & Hnext & Hs). assert (exists k, w_own w !! inl (wp_publication_id p) = Some k) as Hk by by eexists.
    pose proof (after_pin _ _ _ _ Hg (or_introl Hk) Hs) as Ha.
    eapply wp_registry; [exact E|exact Ha|]. intros Hg1. apply wp_bind; [done|]. apply wp_look; [done|]. intros _.
    apply wp_spawned. intros w' Ho Hg'. eapply wp_publication_task; try done. unfold holding, holds. rewrite Ho. apply lookup_insert_eq.
  - pose proof (good_own _ _ _ _ Hg Hres) as Ha. eapply wp_registry; [exact E|exact Ha|]. intros Hg1. apply wp_bind; [done|].
    destruct (drop_pin _ p Hg1 Hh Hsub) as (w2 & Ha2). eapply wp_call; [exact Ha2|]. intros Hg2. by apply HQ.
  - exfalso. by apply mark_submitted_res in E.
Qed.

(** ** The handlers *)

Lemma wp_safe {A} (m : fs A) Φ Q w :
  safe m Φ -> good w -> (forall f w', good w' -> Q (Err f) w') -> (forall a w', good w' -> Φ a -> Q (Ok a) w') -> wp abandoned m Q w.
Proof.
  intros Hm Hg Herr Hok. apply Hm; [done|intros; by apply good_abandoned|]. intros [a|f|] w' _ Hg' Hr; [by apply Hok|by apply Herr|done].
Qed.

Lemma wp_safe_end {A} (m : fs A) Φ Q w : safe m Φ -> good w -> (forall r w', good w' -> r <> Panic -> Q r w') -> wp abandoned m Q w.
Proof. intros Hm Hg HQ. eapply wp_safe; [done|done|intros; by apply HQ..]. Qed.

Lemma safe_active_publish_session ctx id e : safe (active_publish_session ctx id e) (fun _ => True).
Proof. unfold active_publish_session. safe_steps. Qed.

Lemma wp_replay_sync ctx id e intent freshness generation session mount now_generation Q w :
  good w -> (forall r w', good w' -> r <> Panic -> Q r w') ->
  wp abandoned (replay_sync ctx id e intent freshness generation session mount now_generation) Q w.
Proof.
  intros Hg HQ. unfold replay_sync. destruct session as [s|].
  - apply wp_fs_bind; [done|]. apply wp_begin_write_publication; [done|intros; by apply HQ|].
    intros p w1 Hg1 Hh Hsub Hid He _ _. apply wp_fs_bind; [done|].
    eapply (wp_guarded_pin _ _ (fun _ => True)); [done|done|done| |intros; by apply HQ|].
    + safe_step; [safe_steps|apply safe_epochs].
    + intros [[group epoch] route] w2 Hg2 Hh2 _ _. apply wp_fs_bind; [done|]. apply wp_lift; [done|].
      destruct (sound_complete_sync _ _ _ _ _ p Held now_generation (ci_final_size intent) (proj2 Hg2) (holding_all _ _ _ Hg2 Hh2)) as (st & res & E & Hres & Hs');
        [done|done|].
      pose proof (after_unpin _ _ _ _ Hg2 Hh2 Hs') as Ha. eapply wp_registry; [exact E|exact Ha|]. intros Hg3.
      apply wp_fs_bind; [done|]. apply wp_or_fail; [by destruct res|intros; by apply HQ|]. intros x _ _. by eapply wp_safe_end; [apply safe_success|..].
  - apply wp_fs_bind; [done|]. apply wp_epochs; [done|]. intros [[[group epoch] route]|f|] Hr; [intros _|intros _; by apply HQ|done].
    by eapply wp_safe_end; [apply safe_success|..].
Qed.

(** A checked publication in the mode of its session. *)
Lemma checked_carries p e intent r size generation expected mode :
  checked p e intent r -> publish_mode_for_session (wp_session p) = mode ->
  carries (pin_of (wp_session p) Marked) (mk_FilePublication (r.1.1.2) size generation expected e mode).
Proof.
  intros (_ & -> & Hb) <-. split; [done|]. split; [|by destruct (ws_mode (wp_session p))]. by apply validated_blocks_issued in Hb as [_ ?].
Qed.

Lemma wp_sync_session ctx handle intent freshness generation mode Q w :
  good w -> (forall r w', good w' -> r <> Panic -> Q r w') ->
  wp abandoned (sync_write_session command_len heartbeat ctx handle intent freshness generation mode) Q w.
Proof.
  intros Hg HQ. unfold sync_write_session. apply wp_fs_bind; [done|].
  eapply wp_safe; [apply safe_active_publish_session|done|intros; by apply HQ|]. intros session w1 Hg1 _ _.
  apply wp_fs_bind; [done|]. apply wp_lift; [done|]. apply wp_look; [done|]. intros _.
  apply wp_fs_bind; [done|]. apply wp_or_fail; [apply np_resolve_synced|intros; by apply HQ|]. intros [[mount now_generation]|] _ _; [by apply wp_replay_sync|].
  destruct session as [s|]; [|by apply HQ]. apply wp_fs_bind; [done|]. apply wp_begin_write_publication; [done|intros; by apply HQ|].
  intros p w2 Hg2 Hh Hsub Hid He Hmode _. apply wp_fs_bind; [done|].
  eapply (wp_guarded_pin _ _ (checked p (wh_lease_epoch handle) intent)); [done|done|done|apply safe_ready_publication|intros; by apply HQ|].
  intros [[[s' blocks] routed] route] w3 Hg3 Hh3 Hck _. apply wp_fs_bind; [done|]. apply wp_lift; [done|]. apply wp_look; [done|]. intros _.
  apply wp_fs_bind; [done|]. apply wp_lift; [done|].
  eapply wp_propose_file_publication; [done|done|done|done|done|symmetry; apply Hck|exact (checked_carries _ _ _ _ _ _ _ _ Hck Hmode)|]. intros r w4 Hg4 Hr _.
  apply wp_fs_bind; [done|]. apply wp_or_fail; [done|intros; by apply HQ|]. intros x _ _. by eapply wp_safe_end; [apply safe_success|..].
Qed.

Lemma wp_sync_write ctx args Q w :
  good w -> (forall r w', good w' -> r <> Panic -> Q r w') -> wp abandoned (sync_write command_len heartbeat ctx args) Q w.
Proof.
  intros Hg HQ. unfold sync_write. apply wp_fs_bind; [done|]. eapply wp_safe; [apply safe_session_admission|done|intros; by apply HQ|].
  intros _ w1 Hg1 _ _. apply wp_fs_bind; [done|]. apply wp_or_fail; [no_panic|intros; by apply HQ|]. intros _ _ _. by apply wp_sync_session.
Qed.

(** A receipt shows that the epoch of the payload has ended. *)
Lemma wp_completed_commit ctx id payload Q w :
  good w -> (forall e w', good w' -> Q (Err e) w') -> (forall w', good w' -> Q (Ok None) w') ->
  (forall mount w', good w' -> fenced (sv_store (w_sv w')) id (fp_lease_epoch payload) -> Q (Ok (Some mount)) w') ->
  wp abandoned (completed_commit ctx id payload) Q w.
Proof.
  intros Hg Herr Hnone Hsome. unfold completed_commit. apply wp_meta_bind; [done|]. apply wp_ask; [done|].
  eapply wp_mild; [apply mild_barrier|done|intros; by apply good_abandoned|]. intros b w1 _ Hg1 Hb _.
  apply wp_meta_bind; [done|]. destruct b as [u|e|]; [intros _|intros _; by apply Herr|done].
  apply wp_meta_bind; [done|]. apply wp_ask; [done|]. apply wp_look; [done|]. intros _.
  apply wp_meta_bind; [done|]. pose proof (np_read_inode (w_sv w1) id) as Hnp.
  destruct (read_inode (w_sv w1) id) as [found|e|] eqn:Hread; [intros _|intros _; by apply Herr|done].
  apply wp_meta_bind; [done|]. destruct found as [inode|]; [intros _|intros _; by apply Herr].
  apply wp_meta_bind; [done|]. destruct (bool_decide _); [intros _; by apply Herr|intros _].
  apply wp_meta_bind; [done|]. pose proof (np_resolve_commit payload inode (rq_client_id (rc_caller ctx)) (rq_call_id (rc_caller ctx))) as Hnp2.
  destruct (resolve_commit _ _ _ _) as [[g|]|e|] eqn:Hres; [intros _|intros _; by apply Hnone|intros _; by apply Herr|done].
  apply Hsome; [done|]. unfold read_inode, stored in Hread. destruct (sv_read_error (w_sv w1)); [done|]. injection Hread as Hread.
  destruct (inode_kind inode) as [f|] eqn:Hk; [|unfold resolve_commit, inode_file in Hres; by rewrite Hk in Hres].
  eapply reached_file; [apply (bk_store _ _ _ _ (sd_backed _ _ _ _ _ (proj2 Hg1)))|exact Hread|exact Hk|]. by eapply resolve_commit_reached.
Qed.

Lemma wp_close_session ctx handle intent freshness generation mode Q w :
  good w -> (forall r w', good w' -> r <> Panic -> Q r w') ->
  wp abandoned (close_write_session command_len heartbeat ctx handle intent freshness generation mode) Q w.
Proof.
  intros Hg HQ. unfold close_write_session. apply wp_fs_bind; [done|]. apply wp_lift; [done|].
  apply wp_completed_commit; [done| | |].
  - intros e w1 Hg1 _. apply wp_fs_bind; [done|]. apply wp_failure. intros f _. by apply HQ.
  - intros w1 Hg1 _. apply wp_fs_bind; [done|]. intros _. apply wp_fs_bind; [done|].
    eapply wp_safe; [apply safe_active_publish_session|done|intros; by apply HQ|]. intros [s|] w2 Hg2 _ _; [|by apply HQ].
    apply wp_fs_bind; [done|]. apply wp_begin_write_publication; [done|intros; by apply HQ|].
    intros p w3 Hg3 Hh Hsub Hid He Hmode _. apply wp_fs_bind; [done|].
    eapply (wp_guarded_pin _ _ (checked p (wh_lease_epoch handle) intent)); [done|done|done|apply safe_ready_publication|intros; by apply HQ|].
    intros [[[s' blocks] routed] route] w4 Hg4 Hh4 Hck _. apply wp_fs_bind; [done|]. apply wp_lift; [done|]. apply wp_look; [done|]. intros _.
    apply wp_fs_bind; [done|]. apply wp_lift; [done|].
    eapply wp_propose_file_publication; [done|done|done|done|done|done|exact (checked_carries _ _ _ _ _ _ _ _ Hck Hmode)|]. intros r w5 Hg5 Hr _.
    apply wp_fs_bind; [done|]. apply wp_or_fail; [done|intros; by apply HQ|]. intros x _ _. by eapply wp_safe_end; [apply safe_success|..].
  - intros mount w1 Hg1 Hf _. apply wp_fs_bind; [done|]. intros _. apply wp_fs_bind; [done|]. apply wp_epochs; [done|].
    intros [[[group epoch] route]|f|] Hr; [intros _|intros _; by apply HQ|done]. apply wp_fs_bind; [done|]. apply wp_lift; [done|].
    apply wp_remove_session; [done|done|done|]. intros r w2 _ Hg2 _. by eapply wp_safe_end; [apply safe_success|..].
Qed.

Lemma wp_commit_file ctx args Q w :
  good w -> (forall r w', good w' -> r <> Panic -> Q r w') -> wp abandoned (commit_file command_len heartbeat ctx args) Q w.
Proof.
  intros Hg HQ. unfold commit_file. apply wp_fs_bind; [done|]. eapply wp_safe; [apply safe_session_admission|done|intros; by apply HQ|].
  intros _ w1 Hg1 _ _. apply wp_fs_bind; [done|]. apply wp_or_fail; [no_panic|intros; by apply HQ|]. intros _ _ _. by apply wp_close_session.
Qed.
End publish.
