(* ===== verification/ServiceSystem.v ===== *)
(** * The filesystem service as a system

    The metadata process while it leads: requests arrive, run from one await to the
    next, are abandoned by their callers or finish; the log applies their
    proposals, refuses or loses them; other commands are applied; expired sessions
    are retired; cleanup looks for sessions; clocks, mounts, workers and leadership
    change. [perform] executes one such event, [follows] is any number of them. *)

From S2P Require Import Prelude Types Errors Inode Mount Store Namespace Tree NamespaceInv.
From S2P Require Import WriteApply Reclaim Apply NoPanic Reach Fencing Session SessionInv SessionProps SessionSystem SessionFrame.
From S2P Require Import PathResolver Placement Workers Maintenance Cleanup CleanupProps Server.
From S2P Require Import Service ServiceRead ServiceWrite ServicePublish ServiceNamespace ServiceEffects.
From S2P Require Import Writers WritersEnv Safety ServiceSafe ServiceSafeWrite ServiceSafePublish.
Local Open Scope Z_scope.

(** ** Requests *)

Inductive Request :=
| GetStatus (ctx : RequestContext) (path : string) (freshness : Freshness)
| ListStatus (ctx : RequestContext) (path : string) (cursor : option Cursor) (max_entries : nat) (freshness : Freshness)
| OpenFile (ctx : RequestContext) (path : string) (freshness : Freshness)
| GetFileBlockLocations (ctx : RequestContext) (target : BlockLocationsTarget) (range : option FileRange) (freshness : Freshness)
| MakeDirectory (ctx : RequestContext) (path : string) (recursive : bool) (freshness : Freshness)
| RenamePath (ctx : RequestContext) (src_path dst_path : string) (flags : Z) (freshness : Freshness)
| DeletePath (ctx : RequestContext) (path : string) (recursive : bool) (freshness : Freshness)
| MakeFile (ctx : RequestContext) (path : string) (freshness : Freshness)
| OpenWrite (ctx : RequestContext) (path : string) (mode : WriteMode) (freshness : Freshness)
| NewBlock (ctx : RequestContext) (handle : WriteHandle) (previous : option BlockId) (freshness : Freshness)
| RenewLease (ctx : RequestContext) (handle : WriteHandle) (freshness : Freshness)
| AbortFileWrite (ctx : RequestContext) (handle : WriteHandle) (freshness : Freshness)
| AuthorizeBlockWrite (ctx : RequestContext) (args : AuthorizeBlockWriteArgs)
| SyncWrite (ctx : RequestContext) (args : PublishArgs)
| CloseFile (ctx : RequestContext) (args : PublishArgs).

(** A request that has been answered, whatever the answer; a panic is not one. *)
Definition answered_with {A} (m : fs A) : prog unit :=
  mbind (M := prog) (fun r => match r with Panic => Crash | _ => Return tt end) m.

(** ** Processes *)

Record Process := mk_Process {
  pr_server : Server;
  pr_tasks : gmap nat (prog unit)
}.

Inductive Event :=
| E_Request (task : nat) (request : Request)
| E_Resume (task : nat)
| E_Abandon (task : nat)
| E_Finish (task : nat)
| E_Apply (ticket : nat) (rs : RaftState)
| E_Refuse (ticket : nat) (answer : ClientWrite)
| E_Lose (ticket : nat)
| E_Command (command : Command) (rs : RaftState)
| E_Surroundings (now : Z) (read_error : option MetadataError) (mounts : MountTableState) (ready : bool) (node : RaftNode)
    (workers : WorkerManagerState) (instant : Z)
| E_Sweep
| E_Observe (id : InodeId).

Section system.
Variable command_len : Command -> option Z.
Variable limits : SessionLimits.
Variable heartbeat_timeout_ms : Z.
Variable default_layout : FileLayout.
Variable raft_state_len : RaftState -> Z.
Variable marker_len : DetachedRoot -> Z.

Definition serve (request : Request) : prog unit :=
  match request with
  | GetStatus ctx path freshness => answered_with (get_status ctx path freshness)
  | ListStatus ctx path cursor max_entries freshness => answered_with (list_status ctx path cursor max_entries freshness)
  | OpenFile ctx path freshness => answered_with (open_file heartbeat_timeout_ms ctx path freshness)
  | GetFileBlockLocations ctx target range freshness =>
      answered_with (get_file_block_locations heartbeat_timeout_ms ctx target range freshness)
  | MakeDirectory ctx path recursive freshness => answered_with (create_directory command_len ctx path recursive freshness)
  | RenamePath ctx src_path dst_path flags freshness => answered_with (rename command_len ctx src_path dst_path flags freshness)
  | DeletePath ctx path recursive freshness => answered_with (delete_path command_len ctx path recursive freshness)
  | MakeFile ctx path freshness => answered_with (create_file command_len limits default_layout ctx path freshness)
  | OpenWrite ctx path mode freshness => answered_with (open_write command_len limits heartbeat_timeout_ms ctx path mode freshness)
  | NewBlock ctx handle previous freshness =>
      answered_with (allocate_block command_len limits heartbeat_timeout_ms ctx handle previous freshness)
  | RenewLease ctx handle freshness => answered_with (renew_lease limits ctx handle freshness)
  | AbortFileWrite ctx handle freshness => answered_with (abort_file_write command_len ctx handle freshness)
  | AuthorizeBlockWrite ctx args => answered_with (authorize_block_write heartbeat_timeout_ms ctx args)
  | SyncWrite ctx args => answered_with (sync_write command_len heartbeat_timeout_ms ctx args)
  | CloseFile ctx args => answered_with (commit_file command_len heartbeat_timeout_ms ctx args)
  end.

Definition with_task (y : Process) (i : nat) (next : prog unit * Server) : Process :=
  mk_Process next.2 (<[i := next.1]> (pr_tasks y)).
Definition with_server (y : Process) (sv : Server) : Process := mk_Process sv (pr_tasks y).

Definition perform (e : Event) (y : Process) : option Process :=
  let sv := pr_server y in
  match e with
  | E_Request i request =>
      match pr_tasks y !! i with Some _ => None | None => Some (with_task y i (settle (serve request) sv)) end
  | E_Resume i =>
      p ← pr_tasks y !! i;
      next ← resume p sv;
      Some (with_task y i next)
  | E_Abandon i =>
      match pr_tasks y !! i with
      | Some (Step (Await (Some cancel)) _) => Some (mk_Process (cancel sv) (delete i (pr_tasks y)))
      | _ => None
      end
  | E_Finish i =>
      match pr_tasks y !! i with Some (Return _) => Some (mk_Process sv (delete i (pr_tasks y))) | _ => None end
  | E_Apply t rs =>
      command ← sv_proposals sv !! t;
      match apply_committed raft_state_len marker_len (sv_store sv) command rs with
      | Ok (s, out) => Some (with_server y (deliver t (CW_Committed (ca_response out)) (with_store sv s)))
      | _ => None
      end
  | E_Refuse t answer =>
      match answer with
      | CW_Committed _ => None
      | _ => if (t <? sv_next_ticket sv)%nat then Some (with_server y (refuse t answer sv)) else None
      end
  | E_Lose t => Some (with_server y (lose t sv))
  | E_Command command rs =>
      match publication_of command, apply_committed raft_state_len marker_len (sv_store sv) command rs with
      | None, Ok (s, _) => Some (with_server y (with_store sv s))
      | _, _ => None
      end
  | E_Surroundings now read_error mounts ready node workers instant =>
      if (sv_now_ms sv <=? now) && (now <? u64_max)
      then Some (with_server y (surroundings sv now read_error mounts ready node workers instant))
      else None
  | E_Sweep =>
      match retire_expired_batch (sv_registry sv) (sv_now_ms sv) with
      | Ok (st, _) => Some (with_server y (with_registry sv st))
      | _ => None
      end
  | E_Observe id =>
      match get_session_identity (sv_registry sv) id (sv_now_ms sv) with
      | Ok (st, _) => Some (with_server y (with_registry sv st))
      | _ => None
      end
  end.

(** What the proposers of commands guarantee where they are applied. *)
Definition allowed (e : Event) (y : Process) : Prop :=
  match e with
  | E_Apply t _ => forall c, sv_proposals (pr_server y) !! t = Some c -> admissible (sv_store (pr_server y)) c
  | E_Command c _ => admissible (sv_store (pr_server y)) c
  | _ => True
  end.

Definition follows_one (y y' : Process) : Prop := exists e, allowed e y /\ perform e y = Some y'.
Definition follows : Process -> Process -> Prop := rtc follows_one.

(** A process that takes over: the database any history of commands left, no
    sessions, no requests. *)
Record booted (y : Process) : Prop := {
  bo_store : reachable raft_state_len marker_len admissible (sv_store (pr_server y));
  bo_clock : 0 <= sv_now_ms (pr_server y) < u64_max;
  bo_registry : sv_registry (pr_server y) = registry_default;
  bo_proposals : sv_proposals (pr_server y) = ∅;
  bo_answers : sv_answers (pr_server y) = ∅;
  bo_tasks : pr_tasks y = ∅
}.

Definition running (y : Process) : Prop := exists y0, booted y0 /\ follows y0 y.

(** A finite run, event by event. *)
Fixpoint run_events (events : list Event) (y : Process) : option Process :=
  match events with
  | [] => Some y
  | e :: rest => y' ← perform e y; run_events rest y'
  end.
End system.

(** ** Tokens of the tasks *)

Section tokens.
Implicit Types (H : tokens) (owner : Z + nat -> option nat).

Definition own owner (i : nat) H : tokens := filter (fun kv => owner kv.1 = Some i) H.
Definition unowned owner (i : nat) H : tokens := filter (fun kv => ~ owner kv.1 = Some i) H.

Lemma own_unowned owner i H : own owner i H ##ₘ unowned owner i H /\ own owner i H ∪ unowned owner i H = H.
Proof. split; [apply map_disjoint_filter_complement|apply map_filter_union_complement]. Qed.

Lemma lookup_own owner i H k t : own owner i H !! k = Some t <-> H !! k = Some t /\ owner k = Some i.
Proof. apply map_lookup_filter_Some. Qed.
Lemma lookup_unowned owner i H k t : unowned owner i H !! k = Some t <-> H !! k = Some t /\ ~ owner k = Some i.
Proof. apply map_lookup_filter_Some. Qed.

(** The tokens of one task change; the others keep theirs. *)
Lemma reassign owner i H (mine : tokens) :
  mine ##ₘ unowned owner i H ->
  exists owner', own owner' i (mine ∪ unowned owner i H) = mine /\
    forall j, j <> i -> own owner' j (mine ∪ unowned owner i H) = own owner j H.
Proof.
  intros Hd. exists (fun k => match mine !! k with Some _ => Some i | None => if decide (owner k = Some i) then None else owner k end).
  split; [|intros j Hj]; apply map_eq; intros k; apply option_eq; intros t;
    rewrite !lookup_own, lookup_union_Some, lookup_unowned by done; split.
  - intros [[?|[? Hn]] Ho]; [done|]. destruct (mine !! k) eqn:Hm; [|by case_decide].
    assert (unowned owner i H !! k = Some t) as Hu by by apply lookup_unowned.
    by rewrite (map_disjoint_Some_l _ _ _ _ Hd Hm) in Hu.
  - intros Hm. rewrite Hm. by split; [left|].
  - intros [[Hm|[Hk Hn]] Ho]; [rewrite Hm in Ho; congruence|]. split; [done|]. destruct (mine !! k); [congruence|]. by case_decide.
  - intros [Hk Ho]. assert (unowned owner i H !! k = Some t) as Hu by (apply lookup_unowned; split; [done|congruence]).
    rewrite (map_disjoint_Some_r _ _ _ _ Hd Hu). split; [right; split; [done|congruence]|]. rewrite decide_False; [done|congruence].
Qed.
End tokens.

(** ** The invariant of the process *)

Section secure.
Context (command_len : Command -> option Z) (limits : SessionLimits) (heartbeat : Z) (layout : FileLayout).
Context (raft_state_len : RaftState -> Z) (marker_len : DetachedRoot -> Z).
Context (Hlimits : limits_ok limits = true) (Hmax : max_write_targets limits <= u64_max).
Context (raft_state_len_nonneg : forall rs, 0 <= raft_state_len rs) (marker_len_nonneg : forall d, 0 <= marker_len d).
Notation good := (good limits).
Notation after := (after limits).
Notation wp := (wp limits (abandoned limits)).
Notation serve := (serve command_len limits heartbeat layout).
Notation perform := (perform command_len limits heartbeat layout raft_state_len marker_len).

(** A task stands at an await, with the tokens that make it safe to go on or to give
    up, or it is done. *)
Definition standing (mine : tokens) (p : prog unit) : Prop :=
  match p with
  | Return _ => True
  | Step (Await _) _ => forall w, w_own w = mine -> wp p (fun _ _ => True) w
  | _ => False
  end.

Definition secure W (y : Process) : Prop :=
  exists H U owner, sound limits H U W (pr_server y) /\
    forall i p, pr_tasks y !! i = Some p -> standing (own owner i H) p /\ keeps p.

Lemma after_trans w w1 w2 sv1 sv2 : after w w1 sv1 -> after w1 w2 sv2 -> after w w2 sv2.
Proof. intros (? & ? & ? & ?) (? & ? & ? & ?). split_and!; congruence || done. Qed.

Lemma wp_settle (p : prog unit) : forall w, good w -> wp p (fun _ _ => True) w ->
  exists w', after w w' (settle p (w_sv w)).2 /\ standing (w_own w') (settle p (w_sv w)).1.
Proof.
  induction p as [a| |k run IH] using @prog_ind'; intros w Hg Hp; [by exists w|done|]. destruct k as [|cancel].
  - simpl in *. destruct (run (w_sv w)) as [[p' sv']|] eqn:E; [|done]. destruct Hp as (w1 & Ha & Hp).
    destruct (IH _ _ _ E w1) as (w2 & Ha2 & Hst); [apply Ha|done|]. destruct Ha as (Ho & Hw & <- & Hg1). exists w2. split; [|done].
    by eapply after_trans.
  - exists w. split; [by split_and!|]. simpl. intros w' Ho. simpl in Hp. intros w1 Ho1 Hg1. apply Hp; [congruence|done].
Qed.

Definition world_of (owner : Z + nat -> option nat) (i : nat) (H : tokens) U W (sv : Server) : world :=
  mk_world (own owner i H) (unowned owner i H) U W sv.

Lemma good_world owner i H U W sv : sound limits H U W sv -> good (world_of owner i H U W sv).
Proof. intros Hs. destruct (own_unowned owner i H) as [Hd Hu]. split; [done|]. simpl. by rewrite Hu. Qed.

(** One task moves. *)
Lemma secure_move W y H U owner i w' sv' (tasks : gmap nat (prog unit)) :
  (forall j p, pr_tasks y !! j = Some p -> standing (own owner j H) p /\ keeps p) ->
  after (world_of owner i H U W (pr_server y)) w' sv' ->
  (forall j p, tasks !! j = Some p -> j <> i /\ pr_tasks y !! j = Some p \/ j = i /\ standing (w_own w') p /\ keeps p) ->
  secure W (mk_Process sv' tasks).
Proof.
  intros Hts (Ho & Hw & Hsv & Hd & Hs) Htasks. simpl in Ho, Hw. rewrite Ho in Hd, Hs. destruct (reassign owner i H _ Hd) as (owner' & Hi & Hj).
  exists (w_own w' ∪ unowned owner i H), (w_used w'), owner'. split; [by rewrite <- Hw, <- Hsv|].
  intros j p Hp. destruct (Htasks j p Hp) as [[Hne Hold]|(-> & Hst & Hk)]; [rewrite Hj by done; by apply Hts|by rewrite Hi].
Qed.

(** ** Requests are safe *)

Create HintDb serve discriminated.
#[local] Hint Constants Opaque : serve.

Lemma answered_safe {A} (m : fs A) Φ w : mild limits m (fine Φ) -> good w -> wp (answered_with m) (fun _ _ => True) w.
Proof.
  intros Hm Hg. apply wp_bind; [done|]. eapply wp_mild; [exact Hm|done|intros; by apply good_abandoned|]. by intros [] w' _ _ Hr.
Qed.

Lemma answered_wp {A} (m : fs A) w :
  good w -> (forall (Q : result FsFailure A -> world -> Prop), (forall r w', good w' -> r <> Panic -> Q r w') -> wp m Q w) ->
  wp (answered_with m) (fun _ _ => True) w.
Proof. intros Hg Hm. apply wp_bind; [done|]. apply Hm. by intros [] w' _ Hr. Qed.

Lemma keeps_answered {A} (m : fs A) : keeps m -> keeps (answered_with m).
Proof. intros Hm. apply keeps_bind; [done|]. by intros []. Qed.

#[local] Hint Resolve safe_get_status safe_list_status safe_open_file safe_block_locations safe_create_directory safe_rename
  safe_delete_path safe_create_file safe_open_write safe_allocate_block safe_renew safe_abort safe_authorize : serve.
#[local] Hint Resolve keeps_get_status keeps_list_status keeps_open_file keeps_block_locations keeps_create_directory keeps_rename
  keeps_delete_path keeps_create_file keeps_open_write keeps_allocate keeps_renew keeps_abort keeps_authorize keeps_sync keeps_commit : serve.

Lemma serve_safe r w : good w -> wp (serve r) (fun _ _ => True) w.
Proof.
  intros Hg. destruct r; cbn [serve]; try (eapply answered_safe; [solve [eauto 2 with serve nocore]|done]).
  - apply answered_wp; [done|]. intros Q HQ. by apply wp_sync_write.
  - apply answered_wp; [done|]. intros Q HQ. by apply wp_commit_file.
Qed.

Lemma keeps_serve r : keeps (serve r).
Proof. destruct r; apply keeps_answered; auto with serve. Qed.

(** ** Every event keeps the invariant *)

Lemma secure_server W y sv' :
  (forall H U, sound limits H U W (pr_server y) -> sound limits H U W sv') -> secure W y -> secure W (with_server y sv').
Proof. intros Hsv (H & U & owner & Hs & Ht). exists H, U, owner. split; [by apply Hsv|done]. Qed.

Lemma secure_request W y i r :
  secure W y -> pr_tasks y !! i = None -> secure W (with_task y i (settle (serve r) (pr_server y))).
Proof.
  intros (H & U & owner & Hs & Ht) Hi. set (w := world_of owner i H U W (pr_server y)).
  pose proof (good_world owner i H U W _ Hs) as Hg. destruct (wp_settle (serve r) w Hg (serve_safe r w Hg)) as (w' & Ha & Hst).
  destruct (keeps_settle (serve r) (pr_server y) (keeps_serve r)) as [Hk _].
  eapply secure_move; [exact Ht|exact Ha|]. intros j p [[<- <-]|[? ?]]%lookup_insert_Some; [by right|by left].
Qed.

Lemma secure_resume W y i p next :
  secure W y -> pr_tasks y !! i = Some p -> resume p (pr_server y) = Some next -> secure W (with_task y i next).
Proof.
  intros (H & U & owner & Hs & Ht) Hi Hres. destruct next as [p' sv']. destruct (Ht i p Hi) as [Hst Hk].
  destruct (keeps_resume _ _ _ _ Hk Hres) as [Hk' _]. destruct p as [a| |[|cancel] run]; try done. simpl in Hres.
  set (w := world_of owner i H U W (pr_server y)). pose proof (good_world owner i H U W _ Hs) as Hg.
  destruct (Hst w eq_refl w eq_refl Hg) as [_ Hrun]. simpl in Hrun. destruct (run (pr_server y)) as [[q sv1]|]; [|done].
  injection Hres as Hres. destruct Hrun as (w1 & Ha & Hq). destruct (wp_settle q w1) as (w2 & Ha2 & Hst2); [apply Ha|done|].
  pose proof Ha as (_ & _ & Hsv & _). rewrite Hsv, Hres in Ha2, Hst2.
  eapply secure_move; [exact Ht|by eapply after_trans|]. intros j p [[<- <-]|[? ?]]%lookup_insert_Some; [by right|by left].
Qed.

Lemma secure_abandon W y i cancel run :
  secure W y -> pr_tasks y !! i = Some (Step (Await (Some cancel)) run) ->
  secure W (mk_Process (cancel (pr_server y)) (delete i (pr_tasks y))).
Proof.
  intros (H & U & owner & Hs & Ht) Hi. destruct (Ht i _ Hi) as [Hst _].
  set (w := world_of owner i H U W (pr_server y)). pose proof (good_world owner i H U W _ Hs) as Hg.
  destruct (Hst w eq_refl w eq_refl Hg) as [Hc _]. destruct (Hc cancel eq_refl) as (w' & Ha).
  eapply (secure_move W y H U owner i); [exact Ht|exact Ha|]. intros j p [? ?]%lookup_delete_Some. by left.
Qed.

Lemma secure_finish W y i : secure W y -> secure W (mk_Process (pr_server y) (delete i (pr_tasks y))).
Proof. intros (H & U & owner & Hs & Ht). exists H, U, owner. split; [done|]. simpl. intros j p [_ ?]%lookup_delete_Some. by apply Ht. Qed.

Lemma secure_apply W y t rs y' :
  secure W y -> allowed (E_Apply t rs) y -> perform (E_Apply t rs) y = Some y' -> secure W y'.
Proof.
  intros Hsec Hall Hp. apply bind_Some in Hp as (c & E & Hp).
  destruct (apply_committed _ _ _ _ _) as [[s out]| |] eqn:Ea; try done. injection Hp as <-. apply secure_server; [|done].
  intros H U Hs. eapply sound_commit; [exact raft_state_len_nonneg|exact marker_len_nonneg|done|done|by apply Hall|done].
Qed.

Lemma secure_refuse W y t a y' : secure W y -> perform (E_Refuse t a) y = Some y' -> secure W y'.
Proof.
  intros Hsec Hp. cbn [perform] in Hp.
  destruct a as [r| | |]; [done|..]; (destruct (Nat.ltb_spec t (sv_next_ticket (pr_server y))) as [Hlt|]; [|done]); injection Hp as <-;
    (apply secure_server; [|done]); intros H U Hs; by apply sound_refuse.
Qed.

Lemma secure_command W y c rs y' :
  secure W y -> allowed (E_Command c rs) y -> perform (E_Command c rs) y = Some y' -> secure W y'.
Proof.
  intros Hsec Hall Hp. cbn [perform] in Hp. destruct (publication_of c) eqn:E; [done|].
  destruct (apply_committed _ _ _ _ _) as [[s out]| |] eqn:Ea; try done. injection Hp as <-.
  apply secure_server; [|done]. intros H U Hs. eapply sound_background; [exact raft_state_len_nonneg|exact marker_len_nonneg|done|done|done|done].
Qed.

#[local] Opaque retire_expired_batch retire_expired_entries.

Lemma secure_sweep W y y' : secure W y -> perform E_Sweep y = Some y' -> secure W y'.
Proof.
  intros Hsec Hp. cbn [perform] in Hp.
  destruct (retire_expired_batch _ _) as [[st n]| |] eqn:E; try done. injection Hp as <-. apply secure_server; [|done]. intros H U Hs.
  destruct (sound_sweep _ _ _ _ _ Hs) as (st' & n' & E' & ?). rewrite E in E'. by injection E' as -> ->.
Qed.

Lemma secure_observe W y id y' : secure W y -> perform (E_Observe id) y = Some y' -> secure W y'.
Proof.
  intros Hsec Hp. cbn [perform] in Hp.
  destruct (get_session_identity _ _ _) as [[st n]| |] eqn:E; try done. injection Hp as <-. apply secure_server; [|done]. intros H U Hs.
  destruct (harmless_identity limits id _ _ _ _ Hs) as (st' & n' & E' & ? & _). rewrite E in E'. by injection E' as -> ->.
Qed.

Lemma secure_step W y e y' : secure W y -> allowed e y -> perform e y = Some y' -> secure W y'.
Proof.
  intros Hsec Hall Hp. destruct e.
  - cbn [perform] in Hp. destruct (pr_tasks y !! task) eqn:E; [done|]. injection Hp as <-. by apply secure_request.
  - apply bind_Some in Hp as (p & E & (next & Er & [= <-])%bind_Some). by eapply secure_resume.
  - cbn [perform] in Hp. destruct (pr_tasks y !! task) as [[| |[|[cancel|]] run]|] eqn:E; try done. injection Hp as <-. by eapply secure_abandon.
  - cbn [perform] in Hp. destruct (pr_tasks y !! task) as [[| |]|]; try done. injection Hp as <-. by apply secure_finish.
  - by eapply secure_apply.
  - by eapply secure_refuse.
  - injection Hp as <-. apply secure_server; [|done]. intros H U. apply sound_lose.
  - by eapply secure_command.
  - cbn [perform] in Hp. destruct (_ && _) eqn:E; [|done]. injection Hp as <-. bool_prop. apply secure_server; [|done].
    intros H' U Hs. apply sound_surroundings; [done|lia].
  - by eapply secure_sweep.
  - by eapply secure_observe.
Qed.

Notation follows := (follows command_len limits heartbeat layout raft_state_len marker_len).
Notation booted := (booted raft_state_len marker_len).
Notation running := (running command_len limits heartbeat layout raft_state_len marker_len).

Lemma secure_follows W y y' : secure W y -> follows y y' -> secure W y'.
Proof. intros Hs Hf. induction Hf as [|a b c (e & Hall & Hp) _ IH]; [done|]. apply IH. by eapply secure_step. Qed.

Lemma reachable_records s : reachable raft_state_len marker_len admissible s -> store_inv s /\ records_reached s.
Proof.
  induction 1 as [|s c rs s' out _ [Hs Hr] Hadm Ha].
  - split; [apply store_inv_empty|]. intros op r. simpl. by rewrite lookup_empty.
  - pose proof (committed_evolves _ _ raft_state_len_nonneg marker_len_nonneg _ _ _ _ _ Hs Hadm Ha) as Hev.
    split; [apply Hev|]. by eapply records_reached_step.
Qed.

Lemma secure_booted y : booted y -> secure ∅ y.
Proof.
  intros [Hst Hnow Hreg Hpr Han Ht]. destruct (reachable_records _ Hst). exists ∅, ∅, (fun _ => None).
  split; [by apply sound_init|]. rewrite Ht. intros i p. by rewrite lookup_empty.
Qed.

Lemma secure_running y : running y -> secure ∅ y.
Proof. intros (y0 & Hb & Hf). by eapply secure_follows; [apply secure_booted|]. Qed.
End secure.
