(* ===== verification/ServiceProps.v ===== *)
(** * What the filesystem service promises

    Theorems about every running process of ServiceSystem.v: no request panics or
    gets stuck; requests change metadata only through the log; a publication in the
    log belongs to the one session that is frozen for it; what changes the content
    of a file was issued to the session that holds its lease; and a block that
    cleanup decided to reclaim never becomes visible again. *)

From S2P Require Import Prelude Types Errors Inode Mount Store Namespace Tree NamespaceInv.
From S2P Require Import WriteApply Reclaim ReclaimProps Apply NoPanic Reach ApplyProps Samples Fencing.
From S2P Require Import Session SessionInv SessionProps SessionSystem SessionFrame.
From S2P Require Import PathResolver Placement Workers WorkersProps Maintenance Cleanup CleanupProps Server.
From S2P Require Import Service ServiceRead ServiceWrite ServicePublish ServiceNamespace ServiceEffects.
From S2P Require Import Writers WritersEnv Safety ServiceSafe ServiceSystem.
Local Open Scope Z_scope.

#[local] Opaque retire_expired_batch retire_expired_entries.

Section theorems.
Context (command_len : Command -> option Z) (limits : SessionLimits) (heartbeat : Z) (layout : FileLayout).
Context (raft_state_len : RaftState -> Z) (marker_len : DetachedRoot -> Z).
Context (Hlimits : limits_ok limits = true) (Hmax : max_write_targets limits <= u64_max).
Context (raft_state_len_nonneg : forall rs, 0 <= raft_state_len rs) (marker_len_nonneg : forall d, 0 <= marker_len d).
Notation perform := (perform command_len limits heartbeat layout raft_state_len marker_len).
Notation follows := (follows command_len limits heartbeat layout raft_state_len marker_len).
Notation running := (running command_len limits heartbeat layout raft_state_len marker_len).
Notation secure := (secure limits).

Lemma running_secure y : running y -> secure ∅ y.
Proof. by apply secure_running. Qed.
Lemma step_secure W y e y' : secure W y -> allowed e y -> perform e y = Some y' -> secure W y'.
Proof. by apply secure_step. Qed.
Lemma follows_secure W y y' : secure W y -> follows y y' -> secure W y'.
Proof. by apply secure_follows. Qed.

(** C7. A request of a running process never panics: each has been answered or
    waits at an await. Retiring expired sessions and looking up a session never
    panic either. *)
Theorem requests_never_panic y :
  running y ->
  (forall i p, pr_tasks y !! i = Some p -> p = Return tt \/ exists cancel run, p = Step (Await cancel) run) /\
  (exists st n, retire_expired_batch (sv_registry (pr_server y)) (sv_now_ms (pr_server y)) = Ok (st, n)) /\
  forall id, exists st found, get_session_identity (sv_registry (pr_server y)) id (sv_now_ms (pr_server y)) = Ok (st, found).
Proof.
  intros Hy. destruct (running_secure y Hy) as (H & U & owner & Hs & Ht). split_and!.
  - intros i p Hp. destruct (Ht i p Hp) as [Hst _]. destruct p as [[]| |[|cancel] run]; [by left|done|done|right; eauto].
  - destruct (sound_sweep _ _ _ _ _ Hs) as (st & n & E & _). eauto.
  - intros id. destruct (harmless_identity limits id _ _ _ _ Hs) as (st & found & E & _). eauto.
Qed.

(** The publication of an unfenced epoch in the log, with its session. *)
Lemma flight_pin H sv t c id pub :
  frozen limits H sv -> sv_proposals sv !! t = Some c -> publication_of c = Some (id, pub) ->
  fenced (sv_store sv) id (fp_lease_epoch pub) \/
  exists n p s, H !! inl n = Some (TPin p) /\ pn_stage p = Proposed t /\ carries p pub /\ writer sv id s /\
    ws_active_publication s = Some n /\ pinned p s.
Proof.
  intros Hfz Ht Hc. destruct (fz_flight _ _ _ Hfz _ _ _ _ Ht Hc) as [?|(n & p & Hn & Hst & <- & Hcar)]; [by left|].
  destruct (fz_marked _ _ _ Hfz n p Hn) as [Hf|(s & Hs & Ha)]; [by rewrite Hst|left; by rewrite <- (proj1 Hcar)|right].
  exists n, p, s. split_and!; try done. by eapply (fz_pinned _ _ _ Hfz).
Qed.


(** ** Changes of the database *)

(** An event leaves the database alone, or applies a command. *)
Lemma perform_store e y y' H U W owner :
  sound limits H U W (pr_server y) -> (forall i p, pr_tasks y !! i = Some p -> standing limits (own owner i H) p /\ keeps p) ->
  allowed e y -> perform e y = Some y' ->
  sv_store (pr_server y') = sv_store (pr_server y) \/
  exists pub, evolves (sv_store (pr_server y)) (sv_store (pr_server y')) pub /\ in_flight H (pr_server y) pub.
Proof.
  intros Hs Ht Hall Hp. assert (store_inv (sv_store (pr_server y))) as Hinv by apply Hs. destruct e.
  - left. cbn [perform] in Hp. destruct (pr_tasks y !! task); [done|]. injection Hp as <-.
    by apply keeps_settle, keeps_serve.
  - left. apply bind_Some in Hp as (p & E & ([p' sv'] & Er & [= <-])%bind_Some). destruct (Ht _ _ E) as [_ Hk].
    by apply (keeps_resume _ _ _ _ Hk) in Er as [_ []].
  - left. cbn [perform] in Hp. destruct (pr_tasks y !! task) as [[| |[|[cancel|]] run]|] eqn:E; try done. injection Hp as <-.
    destruct (Ht _ _ E) as [_ [Hc _]]. by apply (Hc cancel).
  - left. cbn [perform] in Hp. destruct (pr_tasks y !! task) as [[| |]|]; try done. by injection Hp as <-.
  - right. apply bind_Some in Hp as (c & E & Hp). destruct (apply_committed _ _ _ _ _) as [[s out]| |] eqn:Ea; try done. injection Hp as <-.
    exists (publication_of c). split; [|by eapply flight_in_flight; [apply Hs|]].
    eapply (committed_evolves _ _ raft_state_len_nonneg marker_len_nonneg); [done|by apply Hall|exact Ea].
  - left. cbn [perform] in Hp. destruct answer as [r| | |]; [done|..]; destruct (_ <? _)%nat; [|done| |done| |done]; by injection Hp as <-.
  - left. by injection Hp as <-.
  - right. cbn [perform] in Hp. destruct (publication_of command) eqn:E; [done|].
    destruct (apply_committed _ _ _ _ _) as [[s out]| |] eqn:Ea; try done. injection Hp as <-. exists None. split; [|by intros ? ?].
    rewrite <- E. eapply (committed_evolves _ _ raft_state_len_nonneg marker_len_nonneg); [done|exact Hall|exact Ea].
  - left. cbn [perform] in Hp. destruct (_ && _); [|done]. by injection Hp as <-.
  - left. cbn [perform] in Hp. destruct (retire_expired_batch _ _) as [[st n]| |]; try done. by injection Hp as <-.
  - left. cbn [perform] in Hp. destruct (get_session_identity _ _ _) as [[st n]| |]; try done. by injection Hp as <-.
Qed.

Lemma store_allocated s id f : store_inv s -> lookup_file s id = Some f -> allocated s id.
Proof.
  intros Hs (i & Hi & _)%lookup_file_Some. destruct (store_inv_ready s id i Hs Hi) as (n & Hr & ?). exists n. split; [apply (rd_next _ _ Hr)|done].
Qed.


(** ** Cleanup *)

(** What cleanup sees of the process. *)
Definition view (term : option Z) (barrier : MetadataResult unit) (y : Process) : World :=
  mk_World term barrier (sv_registry (pr_server y)) (sv_now_ms (pr_server y)) (sv_store (pr_server y)) (sv_read_error (pr_server y))
    (sv_workers (pr_server y)).

Lemma secure_hidden W y y' b :
  secure W y -> b ∈ W -> ~ visible (sv_store (pr_server y)) b -> follows y y' -> ~ visible (sv_store (pr_server y')) b.
Proof.
  intros Hsec Hb Hnv Hf. induction Hf as [|y1 y2 y3 (e & Hall & Hp) _ IH]; [done|]. apply IH.
  - by eapply step_secure.
  - destruct Hsec as (H & U & owner & Hs & Ht). destruct (perform_store _ _ _ _ _ _ _ Hs Ht Hall Hp) as [->|(pub & Hev & Hfl)]; [done|].
    by eapply invisible_evolves.
Qed.

Lemma unreferenced_hidden s b : unreferenced s b -> ~ visible s b.
Proof.
  unfold unreferenced, visible. intros Hu (f & (i & Hi & Hk)%lookup_file_Some & Hin). unfold get_inode in Hu. rewrite Hi in Hu.
  destruct Hu as (f2 & Hk2 & _ & _ & Hn & _). congruence.
Qed.

End theorems.

(** ** A run

    A client creates [/a/f], gets a block, sees it reported and commits the file. *)

Definition leader_node : RaftNode := mk_RaftNode true (Some 1) [(1, "http://m1:8000")] (Some (mk_RaftLogId 1 1 5)) 1 true.
Definition sample_process : Process :=
  mk_Process (mk_Server s_ab None sample_table true leader_node registry_default sample_manager 200 200 (mk_TopologyLock 0 false) ∅ ∅ 0) ∅.
Definition sample_context (call : CallId) : RequestContext := mk_RequestContext (mk_RequestHeader call 5 None None [] 1000 None) None.
Definition any_freshness : Freshness := mk_Freshness None None.
Definition sample_handle : WriteHandle := mk_WriteHandle 4 1.
Definition sample_block : BlockId := mk_BlockId 4 0.
Definition reported_manager : WorkerManagerState :=
  run_worker_calls [WC_Full ("g", 7) run_1 2 0 true [mk_BlockReportBlock (Some Ssd) sample_block 1 BR_Ready 100] 110 110] sample_manager.

Definition write_events : list Event :=
  [E_Request 0 (MakeFile (sample_context 1) "/a/f" any_freshness); E_Resume 0; E_Apply 0 rs0; E_Resume 0; E_Finish 0;
   E_Request 1 (NewBlock (sample_context 2) sample_handle None any_freshness); E_Apply 1 rs0; E_Resume 1; E_Finish 1].
Definition commit_events : list Event :=
  [E_Surroundings 210 None sample_table true leader_node reported_manager 210;
   E_Request 2 (CloseFile (sample_context 3) (mk_PublishArgs sample_handle [mk_CommittedBlock sample_block 100] 100 any_freshness 0 0 ReplaceIfUnchanged));
   E_Resume 2; E_Resume 2; E_Resume 2].
Definition abort_events : list Event :=
  [E_Request 2 (AbortFileWrite (sample_context 3) sample_handle any_freshness); E_Apply 2 rs0; E_Resume 2].

(** The commands of these requests are admissible where they are applied. *)
Definition plainly_admissible (c : Command) : bool :=
  match c with
  | CreateFile _ args => 0 <=? fl_block_size (ca_layout args)
  | CommitFile _ _ _ _ p => (0 <=? fp_target_size p) && (0 <=? fp_expected_file_size p)
  | AllocateBlock _ _ | EndWriteLease _ _ _ => true
  | _ => false
  end.
Definition plainly_allowed (e : Event) (y : Process) : bool :=
  match e with
  | E_Apply t _ => match sv_proposals (pr_server y) !! t with Some c => plainly_admissible c | None => true end
  | E_Command _ _ => false
  | _ => true
  end.

Definition sample_layout_4k : FileLayout := mk_FileLayout 4096 DURABLE_PREFIX.
Notation sample_perform := (perform (fun _ => Some 100) sample_limits 1000 sample_layout_4k sample_state_len sample_marker_len).
Notation sample_follows := (follows (fun _ => Some 100) sample_limits 1000 sample_layout_4k sample_state_len sample_marker_len).
Notation sample_running := (running (fun _ => Some 100) sample_limits 1000 sample_layout_4k sample_state_len sample_marker_len).

Fixpoint sample_run (events : list Event) (y : Process) : option Process :=
  match events with
  | [] => Some y
  | e :: rest => if plainly_allowed e y then y' ← sample_perform e y; sample_run rest y' else None
  end.
Definition reached_by (events : list Event) : Process := default sample_process (sample_run events sample_process).

Lemma plainly_allowed_ok e y : plainly_allowed e y = true -> allowed e y.
Proof.
  destruct e; try done. simpl. intros H c Hc. rewrite Hc in H. unfold admissible. destruct c; try done; simpl in *; bool_prop; by repeat split.
Qed.

Lemma sample_run_follows events : forall y y', sample_run events y = Some y' -> sample_follows y y'.
Proof.
  induction events as [|e rest IH]; intros y y' H; [injection H as <-; apply rtc_refl|]. cbn [sample_run] in H.
  destruct (plainly_allowed e y) eqn:Ha; [|done]. apply bind_Some in H as (y1 & Hp & H).
  eapply rtc_l; [exists e; split; [by apply plainly_allowed_ok|exact Hp]|by apply IH].
Qed.

Lemma sample_booted : booted sample_state_len sample_marker_len sample_process.
Proof.
  split; try done. eapply reachable_weaken; [|apply s_ab_reachable]. by intros ? ? [].
Qed.

Lemma reached_running events : is_Some (sample_run events sample_process) -> sample_running (reached_by events).
Proof.
  intros [y Hy]. exists sample_process. split; [apply sample_booted|]. apply (sample_run_follows events). unfold reached_by. by rewrite Hy.
Qed.

Ltac sample_reached := apply reached_running; apply (bool_decide_eq_true_1 (is_Some _)); vm_compute; reflexivity.

(** After the events every request but the committing one is done; that one waits. *)
Lemma requests_never_panic_witness :
  dom (pr_tasks (reached_by (write_events ++ commit_events))) = {[2%nat]} /\
  forall p, pr_tasks (reached_by (write_events ++ commit_events)) !! 2%nat = Some p ->
    p = Return tt \/ exists cancel run, p = Step (Await cancel) run.
Proof.
  split; [vm_compute; reflexivity|].
  apply (requests_never_panic (fun _ => Some 100) sample_limits 1000 sample_layout_4k sample_state_len sample_marker_len eq_refl
    ltac:(done) ltac:(intros; vm_compute; congruence) ltac:(intros; vm_compute; congruence)). sample_reached.
Defined.

#[local] Opaque reached_by.

Definition sample_publication : FilePublication := mk_FilePublication [mk_CommittedBlock sample_block 100] 100 0 0 1 ReplaceIfUnchanged.

Notation sample_facts theorem :=
  (theorem (fun _ => Some 100) sample_limits 1000 sample_layout_4k sample_state_len sample_marker_len eq_refl
     ltac:(done) ltac:(intros; vm_compute; congruence) ltac:(intros; vm_compute; congruence)).



