(* ===== verification/WorkerTypes.v ===== *)
(** * The worker's errors and block metadata

    error.rs of the worker, the persisted metadata of a block (store/block.rs) and
    the requests of its store. *)

From S2P Require Import Prelude Types Errors.
Local Open Scope Z_scope.

(** ** Errors *)

Inductive WorkerError :=
| WE_ResourceExhausted (message : string)
| WE_DiskError (message : string)
| WE_Timeout (message : string)
| WE_Cancelled (message : string)
| WE_Unavailable (message : string)
| WE_InvalidArgument (message : string)
| WE_NotFound (message : string)
| WE_Corrupt (message : string)
| WE_RefreshMetadata (kind : ErrorKind) (message : string)
| WE_PermissionDenied (message : string)
| WE_Internal (message : string).

Definition worker_error_is_retryable (e : WorkerError) : bool :=
  match e with WE_Timeout _ | WE_ResourceExhausted _ | WE_Unavailable _ => true | _ => false end.

(** [metadata().retry_after_ms]. *)
Definition worker_retry_after_ms (e : WorkerError) : option Z :=
  match e with
  | WE_Timeout _ => Some 100
  | WE_ResourceExhausted _ => Some 5000
  | WE_Unavailable _ => Some 500
  | _ => None
  end.

(** What the client is told about a worker error. *)
Definition worker_rpc_error (e : WorkerError) : RpcErrorDetail :=
  match e with
  | WE_Timeout m => rpc_retry (EK_Worker WEK_Timeout) (worker_retry_after_ms e) m
  | WE_ResourceExhausted m => rpc_retry (EK_Worker WEK_ResourceExhausted) (worker_retry_after_ms e) m
  | WE_Unavailable m => rpc_retry (EK_Worker WEK_NodeUnavailable) (worker_retry_after_ms e) m
  | WE_DiskError m => rpc_fail (EK_Worker WEK_Io) ("disk I/O error: " +:+ m)
  | WE_Cancelled m => rpc_fail (EK_Worker WEK_Cancelled) ("operation cancelled: " +:+ m)
  | WE_InvalidArgument m => rpc_fail (EK_Protocol PEK_InvalidArgument) ("invalid argument: " +:+ m)
  | WE_NotFound m => rpc_fail (EK_Worker WEK_NotFound) ("not found: " +:+ m)
  | WE_Corrupt m => rpc_fail (EK_Worker WEK_Corrupt) ("corrupt: " +:+ m)
  | WE_RefreshMetadata kind m => rpc_refresh_metadata kind refresh_hint_default m
  | WE_PermissionDenied m => rpc_fail (EK_Worker WEK_Io) ("permission denied: " +:+ m)
  | WE_Internal m => rpc_fail (EK_Internal IEK_Internal) ("internal error: " +:+ m)
  end.

(** [fenced]. *)
Definition worker_fenced (message : string) : WorkerError := WE_RefreshMetadata (EK_Worker WEK_Fencing) message.

(** ** Block metadata *)

Inductive ChecksumKind := ChecksumNone.
Inductive BlockState := BlockReady | BlockCorrupt | BlockDeleting.

#[global] Instance ChecksumKind_eq_dec : EqDecision ChecksumKind.
Proof. solve_decision. Defined.
#[global] Instance BlockState_eq_dec : EqDecision BlockState.
Proof. solve_decision. Defined.

Record BlockFormat := mk_BlockFormat {
  bf_format_id : Z;
  bf_block_size : Z;
  bf_chunk_size : Z;
  bf_checksum_kind : ChecksumKind
}.

#[global] Instance BlockFormat_eq_dec : EqDecision BlockFormat.
Proof. solve_decision. Defined.

(** [BlockMetaPayload], with the fields of its identity, source and visibility. *)
Record BlockMeta := mk_BlockMeta {
  bm_block_id : BlockId;
  bm_group_name : GroupName;
  bm_format : BlockFormat;
  bm_durable_len : Z;
  bm_state : BlockState;
  bm_token : FencingToken;
  bm_tier : Tier
}.

#[global] Instance BlockMeta_eq_dec : EqDecision BlockMeta.
Proof. solve_decision. Defined.

Definition with_durable_len (m : BlockMeta) (n : Z) : BlockMeta :=
  mk_BlockMeta (bm_block_id m) (bm_group_name m) (bm_format m) n (bm_state m) (bm_token m) (bm_tier m).
Definition with_token_len (m : BlockMeta) (token : FencingToken) (n : Z) : BlockMeta :=
  mk_BlockMeta (bm_block_id m) (bm_group_name m) (bm_format m) n (bm_state m) token (bm_tier m).
Definition with_block_state (m : BlockMeta) (s : BlockState) : BlockMeta :=
  mk_BlockMeta (bm_block_id m) (bm_group_name m) (bm_format m) (bm_durable_len m) s (bm_token m) (bm_tier m).

(** ** Requests of the store *)

Record OpenBlockWriteRequest := mk_OpenBlockWriteRequest {
  ob_group_name : GroupName;
  ob_block_id : BlockId;
  ob_block_size : Z;
  ob_block_format_id : Z;
  ob_chunk_size : Z;
  ob_checksum_kind : ChecksumKind;
  ob_tier : Tier;
  ob_fencing_token : FencingToken;
  ob_write_offset : Z;
  ob_visible_len : Z
}.

Record CheckpointBlockRequest := mk_CheckpointBlockRequest {
  ck_group_name : GroupName;
  ck_block_id : BlockId;
  ck_effective_len : Z;
  ck_fencing_token : FencingToken
}.

Inductive ReclaimBlockState := RB_Ready | RB_Deleting | RB_Absent.
Inductive ReclaimBlockResult := RR_Deleted (effective_len : Z) | RR_AlreadyAbsent.
