(* ===== verification/FileSystem.v ===== *)
(** * The file system under the block store

    What store/block.rs uses of [std::fs], with failures and crashes. A file has
    contents in memory and contents on disk; a name means something now and may
    mean something older after a crash. Syncing a file fixes its contents, syncing a
    directory fixes the names in it. Every call may fail with part of its effect,
    and the machine may stop during any call; a list of faults decides.

    Assumed of the file system: a sync that succeeds makes everything written before
    it last, also after one that failed; bytes synced and not touched since survive; a
    rename takes effect at once or not at all; the two names of a rename that was not
    synced may be found independently of each other. *)

From S2P Require Import Prelude Types Errors WorkerTypes Bytes.
Local Open Scope Z_scope.

(** ** Disks *)

(** Innermost component first; the empty path is the prepared root. *)
Definition path := list string.

Inductive node := DirNode | FileNode (file : nat).

#[global] Instance node_eq_dec : EqDecision node.
Proof. solve_decision. Defined.

(** [sl_past]: what the name meant since its directory was last synced. *)
Record slot := mk_slot {
  sl_now : option node;
  sl_past : list (option node)
}.

(** [bd_kept]: how many leading bytes of the contents last synced have not been
    written or cut off since. [bd_clean]: nothing was done to the file since. *)
Record body := mk_body {
  bd_data : bytes;
  bd_synced : bytes;
  bd_kept : nat;
  bd_clean : bool
}.

Record Disk := mk_Disk {
  dk_names : gmap path slot;
  dk_files : gmap nat body;
  dk_next : nat
}.

Definition slot_of (d : Disk) (p : path) : slot := default (mk_slot None []) (dk_names d !! p).
Definition now (d : Disk) (p : path) : option node := sl_now (slot_of d p).
Definition may (d : Disk) (p : path) (v : option node) : Prop := v = now d p \/ v ∈ sl_past (slot_of d p).

Definition set_name (p : path) (v : option node) (d : Disk) : Disk :=
  mk_Disk (<[p := mk_slot v (now d p :: sl_past (slot_of d p))]> (dk_names d)) (dk_files d) (dk_next d).

Definition set_body (i : nat) (b : body) (d : Disk) : Disk :=
  mk_Disk (dk_names d) (<[i := b]> (dk_files d)) (dk_next d).

Definition parent (p : path) : option path := match p with [] => None | _ :: dir => Some dir end.

Definition sync_names (dir : path) (d : Disk) : Disk :=
  mk_Disk (map_imap (fun p s => Some (if bool_decide (parent p = Some dir) then mk_slot (sl_now s) [] else s)) (dk_names d))
    (dk_files d) (dk_next d).

(** ** Contents *)

Definition pad (n : nat) (data : bytes) : bytes := data ++ replicate (n - length data) x00.

Definition overwrite (off : nat) (new data : bytes) : bytes := take off (pad off data) ++ new ++ drop (off + length new) data.

Definition write_body (off : nat) (new : bytes) (b : body) : body :=
  mk_body (overwrite off new (bd_data b)) (bd_synced b) (Nat.min (bd_kept b) off) false.
Definition resize_body (n : nat) (b : body) : body :=
  mk_body (take n (pad n (bd_data b))) (bd_synced b) (Nat.min (bd_kept b) n) false.
Definition sync_body (b : body) : body := mk_body (bd_data b) (bd_data b) (length (bd_data b)) true.

Definition update_body (i : nat) (f : body -> body) (d : Disk) : Disk :=
  match dk_files d !! i with Some b => set_body i (f b) d | None => d end.

(** ** Calls *)

(** The kinds of error the source tells apart. *)
Inductive IoErrorKind := IO_NotFound | IO_PermissionDenied | IO_TimedOut | IO_UnexpectedEof | IO_Other.

(** The errors a call can meet by accident: not [NotFound] or [UnexpectedEof], which
    say something about the disk. *)
Inductive accident := Denied | TookTooLong | Broken.
Definition accident_kind (a : accident) : IoErrorKind :=
  match a with Denied => IO_PermissionDenied | TookTooLong => IO_TimedOut | Broken => IO_Other end.

(** A call goes through, fails with an error and part of its effect, or is the last. *)
Inductive fault := Go | Trouble (why : accident) (effect : nat) | Halt (effect : nat).

Inductive io_outcome (A : Type) := Done (a : A) | Failed (e : WorkerError) | Halted.
Global Arguments Done {_} _.
Global Arguments Failed {_} _.
Global Arguments Halted {_}.

Definition io (A : Type) : Type := list fault -> Disk -> io_outcome A * list fault * Disk.

#[global] Instance io_ret : MRet io := fun A a fs d => (Done a, fs, d).
#[global] Instance io_bind : MBind io := fun A B k m fs d =>
  match m fs d with
  | (Done a, fs', d') => k a fs' d'
  | (Failed e, fs', d') => (Failed e, fs', d')
  | (Halted, fs', d') => (Halted, fs', d')
  end.

Definition throw {A} (e : WorkerError) : io A := fun fs d => (Failed e, fs, d).

(** [match call() { Ok(..) => .., Err(..) => .. }]. *)
Definition catch {A} (m : io A) : io (result WorkerError A) := fun fs d =>
  match m fs d with
  | (Done a, fs', d') => (Done (Ok a), fs', d')
  | (Failed e, fs', d') => (Done (Err e), fs', d')
  | (Halted, fs', d') => (Halted, fs', d')
  end.

(** The [?] on a pure check. *)
Definition check {A} (r : result WorkerError A) : io A :=
  match r with Ok a => mret a | Err e => throw e | Panic => fun fs d => (Halted, fs, d) end.

(** [From<std::io::Error>]. *)
Definition from_io (k : IoErrorKind) : WorkerError :=
  match k with
  | IO_NotFound => WE_NotFound "not found"
  | IO_PermissionDenied => WE_PermissionDenied "permission denied"
  | IO_TimedOut => WE_Timeout "timed out"
  | IO_UnexpectedEof | IO_Other => WE_DiskError "io error"
  end.

(** [map_truncated_read_error]. *)
Definition map_truncated_read_error (message : string) (k : IoErrorKind) : WorkerError :=
  match k with IO_UnexpectedEof | IO_NotFound => WE_Corrupt message | _ => from_io k end.

(** One call: what it does when nothing goes wrong, and the part of its effect that
    a fault can leave. *)
Definition syscall {A} (wrap : IoErrorKind -> WorkerError) (act : Disk -> result IoErrorKind (A * Disk))
    (part : nat -> Disk -> Disk) : io A := fun fs d =>
  match fs with
  | Trouble a k :: fs => (Failed (wrap (accident_kind a)), fs, part k d)
  | Halt k :: fs => (Halted, fs, part k d)
  | _ =>
      let rest := match fs with [] => [] | _ :: fs => fs end in
      match act d with
      | Ok (a, d') => (Done a, rest, d')
      | Err k => (Failed (wrap k), rest, d)
      | Panic => (Halted, rest, d)
      end
  end.

(** A call without effect, and one whose effect is all or nothing. *)
Definition query {A} (wrap : IoErrorKind -> WorkerError) (f : Disk -> result IoErrorKind A) : io A :=
  syscall wrap (fun d => a ← f d; Ok (a, d)) (fun _ d => d).
Definition attempt {A} (wrap : IoErrorKind -> WorkerError) (f : Disk -> result IoErrorKind (A * Disk)) : io A :=
  syscall wrap f (fun k d => match k, f d with S _, Ok (_, d') => d' | _, _ => d end).
Definition command (f : Disk -> Disk) : io unit := attempt from_io (fun d => Ok (tt, f d)).

Definition body_of (d : Disk) (i : nat) : body := default (mk_body [] [] 0 false) (dk_files d !! i).

(** [File::open], and [OpenOptions] with read and write. *)
Definition open_file_with (wrap : IoErrorKind -> WorkerError) (p : path) : io nat :=
  query wrap (fun d => match now d p with
                       | Some (FileNode i) => Ok i
                       | Some DirNode => Err IO_Other
                       | None => Err IO_NotFound
                       end).

(** A name can be made only in a directory that is there. *)
Definition in_directory (d : Disk) (p : path) : bool :=
  match parent p with Some dir => bool_decide (now d dir = Some DirNode) | None => false end.

(** [OpenOptions] with create: a missing file is made, empty. *)
Definition create_in (p : path) (d : Disk) : Disk :=
  mk_Disk (dk_names (set_name p (Some (FileNode (dk_next d))) d))
    (<[dk_next d := mk_body [] [] 0 false]> (dk_files d)) (S (dk_next d)).
Definition open_or_create (wrap : IoErrorKind -> WorkerError) (p : path) : io nat :=
  attempt wrap (fun d => match now d p with
                         | Some (FileNode i) => Ok (i, d)
                         | Some DirNode => Err IO_Other
                         | None => if in_directory d p then Ok (dk_next d, create_in p d) else Err IO_NotFound
                         end).

(** With create and truncate. *)
Definition open_truncated (p : path) : io nat :=
  attempt from_io (fun d => match now d p with
                            | Some (FileNode i) => Ok (i, update_body i (resize_body 0) d)
                            | Some DirNode => Err IO_Other
                            | None => if in_directory d p then Ok (dk_next d, create_in p d) else Err IO_NotFound
                            end).

Definition file_len (i : nat) : io Z := query from_io (fun d => Ok (Z.of_nat (length (bd_data (body_of d i))))).
Definition write_all (i : nat) (off : Z) (new : bytes) : io unit :=
  syscall from_io (fun d => Ok (tt, update_body i (write_body (Z.to_nat off) new) d))
    (fun k d => update_body i (write_body (Z.to_nat off) (take k new)) d).
Definition set_len (i : nat) (n : Z) : io unit := command (update_body i (resize_body (Z.to_nat n))).
Definition sync_all (i : nat) : io unit := command (update_body i sync_body).
Definition read_file (i : nat) : io bytes := query from_io (fun d => Ok (bd_data (body_of d i))).

(** [fs::metadata(path)] of a file, its length. The length of a directory is up to the
    file system and nothing the store makes puts a directory there: an error here. *)
Definition path_len (p : path) : io (result IoErrorKind Z) := fun fs d =>
  match fs with
  | Trouble a _ :: fs => (Done (Err (accident_kind a)), fs, d)
  | Halt _ :: fs => (Halted, fs, d)
  | _ => (Done match now d p with
               | Some (FileNode i) => Ok (Z.of_nat (length (bd_data (body_of d i))))
               | Some DirNode => Err IO_Other
               | None => Err IO_NotFound
               end, match fs with [] => [] | _ :: fs => fs end, d)
  end.

(** [Path::exists] and [Path::is_dir]: an error counts as no. *)
Definition probe (f : Disk -> bool) : io bool := fun fs d =>
  match fs with
  | Trouble _ _ :: fs => (Done false, fs, d)
  | Halt _ :: fs => (Halted, fs, d)
  | _ => (Done (f d), match fs with [] => [] | _ :: fs => fs end, d)
  end.
Definition exists_ (p : path) : io bool := probe (fun d => bool_decide (is_Some (now d p))).
Definition path_is_dir (p : path) : io bool := probe (fun d => bool_decide (now d p = Some DirNode)).
Definition try_exists (p : path) : io bool := query from_io (fun d => Ok (bool_decide (is_Some (now d p)))).

Definition rename_in (src dst : path) (d : Disk) : Disk := set_name src None (set_name dst (now d src) d).
Definition rename_file (src dst : path) : io unit :=
  attempt from_io (fun d => match now d src, now d dst with
                            | None, _ => Err IO_NotFound
                            | Some (FileNode _), Some DirNode => Err IO_Other
                            | Some (FileNode _), _ => if in_directory d dst then Ok (tt, rename_in src dst d) else Err IO_NotFound
                            | Some DirNode, _ => Err IO_Other
                            end).

(** [remove_file_if_exists]. *)
Definition remove_file_if_exists (p : path) : io unit :=
  attempt from_io (fun d => match now d p with
                            | Some (FileNode _) => Ok (tt, set_name p None d)
                            | Some DirNode => Err IO_Other
                            | None => Ok (tt, d)
                            end).

(** [sync_parent_dir], which syncs the directory it is given. *)
Definition sync_parent_dir (dir : path) : io unit :=
  attempt from_io (fun d => match now d dir with
                            | Some DirNode => Ok (tt, sync_names dir d)
                            | Some (FileNode i) => Ok (tt, update_body i sync_body d)
                            | None => Err IO_NotFound
                            end).

(** [fs::create_dir_all]: the missing directories from the outermost on; a fault may
    leave the outer ones. *)
Fixpoint create_dirs (p : path) (d : Disk) : result IoErrorKind Disk :=
  match p with
  | [] => match now d [] with Some DirNode => Ok d | _ => Err IO_Other end
  | _ :: dir =>
      d ← create_dirs dir d;
      match now d p with
      | Some DirNode => Ok d
      | Some (FileNode _) => Err IO_Other
      | None => Ok (set_name p (Some DirNode) d)
      end
  end.
Definition create_dir_all (p : path) : io unit :=
  syscall from_io (fun d => d' ← create_dirs p d; Ok (tt, d'))
    (fun k d => match create_dirs (drop (length p - k) p) d with Ok d' => d' | _ => d end).

(** [fs::read_dir], the entries in the order [order] gives them. *)
Definition children (d : Disk) (dir : path) : list (path * node) :=
  omap (fun '(p, s) => if bool_decide (parent p = Some dir) then n ← sl_now s; Some (p, n) else None) (map_to_list (dk_names d)).
Definition read_dir (order : list (path * node) -> list (path * node)) (dir : path) : io (list (path * node)) :=
  query from_io (fun d => match now d dir with
                          | Some DirNode => Ok (order (children d dir))
                          | Some (FileNode _) => Err IO_Other
                          | None => Err IO_NotFound
                          end).

(** ** Crashes *)

(** What the machine finds when it starts again: each name means one of the things it
    may mean if its directories are still there, each file keeps the leading bytes that
    were synced and not touched since, and all of it if nothing was done to it. *)
Record crashed (d d' : Disk) : Prop := {
  cr_name : forall p, may d p (now d' p) \/ now d' p = None /\ exists q, q `suffix_of` p /\ q <> p /\ now d' q <> Some DirNode;
  cr_tree : forall name dir n, now d' (name :: dir) = Some n -> now d' dir = Some DirNode;
  cr_settled : forall p v, may d' p v -> v = now d' p;
  cr_file : forall i b', dk_files d' !! i = Some b' -> b' = sync_body b' /\
    exists b, dk_files d !! i = Some b /\ (bd_kept b <= length (bd_data b'))%nat /\
      take (bd_kept b) (bd_data b') = take (bd_kept b) (bd_synced b) /\ (bd_clean b = true -> bd_data b' = bd_data b);
  cr_files : forall i, is_Some (dk_files d !! i) -> is_Some (dk_files d' !! i);
  cr_next : dk_next d' = dk_next d
}.
