(* ===== verification/BlockMeta.v ===== *)
(** * The persisted metadata of a block

    store/meta_codec.rs, the header of store/block.rs, the checks of a block's
    metadata and the names of its files. The protobuf encoder and decoder are
    generated code, an interface with its round trip here. Text that a message only
    quotes from another error is left out of it. *)

From S2P Require Import Prelude Types Errors WorkerTypes Bytes FileSystem.
Local Open Scope Z_scope.

Definition invalid_argument (m : string) : WorkerError := WE_InvalidArgument m.
Definition corrupt (m : string) : WorkerError := WE_Corrupt m.

(** ** Messages: worker/block_meta.proto and common/common.proto *)

Record BlockIdProto := mk_BlockIdProto { bip_inode_id : Z; bip_block_index : Z }.
Record ClientIdProto := mk_ClientIdProto { cip_high : Z; cip_low : Z }.
Record FencingTokenProto := mk_FencingTokenProto {
  ftp_block_id : option BlockIdProto; ftp_owner : option ClientIdProto; ftp_epoch : Z }.
Record BlockIdentityProto := mk_BlockIdentityProto {
  bidp_block_id : option BlockIdProto; bidp_group_name : list Z }.
Record BlockFormatProto := mk_BlockFormatProto {
  bfp_format_id : Z; bfp_block_size : Z; bfp_chunk_size : Z }.
Record BlockVisibilityProto := mk_BlockVisibilityProto {
  bvp_block_state : Z; bvp_fencing_token : option FencingTokenProto }.
Record BlockMetaPayloadProto := mk_BlockMetaPayloadProto {
  bmp_identity : option BlockIdentityProto;
  bmp_format : option BlockFormatProto;
  bmp_source : option Z;
  bmp_visibility : option BlockVisibilityProto;
  bmp_tier : Z
}.

(** ** Conversions: beryl-proto/src/convert.rs *)

Definition block_id_to_proto (b : BlockId) : BlockIdProto := mk_BlockIdProto (block_inode_id b) (block_index b).
Definition block_id_try_from (p : BlockIdProto) : result string BlockId :=
  reject_if (bool_decide (bip_inode_id p = 0)) "BlockIdProto.inode_id must be non-zero";;
  Ok (mk_BlockId (bip_inode_id p) (bip_block_index p)).

Definition client_id_to_proto (c : ClientId) : ClientIdProto :=
  mk_ClientIdProto (Z.shiftr c 64 mod 2 ^ 64) (c mod 2 ^ 64).
Definition client_id_try_from (p : ClientIdProto) : result string ClientId :=
  let value := Z.lor (Z.shiftl (cip_high p) 64) (cip_low p) in
  reject_if (bool_decide (value = 0)) "client_id must be non-zero";; Ok value.

Definition required_block_id (p : option BlockIdProto) (field : string) : result string BlockId :=
  match p with
  | None => Err ("missing " +:+ field)
  | Some p => map_err (fun e => "invalid " +:+ field +:+ ": " +:+ e) (block_id_try_from p)
  end.
Definition required_client_id (p : option ClientIdProto) (field : string) : result string ClientId :=
  match p with
  | None => Err ("missing " +:+ field)
  | Some p => map_err (fun e => "invalid " +:+ field +:+ ": " +:+ e) (client_id_try_from p)
  end.

Definition fencing_token_to_proto (t : FencingToken) : FencingTokenProto :=
  mk_FencingTokenProto (Some (block_id_to_proto (ft_block_id t))) (Some (client_id_to_proto (ft_owner t))) (ft_epoch t).
Definition fencing_token_try_from (p : FencingTokenProto) : result string FencingToken :=
  block_id ← required_block_id (ftp_block_id p) "block_id in token";
  owner ← required_client_id (ftp_owner p) "owner in token";
  Ok (mk_FencingToken block_id owner (ftp_epoch p)).
Definition required_fencing_token (p : option FencingTokenProto) (field : string) : result string FencingToken :=
  match p with None => Err ("missing " +:+ field) | Some p => fencing_token_try_from p end.

Definition tier_to_proto (t : Tier) : Z := match t with Mem => 1 | Nvme => 2 | Ssd => 3 | Hdd => 4 end.
Definition parse_known_tier (value : Z) : result string Tier :=
  match value with
  | 1 => Ok Mem | 2 => Ok Nvme | 3 => Ok Ssd | 4 => Ok Hdd
  | 0 => Err "tier must be specified"
  | _ => Err "unknown tier value"
  end.

(** ** store/meta_codec.rs *)

Definition block_state_to_proto (s : BlockState) : Z :=
  match s with BlockReady => 1 | BlockCorrupt => 2 | BlockDeleting => 3 end.
Definition block_state_from_proto (value : Z) : result WorkerError BlockState :=
  match value with
  | 0 => Err (corrupt "block state must be specified")
  | 1 => Ok BlockReady | 2 => Ok BlockCorrupt | 3 => Ok BlockDeleting
  | _ => Err (corrupt "unsupported block state")
  end.

Definition meta_to_proto (m : BlockMeta) : result WorkerError BlockMetaPayloadProto :=
  let f := bm_format m in
  reject_if (u32_max <? bf_chunk_size f) (invalid_argument "chunk size does not fit block metadata format");;
  Ok (mk_BlockMetaPayloadProto
        (Some (mk_BlockIdentityProto (Some (block_id_to_proto (bm_block_id m))) (chars_of (bm_group_name m))))
        (Some (mk_BlockFormatProto (bf_format_id f) (bf_block_size f) (bf_chunk_size f)))
        (Some (bm_durable_len m))
        (Some (mk_BlockVisibilityProto (block_state_to_proto (bm_state m)) (Some (fencing_token_to_proto (bm_token m)))))
        (tier_to_proto (bm_tier m))).

Definition meta_from_proto (p : BlockMetaPayloadProto) : result WorkerError BlockMeta :=
  identity ← ok_or (bmp_identity p) (corrupt "block meta payload missing identity");
  raw_id ← ok_or (bidp_block_id identity) (corrupt "block meta payload missing block id");
  group_name ← map_err (fun _ => corrupt "block meta payload invalid group name") (group_name_parse (bidp_group_name identity));
  format ← ok_or (bmp_format p) (corrupt "block meta payload missing format");
  durable_len ← ok_or (bmp_source p) (corrupt "block meta payload missing source");
  visibility ← ok_or (bmp_visibility p) (corrupt "block meta payload missing visibility");
  tier ← map_err (fun e => corrupt ("block meta payload invalid tier: " +:+ e)) (parse_known_tier (bmp_tier p));
  state ← block_state_from_proto (bvp_block_state visibility);
  token ← map_err corrupt (required_fencing_token (bvp_fencing_token visibility) "block writer token");
  block_id ← map_err (fun e => corrupt ("block meta payload invalid block id: " +:+ e)) (block_id_try_from raw_id);
  format_id ← map_err (fun _ => corrupt "unsupported block format id") (block_format_from_raw (bfp_format_id format));
  Ok (mk_BlockMeta block_id group_name
        (mk_BlockFormat format_id (bfp_block_size format) (bfp_chunk_size format) ChecksumNone)
        durable_len state token tier).

(** What the message fields can hold. *)
Definition u64_ok (z : Z) : Prop := 0 <= z <= u64_max.
Definition u32_ok (z : Z) : Prop := 0 <= z <= u32_max.
Definition id_fits (p : BlockIdProto) : Prop := u64_ok (bip_inode_id p) /\ u32_ok (bip_block_index p).
Definition token_fits (p : FencingTokenProto) : Prop :=
  option_Forall id_fits (ftp_block_id p) /\
  option_Forall (fun o => u64_ok (cip_high o) /\ u64_ok (cip_low o)) (ftp_owner p) /\ u64_ok (ftp_epoch p).
Definition proto_fits (p : BlockMetaPayloadProto) : Prop :=
  option_Forall (fun i => option_Forall id_fits (bidp_block_id i)) (bmp_identity p) /\
  option_Forall (fun f => u32_ok (bfp_format_id f) /\ u64_ok (bfp_block_size f) /\ u32_ok (bfp_chunk_size f)) (bmp_format p) /\
  option_Forall u64_ok (bmp_source p) /\
  option_Forall (fun v => option_Forall token_fits (bvp_fencing_token v)) (bmp_visibility p).

(** The generated encoder and decoder of [BlockMetaPayloadProto]. *)
Class MetaWire := {
  proto_encode : BlockMetaPayloadProto -> bytes;
  proto_decode : bytes -> option BlockMetaPayloadProto;
  proto_decode_encode : forall p, proto_fits p -> proto_decode (proto_encode p) = Some p;
  proto_decode_fits : forall bs p, proto_decode bs = Some p -> proto_fits p
}.

(** ** The header of a metadata file *)

Definition le_bytes (n : nat) (v : Z) : bytes := reverse (be_bytes n v).
Definition le_value (bs : bytes) : Z := be_value (reverse bs).

Definition BLOCK_META_MAGIC : bytes := [x42; x52; x59; x4c].
Definition BLOCK_META_HEADER_LEN : Z := 20.
Definition BLOCK_META_VERSION : Z := 2.
Definition MAX_META_PAYLOAD_LEN : Z := 16 * 1024 * 1024.

Record BlockMetaHeader := mk_BlockMetaHeader {
  mh_magic : bytes;
  mh_version : Z;
  mh_header_len : Z;
  mh_payload_len : Z
}.

Definition header_validate (h : BlockMetaHeader) : result WorkerError unit :=
  reject_if (bool_decide (mh_magic h <> BLOCK_META_MAGIC)) (corrupt "invalid block meta magic");;
  reject_if (bool_decide (mh_version h <> BLOCK_META_VERSION)) (corrupt "unsupported block meta version");;
  reject_if (bool_decide (mh_header_len h <> BLOCK_META_HEADER_LEN)) (corrupt "unsupported block meta header length");;
  reject_if (bool_decide (mh_payload_len h = 0)) (corrupt "block meta payload length must be non-zero");;
  reject_if (MAX_META_PAYLOAD_LEN <? mh_payload_len h) (corrupt "block meta payload length exceeds limit").

Definition header_for_payload (len : Z) : result WorkerError BlockMetaHeader :=
  reject_if (u64_max <? len) (invalid_argument "meta payload length does not fit in u64");;
  let h := mk_BlockMetaHeader BLOCK_META_MAGIC BLOCK_META_VERSION BLOCK_META_HEADER_LEN len in
  header_validate h;; Ok h.

Definition header_decode (bs : bytes) : result WorkerError BlockMetaHeader :=
  reject_if (bool_decide (Z.of_nat (length bs) <> BLOCK_META_HEADER_LEN)) (corrupt "invalid meta header length");;
  Ok (mk_BlockMetaHeader (take 4 bs) (le_value (take 4 (drop 4 bs))) (le_value (take 4 (drop 8 bs)))
        (le_value (take 8 (drop 12 bs)))).

Definition header_encode (h : BlockMetaHeader) : bytes :=
  mh_magic h ++ le_bytes 4 (mh_version h) ++ le_bytes 4 (mh_header_len h) ++ le_bytes 8 (mh_payload_len h).

Section Codec.
Context `{MetaWire}.

Definition encode_meta_payload (m : BlockMeta) : result WorkerError bytes :=
  p ← meta_to_proto m; Ok (proto_encode p).

Definition decode_meta_payload (bs : bytes) : result WorkerError BlockMeta :=
  p ← ok_or (proto_decode bs) (corrupt "failed to decode Protobuf message"); meta_from_proto p.

Definition encode_meta (m : BlockMeta) : result WorkerError bytes :=
  payload ← encode_meta_payload m;
  header ← header_for_payload (Z.of_nat (length payload));
  Ok (header_encode header ++ payload).

(** [Read::read_exact] from a position of an open file. *)
Definition read_exact_at (wrap : IoErrorKind -> WorkerError) (i : nat) (off len : nat) : io bytes :=
  query wrap (fun d => let data := bd_data (body_of d i) in
                       if bool_decide (off + len <= length data)%nat then Ok (take len (drop off data)) else Err IO_UnexpectedEof).

Definition read_meta_payload (p : path) : io bytes :=
  i ← open_file_with from_io p;
  encoded ← read_exact_at (map_truncated_read_error "block meta file is shorter than the header") i 0 (Z.to_nat BLOCK_META_HEADER_LEN);
  header ← check (header_decode encoded);
  _ ← check (header_validate header);
  let len := Z.to_nat (mh_payload_len header) in
  payload ← read_exact_at (map_truncated_read_error "block meta payload is shorter than declared length") i
              (Z.to_nat BLOCK_META_HEADER_LEN) len;
  size ← file_len i;
  _ ← check (reject_if (bool_decide (Z.of_nat (Z.to_nat BLOCK_META_HEADER_LEN + len) < size))
                (corrupt "block meta file has trailing bytes"));
  mret payload.

Definition read_meta_file (p : path) : io BlockMeta :=
  payload ← read_meta_payload p; check (decode_meta_payload payload).

End Codec.

(** ** Checks *)

Definition validate_token (t : FencingToken) (b : BlockId) : result WorkerError unit :=
  reject_if (bool_decide (ft_block_id t <> b) || bool_decide (ft_owner t = 0) || bool_decide (ft_epoch t = 0))
    (corrupt "invalid persisted writer token").

Definition validate_meta (m : BlockMeta) (g : GroupName) (b : BlockId) : result WorkerError unit :=
  let f := bm_format m in
  reject_if (bool_decide (bm_group_name m <> g) || bool_decide (bm_block_id m <> b))
    (corrupt "block metadata identity differs from path");;
  validate_token (bm_token m) b;;
  reject_if (u32_max <? bf_chunk_size f) (corrupt "chunk size overflow");;
  map_err (fun _ => corrupt "invalid block shape")
    (block_shape_new (bf_format_id f) (bf_block_size f) (bf_chunk_size f) (bf_block_size f));;
  reject_if (bf_block_size f <? bm_durable_len m) (corrupt "checkpoint exceeds block capacity").

Definition ensure_readable (m : BlockMeta) : result WorkerError unit :=
  reject_if (bool_decide (bm_state m <> BlockReady)) (corrupt "block is not Ready").

(** ** Names *)

Definition wrap64 (z : Z) : Z := z mod 2 ^ 64.

Definition block_hash_prefix (b : BlockId) : Z * Z :=
  let v := Z.lxor (block_inode_id b) (wrap64 (Z.shiftl (block_index b) 32)) in
  let v := Z.lxor v (Z.shiftr v 33) in
  let v := wrap64 (v * 0xff51afd7ed558ccd) in
  let v := Z.lxor v (Z.shiftr v 33) in
  let v := wrap64 (v * 0xc4ceb9fe1a85ec53) in
  let v := Z.lxor v (Z.shiftr v 33) in
  (Z.shiftr v 56 mod 256, Z.shiftr v 48 mod 256).

Definition hex_digit (d : Z) : Ascii.ascii := Ascii.ascii_of_N (Z.to_N (if d <? 10 then 48 + d else 87 + d)).

(** [{:0nx}] of a value of at most [n] digits. *)
Fixpoint hex (n : nat) (v : Z) : string :=
  match n with O => EmptyString | S n => hex n (v / 16) +:+ String.String (hex_digit (v mod 16)) EmptyString end.

Record BlockPaths := mk_BlockPaths { data_path : path; meta_path : path; temp_meta_path : path }.

Definition group_dir (g : GroupName) : path := [g; "groups"].
Definition blocks_dir (g : GroupName) : path := "blocks" :: group_dir g.
Definition block_stem (b : BlockId) : string := "b_" +:+ hex 16 (block_inode_id b) +:+ "_" +:+ hex 8 (block_index b).
Definition block_dir (g : GroupName) (b : BlockId) : path :=
  let '(x, y) := block_hash_prefix b in hex 2 y :: hex 2 x :: blocks_dir g.

Definition paths (g : GroupName) (b : BlockId) : BlockPaths :=
  let dir := block_dir g b in let stem := block_stem b in
  mk_BlockPaths ((stem +:+ ".blk") :: dir) ((stem +:+ ".meta") :: dir) ((stem +:+ ".meta.tmp") :: dir).

(** [Path::extension] and [Path::with_extension]: the file name is cut at its last dot,
    unless that is its first character. *)
Fixpoint rsplit_dot (cs : list Ascii.ascii) : option (list Ascii.ascii * list Ascii.ascii) :=
  match cs with
  | [] => None
  | c :: cs' =>
      match rsplit_dot cs' with
      | Some (before, after) => Some (c :: before, after)
      | None => if bool_decide (c = "."%char) then Some ([], cs') else None
      end
  end.
Definition split_name (name : string) : string * option string :=
  match rsplit_dot (String.list_ascii_of_string name) with
  | Some (c :: before, after) =>
      if bool_decide (name = "..") then (name, None)
      else (String.string_of_list_ascii (c :: before), Some (String.string_of_list_ascii after))
  | _ => (name, None)
  end.
Definition extension (p : path) : option string := match p with name :: _ => (split_name name).2 | [] => None end.
Definition with_extension (p : path) (ext : string) : path :=
  match p with name :: dir => ((split_name name).1 +:+ "." +:+ ext) :: dir | [] => [] end.
