(* ===== verification/BlockStore.v ===== *)
(** * The worker's block store: store/block.rs

    One definition per operation of [FullBlockFileStore]. An operation runs without
    another operation on the same block in between: the write side of
    [checkpoint_access] excludes readers, and callers serialize the writers of a
    block and pin its use against reclaim. *)

From S2P Require Import Prelude Types Errors WorkerTypes Bytes FileSystem BlockMeta.
Local Open Scope Z_scope.

Section Store.
Context `{MetaWire}.
(** The order in which the file system lists a directory. *)
Context (order : list (path * node) -> list (path * node)).

(** ** Helpers *)

Fixpoint sync_ancestors (p : path) : io unit :=
  _ ← sync_parent_dir p;
  match p with [] => mret tt | _ :: dir => sync_ancestors dir end.

(** The root is the empty path, an ancestor of every path. *)
Definition create_dir_durable (p : path) : io unit :=
  ready ← path_is_dir [];
  _ ← check (reject_if (negb ready) (invalid_argument "block path requires a prepared store root"));
  _ ← create_dir_all p;
  sync_ancestors p.

Definition write_meta (g : GroupName) (b : BlockId) (m : BlockMeta) : io unit :=
  let ps := paths g b in
  _ ← check (validate_meta m (bm_group_name m) (bm_block_id m));
  encoded ← check (encode_meta m);
  temp ← open_truncated (temp_meta_path ps);
  _ ← write_all temp 0 encoded;
  _ ← sync_all temp;
  _ ← rename_file (temp_meta_path ps) (meta_path ps);
  sync_parent_dir (block_dir g b).

Definition restore_prefix (g : GroupName) (b : BlockId) (m : BlockMeta) : io unit :=
  let ps := paths g b in
  _ ← check (ensure_readable m);
  meta ← open_file_with from_io (meta_path ps);
  _ ← sync_all meta;
  _ ← sync_parent_dir (block_dir g b);
  let missing := map_truncated_read_error "durable block data is missing" in
  data ← (if bool_decide (bm_durable_len m = 0) then open_or_create missing (data_path ps)
          else open_file_with missing (data_path ps));
  len ← file_len data;
  _ ← check (reject_if (len <? bm_durable_len m) (corrupt "data is shorter than durable checkpoint"));
  _ ← set_len data (bm_durable_len m);
  _ ← sync_all data;
  sync_parent_dir (block_dir g b).

Definition validate_data_prefix (g : GroupName) (b : BlockId) (m : BlockMeta) : io unit :=
  len ← path_len (data_path (paths g b));
  check match len with
        | Ok len => reject_if (len <? bm_durable_len m) (corrupt "durable prefix is missing from data file")
        | Err IO_NotFound => reject_if (bool_decide (bm_durable_len m <> 0)) (corrupt "durable prefix is missing from data file")
        | _ => Err (corrupt "durable prefix is missing from data file")
        end.

Definition complete_deletion (g : GroupName) (b : BlockId) : io unit :=
  let ps := paths g b in
  _ ← remove_file_if_exists (data_path ps);
  _ ← remove_file_if_exists (temp_meta_path ps);
  _ ← sync_parent_dir (block_dir g b);
  _ ← remove_file_if_exists (meta_path ps);
  sync_parent_dir (block_dir g b).

(** ** Operations *)

Definition load_meta (g : GroupName) (b : BlockId) : io BlockMeta :=
  m ← read_meta_file (meta_path (paths g b));
  _ ← check (validate_meta m g b);
  mret m.

Definition read_report_meta (p : path) : io BlockMeta :=
  m ← read_meta_file p;
  dir ← check (ok_or (parent p) (corrupt "meta path has no parent"));
  _ ← sync_parent_dir dir;
  mret m.

Definition load_report_meta (g : GroupName) (b : BlockId) : io BlockMeta :=
  m ← read_report_meta (meta_path (paths g b));
  _ ← check (validate_meta m g b);
  mret m.

Definition requested_format (r : OpenBlockWriteRequest) : BlockFormat :=
  mk_BlockFormat (ob_block_format_id r) (ob_block_size r) (ob_chunk_size r) (ob_checksum_kind r).

(** The metadata a block is opened with: reopened, or created with nothing durable. *)
Definition reopened_meta (r : OpenBlockWriteRequest) (m : BlockMeta) : io BlockMeta :=
  let g := ob_group_name r in let b := ob_block_id r in
  let token := ob_fencing_token r in let previous := bm_token m in
  _ ← check (ensure_readable m);
  _ ← check (reject_if (bool_decide (bm_format m <> requested_format r) || bool_decide (bm_tier m <> ob_tier r))
                (corrupt "write authorization changed persisted block layout or tier"));
  _ ← check (reject_if ((ft_epoch token <? ft_epoch previous)
                        || bool_decide (ft_epoch token = ft_epoch previous) && bool_decide (token <> previous))
                (worker_fenced "write token is older than the persisted writer"));
  _ ← check (reject_if (bm_durable_len m <? ob_visible_len r) (corrupt "visible prefix exceeds durable local bytes"));
  _ ← validate_data_prefix g b m;
  if ft_epoch previous <? ft_epoch token then
    _ ← check (reject_if (bool_decide (ob_write_offset r <> ob_visible_len r))
                  (invalid_argument "new writer must start at the visible prefix"));
    let m := with_token_len m token (ob_visible_len r) in
    _ ← write_meta g b m; mret m
  else
    _ ← check (reject_if (bool_decide (ob_write_offset r <> bm_durable_len m))
                  (invalid_argument "same writer must resume at its durable checkpoint"));
    mret m.

Definition created_meta (r : OpenBlockWriteRequest) : io BlockMeta :=
  let g := ob_group_name r in let b := ob_block_id r in
  let refused := corrupt "nonempty authorized prefix has no local metadata" in
  _ ← check (reject_if (bool_decide (ob_write_offset r <> 0) || bool_decide (ob_visible_len r <> 0)) refused);
  present ← exists_ (data_path (paths g b));
  _ ← check (reject_if present refused);
  let m := mk_BlockMeta b g (requested_format r) 0 BlockReady (ob_fencing_token r) (ob_tier r) in
  _ ← write_meta g b m; mret m.

Definition open_block_write (r : OpenBlockWriteRequest) : io BlockMeta :=
  let g := ob_group_name r in let b := ob_block_id r in
  _ ← check (map_err (fun _ => invalid_argument "invalid block shape")
               (block_shape_new (ob_block_format_id r) (ob_block_size r) (ob_chunk_size r) (ob_block_size r)));
  _ ← check (validate_token (ob_fencing_token r) b);
  _ ← check (reject_if ((ob_block_size r <=? ob_write_offset r) || (ob_write_offset r <? ob_visible_len r))
               (invalid_argument "invalid authorized write prefix"));
  _ ← create_dir_durable (block_dir g b);
  loaded ← catch (load_meta g b);
  m ← match loaded with
      | Ok m => reopened_meta r m
      | Err (WE_NotFound _) => created_meta r
      | Err e => throw e
      | Panic => check Panic
      end;
  _ ← restore_prefix g b m;
  mret m.

Definition write_at (g : GroupName) (b : BlockId) (offset : Z) (data : bytes) : io unit :=
  m ← load_meta g b;
  _ ← check (ensure_readable m);
  stop ← check match checked_add64 offset (Z.of_nat (length data)) with
               | Some e => Ok e
               | None => Err (invalid_argument "write range overflow")
               end;
  _ ← check (reject_if (bool_decide (data = []) || (offset <? bm_durable_len m) || (bf_block_size (bm_format m) <? stop))
               (invalid_argument "write crosses the durable prefix or block capacity"));
  file ← open_file_with from_io (data_path (paths g b));
  len ← file_len file;
  _ ← check (reject_if (bool_decide (offset <> len)) (invalid_argument "write is not at the physical append cursor"));
  write_all file offset data.

Definition checkpoint_block (r : CheckpointBlockRequest) : io BlockMeta :=
  let g := ck_group_name r in let b := ck_block_id r in
  m ← load_meta g b;
  _ ← check (ensure_readable m);
  _ ← check (reject_if (bool_decide (bm_token m <> ck_fencing_token r)) (worker_fenced "checkpoint writer was fenced"));
  _ ← check (reject_if ((ck_effective_len r <? bm_durable_len m) || (bf_block_size (bm_format m) <? ck_effective_len r)
                        || bool_decide (ck_effective_len r = 0))
               (invalid_argument "invalid checkpoint length"));
  data ← open_file_with from_io (data_path (paths g b));
  len ← file_len data;
  _ ← check (reject_if (bool_decide (len <> ck_effective_len r)) (corrupt "checkpoint length differs from written bytes"));
  _ ← sync_all data;
  let m := with_durable_len m (ck_effective_len r) in
  _ ← write_meta g b m;
  mret m.

Definition read_at (g : GroupName) (b : BlockId) (offset len : Z) : io bytes :=
  m ← load_meta g b;
  _ ← check (ensure_readable m);
  _ ← check match checked_add64 offset len with
            | Some e => reject_if (bm_durable_len m <? e) (invalid_argument "read exceeds durable prefix")
            | None => Err (invalid_argument "read exceeds durable prefix")
            end;
  _ ← validate_data_prefix g b m;
  file ← open_file_with from_io (data_path (paths g b));
  read_exact_at (map_truncated_read_error "durable read is truncated") file (Z.to_nat offset) (Z.to_nat len).

Definition inspect_reclaim_block (g : GroupName) (b : BlockId) : io ReclaimBlockState :=
  loaded ← catch (load_meta g b);
  match loaded with
  | Ok m => mret (if bool_decide (bm_state m = BlockDeleting) then RB_Deleting else RB_Ready)
  | Err (WE_NotFound _) =>
      data ← exists_ (data_path (paths g b));
      temp ← ((if (data : bool) then mret true else exists_ (temp_meta_path (paths g b))) : io bool);
      _ ← check (reject_if temp (corrupt "unidentified block artifacts"));
      mret RB_Absent
  | Err e => throw e
  | Panic => check Panic
  end.

Definition reclaim_block (g : GroupName) (b : BlockId) : io ReclaimBlockResult :=
  state ← inspect_reclaim_block g b;
  match state with
  | RB_Absent => mret RR_AlreadyAbsent
  | _ =>
      m ← load_meta g b;
      let m := with_block_state m BlockDeleting in
      _ ← write_meta g b m;
      _ ← complete_deletion g b;
      mret (RR_Deleted (bm_durable_len m))
  end.

Definition discard_unsynced_suffix (g : GroupName) (b : BlockId) : io unit :=
  loaded ← catch (load_meta g b);
  match loaded with
  | Ok m => _ ← check (ensure_readable m); restore_prefix g b m
  | Err (WE_NotFound _) => mret tt
  | Err e => throw e
  | Panic => check Panic
  end.

(** ** Scans *)

(** [for x in xs { .. }] with a body that may fail. *)
Fixpoint for_each {A} (xs : list A) (f : A -> io unit) : io unit :=
  match xs with [] => mret tt | x :: xs => _ ← f x; for_each xs f end.
Fixpoint for_collect {A B} (xs : list A) (f : A -> io (list B)) : io (list B) :=
  match xs with [] => mret [] | x :: xs => y ← f x; ys ← for_collect xs f; mret (y ++ ys) end.

Definition expect_dir (m : string) (n : node) : result WorkerError unit :=
  match n with DirNode => Ok tt | FileNode _ => Err (corrupt m) end.
Definition expect_file (m : string) (n : node) : result WorkerError unit :=
  match n with DirNode => Err (corrupt m) | FileNode _ => Ok tt end.

Definition block_files (root : path) : io (list path) :=
  present ← try_exists root;
  if negb (present : bool) then mret [] else
  firsts ← read_dir order root;
  for_collect firsts (fun '(first, kind) =>
    _ ← check (expect_dir "invalid first block directory" kind);
    seconds ← read_dir order first;
    for_collect seconds (fun '(second, kind) =>
      _ ← check (expect_dir "invalid second block directory" kind);
      files ← read_dir order second;
      for_collect files (fun '(file, kind) =>
        _ ← check (expect_file "invalid block artifact" kind); mret [file]))).

Definition has_extension (ext : string) (p : path) : bool := bool_decide (extension p = Some ext).

Definition report_order (m m' : BlockMeta) : bool :=
  let b := bm_block_id m in let b' := bm_block_id m' in
  (block_inode_id b <? block_inode_id b')
  || bool_decide (block_inode_id b = block_inode_id b') && (block_index b <=? block_index b').
Fixpoint insert_report (m : BlockMeta) (ms : list BlockMeta) : list BlockMeta :=
  match ms with
  | [] => [m]
  | m' :: ms' => if report_order m m' then m :: ms else m' :: insert_report m ms'
  end.

Definition scan_group_blocks (g : GroupName) : io (list BlockMeta) :=
  files ← block_files (blocks_dir g);
  found ← for_collect (filter (fun p => has_extension "meta" p = true) files) (fun p =>
    m ← read_report_meta p;
    _ ← check (validate_meta m g (bm_block_id m));
    _ ← check (reject_if (bool_decide (meta_path (paths g (bm_block_id m)) <> p))
                 (corrupt "block identity differs from metadata path"));
    if bool_decide (bm_state m = BlockReady) then
      _ ← validate_data_prefix g (bm_block_id m) m; mret [m]
    else mret []);
  mret (foldr insert_report [] found).

(** ** Recovery *)

Definition recover_meta (g : GroupName) (p : path) : io unit :=
  m ← read_meta_file p;
  let b := bm_block_id m in
  _ ← check (validate_meta m g b);
  _ ← check (reject_if (bool_decide (meta_path (paths g b) <> p)) (corrupt "block identity differs from metadata path"));
  if bool_decide (bm_state m = BlockDeleting) then complete_deletion g b else restore_prefix g b m.

Definition remove_temp (p : path) : io unit :=
  _ ← remove_file_if_exists p;
  match parent p with Some dir => sync_parent_dir dir | None => check Panic end.

Definition identify (p : path) : io unit :=
  let unidentified := corrupt "unidentified block file" in
  if has_extension "meta" p then mret tt
  else if has_extension "blk" p then
    present ← exists_ (with_extension p "meta"); check (reject_if (negb present) unidentified)
  else throw unidentified.

(** One group; the number of blocks it found. *)
Definition recover_group (entry : path * node) : io nat :=
  let '(dir, kind) := entry in
  _ ← check (expect_dir "unexpected entry in groups directory" kind);
  g ← check (map_err (fun _ => corrupt "invalid group name") (group_name_parse (chars_of (default EmptyString (head dir)))));
  files ← block_files ("blocks" :: dir);
  _ ← for_each (filter (fun p => has_extension "tmp" p = true) files) remove_temp;
  let metas := filter (fun p => has_extension "meta" p = true) files in
  _ ← for_each metas (recover_meta g);
  after ← block_files ("blocks" :: dir);
  _ ← for_each after identify;
  mret (length metas).

Definition recover_blocks : io nat :=
  present ← exists_ ["groups"];
  if negb (present : bool) then mret 0%nat else
  groups ← read_dir order ["groups"];
  counts ← for_collect groups (fun entry => n ← recover_group entry; mret [n]);
  mret (sum_list counts).

End Store.
