(* ===== verification/DiskLogic.v ===== *)
(** * Reasoning about programs over a disk

    [dwp m d Q R]: whatever goes wrong, [m] started on [d] ends with [Q] when it
    returns and leaves a disk with [R] when it fails or the machine stops. *)

From S2P Require Import Prelude Types Errors WorkerTypes Bytes FileSystem.
Local Open Scope Z_scope.

Definition dwp {A} (m : io A) (d : Disk) (Q : A -> Disk -> Prop) (R : Disk -> Prop) : Prop :=
  forall fs, match m fs d with
             | (Done a, _, d') => Q a d'
             | (Failed _, _, d') | (Halted, _, d') => R d'
             end.

Section Rules.
Context {A B : Type}.
Implicit Types (d : Disk) (R : Disk -> Prop).

Lemma dwp_ret (a : A) d (Q : A -> Disk -> Prop) R : Q a d -> dwp (mret a) d Q R.
Proof. by intros H fs. Qed.

Lemma dwp_bind (m : io A) (k : A -> io B) d Q R : dwp m d (fun a d' => dwp (k a) d' Q R) R -> dwp (m ≫= k) d Q R.
Proof.
  intros H fs. specialize (H fs). unfold mbind, io_bind.
  destruct (m fs d) as [[[a|e|] fs'] d']; [apply H|done|done].
Qed.

Lemma bind_done (m : io A) (k : A -> io B) fs d a fs' d' : m fs d = (Done a, fs', d') -> (m ≫= k) fs d = k a fs' d'.
Proof. intros Hm. unfold mbind, io_bind. by rewrite Hm. Qed.

Lemma dwp_mono (m : io A) d (Q Q' : A -> Disk -> Prop) R R' :
  dwp m d Q R -> (forall a d', Q a d' -> Q' a d') -> (forall d', R d' -> R' d') -> dwp m d Q' R'.
Proof. intros H HQ HR fs. specialize (H fs). destruct (m fs d) as [[[a|e|] fs'] d']; auto. Qed.

Lemma dwp_weaken (m : io A) d Q R' R : dwp m d Q R' -> (forall d', R' d' -> R d') -> dwp m d Q R.
Proof. intros H HR. by eapply dwp_mono. Qed.

Lemma dwp_check (r : result WorkerError A) d (Q : A -> Disk -> Prop) R :
  (forall a, r = Ok a -> Q a d) -> R d -> dwp (check r) d Q R.
Proof. intros HQ HR fs. destruct r; simpl; auto. Qed.

Lemma dwp_throw e d (Q : A -> Disk -> Prop) R : R d -> dwp (throw e) d Q R.
Proof. by intros H fs. Qed.

Lemma dwp_syscall wrap (act : Disk -> result IoErrorKind (A * Disk)) part d (Q : A -> Disk -> Prop) R :
  (forall a d', act d = Ok (a, d') -> Q a d') -> (forall k, R (part k d)) -> R d -> dwp (syscall wrap act part) d Q R.
Proof.
  intros HQ HP HR fs. unfold syscall.
  destruct fs as [|[| |] fs]; auto; destruct (act d) as [[a d']| |] eqn:E; auto.
Qed.

Lemma dwp_query wrap (f : Disk -> result IoErrorKind A) d (Q : A -> Disk -> Prop) R :
  (forall a, f d = Ok a -> Q a d) -> R d -> dwp (query wrap f) d Q R.
Proof.
  intros HQ HR. apply dwp_syscall; [|done|done]. intros a d' E.
  destruct (f d) as [x| |] eqn:Ef; simplify_eq/=. auto.
Qed.

Lemma dwp_attempt wrap (f : Disk -> result IoErrorKind (A * Disk)) d (Q : A -> Disk -> Prop) R :
  (forall a d', f d = Ok (a, d') -> Q a d' /\ R d') -> R d -> dwp (attempt wrap f) d Q R.
Proof.
  intros HQ HR. apply dwp_syscall; [intros a d' E; by apply (HQ a d' E)| |done].
  intros [|k]; [done|]. destruct (f d) as [[a d']| |] eqn:E; [|done|done]. by apply (HQ a d' eq_refl).
Qed.
End Rules.

Lemma dwp_command f d (Q : unit -> Disk -> Prop) (R : Disk -> Prop) :
  Q tt (f d) -> R (f d) -> R d -> dwp (command f) d Q R.
Proof. intros HQ HR HR0. apply dwp_attempt; [|done]. by intros [] d' [= <-]. Qed.

Lemma dwp_probe f d (Q : bool -> Disk -> Prop) (R : Disk -> Prop) :
  (forall b, (b = true -> f d = true) -> Q b d) -> R d -> dwp (probe f) d Q R.
Proof. intros HQ HR fs. unfold probe. destruct fs as [|[| |] fs]; try exact HR; by apply HQ. Qed.

Lemma dwp_path_len p d (Q : result IoErrorKind Z -> Disk -> Prop) (R : Disk -> Prop) :
  (forall r, (r = Err IO_NotFound -> now d p = None) ->
     (forall n, r = Ok n -> exists i, now d p = Some (FileNode i) /\ n = Z.of_nat (length (bd_data (body_of d i)))) -> Q r d) ->
  R d -> dwp (path_len p) d Q R.
Proof.
  intros HQ HR fs. unfold path_len.
  destruct fs as [|[|[] k|k] fs]; try exact HR; apply HQ; simpl; try done;
    destruct (now d p) as [[|i]|]; naive_solver.
Qed.

(** ** Programs that change nothing *)

Definition reads {A} (m : io A) : Prop := forall fs d, (m fs d).2 = d.

Lemma reads_ret {A} (a : A) : reads (mret a).
Proof. done. Qed.
Lemma reads_bind {A B} (m : io A) (k : A -> io B) : reads m -> (forall a, reads (k a)) -> reads (m ≫= k).
Proof.
  intros Hm Hk fs d. unfold mbind, io_bind. specialize (Hm fs d).
  destruct (m fs d) as [[[a|e|] fs'] d']; simpl in Hm; subst; [apply Hk|done|done].
Qed.
Lemma reads_check {A} (r : result WorkerError A) : reads (check r).
Proof. by destruct r. Qed.
Lemma reads_query {A} wrap (f : Disk -> result IoErrorKind A) : reads (query wrap f).
Proof.
  intros fs d. unfold query, syscall. destruct fs as [|[| |] fs]; try done; by destruct (f d) as [x| |].
Qed.

Create HintDb reads.
#[export] Hint Resolve reads_ret reads_bind reads_check reads_query : reads.

(** ** Names and contents after a change *)

Lemma slot_set p v d q :
  slot_of (set_name p v d) q = if bool_decide (q = p) then mk_slot v (now d p :: sl_past (slot_of d p)) else slot_of d q.
Proof.
  unfold slot_of at 1. unfold set_name. cbn [dk_names]. case_bool_decide as Hq; [subst; by rewrite lookup_insert_eq|].
  by rewrite lookup_insert_ne by congruence.
Qed.
Lemma now_set p v d q : now (set_name p v d) q = if bool_decide (q = p) then v else now d q.
Proof. unfold now at 1. rewrite slot_set. by case_bool_decide. Qed.
Lemma may_set p v d q w : may (set_name p v d) q w <-> may d q w \/ q = p /\ w = v.
Proof.
  unfold may. rewrite now_set, slot_set. case_bool_decide as Hq; [|naive_solver].
  subst q. cbn [sl_past]. rewrite elem_of_cons. naive_solver.
Qed.

Lemma slot_sync dir d q :
  slot_of (sync_names dir d) q = if bool_decide (parent q = Some dir) then mk_slot (now d q) [] else slot_of d q.
Proof.
  unfold slot_of at 1. unfold sync_names. cbn [dk_names]. rewrite map_lookup_imap. unfold now, slot_of.
  destruct (dk_names d !! q) as [s|]; simpl; by case_bool_decide.
Qed.
Lemma now_sync dir d q : now (sync_names dir d) q = now d q.
Proof. unfold now at 1. rewrite slot_sync. by case_bool_decide. Qed.
Lemma may_sync dir d q w : may (sync_names dir d) q w -> may d q w.
Proof.
  unfold may. rewrite now_sync, slot_sync. case_bool_decide; [|done]. intros [?|Hw]; [by left|]. by apply elem_of_nil in Hw.
Qed.
Lemma may_synced dir d q w : parent q = Some dir -> may (sync_names dir d) q w -> w = now d q.
Proof.
  intros Hq. unfold may. rewrite now_sync, slot_sync, bool_decide_eq_true_2 by done.
  intros [?|Hw]; [done|]. by apply elem_of_nil in Hw.
Qed.
Lemma may_now d p : may d p (now d p).
Proof. by left. Qed.

Lemma now_create p d q : now (create_in p d) q = if bool_decide (q = p) then Some (FileNode (dk_next d)) else now d q.
Proof. apply (now_set p (Some (FileNode (dk_next d))) d q). Qed.
Lemma may_create p d q w : may (create_in p d) q w <-> may d q w \/ q = p /\ w = Some (FileNode (dk_next d)).
Proof. apply (may_set p (Some (FileNode (dk_next d))) d q w). Qed.

Lemma names_update i f d : dk_names (update_body i f d) = dk_names d.
Proof. unfold update_body. by destruct (dk_files d !! i). Qed.
Lemma slot_update i f d p : slot_of (update_body i f d) p = slot_of d p.
Proof. unfold slot_of. by rewrite names_update. Qed.
Lemma now_update i f d p : now (update_body i f d) p = now d p.
Proof. unfold now. by rewrite slot_update. Qed.
Lemma may_update i f d p v : may (update_body i f d) p v <-> may d p v.
Proof. unfold may. by rewrite now_update, slot_update. Qed.
Lemma next_update i f d : dk_next (update_body i f d) = dk_next d.
Proof. unfold update_body. by destruct (dk_files d !! i). Qed.
Lemma files_update i f d j :
  dk_files (update_body i f d) !! j = if bool_decide (j = i) then f <$> dk_files d !! j else dk_files d !! j.
Proof.
  unfold update_body. case_bool_decide as Hj; [subst j|]; destruct (dk_files d !! i) eqn:E; cbn.
  - by rewrite lookup_insert_eq.
  - by rewrite E.
  - by rewrite lookup_insert_ne by congruence.
  - done.
Qed.
Lemma body_of_lookup d i b : dk_files d !! i = Some b -> body_of d i = b.
Proof. unfold body_of. by intros ->. Qed.
