(* ===== verification/SampleWire.v ===== *)
(** * An encoding of block metadata

    One that has the properties assumed of the generated protobuf code, so that runs of
    the block store can be computed. *)

From S2P Require Import Prelude Types Errors WorkerTypes Bytes FileSystem BlockMeta.

Definition proto_tuple (p : BlockMetaPayloadProto) :=
  let id i := (bip_inode_id i, bip_block_index i) in
  ((fun i => (id <$> bidp_block_id i, bidp_group_name i)) <$> bmp_identity p,
   (fun f => (bfp_format_id f, bfp_block_size f, bfp_chunk_size f)) <$> bmp_format p,
   bmp_source p,
   (fun v => (bvp_block_state v, (fun t => (id <$> ftp_block_id t, (fun c => (cip_high c, cip_low c)) <$> ftp_owner t, ftp_epoch t))
      <$> bvp_fencing_token v)) <$> bmp_visibility p,
   bmp_tier p).
Definition proto_untuple t : BlockMetaPayloadProto :=
  let '(i, f, s, v, tier) := t in
  let id '(x, y) := mk_BlockIdProto x y in
  mk_BlockMetaPayloadProto
    ((fun '(x, y) => mk_BlockIdentityProto (id <$> x) y) <$> i)
    ((fun '(x, y, z) => mk_BlockFormatProto x y z) <$> f) s
    ((fun '(x, y) => mk_BlockVisibilityProto x ((fun '(a, c, e) =>
       mk_FencingTokenProto (id <$> a) ((fun '(h, l) => mk_ClientIdProto h l) <$> c) e) <$> y)) <$> v) tier.

Lemma proto_untuple_tuple p : proto_untuple (proto_tuple p) = p.
Proof.
  destruct p as [[[[[]|] ?]|] [[]|] ? [[? [[[[]|] [[]|] ?]|]]|] ?]; reflexivity.
Qed.

#[global] Instance proto_eq_dec : EqDecision BlockMetaPayloadProto.
Proof.
  intros p q. refine (cast_if (decide (proto_tuple p = proto_tuple q))); [|congruence].
  by rewrite <- (proto_untuple_tuple p), <- (proto_untuple_tuple q); f_equal.
Defined.
#[global] Instance proto_countable : Countable BlockMetaPayloadProto := inj_countable' _ _ proto_untuple_tuple.

#[global] Instance u64_ok_dec z : Decision (u64_ok z).
Proof. unfold u64_ok. apply _. Defined.
#[global] Instance u32_ok_dec z : Decision (u32_ok z).
Proof. unfold u32_ok. apply _. Defined.
#[global] Instance option_Forall_dec' {A} (P : A -> Prop) `{!forall x, Decision (P x)} o : Decision (option_Forall P o).
Proof. destruct o as [x|]; [destruct (decide (P x)); [left|right; by inversion 1]; by constructor|left; constructor]. Defined.
#[global] Instance id_fits_dec p : Decision (id_fits p).
Proof. unfold id_fits. apply _. Defined.
#[global] Instance token_fits_dec p : Decision (token_fits p).
Proof. unfold token_fits. apply _. Defined.
#[global] Instance proto_fits_dec p : Decision (proto_fits p).
Proof. unfold proto_fits. apply _. Defined.

Fixpoint bits_of (p : positive) : bytes :=
  match p with xH => [x02] | xO p => x00 :: bits_of p | xI p => x01 :: bits_of p end.
Fixpoint of_bits (bs : bytes) : option positive :=
  match bs with
  | [x02] => Some xH
  | x00 :: bs => xO <$> of_bits bs
  | x01 :: bs => xI <$> of_bits bs
  | _ => None
  end.
Lemma of_bits_of p : of_bits (bits_of p) = Some p.
Proof. induction p as [p IH|p IH|]; cbn; [by rewrite IH..|done]. Qed.

Definition sample_decode (bs : bytes) : option BlockMetaPayloadProto :=
  p ← of_bits bs; m ← decode p; if decide (proto_fits m) then Some m else None.

#[global] Instance sample_wire : MetaWire.
Proof.
  refine {| proto_encode := fun p => bits_of (encode p); proto_decode := sample_decode |}.
  - intros p Hp. unfold sample_decode. rewrite of_bits_of. cbn. rewrite decode_encode. cbn. by rewrite decide_True.
  - intros bs p. unfold sample_decode. intros (x & _ & (m & _ & Hm)%bind_Some)%bind_Some. case_decide; by simplify_eq.
Defined.
