(* ===== verification/BlockMetaProps.v ===== *)
(** * Properties of the persisted block metadata

    Every metadata value a worker can hold survives being written and read back, and
    different blocks have different files. *)

From S2P Require Import Prelude Types Errors WorkerTypes Bytes FileSystem BlockMeta DiskLogic SampleWire.
Local Open Scope Z_scope.

(** ** What the source's types and parsers ensure *)

Definition block_fits (b : BlockId) : Prop := 0 < block_inode_id b <= u64_max /\ u32_ok (block_index b).
Definition group_ok (g : GroupName) : Prop := group_name_parse (chars_of g) = Ok g.
Definition fencing_fits (t : FencingToken) : Prop :=
  block_fits (ft_block_id t) /\ 0 < ft_owner t < 2 ^ 128 /\ u64_ok (ft_epoch t).

Record meta_fits (m : BlockMeta) : Prop := {
  mf_block : block_fits (bm_block_id m);
  mf_group : group_ok (bm_group_name m);
  mf_format : bf_format_id (bm_format m) = DURABLE_PREFIX;
  mf_size : u64_ok (bf_block_size (bm_format m));
  mf_chunk : u32_ok (bf_chunk_size (bm_format m));
  mf_len : u64_ok (bm_durable_len m);
  mf_token : fencing_fits (bm_token m)
}.

(** ** Conversions *)

Lemma block_id_round b : block_fits b -> block_id_try_from (block_id_to_proto b) = Ok b.
Proof. intros [? _]. unfold block_id_try_from. simpl. rewrite bool_decide_eq_false_2 by lia. by destruct b. Qed.

Lemma client_id_value high low : u64_ok high -> u64_ok low -> Z.lor (Z.shiftl high 64) low = high * 2 ^ 64 + low.
Proof.
  intros Hh Hl. unfold u64_ok, u64_max in *. rewrite Z.shiftl_mul_pow2 by lia. symmetry.
  rewrite <- Z.lxor_lor, <- Z.add_nocarry_lxor; [done|..].
  all: apply Z.bits_inj'; intros n Hn; rewrite Z.land_spec, Z.bits_0.
  all: destruct (decide (n < 64)) as [Hs|Hs].
  all: try (rewrite Z.mul_pow2_bits_low by lia; done).
  all: rewrite andb_false_iff; right; destruct (decide (low = 0)) as [->|]; [apply Z.bits_0|].
  all: apply Z.bits_above_log2; [lia|]; apply Z.log2_lt_pow2; [lia|].
  all: apply Z.lt_le_trans with (2 ^ 64); [lia|apply Z.pow_le_mono_r; lia].
Qed.

Lemma client_id_round c : 0 < c < 2 ^ 128 -> client_id_try_from (client_id_to_proto c) = Ok c.
Proof.
  intros Hc. unfold client_id_try_from, client_id_to_proto. cbn [cip_high cip_low].
  rewrite Z.shiftr_div_pow2 by lia.
  assert (0 <= c / 2 ^ 64 < 2 ^ 64) as Hq.
  { split; [apply Z.div_pos; lia|apply Z.div_lt_upper_bound; lia]. }
  rewrite (Z.mod_small (c / 2 ^ 64)) by lia.
  pose proof (Z.mod_pos_bound c (2 ^ 64) ltac:(lia)).
  rewrite client_id_value by (unfold u64_ok, u64_max; lia).
  replace (c / 2 ^ 64 * 2 ^ 64 + c mod 2 ^ 64) with c by (pose proof (Z.div_mod c (2 ^ 64)); lia).
  by rewrite bool_decide_eq_false_2 by lia.
Qed.

Lemma token_round t : fencing_fits t -> fencing_token_try_from (fencing_token_to_proto t) = Ok t.
Proof.
  intros (Hb & Ho & _). unfold fencing_token_try_from, required_block_id, required_client_id.
  cbn [fencing_token_to_proto ftp_block_id ftp_owner ftp_epoch].
  rewrite (block_id_round _ Hb), (client_id_round _ Ho). by destruct t.
Qed.

Lemma tier_round t : parse_known_tier (tier_to_proto t) = Ok t.
Proof. by destruct t. Qed.
Lemma block_state_round s : block_state_from_proto (block_state_to_proto s) = Ok s.
Proof. by destruct s. Qed.

Lemma meta_round m p : meta_fits m -> meta_to_proto m = Ok p -> meta_from_proto p = Ok m.
Proof.
  intros [Hb Hg Hf Hs Hc Hl Ht] H. unfold meta_to_proto in H. unbind H as [] Hx. injection H as <-.
  unfold meta_from_proto. cbn [bmp_identity bmp_format bmp_source bmp_visibility bmp_tier bidp_block_id
    bidp_group_name bvp_block_state bvp_fencing_token bfp_format_id bfp_block_size bfp_chunk_size ok_or mbind result_bind].
  rewrite Hg, tier_round, block_state_round, Hf. cbn [map_err mbind result_bind required_fencing_token].
  rewrite (token_round _ Ht), (block_id_round _ Hb). destruct m as [? ? [? ? ? []] ? ? ? ?]; simpl in *. by subst.
Qed.

Lemma option_Forall_Some {A} (P : A -> Prop) x : option_Forall P (Some x) -> P x.
Proof. by inversion 1. Qed.

Lemma id_to_proto_fits b : block_fits b -> id_fits (block_id_to_proto b).
Proof. intros [? ?]. split; simpl; [unfold u64_ok; lia|done]. Qed.

Lemma meta_to_proto_fits m p : meta_fits m -> meta_to_proto m = Ok p -> proto_fits p.
Proof.
  intros [Hb Hg Hf Hs Hc Hl (Htb & Hto & Hte)] H. unfold meta_to_proto in H. unbind H as [] Hx. injection H as <-.
  pose proof (fun x => Z.mod_pos_bound x (2 ^ 64) ltac:(lia)) as Hm.
  split_and!; cbn; repeat constructor; try done; try apply id_to_proto_fits; try done;
    cbn; unfold u64_ok, u32_ok, u64_max, u32_max in *; rewrite ?Hf; try (unfold DURABLE_PREFIX; lia);
    match goal with |- context [?x mod _] => specialize (Hm x); lia end.
Qed.

Lemma block_id_from_fits p b : id_fits p -> block_id_try_from p = Ok b -> block_fits b.
Proof.
  intros [H1 H2] H. unfold block_id_try_from in H. unbind H as [] Hx. injection H as <-. bool_prop.
  split; [|done]. unfold u64_ok in H1. simpl. lia.
Qed.

Lemma token_from_fits p t : token_fits p -> fencing_token_try_from p = Ok t -> fencing_fits t.
Proof.
  intros (Hb & Ho & He) H. unfold fencing_token_try_from in H. unbind H as b Hb'. unbind H as o Ho'. injection H as <-.
  unfold required_block_id in Hb'. destruct (ftp_block_id p) as [pb|]; [|done]. apply option_Forall_Some in Hb.
  unfold required_client_id in Ho'. destruct (ftp_owner p) as [po|]; [|done]. apply option_Forall_Some in Ho as [Hh Hlo].
  apply map_err_Ok in Hb', Ho'. split; [by eapply block_id_from_fits|]. split; [|done]. simpl.
  unfold client_id_try_from in Ho'. unbind Ho' as [] Hz. injection Ho' as <-. bool_prop.
  rewrite client_id_value in * by done. unfold u64_ok, u64_max in *. lia.
Qed.

Lemma meta_from_fits p m : proto_fits p -> meta_from_proto p = Ok m -> meta_fits m.
Proof.
  intros (Hi & Hf & Hs & Hv) H. unfold meta_from_proto in H.
  unbind H as i Ei. unbind H as raw Er. unbind H as g Eg. unbind H as f Ef. unbind H as n En. unbind H as v Ev.
  unbind H as t Et. unbind H as s Es. unbind H as tok Etok. unbind H as b Eb. unbind H as fid Efid. injection H as <-.
  rewrite Ei in Hi. rewrite Ef in Hf. rewrite En in Hs. rewrite Ev in Hv.
  apply option_Forall_Some in Hi. rewrite Er in Hi. apply option_Forall_Some in Hi.
  apply option_Forall_Some in Hf as (H1 & H2 & H3). apply option_Forall_Some in Hs, Hv.
  unfold required_fencing_token in Etok. destruct (bvp_fencing_token v) as [pt|]; [|done]. apply option_Forall_Some in Hv.
  constructor; cbn; try done.
  - by eapply block_id_from_fits.
  - by eapply group_name_parse_idem.
  - unfold block_format_from_raw in Efid. case_bool_decide; by simplify_eq.
  - by eapply token_from_fits.
Qed.

(** ** Files *)

Lemma le_bytes_length n v : length (le_bytes n v) = n.
Proof. unfold le_bytes. by rewrite length_reverse, be_bytes_length. Qed.
Lemma le_value_bytes n v : 0 <= v < 256 ^ Z.of_nat n -> le_value (le_bytes n v) = v.
Proof. intros. unfold le_value, le_bytes. rewrite reverse_involutive. by apply be_value_bytes. Qed.

Lemma header_round h : length (mh_magic h) = 4%nat -> u32_ok (mh_version h) -> u32_ok (mh_header_len h) ->
  u64_ok (mh_payload_len h) -> header_decode (header_encode h) = Ok h.
Proof.
  intros Hm Hv Hl Hp. destruct h as [m v l p]. simpl in *. unfold u32_ok, u64_ok, u32_max, u64_max in *.
  unfold header_decode, header_encode. cbn [mh_magic mh_version mh_header_len mh_payload_len].
  rewrite !length_app, !le_bytes_length, Hm. cbn [bool_decide].
  rewrite bool_decide_eq_false_2 by (unfold BLOCK_META_HEADER_LEN; lia). cbn [reject_if mbind result_bind]. do 2 f_equal.
  - by rewrite take_app_length' by done.
  - rewrite drop_app_length' by done. rewrite take_app_length' by by rewrite le_bytes_length. apply le_value_bytes. lia.
  - rewrite (drop_app_ge _ _ 8), Hm by lia. rewrite drop_app_length' by by rewrite le_bytes_length.
    rewrite take_app_length' by by rewrite le_bytes_length. apply le_value_bytes. lia.
  - rewrite (drop_app_ge _ _ 12), Hm by lia. rewrite drop_app_ge, le_bytes_length by (rewrite le_bytes_length; lia).
    rewrite drop_app_length' by by rewrite le_bytes_length.
    rewrite firstn_all2 by by rewrite le_bytes_length. apply le_value_bytes. lia.
Qed.

(** ** Errors other than [NotFound] *)

Definition not_missing (e : WorkerError) : Prop := match e with WE_NotFound _ => False | _ => True end.
Definition finds {A} (m : io A) : Prop := forall fs d e fs' d', m fs d = (Failed e, fs', d') -> not_missing e.
Definition finds_res {A} (r : result WorkerError A) : Prop := forall e, r = Err e -> not_missing e.

Lemma finds_ret {A} (a : A) : finds (mret a).
Proof. by intros fs d e fs' d'. Qed.
Lemma finds_bind {A B} (m : io A) (k : A -> io B) : finds m -> (forall a, finds (k a)) -> finds (m ≫= k).
Proof.
  intros Hm Hk fs d e fs' d'. unfold mbind, io_bind. destruct (m fs d) as [[[a|e'|] fs1] d1] eqn:E; intros Hr.
  - by eapply Hk.
  - simplify_eq. by eapply Hm.
  - done.
Qed.
Lemma finds_check {A} (r : result WorkerError A) : finds_res r -> finds (check r).
Proof. intros Hr fs d e fs' d' He. destruct r; unfold check, throw, mret, io_ret in He; simplify_eq. by apply Hr. Qed.
Lemma finds_query {A} wrap (f : Disk -> result IoErrorKind A) :
  (forall k, k <> IO_NotFound -> not_missing (wrap k)) -> (forall d, f d <> Err IO_NotFound) -> finds (query wrap f).
Proof.
  intros Hw Hf fs d e fs' d'. unfold query, syscall. specialize (Hf d).
  destruct fs as [|[|a n|n] fs]; [| |intros [= <- <- <-]; apply Hw; by destruct a|done];
    destruct (f d) as [x|k|] eqn:E; intros Hr; simplify_eq/=; apply Hw; congruence.
Qed.
Lemma finds_truncated s k : not_missing (map_truncated_read_error s k).
Proof. by destruct k. Qed.
Lemma finds_from_io k : k <> IO_NotFound -> not_missing (from_io k).
Proof. by destruct k. Qed.

Lemma res_Ok {A} (a : A) : finds_res (Ok a).
Proof. by intros e. Qed.
Lemma res_bind {A B} (r : result WorkerError A) (k : A -> result WorkerError B) :
  finds_res r -> (forall a, finds_res (k a)) -> finds_res (r ≫= k).
Proof. intros Hr Hk e. destruct r as [a|e'|]; simpl; intros He; [by eapply Hk|simplify_eq; by apply Hr|done]. Qed.
Lemma res_reject b e : not_missing e -> finds_res (reject_if b e).
Proof. intros H e'. destruct b; by intros [= <-]. Qed.
Lemma res_ok_or {A} (o : option A) e : not_missing e -> finds_res (ok_or o e).
Proof. intros H e'. destruct o; by intros [= <-]. Qed.
Lemma res_map_err {E A} (f : E -> WorkerError) (r : result E A) : (forall e, not_missing (f e)) -> finds_res (map_err f r).
Proof. intros H e. destruct r; by intros [= <-]. Qed.
Lemma res_block_state v : finds_res (block_state_from_proto v).
Proof. intros e. unfold block_state_from_proto. repeat case_match; by intros [= <-]. Qed.

(** The step that does not find something. *)
Lemma bind_missing {A B} (m : io A) (k : A -> io B) fs d s fs' d' : (forall a, finds (k a)) ->
  (m ≫= k) fs d = (Failed (WE_NotFound s), fs', d') -> exists fs1 d1, m fs d = (Failed (WE_NotFound s), fs1, d1).
Proof.
  intros Hk. unfold mbind, io_bind. destruct (m fs d) as [[[a|e|] fs1] d1]; intros Hr; [|simplify_eq; eauto|done].
  by apply Hk in Hr.
Qed.
Lemma open_missing p fs d s fs' d' : open_file_with from_io p fs d = (Failed (WE_NotFound s), fs', d') -> now d p = None.
Proof.
  unfold open_file_with, query, syscall.
  destruct fs as [|[|[] n|n] fs]; destruct (now d p) as [[|i]|]; intros Hr; by simplify_eq/=.
Qed.

Create HintDb finds.
#[export] Hint Resolve finds_ret finds_bind finds_check finds_truncated finds_from_io res_Ok res_bind res_reject
  res_ok_or res_map_err res_block_state : finds.
#[export] Hint Extern 1 (not_missing _) => exact I : finds.

Ltac find_all := repeat first
  [ apply finds_bind; [|intros ?] | apply finds_check | apply res_bind; [|intros ?] | progress auto with finds
  | apply finds_query; [auto with finds|intros ?; cbv beta zeta; try case_match; congruence] ].

Section Files.
Context `{MetaWire}.

(** What a metadata file means. *)
Definition parse_meta_file (bs : bytes) : option BlockMeta :=
  match (h ← header_decode (take 20 bs); header_validate h;; Ok h) with
  | Ok h =>
      if bool_decide (length bs = 20 + Z.to_nat (mh_payload_len h))%nat then
        match decode_meta_payload (drop 20 bs) with Ok m => Some m | _ => None end
      else None
  | _ => None
  end.

Lemma encode_meta_parse m e : meta_fits m -> encode_meta m = Ok e -> parse_meta_file e = Some m.
Proof.
  intros Hm H1. unfold encode_meta in H1. unbind H1 as payload Hp. unbind H1 as h Hh. injection H1 as <-.
  unfold encode_meta_payload in Hp. unbind Hp as p Hp'. injection Hp as <-.
  unfold header_for_payload in Hh. unbind Hh as [] Hl. unbind Hh as [] Hv. injection Hh as <-. bool_prop.
  set (h := mk_BlockMetaHeader _ _ _ _) in *.
  assert (length (header_encode h) = 20%nat) as Hlen.
  { unfold header_encode. by rewrite !length_app, !le_bytes_length. }
  unfold parse_meta_file. rewrite take_app_length', drop_app_length' by done.
  rewrite header_round; [|done|done|done|unfold u64_ok; cbn; lia]. cbn [mbind result_bind]. rewrite Hv. cbn [mbind result_bind].
  rewrite bool_decide_eq_true_2 by (rewrite length_app, Hlen; cbn; lia).
  unfold decode_meta_payload. rewrite proto_decode_encode by by eapply meta_to_proto_fits.
  cbn [ok_or mbind result_bind]. by rewrite (meta_round m p).
Qed.

Lemma parse_meta_fits bs m : parse_meta_file bs = Some m -> meta_fits m.
Proof.
  unfold parse_meta_file. case_match; [|done|done].
  case_bool_decide; [|done]. destruct (decode_meta_payload _) as [m'| |] eqn:E; [|done|done]. intros [= <-].
  unfold decode_meta_payload in E. unbind E as p Ep. eapply meta_from_fits; [|done]. by eapply proto_decode_fits.
Qed.

Lemma reads_read_meta_file p : reads (read_meta_file p).
Proof. unfold read_meta_file, read_meta_payload, open_file_with, read_exact_at, file_len. eauto 20 with reads. Qed.

(** A metadata file that is read is one that parses. *)
Lemma dwp_read_meta_file p d (Q : BlockMeta -> Disk -> Prop) (R : Disk -> Prop) :
  (forall i m, now d p = Some (FileNode i) -> parse_meta_file (bd_data (body_of d i)) = Some m -> Q m d) ->
  R d -> dwp (read_meta_file p) d Q R.
Proof.
  intros HQ HR. unfold read_meta_file, read_meta_payload.
  do 2 apply dwp_bind. apply dwp_query; [intros i Hi|done]. apply dwp_bind.
  destruct (now d p) as [[|j]|] eqn:Ep; simplify_eq/=.
  apply dwp_query; [intros enc Henc|done]. cbv beta zeta in Henc. case_bool_decide as Hl; simplify_eq.
  apply dwp_bind, dwp_check; [intros h Hh|done]. apply dwp_bind, dwp_check; [intros [] Hv|done].
  apply dwp_bind, dwp_query; [intros payload Hp|done]. cbv beta zeta in Hp. case_bool_decide as Hl'; simplify_eq.
  apply dwp_bind, dwp_query; [intros n Hn|done]. simplify_eq.
  apply dwp_bind, dwp_check; [intros [] Ht|done]. apply reject_if_Ok in Ht. bool_prop.
  apply dwp_ret, dwp_check; [intros m Hm|done]. apply (HQ i m eq_refl). unfold parse_meta_file.
  change (Z.to_nat BLOCK_META_HEADER_LEN) with 20%nat in *. rewrite drop_0 in Hh. rewrite Hh. cbn [mbind result_bind].
  rewrite Hv. cbn [mbind result_bind]. rewrite bool_decide_eq_true_2 by lia.
  rewrite firstn_all2 in Hm by (rewrite length_drop; lia). by rewrite Hm.
Qed.

Lemma read_meta_file_ok p d i m : now d p = Some (FileNode i) -> parse_meta_file (bd_data (body_of d i)) = Some m ->
  read_meta_file p [] d = (Done m, [], d).
Proof.
  intros Hp Hm. unfold parse_meta_file in Hm. case_match eqn:Hh; [|done|done]. case_bool_decide as Hl; [|done].
  unbind Hh as h Hd. unbind Hh as [] Hv. simplify_eq.
  destruct (decode_meta_payload _) as [m'| |] eqn:Em; simplify_eq.
  unfold read_meta_file, read_meta_payload, open_file_with, read_exact_at, file_len, query, syscall, mbind, io_bind.
  rewrite Hp. cbn -[Z.to_nat take drop]. change (Z.to_nat BLOCK_META_HEADER_LEN) with 20%nat.
  rewrite bool_decide_eq_true_2 by lia. cbn -[take drop]. rewrite drop_0, Hd. cbn -[take drop]. rewrite Hv. cbn -[take drop].
  rewrite bool_decide_eq_true_2 by lia. cbn -[take drop]. rewrite bool_decide_eq_false_2 by lia. cbn -[take drop].
  rewrite firstn_all2 by (rewrite length_drop; lia). by rewrite Em.
Qed.

(** C13. Block metadata survives its file: what [encode_meta] wrote for any
    metadata a worker can hold, in a file of any name on any disk, is what
    [read_meta_file] returns when nothing fails; and whatever fails, the file is never
    read as other metadata and the disk is left as it is. *)
Theorem meta_file_round_trip m e p d i : meta_fits m -> encode_meta m = Ok e ->
  now d p = Some (FileNode i) -> bd_data (body_of d i) = e ->
  read_meta_file p [] d = (Done m, [], d) /\ dwp (read_meta_file p) d (fun m' d' => m' = m /\ d' = d) (fun d' => d' = d).
Proof.
  intros Hm He Hp Hd. pose proof (encode_meta_parse m e Hm He) as Hparse. rewrite <- Hd in Hparse.
  split; [by eapply read_meta_file_ok|]. apply dwp_read_meta_file; [|done]. intros i' m' Hi' Hm'. by simplify_eq.
Qed.

(** [NotFound] means that there is no metadata. *)
Lemma read_meta_not_found p fs d s fs' d' :
  read_meta_file p fs d = (Failed (WE_NotFound s), fs', d') -> now d p = None.
Proof.
  unfold read_meta_file, read_meta_payload. set (k := fun i : nat => _). intros Hr.
  assert (forall i, finds (k i)) as Hk.
  { intros i. unfold k, read_exact_at, file_len, header_decode, header_validate. find_all. }
  apply bind_missing in Hr; [|intros a; apply finds_check; unfold decode_meta_payload, meta_from_proto; find_all].
  destruct Hr as (fs1 & d1 & Hr). apply bind_missing in Hr as (fs2 & d2 & Hr); [|done]. by eapply open_missing.
Qed.
End Files.

(** ** Names *)

Lemma string_app_inv (a a' b b' : string) : String.length a = String.length a' -> a +:+ b = a' +:+ b' -> a = a' /\ b = b'.
Proof.
  revert a'. induction a as [|c a IH]; intros [|c' a'] Hl He; simplify_eq/=; [done|].
  by destruct (IH a' Hl ltac:(done)) as [-> ->].
Qed.
Lemma string_app_length (a b : string) : String.length (a +:+ b) = (String.length a + String.length b)%nat.
Proof. induction a as [|c a IH]; [done|]. simpl. f_equal. exact IH. Qed.

Lemma hex_length n v : String.length (hex n v) = n.
Proof. revert v. induction n as [|n IH]; intros v; [done|]. cbn [hex]. rewrite string_app_length, IH. cbn. lia. Qed.

Lemma hex_digit_inj d d' : 0 <= d < 16 -> 0 <= d' < 16 -> hex_digit d = hex_digit d' -> d = d'.
Proof.
  intros Hd Hd' He. apply (f_equal Ascii.N_of_ascii) in He. unfold hex_digit in He.
  destruct (Z.ltb_spec d 10), (Z.ltb_spec d' 10); rewrite !Ascii.N_ascii_embedding in He by lia; lia.
Qed.

Lemma hex_inj n v v' : 0 <= v < 16 ^ Z.of_nat n -> 0 <= v' < 16 ^ Z.of_nat n -> hex n v = hex n v' -> v = v'.
Proof.
  revert v v'. induction n as [|n IH]; intros v v' Hv Hv'; [simpl in *; lia|]. cbn [hex]. intros He.
  apply string_app_inv in He as [H1 H2]; [|by rewrite !hex_length]. injection H2 as H2.
  rewrite Nat2Z.inj_succ, Z.pow_succ_r in * by lia.
  apply IH in H1; [|split; [apply Z.div_pos; lia|apply Z.div_lt_upper_bound; lia]..].
  apply hex_digit_inj in H2; [|apply Z.mod_pos_bound; lia..].
  rewrite (Z.div_mod v 16), (Z.div_mod v' 16) by lia. congruence.
Qed.

Lemma block_stem_length b : String.length (block_stem b) = 27%nat.
Proof. unfold block_stem. by rewrite !string_app_length, !hex_length. Qed.

Lemma block_stem_inj b b' : block_fits b -> block_fits b' -> block_stem b = block_stem b' -> b = b'.
Proof.
  intros [H1 H2] [H1' H2'] He. unfold u32_ok, u32_max, u64_max in *. unfold block_stem in He.
  apply string_app_inv in He as [_ He]; [|done]. apply string_app_inv in He as [Hi He]; [|by rewrite !hex_length].
  apply string_app_inv in He as [_ He]; [|done].
  apply hex_inj in Hi; [|simpl; lia..]. apply hex_inj in He; [|simpl; lia..]. destruct b, b'; simpl in *. congruence.
Qed.

(** The files of the blocks: three kinds, and no two blocks share one. *)
Definition block_name_def (suffix : string) (g : GroupName) (b : BlockId) : path := (block_stem b +:+ suffix) :: block_dir g b.
Definition block_name_aux : seal block_name_def.
Proof. by eexists. Qed.
Definition block_name : string -> GroupName -> BlockId -> path := block_name_aux.(unseal).
Lemma block_name_eq s g b : block_name s g b = (block_stem b +:+ s) :: block_dir g b.
Proof. unfold block_name. by rewrite block_name_aux.(seal_eq). Qed.
Lemma paths_names g b : paths g b = mk_BlockPaths (block_name ".blk" g b) (block_name ".meta" g b) (block_name ".meta.tmp" g b).
Proof. by rewrite !block_name_eq. Qed.

Lemma block_dir_group g g' b b' : block_dir g b = block_dir g' b' -> g = g'.
Proof.
  unfold block_dir. destruct (block_hash_prefix b), (block_hash_prefix b').
  intros He. by apply (f_equal (fun p => nth 3 p EmptyString)) in He.
Qed.

Lemma block_name_inj s s' g g' b b' : block_fits b -> block_fits b' ->
  block_name s g b = block_name s' g' b' -> s = s' /\ g = g' /\ b = b'.
Proof.
  intros Hb Hb' He. rewrite !block_name_eq in He. pose proof (f_equal (fun p => nth 0 p EmptyString) He) as Hn. pose proof (f_equal tail He) as Hd.
  cbn [nth tail] in Hn, Hd. apply string_app_inv in Hn as [Hs ->]; [|by rewrite !block_stem_length].
  split_and!; [done|by eapply block_dir_group|by apply block_stem_inj].
Qed.

Lemma block_name_length s g b : length (block_name s g b) = 6%nat.
Proof. rewrite block_name_eq. unfold block_dir. by destruct (block_hash_prefix b). Qed.
Lemma block_dir_length g b : length (block_dir g b) = 5%nat.
Proof. unfold block_dir. by destruct (block_hash_prefix b). Qed.

Lemma block_dir_eq g b : exists y x, block_dir g b = y :: x :: "blocks" :: group_dir g.
Proof. unfold block_dir. destruct (block_hash_prefix b). by eexists _, _. Qed.

#[global] Opaque block_stem block_dir.

(** ** An example *)

Definition example_meta : BlockMeta :=
  mk_BlockMeta (mk_BlockId 5 1) "root" (mk_BlockFormat DURABLE_PREFIX 64 DURABLE_PREFIX_STORAGE_CHUNK_SIZE ChecksumNone) 3
    BlockReady (mk_FencingToken (mk_BlockId 5 1) (2 ^ 100 + 7) 2) Hdd.

Lemma meta_file_round_trip_witness : exists e d,
  read_meta_file ["m"] [] d = (Done example_meta, [], d) /\ encode_meta example_meta = Ok e.
Proof.
  assert (meta_fits example_meta) as Hfit by (constructor; vm_compute; intuition congruence).
  assert (exists e, encode_meta example_meta = Ok e) as [e He] by (eexists; vm_compute; reflexivity).
  set (d := mk_Disk {[ ["m"] := mk_slot (Some (FileNode 0)) [] ]} {[ 0%nat := mk_body e [] 0 false ]} 1).
  exists e, d. split; [|done]. by apply (meta_file_round_trip example_meta e ["m"] d 0 Hfit He).
Defined.
