(* ===== verification/DiskInv.v ===== *)
(** * Well-formed disks

    What holds of every disk the block store leaves: names mean files that exist, a
    file has one name, or the two of a metadata file being replaced, and the synced
    bytes a file keeps are the ones it has. *)

From S2P Require Import Prelude Types Errors WorkerTypes Bytes FileSystem BlockMeta DiskLogic BlockMetaProps.

Notation blk := (block_name ".blk") (only parsing).
Notation meta := (block_name ".meta") (only parsing).
Notation temp := (block_name ".meta.tmp") (only parsing).

Definition body_ok (b : body) : Prop :=
  bd_kept b <= length (bd_synced b) /\ take (bd_kept b) (bd_data b) = take (bd_kept b) (bd_synced b) /\
  (bd_clean b = true -> bd_synced b = bd_data b /\ bd_kept b = length (bd_data b)).

Definition twins (t m : path) : Prop := exists g b, block_fits b /\ t = temp g b /\ m = meta g b.

(** The names the store makes: directories down to those of the blocks, and their files. *)
Definition named (p : path) (n : node) : Prop :=
  (n = DirNode /\ exists g b, group_ok g /\ block_fits b /\ p `suffix_of` block_dir g b) \/
  (exists i s g b, n = FileNode i /\ (s = ".blk" \/ s = ".meta" \/ s = ".meta.tmp") /\ group_ok g /\ block_fits b /\ p = block_name s g b).

Lemma named_file g b s i : group_ok g -> block_fits b -> s = ".blk" \/ s = ".meta" \/ s = ".meta.tmp" ->
  named (block_name s g b) (FileNode i).
Proof. intros Hg Hb Hs. right. by exists i, s, g, b. Qed.

Record disk_wf (d : Disk) : Prop := {
  dw_root : forall v, may d [] v -> v = Some DirNode;
  dw_tree : forall name dir n, now d (name :: dir) = Some n -> now d dir = Some DirNode;
  dw_file : forall p i, may d p (Some (FileNode i)) -> is_Some (dk_files d !! i);
  dw_fresh : forall i, is_Some (dk_files d !! i) -> i < dk_next d;
  dw_body : forall i b, dk_files d !! i = Some b -> body_ok b;
  dw_alone : forall p q i, may d p (Some (FileNode i)) -> may d q (Some (FileNode i)) -> p = q \/ twins p q \/ twins q p;
  dw_named : forall p n, may d p (Some n) -> named p n
}.

(** No temporary file is the metadata file of a block, or may be after a crash. *)
Definition no_alias (d : Disk) : Prop :=
  forall g b i, block_fits b -> now d (temp g b) = Some (FileNode i) -> ~ may d (meta g b) (Some (FileNode i)).

(** ** Contents *)

(** A change that keeps what was synced. *)
Definition improves (b b' : body) : Prop :=
  bd_kept b <= bd_kept b' /\ take (bd_kept b) (bd_synced b') = take (bd_kept b) (bd_synced b).

Lemma improves_refl b : improves b b.
Proof. by split. Qed.

Lemma body_ok_length b : body_ok b -> bd_kept b <= length (bd_data b).
Proof.
  intros (Hl & He & _). apply (f_equal length) in He. rewrite !length_take in He. lia.
Qed.

Lemma body_ok_sync b : body_ok (sync_body b).
Proof. by split; cbn. Qed.
Lemma improves_sync b : body_ok b -> improves b (sync_body b).
Proof. intros Hb. split; cbn; [by apply body_ok_length|apply Hb]. Qed.

Lemma take_take_min {A} (n m : nat) (l l' : list A) : take n l = take n l' -> take (Nat.min n m) l = take (Nat.min n m) l'.
Proof.
  intros H. rewrite (Nat.min_comm n m), <- !take_take. by rewrite H.
Qed.

Lemma take_pad n m (data : bytes) : m <= n -> m <= length data -> take m (take n (pad n data)) = take m data.
Proof.
  intros Hn Hm. rewrite take_take, Nat.min_l by done. unfold pad. by rewrite take_app_le by done.
Qed.

Lemma body_ok_write off new b : body_ok b -> body_ok (write_body off new b).
Proof.
  intros Hb. pose proof (body_ok_length b Hb) as Hk. destruct Hb as (Hl & He & _). split_and!; cbn; [lia| |done].
  unfold overwrite. rewrite take_app_le by (rewrite length_take; unfold pad; rewrite length_app, length_replicate; lia).
  rewrite take_pad by lia. by apply take_take_min.
Qed.
Lemma improves_write off new b : bd_kept b <= off -> improves b (write_body off new b).
Proof. intros H. split; cbn; [lia|done]. Qed.

Lemma body_ok_resize n b : body_ok b -> body_ok (resize_body n b).
Proof.
  intros Hb. pose proof (body_ok_length b Hb) as Hk. destruct Hb as (Hl & He & _). split_and!; cbn; [lia| |done].
  rewrite take_pad by lia. by apply take_take_min.
Qed.

Create HintDb disk.
#[export] Hint Resolve body_ok_sync body_ok_write body_ok_resize improves_refl improves_sync improves_write : disk.

(** ** The changes keep a disk well formed *)

Lemma wf_update d i f : disk_wf d -> (forall b, body_ok b -> body_ok (f b)) -> disk_wf (update_body i f d).
Proof.
  intros [Hr Ht Hf Hn Hb Ha Hnm] Hok. constructor.
  - intros v. rewrite may_update. apply Hr.
  - intros name dir n. rewrite !now_update. apply Ht.
  - intros p j. rewrite may_update, files_update. intros Hp%Hf. case_bool_decide; [by apply fmap_is_Some|done].
  - intros j. rewrite files_update, next_update. case_bool_decide; [rewrite fmap_is_Some|]; apply Hn.
  - intros j b. rewrite files_update. case_bool_decide; [|apply Hb].
    intros (b' & Hj & ->)%fmap_Some. by eapply Hok, Hb.
  - intros p q j. rewrite !may_update. apply Ha.
  - intros p n. rewrite may_update. apply Hnm.
Qed.

Lemma wf_sync d dir : disk_wf d -> disk_wf (sync_names dir d).
Proof.
  intros [Hr Ht Hf Hn Hb Ha Hnm]. constructor; try done.
  - intros v Hv%may_sync. auto.
  - intros name dir' n. rewrite !now_sync. apply Ht.
  - intros p i Hp%may_sync. by eapply Hf.
  - intros p q i Hp%may_sync Hq%may_sync. by eapply Ha.
  - intros p n Hp%may_sync. auto.
Qed.

(** Removing a file. *)
Lemma wf_remove d p i : disk_wf d -> now d p = Some (FileNode i) -> disk_wf (set_name p None d).
Proof.
  intros Hw Hp. pose proof Hw as [Hr Ht Hf Hn Hb Ha Hnm]. constructor; try done.
  - intros v [Hv|[<- ->]]%may_set; [auto|]. pose proof (Hr _ (may_now d [])). congruence.
  - intros name dir n. rewrite !now_set. case_bool_decide; [done|]. intros Hc%Ht.
    case_bool_decide; [congruence|done].
  - intros q j [Hq|[_ ?]]%may_set; [by eapply Hf|done].
  - intros q q' j [Hq|[_ ?]]%may_set [Hq'|[_ ?]]%may_set; [by eapply Ha|done..].
  - intros q n [Hq|[-> E]]%may_set; [auto|by simplify_eq].
Qed.

Lemma wf_create d p : disk_wf d -> (forall i, named p (FileNode i)) -> in_directory d p = true -> now d p = None -> disk_wf (create_in p d).
Proof.
  intros Hw Hnp Hp Hnone. pose proof Hw as [Hr Ht Hf Hn Hb Ha Hnm].
  destruct p as [|name dir]; [done|]. cbn in Hp. bool_prop.
  assert (forall q, ~ may d q (Some (FileNode (dk_next d)))) as Hnew.
  { intros q Hq%Hf%Hn. lia. }
  constructor.
  - intros v [Hv|[? _]]%may_create; [auto|done].
  - intros name' dir' n. rewrite !now_create. case_bool_decide as Hc.
    + simplify_eq. rewrite bool_decide_eq_false_2; [done|]. intros E%(f_equal length). cbn in E. lia.
    + intros Hd%Ht. case_bool_decide; [congruence|done].
  - intros q j [Hq|[_ [= ->]]]%may_create; cbn; [|rewrite lookup_insert_eq; eauto].
    rewrite lookup_insert_ne; [by eapply Hf|]. intros <-. by eapply Hnew.
  - intros j. cbn. intros Hj. destruct (decide (j = dk_next d)) as [->|]; [lia|].
    rewrite lookup_insert_ne in Hj by done. apply Hn in Hj. lia.
  - intros j b. cbn. intros [[<- <-]|[_ Hj]]%lookup_insert_Some; [by split|by eapply Hb].
  - intros q q' j [Hq|[-> E]]%may_create [Hq'|[-> E']]%may_create; [by eapply Ha| | |by left];
      simplify_eq; by apply Hnew in Hq || by apply Hnew in Hq'.
  - intros q n [Hq|[-> [= ->]]]%may_create; auto.
Qed.

Lemma wf_mkdir d p : disk_wf d -> named p DirNode -> in_directory d p = true -> now d p = None -> disk_wf (set_name p (Some DirNode) d).
Proof.
  intros Hw Hnp Hp Hnone. pose proof Hw as [Hr Ht Hf Hn Hb Ha Hnm].
  destruct p as [|name dir]; [done|]. cbn in Hp. bool_prop. constructor; try done.
  - intros v [Hv|[? _]]%may_set; [auto|done].
  - intros name' dir' n. rewrite !now_set. case_bool_decide as Hc.
    + simplify_eq. case_bool_decide; [done|done].
    + intros Hd%Ht. case_bool_decide; [congruence|done].
  - intros q j [Hq|[_ ?]]%may_set; [by eapply Hf|done].
  - intros q q' j [Hq|[_ ?]]%may_set [Hq'|[_ ?]]%may_set; [by eapply Ha|done..].
  - intros q n [Hq|[-> E]]%may_set; [auto|by simplify_eq].
Qed.

(** ** Names of different kinds *)

Lemma twins_temp g b q : block_fits b -> twins (temp g b) q -> q = meta g b.
Proof. intros Hb (g' & b' & Hb' & He & ->). by apply block_name_inj in He as (_ & -> & ->). Qed.
Lemma twins_meta g b q : block_fits b -> twins q (meta g b) -> q = temp g b.
Proof. intros Hb (g' & b' & Hb' & -> & He). by apply block_name_inj in He as (_ & -> & ->). Qed.
Lemma twins_not_temp g b q : block_fits b -> ~ twins q (temp g b).
Proof. intros Hb (g' & b' & Hb' & _ & He). by apply block_name_inj in He as (He & _). Qed.
Lemma twins_not_meta g b q : block_fits b -> ~ twins (meta g b) q.
Proof. intros Hb (g' & b' & Hb' & He & _). by apply block_name_inj in He as (He & _). Qed.
Lemma twins_not_blk g b q : block_fits b -> ~ twins (blk g b) q /\ ~ twins q (blk g b).
Proof.
  intros Hb. split.
  - intros (g' & b' & Hb' & He & _). by apply block_name_inj in He as (He & _).
  - intros (g' & b' & Hb' & _ & He). by apply block_name_inj in He as (He & _).
Qed.

Section Owners.
Context (d : Disk) (Hw : disk_wf d).

Lemma blk_alone g b p i : block_fits b -> may d (blk g b) (Some (FileNode i)) -> may d p (Some (FileNode i)) -> p = blk g b.
Proof.
  intros Hb Hi Hp. destruct (dw_alone d Hw _ _ _ Hi Hp) as [->|[H|H]]; [done|by apply twins_not_blk in H..].
Qed.
Lemma meta_alone g b p i : block_fits b -> may d (meta g b) (Some (FileNode i)) -> may d p (Some (FileNode i)) ->
  p = meta g b \/ p = temp g b.
Proof.
  intros Hb Hi Hp. destruct (dw_alone d Hw _ _ _ Hi Hp) as [->|[H|H]]; [by left|by apply twins_not_meta in H|].
  right. by apply twins_meta.
Qed.
Lemma temp_alone g b p i : block_fits b -> may d (temp g b) (Some (FileNode i)) -> may d p (Some (FileNode i)) ->
  p = meta g b \/ p = temp g b.
Proof.
  intros Hb Hi Hp. destruct (dw_alone d Hw _ _ _ Hi Hp) as [->|[H|H]]; [by right| |by apply twins_not_temp in H].
  left. by apply twins_temp.
Qed.
End Owners.

Lemma now_rename src dst d q : src <> dst ->
  now (rename_in src dst d) q = if bool_decide (q = src) then None else if bool_decide (q = dst) then now d src else now d q.
Proof. intros Hne. unfold rename_in. by rewrite !now_set. Qed.
Lemma may_rename src dst d q w :
  may (rename_in src dst d) q w <-> may d q w \/ q = dst /\ w = now d src \/ q = src /\ w = None.
Proof. unfold rename_in. rewrite !may_set. naive_solver. Qed.

Lemma temp_not_meta g b g' b' : block_fits b -> block_fits b' -> temp g b <> meta g' b'.
Proof. intros Hb Hb' He. by apply block_name_inj in He as (He & _). Qed.

Lemma wf_rename d g b i : disk_wf d -> block_fits b -> now d (temp g b) = Some (FileNode i) ->
  now d (meta g b) <> Some DirNode -> disk_wf (rename_in (temp g b) (meta g b) d).
Proof.
  intros Hw Hb Hi Hm. pose proof (temp_not_meta g b g b Hb Hb) as Hne. pose proof Hw as [Hr Ht Hf Hn Hbo Ha Hnm].
  assert (may d (temp g b) (Some (FileNode i))) as Hti by (rewrite <- Hi; apply may_now).
  constructor; try done.
  - intros v [Hv|[[E _]|[E _]]]%may_rename; [auto|by rewrite block_name_eq in E..].
  - intros name dir n. rewrite !now_rename by done.
    assert (now d dir = Some DirNode -> dir <> temp g b /\ dir <> meta g b) as Hd by (split; congruence).
    assert (now d (name :: dir) = Some n -> dir <> temp g b /\ dir <> meta g b) as Hd' by (intros ?%Ht; auto).
    destruct (decide (name :: dir = meta g b)) as [He|He].
    + assert (now d dir = Some DirNode) as Hdir.
      { rewrite block_name_eq in He, Hi. simplify_eq. by apply Ht in Hi. }
      destruct (Hd Hdir). do 2 rewrite (bool_decide_eq_false_2 (dir = _)) by done. done.
    + rewrite (bool_decide_eq_false_2 (name :: dir = meta g b)) by done.
      case_bool_decide; [done|]. intros Hc. pose proof (Ht _ _ _ Hc) as Hdir. destruct (Hd Hdir).
      do 2 rewrite (bool_decide_eq_false_2 (dir = _)) by done. done.
  - intros q j [Hq|[[_ Hq]|[_ ?]]]%may_rename; [by eapply Hf| |done]. apply (Hf (temp g b)). rewrite Hq. apply may_now.
  - assert (forall q j, may d q (Some (FileNode j)) -> Some (FileNode j) = now d (temp g b) ->
      q = meta g b \/ q = temp g b) as Hone.
    { intros q j Hq Hj. rewrite Hi in Hj. simplify_eq. by eapply temp_alone. }
    assert (twins (temp g b) (meta g b)) as Htw by (by exists g, b).
    intros q q' j [Hq|[[-> E]|[_ [=]]]]%may_rename [Hq'|[[-> E']|[_ [=]]]]%may_rename.
    + by eapply Ha.
    + destruct (Hone q j Hq E') as [->| ->]; auto.
    + destruct (Hone q' j Hq' E) as [->| ->]; auto.
    + by left.
  - intros q n [Hq|[[-> E]|[_ [=]]]]%may_rename; [auto|]. rewrite Hi in E. injection E as ->.
    destruct (Hnm _ _ Hti) as [[? _]|(i' & s & g' & b' & _ & _ & Hg' & Hb' & E)]; [done|].
    apply block_name_inj in E as (_ & -> & ->); [|done|done]. apply named_file; auto.
Qed.

Lemma wf_crash d d' : disk_wf d -> crashed d d' -> disk_wf d'.
Proof.
  intros Hw Hc. pose proof Hw as [Hr Ht Hf Hn Hbo Ha Hnm].
  assert (forall p i, may d' p (Some (FileNode i)) -> may d p (Some (FileNode i))) as Hm.
  { intros p i Hp. apply (cr_settled d d' Hc) in Hp. destruct (cr_name d d' Hc p) as [Hx|[Hx _]]; [by rewrite <- Hp in Hx|congruence]. }
  constructor.
  - intros v Hv. apply (cr_settled d d' Hc) in Hv as ->. destruct (cr_name d d' Hc []) as [Hx|(_ & q & Hq & Hne & _)]; [auto|].
    by apply suffix_nil_inv in Hq.
  - apply Hc.
  - intros p i Hp%Hm. by eapply (cr_files d d' Hc), Hf.
  - intros i [b Hb]. rewrite (cr_next d d' Hc). destruct (cr_file d d' Hc i b Hb) as (_ & b0 & Hb0 & _). eauto.
  - intros i b Hb. destruct (cr_file d d' Hc i b Hb) as (-> & _). apply body_ok_sync.
  - intros p q i Hp%Hm Hq%Hm. by eapply Ha.
  - intros p n Hp. apply (cr_settled d d' Hc) in Hp. destruct (cr_name d d' Hc p) as [Hx|[Hx _]]; [|congruence].
    rewrite <- Hp in Hx. auto.
Qed.
