(* ===== verification/BlockStoreInv.v ===== *)
(** * The durable prefix of a block

    [block_inv d g b B]: whatever a crash leaves of disk [d], block [b] of group [g] is
    there with metadata that covers the bytes [B] and a data file that starts with
    them, or nothing of it is promised. Every change of the disk that the store makes
    keeps it, for the block it works on and for all others. *)

From S2P Require Import Prelude Types Errors WorkerTypes Bytes FileSystem BlockMeta BlockStore DiskLogic BlockMetaProps DiskInv.

Section Inv.
Context `{MetaWire}.

(** A metadata file whose contents are on disk. *)
Definition settled (d : Disk) (i : nat) (m : BlockMeta) : Prop :=
  exists b, dk_files d !! i = Some b /\ parse_meta_file (bd_data b) = Some m /\ bd_clean b = true.

(** [m] may be found as the metadata of the block. *)
Definition candidate (d : Disk) (g : GroupName) (b : BlockId) (m : BlockMeta) : Prop :=
  exists i, may d (meta g b) (Some (FileNode i)) /\ settled d i m.

Definition anchored (d : Disk) (g : GroupName) (b : BlockId) : Prop :=
  forall q v, q `suffix_of` block_dir g b -> may d q v -> v = Some DirNode.

Definition durable (m : BlockMeta) : nat := Z.to_nat (bm_durable_len m).

Record block_inv (d : Disk) (g : GroupName) (b : BlockId) (B : bytes) : Prop := {
  bi_dirs : anchored d g b \/ forall p v, p = meta g b \/ p = blk g b -> may d p v -> v = None;
  bi_meta : forall v, may d (meta g b) v ->
    v = None /\ B = [] \/
    exists i m, v = Some (FileNode i) /\ settled d i m /\ validate_meta m g b = Ok tt /\ bm_state m = BlockReady /\
      length B <= durable m;
  bi_data : forall v, may d (blk g b) v ->
    v = None /\ B = [] /\ (forall m, candidate d g b m -> durable m = 0) \/
    exists j bd, v = Some (FileNode j) /\ dk_files d !! j = Some bd /\ length B <= bd_kept bd /\
      take (length B) (bd_synced bd) = B /\ forall m, candidate d g b m -> durable m <= bd_kept bd;
  bi_link : forall j v, may d (blk g b) (Some j) -> may d (meta g b) v -> v <> None
}.

(** The names and files that matter to a block. *)
Definition name_of (g : GroupName) (b : BlockId) (p : path) : Prop :=
  p `suffix_of` block_dir g b \/ p = meta g b \/ p = blk g b.

Lemma settled_same d d' i m m' b b' : settled d i m -> dk_files d !! i = Some b -> dk_files d' !! i = Some b' ->
  bd_data b' = bd_data b -> settled d' i m' -> m = m'.
Proof. intros (x & Hx & Hp & _) Hb Hb' He (x' & Hx' & Hp' & _). simplify_eq. congruence. Qed.

Lemma block_inv_mono d d' g b B :
  (forall p v, name_of g b p -> may d' p v -> may d p v) ->
  (forall i bd, may d (meta g b) (Some (FileNode i)) -> dk_files d !! i = Some bd ->
     exists bd', dk_files d' !! i = Some bd' /\ bd_data bd' = bd_data bd /\ (bd_clean bd = true -> bd_clean bd' = true)) ->
  (forall j bd, may d (blk g b) (Some (FileNode j)) -> dk_files d !! j = Some bd ->
     exists bd', dk_files d' !! j = Some bd' /\ improves bd bd') ->
  block_inv d g b B -> block_inv d' g b B.
Proof.
  intros Hn Hm Hd [Hdirs Hmeta Hdata Hlink].
  assert (forall v, may d' (meta g b) v -> may d (meta g b) v) as Hnm by (intros v; apply Hn; right; auto).
  assert (forall v, may d' (blk g b) v -> may d (blk g b) v) as Hnd by (intros v; apply Hn; right; auto).
  assert (forall i m, may d (meta g b) (Some (FileNode i)) -> settled d i m -> settled d' i m) as Hs.
  { intros i m Hi (bd & Hb & Hp & Hk). destruct (Hm i bd Hi Hb) as (bd' & Hb' & He & Hset).
    exists bd'. split_and!; [done|by rewrite He|auto]. }
  assert (forall m, candidate d' g b m -> candidate d g b m) as Hc.
  { intros m (i & Hi%Hnm & Hset). exists i. split; [done|].
    destruct (Hmeta _ Hi) as [[? _]|(i' & m' & [= <-] & Hset' & _)]; [done|].
    destruct Hset' as (bd & Hb & Hp & ?). destruct (Hm i bd Hi Hb) as (bd' & Hb' & He & _).
    assert (m' = m) as -> by (eapply settled_same; [exists bd; eauto|done|done|done|done]). exists bd; eauto. }
  constructor.
  - destruct Hdirs as [Ha|Ha]; [left|right].
    + intros q v Hq Hv. apply (Ha q); [done|]. apply Hn; [by left|done].
    + intros p v Hp Hv. eapply Ha, Hn; [done|by right|done].
  - intros v Hv%Hnm. destruct (Hmeta v Hv) as [?|(i & m & -> & Hset & ?)]; [by left|right]. exists i, m. eauto.
  - intros v Hv%Hnd. destruct (Hdata v Hv) as [(? & ? & Hz)|(j & bd & -> & Hb & Hl & Ht & Hk)]; [left|right].
    + split_and!; auto.
    + destruct (Hd j bd Hv Hb) as (bd' & Hb' & Hle & Hsy). exists j, bd'. split_and!; [done|done|lia| |].
      * apply (f_equal (take (length B))) in Hsy. rewrite !take_take, !Nat.min_l in Hsy by lia. congruence.
      * intros m Hm'%Hc. specialize (Hk m Hm'). lia.
  - intros j v Hj%Hnd Hv%Hnm. by eapply Hlink.
Qed.

(** ** The changes *)

(** A change of the names only. *)
Lemma inv_names d d' g b B : dk_files d' = dk_files d -> (forall p v, name_of g b p -> may d' p v -> may d p v) ->
  block_inv d g b B -> block_inv d' g b B.
Proof.
  intros Hf Hn. apply block_inv_mono; [done|..]; rewrite Hf; intros i bd _ Hb; exists bd; [done|].
  split; [done|apply improves_refl].
Qed.

Lemma inv_sync_names d dir g b B : block_inv d g b B -> block_inv (sync_names dir d) g b B.
Proof. apply inv_names; [done|]. intros p v _. apply may_sync. Qed.

(** A name that the block does not use. *)
Lemma inv_set_name d p v g b B : ~ name_of g b p -> block_inv d g b B -> block_inv (set_name p v d) g b B.
Proof. intros Hp. apply inv_names; [done|]. intros q w Hq [?|[-> _]]%may_set; [done|by apply Hp in Hq]. Qed.

(** A file that the block does not use. *)
Lemma inv_update_other d i f g b B :
  ~ may d (meta g b) (Some (FileNode i)) -> ~ may d (blk g b) (Some (FileNode i)) ->
  block_inv d g b B -> block_inv (update_body i f d) g b B.
Proof.
  intros Hm Hd. apply block_inv_mono.
  - intros p v _. by rewrite may_update.
  - intros j bd Hj Hb. exists bd. rewrite files_update, bool_decide_eq_false_2 by (intros ->; contradiction). done.
  - intros j bd Hj Hb. exists bd. rewrite files_update, bool_decide_eq_false_2 by (intros ->; contradiction).
    split; [done|apply improves_refl].
Qed.

(** Syncing any file. *)
Lemma inv_sync_body d i g b B : disk_wf d -> block_inv d g b B -> block_inv (update_body i sync_body d) g b B.
Proof.
  intros Hw. apply block_inv_mono.
  - intros p v _. by rewrite may_update.
  - intros j bd Hj Hb. rewrite files_update, Hb. case_bool_decide; eexists; (split; [reflexivity|done]).
  - intros j bd Hj Hb. rewrite files_update, Hb. pose proof (dw_body d Hw j bd Hb) as Hok.
    case_bool_decide; eexists; (split; [reflexivity|]); [by apply improves_sync|apply improves_refl].
Qed.

(** The block's own data file, changed without loss. *)
Lemma inv_update_data d i f g b B :
  (forall bd, dk_files d !! i = Some bd -> improves bd (f bd)) -> ~ may d (meta g b) (Some (FileNode i)) ->
  block_inv d g b B -> block_inv (update_body i f d) g b B.
Proof.
  intros Hf Hm. apply block_inv_mono.
  - intros p v _. by rewrite may_update.
  - intros j bd Hj Hb. exists bd. rewrite files_update, bool_decide_eq_false_2 by (intros ->; contradiction). done.
  - intros j bd Hj Hb. rewrite files_update, Hb.
    case_bool_decide; eexists; (split; [reflexivity|]); [subst; by apply Hf|apply improves_refl].
Qed.

(** A change of the data file that leaves enough for every metadata candidate. *)
Lemma inv_resize d i n g b B :
  ~ may d (meta g b) (Some (FileNode i)) -> length B <= n -> (forall m, candidate d g b m -> durable m <= n) ->
  block_inv d g b B -> block_inv (update_body i (resize_body n) d) g b B.
Proof.
  intros Hi HB Hn [Hdirs Hmeta Hdata Hlink].
  assert (forall j, may d (meta g b) (Some (FileNode j)) ->
    dk_files (update_body i (resize_body n) d) !! j = dk_files d !! j) as Hsame.
  { intros j Hj. rewrite files_update, bool_decide_eq_false_2; [done|]. intros ->. contradiction. }
  assert (forall m, candidate (update_body i (resize_body n) d) g b m -> candidate d g b m) as Hc.
  { intros m (j & Hj & Hs). rewrite may_update in Hj. exists j. split; [done|].
    unfold settled in *. by rewrite Hsame in Hs. }
  constructor.
  - destruct Hdirs as [Ha|Ha]; [left|right]; intros ? ? ?; rewrite may_update; by apply Ha.
  - intros v. rewrite may_update. intros Hv. destruct (Hmeta v Hv) as [?|(j & m & -> & Hs & ?)]; [by left|right].
    exists j, m. split_and!; try done; [|naive_solver..]. unfold settled. by rewrite Hsame.
  - intros v. rewrite may_update. intros Hv.
    destruct (Hdata v Hv) as [(? & ? & Hz)|(j & bd & -> & Hb & Hl & Ht & Hk)]; [left; split_and!; auto|right].
    destruct (decide (j = i)) as [->|Hne]; [exists i, (resize_body n bd)|exists j, bd];
      rewrite files_update, Hb; [rewrite bool_decide_eq_true_2 by done|rewrite bool_decide_eq_false_2 by done];
      cbn; split_and!; auto; [lia|]. intros m Hm%Hc. specialize (Hn m Hm). specialize (Hk m Hm). lia.
  - intros j v. rewrite !may_update. apply Hlink.
Qed.

(** New files. *)
Lemma fresh_file d p : disk_wf d -> ~ may d p (Some (FileNode (dk_next d))).
Proof. intros Hw Hq%(dw_file d Hw)%(dw_fresh d Hw). lia. Qed.
Lemma files_create d p i bd : disk_wf d -> dk_files d !! i = Some bd -> dk_files (create_in p d) !! i = Some bd.
Proof.
  intros Hw Hi. cbn. rewrite lookup_insert_ne; [done|]. intros <-.
  assert (dk_next d < dk_next d) by (apply (dw_fresh d Hw); eauto). lia.
Qed.

Lemma inv_create_other d p g b B : disk_wf d -> ~ name_of g b p -> block_inv d g b B -> block_inv (create_in p d) g b B.
Proof.
  intros Hw Hp. apply block_inv_mono.
  - intros q v Hq [?|[-> _]]%may_create; [done|by apply Hp in Hq].
  - intros i bd _ Hb. exists bd. split; [by apply files_create|done].
  - intros i bd _ Hb. exists bd. split; [by apply files_create|apply improves_refl].
Qed.

Lemma candidate_create d p g b m : disk_wf d -> p <> meta g b -> candidate (create_in p d) g b m -> candidate d g b m.
Proof.
  intros Hw Hp (i & [Hi|[E _]]%may_create & bd & Hb & Hs); [|congruence]. exists i. split; [done|]. exists bd.
  cbn in Hb. rewrite lookup_insert_ne in Hb; [done|]. intros <-. by eapply fresh_file.
Qed.

(** Two names of a block are different, and neither is a directory of it. *)
Lemma name_ne s s' g b : s <> s' -> block_fits b -> block_name s g b <> block_name s' g b.
Proof. intros Hs Hb He. by apply block_name_inj in He as (He & _). Qed.
Lemma suffix_not_name s g g' b b' q : q `suffix_of` block_dir g b -> q <> block_name s g' b'.
Proof. intros Hq%suffix_length ->. rewrite block_name_length, block_dir_length in Hq. lia. Qed.

(** The data file of a block of which nothing is durable. *)
Lemma inv_create_data d g b : disk_wf d -> block_fits b -> anchored d g b -> (forall v, may d (meta g b) v -> v <> None) ->
  (forall m, candidate d g b m -> durable m = 0) -> block_inv d g b [] -> block_inv (create_in (blk g b) d) g b [].
Proof.
  intros Hw Hb Ha Hsome Hz [_ Hmeta Hdata _].
  assert (meta g b <> blk g b) as Hne by by apply name_ne.
  constructor.
  - left. intros q v Hq [Hv|[-> _]]%may_create; [by apply (Ha q)|]. by apply suffix_not_name with (s := ".blk") (g' := g) (b' := b) in Hq.
  - intros v [Hv|[? _]]%may_create; [|done]. destruct (Hmeta v Hv) as [?|(i & m & -> & (bd & Hbd & Hs) & ?)]; [by left|right].
    exists i, m. split_and!; try done; [|naive_solver..]. exists bd. split; [by apply files_create|done].
  - intros v [Hv|[_ ->]]%may_create.
    + destruct (Hdata v Hv) as [(-> & ? & _)|(j & bd & -> & Hj & Hl & Ht & Hk)]; [left|right].
      * split_and!; [done|done|]. intros m Hm%candidate_create; [by apply Hz|done|done].
      * exists j, bd. split_and!; [done|by apply files_create|done|done|].
        intros m Hm%candidate_create; [by apply Hk|done|done].
    + right. eexists _, _. split; [done|]. cbn. rewrite lookup_insert_eq. split; [done|]. split; [done|]. split; [done|].
      intros m Hm%candidate_create; [|done|done]. by rewrite (Hz m Hm).
  - intros j v _ [Hv|[? _]]%may_create; [by apply Hsome|done].
Qed.

(** New metadata, once it is on disk and the data file covers it. *)
Definition data_covers (d : Disk) (g : GroupName) (b : BlockId) (n : nat) : Prop :=
  forall v, may d (blk g b) v -> v = None /\ n = 0 \/
    exists j bd, v = Some (FileNode j) /\ dk_files d !! j = Some bd /\ n <= bd_kept bd.

Lemma candidate_rename d g b i m m' : block_fits b -> now d (temp g b) = Some (FileNode i) -> settled d i m ->
  candidate (rename_in (temp g b) (meta g b) d) g b m' -> candidate d g b m' \/ m' = m.
Proof.
  intros Hb Hi Hs (j & [Hj|[[_ E]|[E _]]]%may_rename & Hs').
  - left. by exists j.
  - right. rewrite Hi in E. simplify_eq. destruct Hs as (x & Hx & Hp & _), Hs' as (x' & Hx' & Hp' & _).
    cbn in Hx'. congruence.
  - by apply name_ne in E.
Qed.

Lemma inv_rename d g b B i m : block_fits b -> anchored d g b -> now d (temp g b) = Some (FileNode i) -> settled d i m ->
  validate_meta m g b = Ok tt -> bm_state m = BlockReady -> length B <= durable m -> data_covers d g b (durable m) ->
  block_inv d g b B -> block_inv (rename_in (temp g b) (meta g b) d) g b B.
Proof.
  intros Hb Ha Hi Hs Hv Hr HB Hcov [_ Hmeta Hdata Hlink].
  assert (blk g b <> meta g b /\ blk g b <> temp g b /\ meta g b <> temp g b) as (H1 & H2 & H3) by (split_and!; by apply name_ne).
  constructor.
  - left. intros q v Hq [Hx|[[E _]|[E _]]]%may_rename; [by apply (Ha q)|by eapply suffix_not_name in E..].
  - intros v [Hx|[[_ ->]|[E _]]]%may_rename; [by apply Hmeta| |done]. right. exists i, m. by rewrite Hi.
  - intros v [Hx|[[E _]|[E _]]]%may_rename; [|done|done]. pose proof (candidate_rename d g b i m) as Hc.
    destruct (Hcov v Hx) as [[Hx0 Hz]|(j' & bd' & E' & Hj' & Hk')];
      destruct (Hdata v Hx) as [(-> & ? & Hz')|(j & bd & -> & Hj & Hl & Ht & Hk)]; simplify_eq; [left|right].
    + split_and!; [done|done|]. intros m' Hm'. destruct (Hc m' Hb Hi Hs Hm') as [?| ->]; auto.
    + exists j', bd'. split_and!; try done. intros m' Hm'. destruct (Hc m' Hb Hi Hs Hm') as [?| ->]; auto.
  - intros j v [Hj|[[E _]|[E _]]]%may_rename; [|done|done]. intros [Hx|[[_ ->]|[E _]]]%may_rename; [by eapply Hlink|by rewrite Hi|done].
Qed.

(** A crash. *)
Lemma suffix_cases {A} (q : list A) x l : q `suffix_of` x :: l -> q = x :: l \/ q `suffix_of` l.
Proof. intros [[|y k] E]; simplify_eq/=; [by left|right; by exists k]. Qed.

Lemma anchored_crash d d' g b q : crashed d d' -> anchored d g b -> q `suffix_of` block_dir g b ->
  forall q', q' `suffix_of` q -> now d' q' = Some DirNode.
Proof.
  intros Hc Ha. induction q as [|n q IH]; intros Hq q' Hq'.
  - apply suffix_nil_inv in Hq' as ->.
    destruct (cr_name d d' Hc []) as [Hx|(_ & q' & Hq' & Hne & _)]; [by apply (Ha [])|]. by apply suffix_nil_inv in Hq'.
  - assert (q `suffix_of` block_dir g b) as Hq0 by (by eapply suffix_cons_l).
    apply suffix_cases in Hq' as [->|Hq']; [|by apply IH].
    destruct (cr_name d d' Hc (n :: q)) as [Hx|(_ & q' & Hq' & Hne & Hno)]; [by apply (Ha (n :: q))|]. exfalso.
    apply suffix_cases in Hq' as [->|Hq']; [done|]. by apply Hno, IH.
Qed.

Lemma may_crash d d' g b s v : crashed d d' -> anchored d g b -> may d' (block_name s g b) v -> may d (block_name s g b) v.
Proof.
  intros Hc Ha Hv. apply (cr_settled d d' Hc) in Hv as ->.
  destruct (cr_name d d' Hc (block_name s g b)) as [Hx|(_ & q & Hq & Hne & Hno)]; [done|exfalso].
  rewrite block_name_eq in Hq, Hne. apply suffix_cases in Hq as [->|Hq]; [done|].
  by apply Hno, (anchored_crash d d' g b (block_dir g b)).
Qed.

Lemma file_crash d d' i bd : crashed d d' -> dk_files d !! i = Some bd ->
  exists bd', dk_files d' !! i = Some bd' /\ improves bd bd' /\
    (bd_clean bd = true -> bd_data bd' = bd_data bd) /\ bd_clean bd' = true.
Proof.
  intros Hc Hi. destruct (cr_files d d' Hc i) as [bd' Hi']; [eauto|]. exists bd'.
  destruct (cr_file d d' Hc i bd' Hi') as (E & b0 & Hb0 & Hl & Ht & Hcl). simplify_eq.
  destruct bd' as [data synced kept clean]. unfold sync_body in E. cbn in *. simplify_eq. by split_and!.
Qed.

Lemma inv_crash d d' g b B : disk_wf d -> crashed d d' -> block_inv d g b B -> block_inv d' g b B.
Proof.
  intros Hw Hc Hi. pose proof Hi as [[Ha|Ha] Hmeta Hdata _].
  - apply (block_inv_mono d); [..|done].
    + intros p v [Hp|[->| ->]] Hv; [|by eapply may_crash..]. apply (cr_settled d d' Hc) in Hv as ->.
      rewrite (anchored_crash d d' g b p Hc Ha Hp p) by done. rewrite <- (Ha p (now d p) Hp (may_now d p)). apply may_now.
    + intros i bd Hm Hbd. destruct (file_crash d d' i bd Hc Hbd) as (bd' & Hbd' & _ & Hcl & Hcl').
      destruct (Hmeta _ Hm) as [[? _]|(i' & m & [= <-] & (x & Hx & _ & Hcx) & _)]; [done|]. simplify_eq.
      exists bd'. split_and!; auto.
    + intros j bd Hm Hbd. destruct (file_crash d d' j bd Hc Hbd) as (bd' & Hbd' & Him & _). eauto.
  - assert (forall p, p = meta g b \/ p = blk g b -> forall v, may d' p v -> v = None) as Hnone.
    { intros p Hp v Hv. apply (cr_settled d d' Hc) in Hv as ->.
      destruct (cr_name d d' Hc p) as [Hx|[Hx _]]; [by apply (Ha p)|done]. }
    assert (B = []) as ->.
    { destruct (Hmeta (now d (meta g b)) (may_now _ _)) as [[_ ->]|(i & m & E & _)]; [done|].
      pose proof (Ha _ _ (or_introl eq_refl) (may_now d (meta g b))). congruence. }
    constructor; [right; intros p v Hp Hv; by eapply Hnone| | |intros j v Hj; by pose proof (Hnone _ (or_intror eq_refl) _ Hj)].
    + intros v Hv. left. split; [|done]. by eapply (Hnone (meta g b)); auto.
    + intros v Hv. left. split_and!; [by eapply (Hnone (blk g b)); auto|done|].
      intros m (i & Hi' & _). by pose proof (Hnone _ (or_introl eq_refl) _ Hi').
Qed.
End Inv.
