(* ===== verification/BlockStoreSafe.v ===== *)
(** * The store keeps the durable prefix of a block

    Every operation, on the block that is followed or on another one, and recovery,
    whatever fails and wherever the machine stops. *)

From S2P Require Import Prelude Types Errors WorkerTypes Bytes FileSystem BlockMeta BlockStore DiskLogic BlockMetaProps DiskInv BlockStoreInv.

Section Safe.
Context `{MetaWire}.
Context (g0 : GroupName) (b0 : BlockId) (Hb0 : block_fits b0) (B0 : bytes).

Definition data_settled (d : Disk) : Prop :=
  is_Some (now d (blk g0 b0)) /\ forall v, may d (blk g0 b0) v -> v = now d (blk g0 b0).

(** [serving]: temporary files are not metadata files. [opened]: the name of the data
    file is on disk. [gone]: temporary files that recovery removed. *)
Record Inv (serving opened : bool) (gone : path -> Prop) (d : Disk) : Prop := {
  in_wf : disk_wf d;
  in_block : block_inv d g0 b0 B0;
  in_alias : serving = true -> no_alias d;
  in_open : opened = true -> data_settled d;
  in_gone : forall g b, block_fits b -> gone (temp g b) -> now d (temp g b) = None
}.

Section Changes.
Context (s o : bool) (gone : path -> Prop).
Notation I := (Inv s o gone).

Lemma I_update d i f : I d -> (forall bd, body_ok bd -> body_ok (f bd)) ->
  block_inv (update_body i f d) g0 b0 B0 -> I (update_body i f d).
Proof.
  intros [Hw Hi Ha Ho Hg] Hf Hi'. constructor; [by apply wf_update|done|..].
  - intros Hs g b j Hb. rewrite now_update, may_update. by apply Ha.
  - intros Hs. destruct (Ho Hs) as [H1 H2]. split; [by rewrite now_update|].
    intros v. rewrite now_update, may_update. apply H2.
  - intros g b Hb. rewrite now_update. by apply Hg.
Qed.

Lemma I_sync_body d i : I d -> I (update_body i sync_body d).
Proof. intros Hd. apply I_update; [done|eauto with disk|]. apply inv_sync_body; apply Hd. Qed.

Lemma I_update_other d i f : I d -> (forall bd, body_ok bd -> body_ok (f bd)) ->
  ~ may d (meta g0 b0) (Some (FileNode i)) -> ~ may d (blk g0 b0) (Some (FileNode i)) -> I (update_body i f d).
Proof. intros Hd Hf Hm Hb. apply I_update; [done|done|]. apply inv_update_other; [done|done|apply Hd]. Qed.

Lemma I_sync_names d dir : I d -> I (sync_names dir d).
Proof.
  intros [Hw Hi Ha Ho Hg]. constructor; [by apply wf_sync|by apply inv_sync_names|..].
  - intros Hs g b i Hb. rewrite now_sync. intros Ht Hm%may_sync. by eapply Ha.
  - intros Hs. destruct (Ho Hs) as [H1 H2]. split; [by rewrite now_sync|]. intros v Hv%may_sync. rewrite now_sync. by apply H2.
  - intros g b Hb. rewrite now_sync. by apply Hg.
Qed.

Lemma I_remove d p i : I d -> now d p = Some (FileNode i) -> ~ name_of g0 b0 p -> I (set_name p None d).
Proof.
  intros [Hw Hi Ha Ho Hg] Hp Hn. constructor; [by eapply wf_remove|by apply inv_set_name|..].
  - intros Hs g b j Hb. rewrite now_set. case_bool_decide; [done|]. intros Ht [Hm|[_ ?]]%may_set; [by eapply Ha|done].
  - assert (blk g0 b0 <> p) as Hne by (intros <-; apply Hn; right; auto).
    intros Hs. destruct (Ho Hs) as [H1 H2]. split; [by rewrite now_set, bool_decide_eq_false_2|].
    intros v [Hv|[? _]]%may_set; [|done]. rewrite now_set, bool_decide_eq_false_2 by done. by apply H2.
  - intros g b Hb Ht. rewrite now_set. case_bool_decide; [done|]. by apply Hg.
Qed.

Lemma I_create d p : I d -> (forall i, named p (FileNode i)) -> in_directory d p = true -> now d p = None -> ~ gone p ->
  block_inv (create_in p d) g0 b0 B0 -> I (create_in p d).
Proof.
  intros [Hw Hi Ha Ho Hg] Hnp Hd Hp Hng Hi'. constructor; [by apply wf_create|done|..].
  - intros Hs g b i Hb. rewrite now_create. case_bool_decide as E.
    + intros [= <-] [Hm|[E' _]]%may_create; [by eapply fresh_file|]. rewrite <- E in E'. by apply name_ne in E'.
    + intros Ht [Hm|[_ E']]%may_create; [by eapply Ha|]. simplify_eq. eapply fresh_file; [done|]. rewrite <- Ht. apply may_now.
  - intros Hs. destruct (Ho Hs) as [H1 H2].
    assert (blk g0 b0 <> p) as Hne by (intros <-; rewrite Hp in H1; by destruct H1).
    split; [by rewrite now_create, bool_decide_eq_false_2|].
    intros v [Hv|[? _]]%may_create; [|done]. rewrite now_create, bool_decide_eq_false_2 by done. by apply H2.
  - intros g b Hb Ht. rewrite now_create. case_bool_decide; [by subst|]. by apply Hg.
Qed.

Lemma I_mkdir d p : I d -> named p DirNode -> in_directory d p = true -> now d p = None -> length p < 6 -> I (set_name p (Some DirNode) d).
Proof.
  intros [Hw Hi Ha Ho Hg] Hnp Hd Hp Hl.
  assert (forall s g b, block_name s g b <> p) as Hne by (intros ? ? ? <-; rewrite block_name_length in Hl; lia).
  constructor; [by apply wf_mkdir|..].
  - destruct (bi_dirs _ _ _ _ Hi) as [Han|Hno].
    + apply inv_set_name; [|done]. intros [Hs|[E|E]]; [|by apply (Hne _ _ _ (eq_sym E))..].
      pose proof (Han p (now d p) Hs (may_now d p)). congruence.
    + destruct Hi as [_ Hm Hdt Hlk]. constructor.
      * right. intros q v Hq [Hv|[-> _]]%may_set; [by eapply Hno|]. exfalso. destruct Hq as [E|E]; by apply (Hne _ _ _ (eq_sym E)).
      * intros v [Hv|[E _]]%may_set; [by apply Hm|by apply Hne in E].
      * intros v [Hv|[E _]]%may_set; [|by apply Hne in E]. left. destruct (Hdt v Hv) as [(? & ? & _)|(j & bd & -> & _)].
        -- split_and!; try done. intros m (i & [Hi|[_ ?]]%may_set & _); [|done]. by apply Hno in Hi; [|left].
        -- by apply Hno in Hv; [|right].
      * intros j v [Hj|[E _]]%may_set; [by apply Hno in Hj; [|right]|by apply Hne in E].
  - intros Hs g b i Hb. rewrite now_set, bool_decide_eq_false_2 by done. intros Ht [Hm|[_ ?]]%may_set; [by eapply Ha|done].
  - intros Hs. destruct (Ho Hs) as [H1 H2]. split; [by rewrite now_set, bool_decide_eq_false_2|].
    intros v [Hv|[E _]]%may_set; [|by apply Hne in E]. rewrite now_set, bool_decide_eq_false_2 by done. by apply H2.
  - intros g b Hb Ht. rewrite now_set, bool_decide_eq_false_2 by done. by apply Hg.
Qed.

Lemma I_rename d g b i : I d -> block_fits b -> now d (temp g b) = Some (FileNode i) -> now d (meta g b) <> Some DirNode ->
  block_inv (rename_in (temp g b) (meta g b) d) g0 b0 B0 -> I (rename_in (temp g b) (meta g b) d).
Proof.
  intros [Hw Hi Ha Ho Hg] Hb Ht Hm Hi'.
  assert (temp g b <> meta g b) as Htm by by apply name_ne.
  constructor; [by eapply wf_rename|done|..].
  - intros Hs g' b' j Hb'. rewrite now_rename by done. case_bool_decide as E; [done|].
    rewrite bool_decide_eq_false_2 by by apply temp_not_meta.
    intros Ht' [Hx|[[E' Hx]|[E' _]]]%may_rename.
    + by eapply Ha.
    + apply block_name_inj in E' as (_ & -> & ->); done.
    + by apply eq_sym, temp_not_meta in E'.
  - intros Hs. destruct (Ho Hs) as [H1 H2].
    assert (blk g0 b0 <> temp g b /\ blk g0 b0 <> meta g b) as [H3 H4].
    { split; intros E; by apply block_name_inj in E as (E & _). }
    assert (now (rename_in (temp g b) (meta g b) d) (blk g0 b0) = now d (blk g0 b0)) as E.
    { rewrite now_rename by done. by rewrite !bool_decide_eq_false_2. }
    split; [by rewrite E|]. intros v [Hv|[[? _]|[? _]]]%may_rename; [|done|done]. rewrite E. by apply H2.
  - intros g' b' Hb' Hg'. rewrite now_rename by done. case_bool_decide; [done|].
    rewrite bool_decide_eq_false_2 by by apply temp_not_meta. by apply Hg.
Qed.
End Changes.

(** ** What a change of the metadata leaves alone *)

(** The directories and the data of the block that is followed are as they were. *)
Record quiet (d d' : Disk) : Prop := {
  qu_dirs : forall q v, q `suffix_of` block_dir g0 b0 -> may d' q v -> may d q v;
  qu_may : forall v, may d' (blk g0 b0) v -> may d (blk g0 b0) v;
  qu_now : now d' (blk g0 b0) = now d (blk g0 b0);
  qu_file : forall j, may d (blk g0 b0) (Some (FileNode j)) -> dk_files d' !! j = dk_files d !! j
}.

Lemma quiet_refl d : quiet d d.
Proof. by constructor. Qed.

Lemma quiet_trans d1 d2 d3 : quiet d1 d2 -> (forall v, may d1 (blk g0 b0) v -> may d2 (blk g0 b0) v) -> quiet d2 d3 -> quiet d1 d3.
Proof.
  intros [H1 H2 H3 H4] Hm [H1' H2' H3' H4']. constructor.
  - eauto.
  - eauto.
  - congruence.
  - intros j Hj. rewrite H4' by auto. auto.
Qed.

Lemma quiet_update d i f : ~ may d (blk g0 b0) (Some (FileNode i)) -> quiet d (update_body i f d).
Proof.
  intros Hi. constructor.
  - intros q v _. by rewrite may_update.
  - intros v. by rewrite may_update.
  - apply now_update.
  - intros j Hj. rewrite files_update, bool_decide_eq_false_2; [done|]. by intros ->.
Qed.

Lemma quiet_sync d dir : quiet d (sync_names dir d).
Proof. constructor; [intros q v _; apply may_sync|intros v; apply may_sync|apply now_sync|done]. Qed.

Lemma quiet_create d p : disk_wf d -> p <> blk g0 b0 -> ~ p `suffix_of` block_dir g0 b0 -> quiet d (create_in p d).
Proof.
  intros Hw Hp Hs. constructor.
  - intros q v Hq [?|[-> _]]%may_create; done.
  - intros v [?|[E _]]%may_create; [done|congruence].
  - rewrite now_create, bool_decide_eq_false_2; [done|congruence].
  - intros j Hj. destruct (dw_file d Hw _ _ Hj) as [bd Hbd]. rewrite Hbd. by apply files_create.
Qed.

Lemma quiet_rename d g b : block_fits b -> quiet d (rename_in (temp g b) (meta g b) d).
Proof.
  intros Hb. assert (blk g0 b0 <> temp g b /\ blk g0 b0 <> meta g b) as [H1 H2].
  { split; intros E; by apply block_name_inj in E as (E & _). }
  constructor.
  - intros q v Hq [?|[[-> _]|[-> _]]]%may_rename; [done|by eapply suffix_not_name in Hq..].
  - intros v [?|[[? _]|[? _]]]%may_rename; done.
  - rewrite now_rename by by apply name_ne. by rewrite !bool_decide_eq_false_2.
  - done.
Qed.

Lemma quiet_anchored d d' : quiet d d' -> anchored d g0 b0 -> anchored d' g0 b0.
Proof. intros Hq Ha q v Hs Hv. eapply Ha; [done|]. by apply (qu_dirs d d' Hq). Qed.
Lemma quiet_covers d d' n : quiet d d' -> data_covers d g0 b0 n -> data_covers d' g0 b0 n.
Proof.
  intros Hq Hc v Hv. apply (qu_may d d' Hq) in Hv. destruct (Hc v Hv) as [?|(j & bd & -> & Hj & ?)]; [by left|right].
  exists j, bd. by rewrite (qu_file d d' Hq) by done.
Qed.

(** ** Loading metadata *)

Lemma dwp_load_meta g b d (Q : BlockMeta -> Disk -> Prop) (R : Disk -> Prop) :
  (forall i m, now d (meta g b) = Some (FileNode i) -> parse_meta_file (bd_data (body_of d i)) = Some m ->
     validate_meta m g b = Ok tt -> Q m d) ->
  R d -> dwp (load_meta g b) d Q R.
Proof.
  intros HQ HR. unfold load_meta. rewrite paths_names. apply dwp_bind, dwp_read_meta_file; [intros i m Hi Hm|done].
  apply dwp_bind, dwp_check; [intros [] Hv|done]. apply dwp_ret. by eapply HQ.
Qed.

Lemma reads_load_meta g b : reads (load_meta g b).
Proof. unfold load_meta. pose proof reads_read_meta_file. eauto with reads. Qed.

Lemma res_validate_meta m g b : finds_res (validate_meta m g b).
Proof. unfold validate_meta, validate_token. find_all. Qed.

(** What [load_meta] returns, errors included. *)
Lemma dwp_catch_load g b d (Q : result WorkerError BlockMeta -> Disk -> Prop) (R : Disk -> Prop) :
  (forall i m, now d (meta g b) = Some (FileNode i) -> parse_meta_file (bd_data (body_of d i)) = Some m ->
     validate_meta m g b = Ok tt -> Q (Ok m) d) ->
  (forall s, now d (meta g b) = None -> Q (Err (WE_NotFound s)) d) ->
  (forall e, not_missing e -> Q (Err e) d) -> R d -> dwp (catch (load_meta g b)) d Q R.
Proof.
  intros HQ HN HE HR fs. unfold catch.
  assert (dwp (load_meta g b) d (fun m d' => Q (Ok m) d') (fun _ => True)) as Hwp by by apply dwp_load_meta.
  specialize (Hwp fs). pose proof (reads_load_meta g b fs d) as Hrd.
  destruct (load_meta g b fs d) as [[[m|e|] fs'] d'] eqn:E; cbn in Hrd; subst; [done| |done].
  destruct e; try (by apply HE). apply HN.
  unfold load_meta in E. apply bind_missing in E as (fs1 & d1 & E).
  - rewrite paths_names in E. by eapply read_meta_not_found.
  - intros a. apply finds_bind; [apply finds_check, res_validate_meta|intros ?; apply finds_ret].
Qed.

(** ** Syncing a directory *)

Lemma dwp_sync_dir s o gone dir d (Q : unit -> Disk -> Prop) : Inv s o gone d ->
  (forall d', Inv s o gone d' -> (now d dir = Some DirNode -> d' = sync_names dir d) -> Q tt d') ->
  dwp (sync_parent_dir dir) d Q (Inv s o gone).
Proof.
  intros HI HQ. apply dwp_attempt; [|done]. intros [] d' Hact.
  assert (Inv s o gone d' /\ (now d dir = Some DirNode -> d' = sync_names dir d)) as [HI' E]; [|by split; [apply HQ|]].
  destruct (now d dir) as [[|i]|]; simplify_eq/=; (split; [|done]); [by apply I_sync_names|by apply I_sync_body].
Qed.

Lemma dwp_sync_there s o gone dir d (Q : unit -> Disk -> Prop) : Inv s o gone d -> now d dir = Some DirNode ->
  Q tt (sync_names dir d) -> dwp (sync_parent_dir dir) d Q (fun d' => Inv s o gone d' /\ quiet d d').
Proof.
  intros HI Hd HQ. pose proof (quiet_refl d). apply dwp_attempt; [|done]. intros [] d' Hact. rewrite Hd in Hact. simplify_eq.
  split; [done|]. split; [by apply I_sync_names|apply quiet_sync].
Qed.

(** The directory of a file that is there. *)
Lemma name_dir d s g b n : disk_wf d -> now d (block_name s g b) = Some n -> now d (block_dir g b) = Some DirNode.
Proof. intros Hw. rewrite block_name_eq. apply (dw_tree d Hw). Qed.
Lemma name_parent s g b : parent (block_name s g b) = Some (block_dir g b).
Proof. by rewrite block_name_eq. Qed.

(** ** Replacing metadata *)

Definition same (g : GroupName) (b : BlockId) : Prop := g = g0 /\ b = b0.
#[local] Instance same_dec g b : Decision (same g b).
Proof. unfold same. apply _. Defined.

Lemma other_name s g b : block_fits b -> ~ same g b -> ~ name_of g0 b0 (block_name s g b).
Proof.
  intros Hb Hne [Hs|[E|E]]; [by eapply suffix_not_name in Hs|..];
    apply block_name_inj in E as (_ & -> & ->); try done; by apply Hne.
Qed.
Lemma temp_name g b : block_fits b -> ~ name_of g0 b0 (temp g b).
Proof. intros Hb [Hs|[E|E]]; [by eapply suffix_not_name in Hs|by apply block_name_inj in E as (E & _)..]. Qed.

(** A file that the block that is followed does not use. *)
Definition private (d : Disk) (i : nat) : Prop :=
  ~ may d (meta g0 b0) (Some (FileNode i)) /\ ~ may d (blk g0 b0) (Some (FileNode i)).

Lemma private_temp d g b i : disk_wf d -> no_alias d -> block_fits b -> now d (temp g b) = Some (FileNode i) -> private d i.
Proof.
  intros Hw Ha Hb Hi. assert (may d (temp g b) (Some (FileNode i))) as Hm by (rewrite <- Hi; apply may_now).
  split; intros Hx.
  - destruct (temp_alone d Hw g b _ i Hb Hm Hx) as [E|E].
    + apply block_name_inj in E as (_ & -> & ->); [|done|done]. by eapply Ha.
    + by apply block_name_inj in E as (E & _).
  - by destruct (temp_alone d Hw g b _ i Hb Hm Hx) as [E|E]; apply block_name_inj in E as (E & _).
Qed.

Section Meta.
Context (o : bool).
Notation I := (Inv true o (fun _ => False)).

(** The temporary file after it was opened. *)
Lemma dwp_open_temp g b d (Q : nat -> Disk -> Prop) : group_ok g -> block_fits b -> I d ->
  (forall i d', I d' -> quiet d d' -> (forall v, may d (blk g0 b0) v -> may d' (blk g0 b0) v) ->
     now d' (temp g b) = Some (FileNode i) -> private d' i -> (exists bd, dk_files d' !! i = Some bd /\ bd_data bd = []) -> Q i d') ->
  dwp (open_truncated (temp g b)) d Q (fun d' => I d' /\ quiet d d').
Proof.
  intros Hg Hb HI HQ. pose proof (quiet_refl d) as Hqr. apply dwp_attempt; [|done]. intros i d' Hact.
  destruct (now d (temp g b)) as [[|j]|] eqn:Et; [done| |].
  - injection Hact as <- <-. pose proof (private_temp d g b j (in_wf _ _ _ _ HI) (in_alias _ _ _ _ HI eq_refl) Hb Et) as [Hp1 Hp2].
    assert (I (update_body j (resize_body 0) d)) as HI' by (apply I_update_other; eauto with disk). split; [|by split; [|apply quiet_update]].
    destruct (dw_file d (in_wf _ _ _ _ HI) (temp g b) j) as [bd Hbd]; [rewrite <- Et; apply may_now|].
    apply HQ; [done|by apply quiet_update| | |split; by rewrite may_update|].
    + intros v. by rewrite may_update.
    + by rewrite now_update.
    + exists (resize_body 0 bd). by rewrite files_update, bool_decide_eq_true_2, Hbd.
  - destruct (in_directory d (temp g b)) eqn:Ed; [|done]. injection Hact as <- <-.
    assert (I (create_in (temp g b) d)) as HI'.
    { apply I_create; [done|intros i; apply named_file; auto|done|done|tauto|]. apply inv_create_other; [apply HI|by apply temp_name|apply HI]. }
    assert (forall p, ~ may d p (Some (FileNode (dk_next d)))) as Hnew by (intros p; apply fresh_file, HI).
    assert (quiet d (create_in (temp g b) d)) as Hqc.
    { apply quiet_create; [apply HI|intros E; by apply block_name_inj in E as (E & _)|]. intros Hs. by eapply suffix_not_name in Hs. }
    split; [|done]. apply HQ; [done|done| | | |].
    + intros v Hv. apply may_create. by left.
    + by rewrite now_create, bool_decide_eq_true_2.
    + split; (intros [?|[E _]]%may_create; [by eapply Hnew|by apply block_name_inj in E as (E & _)]).
    + eexists. cbn. by rewrite lookup_insert_eq.
Qed.

(** What [write_meta] of the block that is followed leaves. *)
Definition replaced (d d' : Disk) (m : BlockMeta) : Prop :=
  quiet d d' /\ exists i, settled d' i m /\ now d' (meta g0 b0) = Some (FileNode i) /\
    forall v, may d' (meta g0 b0) v -> v = Some (FileNode i).

Lemma dwp_rename_temp g b d i m (Q : unit -> Disk -> Prop) : block_fits b -> I d -> now d (temp g b) = Some (FileNode i) ->
  (same g b -> settled d i m /\ validate_meta m g b = Ok tt /\ bm_state m = BlockReady /\ length B0 <= durable m /\
     anchored d g b /\ data_covers d g b (durable m)) ->
  (forall d', d' = rename_in (temp g b) (meta g b) d -> I d' -> Q tt d') ->
  dwp (rename_file (temp g b) (meta g b)) d Q (fun d' => I d' /\ quiet d d').
Proof.
  intros Hb HI Hi Hs HQ. pose proof (quiet_refl d). apply dwp_attempt; [|done]. intros [] d' Hact. rewrite Hi in Hact.
  assert (I d' /\ d' = rename_in (temp g b) (meta g b) d) as [HI' E].
  2:{ split; [by apply HQ|]. split; [done|]. rewrite E. by apply quiet_rename. }
  assert (block_inv (rename_in (temp g b) (meta g b) d) g0 b0 B0) as Hinv.
  { destruct (decide (same g b)) as [Hsame|Hne].
    - destruct (Hs Hsame) as (? & ? & ? & ? & ? & ?). destruct Hsame as [-> ->]. eapply inv_rename; try done. apply HI.
    - unfold rename_in. do 2 (apply inv_set_name; [by apply other_name|]). apply HI. }
  destruct (now d (meta g b)) as [[|j]|] eqn:Em; [done| |]; (case_match; [|done]); simplify_eq; (split; [|done]);
    eapply I_rename; try done; congruence.
Qed.

Lemma dwp_write_meta_quiet g b m d (Q : unit -> Disk -> Prop) :
  bm_group_name m = g -> bm_block_id m = b -> meta_fits m -> I d ->
  (same g b -> bm_state m = BlockReady /\ length B0 <= durable m /\ anchored d g b /\ data_covers d g b (durable m)) ->
  (forall d', I d' -> quiet d d' -> (same g b -> replaced d d' m) -> Q tt d') -> dwp (write_meta g b m) d Q (fun d' => I d' /\ quiet d d').
Proof.
  intros Hg Hid Hfit HI Hsame HQ. pose proof (quiet_refl d) as Hqr.
  assert (block_fits b /\ group_ok g) as [Hb Hgok] by (split; [rewrite <- Hid|rewrite <- Hg]; apply Hfit). unfold write_meta. rewrite paths_names. cbn [temp_meta_path meta_path].
  apply dwp_bind, dwp_check; [intros [] Hv|done]. apply dwp_bind, dwp_check; [intros e He|done].
  pose proof (encode_meta_parse m e Hfit He) as Hparse.
  apply dwp_bind, dwp_open_temp; [done|done|done|]. intros i d1 HI1 Hq1 Hm1 Ht1 [Hp1 Hp1'] (bd & Hbd & Hnil).
  assert (forall f, quiet d (update_body i f d1)) as Hq2 by (intros f; eapply quiet_trans; [exact Hq1|done|by apply quiet_update]).
  apply dwp_bind, dwp_syscall; [|intros k; split; [apply I_update_other; eauto with disk|done]|done]. intros [] d2 [= <-].
  set (d2 := update_body i (write_body (Z.to_nat 0) e) d1).
  assert (I d2) as HI2 by (apply I_update_other; eauto with disk). set (d3 := update_body i sync_body d2).
  assert (quiet d d3 /\ forall v, may d (blk g0 b0) v -> may d3 (blk g0 b0) v) as [Hq3 Hm3].
  { split; [|intros v Hx; unfold d3, d2; rewrite !may_update; auto].
    apply (quiet_trans d d2); [exact (Hq2 _)|intros v Hx; unfold d2; rewrite may_update; auto|]. apply quiet_update. unfold d2. by rewrite may_update. }
  apply dwp_bind, dwp_command; [|split; [by apply I_sync_body|done]|split; [done|exact (Hq2 _)]].
  assert (I d3) as HI3 by by apply I_sync_body.
  assert (settled d3 i m) as Hset.
  { exists (sync_body (write_body 0 e bd)). unfold d3, d2. rewrite !files_update, !bool_decide_eq_true_2, Hbd by done.
    split_and!; [done| |done]. cbn. unfold overwrite, pad. rewrite Hnil. cbn. by rewrite drop_nil, app_nil_r. }
  assert (now d3 (temp g b) = Some (FileNode i)) as Ht3 by (unfold d3, d2; by rewrite !now_update).
  eapply dwp_bind, dwp_weaken; [apply dwp_rename_temp with (i := i) (m := m); [done|done|done| |]|].
  { intros Hs. destruct (Hsame Hs) as (? & ? & ? & ?). destruct Hs as [-> ->]. subst.
    split_and!; try done; [congruence|by eapply quiet_anchored|by eapply quiet_covers]. }
  2:{ intros d' [? Hq]. split; [done|]. by eapply quiet_trans. }
  intros d4 E4 HI4. assert (quiet d d4 /\ forall v, may d (blk g0 b0) v -> may d4 (blk g0 b0) v) as [Hq4 Hm4].
  { rewrite E4. split; [eapply quiet_trans; [exact Hq3|done|by apply quiet_rename]|]. intros v Hx. apply may_rename. auto. }
  assert (now d4 (meta g b) = Some (FileNode i)) as Hnow.
  { rewrite E4, now_rename by by apply name_ne. rewrite bool_decide_eq_false_2 by by apply name_ne. by rewrite bool_decide_eq_true_2. }
  eapply dwp_weaken; [apply dwp_sync_there; [done|by eapply name_dir; [apply HI4|]|]|].
  2:{ intros d' [? Hq]. split; [done|]. by eapply quiet_trans. }
  assert (quiet d (sync_names (block_dir g b) d4)) as Hq5 by (eapply quiet_trans; [exact Hq4|done|apply quiet_sync]).
  apply HQ; [by apply I_sync_names|done|]. intros [-> ->]. split; [done|]. exists i. split_and!.
  - rewrite E4. exact Hset.
  - by rewrite now_sync.
  - intros v Hx%may_synced; [congruence|apply name_parent].
Qed.

Lemma dwp_write_meta g b m d (Q : unit -> Disk -> Prop) :
  bm_group_name m = g -> bm_block_id m = b -> meta_fits m -> I d ->
  (same g b -> bm_state m = BlockReady /\ length B0 <= durable m /\ anchored d g b /\ data_covers d g b (durable m)) ->
  (forall d', I d' -> (same g b -> replaced d d' m) -> Q tt d') -> dwp (write_meta g b m) d Q I.
Proof. intros. eapply dwp_weaken; [apply dwp_write_meta_quiet; auto|]. by intros d' [? _]. Qed.
End Meta.

(** ** What is known of the block that is followed *)

Lemma inv_anchored d n : block_inv d g0 b0 B0 -> now d (meta g0 b0) = Some n -> anchored d g0 b0.
Proof.
  intros [[Ha|Hno] _ _] Hn; [done|]. pose proof (Hno _ _ (or_introl eq_refl) (may_now d (meta g0 b0))). congruence.
Qed.

Lemma inv_loaded d i m : block_inv d g0 b0 B0 -> now d (meta g0 b0) = Some (FileNode i) ->
  parse_meta_file (bd_data (body_of d i)) = Some m ->
  settled d i m /\ validate_meta m g0 b0 = Ok tt /\ bm_state m = BlockReady /\ length B0 <= durable m /\ candidate d g0 b0 m.
Proof.
  intros Hi Hn Hp. destruct (bi_meta _ _ _ _ Hi _ (may_now d (meta g0 b0))) as [[E _]|(i' & m' & E & Hs & Hv & Hr & Hl)]; [congruence|].
  assert (i' = i) as -> by congruence. assert (m' = m) as ->.
  { destruct Hs as (bd & Hbd & Hp' & _). rewrite (body_of_lookup d i bd Hbd) in Hp. congruence. }
  split_and!; try done. exists i. split; [rewrite <- Hn; apply may_now|done].
Qed.

Lemma inv_covers d m : block_inv d g0 b0 B0 -> candidate d g0 b0 m -> data_covers d g0 b0 (durable m).
Proof.
  intros Hi Hc v Hv. destruct (bi_data _ _ _ _ Hi v Hv) as [(-> & _ & Hz)|(j & bd & -> & Hj & _ & _ & Hk)]; [left|right]; eauto.
  exists j, bd. auto.
Qed.
Lemma covers_le d n n' : n' <= n -> data_covers d g0 b0 n -> data_covers d g0 b0 n'.
Proof.
  intros Hle Hc v Hv. destruct (Hc v Hv) as [[-> ->]|(j & bd & -> & Hj & Hk)]; [left; split; [done|lia]|right].
  exists j, bd. split_and!; [done|done|lia].
Qed.

(** The only metadata that a crash may leave. *)
Definition only_meta (d : Disk) (m : BlockMeta) : Prop :=
  (exists n, now d (meta g0 b0) = Some n) /\ (forall v, may d (meta g0 b0) v -> v <> None) /\
  forall m', candidate d g0 b0 m' -> m' = m.

Lemma alone_synced d i m : settled d i m -> now d (meta g0 b0) = Some (FileNode i) ->
  only_meta (sync_names (block_dir g0 b0) d) m.
Proof.
  intros (bd & Hbd & Hp & _) Hn. split; [exists (FileNode i); by rewrite now_sync|].
  split; [intros v ->%may_synced; [congruence|apply name_parent]|].
  intros m' (j & Hj & bd' & Hbd' & Hp' & _). apply may_synced in Hj; [|apply name_parent]. cbn in Hbd'. congruence.
Qed.

(** ** Restoring the prefix *)

Section Restore.
Context (s o : bool) (gone : path -> Prop) (Hgone : forall g b, ~ gone (blk g b)).
Notation I := (Inv s o gone).

(** A data file that was opened belongs to no other block. *)
Lemma data_private d g b j : disk_wf d -> block_fits b -> ~ same g b -> now d (blk g b) = Some (FileNode j) -> private d j.
Proof.
  intros Hw Hb Hne Hj. assert (may d (blk g b) (Some (FileNode j))) as Hm by (rewrite <- Hj; apply may_now).
  split; intros Hx%(blk_alone d Hw g b _ j Hb Hm); apply block_name_inj in Hx as (? & E & E'); try done. by apply Hne.
Qed.
Lemma data_not_meta d j : disk_wf d -> now d (blk g0 b0) = Some (FileNode j) -> ~ may d (meta g0 b0) (Some (FileNode j)).
Proof.
  intros Hw Hj Hx. assert (may d (blk g0 b0) (Some (FileNode j))) as Hm by (rewrite <- Hj; apply may_now).
  apply (blk_alone d Hw _ _ _ _ Hb0 Hm) in Hx. by apply name_ne in Hx.
Qed.

Lemma dwp_open_data g b m d (Q : nat -> Disk -> Prop) wrap : group_ok g -> block_fits b -> I d -> (same g b -> only_meta d m) ->
  bm_durable_len m = 0%Z ->
  (forall j d', I d' -> (same g b -> only_meta d' m) -> now d' (blk g b) = Some (FileNode j) -> Q j d') ->
  dwp (open_or_create wrap (blk g b)) d Q I.
Proof.
  intros Hg Hb HI Hal Hz HQ. apply dwp_attempt; [|done]. intros j d' Hact.
  destruct (now d (blk g b)) as [[|i]|] eqn:Ed; simplify_eq/=; [by split; [apply HQ|]|].
  destruct (in_directory d (blk g b)) eqn:Edir; [|done]. injection Hact as <- <-.
  assert (I (create_in (blk g b) d)) as HI'.
  { apply I_create; [done|intros i; apply named_file; auto|done|done|done|]. destruct (decide (same g b)) as [Hs|Hne].
    - destruct (Hal Hs) as ([n Hn] & Hsome & Hc). destruct Hs as [-> ->]. pose proof (in_block _ _ _ _ HI) as Hi.
      destruct (bi_data _ _ _ _ Hi None) as [(_ & HB & _)|(? & ? & ? & _)]; [rewrite <- Ed; apply may_now| |done].
      pose proof (inv_anchored d n Hi Hn) as Ha. rewrite HB in Hi |- *.
      apply inv_create_data; [apply HI|done|done|done| |done]. intros m' ->%Hc. unfold durable. by rewrite Hz.
    - apply inv_create_other; [apply HI|by apply other_name|apply HI]. }
  split; [|done]. apply HQ; [done| |by rewrite now_create, bool_decide_eq_true_2].
  intros Hs. destruct (Hal Hs) as ([n Hn] & Hsome & Hc). destruct Hs as [-> ->].
  assert (blk g0 b0 <> meta g0 b0) by by apply name_ne. split_and!.
  - exists n. rewrite now_create, bool_decide_eq_false_2; [done|congruence].
  - intros v [Hv|[E _]]%may_create; [by apply Hsome|congruence].
  - intros m' Hm'%candidate_create; [by apply Hc|apply HI|done].
Qed.

Lemma candidate_update d i f m : ~ may d (meta g0 b0) (Some (FileNode i)) ->
  candidate (update_body i f d) g0 b0 m -> candidate d g0 b0 m.
Proof.
  intros Hi (j & Hj & bd & Hbd & Hs). rewrite may_update in Hj. exists j. split; [done|]. exists bd. split; [|done].
  rewrite files_update, bool_decide_eq_false_2 in Hbd; [done|]. by intros ->.
Qed.

(** From an open data file to its length on disk. *)
Lemma dwp_cut_data g b m d j (Q : unit -> Disk -> Prop) : block_fits b -> I d ->
  (same g b -> only_meta d m /\ length B0 <= durable m) -> now d (blk g b) = Some (FileNode j) ->
  (forall d', I d' -> (same g b -> data_settled d') -> Q tt d') ->
  dwp (_ ← set_len j (bm_durable_len m); _ ← sync_all j; sync_parent_dir (block_dir g b)) d Q I.
Proof.
  intros Hb HI Hal Hj HQ. set (n := Z.to_nat (bm_durable_len m)).
  assert (I (update_body j (resize_body n) d)) as HI1.
  { destruct (decide (same g b)) as [Hs|Hne].
    - destruct (Hal Hs) as [(_ & _ & Hc) HB]. destruct Hs as [-> ->].
      pose proof (data_not_meta d j (in_wf _ _ _ _ HI) Hj) as Hm.
      apply I_update; [done|eauto with disk|]. apply inv_resize; [done|done| |apply HI]. by intros m' ->%Hc.
    - destruct (data_private d g b j (in_wf _ _ _ _ HI) Hb Hne Hj). apply I_update_other; eauto with disk. }
  apply dwp_bind, dwp_command; [|done|done]. apply dwp_bind, dwp_command; [|by apply I_sync_body|done].
  set (d2 := update_body j sync_body _). assert (I d2) as HI2 by by apply I_sync_body.
  assert (now d2 (blk g b) = Some (FileNode j)) as Hj2 by (unfold d2; by rewrite !now_update).
  apply dwp_sync_dir; [done|]. intros d3 HI3 E. apply HQ; [done|]. intros [-> ->].
  rewrite E by (by eapply name_dir; [apply HI2|]). split; [rewrite now_sync; eauto|].
  intros v Hv%may_synced; [by rewrite now_sync|apply name_parent].
Qed.

Lemma dwp_restore_prefix g b m d (Q : unit -> Disk -> Prop) : group_ok g -> block_fits b -> I d ->
  (same g b -> exists i, now d (meta g0 b0) = Some (FileNode i) /\ settled d i m /\ length B0 <= durable m) ->
  (forall d', I d' -> (same g b -> data_settled d') -> Q tt d') -> dwp (restore_prefix g b m) d Q I.
Proof.
  intros Hg Hb HI Hs HQ. unfold restore_prefix. rewrite paths_names. cbn [data_path meta_path].
  apply dwp_bind, dwp_check; [intros [] _|done]. apply dwp_bind, dwp_query; [|done]. intros i Hopen.
  assert (now d (meta g b) = Some (FileNode i)) as Hi by (by destruct (now d (meta g b)) as [[|k]|]; simplify_eq/=).
  apply dwp_bind, dwp_command; [|by apply I_sync_body|done]. set (d1 := update_body i sync_body d).
  assert (I d1) as HI1 by by apply I_sync_body.
  assert (now d1 (meta g b) = Some (FileNode i)) as Hi1 by (unfold d1; by rewrite now_update).
  apply dwp_bind, dwp_sync_dir; [done|]. intros d2 HI2 E2.
  assert (same g b -> only_meta d2 m /\ length B0 <= durable m) as Hal.
  { intros Hsm. destruct (Hs Hsm) as (i' & Hi' & (bd & Hbd & Hp & Hc) & HB). destruct Hsm as [-> ->]. split; [|done].
    assert (i' = i) as -> by congruence.
    rewrite E2 by (by eapply name_dir; [apply HI1|]). apply (alone_synced _ i); [|done].
    exists (sync_body bd). unfold d1. by rewrite files_update, bool_decide_eq_true_2, Hbd. }
  set (rest := fun data : nat => _). assert (forall j d', I d' -> (same g b -> only_meta d' m /\ length B0 <= durable m) ->
    now d' (blk g b) = Some (FileNode j) -> dwp (rest j) d' Q I) as Hrest.
  { intros j d' HI' Hal' Hj. unfold rest. apply dwp_bind, dwp_query; [intros len _|done].
    apply dwp_bind, dwp_check; [intros [] _|done]. by apply dwp_cut_data. }
  apply dwp_bind. case_bool_decide as Hz.
  - apply (dwp_open_data g b m); [done|done|done|intros Hsm; by apply Hal|done|].
    intros j d' HI' Hal' Hj. apply Hrest; [done| |done]. intros Hsm. split; [auto|by apply Hal].
  - apply dwp_query; [|done]. intros j Hj. apply Hrest; [done|done|].
    by destruct (now d2 (blk g b)) as [[|k]|]; simplify_eq/=.
Qed.
End Restore.
End Safe.
