(* ===== verification/BlockStoreOps.v ===== *)
(** * The operations of the store and the block that is followed *)

From S2P Require Import Prelude Types Errors WorkerTypes Bytes FileSystem BlockMeta BlockStore DiskLogic BlockMetaProps DiskInv BlockStoreInv BlockStoreSafe.

Section Ops.
Context `{MetaWire}.
Context (g0 : GroupName) (b0 : BlockId) (Hb0 : block_fits b0) (B0 : bytes).
Context (o : bool).
Notation I := (Inv g0 b0 B0 true o (fun _ => False)).
Notation same := (same g0 b0).

(** ** Directories *)

Lemma I_create_dirs p d d' : (forall q, q `suffix_of` p -> named q DirNode) -> length p < 6 -> I d -> create_dirs p d = Ok d' ->
  I d' /\ forall q, q `suffix_of` p -> now d' q = Some DirNode.
Proof.
  revert d'. induction p as [|n p IH]; intros d' Hnm Hl HI Hc; cbn [create_dirs] in Hc.
  - destruct (now d []) as [[|]|] eqn:E; simplify_eq. split; [done|]. by intros q ->%suffix_nil_inv.
  - unbind Hc as d1 Hd1. cbn in Hl. destruct (IH d1 (fun q Hs => Hnm q (suffix_cons_r _ _ _ Hs)) ltac:(lia) HI Hd1) as [HI1 Hq].
    destruct (now d1 (n :: p)) as [[|]|] eqn:E; simplify_eq.
    + split; [done|]. intros q [->|Hs]%suffix_cases; auto.
    + assert (in_directory d1 (n :: p) = true) as Hin by (cbn; rewrite bool_decide_eq_true_2; auto).
      split; [by apply I_mkdir; [done|by apply Hnm|..|cbn; lia]|]. intros q [->|Hs]%suffix_cases; rewrite now_set.
      * by rewrite bool_decide_eq_true_2.
      * rewrite bool_decide_eq_false_2; [auto|]. intros ->. apply suffix_length in Hs. cbn in Hs. lia.
Qed.

Lemma dwp_create_dir_all p d (Q : unit -> Disk -> Prop) : (forall q, q `suffix_of` p -> named q DirNode) -> length p < 6 -> I d ->
  (forall d', I d' -> (forall q, q `suffix_of` p -> now d' q = Some DirNode) -> Q tt d') -> dwp (create_dir_all p) d Q I.
Proof.
  intros Hnm Hl HI HQ. apply dwp_syscall; [|intros k|done].
  - intros [] d' Hc. unbind Hc as d1 Hd1. simplify_eq/=. destruct (I_create_dirs p d d' Hnm Hl HI Hd1). by apply HQ.
  - destruct (create_dirs _ d) as [d'| |] eqn:E; [|done|done]. apply I_create_dirs in E as [? _]; [done| | |done].
    + intros q Hq. apply Hnm. etrans; [exact Hq|apply suffix_drop].
    + rewrite length_drop. lia.
Qed.

Lemma dwp_sync_ancestors p d (Q : unit -> Disk -> Prop) : I d -> (forall q, q `suffix_of` p -> now d q = Some DirNode) ->
  (forall d', I d' -> (forall q, now d' q = now d q) -> (forall q v, may d' q v -> may d q v) ->
     (forall n q v, q `suffix_of` p -> may d' (n :: q) v -> v = now d (n :: q)) -> Q tt d') -> dwp (sync_ancestors p) d Q I.
Proof.
  revert d Q. induction p as [|n p IH]; intros d Q HI Hd HQ; cbn [sync_ancestors]; apply dwp_bind, dwp_sync_dir; try done;
    intros d1 HI1 E; specialize (E (Hd _ ltac:(done))); subst d1.
  - apply dwp_ret, HQ; [done|apply now_sync|intros q v; apply may_sync|]. intros x q v ->%suffix_nil_inv. by apply may_synced.
  - apply IH; [done| |].
    + intros q Hq. rewrite now_sync. apply Hd. by apply suffix_cons_r.
    + intros d2 HI2 Hn Hm Hs. apply HQ; [done|intros q; by rewrite Hn, now_sync|intros q v Hv; by eapply may_sync, Hm|].
      intros x q v [->|Hq]%suffix_cases Hv; [|rewrite <- (now_sync (n :: p)); by eapply Hs]. by apply Hm, may_synced in Hv.
Qed.

Lemma dwp_create_dir_durable g b d (Q : unit -> Disk -> Prop) : group_ok g -> block_fits b -> I d ->
  (forall d', I d' -> anchored d' g b -> Q tt d') -> dwp (create_dir_durable (block_dir g b)) d Q I.
Proof.
  intros Hg Hb HI HQ. unfold create_dir_durable. apply dwp_bind, dwp_probe; [intros ready _|done].
  apply dwp_bind, dwp_check; [intros [] _|done].
  apply dwp_bind, dwp_create_dir_all; [intros q Hq; left; eauto 10|rewrite block_dir_length; lia|done|]. intros d1 HI1 Hd1.
  apply dwp_sync_ancestors; [done|done|]. intros d2 HI2 Hn Hm Hs. apply HQ; [done|].
  intros q v Hq Hv. destruct q as [|n q]; [apply (dw_root d2); [apply HI2|done]|].
  rewrite (Hs n q v) by (first [done|by eapply suffix_cons_l]). by apply Hd1.
Qed.

(** ** Requests *)

(** What the types and the request parser ensure. *)
Record open_fits (r : OpenBlockWriteRequest) : Prop := {
  of_block : block_fits (ob_block_id r);
  of_group : group_ok (ob_group_name r);
  of_token : fencing_fits (ob_fencing_token r);
  of_size : u64_ok (ob_block_size r);
  of_chunk : u32_ok (ob_chunk_size r);
  of_visible : u64_ok (ob_visible_len r)
}.

Lemma shape_format f n c e x : block_shape_new f n c e = Ok x -> f = DURABLE_PREFIX.
Proof.
  unfold block_shape_new, validate_block_layout_parts. intros Hx. unbind Hx as [] Hv.
  unbind Hv as [] H1. unbind Hv as [] H2. unbind Hv as spec Hs.
  unfold block_format_spec in Hs. unbind Hs as y Hf. clear Hv. by destruct (decide (f = DURABLE_PREFIX)); [|rewrite bool_decide_eq_false_2 in Hs].
Qed.

Lemma dwp_validate_data_prefix g b m d (Q : unit -> Disk -> Prop) (R : Disk -> Prop) :
  Q tt d -> R d -> dwp (validate_data_prefix g b m) d Q R.
Proof.
  intros HQ HR. unfold validate_data_prefix. apply dwp_bind, dwp_path_len; [|done]. intros r _ _.
  apply dwp_check; [by intros []|done].
Qed.

(** ** Opening a block for writing *)

Lemma gone_none : forall g b, ~ (fun _ : path => False) (blk g b).
Proof. tauto. Qed.

Lemma validated_identity m g b : validate_meta m g b = Ok tt -> bm_group_name m = g /\ bm_block_id m = b.
Proof. unfold validate_meta. intros Hv. unbind Hv as [] H1. by bool_prop. Qed.

(** The metadata of the block that is followed. *)
Definition current (d : Disk) (m : BlockMeta) : Prop :=
  exists i, now d (meta g0 b0) = Some (FileNode i) /\ settled d i m /\ length B0 <= durable m.

Lemma replaced_current d d' m : replaced g0 b0 d d' m -> length B0 <= durable m -> current d' m.
Proof. intros (_ & i & Hs & Hn & _) HB. by exists i. Qed.

Lemma dwp_reopened_meta r m d i (Q : BlockMeta -> Disk -> Prop) : open_fits r -> I d ->
  (same (ob_group_name r) (ob_block_id r) -> length B0 <= Z.to_nat (ob_visible_len r)) ->
  now d (meta (ob_group_name r) (ob_block_id r)) = Some (FileNode i) -> parse_meta_file (bd_data (body_of d i)) = Some m ->
  validate_meta m (ob_group_name r) (ob_block_id r) = Ok tt ->
  (forall m' d', I d' -> meta_fits m' -> (same (ob_group_name r) (ob_block_id r) -> current d' m') -> Q m' d') ->
  dwp (reopened_meta r m) d Q I.
Proof.
  intros Hr HI HB Hi Hp Hv HQ. pose proof (parse_meta_fits _ _ Hp) as Hfit.
  destruct (validated_identity _ _ _ Hv) as [Hg Hid]. unfold reopened_meta.
  do 3 (apply dwp_bind, dwp_check; [intros [] _|done]). apply dwp_bind, dwp_check; [intros [] Hvis|done].
  apply reject_if_Ok in Hvis. bool_prop. apply dwp_bind, dwp_validate_data_prefix; [|done].
  assert (same (ob_group_name r) (ob_block_id r) -> settled d i m /\ bm_state m = BlockReady /\ length B0 <= durable m /\
    candidate d g0 b0 m /\ anchored d g0 b0 /\ now d (meta g0 b0) = Some (FileNode i)) as Hs.
  { intros [E1 E2]. rewrite E1, E2 in Hi. pose proof (in_block _ _ _ _ _ _ _ HI) as Hblk.
    destruct (inv_loaded g0 b0 B0 d i m Hblk Hi Hp) as (? & ? & ? & ? & ?). split_and!; try done. by eapply inv_anchored. }
  case_match.
  - apply dwp_bind, dwp_check; [intros [] _|done]. set (m' := with_token_len m _ _).
    assert (meta_fits m') as Hfit' by (destruct Hfit, Hr; by constructor).
    assert (same (ob_group_name r) (ob_block_id r) -> length B0 <= durable m') as HB' by done.
    apply dwp_bind, dwp_write_meta; [apply Hb0|done|done|done|done| |].
    + intros Hsm. destruct (Hs Hsm) as (_ & Hrd & _ & Hc & Ha & _). pose proof Hsm as [-> ->]. split_and!; try done; [by apply HB'|].
      eapply covers_le; [|eapply inv_covers; [apply HI|exact Hc]]. unfold durable. cbn. lia.
    + intros d' HI' Hrep. apply dwp_ret, HQ; [done|done|]. intros Hsm. eapply replaced_current; auto.
  - apply dwp_bind, dwp_check; [intros [] _|done]. apply dwp_ret, HQ; [done|done|]. intros Hsm.
    destruct (Hs Hsm) as (? & ? & ? & ? & ? & ?). by exists i.
Qed.

Lemma dwp_created_meta r d x (Q : BlockMeta -> Disk -> Prop) : open_fits r -> I d ->
  block_shape_new (ob_block_format_id r) (ob_block_size r) (ob_chunk_size r) (ob_block_size r) = Ok x ->
  anchored d (ob_group_name r) (ob_block_id r) -> now d (meta (ob_group_name r) (ob_block_id r)) = None ->
  (forall m' d', I d' -> meta_fits m' -> (same (ob_group_name r) (ob_block_id r) -> current d' m') -> Q m' d') ->
  dwp (created_meta r) d Q I.
Proof.
  intros Hr HI Hx Ha Hn HQ. unfold created_meta. apply dwp_bind, dwp_check; [intros [] _|done].
  apply dwp_bind, dwp_probe; [intros p _|done]. apply dwp_bind, dwp_check; [intros [] _|done]. set (m := mk_BlockMeta _ _ _ _ _ _ _).
  assert (meta_fits m) as Hfit.
  { destruct Hr. constructor; try done. by eapply shape_format. }
  assert (same (ob_group_name r) (ob_block_id r) -> B0 = []) as HB.
  { intros [E1 E2]. rewrite E1, E2 in Hn.
    destruct (bi_meta _ _ _ _ (in_block _ _ _ _ _ _ _ HI) _ (may_now d (meta g0 b0))) as [[_ ?]|(j & m' & E & _)]; [done|congruence]. }
  apply dwp_bind, dwp_write_meta; [apply Hb0|done|done|done|done| |].
  - intros Hsm. rewrite (HB Hsm). pose proof Hsm as [E1 E2]. rewrite E1, E2 in Ha |- *. split_and!; [done|cbn; lia|done|].
    intros v Hv. destruct (bi_data _ _ _ _ (in_block _ _ _ _ _ _ _ HI) v Hv) as [(-> & _)|(j & bd & -> & Hj & _)]; [by left|right].
    exists j, bd. split_and!; [done|done|apply Nat.le_0_l].
  - intros d' HI' Hrep. apply dwp_ret, HQ; [done|done|]. intros Hsm. eapply replaced_current; [auto|]. rewrite (HB Hsm). cbn. lia.
Qed.

Lemma dwp_open_block_write r d (Q : BlockMeta -> Disk -> Prop) : open_fits r -> I d ->
  (same (ob_group_name r) (ob_block_id r) -> length B0 <= Z.to_nat (ob_visible_len r)) ->
  (forall m d', I d' -> (same (ob_group_name r) (ob_block_id r) -> data_settled g0 b0 d') -> Q m d') ->
  dwp (open_block_write r) d Q I.
Proof.
  intros Hr HI HB HQ. unfold open_block_write. apply dwp_bind, dwp_check; [intros x Hx%map_err_Ok|done].
  do 2 (apply dwp_bind, dwp_check; [intros [] _|done]). apply dwp_bind, dwp_create_dir_durable; [apply Hr|apply Hr|done|]. intros d1 HI1 Ha.
  apply dwp_bind. set (rest := fun m : BlockMeta => _).
  assert (forall m d', I d' -> meta_fits m -> (same (ob_group_name r) (ob_block_id r) -> current d' m) -> dwp (rest m) d' Q I) as Hrest.
  { intros m d' HI' Hfit Hcur. unfold rest. eapply dwp_bind, dwp_restore_prefix; [apply Hb0|apply gone_none|apply Hr|apply Hr|done|done|].
    intros d2 HI2 Hset. by apply dwp_ret, HQ. }
  apply dwp_catch_load; [..|done].
  - intros i m Hi Hp Hv. apply dwp_bind. by eapply dwp_reopened_meta.
  - intros msg Hn. apply dwp_bind. by eapply dwp_created_meta.
  - intros e He. apply dwp_bind. destruct e; first [done|by apply dwp_throw].
Qed.

(** ** Writing, checkpoints and discarding *)

Lemma dwp_open_existing g b d wrap (Q : nat -> Disk -> Prop) (R : Disk -> Prop) :
  (forall j, now d (blk g b) = Some (FileNode j) -> Q j d) -> R d -> dwp (open_file_with wrap (blk g b)) d Q R.
Proof.
  intros HQ HR. apply dwp_query; [|done]. intros j Hj. apply HQ. by destruct (now d (blk g b)) as [[|k]|]; simplify_eq/=.
Qed.

Lemma dwp_write_at g b off data d (Q : unit -> Disk -> Prop) : block_fits b -> I d ->
  (forall d', I d' -> Q tt d') -> dwp (write_at g b off data) d Q I.
Proof.
  intros Hb HI HQ. unfold write_at. rewrite paths_names. cbn [data_path].
  apply dwp_bind, dwp_load_meta; [|done]. intros i m Hi Hp Hv. apply dwp_bind, dwp_check; [intros [] _|done].
  apply dwp_bind, dwp_check; [intros stop _|done]. apply dwp_bind, dwp_check; [intros [] _|done].
  apply dwp_bind, dwp_open_existing; [intros j Hj|done]. apply dwp_bind, dwp_query; [intros len [= <-]|done].
  apply dwp_bind, dwp_check; [intros [] Hoff|done]. apply reject_if_Ok in Hoff. bool_prop. subst off.
  assert (forall new, I (update_body j (write_body (Z.to_nat (Z.of_nat (length (bd_data (body_of d j))))) new) d)) as HI'.
  { intros new. rewrite Nat2Z.id. pose proof (in_wf _ _ _ _ _ _ _ HI) as Hw. destruct (decide (same g b)) as [[-> ->]|Hne].
    - apply I_update; [done|eauto with disk|]. apply inv_update_data; [|by apply data_not_meta|apply HI].
      intros bd Hbd. rewrite (body_of_lookup d j bd Hbd). apply improves_write, body_ok_length. by eapply dw_body.
    - destruct (data_private g0 b0 Hb0 d g b j Hw Hb Hne Hj). apply I_update_other; eauto with disk. }
  apply dwp_syscall; [|done|done]. intros [] d' [= <-]. by apply HQ.
Qed.

(** The contents of the data file, all of it durable. *)
Definition checkpointed (d : Disk) (n : nat) : Prop :=
  exists j bd, now d (blk g0 b0) = Some (FileNode j) /\ dk_files d !! j = Some bd /\ length (bd_data bd) = n /\
    block_inv d g0 b0 (bd_data bd).

Lemma replaced_checkpointed d d' m j bd : I d' -> replaced g0 b0 d d' m -> now d (blk g0 b0) = Some (FileNode j) ->
  (forall v, may d (blk g0 b0) v -> v = now d (blk g0 b0)) -> dk_files d !! j = Some (sync_body bd) ->
  length (bd_data bd) = durable m -> checkpointed d' (durable m).
Proof.
  intros HI (Hq & i & Hs & Hn & Hm) Hj Hall Hbd Hlen. pose proof (in_block _ _ _ _ _ _ _ HI) as Hi.
  assert (dk_files d' !! j = Some (sync_body bd)) as Hbd'.
  { rewrite (qu_file _ _ _ _ Hq); [done|]. rewrite <- Hj. apply may_now. }
  assert (forall m', candidate d' g0 b0 m' -> m' = m) as Hc.
  { intros m' (i' & Hi' & x' & Hx' & Hp' & _). apply Hm in Hi'. destruct Hs as (x & Hx & Hp & _). congruence. }
  exists j, (sync_body bd). split_and!; [by rewrite (qu_now _ _ _ _ Hq)|done|done|]. constructor; [..|apply Hi].
  - apply Hi.
  - intros v Hv. right. destruct (bi_meta _ _ _ _ Hi v Hv) as [[-> _]|(i' & m' & -> & Hs' & Hv' & Hr & _)].
    + by apply Hm in Hv.
    + assert (m' = m) as -> by (apply Hc; by exists i'). exists i', m. split_and!; try done. cbn. lia.
  - intros v Hv. right. apply (qu_may _ _ _ _ Hq) in Hv. rewrite (Hall v Hv), Hj. exists j, (sync_body bd).
    split_and!; [done|done|done|by rewrite firstn_all|]. intros m' ->%Hc. cbn. lia.
Qed.

Lemma dwp_checkpoint_block r d (Q : BlockMeta -> Disk -> Prop) : block_fits (ck_block_id r) -> u64_ok (ck_effective_len r) -> I d ->
  (same (ck_group_name r) (ck_block_id r) -> o = true) ->
  (forall m d', I d' -> (same (ck_group_name r) (ck_block_id r) -> checkpointed d' (Z.to_nat (ck_effective_len r))) -> Q m d') ->
  dwp (checkpoint_block r) d Q I.
Proof.
  intros Hb Hu HI Ho HQ. unfold checkpoint_block. rewrite paths_names. cbn [data_path].
  apply dwp_bind, dwp_load_meta; [|done]. intros i m Hi Hp Hv. pose proof (parse_meta_fits _ _ Hp) as Hfit.
  destruct (validated_identity _ _ _ Hv) as [Hg Hid].
  apply dwp_bind, dwp_check; [intros [] _|done]. apply dwp_bind, dwp_check; [intros [] _|done].
  apply dwp_bind, dwp_check; [intros [] Hlen|done]. apply reject_if_Ok in Hlen. bool_prop.
  apply dwp_bind, dwp_open_existing; [intros j Hj|done]. apply dwp_bind, dwp_query; [intros len [= <-]|done].
  apply dwp_bind, dwp_check; [intros [] Heff|done]. apply reject_if_Ok in Heff. bool_prop.
  apply dwp_bind, dwp_command; [|by apply I_sync_body|done]. set (d1 := update_body j sync_body d).
  assert (I d1) as HI1 by by apply I_sync_body. set (m' := with_durable_len m _).
  assert (meta_fits m') as Hfit' by (destruct Hfit; by constructor).
  destruct (dw_file d (in_wf _ _ _ _ _ _ _ HI) (blk (ck_group_name r) (ck_block_id r)) j) as [bd Hbd]; [rewrite <- Hj; apply may_now|].
  assert (dk_files d1 !! j = Some (sync_body bd)) as Hbd1 by (unfold d1; by rewrite files_update, bool_decide_eq_true_2, Hbd).
  assert (length (bd_data bd) = durable m') as Hdl.
  { unfold durable. cbn. rewrite (body_of_lookup d j bd Hbd) in Heff. lia. }
  assert (same (ck_group_name r) (ck_block_id r) -> data_settled g0 b0 d1 /\ now d1 (blk g0 b0) = Some (FileNode j)) as Hds.
  { intros Hsm. split; [apply HI1; auto|]. destruct Hsm as [E1 E2]. unfold d1. rewrite now_update, <- E1, <- E2. done. }
  apply dwp_bind, dwp_write_meta; [apply Hb0|done|done|done|done| |].
  - intros Hsm. destruct (Hds Hsm) as [[_ Hall] Hj1]. pose proof Hsm as [E1 E2]. rewrite E1, E2 in Hi |- *.
    destruct (inv_loaded g0 b0 B0 d i m (in_block _ _ _ _ _ _ _ HI) Hi Hp) as (_ & _ & Hr & HB & _).
    split_and!; [done|unfold durable in *; cbn; lia| |].
    + eapply inv_anchored; [apply HI1|]. unfold d1. by rewrite now_update.
    + intros v Hx. right. exists j, (sync_body bd). rewrite (Hall v Hx). split_and!; [done|done|cbn; lia].
  - intros d' HI' Hrep. apply dwp_ret, HQ; [done|]. intros Hsm. destruct (Hds Hsm) as [[_ Hall] Hj1].
    apply (replaced_checkpointed d1 d' m' j bd); auto.
Qed.

Lemma dwp_discard_unsynced_suffix g b d (Q : unit -> Disk -> Prop) : group_ok g -> block_fits b -> I d ->
  (forall d', I d' -> Q tt d') -> dwp (discard_unsynced_suffix g b) d Q I.
Proof.
  intros Hg Hb HI HQ. unfold discard_unsynced_suffix. apply dwp_bind, dwp_catch_load; [..|done].
  - intros i m Hi Hp Hv. apply dwp_bind, dwp_check; [intros [] _|done].
    apply (dwp_restore_prefix g0 b0 Hb0 B0 true o (fun _ => False) gone_none); [done|done|done| |auto].
    intros [-> ->]. destruct (inv_loaded g0 b0 B0 d i m (in_block _ _ _ _ _ _ _ HI) Hi Hp) as (? & _ & _ & ? & _). by exists i.
  - intros msg _. by apply dwp_ret, HQ.
  - intros e He. destruct e; first [done|by apply dwp_throw].
Qed.

(** ** Reclaiming another block *)

Lemma dwp_remove_other s gone p d (Q : unit -> Disk -> Prop) : ~ name_of g0 b0 p -> Inv g0 b0 B0 s o gone d ->
  (forall d', Inv g0 b0 B0 s o gone d' -> now d' p = None -> (forall q, now d' q = now d q \/ now d' q = None) -> Q tt d') ->
  dwp (remove_file_if_exists p) d Q (Inv g0 b0 B0 s o gone).
Proof.
  intros Hp HI HQ. apply dwp_attempt; [|done]. intros [] d' Hact. destruct (now d p) as [[|i]|] eqn:E; simplify_eq.
  - assert (Inv g0 b0 B0 s o gone (set_name p None d)) as HI' by by eapply I_remove. split; [|done].
    apply HQ; [done|by rewrite now_set, bool_decide_eq_true_2|]. intros q. rewrite now_set. case_bool_decide; auto.
  - split; [|done]. apply HQ; auto.
Qed.

Lemma dwp_complete_deletion s gone g b d (Q : unit -> Disk -> Prop) : block_fits b -> ~ same g b -> Inv g0 b0 B0 s o gone d ->
  (forall d', Inv g0 b0 B0 s o gone d' -> Q tt d') -> dwp (complete_deletion g b) d Q (Inv g0 b0 B0 s o gone).
Proof.
  intros Hb Hne HI HQ. unfold complete_deletion. rewrite paths_names. cbn [data_path meta_path temp_meta_path].
  apply dwp_bind, dwp_remove_other; [by apply other_name|done|]. intros d1 HI1 _ _.
  apply dwp_bind, dwp_remove_other; [by apply other_name|done|]. intros d2 HI2 _ _.
  apply dwp_bind, dwp_sync_dir; [done|]. intros d3 HI3 _.
  apply dwp_bind, dwp_remove_other; [by apply other_name|done|]. intros d4 HI4 _ _.
  apply dwp_sync_dir; [done|]. intros d5 HI5 _. by apply HQ.
Qed.

Lemma dwp_inspect_reclaim_block g b d (Q : ReclaimBlockState -> Disk -> Prop) : I d ->
  (forall st, Q st d) -> dwp (inspect_reclaim_block g b) d Q I.
Proof.
  intros HI HQ. unfold inspect_reclaim_block. apply dwp_bind, dwp_catch_load; [..|done].
  - intros i m _ _ _. by apply dwp_ret.
  - intros msg _. apply dwp_bind, dwp_probe; [intros data _|done]. apply dwp_bind. destruct data.
    + apply dwp_ret, dwp_bind, dwp_check; [intros [] _; by apply dwp_ret|done].
    + apply dwp_probe; [intros temp _|done]. apply dwp_bind, dwp_check; [intros [] _; by apply dwp_ret|done].
  - intros e He. destruct e; first [done|by apply dwp_throw].
Qed.

Lemma dwp_reclaim_block g b d (Q : ReclaimBlockResult -> Disk -> Prop) : block_fits b -> ~ same g b -> I d ->
  (forall x d', I d' -> Q x d') -> dwp (reclaim_block g b) d Q I.
Proof.
  intros Hb Hne HI HQ. unfold reclaim_block. apply dwp_bind, dwp_inspect_reclaim_block; [done|]. intros st.
  assert (dwp (m ← load_meta g b; let m := with_block_state m BlockDeleting in
    _ ← write_meta g b m; _ ← complete_deletion g b; mret (RR_Deleted (bm_durable_len m))) d Q I) as Hgo.
  { apply dwp_bind, dwp_load_meta; [|done]. intros i m Hi Hp Hv. destruct (validated_identity _ _ _ Hv).
    pose proof (parse_meta_fits _ _ Hp) as Hfit. apply dwp_bind, dwp_write_meta; [apply Hb0|done|done| |done| |].
    - destruct Hfit; by constructor.
    - done.
    - intros d1 HI1 _. apply dwp_bind, dwp_complete_deletion; [done|done|done|]. intros d2 HI2. by apply dwp_ret, HQ. }
  destruct st; [exact Hgo|exact Hgo|by apply dwp_ret, HQ].
Qed.

(** ** Reading *)

Lemma dwp_read_at g b off len d (Q : bytes -> Disk -> Prop) : I d -> (forall x, Q x d) -> dwp (read_at g b off len) d Q I.
Proof.
  intros HI HQ. unfold read_at. rewrite paths_names. apply dwp_bind, dwp_load_meta; [|done]. intros i m _ _ _.
  do 2 (apply dwp_bind, dwp_check; [intros [] _|done]). apply dwp_bind, dwp_validate_data_prefix; [|done].
  apply dwp_bind, dwp_open_existing; [intros j _|done]. apply dwp_query; [intros x _; apply HQ|done].
Qed.

Lemma dwp_read_report_meta p d (Q : BlockMeta -> Disk -> Prop) : I d -> (forall m d', I d' -> Q m d') -> dwp (read_report_meta p) d Q I.
Proof.
  intros HI HQ. unfold read_report_meta. apply dwp_bind, dwp_read_meta_file; [intros i m _ _|done].
  apply dwp_bind, dwp_check; [intros dir _|done]. apply dwp_bind, dwp_sync_dir; [done|]. intros d' HI' _. by apply dwp_ret, HQ.
Qed.
Lemma dwp_load_report_meta g b d (Q : BlockMeta -> Disk -> Prop) : I d -> (forall m d', I d' -> Q m d') ->
  dwp (load_report_meta g b) d Q I.
Proof.
  intros HI HQ. unfold load_report_meta. apply dwp_bind, dwp_read_report_meta; [done|]. intros m d' HI'.
  apply dwp_bind, dwp_check; [intros [] _|done]. by apply dwp_ret, HQ.
Qed.

Lemma dwp_for_collect {A B} (xs : list A) (f : A -> io (list B)) d (Q : list B -> Disk -> Prop) (J : Disk -> Prop) : J d ->
  (forall x d', x ∈ xs -> J d' -> dwp (f x) d' (fun _ => J) J) -> (forall ys d', J d' -> Q ys d') -> dwp (for_collect xs f) d Q J.
Proof.
  revert d Q. induction xs as [|x xs IH]; intros d Q HJ Hf HQ; cbn [for_collect]; [by apply dwp_ret, HQ|].
  apply dwp_bind. eapply dwp_mono; [apply Hf; [by left|done]| |done]. intros y d' HJ'.
  apply dwp_bind, IH; [done|intros; apply Hf; [by right|done]|]. intros ys d'' HJ''. by apply dwp_ret, HQ.
Qed.
End Ops.
