(* ===== verification/BlockStoreRecovery.v ===== *)
(** * Recovery of the block store

    Recovery keeps the block that is followed, and when it returns no temporary file
    is left. *)

From S2P Require Import Prelude Types Errors WorkerTypes Bytes FileSystem BlockMeta BlockStore DiskLogic BlockMetaProps DiskInv BlockStoreInv BlockStoreSafe BlockStoreOps.

(** ** Extensions of the block files *)

Lemma rsplit_dot_app before after : "."%char ∉ after -> rsplit_dot (before ++ "."%char :: after) = Some (before, after).
Proof.
  intros Ha. induction before as [|c before IH]; cbn [app rsplit_dot]; [|by rewrite IH].
  assert (rsplit_dot after = None) as ->; [|by rewrite bool_decide_eq_true_2].
  clear -Ha. induction after as [|c after IH]; [done|]. cbn. rewrite not_elem_of_cons in Ha. destruct Ha as [Hc Ha].
  rewrite IH by done. by rewrite bool_decide_eq_false_2 by congruence.
Qed.

Lemma list_of_app (s t : string) :
  String.list_ascii_of_string (s +:+ t) = String.list_ascii_of_string s ++ String.list_ascii_of_string t.
Proof. induction s as [|c s IH]; [done|]. simpl. f_equal. exact IH. Qed.

Lemma block_extension s before after g b : String.list_ascii_of_string s = before ++ "."%char :: after -> "."%char ∉ after ->
  extension (block_name s g b) = Some (String.string_of_list_ascii after).
Proof.
  intros Hs Ha. rewrite block_name_eq. cbn [extension]. unfold split_name. rewrite list_of_app, Hs.
  rewrite (app_assoc _ before), rsplit_dot_app by done.
  pose proof (block_stem_length b) as Hl. destruct (block_stem b) as [|c1 [|c2 [|c3 stem]]]; try done.
  cbn [String.list_ascii_of_string app]. rewrite bool_decide_eq_false_2; [done|]. done.
Qed.

Lemma ext_blk g b : extension (block_name ".blk" g b) = Some "blk".
Proof. by apply (block_extension ".blk" [] (String.list_ascii_of_string "blk")); [|apply (bool_decide_eq_true_1 _)]. Qed.
Lemma ext_meta g b : extension (block_name ".meta" g b) = Some "meta".
Proof. by apply (block_extension ".meta" [] (String.list_ascii_of_string "meta")); [|apply (bool_decide_eq_true_1 _)]. Qed.
Lemma ext_temp g b : extension (block_name ".meta.tmp" g b) = Some "tmp".
Proof.
  by apply (block_extension ".meta.tmp" (String.list_ascii_of_string ".meta") (String.list_ascii_of_string "tmp"));
    [|apply (bool_decide_eq_true_1 _)].
Qed.

(** ** Listing *)

Lemma elem_children d dir p n : (p, n) ∈ children d dir <-> parent p = Some dir /\ now d p = Some n.
Proof.
  unfold children. rewrite list_elem_of_omap. split.
  - intros ([q s] & Hq%elem_of_map_to_list & Hx). case_bool_decide; [|done].
    destruct (sl_now s) as [n'|] eqn:E; simplify_eq/=. split; [done|]. unfold now, slot_of. by rewrite Hq.
  - intros [Hp Hn]. unfold now, slot_of in Hn. destruct (dk_names d !! p) as [s|] eqn:E; [|done]. cbn in Hn.
    exists (p, s). split; [by apply elem_of_map_to_list|]. rewrite bool_decide_eq_true_2 by done. by rewrite Hn.
Qed.

(** A collection of results from a disk that does not change. *)
Lemma dwp_collect_reads {A B} (xs : list A) (f : A -> io (list B)) d (Q : list B -> Disk -> Prop) (R : Disk -> Prop)
    (P : A -> list B -> Prop) : R d ->
  (forall x, x ∈ xs -> dwp (f x) d (fun y d' => d' = d /\ P x y) R) ->
  (forall yss, Forall2 P xs yss -> Q (mjoin yss) d) -> dwp (for_collect xs f) d Q R.
Proof.
  revert Q. induction xs as [|x xs IH]; intros Q HR Hf HQ; cbn [for_collect].
  { apply dwp_ret. by apply (HQ []). }
  apply dwp_bind. eapply dwp_mono; [apply Hf; by left| |done]. intros y d' [-> Hy].
  apply dwp_bind, IH; [done|intros x' Hx'; apply Hf; by right|]. intros yss Hyss. apply dwp_ret.
  by apply (HQ (y :: yss)), Forall2_cons.
Qed.

Lemma elem_mjoin_Forall2 {A B} (P : A -> list B -> Prop) xs yss z : Forall2 P xs yss -> z ∈ mjoin yss ->
  exists x y, x ∈ xs /\ P x y /\ z ∈ y.
Proof.
  induction 1 as [|x y xs yss HP _ IH]; cbn; [by intros ?%elem_of_nil|]. intros [Hz|Hz]%elem_of_app.
  - exists x, y. split_and!; [by left|done|done].
  - destruct (IH Hz) as (x' & y' & ? & ? & ?). exists x', y'. split_and!; [by right|done|done].
Qed.
Lemma elem_mjoin_Forall2_2 {A B} (P : A -> list B -> Prop) xs yss x : Forall2 P xs yss -> x ∈ xs ->
  exists y, P x y /\ forall z, z ∈ y -> z ∈ mjoin yss.
Proof.
  induction 1 as [|x' y xs yss HP _ IH]; [by intros ?%elem_of_nil|]. intros [->|Hx]%elem_of_cons.
  - exists y. split; [done|]. intros z Hz. cbn. apply elem_of_app. by left.
  - destruct (IH Hx) as (y' & ? & Hy'). exists y'. split; [done|]. intros z Hz. cbn. apply elem_of_app. right. auto.
Qed.

Section Listing.
Context (order : list (path * node) -> list (path * node)) (Horder : forall l, order l ≡ₚ l).

Lemma dwp_read_dir dir d (Q : list (path * node) -> Disk -> Prop) (R : Disk -> Prop) :
  (forall l, (forall p n, (p, n) ∈ l <-> parent p = Some dir /\ now d p = Some n) -> Q l d) -> R d -> dwp (read_dir order dir) d Q R.
Proof.
  intros HQ HR. apply dwp_query; [|done]. intros l Hl. destruct (now d dir) as [[|]|]; simplify_eq/=.
  apply HQ. intros p n. by rewrite Horder, elem_children.
Qed.

(** One level of a walk through the directories. *)
Lemma dwp_level dir f (S : path -> path -> Prop) d (Q : list path -> Disk -> Prop) (R : Disk -> Prop) : R d ->
  (forall x n, now d (x :: dir) = Some n ->
     dwp (f (x :: dir, n)) d (fun ys d' => d' = d /\ forall z, z ∈ ys <-> S (x :: dir) z) R) ->
  (forall ys, (forall z, z ∈ ys <-> exists x n, now d (x :: dir) = Some n /\ S (x :: dir) z) -> Q ys d) ->
  dwp (l ← read_dir order dir; for_collect l f) d Q R.
Proof.
  intros HR Hf HQ. apply dwp_bind, dwp_read_dir; [|done]. intros l Hl.
  apply dwp_collect_reads with (P := fun x ys => forall z, z ∈ ys <-> S x.1 z); [done|..].
  - intros [p n] [Hp Hn]%Hl. destruct p as [|x p]; simplify_eq/=. by apply Hf.
  - intros yss Hyss. apply HQ. intros z. split.
    + intros Hz. destruct (elem_mjoin_Forall2 _ _ _ _ Hyss Hz) as ([p n] & y & [Hp Hn]%Hl & Hy & Hz').
      destruct p as [|x p]; simplify_eq/=. exists x, n. split; [done|by apply Hy].
    + intros (x & n & Hn & HS). destruct (elem_mjoin_Forall2_2 _ _ _ (x :: dir, n) Hyss) as (y & Hy & Hz); [by apply Hl|].
      by apply Hz, Hy.
Qed.

(** The files of a group: exactly those three levels below. *)
Lemma dwp_block_files root d (Q : list path -> Disk -> Prop) (R : Disk -> Prop) : disk_wf d ->
  (forall l, (forall p, p ∈ l <-> exists c b a n, p = c :: b :: a :: root /\ now d p = Some n) -> Q l d) -> R d ->
  dwp (block_files order root) d Q R.
Proof.
  intros Hw HQ HR. unfold block_files. apply dwp_bind, dwp_query; [|done]. intros present [= <-].
  case_bool_decide as Hroot; cbn [negb].
  2:{ apply dwp_ret, HQ. intros p. split; [by intros ?%elem_of_nil|]. intros (c & b & a & n & -> & Hn).
      do 3 apply (dw_tree d Hw) in Hn. by destruct Hroot; eexists. }
  apply dwp_level with (S := fun first z => exists c b n, z = c :: b :: first /\ now d z = Some n); [done|..].
  - intros a n Ha. apply dwp_bind, dwp_check; [intros [] _|done].
    apply dwp_level with (S := fun second z => exists c n, z = c :: second /\ now d z = Some n); [done|..].
    + intros b n' Hb. apply dwp_bind, dwp_check; [intros [] _|done].
      apply dwp_level with (S := fun file z => z = file /\ exists n, now d z = Some n); [done|..].
      * intros c n'' Hc. apply dwp_bind, dwp_check; [intros [] _|done]. apply dwp_ret. split; [done|].
        intros z. rewrite list_elem_of_singleton. naive_solver.
      * intros ys Hys. split; [done|]. intros z. rewrite Hys. naive_solver.
    + intros ys Hys. split; [done|]. intros z. rewrite Hys. split; [naive_solver|].
      intros (c & b & n' & -> & Hz). pose proof (dw_tree d Hw _ _ _ Hz). eauto 10.
  - intros ys Hys. apply HQ. intros z. rewrite Hys. split; [naive_solver|].
    intros (c & b & a & n & -> & Hz). do 2 pose proof (dw_tree d Hw _ _ _ ltac:(eassumption)).
    assert (now d (a :: root) = Some DirNode) by (do 2 eapply (dw_tree d Hw); eassumption). eauto 10.
Qed.
End Listing.

Lemma dwp_for_each {A} (xs : list A) (f : A -> io unit) d (Q : unit -> Disk -> Prop) (J R : Disk -> Prop) : J d ->
  (forall x d', x ∈ xs -> J d' -> dwp (f x) d' (fun _ => J) R) -> (forall d', J d' -> Q tt d') -> dwp (for_each xs f) d Q R.
Proof.
  revert d. induction xs as [|x xs IH]; intros d HJ Hf HQ; cbn [for_each]; [by apply dwp_ret, HQ|].
  apply dwp_bind. eapply dwp_mono; [apply Hf; [by left|done]| |done]. intros [] d' HJ'. apply IH; [done|intros; apply Hf; [by right|done]|done].
Qed.

Section Recovery.
Context `{MetaWire}.
Context (order : list (path * node) -> list (path * node)) (Horder : forall l, order l ≡ₚ l).
Context (g0 : GroupName) (b0 : BlockId) (Hb0 : block_fits b0) (B0 : bytes).
Notation I := (Inv g0 b0 B0 false false).
Notation Rec := (Inv g0 b0 B0 false false (fun _ => False)).

Lemma Inv_weaken s o s' o' (gone gone' : path -> Prop) d : Inv g0 b0 B0 s o gone d -> (s' = true -> s = true) ->
  (o' = true -> o = true) -> (forall g b, block_fits b -> gone' (temp g b) -> now d (temp g b) = None) -> Inv g0 b0 B0 s' o' gone' d.
Proof. intros [Hw Hi Ha Ho Hg] Hs Hoo Hgg. constructor; auto. Qed.

Lemma Inv_rec gone d : I gone d -> Rec d.
Proof. intros HI. eapply Inv_weaken; [done|done|done|by intros]. Qed.

(** Only temporary files disappear. *)
Definition fewer (d d' : Disk) : Prop := forall q, now d' q = now d q \/ now d' q = None.

Lemma fewer_trans d1 d2 d3 : fewer d1 d2 -> fewer d2 d3 -> fewer d1 d3.
Proof. intros H1 H2 q. destruct (H2 q) as [->|]; auto. Qed.

Lemma dwp_remove_temp gone p d (Q : unit -> Disk -> Prop) : I gone d -> ~ name_of g0 b0 p ->
  (forall d', I gone d' -> now d' p = None -> fewer d d' -> Q tt d') -> dwp (remove_temp p) d Q (I gone).
Proof.
  intros HI Hp HQ. unfold remove_temp. apply dwp_bind, dwp_remove_other; [done|done|]. intros d1 HI1 Hn1 Hf1.
  destruct (parent p) as [dir|] eqn:Edir; [|by apply dwp_check].
  unfold sync_parent_dir. apply dwp_attempt; [|done]. intros [] d2 Hact.
  assert (I gone d2 /\ forall q, now d2 q = now d1 q) as [HI2 Hn2].
  { destruct (now d1 dir) as [[|i]|]; simplify_eq/=.
    - split; [by apply I_sync_names|apply now_sync].
    - split; [by apply I_sync_body|apply now_update]. }
  split; [|done]. apply HQ; [done|by rewrite Hn2|]. intros q. rewrite Hn2. apply Hf1.
Qed.

(** The names recovery works on are not those of the block that is followed. *)
Lemma temp_not_name p : has_extension "tmp" p = true -> length p = 6 -> ~ name_of g0 b0 p.
Proof.
  unfold has_extension. intros He Hl. bool_prop. intros [Hs|[->| ->]].
  - apply suffix_length in Hs. rewrite block_dir_length in Hs. lia.
  - by rewrite ext_meta in He.
  - by rewrite ext_blk in He.
Qed.

Definition temps_of (dir : path) (p : path) : Prop := exists g b, p = temp g b /\ group_dir g = dir.
Definition gone_ok (gone : path -> Prop) : Prop := forall g b, ~ gone (blk g b).

Lemma dwp_recover_meta gone g p d (Q : unit -> Disk -> Prop) : gone_ok gone -> I gone d ->
  (forall d', I gone d' -> Q tt d') -> dwp (recover_meta g p) d Q (I gone).
Proof.
  intros Hgone HI HQ. unfold recover_meta. apply dwp_bind, dwp_read_meta_file; [intros i m Hi Hp|done].
  pose proof (parse_meta_fits _ _ Hp) as Hfit. apply dwp_bind, dwp_check; [intros [] Hv|done].
  apply dwp_bind, dwp_check; [intros [] He|done]. apply reject_if_Ok in He. bool_prop. rewrite paths_names in He. cbn in He. subst p.
  assert (same g0 b0 g (bm_block_id m) -> settled d i m /\ bm_state m = BlockReady /\ length B0 <= durable m /\
    now d (meta g0 b0) = Some (FileNode i)) as Hs.
  { intros [E1 E2]. rewrite E1, E2 in Hi.
    by destruct (inv_loaded g0 b0 B0 d i m (in_block _ _ _ _ _ _ _ HI) Hi Hp) as (? & ? & ? & ? & ?). }
  case_bool_decide as Hst.
  - apply dwp_complete_deletion; [done|apply Hfit| |done|done]. intros Hsm. destruct (Hs Hsm) as (_ & Hr & _). congruence.
  - apply dwp_restore_prefix; [done|done|destruct (validated_identity _ _ _ Hv) as [<- _]; apply Hfit|apply Hfit|done| |auto].
    intros Hsm. destruct (Hs Hsm) as (? & _ & ? & ?). by exists i.
Qed.

(** Every temporary file of a list is removed. *)
Lemma dwp_remove_temps gone ps d (Q : unit -> Disk -> Prop) : I gone d -> (forall p, p ∈ ps -> ~ name_of g0 b0 p) ->
  (forall d', I gone d' -> (forall p, p ∈ ps -> now d' p = None) -> fewer d d' -> Q tt d') -> dwp (for_each ps remove_temp) d Q (I gone).
Proof.
  revert d. induction ps as [|p ps IH]; intros d HI Hps HQ; cbn [for_each].
  { apply dwp_ret, HQ; [done|by intros p ?%elem_of_nil|by left]. }
  apply dwp_bind, dwp_remove_temp; [done|apply Hps; by left|]. intros d1 HI1 Hn1 Hf1.
  apply IH; [done|intros q Hq; apply Hps; by right|]. intros d2 HI2 Hn2 Hf2. apply HQ; [done| |by eapply fewer_trans].
  intros q [->|Hq]%elem_of_cons; [|auto]. destruct (Hf2 p) as [->|]; done.
Qed.

Lemma dwp_identify gone p d : I gone d -> dwp (identify p) d (fun _ => I gone) (I gone).
Proof.
  intros HI. unfold identify. case_match; [by apply dwp_ret|]. case_match; [|by apply dwp_throw].
  apply dwp_bind, dwp_probe; [intros x _|done]. by apply dwp_check.
Qed.

Lemma temps_gone_ok dir gone : gone_ok gone -> gone_ok (fun p => gone p \/ temps_of dir p).
Proof.
  intros Hg g b [?|(g' & b' & E & _)]; [by eapply Hg|]. apply (f_equal extension) in E. by rewrite ext_blk, ext_temp in E.
Qed.

(** The temporary files of a group are among the files listed for it. *)
Lemma listed_temps_gone (dir : path) (files : list path) (d d1 : Disk) (p : path) :
  (forall q, q ∈ files <-> exists c b a n, q = c :: b :: a :: "blocks" :: dir /\ now d q = Some n) ->
  (forall q, q ∈ filter (fun q => has_extension "tmp" q = true) files -> now d1 q = None) -> fewer d d1 ->
  temps_of dir p -> now d1 p = None.
Proof.
  intros Hfiles Hn1 Hf1 (g & b & -> & <-). destruct (now d1 (temp g b)) as [n|] eqn:En; [|done]. exfalso.
  assert (now d (temp g b) = Some n) as Hn by (destruct (Hf1 (temp g b)); congruence).
  rewrite Hn1 in En; [done|]. apply list_elem_of_filter. split.
  - unfold has_extension. rewrite ext_temp. by rewrite bool_decide_eq_true_2.
  - apply Hfiles. rewrite block_name_eq in Hn |- *. destruct (block_dir_eq g b) as (y & x & Ed). rewrite Ed in Hn |- *. eauto 10.
Qed.

Lemma dwp_recover_group gone dir kind d (Q : nat -> Disk -> Prop) : gone_ok gone -> length dir = 2 -> I gone d ->
  (forall n d', I (fun p => gone p \/ temps_of dir p) d' -> Q n d') -> dwp (recover_group order (dir, kind)) d Q Rec.
Proof.
  intros Hgone Hl HI HQ. unfold recover_group. apply dwp_bind, dwp_check; [intros [] _|by eapply Inv_rec].
  apply dwp_bind, dwp_check; [intros g _|by eapply Inv_rec].
  apply dwp_bind, dwp_block_files; [done|apply HI| |by eapply Inv_rec]. intros files Hfiles.
  apply dwp_bind, (dwp_weaken _ _ _ (I gone)); [|apply Inv_rec]. apply dwp_remove_temps; [done| |].
  { intros p [Hp (c & b & a & n & -> & _)%Hfiles]%list_elem_of_filter. apply temp_not_name; [done|]. cbn. lia. }
  intros d1 HI1 Hn1 Hf1. set (gone' := fun p => gone p \/ temps_of dir p).
  assert (gone_ok gone') as Hgone' by by apply temps_gone_ok.
  assert (I gone' d1) as HI1'.
  { eapply Inv_weaken; [exact HI1|done|done|]. intros g' b' Hb' [Hg|(g1 & b1 & E & Hdir)]; [by apply HI1|].
    eapply listed_temps_gone; [exact Hfiles|exact Hn1|exact Hf1|by exists g1, b1]. }
  apply dwp_bind, (dwp_weaken _ _ _ (I gone')); [|apply Inv_rec].
  apply dwp_for_each with (J := I gone'); [done|intros p d' _ Hd'; by apply dwp_recover_meta|]. intros d2 HI2.
  apply dwp_bind, dwp_block_files; [done|apply HI2| |by eapply Inv_rec]. intros after _.
  apply dwp_bind, (dwp_weaken _ _ _ (I gone')); [|apply Inv_rec].
  apply dwp_for_each with (J := I gone'); [done|intros p d' _ Hd'; by apply dwp_identify|]. intros d3 HI3. by apply dwp_ret, HQ.
Qed.

Lemma dwp_recover_groups gone gs d (Q : list nat -> Disk -> Prop) : gone_ok gone -> (forall dir n, (dir, n) ∈ gs -> length dir = 2) ->
  I gone d -> (forall ns d', I (fun p => gone p \/ exists dir n, (dir, n) ∈ gs /\ temps_of dir p) d' -> Q ns d') ->
  dwp (for_collect gs (fun entry => n ← recover_group order entry; mret [n])) d Q Rec.
Proof.
  revert gone d Q. induction gs as [|[dir n] gs IH]; intros gone d Q Hgone Hl HI HQ; cbn [for_collect].
  { apply dwp_ret, HQ. eapply Inv_weaken; [exact HI|done|done|]. intros g b Hb [?|(? & ? & ?%elem_of_nil & _)]; [by apply HI|done]. }
  apply dwp_bind, dwp_bind, (dwp_recover_group gone); [done|by eapply Hl; left|done|]. intros k d1 HI1. apply dwp_ret.
  apply dwp_bind, (IH (fun p => gone p \/ temps_of dir p)); [by apply temps_gone_ok|intros ? ? ?; eapply Hl; by right|done|].
  intros ns d2 HI2. apply dwp_ret, HQ. eapply Inv_weaken; [exact HI2|done|done|].
  intros g b Hb Hg. apply HI2; [done|]. destruct Hg as [?|(dir' & n' & [[= -> ->]|Hin]%elem_of_cons & Ht)]; eauto 10.
Qed.

(** Recovery that gets to look for the groups ends with a store that can serve. *)
Lemma dwp_recover_blocks fs d : Rec d -> match fs with Trouble _ _ :: _ => False | _ => True end ->
  match recover_blocks order fs d with
  | (Done _, _, d') => Inv g0 b0 B0 true false (fun _ => False) d'
  | (Failed _, _, d') | (Halted, _, d') => Rec d'
  end.
Proof.
  intros HI Hfs. assert (dwp (groups ← read_dir order ["groups"];
    counts ← for_collect groups (fun entry => n ← recover_group order entry; mret [n]); mret (sum_list counts)) d
    (fun _ => Inv g0 b0 B0 true false (fun _ => False)) Rec) as Hgo.
  { apply dwp_bind, dwp_read_dir; [done| |done]. intros gs Hgs.
    set (absent := fun p => exists g b, p = temp g b /\ now d (group_dir g) = None).
    assert (forall g b, now d (group_dir g) = None -> now d (temp g b) = None) as Habs.
    { intros g b Hd. destruct (now d (temp g b)) as [n|] eqn:En; [|done]. rewrite block_name_eq in En.
      destruct (block_dir_eq g b) as (y & x & Ed). rewrite Ed in En. do 4 apply (dw_tree d (in_wf _ _ _ _ _ _ _ HI)) in En. congruence. }
    apply dwp_bind, (dwp_recover_groups absent).
    - intros g b (g' & b' & E & _). apply (f_equal extension) in E. by rewrite ext_blk, ext_temp in E.
    - intros dir n [Hp _]%Hgs. destruct dir as [|x dir]; simplify_eq/=. done.
    - eapply Inv_weaken; [exact HI|done|done|]. intros g b Hb (g' & b' & E & Hd). rewrite E. by apply Habs.
    - intros ns d' HI'. apply dwp_ret.
      assert (forall g b, block_fits b -> now d' (temp g b) = None) as Hnone.
      { intros g b Hb. apply HI'; [done|]. destruct (now d (group_dir g)) as [n|] eqn:Eg; [right|left; exists g, b; done].
        exists (group_dir g), n. split; [by apply Hgs|by exists g, b]. }
      destruct HI' as [Hw Hi _ _ _]. constructor; try done. intros _ g b i Hb. by rewrite Hnone. }
  assert (Inv g0 b0 B0 true false (fun _ => False) d \/ now d ["groups"] <> None) as Hgr.
  { destruct (now d ["groups"]) as [n|] eqn:E; [by right|left]. destruct HI as [Hw Hi _ _ Hg].
    constructor; try done. intros _ g b i Hb Ht. exfalso. rewrite block_name_eq in Ht.
    destruct (block_dir_eq g b) as (y & x & Ed). rewrite Ed in Ht. do 5 apply (dw_tree d Hw) in Ht. congruence. }
  unfold recover_blocks, mbind at 1, io_bind at 1, exists_, probe.
  destruct fs as [|[| |k] fs]; [| |done|exact HI]; (case_bool_decide as Hsome; cbn [negb];
    [apply Hgo|destruct Hgr as [?|Hgr]; [done|by destruct (now d ["groups"]); [destruct Hsome|]]]).
Qed.
End Recovery.
