(* ===== verification/BlockStoreProps.v ===== *)
(** * What a worker's block store promises

    A worker runs the operations of its store, is restarted and loses power at any
    point. Once a checkpoint was acknowledged, its bytes are read back for as long as
    the block is not reclaimed and no later writer is authorized below them. *)

From S2P Require Import Prelude Types Errors WorkerTypes Bytes FileSystem BlockMeta BlockStore DiskLogic BlockMetaProps DiskInv BlockStoreInv BlockStoreSafe BlockStoreOps BlockStoreRecovery SampleWire.

Inductive StoreOp :=
| OpOpen (r : OpenBlockWriteRequest)
| OpWrite (g : GroupName) (b : BlockId) (offset : Z) (data : bytes)
| OpCheckpoint (r : CheckpointBlockRequest)
| OpRead (g : GroupName) (b : BlockId) (offset len : Z)
| OpReport (g : GroupName) (b : BlockId)
| OpScan (g : GroupName)
| OpInspect (g : GroupName) (b : BlockId)
| OpReclaim (g : GroupName) (b : BlockId)
| OpDiscard (g : GroupName) (b : BlockId).

(** A worker: its disk, whether it serves, and the blocks it opened since it started. *)
Record Worker := mk_Worker {
  wk_disk : Disk;
  wk_up : bool;
  wk_open : list (GroupName * BlockId)
}.

Section Runs.
Context `{MetaWire}.
Context (order : list (path * node) -> list (path * node)).

Definition void {A} (m : io A) : io unit := _ ← m; mret tt.

Definition run_op (op : StoreOp) : io unit :=
  match op with
  | OpOpen r => void (open_block_write r)
  | OpWrite g b off data => write_at g b off data
  | OpCheckpoint r => void (checkpoint_block r)
  | OpRead g b off len => void (read_at g b off len)
  | OpReport g b => void (load_report_meta g b)
  | OpScan g => void (scan_group_blocks order g)
  | OpInspect g b => void (inspect_reclaim_block g b)
  | OpReclaim g b => void (reclaim_block g b)
  | OpDiscard g b => discard_unsynced_suffix g b
  end.

Definition opens (op : StoreOp) : list (GroupName * BlockId) :=
  match op with OpOpen r => [(ob_group_name r, ob_block_id r)] | _ => [] end.

(** One operation with the faults it meets. *)
Definition do_op (op : StoreOp) (fs : list fault) (w : Worker) : Worker :=
  match run_op op fs (wk_disk w) with
  | (Done _, _, d) => mk_Worker d true (opens op ++ wk_open w)
  | (Failed _, _, d) => mk_Worker d true (wk_open w)
  | (Halted, _, d) => mk_Worker d false []
  end.

Definition restart_worker (fs : list fault) (w : Worker) : Worker :=
  match recover_blocks order fs (wk_disk w) with
  | (Done _, _, d) => mk_Worker d true []
  | (_, _, d) => mk_Worker d false []
  end.

(** What the types and the callers of the store ensure: a stream is checkpointed only
    after it was opened. *)
Definition op_fits (w : Worker) (op : StoreOp) : Prop :=
  match op with
  | OpOpen r => open_fits r
  | OpWrite g b _ _ | OpRead g b _ _ | OpReport g b | OpInspect g b | OpReclaim g b | OpDiscard g b => group_ok g /\ block_fits b
  | OpCheckpoint r => block_fits (ck_block_id r) /\ u64_ok (ck_effective_len r) /\ (ck_group_name r, ck_block_id r) ∈ wk_open w
  | OpScan _ => True
  end.

(** The operation leaves the first [n] bytes of the block to their readers. *)
Definition spares (g : GroupName) (b : BlockId) (n : nat) (op : StoreOp) : Prop :=
  match op with
  | OpOpen r => (ob_group_name r, ob_block_id r) = (g, b) -> (Z.of_nat n <= ob_visible_len r)%Z
  | OpReclaim g' b' => (g', b') <> (g, b)
  | _ => True
  end.

(** The first call of recovery, which asks whether there are groups, is not the one
    that meets an error. *)
Definition looks (fs : list fault) : Prop := match fs with Trouble _ _ :: _ => False | _ => True end.

(** No block is reclaimed. *)
Definition retains (op : StoreOp) : Prop := match op with OpReclaim _ _ => False | _ => True end.

(** Runs with operations that are allowed. *)
Inductive runs (allowed : StoreOp -> Prop) : Worker -> Worker -> Prop :=
| runs_refl w : runs allowed w w
| runs_op w w' op fs : runs allowed w w' -> wk_up w' = true -> op_fits w' op -> allowed op -> runs allowed w (do_op op fs w')
| runs_restart w w' fs : runs allowed w w' -> looks fs -> runs allowed w (restart_worker fs w')
| runs_crash w w' d : runs allowed w w' -> crashed (wk_disk w') d -> runs allowed w (mk_Worker d false []).

Lemma runs_mono (P Q : StoreOp -> Prop) w w' : (forall w op, op_fits w op -> P op -> Q op) -> runs P w w' -> runs Q w w'.
Proof. intros HPQ. induction 1; [apply runs_refl|apply runs_op; eauto|apply runs_restart; auto|eapply runs_crash; eauto]. Qed.

Lemma runs_trans P w1 w2 w3 : runs P w1 w2 -> runs P w2 w3 -> runs P w1 w3.
Proof. intros H12 H23. induction H23; [done|apply runs_op; auto|apply runs_restart; auto|]. by eapply runs_crash; [apply IHruns|]. Qed.

(** A prepared root with nothing in it, before the worker's first start. *)
Definition fresh_disk : Disk := mk_Disk {[ [] := mk_slot (Some DirNode) [] ]} ∅ 0.
Definition fresh_worker : Worker := mk_Worker fresh_disk false [].

(** The bytes of a file. *)
Definition contents (d : Disk) (p : path) : bytes :=
  match now d p with Some (FileNode i) => bd_data (body_of d i) | _ => [] end.
End Runs.

Section Promise.
Context `{MetaWire}.
Context (order : list (path * node) -> list (path * node)) (Horder : forall l, order l ≡ₚ l).
Context (g : GroupName) (b : BlockId) (Hb : block_fits b).

Definition kept_by (B : bytes) (w : Worker) : Prop :=
  Inv g b B (wk_up w) (bool_decide ((g, b) ∈ wk_open w)) (fun _ => False) (wk_disk w) /\
  (wk_up w = false -> wk_open w = []).

Lemma dwp_void {A} (m : io A) d (Q : unit -> Disk -> Prop) (R : Disk -> Prop) : dwp m d (fun _ => Q tt) R -> dwp (void m) d Q R.
Proof. intros Hm. apply dwp_bind. eapply dwp_mono; [exact Hm| |done]. intros a d' Hd'. by apply dwp_ret. Qed.

Lemma dwp_scan o B gr d (Q : list BlockMeta -> Disk -> Prop) : Inv g b B true o (fun _ => False) d ->
  (forall x d', Inv g b B true o (fun _ => False) d' -> Q x d') ->
  dwp (scan_group_blocks order gr) d Q (Inv g b B true o (fun _ => False)).
Proof.
  intros HI HQ. unfold scan_group_blocks. apply dwp_bind, dwp_block_files; [done|apply HI| |done]. intros files _.
  apply dwp_bind, dwp_for_collect; [done| |intros ys d' HI'; by apply dwp_ret, HQ]. intros p d' _ HI'.
  apply dwp_bind, dwp_read_report_meta; [done|]. intros m d1 HI1. do 2 (apply dwp_bind, dwp_check; [intros [] _|done]).
  case_bool_decide; [|by apply dwp_ret]. apply dwp_bind, dwp_validate_data_prefix; [by apply dwp_ret|done].
Qed.

(** Every operation. *)
Lemma dwp_run_op o B op w d : op_fits w op -> spares g b (length B) op ->
  (o = bool_decide ((g, b) ∈ wk_open w)) -> Inv g b B true o (fun _ => False) d ->
  dwp (run_op order op) d (fun _ d' => Inv g b B true o (fun _ => False) d' /\ ((g, b) ∈ opens op -> data_settled g b d'))
    (Inv g b B true o (fun _ => False)).
Proof.
  intros Hfit Hsp Ho HI. destruct op as [r|g' b' off data|r|g' b' off len|g' b'|g'|g' b'|g' b'|g' b']; cbn [run_op opens].
  - apply dwp_void, dwp_open_block_write; [done|done|done| |].
    + intros [E1 E2]. cbn in Hsp. rewrite E1, E2 in Hsp. specialize (Hsp eq_refl). lia.
    + intros m d' HI' Hset. split; [done|]. intros [= -> ->]%list_elem_of_singleton. by apply Hset.
  - destruct Hfit as [Hfg Hfb]. apply dwp_write_at; [done|done|done|]. intros d' HI'. split; [done|by intros ?%elem_of_nil].
  - destruct Hfit as (Hf1 & Hf2 & Hin). apply dwp_void, dwp_checkpoint_block; [done|done|done|done| |].
    + intros [E1 E2]. subst o. rewrite E1, E2 in Hin. by rewrite bool_decide_eq_true_2.
    + intros m d' HI' _. split; [done|by intros ?%elem_of_nil].
  - apply dwp_void, dwp_read_at; [done|]. intros x. split; [done|by intros ?%elem_of_nil].
  - apply dwp_void, dwp_load_report_meta; [done|]. intros m d' HI'. split; [done|by intros ?%elem_of_nil].
  - apply dwp_void, dwp_scan; [done|]. intros m d' HI'. split; [done|by intros ?%elem_of_nil].
  - apply dwp_void, dwp_inspect_reclaim_block; [done|]. intros st. split; [done|by intros ?%elem_of_nil].
  - destruct Hfit as [Hfg Hfb]. apply dwp_void, dwp_reclaim_block; [done|done| |done|]; [intros [-> ->]; by apply Hsp|].
    intros x d' HI'. split; [done|by intros ?%elem_of_nil].
  - destruct Hfit as [Hfg Hfb]. apply dwp_discard_unsynced_suffix; [done|done|done|done|]. intros d' HI'. split; [done|by intros ?%elem_of_nil].
Qed.

Lemma kept_down B d : Inv g b B false false (fun _ => False) d -> kept_by B (mk_Worker d false []).
Proof. intros HI. split; [|done]. cbn. rewrite bool_decide_eq_false_2; [done|by intros ?%elem_of_nil]. Qed.

Lemma kept_op B op fs w : op_fits w op -> spares g b (length B) op -> wk_up w = true -> kept_by B w -> kept_by B (do_op order op fs w).
Proof.
  intros Hfit Hsp Hup [HI Hdown]. rewrite Hup in HI.
  pose proof (dwp_run_op _ B op w (wk_disk w) Hfit Hsp eq_refl HI fs) as Hwp. unfold do_op.
  destruct (run_op order op fs (wk_disk w)) as [[[[]|e|] fs'] d']; [| |].
  - destruct Hwp as [HI' Hset]. split; [|done]. cbn. destruct HI' as [Hw Hi Ha Ho Hg]. constructor; try done.
    intros [Hin|Hin]%bool_decide_eq_true_1%elem_of_app; [by apply Hset|]. apply Ho. by rewrite bool_decide_eq_true_2.
  - by split.
  - apply kept_down. eapply Inv_weaken; [exact Hwp|done|done|by intros].
Qed.

Lemma kept_restart B fs w : looks fs -> kept_by B w -> kept_by B (restart_worker order fs w).
Proof.
  intros Hl [HI _]. unfold restart_worker.
  assert (Inv g b B false false (fun _ => False) (wk_disk w)) as HR by (eapply Inv_weaken; [exact HI|done|done|by intros]).
  pose proof (dwp_recover_blocks order Horder g b Hb B fs (wk_disk w) HR Hl) as Hrec.
  destruct (recover_blocks order fs (wk_disk w)) as [[[n|e|] fs'] d']; [|by apply kept_down..].
  split; [|done]. cbn. rewrite bool_decide_eq_false_2; [done|by intros ?%elem_of_nil].
Qed.

Lemma kept_crash B w d : crashed (wk_disk w) d -> kept_by B w -> kept_by B (mk_Worker d false []).
Proof.
  intros Hc [[Hw Hi _ _ _] _]. apply kept_down. constructor; try done; [by eapply wf_crash|by eapply inv_crash].
Qed.

Lemma kept_runs B w w' : runs order (spares g b (length B)) w w' -> kept_by B w -> kept_by B w'.
Proof.
  induction 1 as [w|w w' op fs Hr IH Hup Hfit Hsp|w w' fs Hr IH Hl|w w' d Hr IH Hc]; intros Hk;
    [done|by apply kept_op; auto|by apply kept_restart; auto|by eapply kept_crash; auto].
Qed.

(** ** From the first start to a checkpoint *)

Lemma fresh_may p v : may fresh_disk p v -> v = if bool_decide (p = []) then Some DirNode else None.
Proof.
  unfold may, now, slot_of. cbn [dk_names fresh_disk]. case_bool_decide as Hp.
  - subst. rewrite lookup_singleton_eq. cbn. by intros [->| ?%elem_of_nil].
  - rewrite lookup_singleton_ne by congruence. cbn. by intros [->| ?%elem_of_nil].
Qed.

Lemma kept_fresh : kept_by [] fresh_worker.
Proof.
  assert (forall s g b v, may fresh_disk (block_name s g b) v -> v = None) as Hnone.
  { intros s g' b' v Hv. apply fresh_may in Hv. rewrite bool_decide_eq_false_2 in Hv; [done|].
    intros E%(f_equal length). by rewrite block_name_length in E. }
  apply kept_down. constructor; [constructor|constructor| | |]; try done.
  - intros v Hv%fresh_may. done.
  - intros name dir n Hn. pose proof (fresh_may _ _ (may_now fresh_disk (name :: dir))) as E. cbn in E. congruence.
  - intros p i Hp%fresh_may. by case_bool_decide.
  - intros i [x Hx]. done.
  - intros p q i Hp%fresh_may. by case_bool_decide.
  - intros p n Hp%fresh_may. case_bool_decide; simplify_eq. left. split; [done|].
    exists "root", (mk_BlockId 1 0). split_and!; [reflexivity|by vm_compute|apply suffix_nil].
  - right. intros p v [->| ->] Hv; by eapply Hnone.
  - intros v Hv. left. split; [by eapply Hnone|done].
  - intros v Hv. left. split_and!; [by eapply Hnone|done|]. intros m (i & Hi & _). by apply Hnone in Hi.
  - intros j v Hj. by apply Hnone in Hj.
Qed.

Lemma block_inv_take d B n : block_inv d g b B -> n <= length B -> 0 < n -> block_inv d g b (take n B).
Proof.
  intros [Hd Hm Hdt Hlk] Hn Hpos. assert (length (take n B) = n) as Hl by (rewrite length_take; lia). constructor; [done|..|done].
  - intros v Hv. destruct (Hm v Hv) as [[_ ->]|(i & m & -> & Hs & Hv' & Hr & HB)]; [cbn in Hn; lia|right].
    exists i, m. split_and!; try done. lia.
  - intros v Hv. destruct (Hdt v Hv) as [(_ & -> & _)|(j & bd & -> & Hj & HB & Ht & Hk)]; [cbn in Hn; lia|right].
    exists j, bd. rewrite Hl. split_and!; try done; [lia|]. rewrite <- Ht, take_take. by rewrite Nat.min_l by lia.
Qed.

(** An acknowledged checkpoint covers what the data file holds. *)
Lemma checkpoint_keeps r fs w m fs' d' n : kept_by [] w -> wk_up w = true -> op_fits w (OpCheckpoint r) ->
  (ck_group_name r, ck_block_id r) = (g, b) -> checkpoint_block r fs (wk_disk w) = (Done m, fs', d') ->
  n <= Z.to_nat (ck_effective_len r) -> 0 < n ->
  kept_by (take n (contents d' (blk g b))) (do_op order (OpCheckpoint r) fs w) /\ n <= length (contents d' (blk g b)).
Proof.
  intros [HI _] Hup (Hf1 & Hf2 & Hin) [= Eg Eb] Hck Hn Hpos. rewrite Hup in HI.
  pose proof (dwp_checkpoint_block g b Hb [] _ r (wk_disk w) (fun _ d => Inv g b [] true (bool_decide ((g, b) ∈ wk_open w)) (fun _ => False) d /\
    (same g b (ck_group_name r) (ck_block_id r) -> checkpointed g b d (Z.to_nat (ck_effective_len r)))) Hf1 Hf2 HI) as Hwp.
  assert (bool_decide ((g, b) ∈ wk_open w) = true) as Hop by (apply bool_decide_eq_true_2; by rewrite Eg, Eb in Hin).
  specialize (Hwp (fun _ => Hop) (fun _ _ H1 H2 => conj H1 H2) fs).
  rewrite Hck in Hwp. destruct Hwp as [[Hw Hi Ha Ho Hg] Hcp]. specialize (Hcp (conj Eg Eb)) as (j & bd & Hj & Hbd & Hlen & Hinv).
  assert (contents d' (blk g b) = bd_data bd) as Hc by (unfold contents; rewrite Hj; by rewrite (body_of_lookup d' j bd)).
  rewrite Hc. split; [|lia]. unfold do_op, run_op, void, mbind, io_bind. rewrite Hck. cbn. split; [|done]. cbn.
  constructor; try done. apply block_inv_take; [done|lia|done].
Qed.

(** ** Reading what is kept *)

Lemma kept_read B w off len : kept_by B w -> wk_up w = true -> B <> [] ->
  (0 <= off)%Z -> (0 <= len)%Z -> (off + len <= Z.of_nat (length B))%Z ->
  read_at g b off len [] (wk_disk w) = (Done (take (Z.to_nat len) (drop (Z.to_nat off) B)), [], wk_disk w).
Proof.
  intros [HI _] Hup HB H1 H2 H3. destruct HI as [Hw Hi _ _ _]. set (d := wk_disk w) in *.
  destruct (bi_meta _ _ _ _ Hi _ (may_now d (meta g b))) as [[_ ?]|(i & m & Hn & (x & Hx & Hp & _) & Hv & Hr & HD)]; [done|].
  destruct (bi_data _ _ _ _ Hi _ (may_now d (blk g b))) as [(_ & ? & _)|(j & bd & Hj & Hbd & Hk & Ht & Hall)]; [done|].
  assert (durable m <= bd_kept bd) as Hdk.
  { apply Hall. exists i. split; [rewrite <- Hn; apply may_now|]. destruct (bi_meta _ _ _ _ Hi _ (may_now d (meta g b)))
      as [[E _]|(i' & m' & E & Hs & _)]; [congruence|]. assert (i' = i) as -> by congruence.
    destruct Hs as (x' & Hx' & Hp' & Hc). exists x'. split_and!; [done|congruence|done]. }
  pose proof (dw_body d Hw j bd Hbd) as Hok. pose proof (body_ok_length bd Hok) as Hlen. destruct Hok as (_ & Heq & _).
  pose proof (mf_len _ (parse_meta_fits _ _ Hp)) as Hmax. unfold durable, u64_ok in *.
  assert (load_meta g b [] d = (Done m, [], d)) as Hload.
  { unfold load_meta, mbind, io_bind. rewrite paths_names. cbn [meta_path].
    erewrite read_meta_file_ok; [|done|by erewrite body_of_lookup]. cbn. by rewrite Hv. }
  assert (checked_add64 off len = Some (off + len)%Z) as Hadd by (apply checked_add64_Some; lia).
  unfold read_at. rewrite (bind_done _ _ _ _ _ _ _ Hload).
  rewrite (bind_done _ _ [] d tt [] d) by (unfold ensure_readable; by rewrite Hr, neq_refl_false).
  rewrite Hadd, (bind_done _ _ [] d tt [] d) by (rewrite (proj2 (Z.ltb_ge _ _)); [done|lia]).
  rewrite (bind_done _ _ [] d tt [] d).
  2:{ unfold validate_data_prefix. rewrite paths_names. cbn [data_path].
      rewrite (bind_done _ _ [] d (Ok (Z.of_nat (length (bd_data bd)))) [] d).
      - cbn. by rewrite (proj2 (Z.ltb_ge _ _)) by lia.
      - unfold path_len. by rewrite Hj, (body_of_lookup d j bd). }
  rewrite paths_names. cbn [data_path]. rewrite (bind_done _ _ [] d j [] d).
  2:{ unfold open_file_with, query, syscall. by rewrite Hj. }
  unfold read_exact_at, query, syscall. rewrite (body_of_lookup d j bd) by done. cbn -[take drop].
  rewrite bool_decide_eq_true_2 by lia. cbn -[take drop]. do 3 f_equal.
  assert (take (length B) (bd_data bd) = B) as HBd.
  { apply (f_equal (take (length B))) in Heq. rewrite !take_take, !Nat.min_l in Heq by lia. congruence. }
  rewrite !take_drop_commute. rewrite <- HBd at 1. by rewrite take_take, Nat.min_l by lia.
Qed.
End Promise.

(** ** The theorem *)

(** C3. From the first start of a worker, let any operations run on its store,
    with any I/O errors, restarts and losses of power, as long as the block is not
    reclaimed. When a checkpoint of the block then returns, and the store goes on in any
    such way while later writers are authorized no lower than the first [n] bytes the
    checkpoint covered, every read within those bytes returns the bytes the data file
    had when the checkpoint was acknowledged. *)
Theorem durable_prefix_survives `{MetaWire} order g b w r fs m fs' d w' n off len :
  (forall l, order l ≡ₚ l) -> block_fits b ->
  runs order (spares g b 0) fresh_worker w -> wk_up w = true -> op_fits w (OpCheckpoint r) ->
  (ck_group_name r, ck_block_id r) = (g, b) -> checkpoint_block r fs (wk_disk w) = (Done m, fs', d) ->
  0 < n <= Z.to_nat (ck_effective_len r) ->
  runs order (spares g b n) (do_op order (OpCheckpoint r) fs w) w' -> wk_up w' = true ->
  (0 <= off)%Z -> (0 <= len)%Z -> (off + len <= Z.of_nat n)%Z ->
  read_at g b off len [] (wk_disk w') =
    (Done (take (Z.to_nat len) (drop (Z.to_nat off) (contents d (data_path (paths g b))))), [], wk_disk w').
Proof.
  intros Hord Hb Hr1 Hup Hfit Heq Hck [Hpos Hn] Hr2 Hup' H1 H2 H3. rewrite paths_names. cbn [data_path].
  assert (kept_by g b [] w) as Hk by (eapply kept_runs; [done|done|exact Hr1|by apply kept_fresh]).
  destruct (checkpoint_keeps order g b Hb r fs w m fs' d n Hk Hup Hfit Heq Hck Hn Hpos) as [Hk' Hlen].
  set (B := contents d (blk g b)) in *. assert (length (take n B) = n) as HlB by (rewrite length_take; lia).
  assert (kept_by g b (take n B) w') as Hk2 by (eapply kept_runs; [done|done|by rewrite HlB|done]).
  rewrite (kept_read g b (take n B) w' off len Hk2 Hup'); [|by intros E%(f_equal length); cbn in *; lia|done|done|lia].
  rewrite !take_drop_commute, take_take. by rewrite Nat.min_l by lia.
Qed.

(** ** A run *)


(** A loss of power that takes every byte it can, and no name. *)
Definition lose_body (b : body) : body := sync_body (if bd_clean b then b else mk_body (take (bd_kept b) (bd_synced b)) [] 0 false).
Definition lose_power (d : Disk) : Disk :=
  mk_Disk ((fun s => mk_slot (sl_now s) []) <$> dk_names d) (lose_body <$> dk_files d) (dk_next d).

Lemma now_lose d p : now (lose_power d) p = now d p.
Proof. unfold now, slot_of, lose_power. cbn. rewrite lookup_fmap. by destruct (dk_names d !! p). Qed.

Lemma crash_lose d : disk_wf d -> crashed d (lose_power d).
Proof.
  intros Hw. constructor.
  - intros p. left. rewrite now_lose. apply may_now.
  - intros name dir n. rewrite !now_lose. apply (dw_tree d Hw).
  - intros p v. unfold may. rewrite now_lose. intros [->|Hv]; [done|]. unfold slot_of, lose_power in Hv. cbn in Hv.
    rewrite lookup_fmap in Hv. by destruct (dk_names d !! p); apply elem_of_nil in Hv.
  - intros i b'. cbn. rewrite lookup_fmap. intros (b & Hi & ->)%fmap_Some. destruct (dw_body d Hw i b Hi) as (Hl & He & Hc).
    split; [done|]. exists b. unfold lose_body. destruct (bd_clean b); cbn; (split; [done|]).
    + destruct (Hc eq_refl) as [-> ->]. by split_and!.
    + rewrite length_take, take_take, Nat.min_id. split_and!; [lia|done|done].
  - intros i. cbn. rewrite lookup_fmap. by rewrite fmap_is_Some.
  - done.
Qed.

Definition stored_block : BlockId := mk_BlockId 5 0.
Definition sample_token : FencingToken := mk_FencingToken stored_block 7 1.
Definition sample_open : OpenBlockWriteRequest :=
  mk_OpenBlockWriteRequest "root" stored_block 64 DURABLE_PREFIX DURABLE_PREFIX_STORAGE_CHUNK_SIZE ChecksumNone Ssd sample_token 0 0.
Definition sample_checkpoint : CheckpointBlockRequest := mk_CheckpointBlockRequest "root" stored_block 3 sample_token.
Definition in_order (l : list (path * node)) : list (path * node) := l.

(** The first open meets an error while it syncs a directory; the second goes through. *)
Definition sample_written : Worker :=
  do_op in_order (OpWrite "root" stored_block 0 [x61; x62; x63]) []
    (do_op in_order (OpOpen sample_open) []
      (do_op in_order (OpOpen sample_open) [Go; Go; Trouble Broken 0] (restart_worker in_order [] fresh_worker))).
Definition sample_acked : Worker := do_op in_order (OpCheckpoint sample_checkpoint) [] sample_written.

(** More is written, power is lost, the machine stops again during recovery, and the
    next start succeeds. *)
Definition sample_appended : Worker := do_op in_order (OpWrite "root" stored_block 3 [x64; x65]) [] sample_acked.
Definition sample_after : Worker :=
  restart_worker in_order [] (restart_worker in_order [Go; Go; Go; Halt 1] (mk_Worker (lose_power (wk_disk sample_appended)) false [])).

#[local] Opaque restart_worker do_op.

(** Nothing is reclaimed and the first bytes of the block are spared. *)
Definition careful (n : nat) (op : StoreOp) : Prop := spares "root" stored_block n op /\ retains op.

Lemma careful_spares n w w' : runs in_order (careful n) w w' -> runs in_order (spares "root" stored_block n) w w'.
Proof. apply runs_mono. by intros w0 op _ [? _]. Qed.

Lemma sample_open_fits : open_fits sample_open.
Proof. constructor; try (vm_compute; intuition congruence). Qed.

Lemma sample_fits : group_ok "root" /\ block_fits stored_block.
Proof. split; [reflexivity|by vm_compute]. Qed.

Lemma sample_written_runs : runs in_order (careful 0) fresh_worker sample_written.
Proof.
  assert (careful 0 (OpOpen sample_open)) as Hsp by (split; [intros _; by vm_compute|done]).
  unfold sample_written. do 3 (apply runs_op; [|vm_compute; reflexivity|first [exact sample_open_fits|exact sample_fits]|done]).
  by apply runs_restart; [apply runs_refl|].
Qed.

Lemma sample_after_runs : runs in_order (careful 3) sample_acked sample_after.
Proof.
  assert (runs in_order (careful 3) sample_acked sample_appended) as Hr.
  { apply runs_op; [apply runs_refl|vm_compute; reflexivity|exact sample_fits|done]. }
  do 2 (apply runs_restart; [|done]). eapply runs_crash; [exact Hr|]. apply crash_lose.
  assert (kept_by "root" stored_block [] sample_written) as Hk.
  { eapply (kept_runs in_order); [done|by vm_compute|exact (careful_spares 0 _ _ sample_written_runs)|by apply kept_fresh]. }
  assert (kept_by "root" stored_block [] sample_acked) as Hk1.
  { apply kept_op; [done|by vm_compute| |done|vm_compute; reflexivity|done]. split_and!; [by vm_compute..|].
    apply (bool_decide_eq_true_1 _). vm_compute. reflexivity. }
  assert (kept_by "root" stored_block [] sample_appended) as [Hk2 _]; [|apply Hk2].
  apply kept_op; [done|by vm_compute|exact sample_fits|done|vm_compute; reflexivity|done].
Qed.

Lemma sample_ack : exists m d, checkpoint_block sample_checkpoint [] (wk_disk sample_written) = (Done m, [], d) /\
  contents d (data_path (paths "root" stored_block)) = [x61; x62; x63].
Proof.
  assert (exists m, (checkpoint_block sample_checkpoint [] (wk_disk sample_written)).1 = (Done m, [])) as [m Hm]
    by (eexists; vm_compute; reflexivity).
  exists m, (checkpoint_block sample_checkpoint [] (wk_disk sample_written)).2. split; [|vm_compute; reflexivity].
  rewrite <- Hm. apply surjective_pairing.
Qed.

Lemma sample_block_fits : block_fits stored_block.
Proof. by vm_compute. Qed.
Lemma sample_checkpoint_fits : op_fits sample_written (OpCheckpoint sample_checkpoint).
Proof. split_and!; [by vm_compute..|]. apply (bool_decide_eq_true_1 _). vm_compute. reflexivity. Qed.
Lemma sample_up : wk_up sample_written = true /\ wk_up sample_after = true.
Proof. split; vm_compute; reflexivity. Qed.

Lemma durable_prefix_survives_witness : (read_at "root" stored_block 1 2 [] (wk_disk sample_after)).1.1 = Done [x62; x63].
Proof.
  destruct sample_ack as (m & d & Hck & Hc), sample_up as [Hup Hup'].
  assert (0 < 3 <= Z.to_nat (ck_effective_len sample_checkpoint)) as Hn by (change (Z.to_nat _) with 3; lia).
  assert (0 <= 1 /\ 0 <= 2 /\ 1 + 2 <= Z.of_nat 3)%Z as (H1 & H2 & H3) by lia.
  rewrite (durable_prefix_survives in_order "root" stored_block sample_written sample_checkpoint [] m [] d sample_after 3 1 2
    (fun l => Permutation_refl l) sample_block_fits (careful_spares 0 _ _ sample_written_runs) Hup sample_checkpoint_fits eq_refl Hck
    Hn (careful_spares 3 _ _ sample_after_runs) Hup' H1 H2 H3).
  rewrite Hc. reflexivity.
Defined.

(** ** Two ways in which recovery is not safe *)

(** Power is lost and one file name is found as it was before. *)
Definition revert (p : path) (v : option node) (d : Disk) : Disk :=
  mk_Disk (<[p := mk_slot v []]> (dk_names (lose_power d))) (dk_files (lose_power d)) (dk_next d).

Lemma slot_revert p v d q : slot_of (revert p v d) q = if bool_decide (q = p) then mk_slot v [] else slot_of (lose_power d) q.
Proof.
  unfold slot_of at 1, revert. cbn [dk_names]. case_bool_decide; [subst; by rewrite lookup_insert_eq|].
  by rewrite lookup_insert_ne by congruence.
Qed.

Lemma crash_revert d p i j : disk_wf d -> now d p = Some (FileNode i) -> may d p (Some (FileNode j)) ->
  crashed d (revert p (Some (FileNode j)) d).
Proof.
  intros Hw Hi Hj. pose proof (crash_lose d Hw) as [Hn Ht Hs Hf Hfs Hx].
  assert (forall q, now (revert p (Some (FileNode j)) d) q = if bool_decide (q = p) then Some (FileNode j) else now d q) as Hnow.
  { intros q. unfold now at 1. rewrite slot_revert. case_bool_decide; [done|apply now_lose]. }
  constructor; [| | |exact Hf|exact Hfs|exact Hx].
  - intros q. left. rewrite Hnow. case_bool_decide; [by subst|apply may_now].
  - intros name dir n. rewrite !Hnow. case_bool_decide as E.
    + intros _. subst p. apply (dw_tree d Hw) in Hi. rewrite bool_decide_eq_false_2; [done|].
      intros E%(f_equal length). cbn in E. lia.
    + intros Hd%(dw_tree d Hw). rewrite bool_decide_eq_false_2; [done|]. intros ->. congruence.
  - intros q v. unfold may. rewrite Hnow, slot_revert. case_bool_decide; [by intros [?|?%elem_of_nil]|].
    intros Hv. rewrite <- (now_lose d q) in Hv |- *. by apply Hs.
Qed.

Definition file_at (d : Disk) (p : path) : nat := match now d p with Some (FileNode i) => i | _ => 0 end.

(** The block is reclaimed and the worker stops after it renamed the [Deleting]
    metadata and before it synced the directory; the next recovery removes the data
    file and stops before it synced the directory. *)
Definition deleting_stopped : Worker :=
  restart_worker in_order (replicate 12 Go ++ [Halt 0])
    (do_op in_order (OpReclaim "root" stored_block) (replicate 12 Go ++ [Halt 0]) sample_acked).
Definition deleting_meta : nat := file_at (wk_disk sample_acked) (meta_path (paths "root" stored_block)).
Definition deleting_lost : Worker :=
  mk_Worker (revert (meta_path (paths "root" stored_block)) (Some (FileNode deleting_meta)) (wk_disk deleting_stopped)) false [].

Definition other_block : BlockId := mk_BlockId 6 0.

Lemma other_runs_acked : runs in_order (spares "root" other_block 0) fresh_worker sample_acked.
Proof.
  assert (spares "root" other_block 0 (OpOpen sample_open)) as Hsp by by intros [=].
  unfold sample_acked, sample_written.
  apply runs_op; [|vm_compute; reflexivity|exact sample_checkpoint_fits|done].
  apply runs_op; [|vm_compute; reflexivity|exact sample_fits|done].
  do 2 (apply runs_op; [|vm_compute; reflexivity|exact sample_open_fits|done]).
  by apply runs_restart; [apply runs_refl|].
Qed.

Lemma deleting_stopped_runs : runs in_order (spares "root" other_block 0) fresh_worker deleting_stopped.
Proof.
  apply runs_restart; [|done]. apply runs_op; [exact other_runs_acked|vm_compute; reflexivity|exact sample_fits|].
  by intros [=].
Qed.

Lemma deleting_candidates : exists i, now (wk_disk deleting_stopped) (meta_path (paths "root" stored_block)) = Some (FileNode i) /\
  may (wk_disk deleting_stopped) (meta_path (paths "root" stored_block)) (Some (FileNode deleting_meta)).
Proof.
  exists 3. split; [vm_compute; reflexivity|]. right.
  assert (sl_past (slot_of (wk_disk deleting_stopped) (meta_path (paths "root" stored_block))) = [Some (FileNode 2)]) as ->
    by (vm_compute; reflexivity).
  assert (deleting_meta = 2) as -> by (vm_compute; reflexivity). by left.
Qed.


(** A start whose first look at the store meets an I/O error serves without recovery:
    here with bytes in the data file that no checkpoint covers. *)
Theorem failed_look_skips_recovery :
  let w := restart_worker in_order [Trouble Broken 0] sample_appended in
  wk_up w = true /\ contents (wk_disk w) (data_path (paths "root" stored_block)) = [x61; x62; x63; x64; x65].
Proof. split; vm_compute; reflexivity. Qed.
