(* ===== verification/BlockStoreFencing.v ===== *)
(** * Fencing in the block store

    A writer whose token is not the one the metadata names cannot checkpoint, and one
    with an older epoch cannot open the block, whatever fails meanwhile. *)

From S2P Require Import Prelude Types Errors WorkerTypes Bytes FileSystem BlockMeta BlockStore DiskLogic BlockMetaProps DiskInv BlockStoreInv BlockStoreSafe BlockStoreOps SampleWire BlockStoreProps.

(** The metadata a reader of the block finds. *)
Definition finds_meta `{MetaWire} (d : Disk) (g : GroupName) (b : BlockId) (m : BlockMeta) : Prop :=
  exists i, now d (meta_path (paths g b)) = Some (FileNode i) /\ parse_meta_file (bd_data (body_of d i)) = Some m.

(** No file and no file name changed. *)
Definition files_same (d d' : Disk) : Prop :=
  dk_files d' = dk_files d /\ forall p, length p = 6 -> now d' p = now d p.

Section Fencing.
Context `{MetaWire}.

Lemma files_same_meta d d' g b m : files_same d d' -> finds_meta d g b m -> finds_meta d' g b m.
Proof.
  intros [Hf Hn] (i & Hi & Hp). exists i. rewrite paths_names in *. cbn [meta_path] in *.
  unfold body_of in *. rewrite Hf, Hn by apply block_name_length. done.
Qed.

Lemma create_dirs_same p d d' : length p < 6 -> create_dirs p d = Ok d' ->
  files_same d d' /\ forall q, q `suffix_of` p -> now d' q = Some DirNode.
Proof.
  revert d'. induction p as [|n p IH]; intros d' Hl Hc; cbn [create_dirs] in Hc.
  - destruct (now d []) as [[|]|] eqn:E; simplify_eq. split; [done|]. by intros q ->%suffix_nil_inv.
  - unbind Hc as d1 Hd1. cbn in Hl. destruct (IH d1 ltac:(lia) Hd1) as [[Hf Hn] Hq].
    destruct (now d1 (n :: p)) as [[|]|] eqn:E; simplify_eq.
    + split; [done|]. intros q [->|Hs]%suffix_cases; auto.
    + split; [split; [done|]|].
      * intros q Hq6. rewrite now_set, bool_decide_eq_false_2; [auto|]. intros ->. cbn in Hq6. lia.
      * intros q [->|Hs]%suffix_cases; rewrite now_set; [by rewrite bool_decide_eq_true_2|].
        rewrite bool_decide_eq_false_2; [auto|]. intros ->. apply suffix_length in Hs. cbn in Hs. lia.
Qed.

Lemma dwp_sync_ancestors_same p d0 d (Q : unit -> Disk -> Prop) : files_same d0 d ->
  (forall q, q `suffix_of` p -> now d q = Some DirNode) -> (forall d', files_same d0 d' -> Q tt d') ->
  dwp (sync_ancestors p) d Q (files_same d0).
Proof.
  assert (forall dir d, files_same d0 d -> files_same d0 (sync_names dir d)) as Hsame.
  { intros dir d' [Hf Hn]. split; [done|]. intros q Hq. rewrite now_sync. auto. }
  revert d. induction p as [|n p IH]; intros d Hs Hd HQ; cbn [sync_ancestors]; apply dwp_bind, dwp_attempt; try done;
    intros [] d'; rewrite (Hd _ ltac:(done)); intros [= <-]; (split; [|by apply Hsame]).
  - by apply dwp_ret, HQ, Hsame.
  - apply IH; [by apply Hsame| |done]. intros q Hq. rewrite now_sync. apply Hd. by apply suffix_cons_r.
Qed.

Lemma dwp_create_dir_durable_same p d (Q : unit -> Disk -> Prop) : length p < 6 -> (forall d', files_same d d' -> Q tt d') ->
  dwp (create_dir_durable p) d Q (files_same d).
Proof.
  intros Hl HQ. unfold create_dir_durable. assert (files_same d d) as Hr by done.
  apply dwp_bind, dwp_probe; [intros ready _|done]. apply dwp_bind, dwp_check; [intros [] _|done].
  apply dwp_bind, dwp_syscall; [|intros k|done].
  - intros [] d' Hc. unbind Hc as d1 Hd1. simplify_eq/=. destruct (create_dirs_same p d d' Hl Hd1) as [Hs Hq].
    by apply dwp_sync_ancestors_same.
  - destruct (create_dirs _ d) as [d'| |] eqn:E; [|done|done]. apply create_dirs_same in E as [? _]; [done|].
    rewrite length_drop. lia.
Qed.

Lemma dwp_catch_load_known g b m d (Q : result WorkerError BlockMeta -> Disk -> Prop) (R : Disk -> Prop) : finds_meta d g b m ->
  (validate_meta m g b = Ok tt -> Q (Ok m) d) -> (forall e, not_missing e -> Q (Err e) d) -> R d ->
  dwp (catch (load_meta g b)) d Q R.
Proof.
  intros (i & Hi & Hp) HQ HE HR. rewrite paths_names in Hi. cbn [meta_path] in Hi. apply dwp_catch_load; [| |done|done].
  - intros i' m' Hi' Hp' Hv. assert (i' = i) as -> by congruence. rewrite Hp in Hp'. simplify_eq. by apply HQ.
  - intros msg Hn. congruence.
Qed.
End Fencing.

(** C28. Fencing in the store: while the metadata of a block names a writer, a
    checkpoint under any other token and an open under an older epoch, or under the same
    epoch with another token, never succeed, whatever I/O errors they meet and wherever
    the machine stops; they leave every file, and what every file name means, as it was. *)
Theorem store_fences_writers `{MetaWire} d g b m : finds_meta d g b m ->
  (forall r, (ck_group_name r, ck_block_id r) = (g, b) -> ck_fencing_token r <> bm_token m ->
     dwp (checkpoint_block r) d (fun _ _ => False) (files_same d)) /\
  (forall r, (ob_group_name r, ob_block_id r) = (g, b) ->
     (ft_epoch (ob_fencing_token r) < ft_epoch (bm_token m))%Z \/
       ft_epoch (ob_fencing_token r) = ft_epoch (bm_token m) /\ ob_fencing_token r <> bm_token m ->
     dwp (open_block_write r) d (fun _ _ => False) (files_same d)).
Proof.
  intros Hm. assert (files_same d d) as Hr by done. split.
  - intros r [= <- <-] Htok. destruct Hm as (i & Hi & Hp). rewrite paths_names in Hi. cbn [meta_path] in Hi.
    unfold checkpoint_block. apply dwp_bind, dwp_load_meta; [|done]. intros i' m' Hi' Hp' _.
    assert (i' = i) as -> by congruence. rewrite Hp in Hp'. simplify_eq.
    apply dwp_bind, dwp_check; [intros [] _|done]. apply dwp_bind, dwp_check; [intros [] E|done].
    apply reject_if_Ok in E. bool_prop. congruence.
  - intros r [= <- <-] Htok. unfold open_block_write. do 3 (apply dwp_bind, dwp_check; [intros ? _|done]).
    apply dwp_bind, dwp_create_dir_durable_same; [rewrite block_dir_length; lia|]. intros d' Hs.
    apply dwp_bind, (dwp_catch_load_known _ _ m); [by eapply files_same_meta| | |done].
    + intros _. apply dwp_bind. unfold reopened_meta. do 2 (apply dwp_bind, dwp_check; [intros [] _|done]).
      apply dwp_bind, dwp_check; [intros [] E|done]. apply reject_if_Ok in E. apply orb_false_iff in E as [E1 E2].
      apply Z.ltb_ge in E1. destruct Htok as [?|[He Hne]]; [lia|].
      rewrite (bool_decide_eq_true_2 _ He), (bool_decide_eq_true_2 _ Hne) in E2. done.
    + intros e He. apply dwp_bind. destruct e; first [done|by apply dwp_throw].
Qed.

Definition stale_checkpoint : CheckpointBlockRequest := mk_CheckpointBlockRequest "root" stored_block 3 (mk_FencingToken stored_block 8 1).

Lemma acked_meta : exists m, finds_meta (wk_disk sample_acked) "root" stored_block m /\ bm_token m = sample_token.
Proof.
  eexists. split.
  - exists 2. split; vm_compute; reflexivity.
  - reflexivity.
Qed.

Lemma store_fences_writers_witness : files_same (wk_disk sample_acked) (checkpoint_block stale_checkpoint [] (wk_disk sample_acked)).2.
Proof.
  destruct acked_meta as (m & Hm & Htok).
  destruct (store_fences_writers (wk_disk sample_acked) "root" stored_block m Hm) as [Hck _].
  specialize (Hck stale_checkpoint eq_refl ltac:(rewrite Htok; discriminate) []).
  destruct (checkpoint_block stale_checkpoint [] (wk_disk sample_acked)) as [[[x|e|] fs] d']; [destruct Hck|exact Hck|exact Hck].
Defined.
