(* ===== verification/BlockStoreRestart.v ===== *)
(** * A worker can always start again

    When nothing fails, recovery goes through on every disk that operations other than
    reclaims, failures and losses of power can leave. *)

From S2P Require Import Prelude Types Errors WorkerTypes Bytes FileSystem BlockMeta BlockStore DiskLogic BlockMetaProps DiskInv BlockStoreInv BlockStoreSafe BlockStoreOps BlockStoreRecovery SampleWire BlockStoreProps.

(** ** Programs that return when nothing fails *)

Definition tot {A} (m : io A) (d : Disk) (Q : A -> Disk -> Prop) : Prop := exists a d', m [] d = (Done a, [], d') /\ Q a d'.

Section Total.
Context {A B : Type}.

Lemma tot_ret (a : A) d (Q : A -> Disk -> Prop) : Q a d -> tot (mret a) d Q.
Proof. intros HQ. by exists a, d. Qed.
Lemma tot_bind (m : io A) (k : A -> io B) d Q : tot m d (fun a d' => tot (k a) d' Q) -> tot (m ≫= k) d Q.
Proof. intros (a & d' & Hm & x & d'' & Hk & HQ). exists x, d''. by rewrite (bind_done _ _ _ _ _ _ _ Hm). Qed.
Lemma tot_mono (m : io A) d (Q Q' : A -> Disk -> Prop) : tot m d Q -> (forall a d', Q a d' -> Q' a d') -> tot m d Q'.
Proof. intros (a & d' & Hm & HQ) Himp. exists a, d'. auto. Qed.
Lemma tot_check (r : result WorkerError A) a d (Q : A -> Disk -> Prop) : r = Ok a -> Q a d -> tot (check r) d Q.
Proof. intros -> HQ. by exists a, d. Qed.
Lemma tot_query wrap (f : Disk -> result IoErrorKind A) a d (Q : A -> Disk -> Prop) : f d = Ok a -> Q a d -> tot (query wrap f) d Q.
Proof. intros Hf HQ. exists a, d. unfold query, syscall. by rewrite Hf. Qed.
Lemma tot_attempt wrap (f : Disk -> result IoErrorKind (A * Disk)) a d d' (Q : A -> Disk -> Prop) :
  f d = Ok (a, d') -> Q a d' -> tot (attempt wrap f) d Q.
Proof. intros Hf HQ. exists a, d'. unfold attempt, syscall. by rewrite Hf. Qed.

(** What holds whatever fails holds when nothing fails. *)
Lemma tot_dwp (m : io A) d (P Q : A -> Disk -> Prop) R : tot m d P -> dwp m d Q R -> tot m d (fun a d' => P a d' /\ Q a d').
Proof. intros (a & d' & Hm & HP) Hwp. specialize (Hwp []). rewrite Hm in Hwp. by exists a, d'. Qed.
End Total.

Lemma tot_command f d (Q : unit -> Disk -> Prop) : Q tt (f d) -> tot (command f) d Q.
Proof. by apply tot_attempt. Qed.
Lemma tot_probe f d (Q : bool -> Disk -> Prop) : Q (f d) d -> tot (probe f) d Q.
Proof. intros HQ. by exists (f d), d. Qed.
Lemma tot_sync_dir dir d (Q : unit -> Disk -> Prop) : now d dir = Some DirNode -> Q tt (sync_names dir d) -> tot (sync_parent_dir dir) d Q.
Proof. intros Hd. apply tot_attempt. by rewrite Hd. Qed.

Lemma tot_for_each {A} (xs : list A) f d (J : Disk -> Prop) : J d ->
  (forall x d', x ∈ xs -> J d' -> tot (f x) d' (fun _ => J)) -> tot (for_each xs f) d (fun _ => J).
Proof.
  revert d. induction xs as [|x xs IH]; intros d HJ Hf; cbn [for_each]; [by apply tot_ret|].
  apply tot_bind. eapply tot_mono; [apply Hf; [by left|done]|]. intros [] d' HJ'. apply IH; [done|]. intros; apply Hf; [by right|done].
Qed.
Lemma tot_for_collect {A B} (xs : list A) (f : A -> io (list B)) d (J : Disk -> Prop) : J d ->
  (forall x d', x ∈ xs -> J d' -> tot (f x) d' (fun _ => J)) -> tot (for_collect xs f) d (fun _ => J).
Proof.
  revert d. induction xs as [|x xs IH]; intros d HJ Hf; cbn [for_collect]; [by apply tot_ret|].
  apply tot_bind. eapply tot_mono; [apply Hf; [by left|done]|]. intros y d' HJ'. apply tot_bind.
  eapply tot_mono; [apply IH; [done|]; intros; apply Hf; [by right|done]|]. intros ys d'' HJ''. by apply tot_ret.
Qed.

(** Nothing that has a name loses it. *)
Definition grows (d d' : Disk) : Prop := forall q n, now d q = Some n -> now d' q = Some n.

Section Restart.
Context `{MetaWire}.

(** Every block is as it should be. *)
Definition All (gone : path -> Prop) (d : Disk) : Prop :=
  forall g b, group_ok g -> block_fits b -> Inv g b [] false false gone d.

Lemma All_wf gone d : All gone d -> disk_wf d.
Proof. intros Ha. apply (in_wf _ _ _ _ _ _ _ (Ha "root" (mk_BlockId 1 0) eq_refl ltac:(by vm_compute))). Qed.

Lemma named_dir d p n : disk_wf d -> now d p = Some n -> length p < 6 -> n = DirNode.
Proof.
  intros Hw Hn Hl. destruct (dw_named d Hw p n) as [[? _]|(i & s & g & b & _ & _ & _ & _ & ->)]; [rewrite <- Hn; apply may_now|done|].
  rewrite block_name_length in Hl. lia.
Qed.
Lemma named_block d p n : disk_wf d -> now d p = Some n -> length p = 6 ->
  exists i s g b, n = FileNode i /\ (s = ".blk" \/ s = ".meta" \/ s = ".meta.tmp") /\ group_ok g /\ block_fits b /\ p = block_name s g b.
Proof.
  intros Hw Hn Hl. destruct (dw_named d Hw p n) as [(_ & g & b & _ & _ & Hs)|Hx]; [rewrite <- Hn; apply may_now| |done].
  apply suffix_length in Hs. rewrite block_dir_length in Hs. lia.
Qed.

Lemma tot_restore_prefix gone g b m d i : All gone d -> (forall g b, ~ gone (blk g b)) -> group_ok g -> block_fits b ->
  now d (meta g b) = Some (FileNode i) -> parse_meta_file (bd_data (body_of d i)) = Some m ->
  tot (restore_prefix g b m) d (fun _ d' => grows d d').
Proof.
  intros Ha Hgone Hg Hb Hi Hp. pose proof (Ha g b Hg Hb) as HI. pose proof (in_wf _ _ _ _ _ _ _ HI) as Hw.
  destruct (inv_loaded g b [] d i m (in_block _ _ _ _ _ _ _ HI) Hi Hp) as ((x & Hx & _) & _ & Hr & _).
  pose proof (name_dir d _ _ _ _ Hw Hi) as Hdir. pose proof (mf_len _ (parse_meta_fits _ _ Hp)) as Hlen.
  unfold restore_prefix. rewrite paths_names. cbn [data_path meta_path].
  apply tot_bind, (tot_check _ tt); [unfold ensure_readable; by rewrite Hr, neq_refl_false|].
  apply tot_bind, (tot_query _ _ i); [by rewrite Hi|]. apply tot_bind, tot_command.
  apply tot_bind, tot_sync_dir; [by rewrite now_update|]. set (d2 := sync_names _ _).
  assert (forall q, now d2 q = now d q) as Hn2 by (intros q; unfold d2; by rewrite now_sync, now_update).
  assert (Inv g b [] false false gone d2) as HI2 by (by apply I_sync_names, I_sync_body).
  assert (candidate d2 g b m) as Hc.
  { eapply (inv_loaded g b [] d2 i); [apply HI2|by rewrite Hn2|]. rewrite (body_of_lookup d2 i (sync_body x)); [|].
    - by rewrite (body_of_lookup d i x) in Hp.
    - unfold d2. cbn. by rewrite files_update, bool_decide_eq_true_2, Hx. }
  set (rest := fun data : nat => _).
  assert (forall j d', (forall q, now d2 q = now d' q \/ now d2 q = None) -> now d' (block_dir g b) = Some DirNode ->
    (bm_durable_len m <= Z.of_nat (length (bd_data (body_of d' j))))%Z -> tot (rest j) d' (fun _ d' => grows d d')) as Hrest.
  { intros j d' Hq Hd' Hle. unfold rest. apply tot_bind. eapply tot_query; [reflexivity|].
    apply tot_bind, (tot_check _ tt); [cbv beta; rewrite (proj2 (Z.ltb_ge _ _)); done|].
    apply tot_bind, tot_command, tot_bind, tot_command, tot_sync_dir; [by rewrite !now_update|].
    intros q n Hn. rewrite now_sync, !now_update. rewrite <- Hn2 in Hn. destruct (Hq q); congruence. }
  assert (now d2 (block_dir g b) = Some DirNode) as Hdir2 by by rewrite Hn2.
  apply tot_bind. destruct (bi_data _ _ _ _ (in_block _ _ _ _ _ _ _ HI2) _ (may_now d2 (blk g b))) as [(Hnone & _ & Hz)|(j & bd & Hj & Hbd & _ & _ & Hk)].
  - assert (bm_durable_len m = 0)%Z as H0 by (specialize (Hz m Hc); unfold durable, u64_ok in *; lia).
    rewrite bool_decide_eq_true_2 by done. eapply tot_attempt.
    + rewrite Hnone. unfold in_directory. rewrite name_parent, bool_decide_eq_true_2 by done. reflexivity.
    + apply Hrest.
      * intros q. rewrite now_create. case_bool_decide; [subst; by right|by left].
      * rewrite now_create, bool_decide_eq_false_2; [done|]. intros E%(f_equal length). rewrite block_name_length, block_dir_length in E. lia.
      * rewrite H0. lia.
  - specialize (Hk m Hc). pose proof (body_ok_length _ (dw_body _ (in_wf _ _ _ _ _ _ _ HI2) j bd Hbd)) as Hbl.
    assert (bm_durable_len m <= Z.of_nat (length (bd_data (body_of d2 j))))%Z as Hle.
    { rewrite (body_of_lookup d2 j bd Hbd). unfold durable in Hk. lia. }
    case_bool_decide.
    + eapply tot_attempt; [by rewrite Hj|]. apply Hrest; [by left|done|done].
    + eapply tot_query; [by rewrite Hj|]. apply Hrest; [by left|done|done].
Qed.

(** All blocks at once: what recovery keeps for each, it keeps for all. *)
Lemma tot_All {A} (m : io A) d (P : A -> Disk -> Prop) gone R : tot m d P ->
  (forall g b, group_ok g -> block_fits b -> dwp m d (fun _ => Inv g b [] false false gone) (R g b)) ->
  tot m d (fun a d' => P a d' /\ All gone d').
Proof.
  intros (a & d' & Hm & HP) Hwp. exists a, d'. split_and!; [done|done|]. intros g b Hg Hb.
  specialize (Hwp g b Hg Hb []). by rewrite Hm in Hwp.
Qed.

Lemma tot_recover_meta gone g b d i : All gone d -> gone_ok gone -> group_ok g -> block_fits b ->
  now d (meta g b) = Some (FileNode i) -> tot (recover_meta g (meta g b)) d (fun _ d' => grows d d' /\ All gone d').
Proof.
  intros Ha Hgone Hg Hb Hi. pose proof (Ha g b Hg Hb) as HI.
  destruct (bi_meta _ _ _ _ (in_block _ _ _ _ _ _ _ HI) _ (may_now d (meta g b))) as [[E _]|(i' & m & E & (x & Hx & Hp & _) & Hv & Hr & _)]; [congruence|].
  assert (i' = i) as -> by congruence. rewrite <- (body_of_lookup d i x Hx) in Hp.
  eapply tot_All; [|intros g0 b0 Hg0 Hb0; apply dwp_recover_meta; [done|exact Hgone|by apply Ha|auto]].
  unfold recover_meta. apply tot_bind. exists m, d. split; [by eapply read_meta_file_ok|].
  destruct (validated_identity _ _ _ Hv) as [Hgm Hbm]. rewrite Hbm.
  apply tot_bind, (tot_check _ tt); [done|]. apply tot_bind, (tot_check _ tt).
  { rewrite paths_names. cbn [meta_path]. by rewrite neq_refl_false. }
  rewrite bool_decide_eq_false_2 by congruence. by eapply tot_restore_prefix.
Qed.

Section Listed.
Context (order : list (path * node) -> list (path * node)) (Horder : forall l, order l ≡ₚ l).

Lemma tot_read_dir dir d (Q : list (path * node) -> Disk -> Prop) : now d dir = Some DirNode ->
  (forall l, (forall p n, (p, n) ∈ l <-> parent p = Some dir /\ now d p = Some n) -> Q l d) -> tot (read_dir order dir) d Q.
Proof.
  intros Hd HQ. eapply tot_query; [by rewrite Hd|]. apply HQ. intros p n. by rewrite Horder, elem_children.
Qed.

Lemma tot_block_files root d (Q : list path -> Disk -> Prop) : disk_wf d -> length root = 3 ->
  (forall l, (forall p, p ∈ l <-> exists c b a n, p = c :: b :: a :: root /\ now d p = Some n) -> Q l d) ->
  tot (block_files order root) d Q.
Proof.
  intros Hw Hl HQ. assert (tot (block_files order root) d (fun _ d' => d' = d)) as Htot.
  { unfold block_files. apply tot_bind. eapply tot_query; [reflexivity|]. case_bool_decide as Hr; cbn [negb]; [|by apply tot_ret].
    destruct Hr as [n Hn]. pose proof (named_dir d root n Hw Hn ltac:(lia)) as ->.
    apply tot_bind, tot_read_dir; [done|]. intros l1 H1. apply tot_for_collect with (J := fun d' => d' = d); [done|]. intros [p1 n1] d' [Hp1 Hn1]%H1 ->.
    destruct p1 as [|a p1]; simplify_eq/=. pose proof (named_dir d _ n1 Hw Hn1 ltac:(cbn; lia)) as ->. apply tot_bind, (tot_check _ tt); [done|].
    apply tot_bind, tot_read_dir; [done|]. intros l2 H2. apply tot_for_collect with (J := fun d' => d' = d); [done|]. intros [p2 n2] d' [Hp2 Hn2]%H2 ->.
    destruct p2 as [|b p2]; simplify_eq/=. pose proof (named_dir d _ n2 Hw Hn2 ltac:(cbn; lia)) as ->. apply tot_bind, (tot_check _ tt); [done|].
    apply tot_bind, tot_read_dir; [done|]. intros l3 H3. apply tot_for_collect with (J := fun d' => d' = d); [done|]. intros [p3 n3] d' [Hp3 Hn3]%H3 ->.
    destruct p3 as [|c p3]; simplify_eq/=.
    destruct (named_block d _ n3 Hw Hn3 ltac:(cbn; lia)) as (i & s & g & bb & -> & _).
    apply tot_bind, (tot_check _ tt); [done|]. by apply tot_ret. }
  eapply tot_mono; [eapply tot_dwp; [exact Htot|]|].
  - apply (dwp_block_files order Horder root d (fun l d' => forall p, p ∈ l <-> exists c b a n, p = c :: b :: a :: root /\ now d p = Some n) (fun _ => True)); done.
  - intros l d' [-> Hl']. by apply HQ.
Qed.

(** Names other than those of temporary files. *)
Definition lasting (q : path) : Prop := length q = 6 -> has_extension "tmp" q = false.

Lemma tot_remove_temps gone ps d : All gone d ->
  (forall p, p ∈ ps -> has_extension "tmp" p = true /\ length p = 6 /\ now d (tail p) = Some DirNode) ->
  tot (for_each ps remove_temp) d (fun _ d' => (All gone d' /\ forall q, lasting q -> now d' q = now d q) /\
    (forall p, p ∈ ps -> now d' p = None) /\ fewer d d').
Proof.
  intros Ha Hps. assert (block_fits (mk_BlockId 1 0)) as H1 by by vm_compute.
  eapply tot_dwp; [|apply (dwp_remove_temps "root" (mk_BlockId 1 0) [] gone); [by apply Ha|intros p (? & ? & _)%Hps; by apply temp_not_name|done]].
  apply tot_for_each with (J := fun d' => All gone d' /\ forall q, lasting q -> now d' q = now d q); [done|].
  intros p d1 Hp [Ha1 Hsame]. destruct (Hps p Hp) as (He & Hl & Hd).
  assert (tot (remove_temp p) d1 (fun _ d' => forall q, q <> p -> now d' q = now d1 q)) as Htot.
  { unfold remove_temp. destruct p as [|name dir]; [done|]. cbn [parent tail length] in *.
    assert (now d1 dir = Some DirNode) as Hd1 by (rewrite Hsame; [done|intros ?; lia]).
    apply tot_bind. destruct (now d1 (name :: dir)) as [n|] eqn:En.
    - destruct (named_block d1 _ n (All_wf _ _ Ha1) En Hl) as (i & s & g & b & -> & _).
      eapply tot_attempt; [by rewrite En|]. apply tot_sync_dir.
      + rewrite now_set, bool_decide_eq_false_2; [done|]. intros E%(f_equal length). cbn in E. lia.
      + intros q Hq. by rewrite now_sync, now_set, bool_decide_eq_false_2.
    - eapply tot_attempt; [by rewrite En|]. apply tot_sync_dir; [done|]. intros q Hq. by rewrite now_sync. }
  eapply tot_mono; [eapply tot_All; [exact Htot|]|].
  - intros g b Hg Hb. apply dwp_remove_temp; [by apply Ha1|by apply temp_not_name|]. intros d' HI _ _. exact HI.
  - intros [] d' [Hq Ha']. split; [done|]. intros q Hlast. rewrite Hq; [by apply Hsame|]. intros ->. specialize (Hlast Hl). congruence.
Qed.

Lemma with_extension_blk g b : with_extension (blk g b) "meta" = meta g b.
Proof.
  rewrite !block_name_eq. cbn [with_extension].
  assert ((split_name (block_stem b +:+ ".blk")).1 = block_stem b) as Hsplit; [|by rewrite Hsplit].
  unfold split_name. rewrite list_of_app.
  change (String.list_ascii_of_string ".blk") with ("."%char :: String.list_ascii_of_string "blk").
  rewrite rsplit_dot_app by (by apply (bool_decide_eq_true_1 _)).
  pose proof (String.string_of_list_ascii_of_string (block_stem b)) as Hs.
  pose proof (block_stem_length b) as Hl. destruct (block_stem b) as [|c1 [|c2 [|c3 stem]]]; try done.
  cbn [String.list_ascii_of_string] in *. rewrite bool_decide_eq_false_2 by done. cbn [fst]. exact Hs.
Qed.

(** The group a file belongs to. *)
Lemma block_group s g b c y x root : block_name s g b = c :: y :: x :: "blocks" :: root -> root = group_dir g.
Proof.
  rewrite block_name_eq. destruct (block_dir_eq g b) as (y' & x' & ->). intros E.
  by apply (f_equal (drop 4)) in E.
Qed.

Lemma tot_recover_group gone g d : All gone d -> gone_ok gone -> group_ok g ->
  tot (recover_group order (group_dir g, DirNode)) d (fun _ d' => All (fun p => gone p \/ temps_of (group_dir g) p) d').
Proof.
  intros Ha Hgone Hg. pose proof (All_wf _ _ Ha) as Hw. set (gone' := fun p => gone p \/ temps_of (group_dir g) p).
  assert (gone_ok gone') as Hgone' by by apply temps_gone_ok.
  unfold recover_group. apply tot_bind, (tot_check _ tt); [done|].
  apply tot_bind, (tot_check _ g); [change (default EmptyString (head (group_dir g))) with g; unfold group_ok in Hg; by rewrite Hg|].
  apply tot_bind, tot_block_files; [done|done|]. intros files Hfiles. apply tot_bind.
  eapply tot_mono; [apply (tot_remove_temps gone); [done|]|].
  { intros p [He (c & b & a & n & -> & Hn)%Hfiles]%list_elem_of_filter. split_and!; [done|done|]. by apply (dw_tree d Hw) in Hn. }
  intros [] d1 ([Ha1 Hlast] & Hnone & Hfew).
  assert (All gone' d1) as Ha1'.
  { intros g1 b1 Hg1 Hb1. eapply Inv_weaken; [by apply Ha1|done|done|]. intros g2 b2 Hb2 [?|Ht]; [by apply (Ha1 g1 b1)|].
    by eapply listed_temps_gone. }
  apply tot_bind. set (metas := filter _ files).
  eapply tot_mono; [apply tot_for_each with (J := fun d' => All gone' d' /\ grows d1 d'); [split; [done|by intros ? ?]|]|].
  { intros p d2 [He (c & b & a & n & Hp & Hn)%Hfiles]%list_elem_of_filter [Ha2 Hgr].
    destruct (named_block d p n Hw Hn) as (i & s & g' & b' & -> & Hs & Hg' & Hb' & ->); [by rewrite Hp|].
    pose proof (block_group _ _ _ _ _ _ _ Hp) as [= <-].
    unfold has_extension in He. bool_prop. destruct Hs as [->|[->| ->]]; [by rewrite ext_blk in He| |by rewrite ext_temp in He].
    assert (now d1 (meta g b') = Some (FileNode i)) as Hn1.
    { rewrite Hlast; [done|]. intros _. unfold has_extension. by rewrite ext_meta, bool_decide_eq_false_2. }
    eapply tot_mono; [eapply (tot_recover_meta gone'); [done|done|done|done|by apply Hgr]|].
    intros [] d3 [Hgr' Ha3]. split; [done|]. intros q x Hx. by apply Hgr', Hgr. }
  intros [] d2 [Ha2 _]. pose proof (All_wf _ _ Ha2) as Hw2.
  apply tot_bind, tot_block_files; [done|done|]. intros after Hafter. apply tot_bind.
  eapply tot_mono; [apply tot_for_each with (J := fun d' => d' = d2); [done|]|intros [] d' ->; by apply tot_ret].
  intros p d' (c & b & a & n & Hp & Hn)%Hafter ->.
  destruct (named_block d2 p n Hw2 Hn) as (i & s & g' & b' & -> & Hs & Hg' & Hb' & ->); [by rewrite Hp|].
  pose proof (block_group _ _ _ _ _ _ _ Hp) as [= <-]. pose proof (Ha2 g b' Hg Hb') as HI.
  unfold identify, has_extension. destruct Hs as [->|[->| ->]].
  - rewrite ext_blk, bool_decide_eq_false_2, bool_decide_eq_true_2 by done. rewrite with_extension_blk.
    apply tot_bind, tot_probe, (tot_check _ tt); [|done].
    assert (now d2 (meta g b') <> None) as Hsome.
    { eapply (bi_link _ _ _ _ (in_block _ _ _ _ _ _ _ HI)); [rewrite <- Hn; apply may_now|apply may_now]. }
    rewrite bool_decide_eq_true_2; [done|]. destruct (now d2 (meta g b')); [eauto|done].
  - rewrite ext_meta, bool_decide_eq_true_2 by done. by apply tot_ret.
  - exfalso. rewrite (in_gone _ _ _ _ _ _ _ HI g b' Hb') in Hn; [done|]. right. by exists g, b'.
Qed.

Lemma group_of_dir d dir n : disk_wf d -> parent dir = Some ["groups"] -> now d dir = Some n ->
  n = DirNode /\ exists g, group_ok g /\ dir = group_dir g.
Proof.
  intros Hw Hp Hn. destruct dir as [|x dir]; simplify_eq/=.
  destruct (dw_named d Hw [x; "groups"] n) as [(-> & g & b & Hg & Hb & Hs)|(i & s & g & b & _ & _ & _ & _ & E)].
  - rewrite <- Hn. apply may_now.
  - split; [done|]. exists g. split; [done|]. destruct (block_dir_eq g b) as (y & z & Ed). rewrite Ed in Hs.
    destruct Hs as [k E]. apply (f_equal reverse) in E. rewrite reverse_app in E. cbn in E. by simplify_eq/=.
  - apply (f_equal length) in E. by rewrite block_name_length in E.
Qed.

Lemma tot_recover_groups gone gs d : All gone d -> gone_ok gone ->
  (forall dir n, (dir, n) ∈ gs -> n = DirNode /\ exists g, group_ok g /\ dir = group_dir g) ->
  tot (for_collect gs (fun entry => n ← recover_group order entry; mret [n])) d (fun _ _ => True).
Proof.
  revert gone d. induction gs as [|[dir n] gs IH]; intros gone d Ha Hgone Hgs; cbn [for_collect]; [by apply tot_ret|].
  destruct (Hgs dir n ltac:(by left)) as (-> & g & Hg & ->). apply tot_bind, tot_bind.
  eapply tot_mono; [by apply (tot_recover_group gone)|]. intros k d1 Ha1. apply tot_ret, tot_bind.
  eapply tot_mono; [eapply IH; [exact Ha1|by apply temps_gone_ok|intros ? ? ?; apply Hgs; by right]|]. intros ks d2 _. by apply tot_ret.
Qed.

Lemma tot_recover_blocks d : All (fun _ => False) d -> tot (recover_blocks order) d (fun _ _ => True).
Proof.
  intros Ha. pose proof (All_wf _ _ Ha) as Hw. unfold recover_blocks. apply tot_bind, tot_probe.
  case_bool_decide as Hs; cbn [negb]; [|by apply tot_ret]. destruct Hs as [n Hn].
  pose proof (named_dir d _ n Hw Hn ltac:(cbn; lia)) as ->. apply tot_bind, tot_read_dir; [done|]. intros gs Hgs.
  apply tot_bind. eapply tot_mono; [eapply tot_recover_groups; [exact Ha|by intros ? ? []|]|intros ks d' _; by apply tot_ret].
  intros dir n [Hp Hd]%Hgs. by eapply group_of_dir.
Qed.

(** Every block is kept by a run that reclaims none. *)
Lemma retains_spares g b w op : op_fits w op -> retains op -> spares g b 0 op.
Proof.
  destruct op; try done. cbn. intros Hr _ _. pose proof (of_visible _ Hr) as Hv. unfold u64_ok in Hv. lia.
Qed.

Lemma retains_kept g b w : block_fits b -> runs order retains fresh_worker w -> kept_by g b [] w.
Proof.
  intros Hb Hr. eapply (kept_runs order Horder g b Hb []); [|by apply kept_fresh].
  eapply runs_mono; [|exact Hr]. intros w' op. apply retains_spares.
Qed.

Lemma retains_All w : runs order retains fresh_worker w -> All (fun _ => False) (wk_disk w).
Proof.
  intros Hr g b _ Hb. destruct (retains_kept g b w Hb Hr) as [HI _]. eapply Inv_weaken; [exact HI|done|done|by intros].
Qed.

Lemma restart_up w : runs order retains fresh_worker w -> wk_up (restart_worker order [] w) = true.
Proof.
  intros Hr. destruct (tot_recover_blocks _ (retains_All w Hr)) as (n & d & Hrec & _). unfold restart_worker. by rewrite Hrec.
Qed.
End Listed.
End Restart.


