(* ===== verification/WorkerRuntime.v ===== *)
(** * The worker's runtime registries

    report.rs (changes kept for the next block report), runtime/block.rs (pins of
    blocks and their reclamation) and runtime/write.rs (who writes a block). Each
    operation that the source runs under one lock is one function here. *)

From S2P Require Import Prelude Types Errors WorkerTypes Placement.
Local Open Scope Z_scope.

Definition MAX_REPORT_ENTRIES : Z := 1000.

(** [BlockAccessKey] and [BlockWriteKey]. *)
Notation Key := (string * BlockId)%type (only parsing).

(** ** report.rs: [BlockReportChangeTracker] *)

Record DirtyBlock := mk_DirtyBlock {
  db_block_id : BlockId;
  db_revision : Z
}.

Record GroupChanges := mk_GroupChanges {
  gc_revision : Z;
  gc_dirty : gmap BlockId Z;
  gc_continuity_lost : bool
}.

Definition no_changes : GroupChanges := mk_GroupChanges 0 ∅ false.

Notation Tracker := (gmap string GroupChanges) (only parsing).

Definition changes_of (t : Tracker) (g : GroupName) : GroupChanges := default no_changes (t !! g).

Definition record_change (g : GroupName) (b : BlockId) (t : Tracker) : result WorkerError Tracker :=
  let c := changes_of t g in
  revision ← expect (checked_add64 (gc_revision c) 1);
  Ok (<[g :=
    if gc_continuity_lost c then mk_GroupChanges revision (gc_dirty c) true
    else if bool_decide (is_Some (gc_dirty c !! b)) || (Z.of_nat (size (gc_dirty c)) <? MAX_REPORT_ENTRIES)
    then mk_GroupChanges revision (<[b := revision]> (gc_dirty c)) false
    else mk_GroupChanges revision ∅ true]> t).

Definition begin_full_snapshot (g : GroupName) (t : Tracker) : Z * Tracker :=
  let c := changes_of t g in
  (gc_revision c, <[g := mk_GroupChanges (gc_revision c) ∅ false]> t).

Definition dirty_key (d : DirtyBlock) : list Z := [block_inode_id (db_block_id d); block_index (db_block_id d)].

(** [Err(())] is [None]. *)
Definition snapshot (g : GroupName) (t : Tracker) : option (list DirtyBlock) :=
  match t !! g with
  | None => Some []
  | Some c =>
      if gc_continuity_lost c then None
      else Some (sort_by_key dirty_key ((fun '(b, r) => mk_DirtyBlock b r) <$> map_to_list (gc_dirty c)))
  end.

Definition acknowledge_entry (dirty : gmap BlockId Z) (d : DirtyBlock) : gmap BlockId Z :=
  match dirty !! db_block_id d with
  | Some revision => if revision <=? db_revision d then delete (db_block_id d) dirty else dirty
  | None => dirty
  end.

Definition acknowledge (g : GroupName) (acknowledged : list DirtyBlock) (t : Tracker) : Tracker :=
  match t !! g with
  | None => t
  | Some c => <[g := mk_GroupChanges (gc_revision c) (foldl acknowledge_entry (gc_dirty c) acknowledged) (gc_continuity_lost c)]> t
  end.

Definition acknowledge_full (g : GroupName) (cut : Z) (t : Tracker) : bool * Tracker :=
  match t !! g with
  | None => (true, t)
  | Some c =>
      (negb (gc_continuity_lost c),
       <[g := mk_GroupChanges (gc_revision c) (filter (fun x => cut < x.2) (gc_dirty c)) (gc_continuity_lost c)]> t)
  end.

(** ** runtime/block.rs: [BlockAccessRegistry] *)

Inductive BlockAccessState :=
| Available (pins : Z)
| Reclaiming (pins : Z) (operation_active : bool).

Notation Access := (gmap (string * BlockId) BlockAccessState) (only parsing).

Definition location_unavailable (m : string) : WorkerError :=
  WE_RefreshMetadata (EK_Worker WEK_BlockLocationUnavailable) m.

Definition pin_block (k : Key) (a : Access) : result WorkerError Access :=
  match a !! k with
  | Some (Available pins) => pins ← expect (checked_add64 pins 1); Ok (<[k := Available pins]> a)
  | Some (Reclaiming _ _) => Err (location_unavailable "local block reclamation has started")
  | None => Ok (<[k := Available 1]> a)
  end.

Definition begin_reclaim (k : Key) (a : Access) (changes : Tracker) : result WorkerError (Access * Tracker) :=
  a ← match a !! k with
      | Some (Available pins) => Ok (<[k := Reclaiming pins true]> a)
      | Some (Reclaiming _ true) => Err (WE_Unavailable "local block reclamation is already running")
      | Some (Reclaiming pins false) => Ok (<[k := Reclaiming pins true]> a)
      | None => Ok (<[k := Reclaiming 0 true]> a)
      end;
  changes ← record_change k.1 k.2 changes;
  Ok (a, changes).

Definition release_pin (k : Key) (a : Access) : result WorkerError Access :=
  match a !! k with
  | Some (Available pins) =>
      pins ← expect (checked_sub pins 1);
      Ok (if bool_decide (pins = 0) then delete k a else <[k := Available pins]> a)
  | Some (Reclaiming pins active) => pins ← expect (checked_sub pins 1); Ok (<[k := Reclaiming pins active]> a)
  | None => Ok a
  end.

Definition release_reclaim_operation (k : Key) (a : Access) : Access :=
  match a !! k with
  | Some (Reclaiming pins _) => <[k := Reclaiming pins false]> a
  | _ => a
  end.

Definition complete_reclaim (k : Key) (a : Access) (changes : Tracker) : result WorkerError (Access * Tracker) :=
  a ← match a !! k with
      | Some (Reclaiming pins _) => if bool_decide (pins = 0) then Ok (delete k a) else Panic
      | _ => Ok a
      end;
  changes ← record_change k.1 k.2 changes;
  Ok (a, changes).

(** [BlockPin::is_reclaiming], and [reclaiming_block]. *)
Definition is_reclaiming (k : Key) (a : Access) : bool :=
  match a !! k with Some (Reclaiming _ _) => true | _ => false end.

(** The count [wait_for_pins] waits for. *)
Definition waiting_pins (k : Key) (a : Access) : Z :=
  match a !! k with Some (Reclaiming pins _) => pins | _ => 0 end.

Definition reclaiming_blocks (g : GroupName) (a : Access) : list BlockId :=
  sort_by_key (fun b => [block_inode_id b; block_index b])
    (omap (fun '(k, st) => match st with
                           | Reclaiming _ _ => if bool_decide (k.1 = g) then Some k.2 else None
                           | Available _ => None
                           end) (map_to_list a)).

(** ** runtime/write.rs: [BlockWriteEntry] *)

(** [en_pin]: the pin among the resources of the entry. *)
Record BlockWriteEntry := mk_BlockWriteEntry {
  en_inflight : Z;
  en_cleanup_running : bool;
  en_pin : option nat;
  en_token : FencingToken;
  en_retired : bool
}.

Definition new_entry (token : FencingToken) (pin : nat) : BlockWriteEntry := mk_BlockWriteEntry 0 false (Some pin) token false.

Definition begin_io (e : BlockWriteEntry) : option BlockWriteEntry :=
  if en_retired e then None
  else Some (mk_BlockWriteEntry (en_inflight e + 1) (en_cleanup_running e) (en_pin e) (en_token e) (en_retired e)).

(** [Drop for BlockWriteIoGuard]. *)
Definition end_io (e : BlockWriteEntry) : result WorkerError BlockWriteEntry :=
  n ← expect (checked_sub (en_inflight e) 1);
  Ok (mk_BlockWriteEntry n (en_cleanup_running e) (en_pin e) (en_token e) (en_retired e)).

Definition retire_entry (e : BlockWriteEntry) : BlockWriteEntry :=
  mk_BlockWriteEntry (en_inflight e) (en_cleanup_running e) (en_pin e) (en_token e) true.

Definition retire_and_claim_cleanup (drain : bool) (e : BlockWriteEntry) : bool * BlockWriteEntry :=
  let e := if drain then retire_entry e else e in
  if negb (en_retired e) || bool_decide (en_inflight e <> 0) || en_cleanup_running e then (false, e)
  else (true, mk_BlockWriteEntry (en_inflight e) true (en_pin e) (en_token e) (en_retired e)).

Definition release_cleanup (e : BlockWriteEntry) : result WorkerError BlockWriteEntry :=
  _ ← assert_that (en_cleanup_running e);
  Ok (mk_BlockWriteEntry (en_inflight e) false (en_pin e) (en_token e) (en_retired e)).

(** What completion leaves: the resources are taken. *)
Definition spent_entry (e : BlockWriteEntry) : BlockWriteEntry :=
  mk_BlockWriteEntry (en_inflight e) (en_cleanup_running e) None (en_token e) true.

(** ** [BlockWriteRegistry] *)

(** Entries by identity, so that [Arc::ptr_eq] is equality of identities. *)
Record Registry := mk_Registry {
  rg_entries : gmap nat BlockWriteEntry;
  rg_writes : gmap (string * BlockId) nat;
  rg_order : list (string * BlockId)
}.

Definition set_entry (id : nat) (e : BlockWriteEntry) (r : Registry) : Registry :=
  mk_Registry (<[id := e]> (rg_entries r)) (rg_writes r) (rg_order r).

(** An entry a value of the program points to. *)
Definition entry (id : nat) (r : Registry) : result WorkerError BlockWriteEntry := expect (rg_entries r !! id).

Inductive Registering := Refused | Waits (r : Registry) | Registered (r : Registry).

(** One turn of the loop of [register]; [id] names the entry it may allocate. *)
Definition register (id : nat) (k : Key) (token : FencingToken) (pin : nat) (r : Registry) : result WorkerError Registering :=
  match rg_writes r !! k with
  | Some old =>
      e ← entry old r;
      Ok (if ft_epoch token <=? ft_epoch (en_token e) then Refused else Waits (set_entry old (retire_entry e) r))
  | None =>
      Ok (Registered (mk_Registry (<[id := new_entry token pin]> (rg_entries r)) (<[k := id]> (rg_writes r)) (rg_order r ++ [k])))
  end.

(** [BlockWriteRegistry::retire]. *)
Definition retire_key (k : Key) (r : Registry) : result WorkerError Registry :=
  match rg_writes r !! k with
  | Some id => e ← entry id r; Ok (set_entry id (retire_entry e) r)
  | None => Ok r
  end.

(** The loop of [take_cleanup_batch] over the keys it examines. *)
Fixpoint take_batch (n : nat) (drain : bool) (r : Registry) : result WorkerError (list (string * BlockId * nat) * Registry) :=
  match n, rg_order r with
  | S n, k :: rest =>
      match rg_writes r !! k with
      | None => take_batch n drain (mk_Registry (rg_entries r) (rg_writes r) rest)
      | Some id =>
          e ← entry id r;
          let '(claimed, e) := retire_and_claim_cleanup drain e in
          '(selected, r) ← take_batch n drain (mk_Registry (<[id := e]> (rg_entries r)) (rg_writes r) (rest ++ [k]));
          Ok ((if claimed then [(k, id)] else []) ++ selected, r)
      end
  | _, _ => Ok ([], r)
  end.

Definition take_cleanup_batch (limit : nat) (drain : bool) (r : Registry) : result WorkerError (list (string * BlockId * nat) * Registry) :=
  take_batch (Nat.min limit (length (rg_order r))) drain r.

(** Whether the entry is the one registered under the key. *)
Definition registered (k : Key) (id : nat) (r : Registry) : bool := bool_decide (rg_writes r !! k = Some id).

Definition release_cleanup_claim (k : Key) (id : nat) (r : Registry) : result WorkerError Registry :=
  if registered k id r then e ← entry id r; e ← release_cleanup e; Ok (set_entry id e r) else Ok r.

(** [VecDeque::remove] at the first position of the key. *)
Fixpoint remove_first (k : Key) (ks : list (string * BlockId)) : list (string * BlockId) :=
  match ks with
  | [] => []
  | k' :: ks => if bool_decide (k' = k) then ks else k' :: remove_first k ks
  end.

Definition unregister (k : Key) (id : nat) (e : BlockWriteEntry) (r : Registry) : Registry :=
  mk_Registry (<[id := spent_entry e]> (rg_entries r)) (delete k (rg_writes r)) (remove_first k (rg_order r)).

Definition complete_registration (k : Key) (id : nat) (r : Registry) : result WorkerError (bool * Registry) :=
  if negb (registered k id r) then Ok (false, r) else
  e ← entry id r;
  if en_cleanup_running e then Ok (false, r) else
  _ ← assert_that (bool_decide (en_inflight e = 0));
  Ok (true, unregister k id e r).

Definition remove_exact (k : Key) (id : nat) (r : Registry) : result WorkerError (bool * Registry) :=
  if negb (registered k id r) then Ok (false, r) else
  e ← entry id r;
  _ ← assert_that (bool_decide (en_inflight e = 0));
  Ok (true, unregister k id e r).

Definition active_count (r : Registry) : nat := size (rg_writes r).
