(* ===== verification/WorkerCore.v ===== *)
(** * The worker's data path

    data/core.rs with the handlers of net/server/grpc.rs that drive it. The store
    behind it is the trait [LocalBlockStore]. RPCs and reclamations are tasks, calls of
    the store run in blocking jobs; a task is at one of the points where it waits or
    where another thread can come in between. *)

From S2P Require Import Prelude Types Errors WorkerTypes Bytes FileSystem BlockMeta BlockMetaProps WorkerRuntime.
Local Open Scope Z_scope.

Definition MAX_WORKER_DATA_FRAME_SIZE : Z := 4 * 1024 * 1024.

(** ** Requests *)

Record ReadBlockRequest := mk_ReadBlockRequest {
  rr_group_name : GroupName;
  rr_block_id : BlockId;
  rr_offset : Z;
  rr_len : Z;
  rr_block_format_id : Z;
  rr_block_size : Z;
  rr_chunk_size : Z;
  rr_effective_len : Z;
  rr_frame_size : Z
}.

Record WriteBlockRequest := mk_WriteBlockRequest {
  wr_group_name : GroupName;
  wr_block_id : BlockId;
  wr_worker_run_id : WorkerRunId;
  wr_fencing_token : FencingToken;
  wr_write_offset : Z;
  wr_block_size : Z;
  wr_block_format_id : Z;
  wr_chunk_size : Z;
  wr_checksum_kind : ChecksumKind;
  wr_tier : Tier
}.

(** What the types and the request parsers ensure. *)
Definition key_fits (g : GroupName) (b : BlockId) : Prop := group_ok g /\ block_fits b.
Record write_fits (r : WriteBlockRequest) : Prop := {
  wf_key : key_fits (wr_group_name r) (wr_block_id r);
  wf_token : fencing_fits (wr_fencing_token r);
  wf_offset : u64_ok (wr_write_offset r);
  wf_size : u64_ok (wr_block_size r);
  wf_chunk : u32_ok (wr_chunk_size r)
}.
Record read_fits (r : ReadBlockRequest) : Prop := {
  rf_key : key_fits (rr_group_name r) (rr_block_id r);
  rf_offset : u64_ok (rr_offset r);
  rf_len : u32_ok (rr_len r);
  rf_frame : u32_ok (rr_frame_size r)
}.

Definition invalid (m : string) : WorkerError := WE_InvalidArgument m.

Definition validate_block_shape (format block_size chunk_size effective_len : Z) (checksum : ChecksumKind) : result WorkerError unit :=
  _ ← map_err (fun _ => invalid "invalid block shape") (block_shape_new format block_size chunk_size effective_len);
  reject_if (bool_decide (checksum <> ChecksumNone)) (invalid "only checksum_kind None is supported").

Definition validate_write_block_request (r : WriteBlockRequest) : result WorkerError unit :=
  let t := wr_fencing_token r in
  reject_if (bool_decide (ft_block_id t <> wr_block_id r) || bool_decide (ft_owner t = 0) || bool_decide (ft_epoch t = 0)
             || (wr_block_size r <=? wr_write_offset r)) (invalid "invalid block writer token or offset");;
  validate_block_shape (wr_block_format_id r) (wr_block_size r) (wr_chunk_size r) (wr_block_size r) (wr_checksum_kind r).

(** [validate_effective_len] of core.rs. *)
Definition validate_written_len (block_size effective_len : Z) : result WorkerError unit :=
  map_err (fun e => match e with
                    | BSE_ZeroEffectiveLen => invalid "WriteBlock requires at least one data byte"
                    | BSE_EffectiveLenExceedsBlock => invalid "effective_len exceeds block_size"
                    | _ => invalid "invalid block shape"
                    end) (validate_effective_len block_size effective_len).

(** ** Reads: [BlockManager] and the frame size *)

(** The frame sizes a worker is configured with. *)
Record Frames := mk_Frames {
  fr_default : Z;
  fr_max : Z
}.

Definition negotiate_read_frame_size (f : Frames) (requested : Z) : result WorkerError Z :=
  let size := Z.min (if bool_decide (requested = 0) then fr_default f else requested) (fr_max f) in
  reject_if (bool_decide (size = 0)) (invalid "frame_size must be greater than zero after negotiation");;
  Ok size.

Definition range_end (r : ReadBlockRequest) : result WorkerError Z :=
  ok_or (checked_add64 (rr_offset r) (rr_len r)) (invalid "byte range offset overflow").

Definition validate_read_request (r : ReadBlockRequest) : result WorkerError unit :=
  _ ← map_err (fun _ => invalid "invalid block shape")
        (block_shape_new (rr_block_format_id r) (rr_block_size r) (rr_chunk_size r) (rr_effective_len r));
  stop ← range_end r;
  reject_if ((rr_effective_len r <? rr_offset r) || (rr_effective_len r <? stop)) (invalid "byte range exceeds expected block length").

(** [validate_read], on what [load_meta] returned. *)
Definition validate_read (r : ReadBlockRequest) (loaded : result WorkerError BlockMeta) : result WorkerError unit :=
  validate_read_request r;;
  m ← match loaded with
      | Err (WE_NotFound _) => Err (location_unavailable "local block is not available for read")
      | other => other
      end;
  reject_if (bool_decide (bm_state m <> BlockReady)) (location_unavailable "local block is not Ready");;
  reject_if (bool_decide (rr_block_format_id r <> bf_format_id (bm_format m))
             || bool_decide (rr_block_size r <> bf_block_size (bm_format m))
             || bool_decide (rr_chunk_size r <> bf_chunk_size (bm_format m))
             || (bm_durable_len m <? rr_effective_len r))
    (WE_RefreshMetadata (EK_Metadata MEK_StaleState) "block layout mismatch");;
  stop ← range_end r;
  reject_if ((bm_durable_len m <? rr_offset r) || (bm_durable_len m <? stop)) (invalid "byte range exceeds effective block length").

(** ** The store behind the core *)

Inductive StoreCall :=
| CallOpen (r : OpenBlockWriteRequest)
| CallWrite (g : GroupName) (b : BlockId) (offset : Z) (data : bytes)
| CallCheckpoint (r : CheckpointBlockRequest)
| CallRead (g : GroupName) (b : BlockId) (offset len : Z)
| CallLoad (g : GroupName) (b : BlockId)
| CallReclaim (g : GroupName) (b : BlockId)
| CallDiscard (g : GroupName) (b : BlockId).

Inductive Reply :=
| R_Meta (m : BlockMeta)
| R_Unit
| R_Bytes (data : bytes)
| R_Reclaimed (r : ReclaimBlockResult).

(** What a call can answer, by its type. *)
Definition replies (call : StoreCall) (reply : result WorkerError Reply) : Prop :=
  match reply with
  | Panic => False
  | Err _ => True
  | Ok v =>
      match call, v with
      | CallOpen _, R_Meta _ | CallCheckpoint _, R_Meta _ | CallLoad _ _, R_Meta _ => True
      | CallWrite _ _ _ _, R_Unit | CallDiscard _ _, R_Unit => True
      | CallRead _ _ _ _, R_Bytes _ | CallReclaim _ _, R_Reclaimed _ => True
      | _, _ => False
      end
  end.

(** The trait [LocalBlockStore] with its failures: what a call may answer, what a call
    that is cut short may leave, what the reporting side of the worker may do meanwhile,
    what happens to the store of a stopped process, and a start that succeeds. *)
Class LocalBlockStore (S : Type) := {
  calls : StoreCall -> S -> result WorkerError Reply -> S -> Prop;
  cut : StoreCall -> S -> S -> Prop;
  reports : S -> S -> Prop;
  stopped : S -> S -> Prop;
  starts : S -> S -> Prop;
  calls_reply call s reply s' : calls call s reply s' -> replies call reply
}.

(** ** Tasks and jobs *)

(** Owners of a [BlockPin]: a task through its first or second handle, a registered
    write, a blocking job. *)
Inductive Holder := HTask (task : nat) (second : bool) | HEntry (entry : nat) | HJob (job : nat).

#[global] Instance Holder_eq_dec : EqDecision Holder.
Proof. solve_decision. Defined.
#[global] Instance Holder_countable : Countable Holder.
Proof.
  refine (inj_countable' (fun h => match h with HTask t s => inl (t, s) | HEntry e => inr (inl e) | HJob j => inr (inr j) end)
    (fun x => match x with inl (t, s) => HTask t s | inr (inl e) => HEntry e | inr (inr j) => HJob j end) _).
  by intros [].
Defined.

(** [BlockPinInner] and the owners of its [Arc]. *)
Record BlockPin := mk_BlockPin {
  bp_key : string * BlockId;
  bp_owners : gset Holder
}.

(** [ab_received]: the data of the stream so far, which the source does not keep. *)
Record ActiveBlockWrite := mk_ActiveBlockWrite {
  ab_request : WriteBlockRequest;
  ab_next_offset : Z;
  ab_registration : nat;
  ab_received : bytes
}.

(** [ar_returned]: the data of the stream so far. *)
Record ActiveBlockRead := mk_ActiveBlockRead {
  ar_request : ReadBlockRequest;
  ar_next_offset : Z;
  ar_end_offset : Z;
  ar_frame_size : Z;
  ar_pin : nat;
  ar_returned : bytes
}.

Inductive Task :=
(* write_block *)
| T_Authorizing (r : WriteBlockRequest) (pin : nat)
| T_Registering (r : WriteBlockRequest) (visible : Z) (pin : nat)
| T_Registered (r : WriteBlockRequest) (visible : Z) (pin e : nat)
| T_Checked (r : WriteBlockRequest) (visible : Z) (pin e : nat)
| T_Opening (r : WriteBlockRequest) (pin e job : nat)
| T_Undoing (r : WriteBlockRequest) (pin e job : nat) (error : WorkerError)
| T_Streaming (w : ActiveBlockWrite)
| T_Writing (w : ActiveBlockWrite) (data : bytes) (job : nat)
| T_Finishing (w : ActiveBlockWrite) (job : nat)
| T_Aborting (w : ActiveBlockWrite) (job : nat) (error : WorkerError)
| T_Acknowledged (w : ActiveBlockWrite)
(* read_block *)
| T_Validating (r : ReadBlockRequest) (frame : Z) (pin job : nat)
| T_Sending (a : ActiveBlockRead)
| T_Reading (a : ActiveBlockRead) (len : Z) (job : nat)
| T_Delivered (a : ActiveBlockRead)
(* reclaim_block *)
| T_Reclaim (k : Key)
| T_Draining (k : Key)
| T_Reclaiming (k : Key) (job : nat)
| T_Failed (error : WorkerError).

(** What a blocking job owns and does. *)
Inductive Work :=
| W_Open (guard : nat) (r : OpenBlockWriteRequest)
| W_Write (guard : nat) (g : GroupName) (b : BlockId) (offset : Z) (data : bytes)
| W_Checkpoint (guard : nat) (r : CheckpointBlockRequest)
| W_Discard (guard : nat) (g : GroupName) (b : BlockId)
| W_Validate (pin : nat) (r : ReadBlockRequest)
| W_Read (pin : nat) (g : GroupName) (b : BlockId) (offset len : Z)
| W_Reclaim (g : GroupName) (b : BlockId)
| W_Cleanup (candidates : list (string * BlockId * nat)).

(** A job that ended without an answer is one whose task failed to run. *)
Inductive Job := Running (w : Work) | Ended (answer : option (result WorkerError Reply)).

Definition write_key (r : WriteBlockRequest) : Key := (wr_group_name r, wr_block_id r).
Definition read_key (r : ReadBlockRequest) : Key := (rr_group_name r, rr_block_id r).

(** The call a job makes next. *)
Definition work_call (w : Work) : option StoreCall :=
  match w with
  | W_Open _ r => Some (CallOpen r)
  | W_Write _ g b off data => Some (CallWrite g b off data)
  | W_Checkpoint _ r => Some (CallCheckpoint r)
  | W_Discard _ g b => Some (CallDiscard g b)
  | W_Validate _ r => Some (CallLoad (rr_group_name r) (rr_block_id r))
  | W_Read _ g b off len => Some (CallRead g b off len)
  | W_Reclaim g b => Some (CallReclaim g b)
  | W_Cleanup ((k, _) :: _) => Some (CallDiscard k.1 k.2)
  | W_Cleanup [] => None
  end.

(** The entry whose IO guard a job owns, and the pin it holds. *)
Definition work_guard (w : Work) : option nat :=
  match w with W_Open e _ | W_Write e _ _ _ _ | W_Checkpoint e _ | W_Discard e _ _ => Some e | _ => None end.
Definition work_pin (w : Work) : option nat :=
  match w with W_Validate p _ | W_Read p _ _ _ _ => Some p | _ => None end.
Definition work_claims (w : Work) : list (string * BlockId * nat) := match w with W_Cleanup cs => cs | _ => [] end.
Definition work_permit (w : Work) : option Key := match w with W_Reclaim g b => Some (g, b) | _ => None end.

(** The pin behind a handle of a task, its registration, its reclaim permit. *)
Definition task_pin (T : Task) (second : bool) : option nat :=
  match T, second with
  | T_Authorizing _ p, false | T_Registering _ _ p, false => Some p
  | T_Registering _ _ p, true | T_Registered _ _ p _, true | T_Checked _ _ p _, true => Some p
  | T_Opening _ p _ _, true | T_Undoing _ p _ _ _, true => Some p
  | T_Validating _ _ p _, false => Some p
  | T_Sending a, false | T_Reading a _ _, false => Some (ar_pin a)
  | _, _ => None
  end.
Definition task_entry (T : Task) : option nat :=
  match T with
  | T_Registered _ _ _ e | T_Checked _ _ _ e | T_Opening _ _ e _ | T_Undoing _ _ e _ _ => Some e
  | T_Streaming w | T_Writing w _ _ | T_Finishing w _ | T_Aborting w _ _ => Some (ab_registration w)
  | _ => None
  end.
Definition task_permit (T : Task) : option Key := match T with T_Reclaim k | T_Draining k => Some k | _ => None end.

(** The points without an [await], where a task cannot be dropped. *)
Definition between_awaits (T : Task) : bool :=
  match T with T_Registered _ _ _ _ | T_Checked _ _ _ _ | T_Reclaim _ => true | _ => false end.

(** ** The worker *)

Definition MAX_WRITE_CLEANUPS_PER_PASS : nat := 64.

Section Core.
Context {S : Type}.

Record Core := mk_Core {
  co_up : bool;
  co_access : Access;
  co_changes : Tracker;
  co_pins : gmap nat BlockPin;
  co_registry : Registry;
  co_tasks : gmap nat Task;
  co_jobs : gmap nat Job;
  co_next : nat;
  co_store : S
}.

Definition set_access (a : Access) (c : Core) : Core :=
  mk_Core (co_up c) a (co_changes c) (co_pins c) (co_registry c) (co_tasks c) (co_jobs c) (co_next c) (co_store c).
Definition set_changes (x : Tracker) (c : Core) : Core :=
  mk_Core (co_up c) (co_access c) x (co_pins c) (co_registry c) (co_tasks c) (co_jobs c) (co_next c) (co_store c).
Definition set_pins (x : gmap nat BlockPin) (c : Core) : Core :=
  mk_Core (co_up c) (co_access c) (co_changes c) x (co_registry c) (co_tasks c) (co_jobs c) (co_next c) (co_store c).
Definition set_registry (r : Registry) (c : Core) : Core :=
  mk_Core (co_up c) (co_access c) (co_changes c) (co_pins c) r (co_tasks c) (co_jobs c) (co_next c) (co_store c).
Definition set_task (t : nat) (T : Task) (c : Core) : Core :=
  mk_Core (co_up c) (co_access c) (co_changes c) (co_pins c) (co_registry c) (<[t := T]> (co_tasks c)) (co_jobs c) (co_next c) (co_store c).
Definition set_job (j : nat) (J : Job) (c : Core) : Core :=
  mk_Core (co_up c) (co_access c) (co_changes c) (co_pins c) (co_registry c) (co_tasks c) (<[j := J]> (co_jobs c)) (co_next c) (co_store c).
Definition set_store (s : S) (c : Core) : Core :=
  mk_Core (co_up c) (co_access c) (co_changes c) (co_pins c) (co_registry c) (co_tasks c) (co_jobs c) (co_next c) s.
(** Identities are not used twice. *)
Definition allocate (c : Core) : Core :=
  mk_Core (co_up c) (co_access c) (co_changes c) (co_pins c) (co_registry c) (co_tasks c) (co_jobs c) (co_next c + 1)%nat (co_store c).

(** A process with no work. *)
Definition idle (up : bool) (next : nat) (s : S) : Core := mk_Core up ∅ ∅ ∅ (mk_Registry ∅ ∅ []) ∅ ∅ next s.

(** [Err tt]: the call returns at once with an error and without effect, or the event
    cannot happen. *)
Definition lift {A} (r : result WorkerError A) : result unit A := map_err (fun _ => tt) r.
Definition task (t : nat) (c : Core) : result unit Task := ok_or (co_tasks c !! t) tt.

(** The answer of a job that ended. *)
Definition answer (j : nat) (c : Core) : result unit (option (result WorkerError Reply)) :=
  match co_jobs c !! j with Some (Ended a) => Ok a | _ => Err tt end.

(** *** Pins *)

(** [Arc::clone] and a move: the owners change, one is there throughout. *)
Definition own (p : nat) (f : gset Holder -> gset Holder) (c : Core) : result unit Core :=
  x ← expect (co_pins c !! p);
  Ok (set_pins (<[p := mk_BlockPin (bp_key x) (f (bp_owners x))]> (co_pins c)) c).

(** [pin_block] for a new task. *)
Definition pin_for (h : Holder) (k : Key) (c : Core) : result unit Core :=
  a ← lift (pin_block k (co_access c));
  Ok (allocate (set_pins (<[co_next c := mk_BlockPin k {[h]}]> (co_pins c)) (set_access a c))).

Definition holds (c : Core) (h : Holder) (p : nat) : bool :=
  match h with
  | HTask t second => match co_tasks c !! t with Some T => bool_decide (task_pin T second = Some p) | None => false end
  | HEntry e => match rg_entries (co_registry c) !! e with Some en => bool_decide (en_pin en = Some p) | None => false end
  | HJob j => match co_jobs c !! j with Some (Running w) => bool_decide (work_pin w = Some p) | _ => false end
  end.

(** A handle that went out of scope is dropped; the last one releases the pin. *)
Definition drop_pin (p : nat) (h : Holder) (c : Core) : result unit Core :=
  x ← ok_or (co_pins c !! p) tt;
  reject_if (bool_decide (h ∉ bp_owners x) || holds c h p) tt;;
  let rest := bp_owners x ∖ {[h]} in
  if bool_decide (rest = ∅) then
    a ← lift (release_pin (bp_key x) (co_access c));
    Ok (set_pins (delete p (co_pins c)) (set_access a c))
  else Ok (set_pins (<[p := mk_BlockPin (bp_key x) rest]> (co_pins c)) c).

(** *** Blocking jobs *)

Definition spawn (w : Work) (c : Core) : Core := allocate (set_job (co_next c) (Running w) c).

(** [begin_write_io] and [spawn_blocking] with the guard. *)
Definition spawn_io (e : nat) (w : Work) (c : Core) : result unit (option Core) :=
  en ← lift (entry e (co_registry c));
  Ok match begin_io en with
     | None => None
     | Some en => Some (spawn w (set_registry (set_entry e en (co_registry c)) c))
     end.

(** [Drop for BlockWriteRegistration] before completion; the task ends with an error. *)
Definition drop_registration (t e : nat) (error : WorkerError) (c : Core) : result unit Core :=
  en ← lift (entry e (co_registry c));
  Ok (set_task t (T_Failed error) (set_registry (set_entry e (retire_entry en) (co_registry c)) c)).

(** [BlockWriteRegistration::complete]. *)
Definition complete (t e : nat) (k : Key) (T : Task) (c : Core) : result unit Core :=
  '(_, r) ← lift (complete_registration k e (co_registry c));
  Ok (set_task t T (set_registry r c)).

Definition retiring : WorkerError := WE_Cancelled "block write is retiring".
Definition join_error : WorkerError := WE_Internal "blocking task failed".

(** *** [begin_block_write] *)

Definition write_block (r : WriteBlockRequest) (c : Core) : result unit Core :=
  lift (validate_write_block_request r);;
  let t := co_next c in
  c ← pin_for (HTask t false) (write_key r) c;
  Ok (set_task t (T_Authorizing r t) c).

(** The answer of [authorize_write]; the pin is cloned in [begin_block_write]. *)
Definition authorized (t : nat) (visible : Z) (c : Core) : result unit Core :=
  T ← task t c;
  match T with
  | T_Authorizing r p =>
      if wr_write_offset r <? visible then Ok (set_task t (T_Failed (WE_Corrupt "write authorization response has inconsistent scope")) c)
      else set_task t (T_Registering r visible p) <$> own p (fun o => o ∪ {[HTask t true]}) c
  | _ => Err tt
  end.

Definition not_authorized (t : nat) (error : WorkerError) (c : Core) : result unit Core :=
  T ← task t c;
  match T with T_Authorizing r p => Ok (set_task t (T_Failed error) c) | _ => Err tt end.

Definition register_write (t : nat) (c : Core) : result unit Core :=
  T ← task t c;
  match T with
  | T_Registering r visible p =>
      let e := co_next c in
      outcome ← lift (register e (write_key r) (wr_fencing_token r) p (co_registry c));
      match outcome with
      | Refused => Ok (set_task t (T_Failed (WE_ResourceExhausted "block already has an active write")) c)
      | Waits reg => Ok (set_registry reg c)
      | Registered reg =>
          own p (fun o => o ∖ {[HTask t false]} ∪ {[HEntry e]})
            (allocate (set_task t (T_Registered r visible p e) (set_registry reg c)))
      end
  | _ => Err tt
  end.

Definition check_reclaiming (t : nat) (c : Core) : result unit Core :=
  T ← task t c;
  match T with
  | T_Registered r visible p e =>
      if is_reclaiming (write_key r) (co_access c) then
        drop_registration t e (WE_Unavailable "block reclamation started during write authorization") c
      else Ok (set_task t (T_Checked r visible p e) c)
  | _ => Err tt
  end.

Definition open_request (r : WriteBlockRequest) (visible : Z) : OpenBlockWriteRequest :=
  mk_OpenBlockWriteRequest (wr_group_name r) (wr_block_id r) (wr_block_size r) (wr_block_format_id r) (wr_chunk_size r)
    (wr_checksum_kind r) (wr_tier r) (wr_fencing_token r) (wr_write_offset r) visible.

Definition open_write (t : nat) (c : Core) : result unit Core :=
  T ← task t c;
  match T with
  | T_Checked r visible p e =>
      started ← spawn_io e (W_Open e (open_request r visible)) c;
      match started with
      | None => drop_registration t e retiring c
      | Some c' => Ok (set_task t (T_Opening r p e (co_next c)) c')
      end
  | _ => Err tt
  end.

Definition opened_write (t : nat) (c : Core) : result unit Core :=
  T ← task t c;
  match T with
  | T_Opening r p e j =>
      a ← answer j c;
      match a with
      | None => drop_registration t e join_error c
      | Some (Ok _) => Ok (set_task t (T_Streaming (mk_ActiveBlockWrite r (wr_write_offset r) e [])) c)
      | Some (Err error) =>
          started ← spawn_io e (W_Discard e (wr_group_name r) (wr_block_id r)) c;
          match started with
          | None => drop_registration t e retiring c
          | Some c' => Ok (set_task t (T_Undoing r p e (co_next c) error) c')
          end
      | Some Panic => Panic
      end
  | _ => Err tt
  end.

Definition undone_write (t : nat) (c : Core) : result unit Core :=
  T ← task t c;
  match T with
  | T_Undoing r p e j error =>
      a ← answer j c;
      match a with
      | None => drop_registration t e join_error c
      | Some (Ok _) => complete t e (write_key r) (T_Failed error) c
      | Some _ => drop_registration t e error c
      end
  | _ => Err tt
  end.

(** *** The stream of a write *)

(** [fail] and [abort_active] with [abort_block_write]. *)
Definition abort_write (t : nat) (w : ActiveBlockWrite) (error : WorkerError) (c : Core) : result unit Core :=
  let e := ab_registration w in
  started ← spawn_io e (W_Discard e (wr_group_name (ab_request w)) (wr_block_id (ab_request w))) c;
  match started with
  | None => drop_registration t e error c
  | Some c' => Ok (set_task t (T_Aborting w (co_next c) error) c')
  end.

(** The checks of [write_block_data]; the new end of the stream. *)
Definition check_data (w : ActiveBlockWrite) (data : bytes) : result WorkerError Z :=
  reject_if (bool_decide (data = [])) (invalid "WriteBlock data must be nonempty");;
  reject_if (MAX_WORKER_DATA_FRAME_SIZE <? Z.of_nat (length data)) (invalid "WriteBlock data exceeds maximum frame size");;
  stop ← ok_or (checked_add64 (ab_next_offset w) (Z.of_nat (length data))) (invalid "write cursor overflow");
  reject_if (wr_block_size (ab_request w) <? stop) (invalid "write exceeds block_size");;
  Ok stop.

Definition write_block_data (t : nat) (data : bytes) (c : Core) : result unit Core :=
  T ← task t c;
  match T with
  | T_Streaming w =>
      let e := ab_registration w in
      match check_data w data with
      | Ok _ =>
          started ← spawn_io e (W_Write e (wr_group_name (ab_request w)) (wr_block_id (ab_request w)) (ab_next_offset w) data) c;
          match started with
          | None => abort_write t w retiring c
          | Some c' => Ok (set_task t (T_Writing w data (co_next c)) c')
          end
      | Err error => abort_write t w error c
      | Panic => Panic
      end
  | _ => Err tt
  end.

Definition advanced (w : ActiveBlockWrite) (data : bytes) : ActiveBlockWrite :=
  mk_ActiveBlockWrite (ab_request w) (ab_next_offset w + Z.of_nat (length data)) (ab_registration w) (ab_received w ++ data).

Definition written_data (t : nat) (c : Core) : result unit Core :=
  T ← task t c;
  match T with
  | T_Writing w data j =>
      a ← answer j c;
      match a with
      | None => abort_write t w join_error c
      | Some (Ok _) => Ok (set_task t (T_Streaming (advanced w data)) c)
      | Some (Err error) => abort_write t w error c
      | Some Panic => Panic
      end
  | _ => Err tt
  end.

Definition checkpoint_request (w : ActiveBlockWrite) : CheckpointBlockRequest :=
  mk_CheckpointBlockRequest (wr_group_name (ab_request w)) (wr_block_id (ab_request w)) (ab_next_offset w) (wr_fencing_token (ab_request w)).

(** The end of the client's stream. *)
Definition finish_block_write (t : nat) (c : Core) : result unit Core :=
  T ← task t c;
  match T with
  | T_Streaming w =>
      let e := ab_registration w in
      match validate_written_len (wr_block_size (ab_request w)) (ab_next_offset w) with
      | Ok _ =>
          started ← spawn_io e (W_Checkpoint e (checkpoint_request w)) c;
          match started with
          | None => abort_write t w retiring c
          | Some c' => Ok (set_task t (T_Finishing w (co_next c)) c')
          end
      | Err error => abort_write t w error c
      | Panic => Panic
      end
  | _ => Err tt
  end.

Definition finished_write (t : nat) (c : Core) : result unit Core :=
  T ← task t c;
  match T with
  | T_Finishing w j =>
      a ← answer j c;
      match a with
      | None => abort_write t w join_error c
      | Some (Ok _) => complete t (ab_registration w) (write_key (ab_request w)) (T_Acknowledged w) c
      | Some (Err error) => abort_write t w error c
      | Some Panic => Panic
      end
  | _ => Err tt
  end.

(** A malformed message, or an error of the transport. *)
Definition bad_message (t : nat) (error : WorkerError) (c : Core) : result unit Core :=
  T ← task t c;
  match T with T_Streaming w => abort_write t w error c | _ => Err tt end.

(** The stream notices that its entry was retired. *)
Definition revoked_write (t : nat) (c : Core) : result unit Core :=
  T ← task t c;
  match T with
  | T_Streaming w =>
      en ← lift (entry (ab_registration w) (co_registry c));
      if en_retired en then abort_write t w (WE_Cancelled "block writer authority was revoked") c else Err tt
  | _ => Err tt
  end.

Definition aborted_write (t : nat) (c : Core) : result unit Core :=
  T ← task t c;
  match T with
  | T_Aborting w j error =>
      a ← answer j c;
      match a with
      | Some (Ok _) => complete t (ab_registration w) (write_key (ab_request w)) (T_Failed error) c
      | _ => drop_registration t (ab_registration w) error c
      end
  | _ => Err tt
  end.

(** *** Reads *)

Definition begin_block_read (f : Frames) (r : ReadBlockRequest) (c : Core) : result unit Core :=
  frame ← lift (negotiate_read_frame_size f (rr_frame_size r));
  lift (validate_read_request r);;
  let t := co_next c in
  c ← pin_for (HTask t false) (read_key r) c;
  let j := co_next c in
  set_task t (T_Validating r frame t j) <$> own t (fun o => o ∪ {[HJob j]}) (spawn (W_Validate t r) c).

Definition validated_read (t : nat) (c : Core) : result unit Core :=
  T ← task t c;
  match T with
  | T_Validating r frame p j =>
      a ← answer j c;
      match a with
      | None => Ok (set_task t (T_Failed join_error) c)
      | Some (Ok _) =>
          match range_end r with
          | Ok stop => Ok (set_task t (T_Sending (mk_ActiveBlockRead r (rr_offset r) stop frame p [])) c)
          | Err error => Ok (set_task t (T_Failed error) c)
          | Panic => Panic
          end
      | Some (Err error) => Ok (set_task t (T_Failed error) c)
      | Some Panic => Panic
      end
  | _ => Err tt
  end.

Definition read_block_chunk (t : nat) (c : Core) : result unit Core :=
  T ← task t c;
  match T with
  | T_Sending a =>
      if ar_end_offset a <=? ar_next_offset a then Ok (set_task t (T_Delivered a) c) else
      let len := Z.min (ar_end_offset a - ar_next_offset a) (ar_frame_size a) in
      let j := co_next c in
      set_task t (T_Reading a len j) <$> own (ar_pin a) (fun o => o ∪ {[HJob j]})
        (spawn (W_Read (ar_pin a) (rr_group_name (ar_request a)) (rr_block_id (ar_request a)) (ar_next_offset a) len) c)
  | _ => Err tt
  end.

Definition sent (a : ActiveBlockRead) (data : bytes) (next : Z) : ActiveBlockRead :=
  mk_ActiveBlockRead (ar_request a) next (ar_end_offset a) (ar_frame_size a) (ar_pin a) (ar_returned a ++ data).

Definition returned_chunk (t : nat) (c : Core) : result unit Core :=
  T ← task t c;
  match T with
  | T_Reading a len j =>
      reply ← answer j c;
      match reply with
      | None => Ok (set_task t (T_Failed join_error) c)
      | Some (Ok (R_Bytes data)) =>
          if bool_decide (Z.of_nat (length data) <> len) then Ok (set_task t (T_Failed (WE_Corrupt "block read returned another length")) c)
          else match checked_add64 (ar_next_offset a) (Z.of_nat (length data)) with
               | Some next => Ok (set_task t (T_Sending (sent a data next)) c)
               | None => Ok (set_task t (T_Failed (invalid "read cursor overflow")) c)
               end
      | Some (Ok _) => Err tt
      | Some (Err error) => Ok (set_task t (T_Failed error) c)
      | Some Panic => Panic
      end
  | _ => Err tt
  end.

(** *** [reclaim_block] *)

Definition reclaim_start (k : Key) (c : Core) : result unit Core :=
  '(a, changes) ← lift (begin_reclaim k (co_access c) (co_changes c));
  Ok (allocate (set_task (co_next c) (T_Reclaim k) (set_changes changes (set_access a c)))).

Definition reclaim_retire (t : nat) (c : Core) : result unit Core :=
  T ← task t c;
  match T with
  | T_Reclaim k => r ← lift (retire_key k (co_registry c)); Ok (set_task t (T_Draining k) (set_registry r c))
  | _ => Err tt
  end.

(** [wait_for_pins] returns; the permit moves into the job. *)
Definition reclaim_drained (t : nat) (c : Core) : result unit Core :=
  T ← task t c;
  match T with
  | T_Draining k =>
      if bool_decide (waiting_pins k (co_access c) = 0)
      then Ok (set_task t (T_Reclaiming k (co_next c)) (spawn (W_Reclaim k.1 k.2) c)) else Err tt
  | _ => Err tt
  end.

(** [Drop for ReclaimPermit]. *)
Definition drop_permit (k : Key) (c : Core) : Core := set_access (release_reclaim_operation k (co_access c)) c.

(** *** Cancellation and cleanup *)

(** A task dropped at an [await]. *)
Definition cancel (t : nat) (c : Core) : result unit Core :=
  T ← task t c;
  let gone := WE_Cancelled "dropped" in
  if between_awaits T then Err tt else
  match task_entry T, task_permit T with
  | Some e, _ => drop_registration t e gone c
  | None, Some k => Ok (set_task t (T_Failed gone) (drop_permit k c))
  | None, None => Ok (set_task t (T_Failed gone) c)
  end.

(** [cleanup_block_write_batch]. *)
Definition cleanup_batch (drain : bool) (c : Core) : result unit Core :=
  '(candidates, r) ← lift (take_cleanup_batch MAX_WRITE_CLEANUPS_PER_PASS drain (co_registry c));
  let c := set_registry r c in
  Ok (if bool_decide (candidates = []) then c else spawn (W_Cleanup candidates) c).

(** A candidate of a batch after its store call. *)
Definition cleaned (k : Key) (e : nat) (ok : bool) (c : Core) : result unit Core :=
  '(removed, r) ← (if ok then lift (remove_exact k e (co_registry c)) else Ok (false, co_registry c));
  r ← (if (removed : bool) then Ok r else lift (release_cleanup_claim k e r));
  Ok (set_registry r c).

Fixpoint drop_claims (cs : list (string * BlockId * nat)) (c : Core) : result unit Core :=
  match cs with
  | [] => Ok c
  | (k, e) :: cs => c ← cleaned k e false c; drop_claims cs c
  end.

(** *** The end of a store call *)

Definition drop_guard (e : nat) (c : Core) : result unit Core :=
  en ← lift (entry e (co_registry c));
  en ← lift (end_io en);
  Ok (set_registry (set_entry e en (co_registry c)) c).

(** [reply] is the store's, [s] the store after the call. *)
Definition job_ended (j : nat) (reply : result WorkerError Reply) (s : S) (c : Core) : result unit Core :=
  match co_jobs c !! j with
  | Some (Running w) =>
      let c := set_store s c in
      match w with
      | W_Open e _ | W_Write e _ _ _ _ | W_Checkpoint e _ | W_Discard e _ _ =>
          set_job j (Ended (Some reply)) <$> drop_guard e c
      | W_Validate p r =>
          let loaded := m ← reply; match m with R_Meta m => Ok m | _ => Panic end in
          Ok (set_job j (Ended (Some (_ ← validate_read r loaded; Ok R_Unit))) c)
      | W_Read _ _ _ _ _ => Ok (set_job j (Ended (Some reply)) c)
      | W_Reclaim g b =>
          if is_ok reply then
            '(a, changes) ← lift (complete_reclaim (g, b) (co_access c) (co_changes c));
            Ok (set_job j (Ended (Some reply)) (set_changes changes (set_access a c)))
          else Ok (set_job j (Ended (Some reply)) (drop_permit (g, b) c))
      | W_Cleanup ((k, e) :: rest) =>
          c ← cleaned k e (is_ok reply) c;
          Ok (set_job j (if bool_decide (rest = []) then Ended (Some (Ok R_Unit)) else Running (W_Cleanup rest)) c)
      | W_Cleanup [] => Err tt
      end
  | _ => Err tt
  end.

(** A closure dropped before it ran. *)
Definition job_lost (j : nat) (c : Core) : result unit Core :=
  match co_jobs c !! j with
  | Some (Running w) =>
      set_job j (Ended None) <$>
      match w with
      | W_Open e _ | W_Write e _ _ _ _ | W_Checkpoint e _ | W_Discard e _ _ => drop_guard e c
      | W_Validate _ _ | W_Read _ _ _ _ _ => Ok c
      | W_Reclaim g b => Ok (drop_permit (g, b) c)
      | W_Cleanup cs => drop_claims cs c
      end
  | _ => Err tt
  end.

(** ** Runs *)

Inductive Event :=
| E_Write (r : WriteBlockRequest) | E_Authorized (t : nat) (visible : Z) | E_NotAuthorized (t : nat) (error : WorkerError)
| E_Register (t : nat) | E_Check (t : nat) | E_Open (t : nat) | E_Opened (t : nat) | E_Undone (t : nat)
| E_Data (t : nat) (data : bytes) | E_Written (t : nat) | E_Finish (t : nat) | E_Finished (t : nat)
| E_Bad (t : nat) (error : WorkerError) | E_Revoked (t : nat) | E_Aborted (t : nat)
| E_Read (r : ReadBlockRequest) | E_Validated (t : nat) | E_Next (t : nat) | E_Chunk (t : nat)
| E_Reclaim (k : Key) | E_Retire (t : nat) | E_Drained (t : nat)
| E_Cancel (t : nat) | E_Clean (drain : bool) | E_Drop (p : nat) (h : Holder)
| E_Ended (j : nat) (reply : result WorkerError Reply) (s : S) | E_Lost (j : nat).

Definition handle (f : Frames) (ev : Event) (c : Core) : result unit Core :=
  match ev with
  | E_Write r => write_block r c
  | E_Authorized t visible => authorized t visible c
  | E_NotAuthorized t error => not_authorized t error c
  | E_Register t => register_write t c
  | E_Check t => check_reclaiming t c
  | E_Open t => open_write t c
  | E_Opened t => opened_write t c
  | E_Undone t => undone_write t c
  | E_Data t data => write_block_data t data c
  | E_Written t => written_data t c
  | E_Finish t => finish_block_write t c
  | E_Finished t => finished_write t c
  | E_Bad t error => bad_message t error c
  | E_Revoked t => revoked_write t c
  | E_Aborted t => aborted_write t c
  | E_Read r => begin_block_read f r c
  | E_Validated t => validated_read t c
  | E_Next t => read_block_chunk t c
  | E_Chunk t => returned_chunk t c
  | E_Reclaim k => reclaim_start k c
  | E_Retire t => reclaim_retire t c
  | E_Drained t => reclaim_drained t c
  | E_Cancel t => cancel t c
  | E_Clean drain => cleanup_batch drain c
  | E_Drop p h => drop_pin p h c
  | E_Ended j reply s => job_ended j reply s c
  | E_Lost j => job_lost j c
  end.

(** The call a running job makes. *)
Definition job_call (c : Core) (j : nat) : option StoreCall :=
  match co_jobs c !! j with Some (Running w) => work_call w | _ => None end.
End Core.
Global Arguments Core : clear implicits.
Global Arguments Event : clear implicits.

Section System.
(** [allowed]: the calls that are made, where a property depends on what writers and
    reclaimers are authorized to do. *)
Context {S : Type} `{!LocalBlockStore S} (f : Frames) (allowed : StoreCall -> Prop).

(** A call of a running job that is allowed. *)
Definition makes (c : Core S) (j : nat) (call : StoreCall) : Prop := job_call c j = Some call /\ allowed call.

(** Requests are well typed, the answers of the store are the store's. *)
Definition possible (c : Core S) (ev : Event S) : Prop :=
  match ev with
  | E_Write r => write_fits r
  | E_Authorized _ visible => u64_ok visible
  | E_Read r => read_fits r
  | E_Reclaim k => key_fits k.1 k.2
  | E_Ended j reply s => exists call, makes c j call /\ calls call (co_store c) reply s
  | _ => True
  end.

(** What a worker goes through: events in any order, a stop at any point, maybe in the
    middle of a store call, and a start. *)
Inductive core_step (c : Core S) : Core S -> Prop :=
| core_event ev c' : co_up c = true -> possible c ev -> handle f ev c = Ok c' -> core_step c c'
| core_report s : co_up c = true -> reports (co_store c) s -> core_step c (set_store s c)
| core_stop : core_step c (idle false (co_next c) (co_store c))
| core_cut j call s : co_up c = true -> makes c j call -> cut call (co_store c) s -> core_step c (idle false (co_next c) s)
| core_stopped s : co_up c = false -> stopped (co_store c) s -> core_step c (idle false (co_next c) s)
| core_start s : co_up c = false -> starts (co_store c) s -> core_step c (idle true (co_next c) s).

Definition core_reach : Core S -> Core S -> Prop := rtc core_step.
End System.

(** Without a restriction. *)
Definition any_call (call : StoreCall) : Prop := True.
