(* ===== verification/WorkerCoreInv.v ===== *)
(** * Who may touch a block

    The ownership invariant of the worker's data path: pins are counted, an entry that
    is registered holds a pin, a running store call of a writer holds the guard of the
    registered entry, a claim of the cleaner excludes guards, and a reclamation runs
    without pins. *)

From S2P Require Import Prelude Types Errors WorkerTypes Bytes WorkerRuntime WorkerCore.
Local Open Scope Z_scope.

(** ** Observations *)

(** The block a task or a guarded or pinned job is about. *)
Definition task_key (T : Task) : option (string * BlockId) :=
  match T with
  | T_Authorizing r _ | T_Registering r _ _ | T_Registered r _ _ _ | T_Checked r _ _ _ | T_Opening r _ _ _ | T_Undoing r _ _ _ _ => Some (write_key r)
  | T_Streaming w | T_Writing w _ _ | T_Finishing w _ | T_Aborting w _ _ | T_Acknowledged w => Some (write_key (ab_request w))
  | T_Validating r _ _ _ => Some (read_key r)
  | T_Sending a | T_Reading a _ _ | T_Delivered a => Some (read_key (ar_request a))
  | T_Reclaim k | T_Draining k | T_Reclaiming k _ => Some k
  | T_Failed _ => None
  end.

Definition work_key (w : Work) : option (string * BlockId) :=
  match w with
  | W_Open _ r => Some (ob_group_name r, ob_block_id r)
  | W_Write _ g b _ _ | W_Discard _ g b | W_Read _ g b _ _ | W_Reclaim g b => Some (g, b)
  | W_Checkpoint _ r => Some (ck_group_name r, ck_block_id r)
  | W_Validate _ r => Some (read_key r)
  | W_Cleanup _ => None
  end.

(** The job a writing task waits for. *)
Definition task_awaits (T : Task) : option nat :=
  match T with
  | T_Opening _ _ _ j | T_Undoing _ _ _ j _ | T_Writing _ _ j | T_Finishing _ j | T_Aborting _ j _ => Some j
  | _ => None
  end.

Definition dead_entry : BlockWriteEntry := mk_BlockWriteEntry 0 false None (mk_FencingToken (mk_BlockId 0 0) 0 0) true.
Definition ent (es : gmap nat BlockWriteEntry) (e : nat) : BlockWriteEntry := default dead_entry (es !! e).
Definition run (js : gmap nat Job) (j : nat) : option Work := match js !! j with Some (Running w) => Some w | _ => None end.
Definition guard (js : gmap nat Job) (j : nat) : option nat := run js j ≫= work_guard.
Definition claims (js : gmap nat Job) (j : nat) : list (string * BlockId * nat) := default [] (work_claims <$> run js j).
Definition of_task {A} (f : Task -> option A) (ts : gmap nat Task) (t : nat) : option A := ts !! t ≫= f.
Notation owner := (of_task task_entry).

Lemma ent_insert es i en e : ent (<[i := en]> es) e = if decide (i = e) then en else ent es e.
Proof. unfold ent. destruct (decide (i = e)) as [->|]; [by rewrite lookup_insert_eq|by rewrite lookup_insert_ne]. Qed.
Lemma ent_lookup es e en : es !! e = Some en -> ent es e = en.
Proof. unfold ent. by intros ->. Qed.
Lemma run_insert js i J j : run (<[i := J]> js) j = if decide (i = j) then match J with Running w => Some w | _ => None end else run js j.
Proof. unfold run. destruct (decide (i = j)) as [->|]; [by rewrite lookup_insert_eq|by rewrite lookup_insert_ne]. Qed.
Lemma guard_insert js i J j : guard (<[i := J]> js) j = if decide (i = j) then match J with Running w => work_guard w | _ => None end else guard js j.
Proof. unfold guard. rewrite run_insert. case_decide; [|done]. by destruct J. Qed.
Lemma claims_insert js i J j : claims (<[i := J]> js) j = if decide (i = j) then match J with Running w => work_claims w | _ => [] end else claims js j.
Proof. unfold claims. rewrite run_insert. case_decide; [|done]. by destruct J. Qed.
Lemma of_task_insert {A} (f : Task -> option A) ts i T t : of_task f (<[i := T]> ts) t = if decide (i = t) then f T else of_task f ts t.
Proof. unfold of_task. destruct (decide (i = t)) as [->|]; [by rewrite lookup_insert_eq|by rewrite lookup_insert_ne]. Qed.
Lemma of_task_lookup {A} (f : Task -> option A) ts t T : ts !! t = Some T -> of_task f ts t = f T.
Proof. unfold of_task. by intros ->. Qed.

(** ** The registry of writers *)

Record reg_inv (es : gmap nat BlockWriteEntry) (ws : gmap (string * BlockId) nat) (ts : gmap nat Task) (js : gmap nat Job) : Prop := {
  (* registered entries, and only they, hold their pin *)
  ri_pin k e : ws !! k = Some e -> is_Some (en_pin (ent es e));
  ri_held e : is_Some (en_pin (ent es e)) -> exists k, ws !! k = Some e;
  ri_spent e : en_pin (ent es e) = None -> en_retired (ent es e) = true;
  ri_inj k k' e : ws !! k = Some e -> ws !! k' = Some e -> k = k';
  (* the task that registered an entry *)
  ri_owner t e : owner ts t = Some e -> is_Some (es !! e) /\ forall k, ws !! k = Some e -> of_task task_key ts t = Some k;
  ri_owner1 t t' e : owner ts t = Some e -> owner ts t' = Some e -> t = t';
  ri_orphan k e : ws !! k = Some e -> en_retired (ent es e) = true \/ exists t, owner ts t = Some e;
  (* running calls of writers *)
  ri_guard j e : guard js j = Some e -> (exists k, run js j ≫= work_key = Some k /\ ws !! k = Some e) /\
    en_inflight (ent es e) = 1 /\ en_cleanup_running (ent es e) = false;
  ri_guard1 j j' e : guard js j = Some e -> guard js j' = Some e -> j = j';
  ri_flight e : en_inflight (ent es e) <> 0 -> exists j, guard js j = Some e;
  ri_await t j e : owner ts t = Some e -> guard js j = Some e -> of_task task_awaits ts t = Some j;
  (* claims of the cleaner *)
  ri_claim j k e : (k, e) ∈ claims js j -> ws !! k = Some e /\ en_cleanup_running (ent es e) = true /\
    en_retired (ent es e) = true /\ en_inflight (ent es e) = 0;
  ri_claim1 j j' k k' e : (k, e) ∈ claims js j -> (k', e) ∈ claims js j' -> j = j';
  ri_claims j : NoDup ((claims js j).*2);
  ri_cleanup k e : ws !! k = Some e -> en_cleanup_running (ent es e) = true -> exists j, (k, e) ∈ claims js j
}.

(** Names in use. *)
Record names (pins : gmap nat BlockPin) (es : gmap nat BlockWriteEntry) (ts : gmap nat Task) (js : gmap nat Job) (next : nat) : Prop := {
  nm_entries e : is_Some (es !! e) -> (e < next)%nat;
  nm_jobs j : is_Some (js !! j) -> (j < next)%nat;
  nm_tasks t : is_Some (ts !! t) -> (t < next)%nat;
  nm_pins p : is_Some (pins !! p) -> (p < next)%nat
}.

(** ** Pins *)

Definition tally (pins : gmap nat BlockPin) (k : string * BlockId) : Z := Z.of_nat (size (filter (fun x => bp_key x.2 = k) pins)).

(** The block a holder holds a pin of. *)
Definition held (es : gmap nat BlockWriteEntry) (ws : gmap (string * BlockId) nat) (ts : gmap nat Task) (js : gmap nat Job)
    (h : Holder) (p : nat) (k : string * BlockId) : Prop :=
  match h with
  | HTask t second => exists T, ts !! t = Some T /\ task_pin T second = Some p /\ task_key T = Some k
  | HEntry e => ws !! k = Some e /\ en_pin (ent es e) = Some p
  | HJob j => exists w, run js j = Some w /\ work_pin w = Some p /\ work_key w = Some k
  end.

Record pin_inv (acc : Access) (pins : gmap nat BlockPin) (es : gmap nat BlockWriteEntry) (ws : gmap (string * BlockId) nat)
    (ts : gmap nat Task) (js : gmap nat Job) : Prop := {
  pi_count k : match acc !! k with
               | Some (Available n) => n = tally pins k /\ 0 < n
               | Some (Reclaiming n _) => n = tally pins k
               | None => tally pins k = 0
               end;
  pi_held h p k : held es ws ts js h p k -> exists x, pins !! p = Some x /\ bp_key x = k /\ h ∈ bp_owners x;
  pi_owned p x : pins !! p = Some x -> bp_owners x <> ∅
}.

(** ** Reclamations *)

(** Who owns the permit to reclaim a block. *)
Definition permits (ts : gmap nat Task) (js : gmap nat Job) (h : nat + nat) (k : string * BlockId) : Prop :=
  match h with
  | inl t => of_task task_permit ts t = Some k
  | inr j => run js j ≫= work_permit = Some k
  end.

Record permit_inv (acc : Access) (ts : gmap nat Task) (js : gmap nat Job) : Prop := {
  pm_active h k : permits ts js h k -> exists n, acc !! k = Some (Reclaiming n true) /\ (forall j, h = inr j -> n = 0);
  pm_one h h' k : permits ts js h k -> permits ts js h' k -> h = h';
  pm_owned k n : acc !! k = Some (Reclaiming n true) -> exists h, permits ts js h k
}.

Record core_inv {S} (c : Core S) : Prop := {
  co_reg : reg_inv (rg_entries (co_registry c)) (rg_writes (co_registry c)) (co_tasks c) (co_jobs c);
  co_pin : pin_inv (co_access c) (co_pins c) (rg_entries (co_registry c)) (rg_writes (co_registry c)) (co_tasks c) (co_jobs c);
  co_permit : permit_inv (co_access c) (co_tasks c) (co_jobs c);
  co_names : names (co_pins c) (rg_entries (co_registry c)) (co_tasks c) (co_jobs c) (co_next c)
}.

(** ** The registry: preservation *)

Ltac upd := repeat match goal with
  | H : context [ent (<[_ := _]> _) _] |- _ => rewrite ent_insert in H
  | |- context [ent (<[_ := _]> _) _] => rewrite ent_insert
  | H : context [run (<[_ := _]> _) _] |- _ => rewrite run_insert in H
  | |- context [run (<[_ := _]> _) _] => rewrite run_insert
  | H : context [guard (<[_ := _]> _) _] |- _ => rewrite guard_insert in H
  | |- context [guard (<[_ := _]> _) _] => rewrite guard_insert
  | H : context [claims (<[_ := _]> _) _] |- _ => rewrite claims_insert in H
  | |- context [claims (<[_ := _]> _) _] => rewrite claims_insert
  | H : context [of_task _ (<[_ := _]> _) _] |- _ => rewrite of_task_insert in H
  | |- context [of_task _ (<[_ := _]> _) _] => rewrite of_task_insert
  | H : context [decide (?x = ?y)] |- _ => destruct (decide (x = y)); subst
  | |- context [decide (?x = ?y)] => destruct (decide (x = y)); subst
  | H : (_, _) ∈ [] |- _ => by apply elem_of_nil in H
  | H : <[_ := _]> _ !! _ = Some _ |- _ => apply lookup_insert_Some in H as [[? ?]|[? H]]; subst
  | H : delete _ _ !! _ = Some _ |- _ => apply lookup_delete_Some in H as [? H]
  end; simplify_eq/=.

Ltac open_reg H := pose proof H as [Ipin Iheld Ispent Iinj Iowner Iowner1 Iorphan Iguard Iguard1 Iflight Iawait Iclaim Iclaim1 Iclaims Icleanup].

Section Registry.
Context (es : gmap nat BlockWriteEntry) (ws : gmap (string * BlockId) nat) (ts : gmap nat Task) (js : gmap nat Job).
Context (HI : reg_inv es ws ts js).

(** A task that moves on with the registration it had. *)
Lemma reg_task t T : task_entry T = owner ts t -> (is_Some (task_entry T) -> task_key T = of_task task_key ts t) ->
  (forall e j, task_entry T = Some e -> guard js j = Some e -> task_awaits T = Some j) -> reg_inv es ws (<[t := T]> ts) js.
Proof.
  intros Ho Hk Ha. open_reg HI. constructor; try done.
  - intros t' e. upd; [|by apply Iowner]. rewrite Ho. intros He. destruct (Iowner t' e He) as [? Hw]. split; [done|].
    intros k Hk'. rewrite Hk; [eauto|]. rewrite Ho, He. eauto.
  - intros t1 t2 e. upd; rewrite ?Ho; eauto.
  - intros k e Hw. destruct (Iorphan k e Hw) as [|[t' ?]]; [eauto|right]. exists t'. upd; congruence.
  - intros t' j e. upd; eauto.
Qed.

(** A task that leaves its registration: nobody else needs it, or it is retired. *)
Lemma reg_leave t T : task_entry T = None ->
  (forall e k, owner ts t = Some e -> ws !! k = Some e -> en_retired (ent es e) = true) -> reg_inv es ws (<[t := T]> ts) js.
Proof.
  intros Ho Hr. open_reg HI. constructor; try done.
  - intros t' e. upd; [congruence|apply Iowner].
  - intros t1 t2 e. upd; intros; first [congruence|eauto].
  - intros k e Hw. destruct (Iorphan k e Hw) as [|[t' Ht]]; [eauto|]. destruct (decide (t' = t)) as [->|]; [eauto|].
    right. exists t'. rewrite of_task_insert, decide_False; congruence.
  - intros t' j e. upd; intros; first [congruence|eauto].
Qed.

Lemma reg_retire e : reg_inv (<[e := retire_entry (ent es e)]> es) ws ts js.
Proof.
  open_reg HI. constructor; try done.
  - intros k e'. upd; eauto.
  - intros e'. upd; eauto.
  - intros e'. upd; eauto.
  - intros t e' He. destruct (Iowner t e' He). split; [|done]. apply lookup_insert_is_Some'. eauto.
  - intros k e' Hw. upd; eauto.
  - intros j e' He. destruct (Iguard j e' He) as [? ?]. upd; eauto.
  - intros e'. upd; eauto.
  - intros j k e' He. destruct (Iclaim j k e' He) as (? & ? & ? & ?). upd; eauto.
  - intros k e' Hw. upd; eauto.
Qed.

(** A store call under the guard of the entry. *)
Lemma reg_spawn_io t T e k j w en : owner ts t = Some e -> of_task task_key ts t = Some k -> (forall j, guard js j <> Some e) ->
  js !! j = None -> begin_io (ent es e) = Some en -> work_guard w = Some e -> work_key w = Some k ->
  task_entry T = Some e -> task_key T = Some k -> task_awaits T = Some j -> reg_inv (<[e := en]> es) ws (<[t := T]> ts) (<[j := Running w]> js).
Proof.
  intros Ho Hk Hno Hj Hb Hg Hwk Te Tk Ta. unfold begin_io in Hb. destruct (en_retired (ent es e)) eqn:Hr; simplify_eq.
  open_reg HI. assert (en_pin (ent es e) <> None) as Hp by (intros E; apply Ispent in E; congruence).
  apply not_eq_None_Some in Hp as Hp'. destruct (Iheld e Hp') as [k' Hw].
  assert (k' = k) as -> by (apply Iowner in Ho as [_ Ho]; apply Ho in Hw; congruence).
  assert (en_inflight (ent es e) = 0) as H0.
  { destruct (decide (en_inflight (ent es e) = 0)); [done|]. destruct (Iflight e) as [? ?]; [done|]. by exfalso; eapply Hno. }
  assert (en_cleanup_running (ent es e) = false) as Hc.
  { destruct (en_cleanup_running (ent es e)) eqn:E; [|done]. destruct (Icleanup k e Hw E) as [j' Hcl].
    apply Iclaim in Hcl as (_ & _ & ? & _). congruence. }
  assert (work_claims w = []) as Hwc by (by destruct w). assert (guard js j = None) as Hgj by (unfold guard, run; by rewrite Hj).
  constructor.
  - intros k' e'. upd; eauto.
  - intros e'. upd; eauto.
  - intros e'. upd; [congruence|eauto].
  - eauto.
  - intros t' e'. assert (is_Some (es !! e)) as He by by eapply Iowner. upd.
    + rewrite Te. intros [= <-]. split; [by apply lookup_insert_is_Some'; eauto|]. intros k'' Hk''. rewrite Tk. f_equal. eauto.
    + intros He'. destruct (Iowner t' e' He'). split; [|done]. apply lookup_insert_is_Some'. eauto.
  - intros t1 t2 e'. upd; rewrite ?Te; intros; simplify_eq; eauto.
  - intros k' e' Hw'. destruct (Iorphan k' e' Hw') as [|[t' Ht]].
    + left. upd; congruence.
    + right. destruct (decide (t' = t)) as [->|]; [exists t; upd; congruence|]. exists t'. by upd.
  - intros j' e' He'. upd; try congruence; try (by exfalso; eapply Hno); eauto. split; [by exists k|]. split; [lia|done].
  - intros j1 j2 e'. upd; rewrite ?Hg; intros; simplify_eq; first [done|by eauto|by exfalso; eapply Hno].
  - intros e'. upd.
    + intros _. exists j. by rewrite guard_insert, decide_True.
    + intros Hf. destruct (Iflight e' Hf) as [j' Hj']. exists j'. rewrite guard_insert, decide_False; [done|congruence].
  - intros t' j' e'. upd; rewrite ?Hg, ?Te; intros; simplify_eq; try done; try (by exfalso; eapply Hno).
    + by assert (t' = t) by eauto.
    + eauto.
  - intros j' k' e' Hcl. rewrite claims_insert in Hcl. case_decide; [rewrite Hwc in Hcl; by apply elem_of_nil in Hcl|].
    destruct (Iclaim j' k' e' Hcl) as (? & ? & ? & ?). upd; [congruence|done].
  - intros j1 j2 k1 k2 e'. upd; rewrite ?Hwc; intros; upd; eauto.
  - intros j'. upd; [rewrite Hwc; constructor|eauto].
  - intros k' e' Hw' Hc'. rewrite ent_insert in Hc'. case_decide; [subst; cbn in Hc'; congruence|].
    destruct (Icleanup k' e' Hw' Hc') as [j' Hcl]. exists j'. rewrite claims_insert, decide_False; [done|].
    intros <-. unfold claims, run in Hcl. rewrite Hj in Hcl. by apply elem_of_nil in Hcl.
Qed.

Lemma no_entry e : es !! e = None -> ent es e = dead_entry.
Proof. unfold ent. by intros ->. Qed.

Lemma reg_register t T e k token p : ws !! k = None -> es !! e = None -> owner ts t = None ->
  task_entry T = Some e -> task_key T = Some k -> reg_inv (<[e := new_entry token p]> es) (<[k := e]> ws) (<[t := T]> ts) js.
Proof.
  intros Hk He Ho Te Tk. open_reg HI. pose proof (no_entry e He) as Hd.
  assert (forall k', ws !! k' <> Some e) as Hw by (intros k' Hk'; apply Ipin in Hk'; rewrite Hd in Hk'; by destruct Hk').
  assert (forall j, guard js j <> Some e) as Hg by (intros j Hj; apply Iguard in Hj as (_ & Hj & _); by rewrite Hd in Hj).
  assert (forall j k', (k', e) ∉ claims js j) as Hc by (intros j k' Hj; apply Iclaim in Hj as (_ & Hj & _); by rewrite Hd in Hj).
  assert (forall t', owner ts t' <> Some e) as Hn by (intros t' Ht; apply Iowner in Ht as [[? ?] _]; congruence).
  constructor; try done.
  - intros k' e' Hk'. upd; [by eauto|by eapply Hw in Hk'|by eauto].
  - intros e' He'. upd; [exists k; by rewrite lookup_insert_eq|]. destruct (Iheld e' He') as [k' Hk']. exists k'.
    rewrite lookup_insert_ne; [done|congruence].
  - intros e'. upd; [done|eauto].
  - intros k1 k2 e'. intros; upd; first [done|by exfalso; eapply Hw|by eauto].
  - intros t' e' Ht. upd.
    + split; [apply lookup_insert_is_Some'; eauto|]. intros k' Hk'. upd; first [congruence|by eapply Hw in Hk'].
    + destruct (Iowner t' e' Ht) as [? Hk']. split; [apply lookup_insert_is_Some'; eauto|]. intros k'' Hk''. upd; first [by eauto|by eapply Hn in Ht].
  - intros t1 t2 e' H1 H2. upd; first [done|by eauto|exfalso; apply (Hn t2); congruence|exfalso; apply (Hn t1); congruence].
  - intros k' e' Hk'. upd; [right; exists t; by rewrite of_task_insert, decide_True|by eapply Hw in Hk'|].
    destruct (Iorphan k' e' Hk') as [|[t' Ht]]; [eauto|right]. exists t'. rewrite of_task_insert, decide_False; congruence.
  - intros j e' Hj. destruct (Iguard j e' Hj) as ((k' & ? & Hk') & ? & ?). rewrite ent_insert. case_decide; [by subst; eapply Hg in Hj|].
    split; [|done]. exists k'. split; [done|]. rewrite lookup_insert_ne; [done|congruence].
  - intros e'. upd; eauto.
  - intros t' j e' H1 H2. upd; first [by eauto|exfalso; apply (Hg j); congruence].
  - intros j k' e' Hj. destruct (Iclaim j k' e' Hj) as (Hk' & ? & ? & ?). rewrite ent_insert. case_decide; [by subst; eapply Hc in Hj|].
    split; [|done]. rewrite lookup_insert_ne; [done|congruence].
  - intros k' e' Hk' Hr. upd; first [by eauto|by eapply Hw in Hk'].
Qed.

(** A job whose claims shrink, an entry left out. *)
Definition unclaims (js js' : gmap nat Job) (e : nat) : Prop :=
  (forall j, guard js' j = guard js j) /\ (forall j, is_Some (guard js j) -> run js' j = run js j) /\
  (forall j k e', (k, e') ∈ claims js' j <-> (k, e') ∈ claims js j /\ e' <> e) /\ (forall j, NoDup ((claims js' j).*2)).

Lemma reg_unregister k e js' : ws !! k = Some e -> (forall j, guard js j <> Some e) -> unclaims js js' e ->
  reg_inv (<[e := spent_entry (ent es e)]> es) (delete k ws) ts js'.
Proof.
  intros Hk Hg (Hgs & Hrs & Hcs & Hnd). open_reg HI.
  assert (forall k' e', delete k ws !! k' = Some e' -> ws !! k' = Some e' /\ e' <> e) as Hdel.
  { intros k' e' [? Hk']%lookup_delete_Some. split; [done|]. intros ->. by assert (k' = k) by eauto. }
  assert (forall k' e', ws !! k' = Some e' -> e' <> e -> delete k ws !! k' = Some e') as Hin.
  { intros k' e' Hk' Hne. rewrite lookup_delete_ne; [done|congruence]. }
  constructor; try done.
  - intros k' e' [Hk' ?]%Hdel. rewrite ent_insert, decide_False by done. eauto.
  - intros e'. rewrite ent_insert. case_decide; [by intros []|]. intros [k' Hk']%Iheld. exists k'. auto.
  - intros e'. rewrite ent_insert. case_decide; [done|eauto].
  - intros k1 k2 e' [? _]%Hdel [? _]%Hdel. eauto.
  - intros t e' Ht. destruct (Iowner t e' Ht) as [? Ho]. split; [apply lookup_insert_is_Some'; eauto|]. intros k' [? _]%Hdel. eauto.
  - intros k' e' [Hk' ?]%Hdel. rewrite ent_insert, decide_False by done. eauto.
  - intros j e' Hj. rewrite Hgs in Hj. assert (e' <> e) by (intros ->; by eapply Hg). rewrite ent_insert, decide_False by done.
    destruct (Iguard j e' Hj) as ((k' & ? & ?) & ?). split; [|done]. exists k'. rewrite Hrs by eauto. auto.
  - intros j1 j2 e'. rewrite !Hgs. eauto.
  - intros e'. rewrite ent_insert. case_decide as E; cbn; [subst|].
    + intros [j ?]%Iflight. by exfalso; eapply Hg.
    + intros [j ?]%Iflight. exists j. by rewrite Hgs.
  - intros t j e'. rewrite Hgs. eauto.
  - intros j k' e' [Hc ?]%Hcs. destruct (Iclaim j k' e' Hc) as [? ?]. rewrite ent_insert, decide_False by done. auto.
  - intros j1 j2 k1 k2 e' [? _]%Hcs [? _]%Hcs. eauto.
  - intros k' e' [Hk' ?]%Hdel. rewrite ent_insert, decide_False by done. intros [j ?]%(Icleanup k'); [|done]. exists j. by apply Hcs.
Qed.

Lemma reg_unclaim k e js' en : ws !! k = Some e -> release_cleanup (ent es e) = Ok en -> (forall j, guard js j <> Some e) -> unclaims js js' e ->
  reg_inv (<[e := en]> es) ws ts js'.
Proof.
  intros Hk Hr Hg (Hgs & Hrs & Hcs & Hnd). unfold release_cleanup in Hr. unbind Hr as [] Hrun. simplify_eq. open_reg HI.
  constructor; try done.
  - intros k' e'. upd; eauto.
  - intros e'. upd; eauto.
  - intros e'. upd; eauto.
  - intros t e' Ht. destruct (Iowner t e' Ht) as [? Ho]. split; [apply lookup_insert_is_Some'; eauto|done].
  - intros k' e' Hk'. upd; eauto.
  - intros j e' Hj. rewrite Hgs in Hj. assert (e' <> e) by (intros ->; by eapply Hg). rewrite ent_insert, decide_False by done.
    destruct (Iguard j e' Hj) as ((k' & ? & ?) & ?). split; [|done]. exists k'. rewrite Hrs by eauto. auto.
  - intros j1 j2 e'. rewrite !Hgs. eauto.
  - intros e'. rewrite ent_insert. intros Hf. assert (exists j, guard js j = Some e') as [j Hj] by (case_decide; subst; eauto).
    exists j. by rewrite Hgs.
  - intros t j e'. rewrite Hgs. eauto.
  - intros j k' e' [Hc ?]%Hcs. rewrite ent_insert, decide_False by done. eauto.
  - intros j1 j2 k1 k2 e' [? _]%Hcs [? _]%Hcs. eauto.
  - intros k' e' Hk'. rewrite ent_insert. case_decide; [done|]. intros [j ?]%(Icleanup k'); [|done]. exists j. by apply Hcs.
Qed.

(** The cleaner claims an entry. *)
Lemma reg_claim k e j cs drain en : ws !! k = Some e -> js !! j = Some (Running (W_Cleanup cs)) ->
  retire_and_claim_cleanup drain (ent es e) = (true, en) ->
  reg_inv (<[e := en]> es) ws ts (<[j := Running (W_Cleanup (cs ++ [(k, e)]))]> js).
Proof.
  intros Hk Hj Hr. open_reg HI.
  assert (en_inflight (ent es e) = 0 /\ en_cleanup_running (ent es e) = false /\ en_pin en = en_pin (ent es e) /\
    en_inflight en = 0 /\ en_cleanup_running en = true /\ en_retired en = true) as (H0 & Hc & Ep & E0 & Ec & Er).
  { unfold retire_and_claim_cleanup in Hr. destruct drain; cbn in Hr.
    - destruct (bool_decide _ || _) eqn:E in Hr; simplify_eq. apply orb_false_iff in E as [E1 E2]. bool_prop. done.
    - destruct (_ || _) eqn:E in Hr; simplify_eq. apply orb_false_iff in E as [E E3]. apply orb_false_iff in E as [E1 E2]. bool_prop. done. }
  assert (forall j, guard js j <> Some e) as Hg by (intros j' Hj'; apply Iguard in Hj' as (_ & ? & _); lia).
  assert (forall j k', (k', e) ∉ claims js j) as Hn by (intros j' k' Hj'; apply Iclaim in Hj' as (_ & ? & _); congruence).
  assert (claims js j = cs) as Hcs by (unfold claims, run; by rewrite Hj).
  assert (forall j', guard (<[j := Running (W_Cleanup (cs ++ [(k, e)]))]> js) j' = guard js j') as Hgs.
  { intros j'. upd; [|done]. unfold guard, run. by rewrite Hj. }
  assert (forall j' k' e', (k', e') ∈ claims (<[j := Running (W_Cleanup (cs ++ [(k, e)]))]> js) j' <->
    (k', e') ∈ claims js j' \/ j' = j /\ k' = k /\ e' = e) as Hcl.
  { intros j' k' e'. rewrite claims_insert. case_decide; [subst|naive_solver]. cbn. rewrite elem_of_app, list_elem_of_singleton. naive_solver. }
  constructor; try done.
  - intros k' e'. upd; [rewrite Ep|]; eauto.
  - intros e'. upd; [rewrite Ep|]; eauto.
  - intros e'. upd; eauto.
  - intros t e' Ht. destruct (Iowner t e' Ht) as [? Ho]. split; [apply lookup_insert_is_Some'; eauto|done].
  - intros k' e' Hk'. upd; eauto.
  - intros j' e' Hj'. rewrite Hgs in Hj'. rewrite run_insert. case_decide; [subst; unfold guard, run in Hj'; by rewrite Hj in Hj'|].
    rewrite ent_insert. case_decide; [by subst; eapply Hg in Hj'|eauto].
  - intros j1 j2 e'. rewrite !Hgs. eauto.
  - intros e'. rewrite ent_insert. case_decide; [congruence|]. intros [j' ?]%Iflight. exists j'. by rewrite Hgs.
  - intros t j' e'. rewrite Hgs. eauto.
  - intros j' k' e' [Hin|(-> & -> & ->)]%Hcl; [|by rewrite ent_insert, decide_True].
    destruct (Iclaim j' k' e' Hin) as [? ?]. rewrite ent_insert. case_decide; [by subst; eapply Hn in Hin|done].
  - intros j1 j2 k1 k2 e' [H1|(-> & -> & ->)]%Hcl [H2|(-> & -> & ?)]%Hcl; subst; first [done|by eauto|by exfalso; eapply Hn].
  - intros j'. rewrite claims_insert. case_decide; [subst|eauto]. cbn. rewrite fmap_app. apply NoDup_app. split_and!.
    + apply Iclaims.
    + intros x ((k', e') & E & Hx)%list_elem_of_fmap ->%list_elem_of_singleton. cbn in E. subst. by eapply Hn.
    + apply NoDup_singleton.
  - intros k' e' Hk' Hr'. rewrite ent_insert in Hr'. case_decide.
    + subst. exists j. apply Hcl. right. split_and!; eauto.
    + destruct (Icleanup k' e' Hk' Hr') as [j' ?]. exists j'. apply Hcl. auto.
Qed.

(** Jobs matter through their guards and claims. *)
Lemma reg_ext js' : (forall j, guard js' j = guard js j) -> (forall j, is_Some (guard js j) -> run js' j = run js j) ->
  (forall j, claims js' j = claims js j) -> reg_inv es ws ts js'.
Proof.
  intros Hgs Hrs Hcs. open_reg HI. constructor; try done.
  - intros j e Hj. rewrite Hgs in Hj. rewrite Hrs by eauto. eauto.
  - intros j1 j2 e. rewrite !Hgs. eauto.
  - intros e [j ?]%Iflight. exists j. by rewrite Hgs.
  - intros t j e. rewrite Hgs. eauto.
  - intros j k e. rewrite Hcs. eauto.
  - intros j1 j2 k1 k2 e. rewrite !Hcs. eauto.
  - intros j. rewrite Hcs. eauto.
  - intros k e Hk [j ?]%(Icleanup k); [|done]. exists j. by rewrite Hcs.
Qed.

(** A job that has nothing to do with writers. *)
Lemma reg_job j J : guard js j = None -> claims js j = [] ->
  match J with Running w => work_guard w = None /\ work_claims w = [] | Ended _ => True end -> reg_inv es ws ts (<[j := J]> js).
Proof.
  intros Hg Hc HJ. apply reg_ext; intros j'.
  - upd; [rewrite Hg; by destruct J as [w|]; [apply HJ|]|done].
  - intros [e He]. rewrite run_insert, decide_False; [done|congruence].
  - upd; [rewrite Hc; by destruct J as [w|]; [apply HJ|]|done].
Qed.

(** The end of a guarded call. *)
Lemma reg_end_guard j e en a : guard js j = Some e -> end_io (ent es e) = Ok en -> reg_inv (<[e := en]> es) ws ts (<[j := Ended a]> js).
Proof.
  intros Hg He. open_reg HI. destruct (Iguard j e Hg) as ((k & _ & Hk) & H1 & Hr). unfold end_io in He. unbind He as n Hn.
  apply checked_sub_Some in Hn as [-> _]. simplify_eq.
  assert (claims js j = []) as Hc.
  { unfold guard in Hg. unfold claims. destruct (run js j) as [w|]; [|done]. cbn in *. by destruct w. }
  assert (forall j', claims (<[j := Ended a]> js) j' = claims js j') as Hcs by (intros j'; upd; congruence).
  constructor; try done.
  - intros k' e'. upd; eauto.
  - intros e'. upd; eauto.
  - intros e'. upd; eauto.
  - intros t e' Ht. destruct (Iowner t e' Ht) as [? Ho]. split; [apply lookup_insert_is_Some'; eauto|done].
  - intros k' e' Hk'. upd; eauto.
  - intros j' e' Hj'. rewrite guard_insert in Hj'. case_decide; [done|]. rewrite run_insert, decide_False by done.
    rewrite ent_insert. case_decide; [subst; by assert (j = j') by eauto|eauto].
  - intros j1 j2 e' G1 G2. upd. eauto.
  - intros e'. rewrite ent_insert. case_decide; cbn; [lia|]. intros [j' Hj']%Iflight. exists j'. rewrite guard_insert, decide_False; [done|congruence].
  - intros t j' e' Ht Hj'. upd. eauto.
  - intros j' k' e'. rewrite Hcs. intros Hin. destruct (Iclaim j' k' e' Hin) as (? & ? & ? & ?). rewrite ent_insert. case_decide; [subst; congruence|done].
  - intros j1 j2 k1 k2 e'. rewrite !Hcs. eauto.
  - intros j'. rewrite Hcs. eauto.
  - intros k' e' Hk' Hr'. rewrite ent_insert in Hr'. case_decide; [subst; cbn in Hr'; congruence|].
    destruct (Icleanup k' e' Hk' Hr') as [j' ?]. exists j'. by rewrite Hcs.
Qed.
End Registry.

(** ** Pins: preservation *)

Definition one_if (b : bool) : Z := if b then 1 else 0.

Lemma tally_new pins p x k : pins !! p = None -> tally (<[p := x]> pins) k = tally pins k + one_if (bool_decide (bp_key x = k)).
Proof.
  intros Hp. unfold tally. case_bool_decide as E; cbn.
  - rewrite map_filter_insert_True by done. rewrite map_size_insert_None; [lia|]. apply map_lookup_filter_None. auto.
  - rewrite map_filter_insert_False by done. rewrite delete_id by done. lia.
Qed.

Lemma tally_drop pins p x k : pins !! p = Some x -> tally pins k = tally (delete p pins) k + one_if (bool_decide (bp_key x = k)).
Proof. intros Hp. rewrite <- (insert_delete_id pins p x Hp) at 1. apply tally_new, lookup_delete_eq. Qed.

Lemma tally_same pins p x o k : pins !! p = Some x -> tally (<[p := mk_BlockPin (bp_key x) o]> pins) k = tally pins k.
Proof.
  intros Hp. rewrite (tally_drop pins p x k Hp), <- insert_delete_eq. rewrite tally_new by apply lookup_delete_eq. done.
Qed.

Lemma tally_pos pins p x : pins !! p = Some x -> 0 < tally pins (bp_key x).
Proof. intros Hp. rewrite (tally_drop pins p x _ Hp), bool_decide_eq_true_2 by done. unfold tally. cbn. lia. Qed.

Lemma tally_nonneg pins k : 0 <= tally pins k.
Proof. unfold tally. lia. Qed.

Definition counts (acc : Access) (pins : gmap nat BlockPin) : Prop := forall k,
  match acc !! k with
  | Some (Available n) => n = tally pins k /\ 0 < n
  | Some (Reclaiming n _) => n = tally pins k
  | None => tally pins k = 0
  end.

Lemma pin_counts acc pins es ws ts js : pin_inv acc pins es ws ts js -> counts acc pins.
Proof. intros H. exact (pi_count _ _ _ _ _ _ H). Qed.

Lemma counts_insert acc pins pins' k st : counts acc pins -> (forall k', k' <> k -> tally pins' k' = tally pins k') ->
  match st with Available n => n = tally pins' k /\ 0 < n | Reclaiming n _ => n = tally pins' k end -> counts (<[k := st]> acc) pins'.
Proof.
  intros Hc Ht Hst k'. destruct (decide (k' = k)) as [->|]; [by rewrite lookup_insert_eq|].
  rewrite lookup_insert_ne, Ht by done. apply Hc.
Qed.

Lemma counts_delete acc pins pins' k : counts acc pins -> (forall k', k' <> k -> tally pins' k' = tally pins k') ->
  tally pins' k = 0 -> counts (delete k acc) pins'.
Proof.
  intros Hc Ht H0 k'. destruct (decide (k' = k)) as [->|]; [by rewrite lookup_delete_eq|].
  rewrite lookup_delete_ne, Ht by done. apply Hc.
Qed.

Lemma counts_pin acc acc' pins p k o : counts acc pins -> pins !! p = None -> pin_block k acc = Ok acc' -> counts acc' (<[p := mk_BlockPin k o]> pins).
Proof.
  intros Hc Hp Hpin. pose proof (Hc k) as Hk. unfold pin_block in Hpin.
  assert (forall k', k' <> k -> tally (<[p := mk_BlockPin k o]> pins) k' = tally pins k') as Ht.
  { intros k' Hne. rewrite tally_new, bool_decide_eq_false_2; cbn; [lia|done|done]. }
  assert (tally (<[p := mk_BlockPin k o]> pins) k = tally pins k + 1) as Ht1.
  { rewrite tally_new, bool_decide_eq_true_2; by cbn. }
  destruct (acc !! k) as [[n|n act]|]; inv_ok; (eapply counts_insert; [done|done|]); rewrite Ht1; lia.
Qed.

Lemma counts_unpin acc acc' pins p x : counts acc pins -> pins !! p = Some x -> release_pin (bp_key x) acc = Ok acc' -> counts acc' (delete p pins).
Proof.
  intros Hc Hp Hr. pose proof (Hc (bp_key x)) as Hk. pose proof (tally_pos pins p x Hp) as Hpos. unfold release_pin in Hr.
  assert (forall k', k' <> bp_key x -> tally (delete p pins) k' = tally pins k') as Ht.
  { intros k' Hne. rewrite (tally_drop pins p x k' Hp), bool_decide_eq_false_2; cbn; [lia|done]. }
  assert (tally (delete p pins) (bp_key x) = tally pins (bp_key x) - 1) as Ht1.
  { rewrite (tally_drop pins p x (bp_key x) Hp), bool_decide_eq_true_2; cbn; [lia|done]. }
  destruct (acc !! bp_key x) as [[n|n act]|]; inv_ok; [|eapply counts_insert; [done|done|lia]|lia].
  case_bool_decide; [eapply counts_delete; [done|done|lia]|eapply counts_insert; [done|done|lia]].
Qed.

(** Only counted pins are released. *)
Lemma release_counted acc pins p x : counts acc pins -> pins !! p = Some x -> exists acc', release_pin (bp_key x) acc = Ok acc'.
Proof.
  intros Hc Hp. pose proof (Hc (bp_key x)) as Hk. pose proof (tally_pos pins p x Hp) as Hpos. unfold release_pin, checked_sub.
  destruct (acc !! bp_key x) as [[n|n act]|]; [| |lia]; (rewrite bool_decide_eq_true_2 by lia); cbn; eauto.
Qed.

Section Pins.
Context (acc : Access) (pins : gmap nat BlockPin) (es : gmap nat BlockWriteEntry) (ws : gmap (string * BlockId) nat)
  (ts : gmap nat Task) (js : gmap nat Job).
Context (HI : pin_inv acc pins es ws ts js).

(** Handles are dropped first, their pins later. *)
Lemma pin_mono acc' es' ws' ts' js' : counts acc' pins -> (forall h p k, held es' ws' ts' js' h p k -> held es ws ts js h p k) ->
  pin_inv acc' pins es' ws' ts' js'.
Proof. intros Hc Hm. destruct HI as [_ Ih Io]. constructor; [exact Hc|intros h p k Hh; apply Ih; auto|done]. Qed.

Lemma pin_own p x o es' ws' ts' js' : pins !! p = Some x -> o <> ∅ ->
  (forall h p' k, held es' ws' ts' js' h p' k -> p' = p /\ k = bp_key x /\ h ∈ o \/ p' <> p /\ held es ws ts js h p' k) ->
  pin_inv acc (<[p := mk_BlockPin (bp_key x) o]> pins) es' ws' ts' js'.
Proof.
  intros Hp Ho Hm. destruct HI as [Ic Ih Io]. constructor.
  - intros k. specialize (Ic k). by rewrite tally_same.
  - intros h p' k [(-> & -> & Hin)|[Hne Hh]]%Hm; [exists (mk_BlockPin (bp_key x) o); by rewrite lookup_insert_eq|].
    rewrite lookup_insert_ne by done. auto.
  - intros p' x'. intros [[<- <-]|[? ?]]%lookup_insert_Some; eauto.
Qed.

Lemma pin_new acc' p k h es' ws' ts' js' : pins !! p = None -> pin_block k acc = Ok acc' ->
  (forall h' p' k', held es' ws' ts' js' h' p' k' -> p' = p /\ k' = k /\ h' = h \/ held es ws ts js h' p' k') ->
  pin_inv acc' (<[p := mk_BlockPin k {[h]}]> pins) es' ws' ts' js'.
Proof.
  intros Hp Hpin Hm. destruct HI as [Ic Ih Io]. constructor.
  - by eapply counts_pin.
  - intros h' p' k' [(-> & -> & ->)|Hh]%Hm; [eexists; rewrite lookup_insert_eq; split_and!; [done|done|set_solver]|].
    destruct (Ih _ _ _ Hh) as (x & Hx & ?). exists x. rewrite lookup_insert_ne; [done|congruence].
  - intros p' x'. intros [[<- <-]|[? ?]]%lookup_insert_Some; [set_solver|eauto].
Qed.

Lemma pin_drop acc' p x h : pins !! p = Some x -> (forall k, ~ held es ws ts js h p k) -> bp_owners x ∖ {[h]} = ∅ ->
  release_pin (bp_key x) acc = Ok acc' -> pin_inv acc' (delete p pins) es ws ts js.
Proof.
  intros Hp Hh He Hr. destruct HI as [Ic Ih Io]. constructor.
  - by eapply counts_unpin.
  - intros h' p' k Hh'. destruct (Ih _ _ _ Hh') as (x' & Hx' & Hk' & Hin). exists x'. split; [|done].
    rewrite lookup_delete_ne; [done|]. intros <-. assert (x' = x) as -> by congruence. destruct (decide (h' = h)) as [->|]; [by eapply Hh|set_solver].
  - intros p' x' [? ?]%lookup_delete_Some. eauto.
Qed.
End Pins.

Section Held.
Context (es : gmap nat BlockWriteEntry) (ws : gmap (string * BlockId) nat) (ts : gmap nat Task) (js : gmap nat Job).

Lemma held_task t T h p k : held es ws (<[t := T]> ts) js h p k ->
  (exists s, h = HTask t s /\ task_pin T s = Some p /\ task_key T = Some k) \/ held es ws ts js h p k /\ forall s, h <> HTask t s.
Proof.
  destruct h as [t' s|e|j]; cbn; [|by right..]. intros (T' & HT & Hp & Hk). apply lookup_insert_Some in HT as [[<- <-]|[Hne HT]].
  - left. by exists s.
  - right. split; [by exists T'|congruence].
Qed.

Lemma held_job j J h p k : held es ws ts (<[j := J]> js) h p k ->
  (exists w, h = HJob j /\ J = Running w /\ work_pin w = Some p /\ work_key w = Some k) \/ held es ws ts js h p k /\ h <> HJob j.
Proof.
  destruct h as [t' s|e|j']; cbn; [by right..|]. intros (w & Hw & Hp & Hk). rewrite run_insert in Hw. case_decide; [subst|].
  - left. exists w. destruct J; by simplify_eq.
  - right. split; [by exists w|congruence].
Qed.

Lemma held_entry e en h p k : en_pin en = en_pin (ent es e) -> held (<[e := en]> es) ws ts js h p k -> held es ws ts js h p k.
Proof.
  intros Hpin. destruct h as [t' s|e'|j']; cbn; [done| |done]. intros [Hk He]. split; [done|]. rewrite ent_insert in He.
  case_decide; [|done]. subst. by rewrite <- Hpin.
Qed.

Lemma held_unregister e k0 en h p k : en_pin en = None -> held (<[e := en]> es) (delete k0 ws) ts js h p k -> held es ws ts js h p k.
Proof.
  intros Hpin. destruct h as [t' s|e'|j']; cbn; [done| |done]. intros [[? Hk]%lookup_delete_Some He]. split; [done|]. rewrite ent_insert in He.
  case_decide; [congruence|done].
Qed.
End Held.

(** ** Reclamations: preservation *)

Section Permits.
Context (acc : Access) (ts : gmap nat Task) (js : gmap nat Job).
Context (HI : permit_inv acc ts js).

Lemma permit_mono ts' js' : (forall h k, permits ts' js' h k <-> permits ts js h k) -> permit_inv acc ts' js'.
Proof.
  intros Hp. destruct HI as [Ia I1 Io]. constructor.
  - intros h k ?%Hp. auto.
  - intros h h' k ?%Hp ?%Hp. eauto.
  - intros k n [h ?]%Io. exists h. by apply Hp.
Qed.

Lemma permit_pin acc' k : pin_block k acc = Ok acc' -> permit_inv acc' ts js.
Proof.
  intros Hp. destruct HI as [Ia I1 Io]. unfold pin_block in Hp.
  assert (forall k' n b, acc' !! k' = Some (Reclaiming n b) <-> acc !! k' = Some (Reclaiming n b)) as Hs.
  { intros k' n b. destruct (acc !! k) as [[m|m b']|] eqn:E; inv_ok;
      (destruct (decide (k' = k)) as [->|]; [rewrite lookup_insert_eq; naive_solver|by rewrite lookup_insert_ne]). }
  constructor; [|done|].
  - intros h k' (n & ? & ?)%Ia. exists n. by rewrite Hs.
  - intros k' n. rewrite Hs. eauto.
Qed.

Lemma permit_unpin acc' k : release_pin k acc = Ok acc' -> permit_inv acc' ts js.
Proof.
  intros Hp. destruct HI as [Ia I1 Io]. unfold release_pin in Hp.
  assert (forall k', k' <> k -> acc' !! k' = acc !! k') as Hne.
  { intros k' Hk. destruct (acc !! k) as [[m|m b']|] eqn:E; inv_ok; [|by rewrite lookup_insert_ne|done].
    case_bool_decide; [by rewrite lookup_delete_ne|by rewrite lookup_insert_ne]. }
  assert (match acc !! k with
          | Some (Reclaiming n b) => 1 <= n /\ acc' !! k = Some (Reclaiming (n - 1) b)
          | _ => forall n b, acc' !! k <> Some (Reclaiming n b)
          end) as Hk.
  { destruct (acc !! k) as [[m|m b']|] eqn:E; inv_ok; [|by rewrite lookup_insert_eq|congruence].
    intros n b. case_bool_decide; [by rewrite lookup_delete_eq|by rewrite lookup_insert_eq]. }
  constructor; [|done|].
  - intros h k' Hh. destruct (Ia h k' Hh) as (n & Hn & Hj). destruct (decide (k' = k)) as [->|]; [|rewrite Hne by done; eauto].
    rewrite Hn in Hk. destruct Hk as [? ->]. exists (n - 1). split; [done|]. intros j Ej. specialize (Hj j Ej). lia.
  - intros k' n. destruct (decide (k' = k)) as [->|]; [|rewrite Hne by done; eauto]. intros Hn.
    destruct (acc !! k) as [[m|m b]|] eqn:E; [by edestruct Hk| |by edestruct Hk]. destruct Hk as [_ Hk]. rewrite Hk in Hn. simplify_eq. eauto.
Qed.

(** A task starts to reclaim. *)
Lemma permit_begin acc' changes changes' k t T : begin_reclaim k acc changes = Ok (acc', changes') -> ts !! t = None ->
  task_permit T = Some k -> permit_inv acc' (<[t := T]> ts) js.
Proof.
  intros Hb Ht HT. destruct HI as [Ia I1 Io]. unfold begin_reclaim in Hb. unbind Hb as a Ha. unbind Hb as x Hx. simplify_eq.
  assert (exists n, acc' = <[k := Reclaiming n true]> acc /\ forall m, acc !! k <> Some (Reclaiming m true)) as (n & -> & Hno).
  { destruct (acc !! k) as [[m|m []]|]; simplify_eq; eexists; split; try done; congruence. }
  assert (forall h k', permits (<[t := T]> ts) js h k' <-> h = inl t /\ k' = k \/ permits ts js h k') as Hp.
  { intros [t'|j] k'; cbn; [|naive_solver]. rewrite of_task_insert. case_decide; [subst; rewrite HT|naive_solver].
    unfold of_task. rewrite Ht. cbn. naive_solver. }
  assert (forall h, ~ permits ts js h k) as Hnone by (intros h (m & ? & _)%Ia; by eapply Hno).
  constructor.
  - intros h k' [[-> ->]|Hh]%Hp; [exists n; by rewrite lookup_insert_eq|]. destruct (Ia h k' Hh) as (m & ? & ?). exists m.
    rewrite lookup_insert_ne; [done|]. intros <-. by eapply Hnone.
  - intros h h' k' [[-> ->]|H1]%Hp [[-> E]|H2]%Hp; subst; first [done|by eauto|by exfalso; eapply Hnone].
  - intros k' m [[<- ?]|[? Hk]]%lookup_insert_Some; [exists (inl t); apply Hp; auto|]. destruct (Io k' m Hk) as [h ?]. exists h. apply Hp. auto.
Qed.

(** The permit ends: [acc'] is no longer active at the block, and as before elsewhere. *)
Lemma permit_end acc' ts' js' h k : permits ts js h k -> (forall h' k', permits ts' js' h' k' <-> permits ts js h' k' /\ h' <> h) ->
  (forall k', k' <> k -> acc' !! k' = acc !! k') -> (forall n, acc' !! k <> Some (Reclaiming n true)) -> permit_inv acc' ts' js'.
Proof.
  intros Hh Hp Hne Hk. destruct HI as [Ia I1 Io]. constructor.
  - intros h' k' [Hh' Hn]%Hp. assert (k' <> k) by (intros ->; apply Hn; eauto). rewrite Hne by done. auto.
  - intros h1 h2 k' [? _]%Hp [? _]%Hp. eauto.
  - intros k' n Hn. assert (k' <> k) by (intros ->; by eapply Hk). rewrite Hne in Hn by done. destruct (Io k' n Hn) as [h' Hh']. exists h'.
    apply Hp. split; [done|]. intros ->. assert (Some k' = Some k); [|congruence]. destruct h; cbn in *; congruence.
Qed.
End Permits.
