(* ===== verification/WorkerCoreSteps.v ===== *)
(** * Every event keeps the ownership invariant

    One lemma per handler of the worker's data path. *)

From S2P Require Import Prelude Types Errors WorkerTypes Bytes WorkerRuntime WorkerCore WorkerCoreInv.
Local Open Scope Z_scope.

Lemma names_grow pins es ts js n pins' es' ts' js' n' : names pins es ts js n -> (n <= n')%nat ->
  (forall i, is_Some (pins' !! i) -> is_Some (pins !! i) \/ (i < n')%nat) -> (forall i, is_Some (es' !! i) -> is_Some (es !! i) \/ (i < n')%nat) ->
  (forall i, is_Some (ts' !! i) -> is_Some (ts !! i) \/ (i < n')%nat) -> (forall i, is_Some (js' !! i) -> is_Some (js !! i) \/ (i < n')%nat) ->
  names pins' es' ts' js' n'.
Proof.
  intros [He Hj Ht Hp] Hn Hp' He' Ht' Hj'. constructor; intros i Hi.
  - apply He' in Hi as [?%He|]; lia.
  - apply Hj' in Hi as [?%Hj|]; lia.
  - apply Ht' in Hi as [?%Ht|]; lia.
  - apply Hp' in Hi as [?%Hp|]; lia.
Qed.

(** Close the side conditions of [names_grow]. *)
Ltac grown H := eapply (names_grow _ _ _ _ _ _ _ _ _ _ H); cbn; [lia|..]; intros i; rewrite ?lookup_insert_is_Some', ?lookup_delete_is_Some;
  try (destruct H as [He' Hj' Ht' Hp']); intuition (subst; eauto; try lia).

Section Steps.
Context {S : Type}.
Implicit Types (c : Core S) (t e p j : nat).

Lemma task_ok t c T : task t c = Ok T -> co_tasks c !! t = Some T.
Proof. unfold task. by intros ?%ok_or_Ok. Qed.

Lemma entry_ok e c en : lift (entry e (co_registry c)) = Ok en -> rg_entries (co_registry c) !! e = Some en.
Proof. unfold lift, entry. intros H%map_err_Ok%expect_Ok. done. Qed.

(** A task that moves on. *)
Lemma inv_task c t T T' : core_inv c -> co_tasks c !! t = Some T ->
  task_entry T' = task_entry T -> (is_Some (task_entry T') -> task_key T' = task_key T) ->
  (forall e j, task_entry T' = Some e -> guard (co_jobs c) j = Some e -> task_awaits T' = Some j) ->
  (forall s p, task_pin T' s = Some p -> task_pin T s = Some p /\ task_key T' = task_key T) ->
  task_permit T' = task_permit T -> core_inv (set_task t T' c).
Proof.
  intros [Hr Hp Hm Hn] Ht He Hk Ha Hpin Hpm. constructor; cbn.
  - apply reg_task; [done|by rewrite (of_task_lookup _ _ _ _ Ht)|by rewrite (of_task_lookup _ _ _ _ Ht)|done].
  - eapply pin_mono; [done|by eapply pin_counts|]. intros h p k [(s & -> & Hs & Hk')|[? _]]%held_task; [|done].
    apply Hpin in Hs as [Hs E]. exists T. rewrite <- E. done.
  - eapply permit_mono; [done|]. intros [t'|j] k; cbn; [|done]. rewrite of_task_insert. case_decide; [subst|done].
    by rewrite (of_task_lookup _ _ _ _ Ht), Hpm.
  - grown Hn.
Qed.

(** A task that ends, or leaves everything but its name. *)
Lemma inv_leave c t T T' : core_inv c -> co_tasks c !! t = Some T -> task_permit T = None ->
  task_entry T' = None -> task_permit T' = None -> (forall s, task_pin T' s = None) ->
  (forall e k, task_entry T = Some e -> rg_writes (co_registry c) !! k = Some e -> en_retired (ent (rg_entries (co_registry c)) e) = true) ->
  core_inv (set_task t T' c).
Proof.
  intros [Hr Hp Hm Hn] Ht HT HT1 HT2 HT3 Hret. constructor; cbn.
  - apply reg_leave; [done|done|]. intros e k. rewrite (of_task_lookup _ _ _ _ Ht). apply Hret.
  - eapply pin_mono; [done|by eapply pin_counts|]. intros h p k [(s & -> & Hs & _)|[? _]]%held_task; [|done]. by rewrite HT3 in Hs.
  - eapply permit_mono; [done|]. intros [t'|j] k; cbn; [|done]. rewrite of_task_insert. case_decide; [subst|done].
    rewrite (of_task_lookup _ _ _ _ Ht). by rewrite HT, HT2.
  - grown Hn.
Qed.

Lemma inv_fail c t T error : core_inv c -> co_tasks c !! t = Some T -> task_permit T = None -> task_entry T = None ->
  core_inv (set_task t (T_Failed error) c).
Proof. intros Hc Ht HT He. eapply inv_leave; try done; intros; congruence. Qed.

Lemma inv_retire c e : core_inv c -> is_Some (rg_entries (co_registry c) !! e) ->
  core_inv (set_registry (set_entry e (retire_entry (ent (rg_entries (co_registry c)) e)) (co_registry c)) c).
Proof.
  intros [Hr Hp Hm Hn] He. constructor; cbn.
  - by apply reg_retire.
  - eapply pin_mono; [done|by eapply pin_counts|]. intros h p k. by apply held_entry.
  - done.
  - grown Hn.
Qed.

Lemma inv_drop_registration c c' t T e error : core_inv c -> co_tasks c !! t = Some T -> task_entry T = Some e -> task_permit T = None ->
  drop_registration t e error c = Ok c' -> core_inv c'.
Proof.
  intros Hc Ht He HT Hd. unfold drop_registration in Hd. unbind Hd as en Hen. apply entry_ok in Hen. simplify_eq.
  rewrite <- (ent_lookup _ _ _ Hen). eapply inv_leave; [by apply inv_retire; eauto|exact Ht|done|done|done|done|].
  cbn. intros e' k He' _. assert (e' = e) as -> by congruence. by rewrite ent_insert, decide_True.
Qed.

(** A store call under the guard. *)
Lemma inv_spawn_io c c' t T T' e k w : core_inv c -> co_tasks c !! t = Some T -> task_entry T = Some e -> task_key T = Some k ->
  (forall j, guard (co_jobs c) j <> Some e) -> task_permit T = None ->
  spawn_io e w c = Ok (Some c') -> work_guard w = Some e -> work_key w = Some k ->
  task_entry T' = Some e -> task_key T' = Some k -> task_awaits T' = Some (co_next c) -> task_permit T' = None ->
  (forall s p, task_pin T' s = Some p -> task_pin T s = Some p) -> core_inv (set_task t T' c').
Proof.
  intros [Hr Hp Hm Hn] Ht He Hk Hg HT Hs Hw Hwk HT1 HT2 HT3 HT4 HT5. unfold spawn_io in Hs. unbind Hs as en Hen. apply entry_ok in Hen.
  destruct (begin_io en) as [en'|] eqn:Hb; simplify_eq. assert (co_jobs c !! co_next c = None) as Hj.
  { apply eq_None_not_Some. intros Hj%(nm_jobs _ _ _ _ _ Hn). lia. }
  assert (work_pin w = None /\ work_permit w = None) as [Hwp Hwm] by (by destruct w). constructor; cbn.
  - eapply reg_spawn_io; try done; [by rewrite (of_task_lookup _ _ _ _ Ht)|by rewrite (of_task_lookup _ _ _ _ Ht)|by rewrite (ent_lookup _ _ _ Hen)].
  - eapply pin_mono; [done|by eapply pin_counts|]. intros h p k' [(s & -> & Hs & Hk')|[Hh Hne]]%held_task.
    + exists T. split_and!; [done|auto|congruence].
    + apply held_job in Hh as [(w' & -> & [= <-] & ? & _)|[Hh _]]; [congruence|]. eapply held_entry; [|done].
      unfold begin_io in Hb. destruct (en_retired en); simplify_eq. by rewrite (ent_lookup _ _ _ Hen).
  - eapply permit_mono; [done|]. intros [t'|j] k'; cbn.
    + rewrite of_task_insert. case_decide; [subst|done]. rewrite (of_task_lookup _ _ _ _ Ht). by rewrite HT, HT4.
    + rewrite run_insert. case_decide; [subst|done]. unfold run. rewrite Hj. cbn. by rewrite Hwm.
  - grown Hn.
Qed.

Lemma spawn_refused c e w : spawn_io e w c = Ok None -> exists en, rg_entries (co_registry c) !! e = Some en.
Proof. unfold spawn_io. intros Hs. unbind Hs as en Hen. apply entry_ok in Hen. eauto. Qed.

(** No store call runs for a writer that is not waiting for one. *)
Lemma no_guard c t T e : core_inv c -> co_tasks c !! t = Some T -> task_entry T = Some e ->
  (forall j, task_awaits T = Some j -> guard (co_jobs c) j = None) -> forall j, guard (co_jobs c) j <> Some e.
Proof.
  intros Hc Ht He Ha j Hj. pose proof (ri_await _ _ _ _ (co_reg c Hc) t j e) as Hw. rewrite !(of_task_lookup _ _ _ _ Ht) in Hw.
  rewrite (Ha j) in Hj; [done|auto].
Qed.

Lemma answered c j a : answer j c = Ok a -> guard (co_jobs c) j = None.
Proof. unfold answer, guard, run. by destruct (co_jobs c !! j) as [[|]|]. Qed.

Lemma inv_complete c c' t T T' e k : core_inv c -> co_tasks c !! t = Some T -> task_entry T = Some e -> task_key T = Some k ->
  (forall j, guard (co_jobs c) j <> Some e) -> task_permit T = None ->
  task_entry T' = None -> task_permit T' = None -> (forall s, task_pin T' s = None) -> complete t e k T' c = Ok c' -> core_inv c'.
Proof.
  intros Hc Ht He Hk Hg HT HT1 HT2 HT3 Hco. unfold complete in Hco. unbind Hco as [b r] Hr. unfold lift in Hr. apply map_err_Ok in Hr. simplify_eq.
  pose proof (co_reg c Hc) as Hreg. unfold complete_registration, registered in Hr. case_bool_decide as Hw; cbn in Hr.
  - unbind Hr as en Hen. unfold entry in Hen. apply expect_Ok in Hen. pose proof (ent_lookup _ _ _ Hen) as Een. destruct (en_cleanup_running en) eqn:Hrun; simplify_eq.
    + eapply (inv_leave c t T T'); try done. intros e' k' He' Hk'. assert (e' = e) as -> by congruence.
      destruct (ri_cleanup _ _ _ _ Hreg k e Hw) as [j Hj]; [congruence|]. by apply (ri_claim _ _ _ _ Hreg) in Hj as (_ & _ & ? & _).
    + unbind Hr as [] H0. simplify_eq.
      assert (core_inv (set_registry (unregister k e (ent (rg_entries (co_registry c)) e) (co_registry c)) c)) as Hc'.
      { destruct Hc as [_ Hp Hm Hn]. constructor; cbn.
        - apply (reg_unregister _ _ _ _ Hreg); [done|done|]. split_and!; try done; [|apply (ri_claims _ _ _ _ Hreg)].
          intros j k' e'. split; [|by intros []]. intros Hin. split; [done|]. intros ->.
          apply (ri_claim _ _ _ _ Hreg) in Hin as (_ & ? & _). congruence.
        - eapply pin_mono; [done|by eapply pin_counts|]. intros h p k'. by apply held_unregister.
        - done.
        - grown Hn. }
      eapply (inv_leave _ t T T' Hc'); try done. cbn. intros e' k' He' Hk'. assert (e' = e) as -> by congruence. by rewrite ent_insert, decide_True.
  - simplify_eq. eapply (inv_leave c t T T'); try done. intros e' k' He' Hk'. assert (e' = e) as -> by congruence.
    destruct (ri_owner _ _ _ _ Hreg t e) as [_ Ho]; [by rewrite (of_task_lookup _ _ _ _ Ht)|]. apply Ho in Hk' as Ek.
    rewrite (of_task_lookup _ _ _ _ Ht) in Ek. congruence.
Qed.

Lemma inv_abort c c' t T w error : core_inv c -> co_tasks c !! t = Some T -> task_entry T = Some (ab_registration w) ->
  task_key T = Some (write_key (ab_request w)) -> task_permit T = None ->
  (forall j, task_awaits T = Some j -> guard (co_jobs c) j = None) -> abort_write t w error c = Ok c' -> core_inv c'.
Proof.
  intros Hc Ht He Hk HT Ha Hab. pose proof (no_guard c t T _ Hc Ht He Ha) as Hg. unfold abort_write in Hab. unbind Hab as st Hst.
  destruct st as [c1|]; simplify_eq; [|by eapply inv_drop_registration].
  eapply (inv_spawn_io c c1 t T); try done.
Qed.

(** Answers of jobs, in the places the handlers look at them. *)
Ltac inv_handler H :=
  let T := fresh "T" in let HT := fresh "HT" in unbind H as T HT; apply task_ok in HT; destruct T; try done.

Lemma inv_check_reclaiming c c' t : core_inv c -> check_reclaiming t c = Ok c' -> core_inv c'.
Proof.
  intros Hc H. unfold check_reclaiming in H. inv_handler H. destruct (is_reclaiming _ _); simplify_eq.
  - by eapply inv_drop_registration.
  - pose proof (no_guard c t _ _ Hc HT eq_refl ltac:(done)) as Hg. eapply inv_task; try done.
    intros e' j [= <-] Hj. by apply Hg in Hj.
Qed.

Lemma inv_open_write c c' t : core_inv c -> open_write t c = Ok c' -> core_inv c'.
Proof.
  intros Hc H. unfold open_write in H. inv_handler H. unbind H as st Hst. destruct st as [c1|]; simplify_eq; [|by eapply inv_drop_registration].
  pose proof (no_guard c t _ _ Hc HT eq_refl ltac:(done)) as Hg. eapply (inv_spawn_io c c1 t); try done.
Qed.

Lemma inv_opened_write c c' t : core_inv c -> opened_write t c = Ok c' -> core_inv c'.
Proof.
  intros Hc H. unfold opened_write in H. inv_handler H. unbind H as a Ha. apply answered in Ha.
  assert (forall i, guard (co_jobs c) i <> Some e) as Hg by (eapply (no_guard c t _ _ Hc HT eq_refl); by intros ? [= <-]).
  destruct a as [[rep|error|]|]; simplify_eq; [| |by eapply inv_drop_registration].
  - eapply inv_task; try done. intros e' i [= <-] Hi. by apply Hg in Hi.
  - unbind H as st Hst. destruct st as [c1|]; simplify_eq; [|by eapply inv_drop_registration]. eapply (inv_spawn_io c c1 t); try done.
Qed.

Lemma inv_undone_write c c' t : core_inv c -> undone_write t c = Ok c' -> core_inv c'.
Proof.
  intros Hc H. unfold undone_write in H. inv_handler H. unbind H as a Ha. apply answered in Ha.
  assert (forall i, guard (co_jobs c) i <> Some e) as Hg by (eapply (no_guard c t _ _ Hc HT eq_refl); by intros ? [= <-]).
  destruct a as [[rep|error'|]|]; simplify_eq; try by eapply inv_drop_registration.
  by eapply (inv_complete c c' t _ (T_Failed error)).
Qed.

Lemma inv_write_block_data c c' t data : core_inv c -> write_block_data t data c = Ok c' -> core_inv c'.
Proof.
  intros Hc H. unfold write_block_data in H. inv_handler H.
  assert (forall j, guard (co_jobs c) j <> Some (ab_registration w)) as Hg by (eapply (no_guard c t _ _ Hc HT eq_refl); done).
  destruct (check_data w data); simplify_eq; [|by eapply inv_abort].
  unbind H as st Hst. destruct st as [c1|]; simplify_eq; [|by eapply inv_abort]. eapply (inv_spawn_io c c1 t); try done.
Qed.

Lemma inv_written_data c c' t : core_inv c -> written_data t c = Ok c' -> core_inv c'.
Proof.
  intros Hc H. unfold written_data in H. inv_handler H. unbind H as a Ha. apply answered in Ha.
  assert (forall i, guard (co_jobs c) i <> Some (ab_registration w)) as Hg by (eapply (no_guard c t _ _ Hc HT eq_refl); by intros ? [= <-]).
  destruct a as [[rep|error|]|]; simplify_eq; [|eapply inv_abort; try done; by intros ? [= <-]..].
  eapply inv_task; try done. intros e' i [= <-] Hi. by apply Hg in Hi.
Qed.

Lemma inv_finish_block_write c c' t : core_inv c -> finish_block_write t c = Ok c' -> core_inv c'.
Proof.
  intros Hc H. unfold finish_block_write in H. inv_handler H.
  assert (forall j, guard (co_jobs c) j <> Some (ab_registration w)) as Hg by (eapply (no_guard c t _ _ Hc HT eq_refl); done).
  destruct (validate_written_len _ _); simplify_eq; [|by eapply inv_abort].
  unbind H as st Hst. destruct st as [c1|]; simplify_eq; [|by eapply inv_abort]. eapply (inv_spawn_io c c1 t); try done.
Qed.

Lemma inv_finished_write c c' t : core_inv c -> finished_write t c = Ok c' -> core_inv c'.
Proof.
  intros Hc H. unfold finished_write in H. inv_handler H. unbind H as a Ha. apply answered in Ha.
  assert (forall i, guard (co_jobs c) i <> Some (ab_registration w)) as Hg by (eapply (no_guard c t _ _ Hc HT eq_refl); by intros ? [= <-]).
  destruct a as [[rep|error|]|]; simplify_eq; [|eapply inv_abort; try done; by intros ? [= <-]..].
  by eapply (inv_complete c c' t _ (T_Acknowledged w)).
Qed.

Lemma inv_bad_message c c' t error : core_inv c -> bad_message t error c = Ok c' -> core_inv c'.
Proof. intros Hc H. unfold bad_message in H. inv_handler H. by eapply inv_abort. Qed.

Lemma inv_revoked_write c c' t : core_inv c -> revoked_write t c = Ok c' -> core_inv c'.
Proof.
  intros Hc H. unfold revoked_write in H. inv_handler H. unbind H as en Hen. destruct (en_retired en); [|done]. by eapply inv_abort.
Qed.

Lemma inv_aborted_write c c' t : core_inv c -> aborted_write t c = Ok c' -> core_inv c'.
Proof.
  intros Hc H. unfold aborted_write in H. inv_handler H. unbind H as a Ha. apply answered in Ha.
  assert (forall i, guard (co_jobs c) i <> Some (ab_registration w)) as Hg by (eapply (no_guard c t _ _ Hc HT eq_refl); by intros ? [= <-]).
  destruct a as [[rep|error'|]|]; simplify_eq; try by eapply inv_drop_registration.
  by eapply (inv_complete c c' t _ (T_Failed error)).
Qed.

(** *** New tasks and pins *)

Lemma fresh_task c : core_inv c -> co_tasks c !! co_next c = None.
Proof. intros [_ _ _ Hn]. apply eq_None_not_Some. intros Ht%(nm_tasks _ _ _ _ _ Hn). lia. Qed.
Lemma fresh_job c : core_inv c -> co_jobs c !! co_next c = None.
Proof. intros [_ _ _ Hn]. apply eq_None_not_Some. intros Ht%(nm_jobs _ _ _ _ _ Hn). lia. Qed.
Lemma fresh_pin c : core_inv c -> co_pins c !! co_next c = None.
Proof. intros [_ _ _ Hn]. apply eq_None_not_Some. intros Ht%(nm_pins _ _ _ _ _ Hn). lia. Qed.
Lemma fresh_entry c : core_inv c -> rg_entries (co_registry c) !! co_next c = None.
Proof. intros [_ _ _ Hn]. apply eq_None_not_Some. intros Ht%(nm_entries _ _ _ _ _ Hn). lia. Qed.

(** A task with a new pin. *)
Lemma inv_pin_task c c' k T : core_inv c -> pin_for (HTask (co_next c) false) k c = Ok c' ->
  task_entry T = None -> task_permit T = None -> task_key T = Some k -> task_pin T false = Some (co_next c) -> task_pin T true = None ->
  core_inv (set_task (co_next c) T c').
Proof.
  intros Hc Hp HT1 HT2 HT3 HT4 HT5. pose proof (fresh_task c Hc) as Ht. pose proof (fresh_pin c Hc) as Hpin.
  unfold pin_for in Hp. unbind Hp as a Ha. unfold lift in Ha. apply map_err_Ok in Ha. simplify_eq. destruct Hc as [Hr Hpi Hm Hn]. constructor; cbn.
  - apply reg_leave; [done|done|]. unfold of_task. rewrite Ht. done.
  - eapply pin_new; [done|done|done|]. intros h p k' [(s & -> & Hs & Hk')|[Hh _]]%held_task; [left|by right].
    destruct s; [congruence|]. split_and!; congruence.
  - eapply permit_mono; [by eapply permit_pin|]. intros [t'|j] k'; cbn; [|done]. rewrite of_task_insert. case_decide; [subst|done].
    unfold of_task. rewrite Ht. cbn. by rewrite HT2.
  - grown Hn.
Qed.

Lemma inv_write_block c c' r : core_inv c -> write_block r c = Ok c' -> core_inv c'.
Proof.
  intros Hc H. unfold write_block in H. unbind H as [] Hv. unbind H as c1 Hp. simplify_eq. by eapply inv_pin_task.
Qed.

(** A second handle for the task. *)
Lemma inv_authorized c c' t visible : core_inv c -> authorized t visible c = Ok c' -> core_inv c'.
Proof.
  intros Hc H. unfold authorized in H. inv_handler H. destruct (_ <? _); simplify_eq; [by eapply inv_fail|].
  apply fmap_Ok in H as (c1 & Ho & <-). unfold own in Ho. unbind Ho as x Hx. simplify_eq. destruct Hc as [Hr Hp Hm Hn]. constructor; cbn.
  - apply reg_leave; [done|done|]. by rewrite (of_task_lookup _ _ _ _ HT).
  - eapply (pin_own _ _ _ _ _ _ Hp); [done|set_solver|]. destruct (pi_held _ _ _ _ _ _ Hp (HTask t false) pin (write_key r)) as (x' & Hx' & Hk & Hin);
      [by exists (T_Authorizing r pin)|]. assert (x' = x) as -> by congruence.
    intros h p' k [(s & -> & Hs & Hk')|[Hh Hne]]%held_task.
    + left. destruct s; simplify_eq/=; (split_and!; [done|congruence|set_solver]).
    + destruct (decide (p' = pin)) as [->|]; [left|by right]. destruct (pi_held _ _ _ _ _ _ Hp _ _ _ Hh) as (x' & ? & ? & ?).
      assert (x' = x) as -> by congruence. split_and!; [done|done|set_solver].
  - eapply permit_mono; [done|]. intros [t'|j] k'; cbn; [|done]. rewrite of_task_insert. case_decide; [subst|done]. by rewrite (of_task_lookup _ _ _ _ HT).
  - grown Hn.
Qed.

Lemma inv_not_authorized c c' t error : core_inv c -> not_authorized t error c = Ok c' -> core_inv c'.
Proof. intros Hc H. unfold not_authorized in H. inv_handler H. simplify_eq. by eapply inv_fail. Qed.

Lemma inv_register_write c c' t : core_inv c -> register_write t c = Ok c' -> core_inv c'.
Proof.
  intros Hc H. unfold register_write in H. inv_handler H. unbind H as o Ho. unfold lift in Ho. apply map_err_Ok in Ho. unfold register in Ho.
  pose proof (fresh_entry c Hc) as He. pose proof (fresh_task c Hc) as Hft. destruct (rg_writes (co_registry c) !! write_key r) as [old|] eqn:Hw.
  - unbind Ho as en Hen. unfold entry in Hen. apply expect_Ok in Hen. destruct (_ <=? _) eqn:Hlt in Ho; simplify_eq; [by eapply inv_fail|].
    rewrite <- (ent_lookup _ _ _ Hen). apply inv_retire; eauto.
  - simplify_eq. unfold own in H. unbind H as x Hx. simplify_eq/=. destruct Hc as [Hr Hp Hm Hn].
    assert (co_next c <> t) as Hne by (intros <-; congruence). constructor; cbn.
    + apply reg_register; try done. by rewrite (of_task_lookup _ _ _ _ HT).
    + eapply (pin_own _ _ _ _ _ _ Hp); [done|set_solver|]. destruct (pi_held _ _ _ _ _ _ Hp (HTask t false) pin (write_key r)) as (x' & Hx' & Hk & Hin);
        [by exists (T_Registering r visible pin)|]. assert (x' = x) as -> by congruence.
      intros h p' k [(s & -> & Hs & Hk')|[Hh Ht]]%held_task.
      * left. destruct s; simplify_eq/=. split_and!; [done|congruence|].
        destruct (pi_held _ _ _ _ _ _ Hp (HTask t true) p' (write_key r)) as (x' & ? & ? & ?); [by exists (T_Registering r visible p')|].
        assert (x' = x) as -> by congruence. set_solver.
      * assert (h = HEntry (co_next c) /\ p' = pin /\ k = write_key r \/
          held (rg_entries (co_registry c)) (rg_writes (co_registry c)) (co_tasks c) (co_jobs c) h p' k) as [(-> & -> & ->)|Hh'].
        { destruct h as [t' s|e|j]; cbn in *; [by right| |by right]. destruct Hh as [Hk' Hpin].
          apply lookup_insert_Some in Hk' as [[<- <-]|[? Hk']]; [left; rewrite ent_insert, decide_True in Hpin by done; by simplify_eq/=|right].
          split; [done|]. rewrite ent_insert, decide_False in Hpin; [done|]. intros <-. apply (ri_pin _ _ _ _ Hr) in Hk'.
          rewrite (no_entry _ _ He) in Hk'. by destruct Hk'. }
        -- left. split_and!; [done|done|set_solver].
        -- destruct (decide (p' = pin)) as [->|]; [left|by right]. destruct (pi_held _ _ _ _ _ _ Hp _ _ _ Hh') as (x' & ? & ? & ?).
           assert (x' = x) as -> by congruence. split_and!; [done|done|]. specialize (Ht false). set_solver.
    + eapply permit_mono; [done|]. intros [t'|j] k'; cbn; [|done]. rewrite of_task_insert. case_decide; [subst|done]. by rewrite (of_task_lookup _ _ _ _ HT).
    + grown Hn.
Qed.

(** *** Reads *)

(** A job that borrows the pin of a task. *)
Lemma inv_borrow c c' t T T' p w : core_inv c -> co_tasks c !! t = Some T -> task_entry T = None -> task_permit T = None ->
  task_pin T false = Some p -> work_pin w = Some p -> work_key w = task_key T ->
  own p (fun o => o ∪ {[HJob (co_next c)]}) (spawn w c) = Ok c' ->
  task_entry T' = None -> task_permit T' = None -> task_key T' = task_key T -> is_Some (task_key T) ->
  (forall s q, task_pin T' s = Some q -> task_pin T s = Some q) ->
  core_inv (set_task t T' c').
Proof.
  intros Hc Ht HT1 HT2 HT3 Hw1 Hw2 Ho HT1' HT2' HT3' [k Hk] Hpin. pose proof (fresh_job c Hc) as Hj.
  unfold own in Ho. unbind Ho as x Hx. simplify_eq/=. destruct Hc as [Hr Hp Hm Hn].
  assert (work_guard w = None /\ work_claims w = [] /\ work_permit w = None) as (Hg & Hcl & Hwm) by (by destruct w).
  assert (guard (co_jobs c) (co_next c) = None /\ claims (co_jobs c) (co_next c) = []) as [Hgj Hcj] by (unfold guard, claims, run; by rewrite Hj).
  destruct (pi_held _ _ _ _ _ _ Hp (HTask t false) p k) as (x' & Hx' & Hxk & Hin); [by exists T|]. assert (x' = x) as -> by congruence.
  constructor; cbn.
  - apply reg_leave; [by apply reg_job|done|]. rewrite (of_task_lookup _ _ _ _ Ht). by rewrite HT1.
  - eapply (pin_own _ _ _ _ _ _ Hp); [done|set_solver|].
    assert (forall h q k', held (rg_entries (co_registry c)) (rg_writes (co_registry c)) (co_tasks c) (co_jobs c) h q k' ->
      q = p /\ k' = bp_key x /\ h ∈ bp_owners x ∪ {[HJob (co_next c)]} \/ q <> p /\
      held (rg_entries (co_registry c)) (rg_writes (co_registry c)) (co_tasks c) (co_jobs c) h q k') as Hold.
    { intros h q k' Hh. destruct (decide (q = p)) as [->|]; [left|by right]. destruct (pi_held _ _ _ _ _ _ Hp _ _ _ Hh) as (x' & ? & ? & ?).
      assert (x' = x) as -> by congruence. split_and!; [done|done|set_solver]. }
    intros h q k' [(s & -> & Hs & Hk')|[Hh _]]%held_task.
    + apply Hold. exists T. split_and!; [done|auto|congruence].
    + apply held_job in Hh as [(w' & -> & [= <-] & Hq & Hk')|[Hh _]]; [left|by apply Hold]. split_and!; [congruence|congruence|set_solver].
  - eapply permit_mono; [done|]. intros [t'|j] k'; cbn.
    + rewrite of_task_insert. case_decide; [subst|done]. rewrite (of_task_lookup _ _ _ _ Ht). by rewrite HT2, HT2'.
    + rewrite run_insert. case_decide; [subst|done]. unfold run. rewrite Hj. cbn. by rewrite Hwm.
  - grown Hn.
Qed.

Lemma inv_begin_block_read c c' f r : core_inv c -> begin_block_read f r c = Ok c' -> core_inv c'.
Proof.
  intros Hc H. unfold begin_block_read in H. unbind H as frame Hf. unbind H as [] Hv. unbind H as c1 Hp.
  apply fmap_Ok in H as (c2 & Ho & <-). set (T0 := T_Validating r frame (co_next c) (co_next c1)).
  pose proof (inv_pin_task c c1 (read_key r) T0 Hc Hp eq_refl eq_refl eq_refl eq_refl eq_refl) as Hc1.
  assert (own (co_next c) (fun o => o ∪ {[HJob (co_next c1)]}) (spawn (W_Validate (co_next c) r) (set_task (co_next c) T0 c1)) =
    Ok (set_task (co_next c) T0 c2)) as Ho'.
  { unfold own in *. unbind Ho as x Hx. simplify_eq. cbn in *. by rewrite Hx. }
  assert (core_inv (set_task (co_next c) T0 (set_task (co_next c) T0 c2))) as Hc2.
  { eapply (inv_borrow _ _ _ T0 T0 (co_next c) (W_Validate (co_next c) r) Hc1); try done; first [by cbn; rewrite lookup_insert_eq|by eexists]. }
  unfold set_task in Hc2. cbn in Hc2. by rewrite insert_insert_eq in Hc2.
Qed.

Lemma inv_validated_read c c' t : core_inv c -> validated_read t c = Ok c' -> core_inv c'.
Proof.
  intros Hc H. unfold validated_read in H. inv_handler H. unbind H as a Ha. destruct a as [[rep|error|]|]; simplify_eq; try by eapply inv_fail.
  destruct (range_end r); simplify_eq; [|by eapply inv_fail]. by eapply inv_task.
Qed.

Lemma inv_read_block_chunk c c' t : core_inv c -> read_block_chunk t c = Ok c' -> core_inv c'.
Proof.
  intros Hc H. unfold read_block_chunk in H. inv_handler H. destruct (_ <=? _); simplify_eq; [by eapply inv_leave|].
  apply fmap_Ok in H as (c2 & Ho & <-). eapply (inv_borrow c c2 t (T_Sending a)); try done.
  all: first [reflexivity|by eexists].
Qed.

Lemma inv_returned_chunk c c' t : core_inv c -> returned_chunk t c = Ok c' -> core_inv c'.
Proof.
  intros Hc H. unfold returned_chunk in H. inv_handler H. unbind H as rep Ha. destruct rep as [[rep|error|]|]; simplify_eq; try by eapply inv_fail.
  destruct rep; simplify_eq. case_bool_decide; simplify_eq; [by eapply inv_fail|]. destruct (checked_add64 _ _); simplify_eq; [|by eapply inv_fail].
  by eapply inv_task.
Qed.

(** *** Pins go *)

Lemma inv_drop_pin c c' p h : core_inv c -> drop_pin p h c = Ok c' -> core_inv c'.
Proof.
  intros Hc H. unfold drop_pin in H. unbind H as x Hx. unbind H as [] Hh. apply orb_false_iff in Hh as [Hin Hh]. destruct Hc as [Hr Hp Hm Hn].
  assert (forall k, ~ held (rg_entries (co_registry c)) (rg_writes (co_registry c)) (co_tasks c) (co_jobs c) h p k) as Hnot.
  { intros k Hk. destruct h as [t s|e|j]; cbn in *.
    - destruct Hk as (T & HT & Hs & _). rewrite HT in Hh. by bool_prop.
    - destruct Hk as [Hw He]. unfold ent in He. destruct (_ !! e); [|done]. by bool_prop.
    - destruct Hk as (w & Hw & Hs & _). unfold run in Hw. destruct (_ !! j) as [[]|]; simplify_eq. by bool_prop. }
  case_bool_decide as Hrest.
  - unbind H as a Ha. unfold lift in Ha. apply map_err_Ok in Ha. simplify_eq. constructor; cbn; [done|by eapply pin_drop|by eapply permit_unpin|grown Hn].
  - simplify_eq. constructor; cbn; [done| |done|grown Hn]. eapply (pin_own _ _ _ _ _ _ Hp); [done|done|]. intros h' p' k Hh'.
    destruct (decide (p' = p)) as [->|]; [left|by right]. destruct (pi_held _ _ _ _ _ _ Hp _ _ _ Hh') as (x' & ? & ? & ?).
    assert (x' = x) as -> by congruence. split_and!; [done|done|]. assert (h' <> h) by (intros ->; by eapply Hnot). set_solver.
Qed.

(** *** Reclamation *)

(** Access that counts the same pins. *)
Lemma counts_reclaiming acc pins k n b : counts acc pins -> n = tally pins k -> counts (<[k := Reclaiming n b]> acc) pins.
Proof. intros Hc Hn. by eapply counts_insert. Qed.

Lemma counts_begin acc acc' ch ch' pins k : counts acc pins -> begin_reclaim k acc ch = Ok (acc', ch') -> counts acc' pins.
Proof.
  intros Hc Hb. unfold begin_reclaim in Hb. unbind Hb as a Ha. unbind Hb as x Hx. simplify_eq. specialize (Hc k) as Hk.
  destruct (acc !! k) as [[m|m []]|]; simplify_eq; apply counts_reclaiming; try done; try lia; by destruct Hk.
Qed.

Lemma counts_release acc pins k : counts acc pins -> counts (release_reclaim_operation k acc) pins.
Proof.
  intros Hc. unfold release_reclaim_operation. specialize (Hc k) as Hk. destruct (acc !! k) as [[m|m b]|]; [done| |done]. by apply counts_reclaiming.
Qed.

Lemma counts_complete acc acc' ch ch' pins k : counts acc pins -> complete_reclaim k acc ch = Ok (acc', ch') -> counts acc' pins.
Proof.
  intros Hc Hb. unfold complete_reclaim in Hb. unbind Hb as a Ha. unbind Hb as x Hx. simplify_eq. specialize (Hc k) as Hk.
  destruct (acc !! k) as [[m|m b]|]; simplify_eq; [done| |done]. case_bool_decide; simplify_eq. by eapply counts_delete.
Qed.

Lemma inv_reclaim_start c c' k : core_inv c -> reclaim_start k c = Ok c' -> core_inv c'.
Proof.
  intros Hc H. pose proof (fresh_task c Hc) as Ht. unfold reclaim_start in H. unbind H as [a ch] Hb. unfold lift in Hb. apply map_err_Ok in Hb. simplify_eq.
  destruct Hc as [Hr Hp Hm Hn]. constructor; cbn.
  - apply reg_leave; [done|done|]. unfold of_task. by rewrite Ht.
  - eapply pin_mono; [done|eapply counts_begin; [by eapply pin_counts|done]|]. intros h p k' [(s & -> & Hs & _)|[? _]]%held_task; [by destruct s|done].
  - by eapply permit_begin.
  - grown Hn.
Qed.

Lemma inv_reclaim_retire c c' t : core_inv c -> reclaim_retire t c = Ok c' -> core_inv c'.
Proof.
  intros Hc H. unfold reclaim_retire in H. inv_handler H. unbind H as r Hr. unfold lift in Hr. apply map_err_Ok in Hr. simplify_eq.
  assert (core_inv (set_registry r c)) as Hc'.
  { unfold retire_key in Hr. destruct (rg_writes _ !! k) as [e|]; [|simplify_eq; by destruct c]. unbind Hr as en Hen.
    unfold entry in Hen. apply expect_Ok in Hen. simplify_eq. rewrite <- (ent_lookup _ _ _ Hen). apply inv_retire; eauto. }
  by eapply (inv_task _ t (T_Reclaim k) (T_Draining k) Hc').
Qed.

Lemma inv_reclaim_drained c c' t : core_inv c -> reclaim_drained t c = Ok c' -> core_inv c'.
Proof.
  intros Hc H. unfold reclaim_drained in H. inv_handler H. case_bool_decide as H0; simplify_eq. pose proof (fresh_job c Hc) as Hj.
  assert (guard (co_jobs c) (co_next c) = None /\ claims (co_jobs c) (co_next c) = []) as [Hgj Hcj] by (unfold guard, claims, run; by rewrite Hj).
  destruct Hc as [Hr Hp Hm Hn]. constructor; cbn.
  - apply reg_leave; [by apply reg_job|done|]. by rewrite (of_task_lookup _ _ _ _ HT).
  - eapply pin_mono; [done|by eapply pin_counts|]. intros h p k' [(s & -> & Hs & _)|[Hh _]]%held_task; [by destruct s|].
    by apply held_job in Hh as [(w & -> & [= <-] & ? & _)|[Hh _]].
  - destruct Hm as [Ia I1 Io]. assert (permits (co_tasks c) (co_jobs c) (inl t) k) as Hk by (cbn; by rewrite (of_task_lookup _ _ _ _ HT)).
    assert (forall h k', permits (<[t := T_Reclaiming k (co_next c)]> (co_tasks c)) (<[co_next c := Running (W_Reclaim k.1 k.2)]> (co_jobs c)) h k' <->
      h = inr (co_next c) /\ k' = k \/ permits (co_tasks c) (co_jobs c) h k' /\ h <> inl t) as Hpm.
    { intros [t'|j] k'; cbn.
      - rewrite of_task_insert. case_decide; [subst; cbn; naive_solver|naive_solver].
      - rewrite run_insert. case_decide; [subst; cbn|naive_solver]. unfold run. rewrite Hj. cbn. destruct k. cbn. naive_solver. }
    constructor.
    + intros h k' [[-> ->]|[Hh Hne]]%Hpm; [|auto]. destruct (Ia _ _ Hk) as (n & Hn' & _). exists n. split; [done|]. intros j _.
      unfold waiting_pins in H0. rewrite Hn' in H0. done.
    + intros h h' k' [[-> ->]|[Hh Hne]]%Hpm [[-> E]|[Hh' Hne']]%Hpm; subst; [done| | |by eauto]; exfalso; [apply Hne'|apply Hne]; eauto.
    + intros k' n Hk'. destruct (Io k' n Hk') as [h Hh]. destruct (decide (h = inl t)) as [->|].
      * exists (inr (co_next c)). apply Hpm. left. split; [done|]. cbn in Hh. rewrite (of_task_lookup _ _ _ _ HT) in Hh. cbn in Hh. congruence.
      * exists h. apply Hpm. auto.
  - grown Hn.
Qed.

(** The permit goes with its owner. *)
Lemma release_ends acc k : (forall k', k' <> k -> release_reclaim_operation k acc !! k' = acc !! k') /\
  (forall n, release_reclaim_operation k acc !! k <> Some (Reclaiming n true)).
Proof.
  unfold release_reclaim_operation. destruct (acc !! k) as [[m|m b]|] eqn:E; (split; [intros k' Hne|intros n]); try done; try congruence.
  - by rewrite lookup_insert_ne.
  - by rewrite lookup_insert_eq.
Qed.

Lemma inv_cancel c c' t : core_inv c -> cancel t c = Ok c' -> core_inv c'.
Proof.
  intros Hc H. unfold cancel in H. unbind H as T HT. apply task_ok in HT. destruct (between_awaits T); [done|].
  destruct (task_entry T) as [e|] eqn:He.
  - eapply inv_drop_registration; try done. by destruct T.
  - destruct (task_permit T) as [k|] eqn:Hk; simplify_eq; [|by eapply inv_fail]. destruct Hc as [Hr Hp Hm Hn].
    destruct (release_ends (co_access c) k) as [Hne Hend]. constructor; cbn.
    + apply reg_leave; [done|done|]. rewrite (of_task_lookup _ _ _ _ HT). by rewrite He.
    + eapply pin_mono; [done|apply counts_release; by eapply pin_counts|]. intros h p k' [(s & -> & Hs & _)|[? _]]%held_task; [by destruct s|done].
    + eapply (permit_end _ _ _ Hm _ _ _ (inl t) k); [cbn; by rewrite (of_task_lookup _ _ _ _ HT)| |done|done].
      intros [t'|j] k'; cbn; [|naive_solver]. rewrite of_task_insert. case_decide; [subst; cbn; naive_solver|naive_solver].
    + grown Hn.
Qed.

(** *** The cleaner *)

Lemma take_batch_inv n drain ts js j r sel out r' :
  reg_inv (rg_entries r) (rg_writes r) ts (<[j := Running (W_Cleanup sel)]> js) -> take_batch n drain r = Ok (out, r') ->
  reg_inv (rg_entries r') (rg_writes r') ts (<[j := Running (W_Cleanup (sel ++ out))]> js) /\ rg_writes r' = rg_writes r /\
  (forall e, en_pin (ent (rg_entries r') e) = en_pin (ent (rg_entries r) e)) /\ (forall e, is_Some (rg_entries r' !! e) -> is_Some (rg_entries r !! e)).
Proof.
  revert r sel out. induction n as [|n IH]; intros r sel out Hr Ht; cbn in Ht.
  - destruct (rg_order r); simplify_eq; by rewrite app_nil_r.
  - destruct (rg_order r) as [|k rest] eqn:Eo; [simplify_eq; by rewrite app_nil_r|]. destruct (rg_writes r !! k) as [e|] eqn:Hk.
    + unbind Ht as en Hen. unfold entry in Hen. apply expect_Ok in Hen. destruct (retire_and_claim_cleanup drain en) as [cl en'] eqn:Hc.
      unbind Ht as [out' r1] Hr1. simplify_eq. pose proof (ent_lookup _ _ _ Hen) as Een.
      assert (en_pin en' = en_pin en) as Hpin.
      { unfold retire_and_claim_cleanup in Hc. by destruct drain; cbn in Hc; destruct (_ || _) in Hc; simplify_eq. }
      eapply (IH _ (sel ++ if cl then [(k, e)] else [])) in Hr1 as (H1 & H2 & H3 & H4); cbn.
      * split_and!; [by rewrite <- app_assoc in H1|done| |].
        -- intros e'. rewrite H3. cbn. rewrite ent_insert. case_decide; congruence.
        -- intros e' He'%H4. cbn in He'. apply lookup_insert_is_Some' in He' as [<-|?]; eauto.
      * destruct cl.
        -- rewrite <- (insert_insert_eq js j _ (Running (W_Cleanup sel))). eapply reg_claim; [done|done|by rewrite lookup_insert_eq|by rewrite Een].
        -- rewrite app_nil_r. assert (en' = en \/ en' = retire_entry en) as [->| ->].
           { unfold retire_and_claim_cleanup in Hc. destruct drain; cbn in Hc; destruct (_ || _) in Hc; simplify_eq; auto. }
           ++ by rewrite insert_id.
           ++ rewrite <- Een. by apply reg_retire.
    + by eapply IH in Ht.
Qed.

Lemma inv_cleanup_batch c c' drain : core_inv c -> cleanup_batch drain c = Ok c' -> core_inv c'.
Proof.
  intros Hc H. pose proof (fresh_job c Hc) as Hj. unfold cleanup_batch in H. unbind H as [cs r] Hb. unfold lift in Hb. apply map_err_Ok in Hb.
  assert (guard (co_jobs c) (co_next c) = None /\ claims (co_jobs c) (co_next c) = []) as [Hgj Hcj] by (unfold guard, claims, run; by rewrite Hj).
  destruct Hc as [Hr Hp Hm Hn]. eapply take_batch_inv in Hb as (H1 & H2 & H3 & H4); [|by apply (reg_job _ _ _ _ Hr (co_next c) (Running (W_Cleanup [])))].
  cbn in H1. assert (pin_inv (co_access c) (co_pins c) (rg_entries r) (rg_writes r) (co_tasks c) (co_jobs c)) as Hp'.
  { eapply pin_mono; [done|by eapply pin_counts|]. intros [t s|e|j] p k; cbn; try done. rewrite H2, H3. done. }
  case_bool_decide as Hcs; simplify_eq; constructor; cbn; try done.
  - eapply reg_ext; [exact H1|..]; intros j.
    + rewrite guard_insert. case_decide; [subst; cbn; congruence|done].
    + intros [e He]. rewrite run_insert. rewrite guard_insert in He. by case_decide.
    + rewrite claims_insert. case_decide; [subst; cbn; congruence|done].
  - grown Hn.
  - eapply pin_mono; [done|by eapply pin_counts|]. intros h p k [(w & -> & [= <-] & ? & _)|[? _]]%held_job; done.
  - eapply permit_mono; [done|]. intros [t'|j] k'; cbn; [done|]. rewrite run_insert. case_decide; [subst|done]. unfold run. by rewrite Hj.
  - grown Hn.
Qed.

(** A candidate is done with; [J] is the job with the candidates that remain. *)
Lemma inv_cleaned c c' j k e rest ok J : core_inv c -> co_jobs c !! j = Some (Running (W_Cleanup ((k, e) :: rest))) ->
  cleaned k e ok c = Ok c' -> match J with Running w => w = W_Cleanup rest | Ended _ => rest = [] end -> core_inv (set_job j J c').
Proof.
  intros Hc Hj Hcl HJ. pose proof (co_reg c Hc) as Hr. assert (claims (co_jobs c) j = (k, e) :: rest) as Ec by (unfold claims, run; by rewrite Hj).
  assert ((k, e) ∈ claims (co_jobs c) j) as Hin by (rewrite Ec; left). pose proof (ri_claim _ _ _ _ Hr j k e Hin) as (Hk & Hrun & Hret & H0).
  assert (forall i, guard (co_jobs c) i <> Some e) as Hg by (intros i Hi; apply (ri_guard _ _ _ _ Hr) in Hi as (_ & ? & _); lia).
  assert (match J with Running w => work_guard w = None /\ work_pin w = None /\ work_permit w = None | Ended _ => True end) as HJ' by (by destruct J; subst).
  assert (claims (<[j := J]> (co_jobs c)) j = rest) as EJ by (rewrite claims_insert, decide_True by done; by destruct J; subst).
  assert (unclaims (co_jobs c) (<[j := J]> (co_jobs c)) e) as Hun.
  { assert (guard (co_jobs c) j = None) as Hgj by (unfold guard, run; by rewrite Hj). pose proof (ri_claims _ _ _ _ Hr j) as Hnd.
    rewrite Ec in Hnd. cbn in Hnd. apply NoDup_cons in Hnd as [Hnot Hnd]. split_and!.
    - intros i. rewrite guard_insert. case_decide; [|done]. replace i with j. rewrite Hgj. by destruct J as [w|]; [apply HJ'|].
    - intros i [? Hi]. rewrite run_insert, decide_False; [done|congruence].
    - intros i k' e'. destruct (decide (i = j)) as [->|].
      + rewrite EJ, Ec, elem_of_cons. split; [|by intros [[[= -> ->]|?] ?]]. intros Hi. split; [auto|]. intros ->.
        apply Hnot. apply list_elem_of_fmap. by exists (k', e).
      + rewrite claims_insert, decide_False by done. split; [|by intros []]. intros Hi. split; [done|]. intros ->.
        by assert (i = j) by (by eapply (ri_claim1 _ _ _ _ Hr)).
    - intros i. destruct (decide (i = j)) as [->|]; [by rewrite EJ|]. rewrite claims_insert, decide_False by done. apply (ri_claims _ _ _ _ Hr). }
  unfold cleaned in Hcl. unbind Hcl as [b r] Hb. unbind Hcl as r' Hr'. simplify_eq. destruct Hc as [_ Hp Hm Hn].
  assert (forall es ws, (forall h p k, held es ws (co_tasks c) (co_jobs c) h p k -> held (rg_entries (co_registry c)) (rg_writes (co_registry c)) (co_tasks c) (co_jobs c) h p k) ->
    pin_inv (co_access c) (co_pins c) es ws (co_tasks c) (<[j := J]> (co_jobs c))) as Hpin.
  { intros es ws Hes. eapply pin_mono; [done|by eapply pin_counts|]. intros h p k' [(w & -> & -> & Hw & _)|[Hh _]]%held_job; [|auto]. destruct HJ' as (_ & ? & _). congruence. }
  assert (permit_inv (co_access c) (co_tasks c) (<[j := J]> (co_jobs c))) as Hpm.
  { eapply permit_mono; [done|]. intros [t'|i] k'; cbn; [done|]. rewrite run_insert. case_decide; [subst|done]. unfold run. rewrite Hj.
    destruct J as [w|]; [|done]. cbn. destruct HJ' as (_ & _ & ->). done. }
  destruct (rg_entries (co_registry c) !! e) as [en|] eqn:Hen; [|unfold ent in Hrun; by rewrite Hen in Hrun]. pose proof (ent_lookup _ _ _ Hen) as Een.
  assert (registered k e (co_registry c) = true) as Hreg by (by apply bool_decide_eq_true_2). destruct ok.
  - unfold lift in Hb. apply map_err_Ok in Hb. unfold remove_exact in Hb. rewrite Hreg in Hb. cbn in Hb. unfold entry in Hb. rewrite Hen in Hb. cbn in Hb.
    unbind Hb as [] Hz. simplify_eq/=. constructor; cbn; [|apply Hpin; intros ? ? ?; by apply held_unregister|done|grown Hn].
    by eapply reg_unregister.
  - simplify_eq. unfold lift in Hr'. apply map_err_Ok in Hr'. unfold release_cleanup_claim in Hr'. rewrite Hreg in Hr'. unfold entry in Hr'.
    rewrite Hen in Hr'. cbn in Hr'. unbind Hr' as en' Hen'. simplify_eq.
    constructor; cbn; [|apply Hpin; intros ? ? ?; apply held_entry|done|grown Hn].
    + by eapply reg_unclaim.
    + unfold release_cleanup in Hen'. unbind Hen' as [] Hz. by simplify_eq.
Qed.

Lemma set_job_twice j J J' c : set_job j J (set_job j J' c) = set_job j J c.
Proof. unfold set_job. cbn. by rewrite insert_insert_eq. Qed.

Lemma cleaned_job k e ok j J c c' : cleaned k e ok c = Ok c' -> cleaned k e ok (set_job j J c) = Ok (set_job j J c').
Proof.
  unfold cleaned. intros H. unbind H as [b r] Hb. unbind H as r' Hr'. simplify_eq. cbn [co_registry set_job].
  rewrite Hb. cbn. by rewrite Hr'.
Qed.

Lemma drop_claims_job cs j J c c' : drop_claims cs c = Ok c' -> drop_claims cs (set_job j J c) = Ok (set_job j J c').
Proof.
  revert c. induction cs as [|[k e] cs IH]; intros c H; cbn [drop_claims] in *; [by simplify_eq|]. unbind H as c1 Hc1.
  rewrite (cleaned_job _ _ _ _ _ _ _ Hc1). cbn. auto.
Qed.

Lemma inv_drop_claims c c' j cs : core_inv c -> co_jobs c !! j = Some (Running (W_Cleanup cs)) -> drop_claims cs c = Ok c' ->
  core_inv (set_job j (Ended None) c').
Proof.
  revert c c'. induction cs as [|[k e] cs IH]; intros c c' Hc Hj H; cbn [drop_claims] in H.
  - simplify_eq. destruct Hc as [Hr Hp Hm Hn]. constructor; cbn.
    + apply reg_job; [done|unfold guard, run; by rewrite Hj|unfold claims, run; by rewrite Hj|done].
    + eapply pin_mono; [done|by eapply pin_counts|]. by intros h p k [(w & -> & ? & _)|[? _]]%held_job.
    + eapply permit_mono; [done|]. intros [t'|i] k'; cbn; [done|]. rewrite run_insert. case_decide; [subst|done]. unfold run. by rewrite Hj.
    + grown Hn.
  - unbind H as c1 Hc1. pose proof (inv_cleaned c c1 j k e cs false (Running (W_Cleanup cs)) Hc Hj Hc1 eq_refl) as Hi.
    apply (drop_claims_job _ j (Running (W_Cleanup cs))) in H. eapply IH in H; [|done|by cbn; rewrite lookup_insert_eq].
    by rewrite set_job_twice in H.
Qed.

(** A guarded call that ends. *)
Lemma inv_guard_end c c' j w e a : core_inv c -> co_jobs c !! j = Some (Running w) -> work_guard w = Some e -> drop_guard e c = Ok c' ->
  core_inv (set_job j (Ended a) c').
Proof.
  intros [Hr Hp Hm Hn] Hj Hw H. assert (guard (co_jobs c) j = Some e) as Hg by (unfold guard, run; by rewrite Hj).
  unfold drop_guard in H. unbind H as en Hen. apply entry_ok in Hen. unbind H as en' Hen'. unfold lift in Hen'. apply map_err_Ok in Hen'. simplify_eq.
  assert (work_permit w = None) as Hwm by (by destruct w). pose proof (ent_lookup _ _ _ Hen) as Een.
  constructor; cbn.
  - eapply reg_end_guard; [done|done|by rewrite Een].
  - eapply pin_mono; [done|by eapply pin_counts|]. intros h p k [(w' & -> & ? & _)|[Hh _]]%held_job; [done|]. eapply held_entry; [|done].
    unfold end_io in Hen'. unbind Hen' as x Hx. simplify_eq. done.
  - eapply permit_mono; [done|]. intros [t'|i] k'; cbn; [done|]. rewrite run_insert. case_decide; [subst|done]. unfold run. rewrite Hj. cbn. by rewrite Hwm.
  - grown Hn.
Qed.

(** A call under a pin that ends. *)
Lemma inv_pin_end c j w a : core_inv c -> co_jobs c !! j = Some (Running w) -> is_Some (work_pin w) -> core_inv (set_job j (Ended a) c).
Proof.
  intros [Hr Hp Hm Hn] Hj [p Hw]. assert (work_permit w = None /\ work_guard w = None /\ work_claims w = []) as (Hwm & Hg & Hcl) by (by destruct w).
  constructor; cbn.
  - apply reg_job; [done|unfold guard, run; by rewrite Hj|unfold claims, run; by rewrite Hj|done].
  - eapply pin_mono; [done|by eapply pin_counts|]. by intros h p' k [(w' & -> & ? & _)|[? _]]%held_job.
  - eapply permit_mono; [done|]. intros [t'|i] k'; cbn; [done|]. rewrite run_insert. case_decide; [subst|done]. unfold run. rewrite Hj. cbn. by rewrite Hwm.
  - grown Hn.
Qed.

(** A reclamation that ends, with the access it leaves. *)
Lemma inv_reclaim_end c j g b a acc : core_inv c -> co_jobs c !! j = Some (Running (W_Reclaim g b)) -> counts acc (co_pins c) ->
  (forall k', k' <> (g, b) -> acc !! k' = co_access c !! k') -> (forall n, acc !! (g, b) <> Some (Reclaiming n true)) ->
  core_inv (set_job j (Ended a) (set_access acc c)).
Proof.
  intros [Hr Hp Hm Hn] Hj Hcnt Hne Hk. constructor; cbn.
  - apply reg_job; [done|unfold guard, run; by rewrite Hj|unfold claims, run; by rewrite Hj|done].
  - eapply pin_mono; [done|done|]. by intros h p' k [(w' & -> & ? & _)|[? _]]%held_job.
  - eapply (permit_end _ _ _ Hm _ _ _ (inr j) (g, b)); [cbn; unfold run; by rewrite Hj| |done|done].
    intros [t'|i] k'; cbn; [naive_solver|]. rewrite run_insert. case_decide; [subst; cbn; naive_solver|naive_solver].
  - grown Hn.
Qed.

Lemma inv_changes c x : core_inv c -> core_inv (set_changes x c).
Proof. by intros []. Qed.
Lemma inv_store c s : core_inv c -> core_inv (set_store s c).
Proof. by intros []. Qed.

Lemma inv_job_ended c c' j reply s : core_inv c -> job_ended j reply s c = Ok c' -> core_inv c'.
Proof.
  intros Hc H. unfold job_ended in H. destruct (co_jobs c !! j) as [[w|]|] eqn:Hj; [|done..]. pose proof (inv_store c s Hc) as Hc'.
  change (co_jobs (set_store s c) !! j = Some (Running w)) in Hj. set (d := set_store s c) in *. clearbody d.
  destruct w; try (apply fmap_Ok in H as (c1 & Hd & <-); by eapply inv_guard_end).
  - simplify_eq. eapply inv_pin_end; [done|done|by eexists].
  - simplify_eq. eapply inv_pin_end; [done|done|by eexists].
  - destruct (is_ok reply).
    + unbind H as [a ch] Hb. unfold lift in Hb. apply map_err_Ok in Hb. simplify_eq. apply (inv_changes (set_job j (Ended (Some reply)) (set_access a d)) ch).
      eapply inv_reclaim_end; [done|done|eapply counts_complete; [by eapply pin_counts, co_pin|done]|..].
      all: unfold complete_reclaim in Hb; unbind Hb as a' Ha'; unbind Hb as x Hx; simplify_eq.
      all: destruct (co_access d !! (g, b)) as [[m|m bb]|] eqn:Ea; simplify_eq; try done; try congruence; case_bool_decide; simplify_eq.
      * intros k' Hne. by rewrite lookup_delete_ne.
      * intros n. by rewrite lookup_delete_eq.
    + simplify_eq. destruct (release_ends (co_access d) (g, b)). eapply inv_reclaim_end; [done|done|apply counts_release; by eapply pin_counts, co_pin|done|done].
  - destruct candidates as [|[k e] rest]; [done|]. unbind H as c1 Hcl. simplify_eq. eapply inv_cleaned; [done|done|done|]. by case_bool_decide.
Qed.

Lemma inv_job_lost c c' j : core_inv c -> job_lost j c = Ok c' -> core_inv c'.
Proof.
  intros Hc H. unfold job_lost in H. destruct (co_jobs c !! j) as [[w|]|] eqn:Hj; [|done..]. apply fmap_Ok in H as (c1 & Hd & <-).
  destruct w; try by eapply inv_guard_end.
  - simplify_eq. eapply inv_pin_end; [done|done|by eexists].
  - simplify_eq. eapply inv_pin_end; [done|done|by eexists].
  - simplify_eq. destruct (release_ends (co_access c) (g, b)). eapply inv_reclaim_end; [done|done|apply counts_release; by eapply pin_counts, co_pin|done|done].
  - by eapply inv_drop_claims.
Qed.

Lemma inv_idle up n (s : S) : core_inv (idle up n s).
Proof.
  assert (forall k, tally ∅ k = 0) as H0 by (intros k; unfold tally; by rewrite map_filter_empty).
  constructor; cbn; constructor.
  all: try (by intros ? [? ?]); try (by intros ? ? ?); try (by intros ? [] ?).
  - done.
  - by intros j k e ?%elem_of_nil.
  - by intros j j' k k' e ?%elem_of_nil.
  - intros j. constructor.
  - apply H0.
  - by intros [t s'|e|j] p k; [intros (T & ? & _)|intros [? _]|intros (w & ? & _)].
  - by intros [t|j] k.
Qed.

(** ** The whole system *)

Lemma inv_handle f ev c c' : core_inv c -> handle f ev c = Ok c' -> core_inv c'.
Proof.
  intros Hc. destruct ev; cbn [handle];
  [by apply inv_write_block|by apply inv_authorized|by apply inv_not_authorized|by apply inv_register_write|by apply inv_check_reclaiming|
   by apply inv_open_write|by apply inv_opened_write|by apply inv_undone_write|by apply inv_write_block_data|by apply inv_written_data|
   by apply inv_finish_block_write|by apply inv_finished_write|by apply inv_bad_message|by apply inv_revoked_write|by apply inv_aborted_write|
   by apply inv_begin_block_read|by apply inv_validated_read|by apply inv_read_block_chunk|by apply inv_returned_chunk|by apply inv_reclaim_start|
   by apply inv_reclaim_retire|by apply inv_reclaim_drained|by apply inv_cancel|by apply inv_cleanup_batch|by apply inv_drop_pin|
   by apply inv_job_ended|by apply inv_job_lost].
Qed.
End Steps.

Section Reach.
Context {S : Type} `{!LocalBlockStore S} (f : Frames) (allowed : StoreCall -> Prop).

Lemma inv_step (c c' : Core S) : core_inv c -> core_step f allowed c c' -> core_inv c'.
Proof. intros Hc [ev ? _ _ Hh| | | | |]; [by eapply inv_handle|by apply inv_store|apply inv_idle..]. Qed.

Lemma inv_reach (c c' : Core S) : core_inv c -> core_reach f allowed c c' -> core_inv c'.
Proof. intros Hc Hr. induction Hr as [|c c1 c' Hs Hr IH]; [done|]. apply IH. by eapply inv_step. Qed.
End Reach.
