(* ===== verification/WorkerCoreProps.v ===== *)
(** * What the worker's data path promises

    Store calls on one block do not overlap where they must not, whatever the RPCs, the
    cleaner and the reclaimers do and wherever they are cancelled, and no assertion of
    the registries fails. *)

From S2P Require Import Prelude Types Errors SessionProps WorkerTypes Bytes WorkerRuntime WorkerCore WorkerCoreInv WorkerCoreSteps.
Local Open Scope Z_scope.

(** The blocks a job changes through the store, and those it uses. *)
Definition changed (w : Work) : list (string * BlockId) :=
  match w with
  | W_Open _ r => [(ob_group_name r, ob_block_id r)]
  | W_Write _ g b _ _ | W_Discard _ g b | W_Reclaim g b => [(g, b)]
  | W_Checkpoint _ r => [(ck_group_name r, ck_block_id r)]
  | W_Validate _ _ | W_Read _ _ _ _ _ => []
  | W_Cleanup cs => cs.*1
  end.
Definition used (w : Work) : list (string * BlockId) :=
  match w with W_Validate _ r => [read_key r] | W_Read _ g b _ _ => [(g, b)] | _ => changed w end.

Section Exclusion.
Context {S : Type} (c : Core S) (Hc : core_inv c).

(** A job that changes a block reclaims it, or acts for the entry registered for it. *)
Lemma changed_by j w k : run (co_jobs c) j = Some w -> k ∈ changed w ->
  work_permit w = Some k \/ exists e, rg_writes (co_registry c) !! k = Some e /\ (guard (co_jobs c) j = Some e \/ (k, e) ∈ claims (co_jobs c) j).
Proof.
  intros Hw Hk. pose proof (co_reg c Hc) as Hr.
  assert (forall e, work_guard w = Some e -> work_key w = Some k -> exists e, rg_writes (co_registry c) !! k = Some e /\
    (guard (co_jobs c) j = Some e \/ (k, e) ∈ claims (co_jobs c) j)) as Hguard.
  { intros e He Hk'. exists e. assert (guard (co_jobs c) j = Some e) as Hg by (unfold guard; by rewrite Hw).
    split; [|by left]. destruct (ri_guard _ _ _ _ Hr j e Hg) as ((k' & E & ?) & _). rewrite Hw in E. cbn in E. congruence. }
  destruct w; cbn in Hk; try (apply list_elem_of_singleton in Hk; subst); try (by right; eapply Hguard); [by apply elem_of_nil in Hk..|by left|].
  right. apply list_elem_of_fmap in Hk as ([k' e] & -> & Hin). exists e. assert ((k', e) ∈ claims (co_jobs c) j) as Hcl by (unfold claims; by rewrite Hw).
  split; [|by right]. by apply (ri_claim _ _ _ _ Hr) in Hcl as [? _].
Qed.

(** A registered entry keeps its block from being reclaimed. *)
Lemma pinned_not_reclaimed j k h p : run (co_jobs c) j ≫= work_permit = Some k ->
  ~ held (rg_entries (co_registry c)) (rg_writes (co_registry c)) (co_tasks c) (co_jobs c) h p k.
Proof.
  intros Hj Hh. destruct (pm_active _ _ _ (co_permit c Hc) (inr j) k Hj) as (n & Hn & H0). specialize (H0 j eq_refl). subst n.
  destruct (pi_held _ _ _ _ _ _ (co_pin c Hc) h p k Hh) as (x & Hx & Hk & _). pose proof (tally_pos _ _ _ Hx) as Hpos. rewrite Hk in Hpos.
  pose proof (pi_count _ _ _ _ _ _ (co_pin c Hc) k) as Hcnt. rewrite Hn in Hcnt. lia.
Qed.

Lemma registered_not_reclaimed j k e : run (co_jobs c) j ≫= work_permit = Some k -> rg_writes (co_registry c) !! k <> Some e.
Proof.
  intros Hj Hk. destruct (ri_pin _ _ _ _ (co_reg c Hc) k e Hk) as [p Hp]. by eapply (pinned_not_reclaimed j k (HEntry e) p).
Qed.

Lemma changed_once j j' w w' k : run (co_jobs c) j = Some w -> run (co_jobs c) j' = Some w' -> k ∈ changed w -> k ∈ changed w' -> j = j'.
Proof.
  intros Hw Hw' Hk Hk'. pose proof (co_reg c Hc) as Hr. destruct (changed_by j w k Hw Hk) as [Hp|(e & He & Hg)], (changed_by j' w' k Hw' Hk') as [Hp'|(e' & He' & Hg')].
  - assert (inr (A := nat) j = inr j') as [= ?]; [|done]. eapply (pm_one _ _ _ (co_permit c Hc)); cbn; [rewrite Hw|rewrite Hw']; done.
  - exfalso. eapply (registered_not_reclaimed j); [by rewrite Hw|done].
  - exfalso. eapply (registered_not_reclaimed j'); [by rewrite Hw'|done].
  - assert (e' = e) as -> by congruence. destruct Hg as [Hg|Hg], Hg' as [Hg'|Hg'].
    + by eapply (ri_guard1 _ _ _ _ Hr).
    + apply (ri_guard _ _ _ _ Hr) in Hg as (_ & _ & ?). apply (ri_claim _ _ _ _ Hr) in Hg' as (_ & ? & _). congruence.
    + apply (ri_guard _ _ _ _ Hr) in Hg' as (_ & _ & ?). apply (ri_claim _ _ _ _ Hr) in Hg as (_ & ? & _). congruence.
    + by eapply (ri_claim1 _ _ _ _ Hr).
Qed.

Lemma reclaimed_alone j j' w w' k : run (co_jobs c) j = Some w -> run (co_jobs c) j' = Some w' -> work_permit w = Some k -> k ∈ used w' -> j = j'.
Proof.
  intros Hw Hw' Hp Hk. assert (run (co_jobs c) j ≫= work_permit = Some k) as Hj by (by rewrite Hw).
  assert (k ∈ changed w) as Hch by (destruct w; simplify_eq/=; by left).
  destruct w'; cbn in Hk; try (by eapply changed_once); exfalso; apply list_elem_of_singleton in Hk; subst.
  - eapply (pinned_not_reclaimed j _ (HJob j') pin Hj). eexists. split_and!; [exact Hw'|done|done].
  - eapply (pinned_not_reclaimed j _ (HJob j') pin Hj). eexists. split_and!; [exact Hw'|done|done].
Qed.
End Exclusion.

(** C-EXCLUSIVE. Exclusive access to blocks: however RPCs, cancellations, takeovers,
    cleanup passes, reclamations and restarts of a worker interleave, no two blocking
    jobs change the same block at the same time, a cleanup job has each of its blocks
    once, and while a block is reclaimed no other job reads or changes it, no write is
    registered for it and no task holds a pin of it. *)
Theorem block_access_exclusive {S} `{!LocalBlockStore S} f s c : core_reach f any_call (idle false 0 s) c ->
  (forall j j' w w' k, run (co_jobs c) j = Some w -> run (co_jobs c) j' = Some w' -> k ∈ changed w -> k ∈ changed w' -> j = j') /\
  (forall j w, run (co_jobs c) j = Some w -> NoDup (changed w)) /\
  (forall j g b, run (co_jobs c) j = Some (W_Reclaim g b) ->
     (forall j' w', run (co_jobs c) j' = Some w' -> (g, b) ∈ used w' -> j' = j) /\
     rg_writes (co_registry c) !! (g, b) = None /\
     (forall t T second, co_tasks c !! t = Some T -> task_key T = Some (g, b) -> task_pin T second = None)).
Proof.
  intros Hr. pose proof (inv_reach f any_call _ _ (inv_idle false 0 s) Hr) as Hc. split_and!.
  - intros j j' w w' k. by apply changed_once.
  - intros j w Hw. destruct w; cbn; try apply NoDup_singleton; try apply NoDup_nil_2.
    pose proof (ri_claims _ _ _ _ (co_reg c Hc) j) as Hnd. assert (claims (co_jobs c) j = candidates) as Ec by (unfold claims; by rewrite Hw).
    rewrite Ec in Hnd. apply NoDup_fmap_2_strong; [|by eapply NoDup_fmap_1]. intros [k e] [k' e'] H1 H2 E. cbn in E.
    rewrite <- Ec in H1, H2. apply (ri_claim _ _ _ _ (co_reg c Hc)) in H1 as [? _], H2 as [? _]. congruence.
  - intros j g b Hw. split_and!.
    + intros j' w' Hw' Hk. symmetry. eapply (reclaimed_alone c Hc); [exact Hw|exact Hw'|done|done].
    + apply eq_None_not_Some. intros [e He]. eapply (registered_not_reclaimed c Hc j); [by rewrite Hw|done].
    + intros t T s' HT Hk. apply eq_None_not_Some. intros [p Hp]. eapply (pinned_not_reclaimed c Hc j (g, b) (HTask t s') p); [by rewrite Hw|].
      by exists T.
Qed.

(** ** No assertion fails *)

(** The counters of the source have room. *)
Definition has_room {S} (c : Core S) : Prop :=
  (forall k, tally (co_pins c) k < u64_max) /\ (forall g, 0 <= gc_revision (changes_of (co_changes c) g) < u64_max).

Definition answers_ok (js : gmap nat Job) : Prop := forall j r, js !! j = Some (Ended (Some r)) -> r <> Panic.

Section NoPanic.
Context {S : Type} (c : Core S) (Hc : core_inv c) (Hroom : has_room c) (Hans : answers_ok (co_jobs c)).

Lemma np_lift {A} (r : result WorkerError A) : r <> Panic -> lift r <> Panic.
Proof. by destruct r. Qed.
Lemma np_entry e : is_Some (rg_entries (co_registry c) !! e) -> lift (entry e (co_registry c)) <> Panic.
Proof. unfold entry. by intros [en ->]. Qed.
Lemma np_task t : task t c <> Panic.
Proof. unfold task. by destruct (_ !! t). Qed.
Lemma np_answer j : answer j c <> Panic.
Proof. unfold answer. by destruct (_ !! j) as [[]|]. Qed.
Lemma np_answered j a : answer j c = Ok (Some a) -> a <> Panic.
Proof. unfold answer. destruct (_ !! j) as [[|o]|] eqn:E; try done. intros [= ->]. by eapply Hans. Qed.

Lemma owned_entry t T e : co_tasks c !! t = Some T -> task_entry T = Some e -> is_Some (rg_entries (co_registry c) !! e).
Proof. intros Ht He. apply (ri_owner _ _ _ _ (co_reg c Hc) t e). by rewrite (of_task_lookup _ _ _ _ Ht). Qed.
Lemma written_entry k e : rg_writes (co_registry c) !! k = Some e -> is_Some (rg_entries (co_registry c) !! e).
Proof. intros Hk%(ri_pin _ _ _ _ (co_reg c Hc)). unfold ent in Hk. destruct (_ !! e); [eauto|by destruct Hk]. Qed.

Lemma np_drop_registration t T e error : co_tasks c !! t = Some T -> task_entry T = Some e -> drop_registration t e error c <> Panic.
Proof. intros Ht He. unfold drop_registration. apply np_bind; [by eapply np_entry, owned_entry|done]. Qed.
Lemma np_spawn_io t T e w : co_tasks c !! t = Some T -> task_entry T = Some e -> spawn_io e w c <> Panic.
Proof. intros Ht He. unfold spawn_io. apply np_bind; [by eapply np_entry, owned_entry|done]. Qed.
Lemma np_abort t T w error : co_tasks c !! t = Some T -> task_entry T = Some (ab_registration w) -> abort_write t w error c <> Panic.
Proof.
  intros Ht He. unfold abort_write. apply np_bind; [by eapply np_spawn_io|]. intros [c1|] _; [done|by eapply np_drop_registration].
Qed.

Lemma np_complete t T T' e k : co_tasks c !! t = Some T -> task_entry T = Some e -> (forall j, task_awaits T = Some j -> guard (co_jobs c) j = None) ->
  complete t e k T' c <> Panic.
Proof.
  intros Ht He Ha. unfold complete. apply np_bind; [|by intros []]. apply np_lift. unfold complete_registration. destruct (registered _ _ _); [|done]. cbn.
  destruct (owned_entry t T e Ht He) as [en Hen]. unfold entry. rewrite Hen. cbn. destruct (en_cleanup_running en); [done|].
  assert (en_inflight en = 0) as ->; [|done]. destruct (decide (en_inflight en = 0)); [done|exfalso].
  destruct (ri_flight _ _ _ _ (co_reg c Hc) e) as [j Hj]; [by rewrite (ent_lookup _ _ _ Hen)|]. by eapply (no_guard c t T e Hc Ht He Ha).
Qed.

Lemma np_own_task t T s p f (c' : Core S) : co_tasks c !! t = Some T -> task_pin T s = Some p -> is_Some (task_key T) -> co_pins c' = co_pins c -> own p f c' <> Panic.
Proof.
  intros Ht Hp [k Hk] E. destruct (pi_held _ _ _ _ _ _ (co_pin c Hc) (HTask t s) p k) as (x & Hx & _); [by exists T|].
  unfold own. rewrite E, Hx. done.
Qed.

Lemma np_pin_for h k : pin_for h k c <> Panic.
Proof.
  unfold pin_for. apply np_bind; [|done]. apply np_lift. unfold pin_block. pose proof (pi_count _ _ _ _ _ _ (co_pin c Hc) k) as Hk.
  destruct Hroom as [Ht _]. specialize (Ht k). destruct (co_access c !! k) as [[n|n b]|]; [|done..]. unfold checked_add64.
  rewrite bool_decide_eq_true_2; [done|lia].
Qed.

Lemma np_record g b : record_change g b (co_changes c) <> Panic.
Proof.
  destruct Hroom as [_ Hg]. specialize (Hg g). unfold record_change. set (r := gc_revision _) in *.
  assert (checked_add64 r 1 = Some (r + 1)) as -> by (apply checked_add64_Some; lia). done.
Qed.

Lemma np_drop_pin p h : drop_pin p h c <> Panic.
Proof.
  unfold drop_pin. apply np_bind; [auto with np|]. intros x Hx. apply ok_or_Ok in Hx. apply np_bind; [auto with np|]. intros [] _.
  case_bool_decide; [|done]. apply np_bind; [|done]. destruct (release_counted (co_access c) (co_pins c) p x) as [a ->]; [by eapply pin_counts, co_pin|done|done].
Qed.

Lemma np_take_batch n drain r : (forall k e, rg_writes r !! k = Some e -> is_Some (rg_entries r !! e)) -> take_batch n drain r <> Panic.
Proof.
  revert r. induction n as [|n IH]; intros r Hr; cbn; [by destruct (rg_order r)|]. destruct (rg_order r) as [|k rest]; [done|].
  destruct (rg_writes r !! k) as [e|] eqn:Hk; [|by apply IH]. destruct (Hr k e Hk) as [en Hen]. unfold entry. rewrite Hen. cbn.
  destruct (retire_and_claim_cleanup drain en) as [cl en']. apply np_bind; [|by intros []]. apply IH. cbn. intros k' e' Hk'.
  apply lookup_insert_is_Some'. eauto.
Qed.

Lemma np_cleaned k e ok j : (k, e) ∈ claims (co_jobs c) j -> cleaned k e ok c <> Panic.
Proof.
  intros Hin. destruct (ri_claim _ _ _ _ (co_reg c Hc) j k e Hin) as (Hk & Hrun & _ & H0). destruct (written_entry k e Hk) as [en Hen].
  rewrite (ent_lookup _ _ _ Hen) in Hrun, H0. assert (registered k e (co_registry c) = true) as Hreg by (by apply bool_decide_eq_true_2).
  unfold cleaned, remove_exact, release_cleanup_claim, entry. destruct ok; cbn; rewrite Hreg, Hen; cbn; [by rewrite H0|]. unfold release_cleanup. by rewrite Hrun.
Qed.

Lemma np_drop_guard j w e : co_jobs c !! j = Some (Running w) -> work_guard w = Some e -> drop_guard e c <> Panic.
Proof.
  intros Hj Hw. assert (guard (co_jobs c) j = Some e) as Hg by (unfold guard, run; by rewrite Hj).
  destruct (ri_guard _ _ _ _ (co_reg c Hc) j e Hg) as ((k & _ & Hk) & H1 & _). destruct (written_entry k e Hk) as [en Hen].
  unfold drop_guard, entry. rewrite Hen. cbn. rewrite (ent_lookup _ _ _ Hen) in H1. unfold end_io. by rewrite H1.
Qed.

Lemma np_complete_reclaim j g b : co_jobs c !! j = Some (Running (W_Reclaim g b)) -> complete_reclaim (g, b) (co_access c) (co_changes c) <> Panic.
Proof.
  intros Hj. destruct (pm_active _ _ _ (co_permit c Hc) (inr j) (g, b)) as (n & Hn & H0); [cbn; unfold run; by rewrite Hj|].
  unfold complete_reclaim. rewrite Hn, (H0 j eq_refl), bool_decide_eq_true_2 by done. cbn. apply np_bind; [apply np_record|done].
Qed.

Lemma np_begin_reclaim k : begin_reclaim k (co_access c) (co_changes c) <> Panic.
Proof.
  unfold begin_reclaim. apply np_bind; [by destruct (_ !! k) as [[|? []]|]|]. intros a _. apply np_bind; [apply np_record|done].
Qed.
End NoPanic.

(** Cleaning one candidate leaves the claims and what the others need. *)
Lemma np_drop_claims {S} (c : Core S) j cs : core_inv c -> co_jobs c !! j = Some (Running (W_Cleanup cs)) -> drop_claims cs c <> Panic.
Proof.
  revert c. induction cs as [|[k e] cs IH]; intros c Hc Hj; cbn [drop_claims]; [done|]. apply np_bind.
  - eapply (np_cleaned c Hc k e false j). unfold claims, run. rewrite Hj. left.
  - intros c1 Hc1. pose proof (inv_cleaned c c1 j k e cs false (Running (W_Cleanup cs)) Hc Hj Hc1 eq_refl) as Hi.
    assert (drop_claims cs (set_job j (Running (W_Cleanup cs)) c1) <> Panic) as Hn by (apply IH; [done|by cbn; rewrite lookup_insert_eq]).
    clear - Hn. revert c1 Hn. generalize (W_Cleanup cs) as w. induction cs as [|[k e] cs IH]; intros w c1 Hn; cbn [drop_claims] in *; [done|].
    destruct (cleaned k e false c1) as [c2|[]|] eqn:E; cbn.
    + rewrite (cleaned_job _ _ _ _ _ _ _ E) in Hn. cbn in Hn. by eapply IH.
    + done.
    + exfalso. apply Hn. unfold cleaned in E |- *. cbn in E |- *.
      destruct (lift (release_cleanup_claim k e (co_registry c1))) as [r|[]|] eqn:E'; rewrite ?E' in *; cbn in E; done.
Qed.


(** The task and, where it waits for one, the answer of its job. *)
Ltac np_handler := apply np_bind; [apply np_task|]; let T := fresh "T" in let HT := fresh "HT" in intros T HT; apply task_ok in HT; destruct T; try done.

Lemma np_check_data w data : check_data w data <> Panic.
Proof. unfold check_data. no_panic. Qed.
Lemma np_written_len n len : validate_written_len n len <> Panic.
Proof. unfold validate_written_len, validate_effective_len. apply np_map_err. no_panic. Qed.

Section Handlers.
Context {S : Type} (c : Core S) (Hc : core_inv c) (Hroom : has_room c) (Hans : answers_ok (co_jobs c)).

Ltac np_reply := apply np_bind; [apply np_answer|]; let a := fresh "a" in let Ha := fresh "Ha" in intros a Ha; pose proof (answered c _ _ Ha);
  destruct a as [[?|?|]|]; try done; try (by apply (np_answered c Hans) in Ha).

Lemma np_writes t : register_write t c <> Panic /\ check_reclaiming t c <> Panic /\ open_write t c <> Panic /\ opened_write t c <> Panic /\ undone_write t c <> Panic.
Proof.
  split_and!.
  - unfold register_write. np_handler. apply np_bind.
    + apply np_lift. unfold register. destruct (rg_writes _ !! _) as [old|] eqn:Hw; [|done]. destruct (written_entry c Hc _ _ Hw) as [en Hen].
      unfold entry. rewrite Hen. done.
    + intros o _. destruct o; [done..|]. eapply (np_own_task c Hc t _ false); [exact HT|done|by eexists|done].
  - unfold check_reclaiming. np_handler. destruct (is_reclaiming _ _); [|done]. by eapply np_drop_registration.
  - unfold open_write. np_handler. apply np_bind; [by eapply np_spawn_io|]. intros [c1|] _; [done|by eapply np_drop_registration].
  - unfold opened_write. np_handler. np_reply; [|by eapply np_drop_registration].
    apply np_bind; [by eapply np_spawn_io|]. intros [c1|] _; [done|by eapply np_drop_registration].
  - unfold undone_write. np_handler. np_reply; [|by eapply np_drop_registration..]. eapply np_complete; [done|done|done|]. by intros ? [= <-].
Qed.

Lemma np_streams t data error : write_block_data t data c <> Panic /\ written_data t c <> Panic /\ finish_block_write t c <> Panic /\
  finished_write t c <> Panic /\ bad_message t error c <> Panic /\ revoked_write t c <> Panic /\ aborted_write t c <> Panic.
Proof.
  split_and!.
  - unfold write_block_data. np_handler. destruct (check_data w data) as [stop|e|] eqn:E; [|by eapply np_abort|].
    + apply np_bind; [by eapply np_spawn_io|]. intros [c1|] _; [done|by eapply np_abort].
    + by apply np_check_data in E.
  - unfold written_data. np_handler. np_reply; by eapply np_abort.
  - unfold finish_block_write. np_handler. destruct (validate_written_len _ _) as [stop|e|] eqn:E; [|by eapply np_abort|].
    + apply np_bind; [by eapply np_spawn_io|]. intros [c1|] _; [done|by eapply np_abort].
    + by apply np_written_len in E.
  - unfold finished_write. np_handler. np_reply; [|by eapply np_abort..]. eapply np_complete; [done|done|done|]. by intros ? [= <-].
  - unfold bad_message. np_handler. by eapply np_abort.
  - unfold revoked_write. np_handler. apply np_bind; [by eapply np_entry, owned_entry|]. intros en _. destruct (en_retired en); [|done]. by eapply np_abort.
  - unfold aborted_write. np_handler. np_reply; [|by eapply np_drop_registration..]. eapply np_complete; [done|done|done|]. by intros ? [= <-].
Qed.

Lemma np_reads f r t : begin_block_read f r c <> Panic /\ validated_read t c <> Panic /\ read_block_chunk t c <> Panic /\ returned_chunk t c <> Panic.
Proof.
  assert (forall r, range_end r <> Panic) as Hend by (intros r'; apply np_ok_or). split_and!.
  - unfold begin_block_read. apply np_bind; [apply np_lift; unfold negotiate_read_frame_size; no_panic|]. intros frame _. apply np_bind.
    { apply np_lift. unfold validate_read_request. apply np_bind; [apply np_map_err, np_block_shape_new|]. intros ? _. apply np_bind; [done|intros; apply np_reject]. }
    intros [] _. apply np_bind; [by apply np_pin_for|]. intros c1 Hp. unfold pin_for in Hp. unbind Hp as a Ha. simplify_eq. unfold own. cbn.
    by rewrite lookup_insert_eq.
  - unfold validated_read. np_handler. np_reply. destruct (range_end r0) eqn:E; [done..|by apply Hend in E].
  - unfold read_block_chunk. np_handler. destruct (_ <=? _); [done|]. match goal with |- fmap _ ?m <> _ => assert (m <> Panic) as Hm; [|by destruct m] end.
    eapply (np_own_task c Hc t _ false); [exact HT|done|by eexists|done].
  - unfold returned_chunk. np_handler. np_reply. destruct a0; try done. case_bool_decide; [done|]. by destruct (checked_add64 _ _).
Qed.
End Handlers.

Lemma np_job_ended {S} (c : Core S) j reply s : core_inv c -> has_room c -> job_ended j reply s c <> Panic.
Proof.
  intros Hc Hroom. unfold job_ended. destruct (co_jobs c !! j) as [[w|]|] eqn:Hj; [|done..]. pose proof (inv_store c s Hc) as Hc'.
  change (has_room (set_store s c)) in Hroom. change (co_jobs (set_store s c) !! j = Some (Running w)) in Hj. set (d := set_store s c) in *. clearbody d.
  assert (forall e, work_guard w = Some e -> forall J, set_job j J <$> drop_guard e d <> Panic) as Hg.
  { intros e He J. pose proof (np_drop_guard d Hc' j w e Hj He) as Hn. by destruct (drop_guard e d). }
  destruct w; try (by eapply Hg); try done.
  - destruct (is_ok reply); [|done]. apply np_bind; [|by intros []]. apply np_lift. by eapply np_complete_reclaim.
  - destruct candidates as [|[k e] rest]; [done|]. apply np_bind; [|done]. eapply (np_cleaned d Hc' k e _ j). unfold claims, run. rewrite Hj. left.
Qed.

Lemma np_job_lost {S} (c : Core S) j : core_inv c -> job_lost j c <> Panic.
Proof.
  intros Hc. unfold job_lost. destruct (co_jobs c !! j) as [[w|]|] eqn:Hj; [|done..].
  match goal with |- fmap _ ?m <> _ => assert (m <> Panic) as Hm; [|by destruct m] end.
  destruct w; try (by eapply np_drop_guard); try done. by eapply np_drop_claims.
Qed.

Lemma np_handle {S} f (c : Core S) ev : core_inv c -> has_room c -> answers_ok (co_jobs c) -> handle f ev c <> Panic.
Proof.
  intros Hc Hroom Hans. pose proof (np_writes c Hc Hans) as Hw. pose proof (np_streams c Hc Hans) as Hs. pose proof (np_reads c Hc Hroom Hans) as Hrd.
  destruct ev; cbn [handle]; try (by apply Hw); try (by apply (Hs _ [] join_error)); try (by apply (Hs _ data join_error)); try (by apply (Hs _ [] error)).
  all: try (by apply (Hrd f (mk_ReadBlockRequest EmptyString (mk_BlockId 0 0) 0 0 0 0 0 0 0) t)).
  - unfold write_block. apply np_bind; [|intros [] _; apply np_bind; [by apply np_pin_for|done]]. apply np_lift. unfold validate_write_block_request, validate_block_shape.
    apply np_bind; [apply np_reject|]. intros [] _. apply np_bind; [apply np_map_err, np_block_shape_new|intros; apply np_reject].
  - unfold authorized. np_handler. destruct (_ <? _); [done|]. match goal with |- fmap _ ?m <> _ => assert (m <> Panic) as Hm; [|by destruct m] end.
    eapply (np_own_task c Hc t _ false); [exact HT|done|by eexists|done].
  - unfold not_authorized. np_handler.
  - apply (Hrd f r 0%nat).
  - unfold reclaim_start. apply np_bind; [|by intros []]. apply np_lift. by apply np_begin_reclaim.
  - unfold reclaim_retire. np_handler. apply np_bind; [|done]. apply np_lift. unfold retire_key. destruct (rg_writes _ !! k) as [e|] eqn:Hk; [|done].
    destruct (written_entry c Hc k e Hk) as [en Hen]. unfold entry. by rewrite Hen.
  - unfold reclaim_drained. np_handler. by case_bool_decide.
  - unfold cancel. apply np_bind; [apply np_task|]. intros T HT. apply task_ok in HT. destruct (between_awaits T); [done|].
    destruct (task_entry T) eqn:He; [by eapply np_drop_registration|]. by destruct (task_permit T).
  - unfold cleanup_batch. apply np_bind; [|by intros []]. apply np_lift. apply np_take_batch. apply (written_entry c Hc).
  - by apply np_drop_pin.
  - by apply np_job_ended.
  - by apply np_job_lost.
Qed.

(** ** Jobs of a step *)

Ltac crack := repeat match goal with
  | H : mbind _ _ = Ok _ |- _ => apply bind_Ok in H as (? & ? & ?)
  | H : fmap _ _ = Ok _ |- _ => apply fmap_Ok in H as (? & ? & ?)
  | H : Ok _ = Ok _ |- _ => injection H as H
  | H : Err _ = Ok _ |- _ => discriminate H
  | H : Panic = Ok _ |- _ => discriminate H
  | H : match ?x with _ => _ end = Ok _ |- _ => destruct x eqn:?
  | H : match ?x with _ => _ end = Some _ |- _ => destruct x eqn:?; try discriminate H
  | H : Some _ = Some _ |- _ => injection H as H
  end; simplify_eq/=.

Ltac unfold_handlers H := unfold write_block, authorized, not_authorized, register_write, check_reclaiming, open_write, opened_write, undone_write,
  write_block_data, written_data, finish_block_write, finished_write, bad_message, revoked_write, aborted_write, begin_block_read, validated_read,
  read_block_chunk, returned_chunk, reclaim_start, reclaim_retire, reclaim_drained, cancel, cleanup_batch, drop_pin, abort_write, complete,
  drop_registration, spawn_io, own, pin_for, lift in H.

Section Jobs.
Context {S : Type}.

Lemma cleaned_jobs k e ok (c c' : Core S) : cleaned k e ok c = Ok c' ->
  co_jobs c' = co_jobs c /\ co_store c' = co_store c /\ co_tasks c' = co_tasks c /\ co_up c' = co_up c /\ co_next c' = co_next c.
Proof. unfold cleaned. intros H. crack; done. Qed.

Lemma drop_claims_jobs cs (c c' : Core S) : drop_claims cs c = Ok c' ->
  co_jobs c' = co_jobs c /\ co_store c' = co_store c /\ co_tasks c' = co_tasks c /\ co_up c' = co_up c /\ co_next c' = co_next c.
Proof.
  revert c. induction cs as [|[k e] cs IH]; intros c H; cbn [drop_claims] in H; [by simplify_eq|]. unbind H as c1 Hc1.
  apply cleaned_jobs in Hc1 as (<- & <- & <- & <- & <-). auto.
Qed.

Lemma drop_guard_jobs e (c c' : Core S) : drop_guard e c = Ok c' ->
  co_jobs c' = co_jobs c /\ co_store c' = co_store c /\ co_tasks c' = co_tasks c /\ co_up c' = co_up c /\ co_next c' = co_next c.
Proof. unfold drop_guard. intros H. crack; done. Qed.

(** What the end of a call answers to its task. *)
Definition job_answer (w : Work) (reply : result WorkerError Reply) : option Job :=
  match w with
  | W_Validate _ r => Some (Ended (Some (_ ← validate_read r (m ← reply; match m with R_Meta m => Ok m | _ => Panic end); Ok R_Unit)))
  | W_Cleanup ((_, _) :: rest) => Some (if bool_decide (rest = []) then Ended (Some (Ok R_Unit)) else Running (W_Cleanup rest))
  | W_Cleanup [] => None
  | _ => Some (Ended (Some reply))
  end.

Lemma ended_jobs j reply s (c c' : Core S) : job_ended j reply s c = Ok c' -> exists w J, co_jobs c !! j = Some (Running w) /\ job_answer w reply = Some J /\
  co_jobs c' = <[j := J]> (co_jobs c) /\ co_store c' = s /\ co_tasks c' = co_tasks c /\ co_up c' = co_up c.
Proof.
  unfold job_ended. destruct (co_jobs c !! j) as [[w|]|] eqn:Hj; [|done..]. intros H. exists w.
  assert (forall e, set_job j (Ended (Some reply)) <$> drop_guard e (set_store s c) = Ok c' ->
    co_jobs c' = <[j := Ended (Some reply)]> (co_jobs c) /\ co_store c' = s /\ co_tasks c' = co_tasks c /\ co_up c' = co_up c) as Hg.
  { intros e (c1 & Hd & <-)%fmap_Ok. apply drop_guard_jobs in Hd as (E1 & E2 & E3 & E4 & _). cbn in *. by rewrite E1, E2, E3, E4. }
  destruct w; try (eexists; split_and!; [done|done|by eapply Hg..]); cbn in H |- *.
  - eexists. simplify_eq. by split_and!.
  - eexists. simplify_eq. by split_and!.
  - destruct (is_ok reply); crack; eexists; by split_and!.
  - destruct candidates as [|[k e] rest]; [done|]. unbind H as c1 Hc1. apply cleaned_jobs in Hc1 as (E1 & E2 & E3 & E4 & _). simplify_eq. cbn in *.
    eexists. split_and!; try done. by rewrite E1.
Qed.

Lemma lost_jobs j (c c' : Core S) : job_lost j c = Ok c' -> exists w, co_jobs c !! j = Some (Running w) /\
  co_jobs c' = <[j := Ended None]> (co_jobs c) /\ co_store c' = co_store c /\ co_tasks c' = co_tasks c /\ co_up c' = co_up c.
Proof.
  unfold job_lost. destruct (co_jobs c !! j) as [[w|]|] eqn:Hj; [|done..]. intros (c1 & H & <-)%fmap_Ok. exists w. split; [done|].
  assert (co_jobs c1 = co_jobs c /\ co_store c1 = co_store c /\ co_tasks c1 = co_tasks c /\ co_up c1 = co_up c) as (E1 & E2 & E3 & E4).
  { destruct w; try (apply drop_guard_jobs in H as (? & ? & ? & ? & _); done); try (by simplify_eq). by apply drop_claims_jobs in H as (? & ? & ? & ? & _). }
  cbn. by rewrite E1, E2, E3, E4.
Qed.

(** The other events leave the store, and start at most one job. *)
Lemma handle_jobs f ev (c c' : Core S) : handle f ev c = Ok c' -> match ev with E_Ended _ _ _ | E_Lost _ => False | _ => True end ->
  co_store c' = co_store c /\ co_up c' = co_up c /\ (co_jobs c' = co_jobs c \/ exists i w, (co_next c <= i)%nat /\ co_jobs c' = <[i := Running w]> (co_jobs c)).
Proof.
  intros H Hev. destruct ev; cbn [handle] in H; try done; unfold_handlers H; crack; repeat case_bool_decide; split_and!; try done; eauto.
  all: try (right; do 2 eexists; split; [|reflexivity]; cbn; lia).
Qed.
End Jobs.

Lemma np_validate_read r loaded : loaded <> Panic -> validate_read r loaded <> Panic.
Proof.
  intros Hl. unfold validate_read. assert (validate_read_request r <> Panic) as Hv.
  { unfold validate_read_request. apply np_bind; [apply np_map_err, np_block_shape_new|]. intros ? _. apply np_bind; [apply np_ok_or|intros; apply np_reject]. }
  apply np_bind; [done|]. intros [] _. apply np_bind; [by destruct loaded as [|[]|]|]. intros m _. no_panic. apply np_ok_or.
Qed.

Lemma answers_insert js j J : answers_ok js -> match J with Ended (Some r) => r <> Panic | _ => True end -> answers_ok (<[j := J]> js).
Proof. intros Hj HJ i r [[<- ->]|[_ Hi]]%lookup_insert_Some; eauto. Qed.

Section Answers.
Context {S : Type} `{!LocalBlockStore S} (f : Frames) (allowed : StoreCall -> Prop).

Lemma answers_handle (c c' : Core S) ev : answers_ok (co_jobs c) -> possible allowed c ev -> handle f ev c = Ok c' -> answers_ok (co_jobs c').
Proof.
  intros Ha Hp Hh. assert (match ev with E_Ended _ _ _ | E_Lost _ => False | _ => True end -> answers_ok (co_jobs c')) as Hq.
  { intros Hev. destruct (handle_jobs f ev c c' Hh Hev) as (_ & _ & [->|(i & w & _ & ->)]); [done|by apply answers_insert]. }
  destruct ev; try (by apply Hq).
  - destruct Hp as (call & [Hcall _] & Hr%calls_reply). cbn in Hh. destruct (ended_jobs _ _ _ _ _ Hh) as (w & J & Hj & HJ & -> & _). apply answers_insert; [done|].
    unfold job_call in Hcall. rewrite Hj in Hcall. assert (reply <> Panic) as Hn by (by intros ->). destruct w; simplify_eq/=; try done.
    + apply np_bind; [|done]. apply np_validate_read. destruct reply as [[]| |]; done.
    + destruct candidates as [|[k e] rest]; simplify_eq. by case_bool_decide.
  - cbn in Hh. destruct (lost_jobs _ _ _ Hh) as (w & _ & -> & _). by apply answers_insert.
Qed.

Lemma answers_reach (c c' : Core S) : answers_ok (co_jobs c) -> core_reach f allowed c c' -> answers_ok (co_jobs c').
Proof.
  intros Ha Hr. induction Hr as [|c c1 c' Hs Hr IH]; [done|]. apply IH.
  destruct Hs as [ev c1 _ Hp Hh| | | | |]; [by eapply answers_handle|done|done..].
Qed.
End Answers.

(** C-CORE-NO-PANIC. In no state a worker can reach does an event of its data path
    panic: no pin is released that is not counted, no reclamation completes with pins,
    no IO guard is unbalanced, no debug assertion of the write registry fails and no
    handle dangles, unless 2^64 - 1 pins of a block are alive or as many changes of a
    group were recorded. *)
Theorem data_path_never_panics {S} `{!LocalBlockStore S} f s c ev : core_reach f any_call (idle false 0 s) c -> has_room c -> handle f ev c <> Panic.
Proof.
  intros Hr Hroom. apply np_handle; [by eapply inv_reach; [apply inv_idle|]|done|]. by eapply answers_reach; [|exact Hr].
Qed.
