(* ===== verification/WorkerStreams.v ===== *)
(** * What a write stream leaves in the store

    The data path against what it needs of the store for one block: opening sets the
    length of the block's data, writing appends, calls on other blocks and reads leave
    it. Then the data of a stream whose checkpoint runs is exactly what it received,
    after the bytes it started at. *)

From S2P Require Import Prelude Types Errors WorkerTypes Bytes FileSystem BlockMeta BlockMetaProps BlockStoreOps WorkerRuntime WorkerCore WorkerCoreInv WorkerCoreSteps WorkerCoreProps.
Local Open Scope Z_scope.

Definition call_key (call : StoreCall) : string * BlockId :=
  match call with
  | CallOpen r => (ob_group_name r, ob_block_id r)
  | CallCheckpoint r => (ck_group_name r, ck_block_id r)
  | CallWrite g b _ _ | CallRead g b _ _ | CallLoad g b | CallReclaim g b | CallDiscard g b => (g, b)
  end.

(** Calls that leave the store as it is. *)
Definition call_reads (call : StoreCall) : bool := match call with CallRead _ _ _ _ | CallLoad _ _ => true | _ => false end.

(** What a call needs: well typed arguments, and a checkpoint after an open. *)
Definition call_fits (opened : string * BlockId -> Prop) (call : StoreCall) : Prop :=
  match call with
  | CallOpen r => open_fits r
  | CallCheckpoint r => block_fits (ck_block_id r) /\ u64_ok (ck_effective_len r) /\ opened (ck_group_name r, ck_block_id r)
  | CallWrite g b _ _ | CallRead g b _ _ | CallLoad g b | CallReclaim g b | CallDiscard g b => key_fits g b
  end.

(** The interface: what the data path relies on for the block [k], as long as it is not
    reclaimed. [view] is the block's data, written or not yet durable. *)
Class TrackedStore (S : Type) `{!LocalBlockStore S} (k : string * BlockId) := {
  good : S -> Prop;
  view : S -> bytes;
  opened : S -> string * BlockId -> Prop;
  good_call s call reply s' : good s -> call_fits (opened s) call -> call <> CallReclaim k.1 k.2 -> calls call s reply s' -> good s';
  good_cut s call s' : good s -> call_fits (opened s) call -> call <> CallReclaim k.1 k.2 -> cut call s s' -> good s';
  good_report s s' : good s -> reports s s' -> good s' /\ view s' = view s /\ forall k', opened s k' -> opened s' k';
  good_stopped s s' : good s -> stopped s s' -> good s';
  good_start s s' : good s -> starts s s' -> good s';
  opened_call s call reply s' k' : calls call s reply s' -> opened s k' -> opened s' k';
  opened_open s r v s' : calls (CallOpen r) s (Ok v) s' -> opened s' (ob_group_name r, ob_block_id r);
  view_other s call reply s' : good s -> call_fits (opened s) call -> call_key call <> k \/ call_reads call = true ->
    calls call s reply s' -> view s' = view s;
  view_open s r v s' : good s -> call_fits (opened s) (CallOpen r) -> (ob_group_name r, ob_block_id r) = k -> calls (CallOpen r) s (Ok v) s' ->
    Z.of_nat (length (view s')) = ob_write_offset r;
  view_write s off data v s' : good s -> key_fits k.1 k.2 -> calls (CallWrite k.1 k.2 off data) s (Ok v) s' -> view s' = view s ++ data;
  view_checkpoint s r v s' : good s -> call_fits (opened s) (CallCheckpoint r) -> calls (CallCheckpoint r) s (Ok v) s' -> view s' = view s
}.

Section Streams.
Context {S : Type} `{!LocalBlockStore S} (k : string * BlockId) `{!TrackedStore S k} (f : Frames) (allowed : StoreCall -> Prop).

(** The block's data are what the stream started at and what it received. *)
Definition matches (s : S) (w : ActiveBlockWrite) : Prop :=
  exists prefix, view s = prefix ++ ab_received w /\ Z.of_nat (length prefix) = wr_write_offset (ab_request w).

Definition live (es : gmap nat BlockWriteEntry) (e : nat) : Prop := en_retired (ent es e) = false.

Record stream_fits (s : S) (w : ActiveBlockWrite) : Prop := {
  sf_request : write_fits (ab_request w);
  sf_opened : opened s (write_key (ab_request w));
  sf_next : ab_next_offset w = wr_write_offset (ab_request w) + Z.of_nat (length (ab_received w));
  sf_bound : u64_ok (ab_next_offset w)
}.

Definition answered_ok (js : gmap nat Job) (j : nat) : Prop := exists x, js !! j = Some (Ended (Some (Ok x))).

Definition task_inv (es : gmap nat BlockWriteEntry) (js : gmap nat Job) (s : S) (T : Task) : Prop :=
  match T with
  | T_Authorizing r _ | T_Undoing r _ _ _ _ => write_fits r
  | T_Registering r v _ | T_Registered r v _ _ | T_Checked r v _ _ => write_fits r /\ u64_ok v
  | T_Opening r _ e j => write_fits r /\ is_Some (js !! j) /\
      (forall w, run js j = Some w -> exists v, u64_ok v /\ w = W_Open e (open_request r v)) /\
      (answered_ok js j -> opened s (write_key r) /\ (write_key r = k -> live es e -> Z.of_nat (length (view s)) = wr_write_offset r))
  | T_Streaming w => stream_fits s w /\ (write_key (ab_request w) = k -> live es (ab_registration w) -> matches s w)
  | T_Writing w data j => stream_fits s w /\ u64_ok (ab_next_offset w + Z.of_nat (length data)) /\ is_Some (js !! j) /\
      (forall w0, run js j = Some w0 ->
         w0 = W_Write (ab_registration w) (wr_group_name (ab_request w)) (wr_block_id (ab_request w)) (ab_next_offset w) data /\
         (write_key (ab_request w) = k -> matches s w)) /\
      (answered_ok js j -> write_key (ab_request w) = k -> live es (ab_registration w) -> matches s (advanced w data))
  | T_Finishing w j => stream_fits s w /\ is_Some (js !! j) /\
      (forall w0, run js j = Some w0 -> w0 = W_Checkpoint (ab_registration w) (checkpoint_request w) /\ (write_key (ab_request w) = k -> matches s w))
  | T_Aborting w _ _ => stream_fits s w
  | T_Validating r _ _ _ => read_fits r
  | T_Sending a | T_Reading a _ _ => read_fits (ar_request a)
  | T_Reclaim k' | T_Draining k' | T_Reclaiming k' _ => key_fits k'.1 k'.2
  | T_Acknowledged _ | T_Delivered _ | T_Failed _ => True
  end.

Definition work_fits (s : S) (w : Work) : Prop :=
  match w with
  | W_Open _ r => open_fits r
  | W_Write _ g b _ _ | W_Discard _ g b | W_Read _ g b _ _ | W_Reclaim g b => key_fits g b
  | W_Checkpoint _ r => block_fits (ck_block_id r) /\ u64_ok (ck_effective_len r) /\ opened s (ck_group_name r, ck_block_id r)
  | W_Validate _ r => read_fits r
  | W_Cleanup cs => forall k' e, (k', e) ∈ cs -> key_fits k'.1 k'.2
  end.

Record streams (c : Core S) : Prop := {
  st_good : good (co_store c);
  st_tasks t T : co_tasks c !! t = Some T -> task_inv (rg_entries (co_registry c)) (co_jobs c) (co_store c) T;
  st_jobs j w : run (co_jobs c) j = Some w -> work_fits (co_store c) w;
  st_writes k' e : rg_writes (co_registry c) !! k' = Some e -> key_fits k'.1 k'.2
}.

Lemma work_call_fits s w call : work_fits s w -> work_call w = Some call -> call_fits (opened s) call.
Proof.
  destruct w; cbn; intros Hw Hc; simplify_eq/=; try done; [apply Hw|]. destruct candidates as [|[k' e] rest]; simplify_eq. cbn. apply (Hw k' e). left.
Qed.

(** What other tasks do does not matter to a task. *)
Lemma task_inv_mono es es' js js' s T : task_inv es js s T -> (forall e, task_entry T = Some e -> live es' e -> live es e) ->
  (forall j, task_awaits T = Some j -> is_Some (js !! j) -> js' !! j = js !! j) -> task_inv es' js' s T.
Proof.
  intros HT Hl Ha. destruct T; cbn in *; try done.
  - unfold run, answered_ok in *. destruct HT as (? & Hj & ? & H). rewrite (Ha _ eq_refl Hj). split_and!; try done. intros Hx.
    destruct (H Hx) as [? Hv]. split; [done|]. intros Hk Hl'. by apply Hv, Hl.
  - destruct HT as [? H]. split; [done|]. intros Hk Hl'. by apply H, Hl.
  - unfold run, answered_ok in *. destruct HT as (? & ? & Hj & ? & H). rewrite (Ha _ eq_refl Hj). split_and!; try done. intros Hx Hk Hl'. by apply H, Hl.
  - unfold run, answered_ok in *. destruct HT as (? & Hj & ?). by rewrite (Ha _ eq_refl Hj).
Qed.

(** One task moves, at most one new job starts, entries are retired. *)
Lemma streams_update (c c' : Core S) : core_inv c -> streams c -> co_store c' = co_store c ->
  (forall t T, co_tasks c' !! t = Some T -> co_tasks c !! t = Some T \/ task_inv (rg_entries (co_registry c')) (co_jobs c') (co_store c) T) ->
  (forall e, is_Some (rg_entries (co_registry c) !! e) -> live (rg_entries (co_registry c')) e -> live (rg_entries (co_registry c)) e) ->
  (co_jobs c' = co_jobs c \/ exists i w, co_jobs c' = <[i := Running w]> (co_jobs c) /\ co_jobs c !! i = None /\ work_fits (co_store c) w) ->
  (forall k' e, rg_writes (co_registry c') !! k' = Some e -> rg_writes (co_registry c) !! k' = Some e \/ key_fits k'.1 k'.2) -> streams c'.
Proof.
  intros Hc [Hg Ht Hj Hw] Es Htask Hl Hjobs Hwr. constructor; rewrite ?Es; [done| | |].
  - intros t T [HT|?]%Htask; [|done]. eapply task_inv_mono; [by eapply Ht| |].
    + intros e He. apply Hl. by eapply owned_entry.
    + intros j _ Hsome. destruct Hjobs as [->|(i & w & -> & Hi & _)]; [done|]. rewrite lookup_insert_ne; [done|]. intros ->.
      rewrite Hi in Hsome. by destruct Hsome.
  - intros j w. destruct Hjobs as [->|(i & w' & -> & Hi & Hf)]; [apply Hj|]. rewrite run_insert. case_decide; [|apply Hj]. by intros [= <-].
  - intros k' e [?|?]%Hwr; [by eapply Hw|done].
Qed.

(** The new state of the task that moved. *)
Lemma streams_task (c c' : Core S) t T : core_inv c -> streams c -> co_store c' = co_store c -> co_tasks c' = <[t := T]> (co_tasks c) ->
  (forall e, live (rg_entries (co_registry c')) e -> live (rg_entries (co_registry c)) e) -> rg_writes (co_registry c') = rg_writes (co_registry c) ->
  (co_jobs c' = co_jobs c \/ exists i w, co_jobs c' = <[i := Running w]> (co_jobs c) /\ co_jobs c !! i = None /\ work_fits (co_store c) w) ->
  task_inv (rg_entries (co_registry c')) (co_jobs c') (co_store c) T -> streams c'.
Proof.
  intros Hc Hs Es Et Hl Ew Hj HT. eapply streams_update; try done; [|by intros e _ ?; auto|rewrite Ew; by left].
  intros t' T' Ht'. rewrite Et in Ht'. apply lookup_insert_Some in Ht' as [[<- <-]|[_ ?]]; [by right|by left].
Qed.

Lemma live_retire es e e' : live (<[e := retire_entry (ent es e)]> es) e' -> live es e'.
Proof. unfold live. rewrite ent_insert. by case_decide; cbn. Qed.

Lemma streams_drop_registration (c c' : Core S) t e error : core_inv c -> streams c -> drop_registration t e error c = Ok c' -> streams c'.
Proof.
  intros Hc Hs Hd. unfold drop_registration in Hd. unbind Hd as en Hen. apply entry_ok in Hen. simplify_eq. rewrite <- (ent_lookup _ _ _ Hen).
  eapply (streams_task c _ t (T_Failed error)); try done; [|by left]. intros e'. apply live_retire.
Qed.

Lemma streams_fail (c : Core S) t error : core_inv c -> streams c -> streams (set_task t (T_Failed error) c).
Proof. intros Hc Hs. eapply (streams_task c _ t (T_Failed error)); try done. by left. Qed.

(** A guarded call starts; its entry is live. *)
Lemma streams_spawn_io (c c' : Core S) t T e w : core_inv c -> streams c -> spawn_io e w c = Ok (Some c') -> work_fits (co_store c) w ->
  (live (rg_entries (co_registry c)) e -> task_inv (rg_entries (co_registry c)) (<[co_next c := Running w]> (co_jobs c)) (co_store c) T) ->
  streams (set_task t T c').
Proof.
  intros Hc Hs Hsp Hw HT. unfold spawn_io in Hsp. unbind Hsp as en Hen. apply entry_ok in Hen. destruct (begin_io en) as [en'|] eqn:Hb; simplify_eq.
  unfold begin_io in Hb. destruct (en_retired en) eqn:Hr; simplify_eq. pose proof (ent_lookup _ _ _ Hen) as Een.
  assert (forall e', live (<[e := mk_BlockWriteEntry (en_inflight en + 1) (en_cleanup_running en) (en_pin en) (en_token en) false]> (rg_entries (co_registry c))) e' ->
    live (rg_entries (co_registry c)) e') as Hl.
  { intros e'. unfold live. rewrite ent_insert. case_decide; [subst|done]. by rewrite Hr. }
  eapply (streams_task c _ t T); try done; cbn.
  - right. exists (co_next c), w. split_and!; [done|by apply fresh_job|done].
  - eapply task_inv_mono; [apply HT; unfold live; by rewrite Een|intros e' _; apply Hl|done].
Qed.

Lemma streams_complete (c c' : Core S) t T e k' : core_inv c -> streams c -> complete t e k' T c = Ok c' ->
  task_inv (rg_entries (co_registry c)) (co_jobs c) (co_store c) T -> task_entry T = None -> task_awaits T = None -> streams c'.
Proof.
  intros Hc Hs Hco HT He Ha. unfold complete in Hco. unbind Hco as [b r] Hr. unfold lift in Hr. apply map_err_Ok in Hr. simplify_eq.
  assert ((forall e', live (rg_entries r) e' -> live (rg_entries (co_registry c)) e') /\
    (forall k' e', rg_writes r !! k' = Some e' -> rg_writes (co_registry c) !! k' = Some e')) as [Hl Hw].
  { unfold complete_registration in Hr. destruct (registered _ _ _); cbn in Hr; [|by simplify_eq]. unbind Hr as en Hen. unfold entry in Hen. apply expect_Ok in Hen.
    destruct (en_cleanup_running en); [by simplify_eq|]. unbind Hr as [] H0. simplify_eq. cbn. split.
    - intros e'. unfold live. rewrite ent_insert. by destruct (decide (e = e')).
    - by intros k'' e' [_ ?]%lookup_delete_Some. }
  eapply (streams_update c); try done; cbn; [| |by left|by intros ? ? ?%Hw; left].
  - intros t' T' [[<- <-]|[_ ?]]%lookup_insert_Some; [right|by left]. eapply task_inv_mono; [exact HT|congruence|congruence].
  - intros e' _. apply Hl.
Qed.

(** A new job has not answered. *)
Lemma not_answered js i w : ~ answered_ok (<[i := Running w]> js) i.
Proof. intros [x Hx]. by rewrite lookup_insert_eq in Hx. Qed.
Lemma run_new js i w w' : run (<[i := Running w]> js) i = Some w' -> w' = w.
Proof. rewrite run_insert, decide_True by done. congruence. Qed.
Lemma new_job (js : gmap nat Job) i w : is_Some (<[i := Running w]> js !! i).
Proof. rewrite lookup_insert_eq. eauto. Qed.

Lemma open_request_fits r v : write_fits r -> u64_ok v -> open_fits (open_request r v).
Proof. intros [[? ?] ? ? ? ?] Hv. by constructor. Qed.

Section Handlers.
Context (c c' : Core S) (Hc : core_inv c) (Hs : streams c).

Lemma task_known t T : co_tasks c !! t = Some T -> task_inv (rg_entries (co_registry c)) (co_jobs c) (co_store c) T.
Proof. apply (st_tasks c Hs). Qed.

Lemma streams_abort t w error : stream_fits (co_store c) w -> abort_write t w error c = Ok c' -> streams c'.
Proof.
  intros Hf H. unfold abort_write in H. unbind H as st Hst. destruct st as [c1|]; simplify_eq; [|by eapply streams_drop_registration].
  eapply streams_spawn_io; [done|done|exact Hst|apply Hf|]. by intros _.
Qed.

Ltac st_handler H := let T := fresh "T" in let HT := fresh "HT" in unbind H as T HT; apply task_ok in HT; pose proof (task_known _ _ HT) as Hinv; destruct T; try done; cbn in Hinv.

Lemma streams_opening t visible error :
  (u64_ok visible /\ authorized t visible c = Ok c') \/ not_authorized t error c = Ok c' \/ check_reclaiming t c = Ok c' \/ open_write t c = Ok c' \/
  opened_write t c = Ok c' \/ undone_write t c = Ok c' -> streams c'.
Proof.
  intros [[Hp H]|[H|[H|[H|[H|H]]]]].
  - unfold authorized in H. st_handler H. destruct (_ <? _); simplify_eq; [by apply streams_fail|]. apply fmap_Ok in H as (c1 & Ho & <-).
    unfold own in Ho. unbind Ho as x Hx. simplify_eq. eapply (streams_task c _ t); try done. by left.
  - unfold not_authorized in H. st_handler H. simplify_eq. by apply streams_fail.
  - unfold check_reclaiming in H. st_handler H. destruct (is_reclaiming _ _); simplify_eq; [by eapply streams_drop_registration|].
    eapply (streams_task c _ t); try done. by left.
  - unfold open_write in H. st_handler H. destruct Hinv as [Hf Hv]. unbind H as st Hst. destruct st as [c1|]; simplify_eq; [|by eapply streams_drop_registration].
    eapply streams_spawn_io; [done|done|exact Hst|by apply open_request_fits|]. intros _. split_and!; [done|apply new_job| |by intros ?%not_answered].
    intros w ->%run_new. eauto.
  - unfold opened_write in H. st_handler H. destruct Hinv as (Hf & _ & _ & Hans). unbind H as a Ha. destruct a as [[x|error'|]|]; simplify_eq.
    + assert (answered_ok (co_jobs c) job) as Hok by (unfold answer in Ha; exists x; destruct (_ !! job) as [[]|]; by simplify_eq).
      destruct (Hans Hok) as [Hop Hv]. eapply (streams_task c _ t); try done; [by left|]. cbn. split.
      * constructor; cbn; [done|done|lia|apply Hf].
      * intros Hk Hl. exists (view (co_store c)). rewrite app_nil_r. auto.
    + unbind H as st Hst. destruct st as [c1|]; simplify_eq; [|by eapply streams_drop_registration].
      eapply streams_spawn_io; [done|done|exact Hst|apply Hf|]. by intros _.
    + by eapply streams_drop_registration.
  - unfold undone_write in H. st_handler H. unbind H as a Ha. destruct a as [[x|error'|]|]; simplify_eq; try by eapply streams_drop_registration.
    by eapply streams_complete.
Qed.

Lemma advanced_fits s w data : stream_fits s w -> u64_ok (ab_next_offset w + Z.of_nat (length data)) -> stream_fits s (advanced w data).
Proof. intros [? ? Hn ?] Hb. constructor; cbn; [done|done| |done]. rewrite length_app, Hn. lia. Qed.

Lemma streams_streaming t data error :
  write_block_data t data c = Ok c' \/ written_data t c = Ok c' \/ finish_block_write t c = Ok c' \/ finished_write t c = Ok c' \/
  bad_message t error c = Ok c' \/ revoked_write t c = Ok c' \/ aborted_write t c = Ok c' -> streams c'.
Proof.
  intros [H|[H|[H|[H|[H|[H|H]]]]]].
  - unfold write_block_data in H. st_handler H. destruct Hinv as [Hf Hm]. destruct (check_data w data) as [stop|e|] eqn:Hck; simplify_eq; [|by eapply streams_abort].
    unbind H as st Hst. destruct st as [c1|]; simplify_eq; [|by eapply streams_abort].
    assert (u64_ok (ab_next_offset w + Z.of_nat (length data))) as Hb.
    { unfold check_data in Hck. unbind Hck as [] H1. unbind Hck as [] H2. unbind Hck as st Hst'. apply checked_add64_Some in Hst' as [-> ?].
      pose proof (sf_bound _ _ Hf). unfold u64_ok in *. lia. }
    eapply streams_spawn_io; [done|done|exact Hst|apply Hf|]. intros Hl. split_and!; [done|done|apply new_job| |by intros ?%not_answered].
    intros w0 ->%run_new. split; [done|]. auto.
  - unfold written_data in H. st_handler H. destruct Hinv as (Hf & Hb & _ & _ & Hans). unbind H as a Ha.
    destruct a as [[x|error'|]|]; simplify_eq; try by eapply streams_abort.
    assert (answered_ok (co_jobs c) job) as Hok by (unfold answer in Ha; exists x; destruct (_ !! job) as [[]|]; by simplify_eq).
    eapply (streams_task c _ t); try done; [by left|]. cbn. split; [by apply advanced_fits|]. auto.
  - unfold finish_block_write in H. st_handler H. destruct Hinv as [Hf Hm]. destruct (validate_written_len _ _) as [stop|e|]; simplify_eq; [|by eapply streams_abort].
    unbind H as st Hst. destruct st as [c1|]; simplify_eq; [|by eapply streams_abort]. pose proof Hf as [Hr Ho _ Hb].
    eapply streams_spawn_io; [done|done|exact Hst|split_and!; [apply Hr|done|done]|]. intros Hl. split_and!; [done|apply new_job|].
    intros w0 ->%run_new. split; [done|]. auto.
  - unfold finished_write in H. st_handler H. destruct Hinv as (Hf & _). unbind H as a Ha. destruct a as [[x|error'|]|]; simplify_eq; try by eapply streams_abort.
    by eapply streams_complete.
  - unfold bad_message in H. st_handler H. destruct Hinv as [Hf _]. by eapply streams_abort.
  - unfold revoked_write in H. st_handler H. destruct Hinv as [Hf _]. unbind H as en Hen. destruct (en_retired en); [|done]. by eapply streams_abort.
  - unfold aborted_write in H. st_handler H. unbind H as a Ha. destruct a as [[x|error'|]|]; simplify_eq; try by eapply streams_drop_registration.
    by eapply streams_complete.
Qed.

Lemma streams_write_block r : write_fits r -> write_block r c = Ok c' -> streams c'.
Proof.
  intros Hf H. unfold write_block in H. unbind H as [] Hv. unbind H as c1 Hp. simplify_eq. unfold pin_for in Hp. unbind Hp as a Ha. simplify_eq.
  eapply (streams_task c _ (co_next c)); try done. by left.
Qed.

Lemma streams_register t : register_write t c = Ok c' -> streams c'.
Proof.
  intros H. unfold register_write in H. st_handler H. destruct Hinv as [Hf Hv]. unbind H as o Ho. unfold lift in Ho. apply map_err_Ok in Ho. unfold register in Ho.
  destruct (rg_writes (co_registry c) !! write_key r) as [old|] eqn:Hw.
  - unbind Ho as en Hen. unfold entry in Hen. apply expect_Ok in Hen. destruct (_ <=? _) in Ho; simplify_eq; [by apply streams_fail|].
    rewrite <- (ent_lookup _ _ _ Hen). eapply (streams_update c); try done; cbn; [by left|intros e _; apply live_retire|by left|by left].
  - simplify_eq. unfold own in H. unbind H as x Hx. simplify_eq/=. eapply (streams_update c); try done; cbn; [| |by left|].
    + intros t' T' [[<- <-]|[_ ?]]%lookup_insert_Some; [by right|by left].
    + intros e [en He]. unfold live. rewrite ent_insert. destruct (decide (co_next c = e)) as [<-|]; [|done]. by rewrite (fresh_entry c Hc) in He.
    + intros k' e [[<- <-]|[_ ?]]%lookup_insert_Some; [right; apply Hf|by left].
Qed.

Lemma streams_reads r t : (read_fits r /\ begin_block_read f r c = Ok c') \/ validated_read t c = Ok c' \/ read_block_chunk t c = Ok c' \/ returned_chunk t c = Ok c' ->
  streams c'.
Proof.
  intros [[Hf H]|[H|[H|H]]].
  - unfold begin_block_read in H. unbind H as frame Hn. unbind H as [] Hv. unbind H as c1 Hp. apply fmap_Ok in H as (c2 & Ho & <-).
    unfold pin_for in Hp. unbind Hp as a Ha. simplify_eq. unfold own in Ho. unbind Ho as x Hx. simplify_eq/=.
    eapply (streams_task c _ (co_next c)); try done. right. do 2 eexists. split_and!; [reflexivity| |exact Hf].
    apply eq_None_not_Some. intros Hj%(nm_jobs _ _ _ _ _ (co_names c Hc)). cbn in Hj. lia.
  - unfold validated_read in H. st_handler H. unbind H as a Ha. destruct a as [[x|e|]|]; simplify_eq; try by apply streams_fail.
    destruct (range_end r0); simplify_eq; [|by apply streams_fail]. eapply (streams_task c _ t); try done. by left.
  - unfold read_block_chunk in H. st_handler H. destruct (_ <=? _); simplify_eq; [eapply (streams_task c _ t); try done; by left|].
    apply fmap_Ok in H as (c2 & Ho & <-). unfold own in Ho. unbind Ho as x Hx. simplify_eq/=.
    eapply (streams_task c _ t); try done. right. do 2 eexists. split_and!; [reflexivity|by apply fresh_job|apply Hinv].
  - unfold returned_chunk in H. st_handler H. unbind H as rep Ha. destruct rep as [[x|e|]|]; simplify_eq; try by apply streams_fail.
    destruct x; simplify_eq. case_bool_decide; simplify_eq; [by apply streams_fail|]. destruct (checked_add64 _ _); simplify_eq; [|by apply streams_fail].
    eapply (streams_task c _ t); try done. by left.
Qed.

Lemma streams_reclaim k' t : (key_fits k'.1 k'.2 /\ reclaim_start k' c = Ok c') \/ reclaim_retire t c = Ok c' \/ reclaim_drained t c = Ok c' \/ cancel t c = Ok c' -> streams c'.
Proof.
  intros [[Hf H]|[H|[H|H]]].
  - unfold reclaim_start in H. unbind H as [a ch] Hb. simplify_eq. eapply (streams_task c _ (co_next c)); try done. by left.
  - unfold reclaim_retire in H. st_handler H. unbind H as r Hr. unfold lift in Hr. apply map_err_Ok in Hr. simplify_eq.
    assert ((forall e, live (rg_entries r) e -> live (rg_entries (co_registry c)) e) /\ rg_writes r = rg_writes (co_registry c)) as [Hl Hw].
    { unfold retire_key in Hr. destruct (_ !! k0); [|by simplify_eq]. unbind Hr as en Hen. unfold entry in Hen. apply expect_Ok in Hen. simplify_eq.
      rewrite <- (ent_lookup _ _ _ Hen). split; [|done]. intros e. apply live_retire. }
    eapply (streams_task c _ t); try done. by left.
  - unfold reclaim_drained in H. st_handler H. case_bool_decide; simplify_eq. eapply (streams_task c _ t); try done.
    right. do 2 eexists. split_and!; [reflexivity|by apply fresh_job|done].
  - unfold cancel in H. unbind H as T HT. destruct (between_awaits T); [done|]. destruct (task_entry T); [by eapply streams_drop_registration|].
    destruct (task_permit T); simplify_eq; [|by apply streams_fail]. eapply (streams_task c _ t (T_Failed _)); try done. by left.
Qed.

Lemma take_batch_live n drain r out r' : take_batch n drain r = Ok (out, r') -> (forall e, live (rg_entries r') e -> live (rg_entries r) e) /\
  rg_writes r' = rg_writes r /\ forall k' e, (k', e) ∈ out -> rg_writes r !! k' = Some e.
Proof.
  revert r out. induction n as [|n IH]; intros r out H; cbn in H; [destruct (rg_order r); simplify_eq; split_and!; try done; by intros ? ? ?%elem_of_nil|].
  destruct (rg_order r) as [|k0 rest]; [simplify_eq; split_and!; try done; by intros ? ? ?%elem_of_nil|]. destruct (rg_writes r !! k0) as [e|] eqn:Hk; [|by apply IH in H].
  unbind H as en Hen. unfold entry in Hen. apply expect_Ok in Hen. destruct (retire_and_claim_cleanup drain en) as [cl en'] eqn:Hcl.
  unbind H as [out' r1] Hr. simplify_eq. apply IH in Hr as (Hl & Hw & Ho). cbn in *. split_and!; [|done|].
  - intros e' He'%Hl. revert He'. unfold live. rewrite ent_insert. destruct (decide (e = e')) as [<-|]; [|done]. rewrite (ent_lookup _ _ _ Hen).
    unfold retire_and_claim_cleanup in Hcl. by destruct drain; cbn in Hcl; destruct (_ || _) in Hcl; simplify_eq.
  - intros k' e' [Hin|?]%elem_of_app; [|auto]. destruct cl; [|by apply elem_of_nil in Hin]. apply list_elem_of_singleton in Hin. by simplify_eq.
Qed.

Lemma streams_clean drain p h : cleanup_batch drain c = Ok c' \/ drop_pin p h c = Ok c' -> streams c'.
Proof.
  intros [H|H].
  - unfold cleanup_batch in H. unbind H as [cs r] Hb. unfold lift in Hb. apply map_err_Ok in Hb. apply take_batch_live in Hb as (Hl & Hw & Hcs).
    case_bool_decide; simplify_eq; (eapply (streams_update c); try done; cbn; [by left|by intros e _; apply Hl| |by rewrite Hw; left]).
    + by left.
    + right. do 2 eexists. split_and!; [reflexivity|by apply fresh_job|]. intros k' e ?%Hcs. by eapply (st_writes c Hs).
  - unfold drop_pin in H. unbind H as x Hx. unbind H as [] Hh. destruct (bool_decide (_ = ∅)); [unbind H as a Ha|]; simplify_eq.
    all: eapply (streams_update c); try done; by left.
Qed.
End Handlers.

(** *** The end of a call *)

(** The registry may only lose writers. *)
Definition shrinks (c c' : Core S) : Prop :=
  (forall e, live (rg_entries (co_registry c')) e -> live (rg_entries (co_registry c)) e) /\
  (forall k' e, rg_writes (co_registry c') !! k' = Some e -> rg_writes (co_registry c) !! k' = Some e).

Lemma cleaned_shrinks k' e ok (c c' : Core S) : cleaned k' e ok c = Ok c' -> shrinks c c'.
Proof.
  intros H. unfold cleaned in H. unbind H as [b r] Hb. unbind H as r' Hr'. simplify_eq.
  assert (shrinks c (set_registry r c)) as [Hl1 Hw1].
  { destruct ok; [|by simplify_eq]. unfold lift in Hb. apply map_err_Ok in Hb. unfold remove_exact in Hb. destruct (registered _ _ _); cbn in Hb; [|by simplify_eq].
    unbind Hb as en Hen. unbind Hb as [] H0. simplify_eq. split; cbn.
    - intros e'. unfold live. rewrite ent_insert. by destruct (decide (e = e')).
    - by intros k'' e' [_ ?]%lookup_delete_Some. }
  destruct b; [by simplify_eq|]. unfold lift in Hr'. apply map_err_Ok in Hr'. unfold release_cleanup_claim in Hr'. destruct (registered k' e r); [|by simplify_eq].
  unbind Hr' as en Hen. unfold entry in Hen. apply expect_Ok in Hen. unbind Hr' as en' Hen'. unfold release_cleanup in Hen'. unbind Hen' as [] H0. simplify_eq.
  split; cbn in *; [|done]. intros e' He'. apply Hl1. revert He'. unfold live. rewrite ent_insert. destruct (decide (e = e')) as [<-|]; [|done].
  by rewrite (ent_lookup _ _ _ Hen).
Qed.

Lemma drop_claims_shrinks cs (c c' : Core S) : drop_claims cs c = Ok c' -> shrinks c c'.
Proof.
  revert c. induction cs as [|[k' e] cs IH]; intros c H; cbn [drop_claims] in H; [by simplify_eq|]. unbind H as c1 Hc1.
  apply cleaned_shrinks in Hc1 as [H1 H2]. apply IH in H as [H3 H4]. split; auto.
Qed.

Lemma drop_guard_shrinks e (c c' : Core S) : drop_guard e c = Ok c' -> shrinks c c'.
Proof.
  intros H. unfold drop_guard in H. unbind H as en Hen. apply entry_ok in Hen. unbind H as en' Hen'. unfold lift in Hen'. apply map_err_Ok in Hen'.
  unfold end_io in Hen'. unbind Hen' as n Hn. simplify_eq. split; cbn; [|done]. intros e'. unfold live. rewrite ent_insert.
  destruct (decide (e = e')) as [<-|]; [|done]. by rewrite (ent_lookup _ _ _ Hen).
Qed.

Lemma ended_shrinks j reply s (c c' : Core S) : job_ended j reply s c = Ok c' -> shrinks c c'.
Proof.
  unfold job_ended. destruct (co_jobs c !! j) as [[w|]|]; [|done..]. intros H.
  assert (forall e, set_job j (Ended (Some reply)) <$> drop_guard e (set_store s c) = Ok c' -> shrinks c c') as Hg.
  { intros e (c1 & Hd & <-)%fmap_Ok. by apply drop_guard_shrinks in Hd. }
  destruct w; try (by eapply Hg); cbn in H; simplify_eq; try done.
  - destruct (is_ok reply); crack; done.
  - destruct candidates as [|[k' e] rest]; [done|]. unbind H as c1 Hc1. simplify_eq. by apply cleaned_shrinks in Hc1.
Qed.

Lemma lost_shrinks j (c c' : Core S) : job_lost j c = Ok c' -> shrinks c c'.
Proof.
  unfold job_lost. destruct (co_jobs c !! j) as [[w|]|]; [|done..]. intros (c1 & H & <-)%fmap_Ok.
  destruct w; try (by apply drop_guard_shrinks in H); try (by simplify_eq). by apply drop_claims_shrinks in H.
Qed.

Section Ends.
Context (c : Core S) (Hc : core_inv c) (Hs : streams c).

(** The call of a job changes a block the job changes. *)
Lemma call_changed w call : work_call w = Some call -> call_reads call = false -> call_key call ∈ changed w.
Proof.
  destruct w; cbn; intros Hcall Hr; simplify_eq/=; try (by apply list_elem_of_singleton); try done.
  destruct candidates as [|[[g b] e] rest]; simplify_eq/=. left.
Qed.

(** Who can be at the block when a job changes it: the task that waits for the job. *)
Lemma live_awaits j w call t T e : run (co_jobs c) j = Some w -> work_call w = Some call -> call_reads call = false -> call_key call = k ->
  call <> CallReclaim k.1 k.2 -> co_tasks c !! t = Some T -> task_entry T = Some e -> task_key T = Some k -> live (rg_entries (co_registry c)) e ->
  task_awaits T = Some j.
Proof.
  intros Hw Hcall Hrd Hkey Hrec Ht He Hk Hl. pose proof (co_reg c Hc) as Hr. pose proof (call_changed w call Hcall Hrd) as Hch. rewrite Hkey in Hch.
  destruct (changed_by c Hc j w k Hw Hch) as [Hp|(e' & He' & Hg)].
  { destruct w; try done. exfalso. apply Hrec. injection Hcall as <-. injection Hp as E. by rewrite <- E. }
  assert (en_pin (ent (rg_entries (co_registry c)) e) <> None) as Hpin by (intros E; apply (ri_spent _ _ _ _ Hr) in E; unfold live in Hl; congruence).
  apply not_eq_None_Some in Hpin. destruct (ri_held _ _ _ _ Hr e Hpin) as [k' Hk'].
  assert (k' = k) as -> by (destruct (ri_owner _ _ _ _ Hr t e) as [_ Ho]; [by rewrite (of_task_lookup _ _ _ _ Ht)|]; apply Ho in Hk'; rewrite (of_task_lookup _ _ _ _ Ht) in Hk'; congruence).
  assert (e' = e) as -> by congruence. destruct Hg as [Hg|Hg].
  - rewrite <- (of_task_lookup task_awaits _ _ _ Ht). eapply (ri_await _ _ _ _ Hr); [by rewrite (of_task_lookup _ _ _ _ Ht)|done].
  - apply (ri_claim _ _ _ _ Hr) in Hg as (_ & _ & ? & _). unfold live in Hl. congruence.
Qed.

(** A running call at the block is alone. *)
Lemma running_alone j j' w w' call : run (co_jobs c) j = Some w -> run (co_jobs c) j' = Some w' -> work_call w = Some call -> call_reads call = false ->
  call_key call = k -> k ∈ changed w' -> j = j'.
Proof. intros Hw Hw' Hcall Hrd Hkey Hk. apply (changed_once c Hc j j' w w' k); [done|done|rewrite <- Hkey; by apply call_changed|done]. Qed.

Lemma matches_view s s' w : view s' = view s -> matches s w -> matches s' w.
Proof. unfold matches. by intros ->. Qed.

(** The calls that leave the block's data, and those that may not. *)
Lemma view_cases s call reply s' : good s -> call_fits (opened s) call -> calls call s reply s' ->
  view s' = view s \/ call_key call = k /\ call_reads call = false.
Proof.
  intros Hg Hf Hcall. destruct (decide (call_key call = k)) as [Hk|Hk]; [|left; by eapply view_other; eauto].
  destruct (call_reads call) eqn:Hr; [left; by eapply view_other; eauto|by right].
Qed.

Lemma streams_ended c' j reply s : possible allowed c (E_Ended j reply s) -> (forall call, allowed call -> call <> CallReclaim k.1 k.2) ->
  job_ended j reply s c = Ok c' -> streams c'.
Proof.
  intros (call & [Hcall Hal] & Hcalls) Hno H. specialize (Hno call Hal). destruct (ended_shrinks _ _ _ _ _ H) as [Hl Hw].
  destruct (ended_jobs _ _ _ _ _ H) as (w & J & Hj & HJ & Ejobs & Es & Et & _). unfold job_call in Hcall. rewrite Hj in Hcall.
  assert (run (co_jobs c) j = Some w) as Hrun by (unfold run; by rewrite Hj). pose proof (st_good c Hs) as Hg.
  pose proof (work_call_fits _ _ _ (st_jobs c Hs j w Hrun) Hcall) as Hfit. pose proof (good_call _ _ _ _ Hg Hfit Hno Hcalls) as Hg'.
  assert (forall k', opened (co_store c) k' -> opened s k') as Hop by (intros k'; by eapply opened_call).
  assert (forall w0, stream_fits (co_store c) w0 -> stream_fits s w0) as Hsf by (intros w0 [? ? ? ?]; constructor; auto).
  pose proof (view_cases _ _ _ _ Hg Hfit Hcalls) as Hview.
  assert (forall t T e, co_tasks c !! t = Some T -> task_entry T = Some e -> task_key T = Some k -> live (rg_entries (co_registry c)) e ->
    task_awaits T <> Some j -> view s = view (co_store c)) as Hquiet.
  { intros t T e Ht He Hk Hlive Haw. destruct Hview as [?|[Hkey Hrd]]; [done|]. exfalso. apply Haw. by eapply live_awaits. }
  assert (forall j' w', j' <> j -> run (co_jobs c) j' = Some w' -> k ∈ changed w' -> view s = view (co_store c)) as Hother.
  { intros j' w' Hne Hw' Hk. destruct Hview as [?|[Hkey Hrd]]; [done|]. exfalso. apply Hne. symmetry. by eapply (running_alone j j' w w' call). }
  constructor; rewrite ?Es; [done| | |].
  - intros t T HT. rewrite Et in HT. pose proof (st_tasks c Hs t T HT) as Hinv. rewrite Ejobs.
    destruct T as [| | | |r p e i| |w0|w0 data i|w0 i|w0 i err| | | | | | | | |]; cbn in Hinv |- *; try done; try (by apply Hsf).
    + destruct Hinv as (Hf & Hi & Hlink & Hans). split_and!; [done|by apply lookup_insert_is_Some'; right| |].
      * intros w1. rewrite run_insert. case_decide; [subst|apply Hlink]. destruct J; [|done]. intros [= <-]. exfalso.
        destruct (Hlink w Hrun) as (v & _ & ->). by simplify_eq/=.
      * destruct (decide (i = j)) as [->|Hne].
        -- destruct (Hlink w Hrun) as (v & Hv & ->). simplify_eq/=. intros [x Hx]. rewrite lookup_insert_eq in Hx. simplify_eq.
           split; [by apply opened_open in Hcalls|]. intros Hk _. exact (view_open _ (open_request r v) _ _ Hg Hfit Hk Hcalls).
        -- intros [x Hx]. rewrite lookup_insert_ne in Hx by done. destruct (Hans (ex_intro _ x Hx)) as [? Hv]. split; [auto|]. intros Hk Hlive.
           rewrite (Hquiet t _ e HT eq_refl); [auto|cbn; congruence|auto|cbn; congruence].
    + destruct Hinv as [Hf Hm]. split; [auto|]. intros Hk Hlive. eapply matches_view; [|by auto]. eapply (Hquiet t _ _ HT); [done|cbn; congruence|auto|done].
    + destruct Hinv as (Hf & Hb & Hi & Hlink & Hans). split_and!; [auto|done|by apply lookup_insert_is_Some'; right| |].
      * intros w1. rewrite run_insert. case_decide; [subst|].
        -- destruct J; [|done]. intros [= <-]. exfalso. destruct (Hlink w Hrun) as [-> _]. by simplify_eq/=.
        -- intros Hw1. destruct (Hlink w1 Hw1) as [-> Hm]. split; [done|]. intros Hk. eapply matches_view; [|by auto].
           eapply (Hother i); [done|exact Hw1|]. cbn. rewrite <- Hk. by left.
      * destruct (decide (i = j)) as [->|Hne].
        -- destruct (Hlink w Hrun) as [-> Hm]. simplify_eq/=. intros [x Hx]. rewrite lookup_insert_eq in Hx. simplify_eq. intros Hk _.
           destruct (Hm Hk) as (prefix & Hv & Hlen). exists prefix. cbn. split; [|done]. rewrite app_assoc, <- Hv.
           apply (view_write _ (ab_next_offset w0) data x); [done|rewrite <- Hk; exact Hfit|rewrite <- Hk; exact Hcalls].
        -- intros [x Hx] Hk Hlive. rewrite lookup_insert_ne in Hx by done. eapply matches_view; [|by apply Hans; [by exists x|done|auto]].
           eapply (Hquiet t _ _ HT); [done|cbn; congruence|auto|cbn; congruence].
    + destruct Hinv as (Hf & Hi & Hlink). split_and!; [auto|by apply lookup_insert_is_Some'; right|]. intros w1. rewrite run_insert. case_decide; [subst|].
      * destruct J; [|done]. intros [= <-]. exfalso. destruct (Hlink w Hrun) as [-> _]. by simplify_eq/=.
      * intros Hw1. destruct (Hlink w1 Hw1) as [-> Hm]. split; [done|]. intros Hk. eapply matches_view; [|by auto].
        eapply (Hother i); [done|exact Hw1|]. cbn. rewrite <- Hk. by left.
  - intros j' w'. rewrite Ejobs, run_insert. case_decide; [subst|].
    + destruct J as [w1|]; [|done]. intros [= <-]. pose proof (st_jobs c Hs j' w Hrun) as Hwf. destruct w; simplify_eq/=.
      destruct candidates as [|[k' e] rest]; [done|]. case_bool_decide; simplify_eq/=. intros k1 e1 Hin. apply (Hwf k1 e1). by right.
    + intros Hw'. pose proof (st_jobs c Hs j' w' Hw') as Hwf. destruct w'; try done. cbn in *. destruct Hwf as (? & ? & ?). auto.
  - intros k' e ?%Hw. by eapply (st_writes c Hs).
Qed.

Lemma streams_lost c' j : job_lost j c = Ok c' -> streams c'.
Proof.
  intros H. destruct (lost_shrinks _ _ _ H) as [Hl Hw]. destruct (lost_jobs _ _ _ H) as (w & Hj & Ejobs & Es & Et & _).
  destruct Hs as [Hg Ht Hjobs Hwr]. constructor; rewrite ?Es; [done| | |].
  - intros t T HT. rewrite Et in HT. pose proof (Ht t T HT) as Hinv. rewrite Ejobs.
    assert (forall e, live (rg_entries (co_registry c')) e -> live (rg_entries (co_registry c)) e) as Hl' by done.
    destruct (decide (task_awaits T = Some j)) as [Ha|Ha].
    + assert (run (<[j := Ended None]> (co_jobs c)) j = None) as Hr by (by rewrite run_insert, decide_True).
      assert (~ answered_ok (<[j := Ended None]> (co_jobs c)) j) as Hn by (intros [x Hx]; by rewrite lookup_insert_eq in Hx).
      assert (is_Some (<[j := Ended None]> (co_jobs c) !! j)) as Hi by (rewrite lookup_insert_eq; eauto).
      destruct T; simplify_eq/=; try done; [destruct Hinv as (? & _)|destruct Hinv as (? & ? & _)|destruct Hinv as (? & _)]; split_and!; try done; rewrite ?Hr; try done.
    + eapply task_inv_mono; [exact Hinv|auto|]. intros i Hi _. rewrite lookup_insert_ne; [done|congruence].
  - intros j' w'. rewrite Ejobs, run_insert. case_decide; [done|apply Hjobs].
  - intros k' e ?%Hw. by eapply Hwr.
Qed.
End Ends.

(** *** The whole system *)

Context (Hretains : forall call, allowed call -> call <> CallReclaim k.1 k.2).

Lemma streams_idle up n s : good s -> streams (idle up n s).
Proof. intros Hg. constructor; cbn; try done. Qed.

Lemma streams_handle (c c' : Core S) ev : core_inv c -> streams c -> possible allowed c ev -> handle f ev c = Ok c' -> streams c'.
Proof.
  intros Hc Hs Hp H. pose proof (streams_opening c c' Hc Hs) as Ho. pose proof (streams_streaming c c' Hc Hs) as Hst.
  pose proof (streams_reads c c' Hc Hs) as Hrd. pose proof (streams_reclaim c c' Hc Hs) as Hrc.
  set (no_read := mk_ReadBlockRequest EmptyString (mk_BlockId 0 0) 0 0 0 0 0 0 0). set (no_key := (EmptyString, mk_BlockId 0 0)).
  destruct ev; cbn [handle] in H.
  - by eapply streams_write_block.
  - apply (Ho t visible join_error); auto.
  - apply (Ho t 0 error); auto.
  - by eapply streams_register.
  - apply (Ho t 0 join_error); auto 10.
  - apply (Ho t 0 join_error); auto 10.
  - apply (Ho t 0 join_error); auto 10.
  - apply (Ho t 0 join_error); auto 10.
  - apply (Hst t data join_error); auto 10.
  - apply (Hst t [] join_error); auto 10.
  - apply (Hst t [] join_error); auto 10.
  - apply (Hst t [] join_error); auto 10.
  - apply (Hst t [] error); auto 10.
  - apply (Hst t [] join_error); auto 10.
  - apply (Hst t [] join_error); auto 10.
  - apply (Hrd r 0%nat); auto.
  - apply (Hrd no_read t); auto.
  - apply (Hrd no_read t); auto.
  - apply (Hrd no_read t); auto.
  - apply (Hrc k0 0%nat); auto.
  - apply (Hrc no_key t); auto.
  - apply (Hrc no_key t); auto.
  - apply (Hrc no_key t); auto.
  - apply (streams_clean c c' Hc Hs drain 0%nat (HJob 0)); auto.
  - apply (streams_clean c c' Hc Hs false p h); auto.
  - by eapply streams_ended.
  - by eapply streams_lost.
Qed.

Lemma streams_step (c c' : Core S) : core_inv c -> streams c -> core_step f allowed c c' -> streams c'.
Proof.
  intros Hc Hs Hstep. pose proof (st_good c Hs) as Hg. destruct Hstep as [ev c1 _ Hp Hh|s _ Hr| |j call s _ [Hcall Hal] Hcut|s _ Hst|s _ Hst].
  - by eapply streams_handle.
  - destruct (good_report _ _ Hg Hr) as (Hg' & Hv & Hop). destruct Hs as [_ Ht Hj Hw]. constructor; cbn; try done.
    + intros t T HT. specialize (Ht t T HT). assert (forall w, stream_fits (co_store c) w -> stream_fits s w) as Hsf by (intros w [? ? ? ?]; constructor; auto).
      assert (forall w, matches (co_store c) w -> matches s w) as Hm by (intros w; by apply matches_view).
      destruct T; cbn in *; rewrite ?Hv; naive_solver.
    + intros j w Hw'. specialize (Hj j w Hw'). destruct w; cbn in *; naive_solver.
  - by apply streams_idle.
  - apply streams_idle. unfold job_call in Hcall. destruct (co_jobs c !! j) as [[w|]|] eqn:Hj; try done.
    eapply good_cut; [done| |by apply Hretains|done]. eapply work_call_fits; [|done]. apply (st_jobs c Hs j w). unfold run. by rewrite Hj.
  - apply streams_idle. by eapply good_stopped.
  - apply streams_idle. by eapply good_start.
Qed.

Lemma streams_reach (c c' : Core S) : core_inv c -> streams c -> core_reach f allowed c c' -> core_inv c' /\ streams c'.
Proof.
  intros Hc Hs Hr. induction Hr as [|c c1 c' Hstep Hr IH]; [done|]. apply IH; [by eapply inv_step|by eapply streams_step].
Qed.

(** When a checkpoint runs for a stream, the block's data are the stream's. *)
Lemma checkpoint_matches (c : Core S) t w j : streams c -> co_tasks c !! t = Some (T_Finishing w j) -> is_Some (run (co_jobs c) j) ->
  write_key (ab_request w) = k -> matches (co_store c) w /\ run (co_jobs c) j = Some (W_Checkpoint (ab_registration w) (checkpoint_request w)).
Proof.
  intros Hs Ht [w0 Hr] Hk. destruct (st_tasks c Hs t _ Ht) as (_ & _ & Hlink). destruct (Hlink w0 Hr) as [-> Hm]. auto.
Qed.
End Streams.
